(* ===== verification/_CoqProject ===== *)
-Q . S2P
Prelude.v
Secretbox.v
JobStore.v
JobQueue.v
JobClaim.v
JobOps.v
JobLife.v
JobFacts.v
JobWorld.v
JobRefine.v
JobInv.v
JobProps.v
JobGlobal.v
JobStartup.v
GoPath.v
GoText.v
Regex.v
Archive.v
ArchiveProps.v
Capacity.v
CapacityProps.v
DBLocks.v
Session.v
DomainName.v
RateLimit.v
Encoding.v
Names.v
Accounts.v
AccountsProps.v
ApiTokens.v
Auth.v
AuthProps.v
SiteLayout.v
Effects.v
Sites.v
SitesProps.v
StageProps.v
SiteCreate.v
SiteCreateProps.v
Releases.v
ReleasesProps.v
SiteTx.v
SiteTxProps.v
SiteIdentity.v
SiteIdentityProps.v
SafeHTTP.v
BrokerTypes.v
BrokerValidate.v
BrokerValidateProps.v
BrokerFence.v
BrokerFenceProps.v
Scheduler.v
SchedulerProps.v
AuditLog.v
AuditLogProps.v
AuditOutbox.v
Termination.v
Retention.v
ControlState.v
DomainClaims.v
HTAccess.v
