(* ===== verification/Prelude.v ===== *)
(** * StePanel: a verification development of its control plane

    StePanel is a hosting panel written in Go. A panel process serves the HTTP
    interface, worker processes run durable jobs, and a root broker performs
    privileged changes of the host; the processes share one SQLite database. This
    library models the components that carry the panel's own guarantees and
    proves what the rest of the program relies on.

    ** Components and files

    - [Prelude]: Go errors and results, the environment of an operation, strings,
      bytes and the comparisons of SQL columns that may be NULL, with the lemmas
      and automation the other files share.
    - [Secretbox] ([internal/secretbox/secretbox.go]): sealing with associated
      data. AES-GCM, HKDF and SHA-256 are the class [AEAD]; what is used of them
      are the classes [AEADLaws] (opening what was sealed) and [AEADBinding]
      (nothing opens under other associated data); a toy instance shows both can
      hold. Base64 and JSON text are the class [JSONText] of [JobStore].
    - The durable job queue ([jobs.go], table and indexes of [controlplane.go]):
      [JobStore] (records, rows, encoding, the persistence primitives),
      [JobQueue] (claim by ID, renewal, completion, failure, progress, recovery
      of expired leases), [JobClaim] (the two claim queries and [ClaimNext]),
      [JobOps] (worker contract, admission, idempotency keys, cancellation),
      [JobLife] (dead letters, reads, retention, startup, the worker body).
      [JobFacts] holds the shared lemmas. [JobWorld] is the step relation of
      several processes, each with its private cache ([Jobs]) over one database,
      with starts and crashes at any point; [JobRefine] shows that every operation
      refines one of the three abstract changes [tstep] of the table; [JobInv]
      lifts this to all reachable worlds; [JobProps] and [JobGlobal] state the
      properties of single operations and of whole executions, [JobStartup] what
      a restart recovers.
    - [GoPath] (the rules of Go's [path.Clean], [path.Dir] and
      [utf8.ValidString]), [Archive] and [ArchiveProps]
      ([internal/archivesafe/archivesafe.go]): what an untrusted archive may
      create.
    - [Capacity] and [CapacityProps] ([upload_admission.go]): the ledger of disk
      space promised to uploads and imports.
    - [DBLocks] ([internal/operations/db_locks.go]): leased locks with fencing
      generations, which guard host mutations across processes.
    - [Session] ([internal/session/registry.go]): the revocable sessions.
    - [DomainName] ([internal/domainname/domainname.go]): the one validator of
      host names.
    - [RateLimit] ([internal/auth/ratelimit.go]): the login limiter.
    - [GoText] and [Regex]: the functions of Go's [strings] and [strconv] that
      the code uses, and regular expressions, as syntax, matched by derivatives
      and specified by the relation [Matches].
    - [Encoding] (base32 and base64) and [Names] ([safeUser] of [main.go]).
    - [Accounts] and [AccountsProps] ([accounts.go], [encryption_format.go]): the
      store of customer identities, a cache of two tables that several processes
      write with optimistic guards. bcrypt and JSON are the class [AccountLib].
    - [ApiTokens] ([api_tokens.go],
      [internal/auth/legacy_token_deprecation.go]): tokens of automation clients.
    - [Auth] and [AuthProps] ([auth.go], [tenancy.go], [canAccessSite] of
      [sites.go], [authorizeDurableSiteJob] of [jobs.go]): login, sessions, the
      middleware and site authorization, composed of [Accounts], [Session],
      [ApiTokens] and [RateLimit].
    - [SiteLayout] ([internal/sitelayout]): hosting accounts, their Unix users and
      the placement of sites in their homes, with the constraints of the tables.
    - [Effects]: programs that change the host: calls that may fail, a kill before
      any change, and the rules to reason about them.
    - The site manager ([internal/sites], [site_location.go],
      [site_manager_bridge.go], the safe paths of [internal/helper/helpers.go]):
      [Sites] (the host, locations, stages, activation, rollback, cleanup,
      deletion), [SiteCreate] (leases, creation, clones), with the rules and
      theorems of [SitesProps], [StageProps] and [SiteCreateProps].
    - [Releases] and [ReleasesProps] ([release_activation_journal.go],
      [activatePipelineRelease] of [release_pipeline.go], retention in
      [git_deploy.go]): the activation of a release over the site manager, the
      recovery of an interrupted one, and the pruning of replaced ones.
    - [SiteTx] and [SiteTxProps] ([recovery.go],
      [internal/recovery/site_transaction.go], [route_identity.go], the snapshot
      renames of [internal/rootbroker/broker.go]): the transactions that restores,
      imports and creations run in, and their recovery.
    - [SiteIdentity] and [SiteIdentityProps] ([internal/siteidentity]): the Unix
      accounts of the sites, the gate at startup and the repair of shared accounts.
      The host of a repair is the class [RepairHost] with [RepairHostLaws].
    - [SafeHTTP] ([internal/safehttp/safehttp.go]): which addresses the panel may
      connect to; the parsers of addresses and URLs are the class [NetText].
    - The root broker ([internal/rootbroker]): [BrokerTypes] (requests and
      timeout classes), [BrokerValidate] and [BrokerValidateProps] (every
      validator, the helper argument schemas, the arguments of wp-cli),
      [BrokerFence] and [BrokerFenceProps] (the path of a request to its
      dispatch: validation, verification of its tokens through [DBLocks], the
      scope they must cover, and the watchdog), [Scheduler] and [SchedulerProps]
      (keyed locks and the admission gate, as a step relation of any number of
      concurrent requests).
    - [HTAccess] ([translateHTAccess] of [htaccess.go]): what of an untrusted
      Apache configuration reaches the web server.
    - [AuditLog] and [AuditLogProps] ([internal/audit/logger.go]): the signed
      chain of audit events and its state file. HMAC, JSON and times are the
      class [Audit], what is used of them [AuditLaws]; [Toy] is an instance.
    - [AuditOutbox] ([audit_outbox.go]): the events that wait for the log and the
      security operations they belong to. What the outbox needs of a log is the
      class [Sink]; the signed log is its instance [log_sink].
    - [Termination] ([internal/sitelifecycle/termination.go],
      [site_lifecycle_journal.go], end of [handleSiteTermination]): the journaled
      deletion of a site, over all its attempts.
    - [Retention] ([backup_retention.go]): pruning backups through tombstones.
    - [ControlState] ([controlplane.go], [state_persistence.go]): maps shared by
      several processes as one row with a revision, with the conflict merge.
    - [DomainClaims] ([domain_claims.go]): which site may serve a domain.

    The broker is where the components meet: its scope check reads the placements
    of [SiteLayout], its tokens are leases of [DBLocks], and C20 combines the
    watchdog with the exclusion theorem of the locks. Authentication is another: a
    request is served when the account store, the session registry and the token
    store agree, each read at its own moment while other processes act. A release
    is activated by the site manager at the place the panel derives for itself, and
    C29 shows that the two derivations agree.

    ** How the code is modelled

    A stateful Go method is a function from the state to a result and the new
    state, under an environment [Env] that gives the successive clock readings,
    the outcome of every database or file-system call (any of them may fail), and
    the random values drawn; the comment of each operation numbers the calls. A
    database table is a finite map from its primary key to a record of its
    columns; an SQL statement is the function it computes on the table, a
    transaction commits or leaves the table as it was, and the unique indexes are
    enforced by [put_row]. The methods of one Go object run under its mutex, so
    one operation is one atomic step of its process; processes interleave between
    operations, except that [DBLocks.Acquire] and [DBLocks.Hold] take the changes
    of other processes between their attempts as an argument. Integers are [Z]:
    byte counts of the ledger carry the 64-bit bounds and overflow tests of the
    code, times are nanoseconds (seconds in [Session]) and cannot overflow before
    the year 2262. Strings of records that are stored as JSON are taken to be valid
    UTF-8, and raw JSON to be compact, so that encoding and decoding them gives
    them back ([encoding/json] replaces invalid bytes and drops blanks). Error values keep the sentinel that callers test with
    [errors.Is]; formatted arguments of messages are dropped.

    Where the order of single statements matters, the steps are smaller: the
    scheduler steps at every lock and channel operation, a shared map at every
    database statement, a termination, a pruning, and every operation of the site
    manager, of the releases, the transactions and the account repair at every effect on the host, with a kill possible
    between any two. The host of [Sites] holds whole trees (a document root, a
    stage, a preserved release) by directory and name; deleting a tree has a state in
    between, in which the tree is not whole, and the copy of a clone walks folders,
    links and files, a file buffer by buffer. The audit log is written under a lock,
    so an append is one step whose failures leave the files as they were at that
    point.

    ** What is proved

    - Queue (C1-C7): the optimised claim search equals the plain definition of
      the oldest eligible job; every step of every process refines the abstract
      queue, so that in every reachable world ended leases stay dead; an operation
      of a lease holder is fenced by its token; submissions are idempotent; and a
      renewal can erase a cancellation recorded by another process. The steps are
      those of [JobWorld.Op]. Claiming by ID, which the program does not call, is
      one under the flag [by_id]: the refinement and the dead leases hold with it;
      that an owner has one live job holds without it, and [claim_by_id_runs_two]
      shows two with it. The submissions of rows that run already ([Submit] and
      its variants) and the rewriting of legacy cloud owners at a start are not
      steps. What claiming, admission, recovery and failure do on every branch,
      the recovery of a restart, unique operation keys, retention and the binding
      of payloads to jobs are proved beside them.
    - Accounts and tokens (C8-C11): every site has the owner the accounts say,
      whatever processes do at the same time; no update is lost; a revoked token
      stays dead; a token authenticates with the scopes it was issued with until
      it expires or is revoked, whatever happens to other tokens. Recovery codes
      that work once are beside them.
    - Authentication (C12-C15): a tenant reaches its own sites only; nobody who is
      suspended is served; a change of credentials ends the sessions, as long as
      the account can be read ([failed_read_revives_session]); a one-time
      code is accepted once. That a queued job runs exactly while its tenant may,
      that a login gives a session that works and that tokens stay within the role
      of their owner is beside them, with the reads whose failure lets a request
      pass.
    - Scheduler (C16-C18): mutual exclusion and the concurrency limit, no deadlock
      and no lost wake-up, and termination of every execution.
    - Broker (C19-C22): whatever is dispatched only reads, creates a site, or runs
      under live leases that cover what it changes; a running operation is not
      overtaken while the watchdog runs it and nobody gives its lease back;
      no request makes the broker dereference a missing payload; file operations,
      their destinations included, stay in their site. Limits, staging paths and
      wp-cli arguments that pass validation are beside them.
    - Transactions, accounts, sites and releases (C23-C29): a restore that is killed, with
      recoveries that are killed too, ends with the old site at its place (for a
      site whose snapshots are in the recovery root, when no call fails after its
      beginning); a repair of shared accounts completes after any interruptions and
      satisfies the gate; an activation that replaces a release and is killed anywhere
      is settled by the recovery of the next start, when no call fails; whatever
      fails, the release that is replaced survives; a clone appears whole, equal to
      its source and on the disk, or not at all, and touches
      nothing else; cleanup spares the stages in use; the panel and the manager
      agree on every location. Creation, leases that protect their stage, stages
      that belong to one site and the pruning of releases are beside them, with
      the sequences of kills and failures that recovery does not survive.
    - Termination (C30-C31): any history of attempts follows the protocol (a
      refinement of an automaton, for each life of the journal), and an undisturbed
      attempt completes. A fault in the cleanup of the journal itself starts a
      second life ([cleanup_fault_restarts]).
    - Audit log (C32-C33): the chain invariant under every failure for readable
      events, and tamper evidence: two logs that one state accepts are equal, or
      hold a collision of the code at one and the same position. What a successful
      append recorded and the failures that stop the log are beside them.
    - Shared state and backups (C34-C35): a saved change touches only its key, as
      long as no reload fails; pruning leaves every backup whole or gone, and never
      the protected one.
    - Locks (C36): fencing for good. Exclusion while a token verifies, increasing
      generations, waiting, and what [Hold] guarantees are beside it.
    - Audit outbox (C37): no accepted event is lost between its row and the log,
      with any number of publishers. Publication in order and operations that are
      closed once are beside it.
    - Capacity (C38): admission never over-commits a file system, with exact
      reservations beside it.
    - Layout of sites (C39): the document roots of two sites are disjoint; Unix
      users that are never reused are beside it.
    - Domain claims (C40): a domain is verified only for the claim whose token was
      seen, with several processes on one row.

    Sessions (revocation and logout), archives
    (normal names, claimed paths as a tree, extraction limits), public
    addresses, host names, the limiter and the import of Apache directives (which
    cannot inject configuration) have theorems in their files.

    ** Fuel and bounds

    Loops that do not recurse on their data take fuel, and lemmas show that it
    suffices: the owner walk of the claim query gets the number of rows
    ([queued_owners_complete]), the ancestor walk of an archive path its length
    ([plan_fuel]), the extension loop of a progressive upload one more than the
    number of steps to the limit ([extend_loop_ahead]), the varint encoder the ten
    bytes of a 64-bit value, the compaction of lock keys their number, the
    decoding of runes and the fields of a line the number of bytes, and decimal numbers twenty digits. The
    scheduler has no fuel: its executions are shown to be finite.

    ** What is not modelled

    The destination of an extraction holds no symbolic links (the program confines
    it with [os.Root]). The job queue without a database, its event stream and
    paginated listings; schema migrations; the account store without a database;
    the lock file of the audit log, its export, rotation and checkpoints. Code that
    starts programs: the handlers of the broker behind its dispatch, builds,
    database dumps and restores, web server and service control, importers of
    foreign archives. Clients of external services (DNS, certificates, cloud and
    offsite storage). The goroutines, tickers, request decoding, routing and pages
    around the components, which are input and output. The token limiter computes
    with floating point and is given as the verdict of a request. *)
From Stdlib Require Export Ascii.
From stdpp Require Export prelude gmap strings list sorting.
From coqutil Require Export Datatypes.RecordSetters.
Export TriangleBracketNotations.

Declare Scope go_scope.
Delimit Scope go_scope with go.
Open Scope Z_scope.

Arguments constant {E} newValue / _.

(** ** Errors and results *)

(** A Go error: a sentinel variable ([var ErrX = errors.New(...)]), an error
    built on the spot, or an error wrapped with [%w]. *)
Inductive error : Type :=
  | ESentinel (name : string)
  | EMsg (msg : string)
  | EWrap (context : string) (inner : error).

#[export] Instance error_eq_dec : EqDecision error.
Proof. solve_decision. Defined.

(** [errors.Is]: compares along the chain of wrapped errors. *)
Fixpoint errors_is (e target : error) : bool :=
  bool_decide (e = target) ||
  match e with EWrap _ inner => errors_is inner target | _ => false end.

(** A Go call that returns a value and an error. *)
Inductive res (A : Type) : Type :=
  | Ok (a : A)
  | Err (e : error).
Arguments Ok {A} _.
Arguments Err {A} _.

#[export] Instance res_ret : MRet res := fun A a => Ok a.
#[export] Instance res_bind : MBind res := fun A B f m =>
  match m with Ok a => f a | Err e => Err e end.
#[export] Instance res_eq_dec A `{EqDecision A} : EqDecision (res A).
Proof. solve_decision. Defined.

#[export] Instance Ok_inj A : Inj (=) (=) (@Ok A).
Proof. by intros ?? [= ->]. Qed.

Definition is_ok {A} (r : res A) : bool :=
  match r with Ok _ => true | Err _ => false end.

Lemma bind_Ok {A B} (f : A → res B) (m : res A) b :
  m ≫= f = Ok b ↔ ∃ a, m = Ok a ∧ f a = Ok b.
Proof.
  destruct m as [a|e]; cbn; split; intros H; [by exists a| |done|].
  - by destruct H as [a' [[= ->] H]].
  - by destruct H as [a' [[=] H]].
Qed.

(** [if cond { return err }]. *)
Definition guard_err (cond : bool) (e : error) : res unit :=
  if cond then Err e else Ok tt.

Lemma guard_err_Ok c e u : guard_err c e = Ok u ↔ c = false.
Proof. destruct c, u; cbn; split; congruence. Qed.

(** ** The world outside one operation *)

(** What an operation reads from outside the modelled state: the successive
    results of [time.Now] (nanoseconds), which of its successive database or
    file-system calls fail, and the successive results of the secure random
    source ([None] when reading it fails). The [n]-th call of each kind in the
    body of the operation reads index [n]. *)
Record Env := mkEnv {
  clock : nat → Z;
  fault : nat → bool;
  rand : nat → option string
}.

(** An environment in which nothing fails and the clock stands still. *)
Definition calm (t : Z) (secret : string) : Env :=
  mkEnv (λ _, t) (λ _, false) (λ _, Some secret).

(** [time.Duration] units, in nanoseconds. *)
Definition Second : Z := 1000000000.
Definition Minute : Z := 60 * Second.
Definition Hour : Z := 60 * Minute.

(** A call into the database or the file system that may fail. *)
Definition io_err : error := EMsg "input/output error".

(** ** Byte strings *)

(** Go strings are byte sequences; [len] counts bytes. *)
Definition len (s : string) : Z := Z.of_nat (String.length s).

Definition bytes_of (s : string) : list ascii := String.list_ascii_of_string s.
Definition of_bytes (l : list ascii) : string := String.string_of_list_ascii l.
Definition code (c : ascii) : Z := Z.of_N (Ascii.N_of_ascii c).
Definition chr (z : Z) : ascii := Ascii.ascii_of_N (Z.to_N z).

(** [lo <= c && c <= hi] on the byte value. *)
Definition in_range (lo hi : ascii) (c : ascii) : bool :=
  (code lo <=? code c) && (code c <=? code hi).
Definition is_lower (c : ascii) : bool := in_range "a" "z" c.
Definition is_upper (c : ascii) : bool := in_range "A" "Z" c.
Definition is_digit (c : ascii) : bool := in_range "0" "9" c.

(** [strings.ContainsRune(set, c)] for an ASCII set. *)
Definition one_of (set : string) (c : ascii) : bool :=
  bool_decide (c ∈ bytes_of set).

Definition all_bytes (p : ascii → bool) (s : string) : bool := forallb p (bytes_of s).
Definition any_byte (p : ascii → bool) (s : string) : bool := existsb p (bytes_of s).

(** [strings.HasPrefix] and [strings.TrimPrefix]. *)
Fixpoint strip_prefix (p s : list ascii) : option (list ascii) :=
  match p, s with
  | [], _ => Some s
  | _ :: _, [] => None
  | a :: p', b :: s' => if decide (a = b) then strip_prefix p' s' else None
  end.
Definition has_prefix (s p : string) : bool :=
  match strip_prefix (bytes_of p) (bytes_of s) with Some _ => true | None => false end.
Definition has_suffix (s p : string) : bool :=
  match strip_prefix (reverse (bytes_of p)) (reverse (bytes_of s)) with
  | Some _ => true | None => false end.

(** [strings.Split(s, sep)] for a one-byte separator. *)
Fixpoint split_bytes (sep : ascii) (s : list ascii) : list (list ascii) :=
  match s with
  | [] => [[]]
  | c :: s' =>
      if decide (c = sep) then [] :: split_bytes sep s'
      else match split_bytes sep s' with
           | w :: ws => (c :: w) :: ws
           | [] => [[c]]
           end
  end.
Definition split (sep : ascii) (s : string) : list string :=
  of_bytes <$> split_bytes sep (bytes_of s).

(** [strings.Join(parts, sep)]. *)
Fixpoint join (sep : string) (parts : list string) : string :=
  match parts with
  | [] => ""
  | [p] => p
  | p :: rest => p +:+ sep +:+ join sep rest
  end.

(** The UTF-8 encodings of the runes [unicode.IsSpace] accepts. *)
Definition space_encodings : list (list ascii) :=
  map (map chr)
  [ [9]; [10]; [11]; [12]; [13]; [32]; [194; 133]; [194; 160];
    [225; 154; 128]; [226; 128; 128]; [226; 128; 129]; [226; 128; 130];
    [226; 128; 131]; [226; 128; 132]; [226; 128; 133]; [226; 128; 134];
    [226; 128; 135]; [226; 128; 136]; [226; 128; 137]; [226; 128; 138];
    [226; 128; 168]; [226; 128; 169]; [226; 128; 175]; [226; 129; 159];
    [227; 128; 128] ].

Fixpoint strip_any (ps : list (list ascii)) (s : list ascii) : option (list ascii) :=
  match ps with
  | [] => None
  | p :: ps' => match strip_prefix p s with Some r => Some r | None => strip_any ps' s end
  end.

(** Removes leading occurrences of the patterns; every round removes at least
    one byte, so the length of the string is enough fuel. *)
Fixpoint strip_leading (fuel : nat) (ps : list (list ascii)) (s : list ascii) : list ascii :=
  match fuel with
  | O => s
  | S n => match strip_any ps s with Some r => strip_leading n ps r | None => s end
  end.

(** [strings.TrimSpace]. *)
Definition TrimSpace (s : string) : string :=
  let l := bytes_of s in
  let left := strip_leading (length l) space_encodings l in
  let right := strip_leading (length left) (reverse <$> space_encodings) (reverse left) in
  of_bytes (reverse right).

(** [strings.ToLower] on ASCII letters (other bytes are left alone). *)
Definition lower_byte (c : ascii) : ascii := if is_upper c then chr (code c + 32) else c.
Definition lower_ascii (s : string) : string := of_bytes (lower_byte <$> bytes_of s).

Lemma of_bytes_of s : of_bytes (bytes_of s) = s.
Proof. apply String.string_of_list_ascii_of_string. Qed.
Lemma bytes_of_of l : bytes_of (of_bytes l) = l.
Proof. apply String.list_ascii_of_string_of_list_ascii. Qed.
#[export] Instance bytes_of_inj : Inj (=) (=) bytes_of.
Proof. intros s t H. rewrite <- (of_bytes_of s), <- (of_bytes_of t). by rewrite H. Qed.
Lemma length_bytes_of s : length (bytes_of s) = String.length s.
Proof. induction s; cbn; [done | by f_equal]. Qed.
Lemma bytes_of_app s t : bytes_of (s +:+ t) = bytes_of s ++ bytes_of t.
Proof.
  unfold bytes_of. induction s as [|c s IH]; [done|].
  change (c :: String.list_ascii_of_string (s +:+ t) = c :: String.list_ascii_of_string s ++ String.list_ascii_of_string t).
  by rewrite IH.
Qed.
Lemma len_app s t : len (s +:+ t) = len s + len t.
Proof. unfold len. rewrite <- !length_bytes_of, bytes_of_app, length_app. lia. Qed.
Lemma len_nonneg s : 0 ≤ len s.
Proof. unfold len. lia. Qed.
Lemma len_zero s : len s = 0 ↔ s = "".
Proof. unfold len. destruct s; cbn; split; intros; try done; lia. Qed.
Lemma code_bound c : 0 ≤ code c < 256.
Proof. unfold code. destruct c as [[][][][][][][][]]; vm_compute; split; congruence. Qed.
#[export] Instance code_inj : Inj (=) (=) code.
Proof.
  intros a b H. unfold code in H. apply N2Z.inj in H.
  rewrite <- (ascii_N_embedding a), <- (ascii_N_embedding b). by rewrite H.
Qed.

(** ** SQL comparisons with a nullable column *)
Definition sql_le (o : option Z) (t : Z) : bool :=
  match o with Some x => x <=? t | None => false end.
Definition sql_gt (o : option Z) (t : Z) : bool :=
  match o with Some x => t <? x | None => false end.
Definition sql_lt (o : option Z) (t : Z) : bool :=
  match o with Some x => x <? t | None => false end.

(** [nullString]: an empty string is stored as NULL. *)
Definition null_string (s : string) : option string :=
  if decide (s = "") then None else Some s.

(** ** Lists *)

Lemma length_filter_le {A} (P Q : A → Prop) `{∀ x, Decision (P x), ∀ x, Decision (Q x)} (l : list A) :
  (∀ x, x ∈ l → P x → Q x) → (length (filter P l) ≤ length (filter Q l))%nat.
Proof.
  intros HPQ. induction l as [|a l IH]; [done|].
  assert (length (filter P l) ≤ length (filter Q l))%nat.
  { apply IH. intros x Hx. apply HPQ. by apply elem_of_cons; right. }
  rewrite !filter_cons. destruct (decide (P a)) as [HP|].
  - rewrite decide_True by (apply HPQ; [by apply elem_of_cons; left | done]). cbn. lia.
  - case_decide; cbn; lia.
Qed.

Lemma length_filter_lt {A} (P Q : A → Prop) `{∀ x, Decision (P x), ∀ x, Decision (Q x)} (l : list A) y :
  (∀ x, x ∈ l → P x → Q x) → y ∈ l → Q y → ¬ P y →
  (length (filter P l) < length (filter Q l))%nat.
Proof.
  intros HPQ Hy HQ HP. apply list_elem_of_split in Hy as (l1 & l2 & ->).
  rewrite !filter_app, !filter_cons, !length_app.
  rewrite decide_False, decide_True by done. cbn.
  assert (length (filter P l1) ≤ length (filter Q l1))%nat
    by (apply length_filter_le; intros; apply HPQ; [set_solver | done]).
  assert (length (filter P l2) ≤ length (filter Q l2))%nat
    by (apply length_filter_le; intros; apply HPQ; [set_solver | done]).
  lia.
Qed.

Lemma existsb_exists_elem {A} (f : A → bool) (l : list A) :
  existsb f l = true ↔ ∃ x, x ∈ l ∧ f x = true.
Proof. rewrite existsb_exists. setoid_rewrite list_elem_of_In. done. Qed.

Lemma existsb_false_elem {A} (f : A → bool) (l : list A) :
  existsb f l = false ↔ ∀ x, x ∈ l → f x = false.
Proof.
  rewrite <- not_true_iff_false, existsb_exists_elem. split.
  - intros H x Hx. destruct (f x) eqn:E; [|done]. exfalso. eauto.
  - intros H [x [Hx E]]. rewrite H in E; done.
Qed.

(** ** Maps *)

Lemma insert_cases {V} (m : gmap string V) id k v w :
  <[id := v]> m !! k = Some w → (k = id ∧ w = v) ∨ (k ≠ id ∧ m !! k = Some w).
Proof. rewrite lookup_insert. case_decide; intros; simplify_eq; auto. Qed.

(** ** Automation *)

(** Case analysis on the boolean tests and matches of a definition. *)
Ltac case_if :=
  match goal with
  | |- context [if ?b then _ else _] =>
      lazymatch type of b with bool => destruct b eqn:? end
  | H : context [if ?b then _ else _] |- _ =>
      lazymatch type of b with bool => destruct b eqn:? end
  end.
Ltac case_step :=
  match goal with
  | H : Ok _ = Ok _ |- _ => injection H as H
  | H : Err _ = Err _ |- _ => injection H as H
  | H : Ok _ = Err _ |- _ => discriminate H
  | H : Err _ = Ok _ |- _ => discriminate H
  | H : Some _ = Some _ |- _ => injection H as H
  | H : (_, _) = (_, _) |- _ => injection H as ? ?
  | H : _ ∧ _ |- _ => destruct H
  | H : ∃ _, _ |- _ => destruct H
  | H : context [match ?x with _ => _ end] |- _ =>
      lazymatch type of x with
      | sumbool _ _ => destruct x
      | _ => destruct x eqn:?
      end
  end.
Ltac go_cases := repeat (case_step; subst; try discriminate).

Create HintDb go.
#[export] Hint Resolve len_nonneg code_bound : go.
