(* ===== verification/Secretbox.v ===== *)
(** * Secretbox: context-bound sealing of small secrets

    Models [src/internal/secretbox/secretbox.go]. The block cipher, GCM and
    HKDF are the interface [AEAD]; the framing (magic, nonce, ciphertext), the
    unambiguous encoding of purpose and context as associated data, and the
    checks of [Open] are modelled byte for byte. *)
From S2P Require Import Prelude.

Module Secretbox.

Abbreviation bytes := (list ascii).

Definition Magic : bytes := bytes_of "SPB2".
Definition aadLabel : string := "stepanel-secretbox-v2".

Definition ErrNotSealed : error := ESentinel "secretbox: value is not in the context-bound format".

(** Go's [int] on the supported platforms. *)
Definition maxInt : Z := 2 ^ 63 - 1.

(** What the package relies on of [crypto/cipher], [crypto/aes] and
    [crypto/hkdf]. *)
Class AEAD : Type := {
  NonceSize : nat;
  Overhead : nat;
  aead_seal : bytes → bytes → bytes → bytes → bytes;  (* key nonce plaintext ad *)
  aead_open : bytes → bytes → bytes → bytes → option bytes;  (* key nonce ciphertext ad *)
  hkdf : bytes → string → option bytes;
  sha256 : bytes → bytes
}.

(** The documented contract of [cipher.AEAD]: opening what was sealed under
    the same key, nonce and associated data returns the plaintext, and the
    ciphertext carries the authentication overhead. *)
Class AEADLaws `{A : AEAD} : Prop := {
  aead_open_seal k n p a : aead_open k n (aead_seal k n p a) a = Some p;
  aead_overhead k n p a : (Overhead ≤ length (aead_seal k n p a))%nat
}.

(** The security idealisation: a ciphertext authenticates its associated data
    and plaintext, that is it opens under one associated data only. *)
Class AEADBinding `{A : AEAD} : Prop := {
  aead_authentic k n p a a' p' :
    aead_open k n (aead_seal k n p a) a' = Some p' → a' = a
}.

(** ** Associated data *)

(** [binary.PutUvarint]: seven bits per byte, least significant first, the
    high bit set on every byte but the last. Ten bytes hold 64 bits. *)
Fixpoint PutUvarint_go (fuel : nat) (x : Z) : bytes :=
  match fuel with
  | O => []
  | S n => if 128 <=? x then chr (x mod 128 + 128) :: PutUvarint_go n (x / 128)
           else [chr x]
  end.
Definition PutUvarint (x : Z) : bytes := PutUvarint_go 10 x.

(** One length-prefixed field. *)
Definition writeField (value : string) : bytes :=
  PutUvarint (len value) ++ bytes_of value.

Record Box := mkBox { purpose : string; key : bytes }.

Definition associatedData (b : Box) (context : list string) : bytes :=
  bytes_of aadLabel ++ writeField (purpose b) ++ (context ≫= writeField).

(** ** Operations *)
Section Ops.
Context `{A : AEAD}.

Definition New (masterKey : bytes) (purp : string) : res Box :=
  match masterKey with
  | [] => Err (EMsg "secretbox: master key is empty")
  | _ =>
    if decide (purp = "") then Err (EMsg "secretbox: purpose is required") else
    match hkdf masterKey ("stepanel/secretbox/v2/" +:+ purp) with
    | None => Err (EWrap "secretbox: derive key" io_err)
    | Some k => Ok (mkBox purp k)
    end
  end.

(** [IsSealed]: the value carries the current format prefix. *)
Definition IsSealed (value : bytes) : bool :=
  match strip_prefix Magic value with Some _ => true | None => false end.

(** [Seal]: [nonce] is what the secure random source returned, [None] when
    reading it failed. *)
Definition Seal (b : Box) (nonce : option bytes) (plaintext : bytes) (context : list string)
    : res bytes :=
  match nonce with
  | None => Err io_err
  | Some n =>
    let prefixLen := Z.of_nat (length Magic + length n) in
    if maxInt - prefixLen - Z.of_nat Overhead <? Z.of_nat (length plaintext)
    then Err (EMsg "secretbox: plaintext is too large")
    else Ok (Magic ++ n ++ aead_seal (key b) n plaintext (associatedData b context))
  end.

Definition Open (b : Box) (sealed : bytes) (context : list string) : res bytes :=
  match strip_prefix Magic sealed with
  | None => Err ErrNotSealed
  | Some body =>
    if decide (length body < NonceSize + Overhead)%nat
    then Err (EMsg "secretbox: sealed value is truncated") else
    match aead_open (key b) (take NonceSize body) (drop NonceSize body)
                    (associatedData b context) with
    | None => Err (EMsg "secretbox: value does not open in this context")
    | Some plain => Ok plain
    end
  end.

Definition LegacyKey (masterKey : bytes) : bytes := sha256 masterKey.

(** [aes.NewCipher] accepts 16, 24 and 32 byte keys. *)
Definition aes_key_ok (k : bytes) : bool :=
  bool_decide (length k ∈ [16; 24; 32]%nat).

Definition OpenLegacyWithKey (k nonceAndCiphertext : bytes) : res bytes :=
  if negb (aes_key_ok k) then Err (EMsg "crypto/aes: invalid key size") else
  if decide (length nonceAndCiphertext < NonceSize + Overhead)%nat
  then Err (EMsg "secretbox: legacy value is truncated") else
  match aead_open k (take NonceSize nonceAndCiphertext)
                    (drop NonceSize nonceAndCiphertext) [] with
  | None => Err (EMsg "cipher: message authentication failed")
  | Some plain => Ok plain
  end.

Definition OpenLegacy (masterKey nonceAndCiphertext : bytes) : res bytes :=
  OpenLegacyWithKey (LegacyKey masterKey) nonceAndCiphertext.

End Ops.

(** ** The length prefix decodes uniquely *)

(** [binary.Uvarint], on the bytes [PutUvarint] writes. *)
Fixpoint Uvarint_go (fuel : nat) (s : bytes) : option (Z * bytes) :=
  match fuel, s with
  | S n, c :: s' =>
      if 128 <=? code c
      then match Uvarint_go n s' with
           | Some (hi, rest) => Some (code c - 128 + 128 * hi, rest)
           | None => None
           end
      else Some (code c, s')
  | _, _ => None
  end.

Lemma code_chr z : 0 ≤ z < 256 → code (chr z) = z.
Proof.
  intros H. unfold code, chr. rewrite N_ascii_embedding by lia. lia.
Qed.

Lemma Uvarint_Put fuel x rest :
  (0 < fuel)%nat → 0 ≤ x < 128 ^ Z.of_nat fuel →
  Uvarint_go fuel (PutUvarint_go fuel x ++ rest) = Some (x, rest).
Proof.
  revert x. induction fuel as [|n IH]; intros x Hf Hx; [lia|].
  rewrite Nat2Z.inj_succ, Z.pow_succ_r in Hx by lia.
  cbn [PutUvarint_go]. destruct (Z.leb_spec 128 x) as [H|H].
  - pose proof (Z.mod_pos_bound x 128 ltac:(lia)).
    assert (0 < n)%nat by (destruct n; [cbn in Hx|]; lia).
    cbn. rewrite code_chr by lia.
    rewrite (proj2 (Z.leb_le 128 (x mod 128 + 128))) by lia.
    rewrite IH by (first [done | split; [apply Z.div_pos; lia | apply Z.div_lt_upper_bound; lia]]).
    repeat f_equal. pose proof (Z.div_mod x 128 ltac:(lia)). lia.
  - cbn. rewrite code_chr by lia. by rewrite (proj2 (Z.leb_gt 128 x)).
Qed.

(** Strings shorter than [2 ^ 63] bytes, as every Go string is. *)
Definition go_string (s : string) : Prop := len s < 2 ^ 63.

Lemma writeField_inj s t r r' :
  go_string s → go_string t →
  writeField s ++ r = writeField t ++ r' → s = t ∧ r = r'.
Proof.
  intros Hs Ht H. unfold writeField, PutUvarint in H. rewrite <- !app_assoc in H.
  pose proof (len_nonneg s). pose proof (len_nonneg t). unfold go_string in *.
  pose proof (f_equal (Uvarint_go 10) H) as E.
  rewrite !Uvarint_Put in E by (cbn -[Z.pow]; lia).
  injection E as Hlen Hbytes.
  apply app_inj_1 in Hbytes as [Hb ->].
  - split; [by apply (inj bytes_of) | done].
  - rewrite !length_bytes_of. unfold len in Hlen. lia.
Qed.

Lemma writeFields_inj c c' :
  Forall go_string c → Forall go_string c' →
  c ≫= writeField = c' ≫= writeField → c = c'.
Proof.
  intros Hc. revert c'. induction Hc as [|s c Hs Hc IH]; intros [|t c'] Hc' H.
  - done.
  - exfalso. cbn in H. unfold writeField, PutUvarint in H.
    cbn [PutUvarint_go] in H. destruct (128 <=? len t); discriminate H.
  - exfalso. cbn in H. unfold writeField, PutUvarint in H.
    cbn [PutUvarint_go] in H. destruct (128 <=? len s); discriminate H.
  - inversion_clear Hc'. cbn in H. apply writeField_inj in H as [-> Hrest]; [|done..].
    f_equal. by apply IH.
Qed.

(** The encoding of purpose and context is injective: [("ab","c")] and
    [("a","bc")] differ, and a context never reads as another purpose. *)
Lemma associatedData_inj b b' c c' :
  go_string (purpose b) → go_string (purpose b') →
  Forall go_string c → Forall go_string c' →
  associatedData b c = associatedData b' c' →
  purpose b = purpose b' ∧ c = c'.
Proof.
  intros Hb Hb' Hc Hc' H. unfold associatedData in H.
  apply app_inj_1 in H as [_ H1]; [|done].
  apply writeField_inj in H1 as [-> H2]; [|done..].
  split; [done|]. by apply writeFields_inj.
Qed.

Section Laws.
Context `{A : AEAD} `{!AEADLaws}.

Lemma strip_prefix_app (p r : bytes) : strip_prefix p (p ++ r) = Some r.
Proof. induction p as [|a p IH]; cbn; [done|]. by rewrite decide_True. Qed.

Lemma Seal_IsSealed b n p c out : Seal b n p c = Ok out → IsSealed out = true.
Proof.
  unfold Seal, IsSealed. intros Hs. destruct n; [|done]. case_if; [done|].
  apply (inj Ok) in Hs as <-. by rewrite strip_prefix_app.
Qed.

Lemma Seal_Open b n p c out :
  (∀ n', n = Some n' → length n' = NonceSize) →
  Seal b n p c = Ok out → Open b out c = Ok p.
Proof.
  unfold Seal, Open. intros Hn Hs. destruct n as [n|]; [|done].
  specialize (Hn n eq_refl). case_if; [done|]. apply (inj Ok) in Hs as <-.
  rewrite strip_prefix_app, decide_False.
  2:{ rewrite length_app. pose proof (aead_overhead (key b) n p (associatedData b c)). lia. }
  rewrite take_app_length', drop_app_length' by done.
  by rewrite aead_open_seal.
Qed.
End Laws.

Lemma Open_bound `{A : AEAD} `{!AEADBinding} b n p c out c' p' :
  go_string (purpose b) → Forall go_string c → Forall go_string c' →
  (∀ n', n = Some n' → length n' = NonceSize) →
  Seal b n p c = Ok out → Open b out c' = Ok p' → c' = c.
Proof.
  unfold Seal, Open. intros Hb Hc Hc' Hn Hs Ho. destruct n as [n|]; [|done].
  specialize (Hn n eq_refl). case_if; [done|]. apply (inj Ok) in Hs as <-.
  rewrite strip_prefix_app in Ho. case_decide; [done|].
  rewrite take_app_length', drop_app_length' in Ho by done.
  destruct (aead_open _ _ _ _) eqn:E; [|done].
  apply aead_authentic in E. symmetry.
  by apply associatedData_inj in E as [_ ->].
Qed.

(** ** A concrete instance

    A (non-secret) cipher that satisfies the contract and the idealisation: it
    frames the associated data in front of the plaintext. *)
Module Framing.

Definition frame (a : bytes) : bytes := (a ≫= λ x, [x; "1"%char]) ++ ["0"; "0"]%char.

Definition aead : AEAD := {|
  NonceSize := 2; Overhead := 2;
  aead_seal _ _ p a := frame a ++ p;
  aead_open _ _ c a := strip_prefix (frame a) c;
  hkdf k _ := Some k;
  sha256 k := k
|}.

Lemma frame_prefix a a' p r : strip_prefix (frame a') (frame a ++ p) = Some r → a' = a.
Proof.
  unfold frame. revert a'. induction a as [|x a IH]; intros [|y a']; cbn; try done.
  - repeat case_decide; done.
  - repeat case_decide; done.
  - destruct (decide (y = x)) as [->|]; [|done]. intros Hs. f_equal. by apply IH.
Qed.

#[export] Instance laws : @AEADLaws aead.
Proof.
  split; cbn; intros.
  - apply strip_prefix_app.
  - unfold frame. rewrite !length_app. cbn. lia.
Qed.
#[export] Instance binding : @AEADBinding aead.
Proof. split; cbn. intros k n p a a' p'. apply frame_prefix. Qed.

End Framing.

End Secretbox.
