(* ===== verification/JobStore.v ===== *)
(** * JobStore: the durable job table and its encoding

    Models the data of [src/jobs.go]: the [Job] record, the [jobs] table of
    [src/controlplane.go] with its unique indexes, the JSON row payload, the
    sealing of job payloads, and the persistence primitives
    ([persistDurableItemCAS], [persistAdmittedItem], [decodeDurableJob]). *)
From S2P Require Import Prelude Secretbox.
Import Secretbox.

Module Jobs.

(** ** Data *)

Inductive JobState : Type :=
  | Queued | Running | Completed | Failed | Cancelled | DeadLetter
  | OtherState (s : string).

#[export] Instance JobState_eq_dec : EqDecision JobState.
Proof. solve_decision. Defined.

(** [Job]; the workflow results are opaque documents to the queue. Times are
    nanoseconds, a nil pointer is [None]. *)
Record Job := mkJob {
  ID : string;
  Kind : string;
  OperationKey : string;
  IdempotencyExpiresAt : option Z;
  State : JobState;
  User : string;
  Result : option string;
  WPress : option string;
  Certificate : option string;
  Backup : option string;
  Restore : option string;
  Cloud : option string;
  Error : string;
  StartedAt : Z;
  FinishedAt : option Z;
  Payload : bytes;
  Output : bytes;
  Attempts : Z;
  MaxAttempts : Z;
  NextAttempt : option Z;
  Progress : Z;
  Cancel : bool;
  LeaseOwner : string;
  LeaseToken : string;
  LeaseExpires : option Z
}.

Definition zeroJob : Job :=
  mkJob "" "" "" None (OtherState "") "" None None None None None None "" 0 None
    [] [] 0 0 None 0 false "" "" None.

#[export] Instance Job_eq_dec : EqDecision Job.
Proof. solve_decision. Defined.

(** What survives [json.Marshal] and [json.Unmarshal] of a [Job]: every field
    but those tagged [json:"-"]. *)
Definition json_view (j : Job) : Job :=
  j <| Payload := [] |> <| LeaseOwner := "" |> <| LeaseToken := "" |> <| LeaseExpires := None |>.

(** The [payload] member of the row JSON, a [json.RawMessage]: absent, [null],
    a base64 string (current rows) or any other JSON text (rows written before
    payload encoding). *)
Inductive RawPayload : Type :=
  | RawAbsent | RawNull | RawBase64 (b : bytes) | RawJson (text : bytes).

(** The payload column: the JSON text of a [persistedJob], or bytes that do
    not decode as one. *)
Inductive Blob : Type :=
  | BJson (job : Job) (payload : RawPayload)
  | BRaw (b : bytes).

Definition decodePersistedJobPayload (raw : RawPayload) : bytes :=
  match raw with
  | RawAbsent | RawNull => []
  | RawBase64 b => b
  | RawJson text => text
  end.

(** [decodeDurableJobRecord]: decodes the base64 form in one pass and falls
    back to [persistedJob] for older rows. *)
Definition decodeDurableJobRecord (data : Blob) : res Job :=
  match data with
  | BJson job (RawBase64 b) => Ok ((json_view job) <| Payload := b |>)
  | BJson job RawAbsent | BJson job RawNull => Ok ((json_view job) <| Payload := [] |>)
  | BJson job raw => Ok ((json_view job) <| Payload := decodePersistedJobPayload raw |>)
  | BRaw _ => Err (EMsg "invalid character in job record")
  end.

(** A row of the [jobs] table (its primary key is the map key). *)
Record Row := mkRow {
  r_kind : string;
  r_operation_key : string;
  r_idempotency_expires_at : option Z;
  r_state : JobState;
  r_owner : string;
  r_started_at : Z;
  r_finished_at : option Z;
  r_payload : Blob;
  r_lease_owner : option string;
  r_lease_token : option string;
  r_lease_expires_at : option Z;
  r_next_attempt_at : option Z;
  r_cancel_requested : bool
}.

#[export] Instance RawPayload_eq_dec : EqDecision RawPayload.
Proof. solve_decision. Defined.
#[export] Instance Blob_eq_dec : EqDecision Blob.
Proof. solve_decision. Defined.
#[export] Instance Row_eq_dec : EqDecision Row.
Proof. solve_decision. Defined.

Abbreviation Table := (gmap string Row).

(** ** The unique indexes of the table *)

Definition active (s : JobState) : bool :=
  match s with Queued | Running => true | _ => false end.

(** Two rows share an entry of [jobs_operation_unique_idx] (a non-empty
    operation key) or of [jobs_active_empty_operation_unique_idx] (an empty
    key while both rows are queued or running). *)
Definition clash (r1 r2 : Row) : bool :=
  bool_decide (r_kind r1 = r_kind r2) && bool_decide (r_owner r1 = r_owner r2) &&
  bool_decide (r_operation_key r1 = r_operation_key r2) &&
  (negb (bool_decide (r_operation_key r1 = "")) || active (r_state r1) && active (r_state r2)).

Definition violates (t : Table) (id : string) (r : Row) : bool :=
  existsb (λ '(id', r'), negb (bool_decide (id' = id)) && clash r r') (map_to_list t).

Definition unique_err : error := EMsg "UNIQUE constraint failed: jobs.kind, jobs.owner, jobs.operation_key".

(** Writes one row, or fails on a unique index. *)
Definition put_row (t : Table) (id : string) (r : Row) : res Table :=
  if violates t id r then Err unique_err else Ok (<[id := r]> t).

(** What the indexes guarantee of the whole table. *)
Definition unique_rows (t : Table) : Prop :=
  ∀ id1 id2 r1 r2, t !! id1 = Some r1 → t !! id2 = Some r2 → id1 ≠ id2 → clash r1 r2 = false.

(** ** Errors *)

Definition ErrJobBusy : error := ESentinel "too many long-running jobs or target is already active".
Definition ErrIdempotencyConflict : error := ESentinel "idempotency key was already used with a different request".
Definition ErrDurableWorkerUnavailable : error := ESentinel "no compatible durable worker is available".
Definition ErrJobQueueFull : error := ESentinel "the durable job queue is at its pending-job limit; retry after queued work drains".
Definition errJobPayloadKeyUnavailable : error := ESentinel "job payload encryption key is unavailable".
Definition errJobLeaseNotHeld : error := ESentinel "job lease is not held by this worker".

Definition maxJobStateBytes : Z := 16 * 2 ^ 20.
Definition defaultMaxPendingJobs : Z := 10000.
Definition jobLeaseDuration : Z := 2 * Minute.
Definition durableJobProtocolVersion : Z := 2.
Definition workerHeartbeatFreshness : Z := 30 * Second.

(** ** The process state *)

Record Heartbeat := mkHeartbeat {
  hb_last_seen : Z;
  hb_kinds : option (list string);  (* [None]: the column does not decode *)
  hb_version : string;
  hb_build : string;
  hb_protocol : Z
}.

Record Contract := mkContract { c_version : string; c_build : string; c_protocol : Z }.

(** The control-plane database as far as the queue uses it. *)
Record DB := mkDB {
  jobs : Table;
  worker_heartbeats : gmap string Heartbeat;
  worker_control_contract : option Contract
}.

(** [Jobs]: the in-memory view of one process over the shared database. *)
Record Jobs := mkJobs {
  db : option DB;
  items : gmap string Job;
  activeTargets : gset string;
  freeSlots : Z;
  maxPending : Z;
  payloadKey : bytes;
  payloadBox : option Box;
  legacyPayloads : bool;
  legacyPayloadsSeen : bool;
  leaseTTL : Z;
  workerLimit : Z;
  requireCompatibleWorker : bool;
  Version : string;
  Commit : string;
  persistErr : option error;
  published : list Job
}.

(** The table of a process that has a database. *)
Definition table (J : Jobs) : Table :=
  match db J with Some d => jobs d | None => ∅ end.
Definition set_table (J : Jobs) (t : Table) : Jobs :=
  J <| db := (λ d, d <| jobs := t |>) <$> db J |>.
Definition has_db (J : Jobs) : bool := match db J with Some _ => true | None => false end.
Definition set_items (J : Jobs) (m : gmap string Job) : Jobs := J <| items := m |>.
Definition set_item (J : Jobs) (id : string) (j : Job) : Jobs := J <| items ::= insert id j |>.

Definition leaseDuration (J : Jobs) : Z :=
  if 0 <? leaseTTL J then leaseTTL J else jobLeaseDuration.

Definition pendingLimit (J : Jobs) : Z :=
  if maxPending J <=? 0 then defaultMaxPendingJobs else maxPending J.

(** [publish]: the event carries no payload, output, result or lease. *)
Definition public_view (j : Job) : Job :=
  j <| Payload := [] |> <| Output := [] |> <| Result := None |> <| WPress := None |>
    <| Certificate := None |> <| Backup := None |> <| Restore := None |> <| Cloud := None |>
    <| LeaseOwner := "" |> <| LeaseExpires := None |>.
Definition publish (j : Job) (J : Jobs) : Jobs :=
  J <| published ::= λ l, l ++ [public_view j] |>.

Definition publish_all (l : list Job) (J : Jobs) : Jobs := foldl (λ J j, publish j J) J l.

Definition validJobOperationKey (value : string) : bool :=
  if (len value <? 1) || (128 <? len value) then false
  else all_bytes (λ c, is_lower c || is_upper c || is_digit c || one_of "._:-" c) value.

(** [requestOperationKey]: the header is [None] when the request is nil. *)
Definition requestOperationKey (header : option string) : res string :=
  match header with
  | None => Err (EMsg "request is required")
  | Some h =>
      let key := TrimSpace h in
      if negb (bool_decide (key = "")) && negb (validJobOperationKey key)
      then Err (EMsg "invalid Idempotency-Key") else Ok key
  end.

Definition newJobID (kind : string) (random : option string) : res string :=
  match random with
  | None => Err io_err
  | Some r => Ok (kind +:+ "-" +:+ r)
  end.

Arguments set_table : simpl never.
Arguments set_items : simpl never.
Arguments set_item : simpl never.
Arguments publish : simpl never.
Arguments publish_all : simpl never.

(** ** Encoding *)

(** What the queue relies on of [encoding/json]: which [json.RawMessage] values
    are valid JSON, the length of an encoded row, and the result document a job
    output of a given kind decodes to ([None] when it does not decode). *)
Class JSONText : Type := {
  json_valid : bytes → bool;
  json_len : Job → RawPayload → Z;
  json_result : string → bytes → option string
}.

Section Persist.
Context `{A : AEAD} `{JT : JSONText}.

Definition encryptedJobPayloadPrefix : bytes := bytes_of "SPJ1".

(** [sealPayload]; [nonce] is the random nonce [Seal] reads. *)
Definition sealPayload (J : Jobs) (nonce : option bytes) (item : Job) : res bytes :=
  match payloadBox J, Payload item with
  | None, p => Ok p
  | _, [] => Ok []
  | Some box, p => Seal box nonce p [ID item; Kind item; User item]
  end.

(** [openPayload]; the boolean reports that a legacy payload was read
    ([legacyPayloadsSeen]). *)
Definition openPayload (J : Jobs) (item : Job) (payload : bytes) : res (bytes * bool) :=
  if IsSealed payload then
    match payloadBox J with
    | None => Err (EWrap "encrypted payload requires STEPANEL_ACCOUNT_KEY" errJobPayloadKeyUnavailable)
    | Some box =>
        match Open box payload [ID item; Kind item; User item] with
        | Ok p => Ok (p, false)
        | Err e => Err e
        end
    end
  else match strip_prefix encryptedJobPayloadPrefix payload with
  | Some rest =>
      if bool_decide (payloadKey J = []) then
        Err (EWrap "encrypted payload requires STEPANEL_ACCOUNT_KEY" errJobPayloadKeyUnavailable)
      else if negb (legacyPayloads J) then
        Err (EMsg "job payload is not bound to its job; legacy ciphertexts are no longer accepted")
      else match OpenLegacyWithKey (payloadKey J) rest with
           | Ok p => Ok (p, true)
           | Err e => Err e
           end
  | None =>
      match payloadBox J, payload with
      | None, _ | _, [] => Ok (payload, false)
      | Some _, _ =>
          if legacyPayloads J then Ok (payload, true)
          else Err (EMsg "unsealed job payload refused while payload encryption is enabled")
      end
  end.

Definition saw_legacy (seen : bool) (J : Jobs) : Jobs :=
  if seen then J <| legacyPayloadsSeen := true |> else J.

Arguments saw_legacy : simpl never.

(** [json.Marshal] of a byte slice: [null] for a nil slice. *)
Definition marshal_bytes (b : bytes) : RawPayload :=
  match b with [] => RawNull | _ => RawBase64 b end.

(** [json.Marshal(&persistedJob{...})]: refuses an [Output] that is not JSON. *)
Definition marshal_job (item : Job) (raw : RawPayload) : res Blob :=
  if negb (bool_decide (Output item = [])) && negb (json_valid (Output item))
  then Err (EMsg "json: error calling MarshalJSON for type json.RawMessage")
  else Ok (BJson (json_view item) raw).

(** [encodeDurableItem]: the row payload. The nullable columns it also returns
    are the pointers of the item. *)
Definition encodeDurableItem (J : Jobs) (nonce : option bytes) (item : Job) : res Blob :=
  if bool_decide (ID item = "") then Err (EMsg "cannot persist invalid job") else
  match sealPayload J nonce item with
  | Err e => Err (EWrap ("seal durable job " +:+ ID item) e)
  | Ok sealed =>
      match marshal_job item (marshal_bytes sealed) with
      | Err e => Err (EWrap ("encode durable job " +:+ ID item) e)
      | Ok data =>
          if maxJobStateBytes <? json_len (json_view item) (marshal_bytes sealed)
          then Err (EMsg "durable job payload exceeds 16 MiB") else Ok data
      end
  end.

(** The column values written for an item. *)
Definition row_of (item : Job) (data : Blob) : Row :=
  mkRow (Kind item) (OperationKey item) (IdempotencyExpiresAt item) (State item) (User item)
    (StartedAt item) (FinishedAt item) data (null_string (LeaseOwner item))
    (null_string (LeaseToken item)) (LeaseExpires item) (NextAttempt item) (Cancel item).

(** [persistDurableItem]: insert or replace by primary key. *)
Definition persistDurableItem (J : Jobs) (f0 : bool) (nonce : option bytes) (item : Job)
    : res Jobs :=
  data ← encodeDurableItem J nonce item;
  if f0 then Err io_err else
  t ← put_row (table J) (ID item) (row_of item data);
  Ok (set_table J t).

(** [WHERE id=? AND state='running' AND lease_token=? AND lease_expires_at > ?] *)
Definition lease_held (t : Table) (id token : string) (now : Z) : bool :=
  match t !! id with
  | Some r => bool_decide (r_state r = Running) && bool_decide (r_lease_token r = Some token) &&
              sql_gt (r_lease_expires_at r) now
  | None => false
  end.

(** [persistDurableItemCAS]: replaces the row only while the caller's lease is
    live. [f0] and [f1]: the update and reading its row count fail. The result
    is the error, if any, and the table after the call: a failed row count
    leaves the update in place. *)
Definition persistDurableItemCAS (J : Jobs) (f0 f1 : bool) (nonce : option bytes) (now : Z)
    (item : Job) (expectedLeaseToken : string) : option error * Table :=
  match encodeDurableItem J nonce item with
  | Err e => (Some e, table J)
  | Ok data =>
      if f0 then (Some io_err, table J) else
      if lease_held (table J) (ID item) expectedLeaseToken now then
        match put_row (table J) (ID item) (row_of item data) with
        | Err e => (Some e, table J)
        | Ok t => if f1 then (Some io_err, t) else (None, t)
        end
      else if f1 then (Some io_err, table J) else (Some errJobLeaseNotHeld, table J)
  end.

Definition pending (t : Table) : Z :=
  Z.of_nat (length (filter (λ '(_, r), active (r_state r) = true) (map_to_list t))).

(** [persistAdmittedItem]: inserts a queued job only below the pending limit,
    in one write transaction; any failure rolls it back. *)
Definition persistAdmittedItem (J : Jobs) (f0 f1 f2 f3 f4 : bool) (nonce : option bytes)
    (item : Job) : res Jobs :=
  data ← encodeDurableItem J nonce item;
  if f0 then Err (EWrap "open job admission connection" io_err) else
  if f1 then Err (EWrap "begin job admission" io_err) else
  if f2 then Err (EWrap "count pending durable jobs" io_err) else
  if pendingLimit J <=? pending (table J) then Err (EWrap "pending" ErrJobQueueFull) else
  if f3 then Err io_err else
  match table J !! ID item with
  | Some _ => Err (EMsg "UNIQUE constraint failed: jobs.id")
  | None =>
      t ← put_row (table J) (ID item) (row_of item data);
      if f4 then Err (EWrap "commit job admission" io_err) else Ok (set_table J t)
  end.

Definition jobAdmissionRefused (e : error) : bool :=
  errors_is e ErrJobQueueFull || errors_is e ErrDurableWorkerUnavailable.

(** [decodeDurableJob]: the record of the payload, overlaid with the
    authoritative columns. *)
Definition decodeDurableJob (J : Jobs) (r : Row) : res (Job * bool) :=
  match r_payload r with
  | BRaw _ => Err (EMsg "invalid character in job record")
  | BJson job raw =>
      let item := (json_view job) <| State := r_state r |>
                    <| Payload := decodePersistedJobPayload raw |> in
      match openPayload J item (Payload item) with
      | Err e => Err e
      | Ok (opened, seen) =>
          Ok (item <| Payload := opened |>
                   <| LeaseOwner ::= λ o, default o (r_lease_owner r) |>
                   <| LeaseToken ::= λ o, default o (r_lease_token r) |>
                   <| LeaseExpires ::= λ o, match r_lease_expires_at r with Some x => Some x | None => o end |>
                   <| NextAttempt ::= λ o, match r_next_attempt_at r with Some x => Some x | None => o end |>
                   <| Cancel ::= λ c, r_cancel_requested r || c |>, seen)
      end
  end.

(** [loadDurableJob]. *)
Definition loadDurableJob (J : Jobs) (f0 : bool) (id : string) : res (option Job) * Jobs :=
  if negb (has_db J) then (Ok None, J) else
  if f0 then (Err io_err, J) else
  match table J !! id with
  | None => (Ok None, J)
  | Some r =>
      match decodeDurableJob J r with
      | Err e => (Err e, J)
      | Ok (item, seen) => (Ok (Some item), saw_legacy seen J)
      end
  end.

End Persist.
End Jobs.
