(* ===== verification/JobQueue.v ===== *)
(** * JobQueue: the operations of the durable queue

    Models the state-changing operations of [src/jobs.go]: enqueueing with
    admission and idempotency, claiming, renewing, finishing and failing under
    a lease, cancellation, recovery of expired leases, dead letters, retention,
    and one iteration of the worker loop. An operation takes the process state
    [Jobs] and the environment [Env] it runs in and returns what the Go method
    returns with the new state; the comment of each operation says which
    database call has which fault index. *)
From S2P Require Import Prelude Secretbox JobStore.
Import Secretbox.

Module JobQueue.
Import Jobs.

Section Ops.
Context `{A : AEAD} `{JT : JSONText}.

Definition nonce (e : Env) (n : nat) : option bytes := bytes_of <$> rand e n.

(** ** Claiming by ID *)

(** [UPDATE jobs SET state='running', lease_... WHERE id=? AND state='queued'] *)
Definition run_row (owner token : string) (expires : Z) (r : Row) : Row :=
  r <| r_state := Running |> <| r_lease_owner := Some owner |>
    <| r_lease_token := Some token |> <| r_lease_expires_at := Some expires |>.

Definition queued_row (t : Table) (id : string) : option Row :=
  match t !! id with
  | Some r => if decide (r_state r = Queued) then Some r else None
  | None => None
  end.

Definition lease_item (owner token : string) (expires : Z) (j : Job) : Job :=
  j <| State := Running |> <| LeaseOwner := owner |> <| LeaseToken := token |>
    <| LeaseExpires := Some expires |>.

(** [Claim]; fault 0: the update, 1: its row count. *)
Definition Claim (e : Env) (id owner : string) (J : Jobs) : res (option Job) * Jobs :=
  if negb (has_db J) || bool_decide (id = "") || bool_decide (owner = "")
  then (Err (EMsg "durable job claiming requires a job ID and owner"), J) else
  let expires := clock e 0 + leaseDuration J in
  match rand e 0 with
  | None => (Err (EWrap "create durable job lease token" io_err), J)
  | Some token =>
      match items J !! id with
      | None => (Ok None, J)
      | Some item =>
          if negb (bool_decide (State item = Queued)) then (Ok None, J) else
          let item' := lease_item owner token expires item in
          if fault e 0 then (Err io_err, J) else
          match queued_row (table J) id with
          | None => if fault e 1 then (Err io_err, J) else (Ok None, J)
          | Some r =>
              match put_row (table J) id (run_row owner token expires r) with
              | Err err => (Err err, J)
              | Ok t =>
                  if fault e 1 then (Err io_err, set_table J t)
                  else (Ok (Some item'), set_item (set_table J t) id item')
              end
          end
      end
  end.

(** ** Operations under a lease *)

Definition no_lease (j : Job) : Job :=
  j <| LeaseOwner := "" |> <| LeaseToken := "" |> <| LeaseExpires := None |>.

(** Writes the in-memory item through [persistDurableItemCAS]: on success the
    cache and the table hold the new item, on failure the cache keeps the old
    one. *)
Definition cas_item (J : Jobs) (e : Env) (now : Z) (id : string) (item : Job) (token : string)
    : option error * Jobs :=
  let '(err, t) := persistDurableItemCAS J (fault e 0) (fault e 1) (nonce e 0) now item token in
  match err with
  | Some er => (Some er, set_table J t)
  | None => (None, set_item (set_table J t) id item)
  end.

(** [Renew]; the clock is read for the in-memory expiry test, for the new
    expiry and for the database test. *)
Definition Renew (e : Env) (id leaseToken : string) (J : Jobs) : res bool * Jobs :=
  if negb (has_db J) || bool_decide (id = "") || bool_decide (leaseToken = "")
  then (Err (EMsg "durable job renewal requires a job ID and owner"), J) else
  match items J !! id with
  | None => (Ok false, J)
  | Some item =>
      if negb (bool_decide (State item = Running)) ||
         negb (bool_decide (LeaseToken item = leaseToken)) then (Ok false, J) else
      match LeaseExpires item with
      | None => (Ok false, J)
      | Some exp =>
          if exp <? clock e 0 then (Ok false, J) else
          let item' := item <| LeaseExpires := Some (clock e 1 + leaseDuration J) |> in
          match cas_item J e (clock e 2) id item' leaseToken with
          | (Some err, J') => (Err err, J')
          | (None, J') => (Ok true, J')
          end
      end
  end.

(** The test of [finishClaim], [failClaimWithOutput], [UpdateClaim] and
    [UpdateClaimPayload]: the cached item is running under this token. *)
Definition claimed_item (J : Jobs) (id leaseToken : string) : option Job :=
  match items J !! id with
  | Some item =>
      if decide (State item = Running) then
        if decide (LeaseToken item = leaseToken) then Some item else None
      else None
  | None => None
  end.

(** Applies [update] to the claimed item, persists it and publishes it. *)
Definition update_claimed (msg : string) (e : Env) (now : Z) (id leaseToken : string)
    (update : Job → Job) (J : Jobs) : option error * Jobs :=
  if negb (has_db J) || bool_decide (id = "") || bool_decide (leaseToken = "")
  then (Some (EMsg msg), J) else
  match claimed_item J id leaseToken with
  | None => (Some errJobLeaseNotHeld, J)
  | Some item =>
      let item' := update item in
      match cas_item J e now id item' leaseToken with
      | (Some err, J') => (Some err, J')
      | (None, J') => (None, publish item' J')
      end
  end.

Definition finishClaim (e : Env) (now : Z) (id leaseToken : string) (apply : Job → Job) (J : Jobs)
    : option error * Jobs :=
  update_claimed "durable job completion requires a job ID and owner" e now id leaseToken
    (λ item, no_lease (apply item)) J.

(** The record change of a failed attempt: dead-letter when retries are refused
    or exhausted, otherwise back to the queue after [2^min(attempts,8)] seconds. *)
Definition fail_item (message : string) (retry : bool) (output : bytes) (now : Z) (item : Job) : Job :=
  let item := if bool_decide (output = []) then item else item <| Output := output |> in
  let item := no_lease (item <| Attempts ::= Z.succ |> <| Error := TrimSpace message |>) in
  if negb retry || (0 <? MaxAttempts item) && (MaxAttempts item <=? Attempts item)
  then item <| State := DeadLetter |> <| FinishedAt := Some now |>
  else item <| State := Queued |>
            <| NextAttempt := Some (now + 2 ^ Z.min (Attempts item) 8 * Second) |>.

(** [failClaimWithOutput]; clock 0: the failure time, clock 1: the database test. *)
Definition failClaimWithOutput (e : Env) (id leaseToken message : string) (retry : bool)
    (output : bytes) (J : Jobs) : option error * Jobs :=
  update_claimed "durable failure requires a job ID and owner" e (clock e 1) id leaseToken
    (fail_item message retry output (clock e 0)) J.

Definition FailClaim (e : Env) (id leaseToken message : string) (J : Jobs) : option error * Jobs :=
  failClaimWithOutput e id leaseToken message true [] J.

Definition clamp_progress (p : Z) : Z :=
  let p := if p <? 0 then 0 else p in if 100 <? p then 100 else p.

Definition UpdateClaim (e : Env) (id leaseToken : string) (progress : Z) (J : Jobs)
    : option error * Jobs :=
  update_claimed "durable progress requires a job ID and owner" e (clock e 0) id leaseToken
    (λ item, item <| Progress := clamp_progress progress |>) J.

Definition UpdateClaimPayload (e : Env) (id leaseToken : string) (payload : bytes) (J : Jobs)
    : option error * Jobs :=
  update_claimed "durable payload update requires a job ID and owner" e (clock e 0) id leaseToken
    (λ item, item <| Payload := payload |>) J.

(** ** Recovery of expired leases *)

Definition uncertainError : string :=
  "worker lease expired during cloud action; provider outcome is unknown; reconcile remote state before retrying".

(** The first query: expired cloud actions. *)
Definition cloud_expired (now : Z) (r : Row) : bool :=
  bool_decide (r_kind r = "cloud.action") && bool_decide (r_state r = Running) &&
  sql_le (r_lease_expires_at r) now.

(** The last update: every other expired running row. *)
Definition other_expired (now : Z) (r : Row) : bool :=
  bool_decide (r_state r = Running) && negb (bool_decide (r_kind r = "cloud.action")) &&
  sql_le (r_lease_expires_at r) now.

Definition dead_record (now : Z) (j : Job) : Job :=
  j <| State := DeadLetter |> <| Error := uncertainError |> <| LeaseOwner := "" |>
    <| LeaseExpires := None |> <| FinishedAt := Some now |>.

Definition dead_row (now : Z) (job : Job) (raw : RawPayload) (r : Row) : Row :=
  r <| r_state := DeadLetter |> <| r_finished_at := Some now |>
    <| r_payload := BJson (json_view (dead_record now job)) raw |> <| r_lease_owner := None |>
    <| r_lease_token := None |> <| r_lease_expires_at := None |> <| r_next_attempt_at := None |>.

Definition requeue_row (r : Row) : Row :=
  r <| r_state := Queued |> <| r_lease_owner := None |> <| r_lease_token := None |>
    <| r_lease_expires_at := None |>.

(** The update of one expired cloud action. Its guard compares the lease owner
    with [COALESCE(lease_owner,'')], so a row without an owner is skipped. *)
Definition recover_row (now : Z) (r : Row) : Row :=
  if cloud_expired now r then
    match r_payload r, r_lease_owner r with
    | BJson job raw, Some _ => dead_row now job raw r
    | _, _ => r
    end
  else if other_expired now r then requeue_row r else r.

Definition dead_lettered (now : Z) (r : Row) : bool :=
  cloud_expired now r && match r_lease_owner r with Some _ => true | None => false end.

Definition requeue_item (now : Z) (j : Job) : bool :=
  bool_decide (State j = Running) && negb (bool_decide (Kind j = "cloud.action")) &&
  sql_le (LeaseExpires j) now.

(** The in-memory side of the recovery, for the records the database changed. *)
Definition recover_item (now : Z) (dead : gset string) (id : string) (j : Job) : Job :=
  let j := if requeue_item now j then no_lease (j <| State := Queued |>) else j in
  if decide (id ∈ dead) then
    no_lease (j <| State := DeadLetter |> <| Error := uncertainError |> <| FinishedAt := Some now |>)
  else j.

(** [RequeueExpired]; fault 0: begin, 1: the query, 2: reading the rows, [3+i]:
    the update of the [i]-th cloud action, [3+n]: the requeue update, [4+n]:
    commit. An unreadable cloud record aborts the transaction. *)
Definition RequeueExpired (e : Env) (J : Jobs) : res Z * Jobs :=
  if negb (has_db J) then (Err (EMsg "durable job requeue requires the control-plane database"), J) else
  let now := clock e 0 in
  let t := table J in
  let uncertain := filter (λ '(_, r), cloud_expired now r = true) (map_to_list t) in
  let n := length uncertain in
  if fault e 0 || fault e 1 || fault e 2 then (Err io_err, J) else
  if existsb (λ '(_, r), match r_payload r with BRaw _ => true | _ => false end) uncertain
  then (Err (EWrap "decode expired cloud job" (EMsg "invalid character in job record")), J) else
  if existsb (λ i, fault e (3 + i)%nat) (seq 0 n) || fault e (3 + n)%nat || fault e (4 + n)%nat
  then (Err io_err, J) else
  let dead := filter (λ '(_, r), dead_lettered now r = true) uncertain in
  let deadIDs : gset string := list_to_set dead.*1 in
  let requeued := filter (λ '(_, r), other_expired now r = true) (map_to_list t) in
  let items' := map_imap (λ id j, Some (recover_item now deadIDs id j)) (items J) in
  let changedItems := filter (λ '(id, j), requeue_item now j = true) (map_to_list (items J)) in
  let J' := set_items (set_table J (recover_row now <$> t)) items' in
  let announced := omap (λ '(id, _), items' !! id) changedItems ++
    omap (λ '(id, r), match items' !! id, r_payload r with
                      | Some j, _ => Some j
                      | None, BJson job _ => Some ((dead_record now (json_view job)) <| Payload := [] |>)
                      | None, BRaw _ => None
                      end) dead in
  (Ok (Z.of_nat (length requeued + length dead)), publish_all announced J').

End Ops.
End JobQueue.
