(* ===== verification/JobClaim.v ===== *)
(** * JobClaim: choosing and leasing the next job

    Models [selectClaimCandidate] of [src/jobs.go] with its two SQL queries (the
    bounded prefix in claim order, then the walk over owner queue heads) and
    [ClaimNext], and proves the two-stage search equal to the plain definition
    of the oldest eligible job. *)
From S2P Require Import Prelude Secretbox JobStore JobQueue.
Import Secretbox.

Module JobClaim.
Import Jobs JobQueue.

Abbreviation Entry := (string * Row)%type.

(** [ORDER BY started_at, id] *)
Definition claim_le (x y : Entry) : Prop :=
  r_started_at x.2 < r_started_at y.2 ∨
  (r_started_at x.2 = r_started_at y.2 ∧ String.le x.1 y.1).

#[export] Instance claim_le_dec : RelDecision claim_le.
Proof. intros x y. unfold claim_le. apply _. Defined.

Definition oldest (l : list Entry) : option Entry := head (merge_sort claim_le l).

Definition claimPrefixLength : nat := 64.

(** ** Conditions of the queries *)

Definition is_queued (x : Entry) : bool := bool_decide (r_state x.2 = Queued).

(** [next_attempt_at IS NULL OR next_attempt_at <= ?] *)
Definition backoff_over (now : Z) (r : Row) : bool :=
  match r_next_attempt_at r with None => true | Some n => n <=? now end.

(** [state = 'running' AND (lease_expires_at IS NULL OR lease_expires_at > ?)] *)
Definition live (now : Z) (r : Row) : bool :=
  bool_decide (r_state r = Running) &&
  match r_lease_expires_at r with None => true | Some x => now <? x end.

Definition owner_running (now : Z) (rows : list Entry) (owner : string) : bool :=
  existsb (λ x, bool_decide (r_owner x.2 = owner) && live now x.2) rows.

(** [older.started_at < candidate.started_at OR (... = ... AND older.id < candidate.id)] *)
Definition older (x y : Entry) : bool :=
  (r_started_at x.2 <? r_started_at y.2) ||
  (r_started_at x.2 =? r_started_at y.2) && bool_decide (String.le x.1 y.1 ∧ x.1 ≠ y.1).

Definition older_queued (rows : list Entry) (y : Entry) : bool :=
  existsb (λ x, bool_decide (r_owner x.2 = r_owner y.2) && is_queued x && older x y) rows.

(** [AND candidate.kind IN (...)], when kinds are given. *)
Definition kind_ok (kinds : list string) (r : Row) : bool :=
  match kinds with [] => true | _ => bool_decide (r_kind r ∈ kinds) end.

(** ** The two queries *)

Definition claimPrefixQuery (now : Z) (kinds : list string) (rows : list Entry) : option Entry :=
  let prefix := take claimPrefixLength (merge_sort claim_le (filter (λ x, is_queued x = true) rows)) in
  oldest (filter (λ x, backoff_over now x.2 && negb (owner_running now rows (r_owner x.2)) &&
                       negb (older_queued rows x) && kind_ok kinds x.2 = true) prefix).

(** [SELECT MIN(owner) FROM jobs WHERE state='queued' AND owner > ?]; without a
    bound for [None]. *)
Definition above (bound : option string) (o : string) : bool :=
  match bound with None => true | Some b => bool_decide (String.le b o ∧ b ≠ o) end.
Definition min_owner (bound : option string) (rows : list Entry) : option string :=
  head (merge_sort String.le
    ((λ x, r_owner x.2) <$> filter (λ x, is_queued x && above bound (r_owner x.2) = true) rows)).

(** The recursive table [queued_owners], without its final NULL row. Each step
    moves to a larger owner, so the number of rows bounds the recursion. *)
Fixpoint queued_owners (fuel : nat) (bound : option string) (rows : list Entry) : list string :=
  match fuel with
  | O => []
  | S n => match min_owner bound rows with
           | None => []
           | Some o => o :: queued_owners n (Some o) rows
           end
  end.

(** The oldest queued job of one owner. *)
Definition owner_head (rows : list Entry) (owner : string) : option Entry :=
  oldest (filter (λ x, is_queued x && bool_decide (r_owner x.2 = owner) = true) rows).

Definition claimNextQuery (now : Z) (kinds : list string) (rows : list Entry) : option Entry :=
  let heads := omap (owner_head rows) (queued_owners (length rows) None rows) in
  oldest (filter (λ x, backoff_over now x.2 && negb (owner_running now rows (r_owner x.2)) &&
                       kind_ok kinds x.2 = true) heads).

Definition selectClaimCandidate (t : Table) (now : Z) (kinds : list string) : option Entry :=
  let rows := map_to_list t in
  match claimPrefixQuery now kinds rows with
  | Some x => Some x
  | None => claimNextQuery now kinds rows
  end.

(** ** The specification *)

(** A job that may be claimed now: queued, past its backoff, of a wanted kind,
    its owner idle, and the owner's oldest queued job. *)
Definition eligible (now : Z) (kinds : list string) (rows : list Entry) (x : Entry) : bool :=
  is_queued x && backoff_over now x.2 && negb (owner_running now rows (r_owner x.2)) &&
  negb (older_queued rows x) && kind_ok kinds x.2.

Definition oldest_eligible (t : Table) (now : Z) (kinds : list string) : option Entry :=
  let rows := map_to_list t in oldest (filter (λ x, eligible now kinds rows x = true) rows).

(** ** [ClaimNext] *)
Section Claim.
Context `{A : AEAD} `{JT : JSONText}.

Definition quarantine_row (finished : Z) (data : Blob) (r : Row) : Row :=
  r <| r_state := DeadLetter |> <| r_finished_at := Some finished |> <| r_payload := data |>
    <| r_lease_owner := None |> <| r_lease_token := None |> <| r_lease_expires_at := None |>
    <| r_next_attempt_at := None |>.

Definition error_text : error → string :=
  fix go e := match e with
              | ESentinel s | EMsg s => s
              | EWrap c e' => c +:+ ": " +:+ go e'
              end.

(** The record written for an unreadable job: the readable record marked
    dead-letter, or a fresh record that keeps the invalid bytes. *)
Definition quarantine_record (id : string) (finished : Z) (err : error) (r : Row) : Job * RawPayload :=
  let diagnostic := "permanent job payload error: " +:+ error_text err in
  match r_payload r with
  | BJson job raw =>
      ((json_view job) <| State := DeadLetter |> <| Error := diagnostic |>
                       <| FinishedAt := Some finished |>, raw)
  | BRaw b =>
      (zeroJob <| ID := id |> <| Kind := r_kind r |> <| User := r_owner r |>
               <| StartedAt := r_started_at r |> <| State := DeadLetter |>
               <| Error := diagnostic |> <| FinishedAt := Some finished |>, marshal_bytes b)
  end.

(** Decoding and opening the chosen row before its lease is committed. *)
Definition decode_candidate (J : Jobs) (r : Row) : res (Job * bool) :=
  match r_payload r with
  | BRaw _ => Err (EMsg "invalid character in job record")
  | BJson job raw =>
      let item := (json_view job) <| Payload := decodePersistedJobPayload raw |> in
      match openPayload J item (Payload item) with
      | Ok (opened, seen) => Ok (item <| Payload := opened |>, seen)
      | Err err => Err err
      end
  end.

Definition live_count (now : Z) (t : Table) : Z :=
  Z.of_nat (length (filter (λ '(_, r), live now r = true) (map_to_list t))).

(** [ClaimNext]; fault 0: begin, 1: the count, 2: the selection, 3: the update
    (or the quarantine update), 4: commit. Clock 0 is the selection time, clock
    1 the quarantine time or the start of the lease. A claim whose transaction
    fails changes nothing. *)
Definition ClaimNext (e : Env) (owner : string) (kinds : list string) (J : Jobs)
    : res (option Job) * Jobs :=
  if negb (has_db J) || bool_decide (TrimSpace owner = "")
  then (Err (EMsg "durable claim requires a worker owner"), J) else
  if fault e 0 || fault e 1 then (Err io_err, J) else
  let now := clock e 0 in
  let limit := if workerLimit J <? 1 then 1 else workerLimit J in
  if limit <=? live_count now (table J) then (Ok None, J) else
  if fault e 2 then (Err io_err, J) else
  match selectClaimCandidate (table J) now kinds with
  | None => (Ok None, J)
  | Some (id, r) =>
      match decode_candidate J r with
      | Err err =>
          if errors_is err errJobPayloadKeyUnavailable
          then (Err (EWrap ("cannot claim durable job " +:+ id) err), J) else
          let '(job, raw) := quarantine_record id (clock e 1) err r in
          if fault e 3 || fault e 4 then (Err io_err, J) else
          let job := json_view job in
          let t := <[id := quarantine_row (clock e 1) (BJson job raw) r]> (table J) in
          (Ok None, publish job (set_item (set_table J t) id job))
      | Ok (item, seen) =>
          match rand e 0 with
          | None => (Err (EWrap "create durable job lease token" io_err), saw_legacy seen J)
          | Some token =>
              let expires := clock e 1 + leaseDuration J in
              if fault e 3 then (Err io_err, saw_legacy seen J) else
              match put_row (table J) id (run_row owner token expires r) with
              | Err err => (Err err, saw_legacy seen J)
              | Ok t =>
                  if fault e 4 then (Err io_err, saw_legacy seen J) else
                  let item := lease_item owner token expires item in
                  (Ok (Some item), publish item (set_item (set_table (saw_legacy seen J) t) id item))
              end
          end
      end
  end.

End Claim.

(** ** The claim order *)

#[export] Instance claim_le_total : Total claim_le.
Proof.
  intros x y. unfold claim_le.
  destruct (Z.lt_trichotomy (r_started_at x.2) (r_started_at y.2)) as [|[E|]]; [by left; left| |by right; left].
  destruct (total String.le x.1 y.1); [left | right]; by right.
Qed.
#[export] Instance claim_le_trans : Transitive claim_le.
Proof.
  intros x y z. unfold claim_le. intros [|[E1 H1]] [|[E2 H2]]; try lia.
  right. split; [lia | by etrans].
Qed.

Lemma claim_le_antisym x y : claim_le x y → claim_le y x → x.1 = y.1.
Proof.
  unfold claim_le. intros [|[E1 H1]] [|[E2 H2]]; try lia. by apply (anti_symm String.le).
Qed.

Lemma older_spec x y : older x y = true ↔ claim_le x y ∧ x.1 ≠ y.1 ∨ r_started_at x.2 < r_started_at y.2.
Proof.
  unfold older, claim_le. rewrite orb_true_iff, andb_true_iff, bool_decide_eq_true.
  rewrite Z.ltb_lt, Z.eqb_eq. naive_solver.
Qed.

(** [oldest l] is a least element of [l]. *)
Definition least (l : list Entry) (x : Entry) : Prop := x ∈ l ∧ ∀ y, y ∈ l → claim_le x y.

Lemma oldest_least l x : oldest l = Some x → least l x.
Proof.
  unfold oldest. intros H.
  pose proof (StronglySorted_merge_sort claim_le l) as S.
  pose proof (merge_sort_Permutation claim_le l) as P.
  destruct (merge_sort claim_le l) as [|z s]; cbn in H; [done|]. injection H as ->.
  inversion_clear S as [|?? S' F]. split.
  - rewrite <- P. set_solver.
  - intros y Hy. rewrite <- P in Hy. apply elem_of_cons in Hy as [->|Hy].
    + right. done.
    + rewrite Forall_forall in F. by apply F.
Qed.

Lemma oldest_None l : oldest l = None ↔ l = [].
Proof.
  unfold oldest. pose proof (merge_sort_Permutation claim_le l) as P.
  destruct (merge_sort claim_le l) as [|z s].
  - symmetry in P. apply Permutation_nil_r in P. naive_solver.
  - split; [done|]. intros ->. by apply Permutation_nil_r in P.
Qed.

Lemma oldest_exists l x : x ∈ l → ∃ y, oldest l = Some y.
Proof.
  intros Hx. destruct (oldest l) as [y|] eqn:E; [by exists y|].
  apply oldest_None in E as ->. by apply not_elem_of_nil in Hx.
Qed.

(** ** The two-stage search finds the oldest eligible job *)

Definition ids_unique (l : list Entry) : Prop := ∀ x y, x ∈ l → y ∈ l → x.1 = y.1 → x = y.

Lemma rows_unique (t : Table) : ids_unique (map_to_list t).
Proof.
  intros [i x] [j y] Hx Hy. cbn. intros ->.
  apply elem_of_map_to_list in Hx, Hy. congruence.
Qed.

Lemma oldest_unique l x : ids_unique l → least l x → oldest l = Some x.
Proof.
  intros U [Hx Hmin]. destruct (oldest_exists _ _ Hx) as [y Hy].
  rewrite Hy. f_equal. apply oldest_least in Hy as [Hy Hmin'].
  apply U; [done..|]. apply claim_le_antisym; auto.
Qed.

Lemma ids_unique_incl l l' : l' ⊆ l → ids_unique l → ids_unique l'.
Proof. intros S U x y Hx Hy. apply U; auto. Qed.

Lemma oldest_ext l l' :
  ids_unique l → (∀ x, x ∈ l ↔ x ∈ l') → oldest l = oldest l'.
Proof.
  intros U E. destruct (oldest l) as [x|] eqn:Ho.
  - symmetry. apply oldest_unique.
    + apply (ids_unique_incl l); [|done]. intros y. by rewrite E.
    + apply oldest_least in Ho as [Hx Hm]. split; [by apply E|].
      intros y Hy. apply Hm, E, Hy.
  - apply oldest_None in Ho as ->. symmetry. apply oldest_None.
    destruct l' as [|y l']; [done|]. exfalso. apply (not_elem_of_nil y), E. set_solver.
Qed.

Lemma older_queued_false rows x :
  older_queued rows x = false →
  ∀ y, y ∈ rows → r_owner y.2 = r_owner x.2 → is_queued y = true → claim_le x y ∨ x.1 = y.1.
Proof.
  unfold older_queued. rewrite existsb_false_elem. intros H y Hy Ho Hq.
  specialize (H y Hy). rewrite Hq, bool_decide_true, andb_true_r in H by done. cbn in H.
  apply not_true_iff_false in H. rewrite older_spec in H.
  destruct (decide (x.1 = y.1)); [by right|]. left.
  destruct (total claim_le x y); [done|]. exfalso. apply H. left. split; [done|congruence].
Qed.

Lemma older_queued_least rows x :
  (∀ y, y ∈ rows → is_queued y = true → r_owner y.2 = r_owner x.2 → claim_le x y) →
  ids_unique rows → x ∈ rows → older_queued rows x = false.
Proof.
  intros H U Hx. apply existsb_false_elem. intros y Hy.
  apply not_true_iff_false. rewrite !andb_true_iff, bool_decide_eq_true, older_spec.
  intros [[Ho Hq] Hold]. pose proof (H y Hy Hq Ho) as Hxy.
  destruct Hold as [[Hyx Hne]|Hlt].
  - apply Hne. by apply claim_le_antisym.
  - destruct Hxy as [|[]]; lia.
Qed.

(** The walk over owners reaches every owner with queued work. *)
Lemma min_owner_spec b rows o :
  min_owner b rows = Some o →
  (∃ x, x ∈ rows ∧ is_queued x = true ∧ above b o = true ∧ r_owner x.2 = o) ∧
  ∀ x, x ∈ rows → is_queued x = true → above b (r_owner x.2) = true → String.le o (r_owner x.2).
Proof.
  unfold min_owner. intros H.
  set (l := _ <$> filter _ rows) in H.
  assert (Hl : ∀ p, p ∈ l ↔ ∃ x, p = r_owner x.2 ∧ (is_queued x && above b (r_owner x.2) = true ∧ x ∈ rows)).
  { intros p. unfold l. rewrite list_elem_of_fmap. by setoid_rewrite list_elem_of_filter. }
  pose proof (StronglySorted_merge_sort String.le l) as S.
  pose proof (merge_sort_Permutation String.le l) as P.
  destruct (merge_sort String.le l) as [|z s]; cbn in H; [done|]. injection H as ->.
  inversion_clear S as [|?? S' F]. rewrite Forall_forall in F. split.
  - assert (o ∈ l) as Ho by (rewrite <- P; set_solver).
    apply Hl in Ho as (x & -> & Hx & Hin). apply andb_true_iff in Hx as [Hq Ha]. eauto.
  - intros x Hx Hq Ha. assert (r_owner x.2 ∈ l) as Hin.
    { apply Hl. exists x. by rewrite Hq, Ha. }
    rewrite <- P in Hin. apply elem_of_cons in Hin as [->|]; [done|]. by apply F.
Qed.

Lemma min_owner_exists b rows x :
  x ∈ rows → is_queued x = true → above b (r_owner x.2) = true → ∃ o, min_owner b rows = Some o.
Proof.
  intros Hx Hq Ha. unfold min_owner.
  destruct (merge_sort _ _) as [|o s] eqn:E; [|by exists o].
  pose proof (merge_sort_Permutation String.le
    ((λ x, r_owner x.2) <$> filter (λ x, is_queued x && above b (r_owner x.2) = true) rows)) as P.
  rewrite E in P. symmetry in P. apply Permutation_nil_r in P.
  exfalso. apply (not_elem_of_nil (r_owner x.2)). rewrite <- P.
  apply list_elem_of_fmap. exists x. split; [done|]. apply list_elem_of_filter. by rewrite Hq, Ha.
Qed.

Lemma above_next b o z : above b o = true → above (Some o) z = true → above b z = true.
Proof.
  destruct b as [b|]; cbn; [|done]. rewrite !bool_decide_eq_true.
  intros [H1 N1] [H2 N2]. split; [by etrans|]. intros ->. apply N2. by apply (anti_symm String.le).
Qed.

Lemma queued_owners_complete fuel b rows x :
  (length (filter (λ x, is_queued x && above b (r_owner x.2) = true) rows) ≤ fuel)%nat →
  x ∈ rows → is_queued x = true → above b (r_owner x.2) = true →
  r_owner x.2 ∈ queued_owners fuel b rows.
Proof.
  revert b. induction fuel as [|n IH]; intros b Hf Hx Hq Ha.
  { exfalso. assert (x ∈ filter (λ x, is_queued x && above b (r_owner x.2) = true) rows) as Hin
      by (apply list_elem_of_filter; by rewrite Hq, Ha).
    destruct (filter _ rows); [by apply not_elem_of_nil in Hin | cbn in Hf; lia]. }
  cbn. destruct (min_owner_exists b rows x Hx Hq Ha) as [o Ho]. rewrite Ho.
  apply min_owner_spec in Ho as [(y & Hy & Hyq & Hya & Hyo) Hmin].
  destruct (decide (r_owner x.2 = o)) as [->|Hne]; [by apply elem_of_cons; left|].
  apply elem_of_cons; right. apply IH; [|done..|].
  - apply Nat.lt_succ_r. eapply Nat.lt_le_trans; [|exact Hf].
    apply length_filter_lt with (y := y); [|done|by rewrite Hyq, Hyo|].
    + intros z _ [Hzq Hza]%andb_true_iff. rewrite Hzq. cbn. by eapply above_next.
    + rewrite Hyq, Hyo. cbn. rewrite bool_decide_eq_true. naive_solver.
  - cbn. apply bool_decide_eq_true. split; [by apply Hmin | congruence].
Qed.

Lemma owner_head_spec rows x :
  ids_unique rows →
  owner_head rows (r_owner x.2) = Some x ↔
  x ∈ rows ∧ is_queued x = true ∧ older_queued rows x = false.
Proof.
  intros U. unfold owner_head.
  set (P := λ y : Entry, is_queued y && bool_decide (r_owner y.2 = r_owner x.2) = true).
  assert (HP : ∀ y, y ∈ filter P rows ↔ (is_queued y = true ∧ r_owner y.2 = r_owner x.2) ∧ y ∈ rows).
  { intros y. rewrite list_elem_of_filter. unfold P. by rewrite andb_true_iff, bool_decide_eq_true. }
  split.
  - intros [Hin Hm]%oldest_least. apply HP in Hin as [[Hq _] Hx]. split_and!; [done..|].
    apply older_queued_least; [|done..]. intros y Hy Hyq Hyo. apply Hm, HP. done.
  - intros (Hx & Hq & Hold). apply oldest_unique.
    + apply (ids_unique_incl rows); [|done]. intros y. rewrite HP. by intros [].
    + split; [by apply HP|]. intros y [[Hyq Hyo] Hy]%HP.
      destruct (older_queued_false rows x Hold y Hy Hyo Hyq) as [|E]; [done|].
      rewrite (U _ _ Hx Hy E). by right.
Qed.

Lemma heads_eligible now kinds (t : Table) :
  let rows := map_to_list t in
  claimNextQuery now kinds rows = oldest_eligible t now kinds.
Proof.
  intros rows. pose proof (rows_unique t) as U. fold rows in U.
  unfold claimNextQuery, oldest_eligible. fold rows. symmetry. apply oldest_ext.
  { apply (ids_unique_incl rows); [|done]. intros x [_ H]%list_elem_of_filter. done. }
  intros x. rewrite !list_elem_of_filter, list_elem_of_omap.
  unfold eligible. rewrite !andb_true_iff, !negb_true_iff. split.
  - intros [[[[[Hq Hb] Hr] Hold] Hk] Hx]. split; [done|]. exists (r_owner x.2). split.
    + apply queued_owners_complete; [|done..]. apply length_filter.
    + by apply owner_head_spec.
  - intros [[[Hb Hr] Hk] (o & Ho & Hh)].
    assert (r_owner x.2 = o) as <-.
    { apply oldest_least in Hh as [Hh _].
      apply list_elem_of_filter in Hh as [[_ ->%bool_decide_eq_true]%andb_true_iff _]. done. }
    apply owner_head_spec in Hh as (Hx & Hq & Hold); [done..|exact U].
Qed.

Lemma prefix_eligible now kinds (t : Table) x :
  claimPrefixQuery now kinds (map_to_list t) = Some x → oldest_eligible t now kinds = Some x.
Proof.
  pose proof (rows_unique t) as U. unfold claimPrefixQuery, oldest_eligible.
  set (rows := map_to_list t) in *. set (q := filter (λ x, is_queued x = true) rows).
  intros [Hin Hm]%oldest_least. apply oldest_unique.
  { apply (ids_unique_incl rows); [|done]. intros y [_ H]%list_elem_of_filter. done. }
  pose proof (StronglySorted_merge_sort claim_le q) as S.
  pose proof (merge_sort_Permutation claim_le q) as P.
  rewrite <- (take_drop claimPrefixLength (merge_sort claim_le q)) in S, P.
  set (pre := take _ _) in *. set (post := drop _ _) in *.
  assert (Hmem : ∀ y, y ∈ pre ++ post ↔ is_queued y = true ∧ y ∈ rows).
  { intros y. rewrite P. unfold q. by rewrite list_elem_of_filter. }
  apply list_elem_of_filter in Hin as [Hc Hpre].
  assert (x ∈ pre ++ post) as Hx by set_solver. apply Hmem in Hx as [Hq Hx].
  rewrite !andb_true_iff in Hc. destruct Hc as [[[Hb Hr] Hold] Hk]. split.
  { apply list_elem_of_filter. split; [|done]. unfold eligible. by rewrite Hq, Hb, Hr, Hold, Hk. }
  intros y [Hye Hy]%list_elem_of_filter. unfold eligible in Hye. rewrite !andb_true_iff in Hye.
  destruct Hye as [[[[Hyq Hyb] Hyr] Hyold] Hyk].
  assert (y ∈ pre ++ post) as Hyin by (by apply Hmem).
  apply elem_of_app in Hyin as [Hyp|Hyp].
  - apply Hm, list_elem_of_filter. by rewrite Hyb, Hyr, Hyold, Hyk.
  - apply StronglySorted_app in S as (HF & _ & _). by apply HF.
Qed.

End JobClaim.
