(* ===== verification/JobOps.v ===== *)
(** * JobOps: worker contract, admission, idempotency, cancellation

    Models the heartbeats and the version contract of workers, [enqueue] and
    [enqueueIdempotent], [releaseExpiredIdempotencyKey], and [RequestCancel] with
    the reads of the cancellation bit, of [src/jobs.go]. *)
From S2P Require Import Prelude Secretbox JobStore JobQueue JobClaim.
Import Secretbox.

Module JobOps.
Import Jobs JobQueue JobClaim.

(** [strings.Contains]. *)
Fixpoint contains_bytes (sub s : list ascii) : bool :=
  match strip_prefix sub s with
  | Some _ => true
  | None => match s with [] => false | _ :: s' => contains_bytes sub s' end
  end.
Definition mentions_unique (e : error) : bool :=
  contains_bytes (bytes_of "unique") (bytes_of (lower_ascii (error_text e))).

(** ** Worker heartbeats *)

Definition durableWorkerJobKinds : list string :=
  ["cpmove.restore"; "site.backup"; "certificate.issue"; "wordpress.restore"; "backup.restore";
   "backup.rehearsal"; "cloud.action"; "node.deployment"; "site.terminate"; "migration.analysis";
   "archive.inspect"; "archive.import"; "site.create"; "site.operation"; "audit.checkpoint"].

(** [publishWorkerHeartbeat]: one row per worker, replaced on every beat. *)
Definition publishWorkerHeartbeat (e : Env) (workerID : string) (supported : list string) (J : Jobs)
    : option error * Jobs :=
  match db J with
  | None => (Some (EMsg "worker heartbeat requires a durable database"), J)
  | Some d =>
      if fault e 0 then (Some io_err, J) else
      let beat := mkHeartbeat (clock e 0) (Some supported) (Version J) (Commit J) durableJobProtocolVersion in
      (None, J <| db := Some (d <| worker_heartbeats ::= insert workerID beat |>) |>)
  end.

Definition removeWorkerHeartbeat (e : Env) (workerID : string) (J : Jobs) : option error * Jobs :=
  match db J with
  | None => (None, J)
  | Some d =>
      if fault e 0 then (Some io_err, J)
      else (None, J <| db := Some (d <| worker_heartbeats ::= delete workerID |>) |>)
  end.

(** The outcome [workerReadiness] describes in its detail text. *)
Inductive WorkerDetail : Type :=
  | StoreUnavailable | QueryFailed | WorkerAlive (id : string)
  | IncompatibleWorker (id : string) | NoFreshWorker.

(** The heartbeat comes from the same release, build and protocol. *)
Definition same_release (J : Jobs) (h : Heartbeat) : bool :=
  bool_decide (hb_protocol h = durableJobProtocolVersion) &&
  bool_decide (hb_version h = Version J) && bool_decide (hb_build h = Commit J).

Definition supports (required : list string) (h : Heartbeat) : bool :=
  match hb_kinds h with
  | None => false
  | Some supported => forallb (λ k, bool_decide (k ∈ supported)) required
  end.

(** The loop over the fresh rows. *)
Fixpoint scan_workers (J : Jobs) (required : list string) (incompatible : option string)
    (rows : list (string * Heartbeat)) : bool * WorkerDetail :=
  match rows with
  | [] => match incompatible with
          | Some id => (false, IncompatibleWorker id)
          | None => (false, NoFreshWorker)
          end
  | (id, h) :: rest =>
      if negb (same_release J h)
      then scan_workers J required (match incompatible with None => Some id | _ => incompatible end) rest
      else if supports required h then (true, WorkerAlive id)
      else scan_workers J required incompatible rest
  end.

(** [workerReadiness]; fault 0: the query, 6: reading its rows, which is noticed
    when no compatible worker was found among them. *)
Definition workerReadiness (e : Env) (required : list string) (maxAge : Z) (J : Jobs)
    : bool * WorkerDetail * option error :=
  match db J with
  | None => (false, StoreUnavailable, None)
  | Some d =>
      let maxAge := if maxAge <=? 0 then workerHeartbeatFreshness else maxAge in
      if fault e 0 then (false, QueryFailed, Some io_err) else
      let fresh := filter (λ '(_, h), (clock e 0 - maxAge <=? hb_last_seen h) = true)
                          (map_to_list (worker_heartbeats d)) in
      match scan_workers J required None fresh with
      | (false, detail) => if fault e 6 then (false, QueryFailed, Some io_err) else (false, detail, None)
      | alive => (alive, None)
      end
  end.

(** [publishWorkerContract] and [verifyWorkerContract]. *)
Definition publishWorkerContract (e : Env) (J : Jobs) : option error * Jobs :=
  match db J with
  | None => (Some (EMsg "worker contract requires the durable control-plane database"), J)
  | Some d =>
      if fault e 0 then (Some io_err, J) else
      (None, J <| db := Some (d <| worker_control_contract :=
                                 Some (mkContract (Version J) (Commit J) durableJobProtocolVersion) |>) |>)
  end.

Definition verifyWorkerContract (e : Env) (J : Jobs) : option error :=
  match db J with
  | None => Some (EMsg "worker contract store is unavailable")
  | Some d =>
      if fault e 0 then Some (EWrap "read panel worker contract" io_err) else
      match worker_control_contract d with
      | None => Some (EWrap "read panel worker contract" (ESentinel "sql: no rows in result set"))
      | Some c =>
          if bool_decide (c_version c = Version J) && bool_decide (c_build c = Commit J) &&
             bool_decide (c_protocol c = durableJobProtocolVersion)
          then None else Some (EMsg "worker binary does not match panel contract")
      end
  end.

Definition admissionWorkerReady (e : Env) (J : Jobs) : option error :=
  if negb (requireCompatibleWorker J) then None else
  match workerReadiness e durableWorkerJobKinds workerHeartbeatFreshness J with
  | (true, _, None) => None
  | _ => Some (EWrap "worker heartbeat is unavailable" ErrDurableWorkerUnavailable)
  end.

Section Ops.
Context `{A : AEAD} `{JT : JSONText}.

(** ** Enqueueing *)

(** [addWith] for a queued item of a durable store: the item enters the cache,
    and leaves it again when it cannot be persisted. A full queue is not
    recorded as a storage failure. *)
Definition addWith (persist : Jobs → res Jobs) (item : Job) (J : Jobs) : option error * Jobs :=
  match items J !! ID item with
  | Some _ => (Some (EMsg ("job ID " +:+ ID item +:+ " already exists")), J)
  | None =>
      let J1 := set_item J (ID item) item in
      match persist J1 with
      | Err err =>
          let J2 := J1 <| items ::= delete (ID item) |> in
          (Some err, if errors_is err ErrJobQueueFull then J2 else J2 <| persistErr := Some err |>)
      | Ok J2 => (None, publish item (J2 <| persistErr := None |>))
      end
  end.

(** [enqueue]; faults 0 and 6: the heartbeat query, [1..5]: the admission transaction;
    random 0: the job ID, 1: the payload nonce; clock 0: the heartbeat test,
    1: the start time. *)
Definition enqueue (e : Env) (kind owner operationKey : string) (payload : bytes) (maxAttempts : Z)
    (expiresAt : option Z) (J : Jobs) : res Job * Jobs :=
  if negb (has_db J) || bool_decide (TrimSpace kind = "") || bool_decide (TrimSpace owner = "")
  then (Err (EMsg "durable enqueue requires a kind and owner"), J) else
  if maxJobStateBytes <? Z.of_nat (length payload) then (Err (EMsg "job payload exceeds 16 MiB"), J) else
  let maxAttempts := if maxAttempts <? 1 then 1 else maxAttempts in
  match admissionWorkerReady e J with
  | Some err => (Err err, J)
  | None =>
      match newJobID kind (rand e 0) with
      | Err err => (Err err, J)
      | Ok id =>
          let item := zeroJob <| ID := id |> <| Kind := kind |> <| OperationKey := operationKey |>
            <| IdempotencyExpiresAt := expiresAt |> <| State := Queued |> <| User := owner |>
            <| Payload := payload |> <| MaxAttempts := maxAttempts |> <| StartedAt := clock e 1 |> in
          let persist J := persistAdmittedItem J (fault e 1) (fault e 2) (fault e 3) (fault e 4)
                             (fault e 5) (nonce e 1) item in
          match addWith persist item J with
          | (Some err, J') => (Err err, J')
          | (None, J') => (Ok item, J')
          end
      end
  end.

(** [SELECT id FROM jobs WHERE kind=? AND owner=? AND operation_key=? LIMIT 1] *)
Definition find_operation (t : Table) (kind owner key : string) : option string :=
  match filter (λ '(_, r), bool_decide (r_kind r = kind) && bool_decide (r_owner r = owner) &&
                           bool_decide (r_operation_key r = key) = true) (map_to_list t) with
  | (id, _) :: _ => Some id
  | [] => None
  end.

(** [IdempotentJob]; fault 0: the lookup, 1: loading the job. *)
Definition IdempotentJob (e : Env) (kind owner operationKey : string) (J : Jobs)
    : res (option Job) * Jobs :=
  if negb (has_db J) || bool_decide (TrimSpace operationKey = "") then (Ok None, J) else
  if fault e 0 then (Err io_err, J) else
  match find_operation (table J) kind owner operationKey with
  | None => (Ok None, J)
  | Some id => loadDurableJob J (fault e 1) id
  end.

(** [lookupIdempotentJob]; fault [k]: the lookup, [k+1]: loading the job. *)
Definition lookupIdempotentJob (e : Env) (k : nat) (kind owner operationKey : string) (payload : bytes)
    (J : Jobs) : res (option Job) * Jobs :=
  if fault e k then (Err io_err, J) else
  match find_operation (table J) kind owner operationKey with
  | None => (Ok None, J)
  | Some id =>
      match loadDurableJob J (fault e (S k)) id with
      | (Err err, J') => (Err err, J')
      | (Ok None, J') => (Ok None, J')
      | (Ok (Some existing), J') =>
          if bool_decide (Payload existing = payload) then (Ok (Some existing), J')
          else (Err ErrIdempotencyConflict, J')
      end
  end.

(** [releaseExpiredIdempotencyKey]: frees the key of finished jobs whose
    idempotency window has passed. *)
Definition key_expired (kind owner key : string) (now : Z) (r : Row) : bool :=
  bool_decide (r_kind r = kind) && bool_decide (r_owner r = owner) &&
  bool_decide (r_operation_key r = key) && sql_le (r_idempotency_expires_at r) now &&
  negb (active (r_state r)).

Definition release_row (r : Row) : Row :=
  match r_payload r with
  | BJson job raw =>
      r <| r_operation_key := "" |> <| r_idempotency_expires_at := None |>
        <| r_payload := BJson ((json_view job) <| OperationKey := "" |> <| IdempotencyExpiresAt := None |>) raw |>
  | BRaw _ => r
  end.

(** Fault [k]: begin, [k+1]: the query, [k+2]: reading the rows, [k+3+i]: the
    [i]-th update, [k+3+n]: commit. *)
Definition releaseExpiredIdempotencyKey (e : Env) (k : nat) (kind owner key : string) (now : Z)
    (J : Jobs) : option error * Jobs :=
  let t := table J in
  let expired := filter (λ '(_, r), key_expired kind owner key now r = true) (map_to_list t) in
  let n := length expired in
  if fault e k || fault e (k + 1)%nat || fault e (k + 2)%nat then (Some io_err, J) else
  if existsb (λ '(_, r), match r_payload r with BRaw _ => true | _ => false end) expired
  then (Some (EWrap "decode expired idempotency job" (EMsg "invalid character in job record")), J) else
  if existsb (λ i, fault e (k + 3 + i)%nat) (seq 0 n) || fault e (k + 3 + n)%nat then (Some io_err, J) else
  let t' := (λ r, if key_expired kind owner key now r then release_row r else r) <$> t in
  let ids : gset string := list_to_set expired.*1 in
  let items' := map_imap (λ id j, Some (if decide (id ∈ ids)
                  then j <| OperationKey := "" |> <| IdempotencyExpiresAt := None |> else j)) (items J) in
  (None, set_items (set_table J t') items').

(** [enqueueIdempotent]. [e0] is the environment of the release, [e1] of the
    lookup, [e2] of the enqueue and [e3] of the lookup after a unique-index
    conflict. The boolean reports an existing job. *)
Definition enqueueIdempotent (e0 e1 e2 e3 : Env) (kind owner operationKey : string) (payload : bytes)
    (maxAttempts : Z) (expiresAt : option Z) (J : Jobs) : res (Job * bool) * Jobs :=
  let fresh J := match enqueue e2 kind owner operationKey payload maxAttempts expiresAt J with
                 | (Ok item, J') => (Ok (item, false), J')
                 | (Err err, J') => (Err err, J')
                 end in
  if bool_decide (TrimSpace operationKey = "") || negb (has_db J) then fresh J else
  let '(rel, J0) := match expiresAt with
                    | Some _ => releaseExpiredIdempotencyKey e0 0 kind owner operationKey (clock e0 0) J
                    | None => (None, J)
                    end in
  match rel with
  | Some err => (Err err, J0)
  | None =>
      match lookupIdempotentJob e1 0 kind owner operationKey payload J0 with
      | (Err err, J1) => (Err err, J1)
      | (Ok (Some existing), J1) => (Ok (existing, true), J1)
      | (Ok None, J1) =>
          match fresh J1 with
          | (Err err, J2) =>
              if mentions_unique err then
                match lookupIdempotentJob e3 0 kind owner operationKey payload J2 with
                | (Err lookupErr, J3) => (Err lookupErr, J3)
                | (Ok (Some existing), J3) => (Ok (existing, true), J3)
                | (Ok None, J3) => (Err err, J3)
                end
              else (Err err, J2)
          | r => r
          end
      end
  end.

Definition EnqueueIdempotentWithExpiry (e e0 e1 e2 e3 : Env) (kind owner operationKey : string)
    (payload : bytes) (maxAttempts : Z) (expiresAt : Z) (J : Jobs) : res (Job * bool) * Jobs :=
  if bool_decide (TrimSpace operationKey = "")
  then enqueueIdempotent e0 e1 e2 e3 kind owner operationKey payload maxAttempts None J
  else if expiresAt <=? clock e 0
  then (Err (EMsg "idempotency expiration must be in the future"), J)
  else enqueueIdempotent e0 e1 e2 e3 kind owner operationKey payload maxAttempts (Some expiresAt) J.

(** ** Cancellation *)

Definition cancel_queued_row (now : Z) (r : Row) : Row :=
  r <| r_state := Cancelled |> <| r_finished_at := Some now |> <| r_cancel_requested := true |>.

(** [RequestCancel]; fault 0: reading the state, 1: the update, 2: its row
    count. *)
Definition RequestCancel (e : Env) (id : string) (J : Jobs) : option error * Jobs :=
  if negb (has_db J) || bool_decide (id = "")
  then (Some (EMsg "durable cancellation requires a job ID"), J) else
  if fault e 0 then (Some io_err, J) else
  match table J !! id with
  | None => (Some (EMsg "job is not cancellable"), J)
  | Some r =>
      let now := clock e 0 in
      match r_state r with
      | Queued =>
          if fault e 1 then (Some io_err, J) else
          let J1 := set_table J (<[id := cancel_queued_row now r]> (table J)) in
          if fault e 2 then (Some (EMsg "job is no longer queued"), J1) else
          match items J1 !! id with
          | Some item =>
              let item' := item <| State := Cancelled |> <| Cancel := true |> <| FinishedAt := Some now |> in
              (None, publish item' (set_item J1 id item'))
          | None => (None, J1)
          end
      | Running =>
          if fault e 1 then (Some io_err, J) else
          let J1 := set_table J (<[id := r <| r_cancel_requested := true |>]> (table J)) in
          if fault e 2 then (Some (EMsg "job is no longer running"), J1) else
          match items J1 !! id with
          | Some item =>
              let item' := item <| Cancel := true |> in (None, publish item' (set_item J1 id item'))
          | None => (None, J1)
          end
      | _ => (Some (EMsg "job is not cancellable"), J)
      end
  end.

(** [CancellationRequestedWithError]: a missing row is no longer runnable. *)
Definition CancellationRequestedWithError (e : Env) (id : string) (J : Jobs) : res bool :=
  if has_db J then
    if fault e 0 then Err (EWrap "read durable job cancellation state" io_err) else
    match table J !! id with
    | None => Ok true
    | Some r => Ok (r_cancel_requested r)
    end
  else Ok (match items J !! id with Some item => Cancel item | None => false end).

Definition CancellationRequested (e : Env) (id : string) (J : Jobs) : bool :=
  match CancellationRequestedWithError e id J with Err _ => true | Ok b => b end.

Definition context_Canceled : error := ESentinel "context canceled".

Definition CheckNotCancelled (e : Env) (id : string) (J : Jobs) : option error :=
  match CancellationRequestedWithError e id J with
  | Err err => Some (EWrap "verify durable job cancellation state" err)
  | Ok true => Some context_Canceled
  | Ok false => None
  end.

End Ops.
End JobOps.
