(* ===== verification/JobLife.v ===== *)
(** * JobLife: reads, dead letters, retention, startup and the worker body

    The rest of the durable queue of [src/jobs.go]: [RequeueDeadLetter], the
    authoritative reads and the cache they feed, in-process admission,
    [Cleanup] and [ExpireDeadLetters], the startup [load], the worker backoff
    and what a worker does with one claimed job. *)
From S2P Require Import Prelude Secretbox JobStore JobQueue JobClaim JobOps.
Import Secretbox.

Module JobLife.
Import Jobs JobQueue JobClaim JobOps.

Section Ops.
Context `{A : AEAD} `{JT : JSONText}.

(** ** Dead letters *)

Definition reset_dead (j : Job) : Job :=
  j <| State := Queued |> <| Error := "" |> <| FinishedAt := None |> <| NextAttempt := None |>
    <| LeaseOwner := "" |> <| LeaseExpires := None |> <| Cancel := false |> <| Attempts := 0 |>
    <| Progress := 0 |>.

Definition requeue_dead_row (item : Job) (data : Blob) (r : Row) : Row :=
  r <| r_kind := Kind item |> <| r_operation_key := OperationKey item |> <| r_state := State item |>
    <| r_owner := User item |> <| r_started_at := StartedAt item |> <| r_finished_at := FinishedAt item |>
    <| r_payload := data |> <| r_lease_owner := None |> <| r_lease_token := None |>
    <| r_lease_expires_at := None |> <| r_next_attempt_at := None |> <| r_cancel_requested := false |>.

(** [RequeueDeadLetter]; fault 0: the query, 1: the update, 2: its row count. *)
Definition RequeueDeadLetter (e : Env) (id : string) (J : Jobs) : option error * Jobs :=
  if negb (has_db J) || bool_decide (TrimSpace id = "")
  then (Some (EMsg "dead-letter retry requires a job ID"), J) else
  if fault e 0 then (Some io_err, J) else
  match table J !! id with
  | Some r =>
      if negb (bool_decide (r_state r = DeadLetter))
      then (Some (EMsg "job is not a dead-letter record"), J) else
      match r_payload r with
      | BRaw _ => (Some (EWrap "decode dead-letter job" (EMsg "invalid character in job record")), J)
      | BJson job raw =>
          let persisted := (json_view job) <| Payload := decodePersistedJobPayload raw |> in
          match openPayload J persisted (Payload persisted) with
          | Err err => (Some (EWrap "open dead-letter job payload" err), J)
          | Ok (opened, seen) =>
              let J := saw_legacy seen J in
              let item := persisted <| Payload := opened |> in
              if negb (bool_decide (State item = DeadLetter))
              then (Some (EMsg "job is not a dead-letter record"), J) else
              let item := reset_dead item in
              match encodeDurableItem J (nonce e 0) item with
              | Err err => (Some err, J)
              | Ok data =>
                  if fault e 1 then (Some io_err, J) else
                  match put_row (table J) id (requeue_dead_row item data r) with
                  | Err err => (Some err, J)
                  | Ok t =>
                      let J1 := set_table J t in
                      if fault e 2 then (Some io_err, J1)
                      else (None, publish item (set_item J1 id item))
                  end
              end
          end
      end
  | None => (Some (EMsg "job is not a dead-letter record"), J)
  end.

(** ** Reads *)

Record JobQueueStats := mkStats {
  statQueued : Z; statRunning : Z; statDeadLetter : Z; statOldestQueuedAt : option Z
}.

Definition count_state (s : JobState) (t : Table) : Z :=
  Z.of_nat (length (filter (λ '(_, r), r_state r = s) (map_to_list t))).

Definition oldest_queued (t : Table) : option Z :=
  foldr (λ x acc, if bool_decide (r_state x.2 = Queued)
                  then Some (match acc with Some m => Z.min (r_started_at x.2) m | None => r_started_at x.2 end)
                  else acc) None (map_to_list t).

Definition QueueStats (e : Env) (J : Jobs) : res JobQueueStats :=
  if negb (has_db J) then Err (EMsg "queue statistics require the control-plane database") else
  if fault e 0 then Err io_err else
  Ok (mkStats (count_state Queued (table J)) (count_state Running (table J))
              (count_state DeadLetter (table J)) (oldest_queued (table J))).

(** [materializeJobOutput]: the typed result of a finished job. *)
Definition materializeJobOutput (item : Job) : Job :=
  if bool_decide (Output item = []) then item else
  let fill {T} (cur : option string) (set : option string → T) (same : T) : T :=
    match cur, json_result (Kind item) (Output item) with
    | None, Some doc => set (Some doc)
    | _, _ => same
    end in
  if bool_decide (Kind item = "cpmove.restore") then fill (Result item) (λ r, item <| Result := r |>) item
  else if bool_decide (Kind item = "site.backup") then fill (Backup item) (λ r, item <| Backup := r |>) item
  else if bool_decide (Kind item = "certificate.issue") then fill (Certificate item) (λ r, item <| Certificate := r |>) item
  else if bool_decide (Kind item = "wordpress.restore") then fill (WPress item) (λ r, item <| WPress := r |>) item
  else if bool_decide (Kind item = "backup.restore") then fill (Restore item) (λ r, item <| Restore := r |>) item
  else if bool_decide (Kind item = "cloud.action") then fill (Cloud item) (λ r, item <| Cloud := r |>) item
  else item.

(** [cacheDurableRead] never replaces an existing entry. *)
Definition cacheDurableRead (item : Job) (J : Jobs) : Jobs :=
  match items J !! ID item with
  | Some _ => J
  | None => set_item J (ID item) item
  end.

Definition GetWithError (e : Env) (id : string) (J : Jobs) : res (option Job) * Jobs :=
  if has_db J then
    match loadDurableJob J (fault e 0) id with
    | (Err err, J') => (Err err, J')
    | (Ok (Some item), J') =>
        let item := materializeJobOutput item in (Ok (Some item), cacheDurableRead item J')
    | (Ok None, J') => (Ok None, J' <| items ::= delete id |>)
    end
  else match items J !! id with
       | None => (Ok None, J)
       | Some item => (Ok (Some (materializeJobOutput item)), J)
       end.

Definition Get (e : Env) (id : string) (J : Jobs) : option Job * Jobs :=
  match GetWithError e id J with
  | (Ok o, J') => (o, J')
  | (Err _, J') => (None, J')
  end.

(** [activePayloads] for the predicate [sel]; fault 0: the query, 1: reading
    the rows. More than [limit] jobs, or one that does not decode, is an error. *)
Fixpoint decode_all (J : Jobs) (rows : list Entry) : res (list bytes) * Jobs :=
  match rows with
  | [] => (Ok [], J)
  | (id, r) :: rest =>
      match decodeDurableJob J r with
      | Err err => (Err (EWrap ("load active job " +:+ id) err), J)
      | Ok (item, seen) =>
          let '(ps, J') := decode_all (saw_legacy seen J) rest in
          (ps ← ps; Ok (Payload item :: ps), J')
      end
  end.
Definition activePayloads (e : Env) (sel : Row → bool) (limit : nat) (J : Jobs) : res (list bytes) * Jobs :=
  if fault e 0 then (Err (EWrap "list active jobs" io_err), J) else
  let rows := take (S limit) (merge_sort claim_le
                (filter (λ x, sel x.2 && active (r_state x.2) = true) (map_to_list (table J)))) in
  let '(ps, J') := decode_all J (take limit rows) in
  (ps ← ps;
   if (limit <? length rows)%nat then Err (EMsg "active job payload query exceeds its safety limit") else
   if fault e 1 then Err (EWrap "list active jobs" io_err) else Ok ps, J').

Definition maxActivePayloads : nat := Z.to_nat 10000.

Definition ActivePayloads (e : Env) (kind : string) (J : Jobs) : res (list bytes) * Jobs :=
  if negb (has_db J) then (Ok [], J) else
  activePayloads e (λ r, bool_decide (r_kind r = kind)) maxActivePayloads J.

Definition ActivePayloadsForOwner (e : Env) (kind owner : string) (J : Jobs) : res (list bytes) * Jobs :=
  if negb (has_db J) then (Ok [], J) else
  if bool_decide (TrimSpace kind = "") || bool_decide (TrimSpace owner = "")
  then (Err (EMsg "active job query requires a kind and owner"), J) else
  activePayloads e (λ r, bool_decide (r_kind r = kind) && bool_decide (r_owner r = owner)) maxActivePayloads J.

(** ** In-process admission *)

(** [reserveOperation] with the [Admission] semaphore of
    [src/internal/jobs]: [freeSlots] counts its free slots. *)
Definition reserveOperation (target kind operationKey : string) (J : Jobs) : string * bool * Jobs :=
  if freeSlots J <=? 0 then ("", false, J) else
  let found := filter (λ '(_, item), Kind item = kind ∧ User item = target ∧ OperationKey item = operationKey)
                      (map_to_list (items J)) in
  match (if bool_decide (operationKey = "") then [] else found) with
  | (_, item) :: _ => (ID item, false, J)
  | [] =>
      if decide (target ∈ activeTargets J) then ("", false, J)
      else ("", true, J <| freeSlots ::= Z.pred |> <| activeTargets ::= λ s, {[target]} ∪ s |>)
  end.

Definition reserve (target : string) (J : Jobs) : bool * Jobs :=
  let '(_, ok, J') := reserveOperation target "" "" J in (ok, J').

Definition release (target : string) (J : Jobs) : Jobs :=
  J <| activeTargets ::= λ s, s ∖ {[target]} |> <| freeSlots ::= Z.succ |>.

(** ** Retention *)

Definition terminal (s : JobState) : bool :=
  match s with Completed | Failed | Cancelled => true | _ => false end.

(** [ORDER BY finished_at, id] on rows whose [finished_at] is not NULL. *)
Definition finished_le (x y : Entry) : Prop :=
  let fx := default 0 (r_finished_at x.2) in let fy := default 0 (r_finished_at y.2) in
  fx < fy ∨ (fx = fy ∧ String.le x.1 y.1).

#[local] Instance finished_le_dec : RelDecision finished_le.
Proof. intros x y. unfold finished_le. apply _. Defined.

Definition expired_terminal (cutoff : Z) (r : Row) : bool :=
  sql_lt (r_finished_at r) cutoff && terminal (r_state r).

(** [cleanupDurableJobs]; fault 0: begin, 1: the query, 2: reading the rows,
    [3+i]: the [i]-th delete, [3+n]: commit. *)
Definition cleanupDurableJobs (e : Env) (cutoff batch : Z) (J : Jobs) : res (list string) * Jobs :=
  if (batch <=? 0) || (500 <? batch)
  then (Err (EMsg "durable job cleanup batch must be between 1 and 500"), J) else
  if fault e 0 || fault e 1 || fault e 2 then (Err (EWrap "durable job cleanup" io_err), J) else
  let rows := filter (λ x, expired_terminal cutoff x.2 = true) (map_to_list (table J)) in
  let ids := (take (Z.to_nat batch) (merge_sort finished_le rows)).*1 in
  if existsb (λ i, fault e (3 + i)%nat) (seq 0 (length ids)) || fault e (3 + length ids)%nat
  then (Err (EWrap "durable job cleanup" io_err), J)
  else (Ok ids, set_table J (foldr delete (table J) ids)).

(** [pruneFinishedCacheLocked]. *)
Definition prunable (cutoff : Z) (j : Job) : bool :=
  sql_lt (FinishedAt j) cutoff && terminal (State j).
Definition pruneFinishedCache (cutoff : Z) (J : Jobs) : Jobs :=
  if negb (has_db J) then J
  else J <| items ::= filter (λ '(_, j), prunable cutoff j = false) |>.

(** [Cleanup] of a durable store. *)
Definition Cleanup (e : Env) (maxAge : Z) (J : Jobs) : Jobs :=
  let cutoff := clock e 0 - maxAge in
  match cleanupDurableJobs e cutoff 500 J with
  | (Err err, J') => J' <| persistErr := Some err |>
  | (Ok removed, J') =>
      (pruneFinishedCache cutoff (J' <| items ::= λ m, foldr delete m removed |>)) <| persistErr := None |>
  end.

Definition expired_dead (cutoff : Z) (r : Row) : bool :=
  bool_decide (r_state r = DeadLetter) && sql_lt (r_finished_at r) cutoff.

(** [ExpireDeadLetters]; fault 0: begin, 1: the query, 2: reading the rows,
    [3+i]: the [i]-th delete, [3+n]: commit. *)
Definition ExpireDeadLetters (e : Env) (maxAge batch : Z) (J : Jobs) : res (list Entry) * Jobs :=
  if negb (has_db J) || (maxAge <=? 0) then (Ok [], J) else
  if (batch <=? 0) || (500 <? batch)
  then (Err (EMsg "dead-letter expiry batch must be between 1 and 500"), J) else
  let cutoff := clock e 0 - maxAge in
  if fault e 0 || fault e 1 || fault e 2 then (Err (EWrap "dead-letter expiry" io_err), J) else
  let rows := filter (λ x, expired_dead cutoff x.2 = true) (map_to_list (table J)) in
  let expired := take (Z.to_nat batch) (merge_sort finished_le rows) in
  if existsb (λ i, fault e (3 + i)%nat) (seq 0 (length expired)) || fault e (3 + length expired)%nat
  then (Err (EWrap "dead-letter expiry" io_err), J)
  else (Ok expired, set_items (set_table J (foldr delete (table J) expired.*1))
                              (foldr delete (items J) expired.*1)).

(** ** The worker *)

Record workerBackoff := mkBackoff { base : Z; delay : Z; failures : Z }.
Definition maxWorkerBackoff : Z := 30 * Second.

Definition backoff_next (b : workerBackoff) : Z * workerBackoff :=
  let d := if delay b <=? 0 then base b
           else let d2 := delay b * 2 in if maxWorkerBackoff <? d2 then maxWorkerBackoff else d2 in
  (d, mkBackoff (base b) d (failures b + 1)).
Definition backoff_reset (b : workerBackoff) : workerBackoff := mkBackoff (base b) 0 0.

(** A handler failure marked with [doNotRetry] is not retried. *)
Inductive HandlerResult : Type :=
  | HandlerDone (output : bytes)
  | HandlerFailed (message : string) (nonRetryable : bool) (output : bytes).

(** What [RunWorker] does with a claimed job: it reads the cancellation bit,
    finishes a cancelled job, otherwise runs the handler and records its
    outcome. [handler] is everything that happens to the state while it runs
    (lease renewals and other processes included). A database error leaves the
    claim to its lease. *)
Definition run_claimed (ec ef : Env) (item : Job) (handler : Jobs → HandlerResult * Jobs) (J : Jobs) : Jobs :=
  match CancellationRequestedWithError ec (ID item) J with
  | Err _ => J
  | Ok true =>
      (finishClaim ef (clock ef 1) (ID item) (LeaseToken item)
         (λ job, job <| State := Cancelled |> <| FinishedAt := Some (clock ef 0) |>) J).2
  | Ok false =>
      let '(outcome, J1) := handler J in
      match outcome with
      | HandlerFailed message nonRetryable output =>
          (failClaimWithOutput ef (ID item) (LeaseToken item) message (negb nonRetryable) output J1).2
      | HandlerDone output =>
          (finishClaim ef (clock ef 1) (ID item) (LeaseToken item)
             (λ job, job <| State := Completed |> <| Progress := 100 |> <| Output := output |>
                         <| FinishedAt := Some (clock ef 0) |>) J1).2
      end
  end.

(** One iteration of the loop while claims are open. *)
Definition worker_iteration (e ec ef : Env) (owner : string) (kinds : list string)
    (handler : Job → Jobs → HandlerResult * Jobs) (J : Jobs) : Jobs :=
  match ClaimNext e owner kinds J with
  | (Ok (Some item), J1) => run_claimed ec ef item (handler item) J1
  | (_, J1) => J1
  end.

(** ** Startup *)

Definition durableTerminalJobCacheLimit : nat := 500.

(** [ORDER BY finished_at DESC, id DESC]: NULL sorts last. *)
Definition recent_le (x y : Entry) : Prop :=
  match r_finished_at x.2, r_finished_at y.2 with
  | Some fx, Some fy => fy < fx ∨ (fx = fy ∧ String.le y.1 x.1)
  | Some _, None => True
  | None, Some _ => False
  | None, None => String.le y.1 x.1
  end.
#[local] Instance recent_le_dec : RelDecision recent_le.
Proof.
  intros x y. unfold recent_le.
  destruct (r_finished_at x.2), (r_finished_at y.2); apply _.
Defined.

Definition recovery_critical (r : Row) : bool :=
  match r_state r with Queued | Running | DeadLetter => true | _ => false end.

Definition load_rows (t : Table) : list Entry :=
  let recent := (take durableTerminalJobCacheLimit (merge_sort recent_le
                   (filter (λ x, terminal (r_state x.2) = true) (map_to_list t)))).*1 in
  merge_sort claim_le
    (filter (λ x, recovery_critical x.2 || bool_decide (x.1 ∈ recent) = true) (map_to_list t)).

Definition known_state (s : JobState) : bool :=
  match s with OtherState _ => false | _ => true end.

Definition interruptedError : string :=
  "interrupted by an unclean shutdown; verify restore rollback and destination integrity".

(** Decodes one startup row; a running row without a lease owner was orphaned
    by a crash and is marked failed. *)
Definition blob_len (b : Blob) : Z :=
  match b with BJson job raw => json_len job raw | BRaw b => Z.of_nat (length b) end.

Definition load_row (J : Jobs) (now : Z) (r : Row) : res (Job * bool * bool) :=
  if maxJobStateBytes <? blob_len (r_payload r)
  then Err (EMsg "durable job payload exceeds 16 MiB") else
  match decodeDurableJobRecord (r_payload r) with
  | Err _ => Err (EMsg "durable job state contains an invalid job")
  | Ok item =>
      if bool_decide (ID item = "") then Err (EMsg "durable job state contains an invalid job") else
      if negb (known_state (r_state r)) then Err (EMsg "durable job state contains invalid SQL state") else
      let item := item <| State := r_state r |> in
      match openPayload J item (Payload item) with
      | Err err => Err (EWrap "open durable job payload" err)
      | Ok (opened, seen) =>
          let item := item <| Payload := opened |>
             <| LeaseOwner ::= λ o, default o (r_lease_owner r) |>
             <| LeaseToken ::= λ o, default o (r_lease_token r) |>
             <| LeaseExpires ::= λ o, match r_lease_expires_at r with Some x => Some x | None => o end |>
             <| NextAttempt ::= λ o, match r_next_attempt_at r with Some x => Some x | None => o end |>
             <| Cancel ::= λ c, r_cancel_requested r || c |> in
          if bool_decide (State item = Running) && bool_decide (LeaseOwner item = "")
          then Ok (item <| State := Failed |> <| Error := interruptedError |> <| FinishedAt := Some now |>
                        <| LeaseToken := "" |> <| LeaseExpires := None |>, true, seen)
          else Ok (item, false, seen)
      end
  end.

(** An orphaned lease: the job with the token and expiry that were read. *)
Record orphanedJobLease := mkOrphan { o_id : string; o_token : option string; o_expiresAt : option Z }.

(** Reads the rows into the cache and collects the orphaned leases. *)
Fixpoint load_all (J : Jobs) (now : Z) (rows : list Entry) (orphans : list orphanedJobLease)
    : res (Jobs * list orphanedJobLease) :=
  match rows with
  | [] => Ok (J, orphans)
  | (_, r) :: rest =>
      match load_row J now r with
      | Err err => Err err
      | Ok (item, orphan, seen) =>
          match items J !! ID item with
          | Some _ => Err (EMsg "durable job state contains duplicate ID")
          | None =>
              load_all (set_item (saw_legacy seen J) (ID item) item) now rest
                (if orphan then orphans ++ [mkOrphan (ID item) (r_lease_token r) (r_lease_expires_at r)] else orphans)
          end
      end
  end.

(** The conditional update of one orphan. *)
Definition fail_orphan (e : Env) (i : nat) (now : Z) (o : orphanedJobLease) (J : Jobs) : option error * Jobs :=
  let id := o_id o in
  let stale := EMsg ("durable job " +:+ id +:+ " changed during startup reconciliation; refusing stale state") in
  match items J !! id with
  | None => (Some (EMsg "cannot persist invalid job"), J)
  | Some item =>
      match encodeDurableItem J (nonce e i) item with
      | Err err => (Some (EWrap ("encode interrupted durable job " +:+ id) err), J)
      | Ok data =>
          if fault e (2 + i)%nat then (Some (EWrap ("reconcile interrupted durable job " +:+ id) io_err), J) else
          match table J !! id with
          | Some r =>
              if bool_decide (r_state r = Running) && bool_decide (default "" (r_lease_owner r) = "") &&
                 bool_decide (r_lease_token r = o_token o) && bool_decide (r_lease_expires_at r = o_expiresAt o)
              then (None, set_table J (<[id := r <| r_state := Failed |> <| r_finished_at := Some now |>
                         <| r_payload := data |> <| r_lease_owner := None |> <| r_lease_token := None |>
                         <| r_lease_expires_at := None |>]> (table J)))
              else (Some stale, J)
          | None => (Some stale, J)
          end
      end
  end.

(** The orphans in turn; the updates before a failure stay committed. *)
Fixpoint fail_orphans (e : Env) (i : nat) (now : Z) (orphans : list orphanedJobLease) (J : Jobs)
    : option error * Jobs :=
  match orphans with
  | [] => (None, J)
  | o :: rest => match fail_orphan e i now o J with
                 | (None, J') => fail_orphans e (S i) now rest J'
                 | (Some err, J') => (Some err, J')
                 end
  end.

(** [load] of a durable store; fault 0: the query, 1: reading the rows,
    [2+i]: the [i]-th reconciliation. A row that cannot be loaded ends the start;
    what was cached until then is dropped with the process. *)
Definition load (e : Env) (J : Jobs) : option error * Jobs :=
  if fault e 0 then (Some (EWrap "read durable job state" io_err), J) else
  match load_all J (clock e 0) (load_rows (table J)) [] with
  | Err err => (Some err, J)
  | Ok (J1, orphans) =>
      if fault e 1 then (Some (EWrap "iterate durable job state" io_err), J1)
      else fail_orphans e 0 (clock e 0) orphans J1
  end.

(** ** Re-sealing of legacy payloads *)

(** The body of [resealLegacyPayloads] for one row: a payload that is neither empty nor
    sealed is opened in its legacy form and sealed for its job. The update is
    conditional on the payload that was read and writes nothing else, so that reading
    and writing are one step. Fault 0: the update. *)
Definition reseal_row (e : Env) (id : string) (J : Jobs) : option error * Jobs :=
  match table J !! id with
  | None => (None, J)
  | Some r =>
      match r_payload r with
      | BRaw _ => (Some (EWrap ("decode job " +:+ id) (EMsg "invalid character in job record")), J)
      | BJson job raw =>
          let payload := decodePersistedJobPayload raw in
          if bool_decide (payload = []) || IsSealed payload then (None, J) else
          if negb (bool_decide (ID job = id)) then (Some (EMsg ("job row " +:+ id +:+ " holds the record of job " +:+ ID job)), J) else
          match openPayload J (json_view job) payload with
          | Err err => (Some (EWrap ("open legacy payload of job " +:+ id) err), J)
          | Ok (opened, seen) =>
              let item := (json_view job) <| Payload := opened |> in
              match sealPayload J (nonce e 0) item with
              | Err err => (Some err, saw_legacy seen J)
              | Ok sealed =>
                  match marshal_job item (marshal_bytes sealed) with
                  | Err err => (Some err, saw_legacy seen J)
                  | Ok data =>
                      if fault e 0 then (Some (EWrap ("re-seal job " +:+ id) io_err), saw_legacy seen J)
                      else (None, set_table (saw_legacy seen J) (<[id := r <| r_payload := data |>]> (table J)))
                  end
              end
          end
      end
  end.

End Ops.
End JobLife.
