(* ===== verification/JobFacts.v ===== *)
(** * JobFacts: lemmas on the durable queue

    The shared lemmas behind the properties of the queue: frame lemmas of the
    state setters, the uniqueness of indexed rows, and the specification of the
    compare-and-swap every lease holder writes through. *)
From S2P Require Import Prelude Secretbox JobStore JobQueue JobClaim JobOps JobLife.
Import Secretbox.

Module JobFacts.
Import Jobs JobQueue JobClaim JobOps JobLife.

(** ** State setters *)

Lemma table_set_table J t : has_db J = true → table (set_table J t) = t.
Proof. unfold table, set_table, has_db. by destruct J as [[d|]]. Qed.
Lemma table_set_item J id j : table (set_item J id j) = table J.
Proof. by destruct J. Qed.
Lemma table_set_items J m : table (set_items J m) = table J.
Proof. by destruct J. Qed.
Lemma table_publish j J : table (publish j J) = table J.
Proof. by destruct J. Qed.
Lemma table_saw_legacy b J : table (saw_legacy b J) = table J.
Proof. by destruct b, J. Qed.
Lemma items_set_table J t : items (set_table J t) = items J.
Proof. by destruct J. Qed.
Lemma items_set_item J id j : items (set_item J id j) = <[id := j]> (items J).
Proof. by destruct J. Qed.
Lemma items_set_items J m : items (set_items J m) = m.
Proof. by destruct J. Qed.
Lemma items_publish j J : items (publish j J) = items J.
Proof. by destruct J. Qed.
Lemma items_saw_legacy b J : items (saw_legacy b J) = items J.
Proof. by destruct b, J. Qed.
Lemma has_db_set_table J t : has_db (set_table J t) = has_db J.
Proof. by destruct J as [[]]. Qed.
Lemma has_db_saw_legacy b J : has_db (saw_legacy b J) = has_db J.
Proof. by destruct b, J as [[]]. Qed.
Lemma has_db_set_item J id j : has_db (set_item J id j) = has_db J.
Proof. by destruct J. Qed.
Lemma has_db_publish j J : has_db (publish j J) = has_db J.
Proof. by destruct J. Qed.
Lemma publish_all_frame l J :
  has_db (publish_all l J) = has_db J ∧ table (publish_all l J) = table J ∧
  items (publish_all l J) = items J.
Proof.
  unfold publish_all. revert J. induction l as [|j l IH]; intros J; [done|].
  change (foldl _ J (j :: l)) with (foldl (λ J j, publish j J) (publish j J) l).
  destruct (IH (publish j J)) as (-> & -> & ->). by destruct J.
Qed.
Lemma table_publish_all l J : table (publish_all l J) = table J.
Proof. apply publish_all_frame. Qed.
Lemma items_publish_all l J : items (publish_all l J) = items J.
Proof. apply publish_all_frame. Qed.
Lemma has_db_publish_all l J : has_db (publish_all l J) = has_db J.
Proof. apply publish_all_frame. Qed.
Lemma table_persistErr J x : table (J <| persistErr := x |>) = table J.
Proof. by destruct J. Qed.
Lemma items_persistErr J x : items (J <| persistErr := x |>) = items J.
Proof. by destruct J. Qed.
Lemma has_db_persistErr J x : has_db (J <| persistErr := x |>) = has_db J.
Proof. by destruct J. Qed.
Lemma has_db_set_items J m : has_db (set_items J m) = has_db J.
Proof. by destruct J. Qed.
Lemma set_table_same J : has_db J = true → set_table J (table J) = J.
Proof. unfold set_table, table, has_db. by destruct J as [[[]|]]. Qed.


#[export] Hint Rewrite table_set_item table_set_items table_publish table_saw_legacy
  items_set_table items_set_item items_set_items items_publish items_saw_legacy
  has_db_set_table has_db_saw_legacy has_db_set_item has_db_publish
  table_publish_all items_publish_all has_db_publish_all has_db_set_items
  table_persistErr items_persistErr has_db_persistErr : jobs.
#[export] Hint Rewrite table_set_table using (autorewrite with jobs; done) : jobs.

(** ** Unique rows *)

Lemma clash_sym r1 r2 : clash r1 r2 = clash r2 r1.
Proof.
  unfold clash. apply eq_true_iff_eq. rewrite !andb_true_iff, !orb_true_iff, !bool_decide_eq_true,
    !negb_true_iff, !bool_decide_eq_false, !andb_true_iff. naive_solver congruence.
Qed.

Lemma violates_false t id r :
  violates t id r = false ↔ ∀ id' r', t !! id' = Some r' → id' ≠ id → clash r r' = false.
Proof.
  unfold violates. rewrite existsb_false_elem. split.
  - intros H id' r' Hl Hne. specialize (H (id', r')). cbn in H.
    rewrite elem_of_map_to_list, bool_decide_false in H by done. by apply H.
  - intros H [id' r'] Hl%elem_of_map_to_list. destruct (decide (id' = id)) as [->|Hne].
    + by rewrite bool_decide_true.
    + rewrite bool_decide_false by done. by apply (H id').
Qed.

Lemma put_row_unique t t' id r : put_row t id r = Ok t' → unique_rows t → unique_rows t'.
Proof.
  unfold put_row. destruct (violates t id r) eqn:V; [done|]. intros [= <-] U.
  rewrite violates_false in V. intros i j ri rj.
  rewrite !lookup_insert. repeat case_decide; intros; simplify_eq; eauto.
  rewrite clash_sym. eauto.
Qed.

Lemma put_row_lookup t t' id r : put_row t id r = Ok t' → t' = <[id := r]> t.
Proof. unfold put_row. by destruct (violates t id r); [|intros [= <-]]. Qed.

(** A row may be replaced by one with the same index columns that is active
    only if the old one was. *)
Definition narrower (r r' : Row) : Prop :=
  r_kind r' = r_kind r ∧ r_owner r' = r_owner r ∧
  (r_operation_key r' = r_operation_key r ∧ (active (r_state r') = true → active (r_state r) = true)
   ∨ r_operation_key r' = "" ∧ active (r_state r') = false).

Lemma narrower_refl r : narrower r r.
Proof. unfold narrower. auto. Qed.

Lemma narrower_clash r1 r1' r2 r2' :
  narrower r1 r1' → narrower r2 r2' → clash r1' r2' = true → clash r1 r2 = true.
Proof.
  unfold narrower, clash. rewrite !andb_true_iff, !orb_true_iff, !andb_true_iff, !negb_true_iff,
    !bool_decide_eq_true, !bool_decide_eq_false. intros (K1 & O1 & H1) (K2 & O2 & H2) [[[K O] P] Q].
  rewrite K1, K2 in K. rewrite O1, O2 in O.
  destruct H1 as [[P1 A1]|[P1 A1]], H2 as [[P2 A2]|[P2 A2]]; rewrite P1, P2 in P; rewrite P1 in Q;
    destruct Q as [Q|[Q1 Q2]]; try congruence; split; auto.
Qed.

(** A table obtained by narrowing rows (and deleting some) stays unique. *)
Lemma narrower_unique (t t' : Table) :
  (∀ id r', t' !! id = Some r' → ∃ r, t !! id = Some r ∧ narrower r r') →
  unique_rows t → unique_rows t'.
Proof.
  intros H U i j ri rj Hi Hj Hne.
  destruct (H _ _ Hi) as (r1 & H1 & N1), (H _ _ Hj) as (r2 & H2 & N2).
  apply not_true_iff_false. intros C. pose proof (narrower_clash _ _ _ _ N1 N2 C) as C'.
  rewrite (U _ _ _ _ H1 H2 Hne) in C'. done.
Qed.

(** ** Writing under a lease *)
Section Cas.
Context `{A : AEAD} `{JT : JSONText}.

Lemma encode_view J n item data :
  encodeDurableItem J n item = Ok data → ∃ raw, data = BJson (json_view item) raw.
Proof.
  unfold encodeDurableItem, marshal_job. intros H.
  repeat (case_if || case_match); simplify_eq; eauto.
Qed.

(** What a successful lease write did. *)
Definition lease_write (J : Jobs) (e : Env) (now : Z) (token : string) (item : Job) (t : Table) : Prop :=
  ∃ data, encodeDurableItem J (nonce e 0) item = Ok data ∧
    lease_held (table J) (ID item) token now = true ∧
    put_row (table J) (ID item) (row_of item data) = Ok t.

Lemma cas_spec J e now item token err t :
  persistDurableItemCAS J (fault e 0) (fault e 1) (nonce e 0) now item token = (err, t) →
  match err with
  | None => lease_write J e now token item t
  | Some _ => t = table J ∨ fault e 1 = true ∧ lease_write J e now token item t
  end.
Proof.
  unfold persistDurableItemCAS, lease_write. intros H.
  destruct (encodeDurableItem _ _ _) as [data|] eqn:E; [|simplify_eq; by left].
  destruct (fault e 0); [simplify_eq; by left|].
  destruct (lease_held _ _ _ _) eqn:L; [|destruct (fault e 1); simplify_eq; by left].
  destruct (put_row _ _ _) as [t'|] eqn:P; [|simplify_eq; by left].
  destruct (fault e 1); simplify_eq; [right; split; [done|]|]; exists data; done.
Qed.

Lemma cas_item_spec J e now id item token err J' :
  has_db J = true → cas_item J e now id item token = (err, J') →
  match err with
  | None => lease_write J e now token item (table J') ∧ items J' = <[id := item]> (items J)
  | Some _ => items J' = items J ∧
              (table J' = table J ∨ fault e 1 = true ∧ lease_write J e now token item (table J'))
  end.
Proof.
  intros Hdb. unfold cas_item.
  destruct (persistDurableItemCAS _ _ _ _ _ _ _) as [[er|] t] eqn:E; apply cas_spec in E;
    intros [= <- <-]; autorewrite with jobs; eauto.
Qed.

Lemma claimed_item_spec J id token item :
  claimed_item J id token = Some item ↔
  items J !! id = Some item ∧ State item = Running ∧ LeaseToken item = token.
Proof. unfold claimed_item. repeat case_match; naive_solver. Qed.

Lemma update_claimed_spec msg e now id token upd J err J' :
  update_claimed msg e now id token upd J = (err, J') →
  match err with
  | None => has_db J = true ∧ ∃ item, claimed_item J id token = Some item ∧
              lease_write J e now token (upd item) (table J') ∧
              items J' = <[id := upd item]> (items J)
  | Some _ => items J' = items J ∧
      (table J' = table J ∨
       fault e 1 = true ∧ has_db J = true ∧
       ∃ item, claimed_item J id token = Some item ∧ lease_write J e now token (upd item) (table J'))
  end.
Proof.
  unfold update_claimed. intros H. case_if; [by simplify_eq; auto|].
  apply orb_false_iff in Heqb as [[Hdb _]%orb_false_iff _]. apply negb_false_iff in Hdb.
  destruct (claimed_item J id token) as [item|] eqn:C; [|by simplify_eq; auto].
  destruct (cas_item _ _ _ _ _ _) as [[er|] J1] eqn:E; simplify_eq; apply cas_item_spec in E; auto.
  - destruct E as [? [?|[??]]]; split; [done|by left|done|right; split_and!; [done..|by exists item]].
  - autorewrite with jobs. destruct E. split; [done|by exists item].
Qed.

End Cas.
End JobFacts.
