(* ===== verification/JobWorld.v ===== *)
(** * JobWorld: several processes over one queue

    The panel and its workers are processes that share the control-plane
    database and keep a private cache each. A step runs one queue operation of
    one process between two instants; random secrets are fresh. Every operation
    is shown to refine one of three abstract changes of the job table
    ([tstep]), from which the invariants of reachable worlds follow. *)
From S2P Require Import Prelude Secretbox JobStore JobQueue JobClaim JobOps JobLife JobFacts.
Import Secretbox.

Module JobWorld.
Import Jobs JobQueue JobClaim JobOps JobLife JobFacts.

(** ** Abstract changes of the table *)

(** A row whose payload, when readable, is the record of this very job. *)
Definition wf_row (id : string) (r : Row) : Prop :=
  match r_payload r with
  | BJson job _ => ID job = id ∧ User job = r_owner r
  | BRaw _ => True
  end.

(** A row rewritten in place: same owner, the lease token kept or dropped, and
    live afterwards only if its lease was live before. *)
Definition rewrites (now : Z) (id : string) (r r' : Row) : Prop :=
  r_owner r' = r_owner r ∧ (wf_row id r → wf_row id r') ∧
  (r_lease_token r' = None ∨ r_lease_token r' = r_lease_token r) ∧
  (∀ c, now ≤ c → live c r' = true → live now r = true).

(** [D]: the lease tokens drawn so far; [new]: the token this step may hand out;
    [by_id]: whether [Claim] is used, which takes a queued job by its ID without
    asking what else its owner runs. *)
Inductive tstep (by_id : bool) (now now' : Z) (D : gset string) (new : option string) (t t' : Table) : Prop :=
  | TRewrite :
      (∀ id r', t' !! id = Some r' → ∃ r, t !! id = Some r ∧ (r = r' ∨ rewrites now id r r')) →
      tstep by_id now now' D new t t'
  | TInsert id r :
      t !! id = None → t' = <[id := r]> t → r_state r = Queued → r_lease_token r = None →
      wf_row id r → tstep by_id now now' D new t t'
  | TClaim id r owner tok c expires :
      t !! id = Some r → r_state r = Queued → now ≤ c ≤ now' →
      (∀ id2 r2, t !! id2 = Some r2 → r_owner r2 = r_owner r → live c r2 = false) →
      new = Some tok → tok ∉ D → t' = <[id := run_row owner tok expires r]> t →
      tstep by_id now now' D new t t'
  | TTake id r owner tok expires :
      by_id = true → t !! id = Some r → r_state r = Queued →
      new = Some tok → tok ∉ D → t' = <[id := run_row owner tok expires r]> t →
      tstep by_id now now' D new t t'.

Lemma tstep_refl by_id now now' D new t : tstep by_id now now' D new t t.
Proof. apply TRewrite. eauto. Qed.

(** ** Invariants of a table *)

Definition one_live (now : Z) (t : Table) : Prop :=
  ∀ id1 id2 r1 r2, t !! id1 = Some r1 → t !! id2 = Some r2 →
    live now r1 = true → live now r2 = true → r_owner r1 = r_owner r2 → id1 = id2.

Definition tokens_known (D : gset string) (t : Table) : Prop :=
  ∀ id r tok, t !! id = Some r → r_lease_token r = Some tok → tok ∈ D.

Definition tokens_distinct (t : Table) : Prop :=
  ∀ id1 id2 r1 r2 tok, t !! id1 = Some r1 → t !! id2 = Some r2 →
    r_lease_token r1 = Some tok → r_lease_token r2 = Some tok → id1 = id2.

Definition wf_table (t : Table) : Prop := ∀ id r, t !! id = Some r → wf_row id r.

Lemma live_mono now now' r : now ≤ now' → live now' r = true → live now r = true.
Proof.
  unfold live. rewrite !andb_true_iff. intros Hle [-> H]. split; [done|].
  destruct (r_lease_expires_at r); [|done]. rewrite Z.ltb_lt in *. lia.
Qed.

Lemma live_running now r : live now r = true → r_state r = Running.
Proof. unfold live. by rewrite andb_true_iff, bool_decide_eq_true; intros []. Qed.

(** A rewritten table has no live row that was not live before. *)
Lemma rewrite_live now now' id r r' :
  now ≤ now' → r = r' ∨ rewrites now id r r' → live now' r' = true →
  live now r = true ∧ r_owner r' = r_owner r.
Proof.
  intros Hle [->|(Ho & _ & _ & Hr)] Hlive.
  - split; [by eapply live_mono | done].
  - split; [by eapply Hr | done].
Qed.

Lemma tstep_one_live now now' D new t t' :
  now ≤ now' → tstep false now now' D new t t' → one_live now t → one_live now' t'.
Proof.
  intros Hle [H|id r Ht -> Hq _ _|id r owner tok c ex Ht Hq Hc Hnone _ _ ->|id r owner tok ex Hby] I i j ri rj Hi Hj Li Lj Ho.
  - destruct (H _ _ Hi) as (si & Hsi & Ri), (H _ _ Hj) as (sj & Hsj & Rj).
    destruct (rewrite_live _ _ _ _ _ Hle Ri Li) as [? ?], (rewrite_live _ _ _ _ _ Hle Rj Lj) as [? ?].
    apply (I i j si sj Hsi Hsj); [done..|congruence].
  - rewrite lookup_insert in Hi, Hj. repeat case_decide; simplify_eq; try done.
    + apply live_running in Lj. congruence.
    + apply live_running in Li. congruence.
    + eapply I; eauto using live_mono.
  - assert (∀ k rk, t !! k = Some rk → r_owner rk = r_owner r → live now' rk = true → False) as Hn.
    { intros k rk Hk Hok Lk. apply (live_mono c) in Lk; [|lia]. by rewrite (Hnone k rk) in Lk. }
    rewrite lookup_insert in Hi, Hj. repeat case_decide; simplify_eq; try done.
    + exfalso. by apply (Hn i ri).
    + exfalso. by apply (Hn j rj).
    + eapply I; eauto using live_mono.
  - done.
Qed.

Lemma tstep_wf by_id now now' D new t t' : tstep by_id now now' D new t t' → wf_table t → wf_table t'.
Proof.
  intros [H|id r Ht -> _ _ W|id r owner tok c ex Ht _ _ _ _ _ ->|id r owner tok ex _ Ht _ _ _ ->] I i ri Hi.
  - destruct (H _ _ Hi) as (s & Hs & [->|(_ & W & _)]); [by apply I | by apply W, I].
  - rewrite lookup_insert in Hi. case_decide; simplify_eq; [done | by apply I].
  - rewrite lookup_insert in Hi. case_decide; simplify_eq; [|by apply I].
    exact (I i r Ht).
  - rewrite lookup_insert in Hi. case_decide; simplify_eq; [|by apply I].
    exact (I i r Ht).
Qed.

Definition add_token (new : option string) (D : gset string) : gset string :=
  match new with Some s => {[s]} ∪ D | None => D end.

Lemma add_token_mono new D : D ⊆ add_token new D.
Proof. destruct new; cbn; set_solver. Qed.

Lemma tstep_tokens by_id now now' D new t t' :
  tstep by_id now now' D new t t' → tokens_known D t → tokens_known (add_token new D) t'.
Proof.
  intros [H|id r Ht -> _ Hn _|id r owner tok c ex Ht _ _ _ -> Hf ->|id r owner tok ex _ Ht _ -> Hf ->] I i ri tk Hi Htk.
  - apply add_token_mono. destruct (H _ _ Hi) as (s & Hs & [->|(_ & _ & [E|E] & _)]); [by eapply I|congruence|].
    rewrite E in Htk. by eapply I.
  - rewrite lookup_insert in Hi. case_decide; simplify_eq; try congruence. apply add_token_mono. by eapply I.
  - rewrite lookup_insert in Hi. case_decide; [|apply add_token_mono; by eapply I].
    injection Hi as <-. cbn in Htk |- *. set_solver.
  - rewrite lookup_insert in Hi. case_decide; [|apply add_token_mono; by eapply I].
    injection Hi as <-. cbn in Htk |- *. set_solver.
Qed.

Lemma tstep_distinct by_id now now' D new t t' :
  tstep by_id now now' D new t t' → tokens_known D t → tokens_distinct t → tokens_distinct t'.
Proof.
  intros [H|id r Ht -> _ Hn _|id r owner tok c ex Ht _ _ _ _ Hf ->|id r owner tok ex _ Ht _ _ Hf ->] K I i j ri rj tk Hi Hj Ti Tj.
  - destruct (H _ _ Hi) as (si & Hsi & Ri), (H _ _ Hj) as (sj & Hsj & Rj).
    eapply (I i j si sj tk); eauto.
    + destruct Ri as [->|(_ & _ & [E|E] & _)]; congruence.
    + destruct Rj as [->|(_ & _ & [E|E] & _)]; congruence.
  - rewrite lookup_insert in Hi, Hj. repeat case_decide; simplify_eq; try done; eauto; congruence.
  - rewrite lookup_insert in Hi, Hj. repeat case_decide; simplify_eq; try done; cbn in *; simplify_eq; eauto.
    + exfalso. apply Hf. by eapply K.
    + exfalso. apply Hf. by eapply K.
  - rewrite lookup_insert in Hi, Hj. repeat case_decide; simplify_eq; try done; cbn in *; simplify_eq; eauto.
    + exfalso. apply Hf. by eapply K.
    + exfalso. apply Hf. by eapply K.
Qed.

(** A token that no row carries does not come back. *)
Definition token_lost (D : gset string) (tok : string) (t : Table) : Prop :=
  tok ∈ D ∧ ∀ id r, t !! id = Some r → r_lease_token r ≠ Some tok.

Lemma tstep_lost by_id now now' D new t t' tok :
  tstep by_id now now' D new t t' → token_lost D tok t → token_lost (add_token new D) tok t'.
Proof.
  intros S [Hin L]. split; [by apply add_token_mono|].
  destruct S as [H|id r Ht -> _ Hn _|id r owner tk c ex Ht _ _ _ _ Hf ->|id r owner tk ex _ Ht _ _ Hf ->]; intros i ri Hi Tk.
  - destruct (H _ _ Hi) as (s & Hs & [->|(_ & _ & [E|E] & _)]); [by eapply L|congruence|].
    rewrite E in Tk. by eapply L.
  - rewrite lookup_insert in Hi. case_decide; simplify_eq; try congruence. by eapply L.
  - rewrite lookup_insert in Hi. case_decide; [|by eapply L].
    injection Hi as <-. cbn in Tk. injection Tk as ->. done.
  - rewrite lookup_insert in Hi. case_decide; [|by eapply L].
    injection Hi as <-. cbn in Tk. injection Tk as ->. done.
Qed.

(** ** Worlds and steps *)

Record World := mkWorld {
  wdb : DB;
  procs : gmap nat Jobs;
  wnow : Z;
  drawn : gset string  (* the lease tokens handed out so far *)
}.

(** A process over the shared database. *)
Definition view (w : World) (J : Jobs) : Jobs := J <| db := Some (wdb w) |>.

(** The transactions the panel and the workers issue. The compound operations
    ([enqueueIdempotent], the worker loop) are sequences of these, and
    [resealLegacyPayloads] repeats [OReseal]. [Claim] is offered to workers but has
    no caller in the program; neither have the [Submit] functions, which record a
    job that runs inside the process. They and [normalizeLegacyCloudJobOwners], the
    startup migration of the owners that an older release wrote, are not operations
    here. *)
Inductive Op : Type :=
  | OEnqueue (kind owner key : string) (payload : bytes) (maxAttempts : Z) (expires : option Z)
  | OReleaseKey (kind owner key : string)
  | OLookup (kind owner key : string) (payload : bytes)
  | OClaimNext (owner : string) (kinds : list string)
  | OClaim (id owner : string)
  | ORenew (id token : string)
  | OComplete (id token : string) (output : bytes)
  | OFinishCancelled (id token : string)
  | OFail (id token message : string) (retry : bool) (output : bytes)
  | OUpdate (id token : string) (progress : Z)
  | OUpdatePayload (id token : string) (payload : bytes)
  | ORequeueExpired
  | OCancel (id : string)
  | ORequeueDead (id : string)
  | OGet (id : string)
  | OCleanup (maxAge : Z)
  | OExpireDead (maxAge batch : Z)
  | OHeartbeat (worker : string) (kinds : list string)
  | OReseal (id : string)
  | OLoad.

(** Whether an operation may happen in a world where jobs are claimed by their ID,
    or are not. *)
Definition allowed (by_id : bool) (o : Op) : bool :=
  match o with OClaim _ _ => by_id | _ => true end.

Section Steps.
Context `{A : AEAD} `{JT : JSONText}.

Definition complete_item (now : Z) (output : bytes) (job : Job) : Job :=
  job <| State := Completed |> <| Progress := 100 |> <| Output := output |> <| FinishedAt := Some now |>.
Definition cancel_item (now : Z) (job : Job) : Job :=
  job <| State := Cancelled |> <| FinishedAt := Some now |>.

(** The error a claim holder sees and the state after its operation; [Renew] reports
    a lease it does not hold as [false] without an error, which is a failure too. *)
Definition exec_claim (e : Env) (o : Op) (J : Jobs) : option error * Jobs :=
  match o with
  | OComplete id token output => finishClaim e (clock e 1) id token (complete_item (clock e 0) output) J
  | OFinishCancelled id token => finishClaim e (clock e 1) id token (cancel_item (clock e 0)) J
  | OFail id token message retry output => failClaimWithOutput e id token message retry output J
  | OUpdate id token progress => UpdateClaim e id token progress J
  | OUpdatePayload id token payload => UpdateClaimPayload e id token payload J
  | ORenew id token =>
      match Renew e id token J with
      | (Ok true, J') => (None, J')
      | (Ok false, J') => (Some errJobLeaseNotHeld, J')
      | (Err err, J') => (Some err, J')
      end
  | _ => (None, J)
  end.

Definition exec (e : Env) (o : Op) (J : Jobs) : Jobs :=
  match o with
  | OEnqueue kind owner key payload maxAttempts expires =>
      (enqueue e kind owner key payload maxAttempts expires J).2
  | OReleaseKey kind owner key => (releaseExpiredIdempotencyKey e 0 kind owner key (clock e 0) J).2
  | OLookup kind owner key payload => (lookupIdempotentJob e 0 kind owner key payload J).2
  | OClaimNext owner kinds => (ClaimNext e owner kinds J).2
  | OClaim id owner => (Claim e id owner J).2
  | ORequeueExpired => (RequeueExpired e J).2
  | OCancel id => (RequestCancel e id J).2
  | ORequeueDead id => (RequeueDeadLetter e id J).2
  | OGet id => (GetWithError e id J).2
  | OCleanup maxAge => Cleanup e maxAge J
  | OExpireDead maxAge batch => (ExpireDeadLetters e maxAge batch J).2
  | OHeartbeat worker kinds => (publishWorkerHeartbeat e worker kinds J).2
  | OReseal id => (reseal_row e id J).2
  | OLoad => (load e (set_items J ∅)).2
  | _ => (exec_claim e o J).2
  end.

(** A job ID no table or cache has seen. *)
Definition fresh_id (w : World) (id : string) : Prop :=
  jobs (wdb w) !! id = None ∧ ∀ p J, procs w !! p = Some J → items J !! id = None.

(** The environment of a step: its clock reads between the two instants, its
    secrets new. *)
Definition timely (w w' : World) (e : Env) : Prop := ∀ n, wnow w ≤ clock e n ≤ wnow w'.
Definition fresh (w : World) (e : Env) : Prop :=
  ∀ s, rand e 0 = Some s → s ∉ drawn w ∧ ∀ kind, fresh_id w (kind +:+ "-" +:+ s).

(** [by_id]: whether jobs are also claimed by their ID. *)
Inductive step (by_id : bool) : World → World → Prop :=
  | StepOp w w' p J e o :
      allowed by_id o = true → procs w !! p = Some J → timely w w' e → fresh w e →
      db (exec e o (view w J)) = Some (wdb w') →
      procs w' = <[p := exec e o (view w J)]> (procs w) →
      drawn w' = add_token (rand e 0) (drawn w) → step by_id w w'
  | StepStart w w' p J :
      items J = ∅ → wnow w ≤ wnow w' → wdb w' = wdb w → procs w' = <[p := J]> (procs w) →
      drawn w' = drawn w → step by_id w w'
  | StepCrash w w' p :
      wnow w ≤ wnow w' → wdb w' = wdb w → procs w' = delete p (procs w) →
      drawn w' = drawn w → step by_id w w'.

Definition initial (w : World) : Prop := jobs (wdb w) = ∅ ∧ procs w = ∅.
Definition reachable (by_id : bool) (w : World) : Prop := ∃ w0, initial w0 ∧ rtc (step by_id) w0 w.

(** ** The invariant *)

Definition coherent (t : Table) (m : gmap string Job) : Prop :=
  ∀ id item, m !! id = Some item → ID item = id ∧ ∀ r, t !! id = Some r → User item = r_owner r.

Record winv (by_id : bool) (w : World) : Prop := {
  inv_unique : unique_rows (jobs (wdb w));
  inv_live : by_id = false → one_live (wnow w) (jobs (wdb w));
  inv_wf : wf_table (jobs (wdb w));
  inv_tokens : tokens_known (drawn w) (jobs (wdb w));
  inv_distinct : tokens_distinct (jobs (wdb w));
  inv_cache : ∀ p J, procs w !! p = Some J → coherent (jobs (wdb w)) (items J)
}.

(** What every operation guarantees of the state it leaves. *)
Record refines (by_id : bool) (e : Env) (now now' : Z) (D : gset string) (J J' : Jobs) : Prop := {
  rf_db : has_db J' = true;
  rf_step : tstep by_id now now' D (rand e 0) (table J) (table J');
  rf_unique : unique_rows (table J) → unique_rows (table J');
  rf_new : ∀ id r, table J !! id = None → table J' !! id = Some r →
     ∃ kind s, rand e 0 = Some s ∧ id = kind +:+ "-" +:+ s;
  rf_cache : ∀ id item', items J' !! id = Some item' →
     (∃ item, items J !! id = Some item ∧ ID item' = ID item ∧ User item' = User item) ∨
     (∃ r, table J' !! id = Some r ∧ ID item' = id ∧ User item' = r_owner r)
}.

End Steps.
End JobWorld.
