(* ===== verification/JobRefine.v ===== *)
(** * JobRefine: every queue operation refines an abstract table change

    For each operation of the queue, the lemma that it satisfies [refines], and
    from these the invariant of all reachable worlds. *)
From S2P Require Import Prelude Secretbox JobStore JobQueue JobClaim JobOps JobLife JobFacts JobWorld.
Import Secretbox.

Module JobRefine.
Import Jobs JobQueue JobClaim JobOps JobLife JobFacts JobWorld.

Section Refine.
Context `{A : AEAD} `{JT : JSONText}.
Context (by_id : bool) (e : Env) (now now' : Z) (D : gset string) (J : Jobs).
Context (Hdb : has_db J = true) (Htime : ∀ n, now ≤ clock e n ≤ now').
Context (Hfresh : ∀ s, rand e 0 = Some s → s ∉ D).
Context (Hwf : wf_table (table J)) (Hco : coherent (table J) (items J)).

Abbreviation ok J' := (refines by_id e now now' D J J').

Lemma refines_frame J' :
  has_db J' = true → table J' = table J → items J' ⊆ items J → ok J'.
Proof.
  intros Hd Ht Hi. split; rewrite ?Ht; auto.
  - apply tstep_refl.
  - congruence.
  - intros id item Hl. left. exists item. split; [|done]. by eapply lookup_weaken.
Qed.

Lemma refines_id : ok J.
Proof. by apply refines_frame. Qed.

(** A change of one row in place. *)
Lemma refines_one J' id r r' :
  has_db J' = true → table J' = <[id := r']> (table J) → table J !! id = Some r →
  rewrites now id r r' → (unique_rows (table J) → unique_rows (table J')) →
  (∀ k j', items J' !! k = Some j' → items J !! k = Some j' ∨
     k = id ∧ ((∃ j, items J !! k = Some j ∧ ID j' = ID j ∧ User j' = User j) ∨
               (ID j' = id ∧ User j' = r_owner r))) →
  ok J'.
Proof.
  intros Hd Ht Hl Hr Hu Hc. split; [done| |done| |].
  - apply TRewrite. rewrite Ht. intros k rk. rewrite lookup_insert.
    case_decide; intros; simplify_eq; eauto.
  - rewrite Ht. intros k rk Hn. rewrite lookup_insert. case_decide; congruence.
  - intros k j' Hk. destruct (Hc k j' Hk) as [Hold|[-> [Hold|[Hid Hus]]]]; [by left; eauto|by left|].
    right. exists r'. rewrite Ht, lookup_insert_eq. split_and!; [done..|].
    rewrite Hus. symmetry. by destruct Hr.
Qed.

(** ** Writes under a lease *)

Definition lease_upd (item item' : Job) : Prop :=
  ID item' = ID item ∧ User item' = User item ∧
  (LeaseToken item' = "" ∨ LeaseToken item' = LeaseToken item).

Lemma lease_write_rewrites c id token item item' t :
  now ≤ c → items J !! id = Some item → LeaseToken item = token → lease_upd item item' →
  lease_write J e c token item' t →
  ∃ r data, ID item' = id ∧ table J !! id = Some r ∧ t = <[id := row_of item' data]> (table J) ∧
    rewrites now id r (row_of item' data) ∧ (unique_rows (table J) → unique_rows t).
Proof.
  intros Hc Hi Htok (Hid & Hus & Htk) (data & Henc & Hheld & Hput).
  destruct (Hco _ _ Hi) as [HID Hown]. rewrite Hid, HID in *.
  unfold lease_held in Hheld. destruct (table J !! id) as [r|] eqn:Hr; [|done].
  rewrite !andb_true_iff, !bool_decide_eq_true in Hheld. destruct Hheld as [[Hst Hrt] Hexp].
  exists r, data. split_and!; [done..| by apply put_row_lookup | |by eapply put_row_unique].
  apply encode_view in Henc as [raw ->]. unfold rewrites, wf_row. cbn. split_and!.
  - rewrite Hus. auto.
  - intros _. auto.
  - unfold null_string. case_decide; [by left|]. right.
    destruct Htk as [Htk|Htk]; [congruence|]. by rewrite Hrt, Htk, Htok.
  - intros _ _ _. unfold live. rewrite Hst, bool_decide_true by done. cbn.
    destruct (r_lease_expires_at r); [|done]. cbn in Hexp. rewrite Z.ltb_lt in *. lia.
Qed.

Lemma refines_lease J' c id token item item' :
  now ≤ c → has_db J' = true → items J !! id = Some item → LeaseToken item = token →
  lease_upd item item' → lease_write J e c token item' (table J') →
  items J' = items J ∨ items J' = <[id := item']> (items J) → ok J'.
Proof.
  intros Hc Hd Hi Htok Hu Hw Hitems.
  destruct (lease_write_rewrites c id token item item' _ Hc Hi Htok Hu Hw)
    as (r & data & Hid & Hr & Ht & Hrw & Huniq).
  eapply (refines_one J' id r); eauto. intros k j' Hk.
  destruct Hitems as [E|E]; rewrite E in Hk; [by left|].
  rewrite lookup_insert in Hk. case_decide; simplify_eq; [|by left].
  right. split; [done|]. left. exists item. destruct Hu as (? & ? & ?). done.
Qed.

Lemma refines_update msg c id token upd :
  now ≤ c → (∀ item, lease_upd item (upd item)) →
  ok (update_claimed msg e c id token upd J).2.
Proof.
  intros Hc Hu. destruct (update_claimed _ _ _ _ _ _ _) as [err J'] eqn:E. cbn.
  assert (has_db J' = true) as Hd.
  { unfold update_claimed, cas_item in E. repeat (case_if || case_match); simplify_eq; by autorewrite with jobs. }
  apply update_claimed_spec in E. destruct err as [err|].
  - destruct E as [Hi [Ht|(_ & _ & item & Hcl & Hw)]].
    + apply refines_frame; by rewrite ?Hi.
    + apply claimed_item_spec in Hcl as (Hl & _ & Htok). eapply (refines_lease J' c); eauto.
  - destruct E as (_ & item & Hcl & Hw & Hi).
    apply claimed_item_spec in Hcl as (Hl & _ & Htok). eapply (refines_lease J' c); eauto.
Qed.

Lemma refines_finish c id token apply :
  now ≤ c → (∀ item, ID (apply item) = ID item ∧ User (apply item) = User item) →
  ok (finishClaim e c id token apply J).2.
Proof.
  intros Hc Ha. apply refines_update; [done|]. intros item. unfold lease_upd. cbn.
  destruct (Ha item). auto.
Qed.

Lemma refines_fail id token message retry output :
  ok (failClaimWithOutput e id token message retry output J).2.
Proof.
  apply refines_update; [apply Htime|]. intros item. unfold lease_upd, fail_item.
  case_bool_decide; cbn; case_if; cbn; auto.
Qed.

Lemma refines_renew id token : ok (Renew e id token J).2.
Proof.
  unfold Renew. case_if; [apply refines_id|].
  destruct (items J !! id) as [item|] eqn:Hi; [|apply refines_id].
  case_if; [apply refines_id|]. apply orb_false_iff in Heqb0 as [_ Htok].
  apply negb_false_iff, bool_decide_eq_true in Htok.
  destruct (LeaseExpires item) as [x|]; [|apply refines_id]. case_if; [apply refines_id|].
  set (item' := apply_update _ item).
  destruct (cas_item _ _ _ _ _ _) as [err J'] eqn:E.
  assert (has_db J' = true) as Hd.
  { unfold cas_item in E. repeat case_match; simplify_eq; by autorewrite with jobs. }
  apply cas_item_spec in E; [|done].
  assert (lease_upd item item') as Hu by (unfold lease_upd; auto).
  destruct err as [err|]; cbn.
  - destruct E as [Hit [Ht|[_ Hw]]].
    + apply refines_frame; by rewrite ?Hit.
    + eapply (refines_lease J' (clock e 2)); eauto. apply Htime.
  - destruct E as [Hw Hit]. eapply (refines_lease J' (clock e 2)); eauto. apply Htime.
Qed.

Lemma refines_exec_claim o : ok (exec_claim e o J).2.
Proof.
  destruct o; cbn -[finishClaim failClaimWithOutput UpdateClaim UpdateClaimPayload Renew]; try apply refines_id.
  - pose proof (refines_renew id token) as H. by destruct (Renew e id token J) as [[[]|] J'].
  - apply refines_finish; [apply Htime | done].
  - apply refines_finish; [apply Htime | done].
  - apply refines_fail.
  - apply refines_update; [apply Htime|]. unfold lease_upd. cbn. auto.
  - apply refines_update; [apply Htime|]. unfold lease_upd. cbn. auto.
Qed.

(** ** Cancellation *)

Lemma rewrites_inactive id r r' :
  r_owner r' = r_owner r → r_payload r' = r_payload r → r_state r' ≠ Running →
  r_lease_token r' = None ∨ r_lease_token r' = r_lease_token r → rewrites now id r r'.
Proof.
  intros Ho Hp Hs Ht. unfold rewrites, wf_row. rewrite Ho, Hp. split_and!; auto.
  intros c _ Hl%live_running. done.
Qed.

Lemma narrower_insert (t : Table) id r r' :
  t !! id = Some r → narrower r r' → unique_rows t → unique_rows (<[id := r']> t).
Proof.
  intros Hr Hn. apply narrower_unique. intros k rk. rewrite lookup_insert.
  case_decide; intros; simplify_eq; eauto using narrower_refl.
Qed.

Lemma refines_cancel id : ok (RequestCancel e id J).2.
Proof.
  unfold RequestCancel. case_if; [apply refines_id|]. case_if; [apply refines_id|].
  destruct (table J !! id) as [r|] eqn:Hr; [|apply refines_id].
  assert (∀ r', narrower r r' → rewrites now id r r' →
            ∀ J', has_db J' = true → table J' = <[id := r']> (table J) →
            items J' = items J ∨ (∃ j j', items J !! id = Some j ∧ ID j' = ID j ∧ User j' = User j ∧
                                  items J' = <[id := j']> (items J)) → ok J') as Hone.
  { intros r' Hn Hrw J' Hd Ht Hi. eapply (refines_one J' id r r'); eauto.
    { rewrite Ht. by apply (narrower_insert _ _ r). }
    intros k jk Hk. destruct Hi as [Hi|(j & j' & Hj & H1 & H2 & Hi)]; rewrite Hi in Hk; [by left|].
    rewrite lookup_insert in Hk. case_decide; simplify_eq; [|by left]. right. eauto 6. }
  destruct (r_state r) eqn:Hst; try apply refines_id.
  - case_if; [apply refines_id|].
    assert (narrower r (cancel_queued_row (clock e 0) r)) as HN by (unfold narrower; cbn; split_and!; [done..|left; done]).
    assert (rewrites now id r (cancel_queued_row (clock e 0) r)) as HR by (by apply rewrites_inactive; auto).
    case_if; [|autorewrite with jobs; destruct (items J !! id) as [j|] eqn:Hj];
      (cbn [snd]; eapply (Hone _ HN HR); [by autorewrite with jobs|by autorewrite with jobs|]); autorewrite with jobs;
      [by left | right | by left].
    eexists j, _. split_and!; [done..| | |reflexivity]; done.
  - case_if; [apply refines_id|].
    set (r' := apply_update _ r).
    assert (narrower r r') as HN by (unfold narrower; auto).
    assert (rewrites now id r r') as HR.
    { unfold rewrites, wf_row. split_and!; auto. intros c Hc Hl. by apply (live_mono now c r). }
    case_if; [|autorewrite with jobs; destruct (items J !! id) as [j|] eqn:Hj];
      (cbn [snd]; eapply (Hone _ HN HR); [by autorewrite with jobs|by autorewrite with jobs|]); autorewrite with jobs;
      [by left | right | by left].
    eexists j, _. split_and!; [done..| | |reflexivity]; done.
Qed.

(** ** Recovery of expired leases *)

Lemma recover_rewrites c id r : r = recover_row c r ∨ rewrites now id r (recover_row c r).
Proof.
  unfold recover_row. case_if.
  - destruct (r_payload r) as [job raw|] eqn:Hp; [|by left].
    destruct (r_lease_owner r); [|by left]. right.
    unfold rewrites, wf_row. rewrite Hp. cbn. split_and!; auto. intros d _ Hl%live_running. done.
  - case_if; [|by left]. right. by apply rewrites_inactive; auto.
Qed.

Lemma recover_narrower c r : narrower r (recover_row c r).
Proof.
  unfold recover_row. case_if.
  - destruct (r_payload r), (r_lease_owner r); unfold narrower; cbn; auto. split_and!; auto. left. done.
  - destruct (other_expired c r) eqn:Ho; [|apply narrower_refl]. unfold other_expired in Ho.
    rewrite !andb_true_iff, bool_decide_eq_true in Ho. destruct Ho as [[Hs _] _]. unfold narrower. cbn.
    split_and!; auto. left. by rewrite Hs.
Qed.

Lemma fmap_narrower (f : Row → Row) (t : Table) :
  (∀ r, narrower r (f r)) → unique_rows t → unique_rows (f <$> t).
Proof.
  intros Hf. apply narrower_unique. intros k rk. rewrite lookup_fmap.
  destruct (t !! k); intros; simplify_eq/=; eauto.
Qed.

(** A change of every row and every cached item in place. *)
Lemma refines_map (f : Row → Row) (g : string → Job → Job) J' :
  has_db J' = true → table J' = f <$> table J → items J' = map_imap (λ id j, Some (g id j)) (items J) →
  (∀ id r, r = f r ∨ rewrites now id r (f r)) → (∀ r, narrower r (f r)) →
  (∀ id j, ID (g id j) = ID j ∧ User (g id j) = User j) → ok J'.
Proof.
  intros Hd Ht Hi Hf Hn Hg. split; [done| | | |]; rewrite ?Ht.
  - apply TRewrite. intros k rk. rewrite lookup_fmap. destruct (table J !! k); intros; simplify_eq/=; eauto.
  - by apply fmap_narrower.
  - intros k rk Hk. rewrite lookup_fmap, Hk. done.
  - intros k jk. rewrite Hi, map_lookup_imap. destruct (items J !! k) as [j|]; intros; simplify_eq/=.
    left. exists j. destruct (Hg k j). done.
Qed.

Lemma refines_requeue : ok (RequeueExpired e J).2.
Proof.
  unfold RequeueExpired. rewrite Hdb. cbn [negb].
  case_if; [apply refines_id|]. case_if; [apply refines_id|]. case_if; [apply refines_id|].
  cbn [snd]. set (c := clock e 0).
  eapply (refines_map (recover_row c) (recover_item c _)).
  - by autorewrite with jobs.
  - by autorewrite with jobs.
  - by autorewrite with jobs.
  - intros id r. apply recover_rewrites.
  - apply recover_narrower.
  - intros id j. unfold recover_item. case_if; case_decide; done.
Qed.

(** ** Reads *)

Lemma decode_identity J0 id r item seen :
  decodeDurableJob J0 r = Ok (item, seen) → wf_row id r → ID item = id ∧ User item = r_owner r.
Proof.
  unfold decodeDurableJob, wf_row. destruct (r_payload r) as [job raw|]; [|done].
  destruct (openPayload _ _ _) as [[p sn]|]; [|done]. intros [= <- <-]. done.
Qed.

Lemma materialize_identity item :
  ID (materializeJobOutput item) = ID item ∧ User (materializeJobOutput item) = User item.
Proof.
  unfold materializeJobOutput. case_bool_decide; [done|].
  repeat (case_bool_decide; [by repeat case_match|]). done.
Qed.

Lemma refines_get id : ok (GetWithError e id J).2.
Proof.
  unfold GetWithError. rewrite Hdb. unfold loadDurableJob. rewrite Hdb. cbn [negb].
  destruct (fault e 0); [apply refines_id|].
  destruct (table J !! id) as [r|] eqn:Hr.
  2:{ apply refines_frame; [done..|]. apply delete_subseteq. }
  destruct (decodeDurableJob J r) as [[item seen]|err] eqn:Hd; [|apply refines_id].
  destruct (decode_identity _ id _ _ _ Hd) as [Hid Hus]; [by apply Hwf|].
  destruct (materialize_identity item) as [Hid' Hus'].
  unfold cacheDurableRead. rewrite Hid', Hid. autorewrite with jobs.
  destruct (items J !! id) eqn:Hi; cbn [snd].
  - apply refines_frame; by autorewrite with jobs.
  - split; autorewrite with jobs; [done|apply tstep_refl|done|congruence|].
    intros k jk. rewrite lookup_insert. case_decide; intros; simplify_eq; [right|by left; eauto].
    exists r. by rewrite Hid', Hus'.
Qed.

Lemma refines_lookup kind owner key payload : ok (lookupIdempotentJob e 0 kind owner key payload J).2.
Proof.
  unfold lookupIdempotentJob, loadDurableJob. rewrite Hdb. cbn [negb].
  destruct (fault e 0); [apply refines_id|].
  destruct (find_operation _ _ _ _) as [id|]; [|apply refines_id].
  destruct (fault e 1); [apply refines_id|].
  destruct (table J !! id) as [r|]; [|apply refines_id].
  destruct (decodeDurableJob J r) as [[item seen]|]; [|apply refines_id].
  case_bool_decide; cbn [snd]; apply refines_frame; by autorewrite with jobs.
Qed.

(** ** Idempotency keys *)

Lemma refines_release kind owner key :
  ok (releaseExpiredIdempotencyKey e 0 kind owner key (clock e 0) J).2.
Proof.
  unfold releaseExpiredIdempotencyKey.
  case_if; [apply refines_id|]. case_if; [apply refines_id|]. case_if; [apply refines_id|].
  cbn [snd]. set (ids := list_to_set _). apply refines_map with
    (f := λ r, if key_expired kind owner key (clock e 0) r then release_row r else r)
    (g := λ id j, if decide (id ∈ ids) then j <| OperationKey := "" |> <| IdempotencyExpiresAt := None |> else j).
  - by autorewrite with jobs.
  - by autorewrite with jobs.
  - by autorewrite with jobs.
  - intros id r. destruct (key_expired _ _ _ _ r) eqn:Hk; [|by left].
    unfold release_row. destruct (r_payload r) as [job raw|] eqn:Hp; [|by left]. right.
    unfold key_expired in Hk. rewrite !andb_true_iff, negb_true_iff in Hk. destruct Hk as [_ Ha].
    unfold rewrites, wf_row. rewrite Hp. cbn. split_and!; auto.
    intros c _ Hl%live_running. change (r_state r = Running) in Hl. by rewrite Hl in Ha.
  - intros r. destruct (key_expired _ _ _ _ r) eqn:Hk; [|apply narrower_refl].
    unfold release_row. destruct (r_payload r) as [job raw|] eqn:Hp; [|apply narrower_refl].
    unfold key_expired in Hk. rewrite !andb_true_iff, negb_true_iff in Hk. destruct Hk as [_ Ha].
    unfold narrower. cbn. auto.
  - intros id j. case_decide; done.
Qed.

(** ** Retention *)

Lemma refines_sub J' :
  has_db J' = true → table J' ⊆ table J → items J' ⊆ items J → ok J'.
Proof.
  intros Hd Ht Hi. split; [done| | | |].
  - apply TRewrite. intros k rk Hk. exists rk. split; [by eapply lookup_weaken|by left].
  - apply narrower_unique. intros k rk Hk. exists rk. split; [by eapply lookup_weaken|apply narrower_refl].
  - intros k rk Hn Hk. eapply lookup_weaken in Hk; [|done]. congruence.
  - intros k jk Hk. left. exists jk. split; [by eapply lookup_weaken|done].
Qed.

Lemma foldr_delete_sub {V} (m : gmap string V) ids : foldr delete m ids ⊆ m.
Proof.
  induction ids as [|i ids IH]; [done|]. cbn. etrans; [apply delete_subseteq|done].
Qed.

Lemma has_db_items f : has_db (J <| items ::= f |>) = has_db J.
Proof. by destruct J. Qed.

Lemma refines_cleanup maxAge : ok (Cleanup e maxAge J).
Proof.
  unfold Cleanup, cleanupDurableJobs. case_if; [by apply refines_frame|].
  case_if; [by apply refines_frame|]. case_if; [by apply refines_frame|].
  unfold pruneFinishedCache. set (t := foldr delete _ _).
  assert (∀ f, has_db ((set_table J t) <| items ::= f |>) = true) as Hd
    by (intros f; unfold has_db, set_table; cbn; unfold has_db in Hdb; by destruct (db J)).
  rewrite Hd. cbn [negb]. apply refines_sub.
  - exact (Hd id).
  - change (table (set_table J t) ⊆ table J). autorewrite with jobs. apply foldr_delete_sub.
  - cbn. etrans; [apply map_filter_subseteq|]. apply foldr_delete_sub.
Qed.

Lemma refines_expire_dead maxAge batch : ok (ExpireDeadLetters e maxAge batch J).2.
Proof.
  unfold ExpireDeadLetters. case_if; [apply refines_id|]. case_if; [apply refines_id|].
  case_if; [apply refines_id|]. case_if; [apply refines_id|]. cbn [snd]. apply refines_sub.
  - by autorewrite with jobs.
  - autorewrite with jobs. apply foldr_delete_sub.
  - autorewrite with jobs. apply foldr_delete_sub.
Qed.

Lemma refines_heartbeat worker kinds : ok (publishWorkerHeartbeat e worker kinds J).2.
Proof.
  pose proof Hdb as Hd. unfold publishWorkerHeartbeat. unfold has_db in Hd.
  destruct (db J) as [d|] eqn:Hj; [|done].
  case_if; [apply refines_id|]. cbn [snd]. apply refines_frame; [done| |done].
  unfold table. by rewrite Hj.
Qed.

(** ** Dead letters *)

Lemma refines_requeue_dead id : ok (RequeueDeadLetter e id J).2.
Proof.
  unfold RequeueDeadLetter. case_if; [apply refines_id|]. destruct (fault e 0); [apply refines_id|].
  destruct (table J !! id) as [r|] eqn:Hr; [|apply refines_id]. case_if; [apply refines_id|].
  pose proof (Hwf id r Hr) as W. unfold wf_row in W.
  destruct (r_payload r) as [job raw|] eqn:Hp; [|apply refines_id]. destruct W as [Wi Wu].
  destruct (openPayload _ _ _) as [[opened seen]|]; [|apply refines_id].
  set (item := apply_update (mk_update Payload (constant opened)) _).
  assert (refines by_id e now now' D J (saw_legacy seen J)) as Hseen
    by (apply refines_frame; by autorewrite with jobs).
  case_if; [done|]. destruct (encodeDurableItem _ _ _) as [data|] eqn:He; [|done].
  destruct (fault e 1); [done|]. autorewrite with jobs.
  destruct (put_row _ _ _) as [t|] eqn:Hput; [|done].
  pose proof (put_row_unique _ _ _ _ Hput) as Hu. apply put_row_lookup in Hput.
  apply encode_view in He as [raw' ->].
  assert (rewrites now id r (requeue_dead_row (reset_dead item) (BJson (json_view (reset_dead item)) raw') r)) as Hrw.
  { unfold rewrites, wf_row. cbn. split_and!; auto. intros c _ Hl%live_running. done. }
  destruct (fault e 2); cbn [snd]; (eapply refines_one; [| |exact Hr|exact Hrw| |]);
    autorewrite with jobs; try done; try (intros; by left).
  intros k jk Hk. destruct (decide (id = k)) as [<-|Hne].
  - rewrite lookup_insert_eq in Hk. apply (inj Some) in Hk as <-. right. split; [done|]. by right.
  - rewrite lookup_insert_ne in Hk by done. by left.
Qed.

(** ** Enqueueing *)

Lemma refines_enqueue kind owner key payload maxAttempts expires :
  ok (enqueue e kind owner key payload maxAttempts expires J).2.
Proof.
  unfold enqueue. case_if; [apply refines_id|]. case_if; [apply refines_id|].
  destruct (admissionWorkerReady e J); [apply refines_id|].
  unfold newJobID. destruct (rand e 0) as [s|] eqn:Hs; [|apply refines_id].
  set (id := kind +:+ "-" +:+ s). set (item := apply_update _ _).
  assert (ID item = id) as Hid by done. assert (User item = owner) as Hus by done.
  assert (State item = Queued) as Hst by done. assert (LeaseToken item = "") as Htk by done.
  clearbody item. unfold addWith. rewrite Hid.
  destruct (items J !! id) eqn:Hi; [apply refines_id|].
  assert (∀ J', has_db J' = true → table J' = table J → items J' = delete id (<[id := item]> (items J)) → ok J') as Hfail.
  { intros J' Hd Ht HI. apply refines_frame; [done..|]. rewrite HI, delete_insert_id; done. }
  destruct (persistAdmittedItem _ _ _ _ _ _ _ _) as [J'|err] eqn:Hp; cbn [snd].
  2:{ case_if; cbn [snd]; apply Hfail; by destruct J. }
  unfold persistAdmittedItem in Hp. apply bind_Ok in Hp as (data & Henc & Hp).
  repeat (case_if; [done|]). autorewrite with jobs in Hp. rewrite Hid in Hp.
  destruct (table J !! id) eqn:Hr; [done|]. apply bind_Ok in Hp as (t & Hput & Hp).
  case_if; [done|]. apply (inj Ok) in Hp as <-.
  apply encode_view in Henc as [raw ->].
  pose proof (put_row_unique _ _ _ _ Hput) as Hu. apply put_row_lookup in Hput.
  set (r := row_of item _) in *.
  match goal with |- refines _ _ _ _ _ _ ?X => set (J' := X) end.
  assert (has_db J' = true ∧ table J' = <[id := r]> (table J) ∧ items J' = <[id := item]> (items J))
    as (Hd & Ht & HI).
  { unfold J'. by autorewrite with jobs. }
  clearbody J'. split; [done| | | |].
  - eapply TInsert; [exact Hr|exact Ht|done| |].
    + change (null_string (LeaseToken item) = None). by rewrite Htk.
    + exact (conj Hid eq_refl).
  - rewrite Ht, <- Hput. done.
  - intros k rk Hn Hk. rewrite Ht, lookup_insert in Hk. case_decide; [|congruence]. subst k. eauto.
  - rewrite HI, Ht. intros k jk [[-> ->]|[_ Hk]]%insert_cases; [right|by left; eauto].
    exists r. rewrite lookup_insert_eq. done.
Qed.

(** ** Claiming *)

Lemma select_spec (t : Table) c kinds id r :
  selectClaimCandidate t c kinds = Some (id, r) →
  t !! id = Some r ∧ r_state r = Queued ∧
  ∀ id2 r2, t !! id2 = Some r2 → r_owner r2 = r_owner r → live c r2 = false.
Proof.
  intros H. assert (oldest_eligible t c kinds = Some (id, r)) as Ho.
  { unfold selectClaimCandidate in H. destruct (claimPrefixQuery _ _ _) eqn:E.
    - simplify_eq. by apply prefix_eligible.
    - by rewrite <- heads_eligible. }
  apply oldest_least in Ho as [Hin _]. apply list_elem_of_filter in Hin as [He Hin].
  apply elem_of_map_to_list in Hin. unfold eligible in He. rewrite !andb_true_iff in He.
  destruct He as [[[[Hq _] Hr] _] _]. unfold is_queued in Hq. rewrite bool_decide_eq_true in Hq.
  split_and!; [done..|]. intros id2 r2 H2 Ho. apply negb_true_iff in Hr. unfold owner_running in Hr.
  rewrite existsb_false_elem in Hr. specialize (Hr (id2, r2)). cbn in Hr.
  rewrite elem_of_map_to_list, bool_decide_true in Hr by done. by apply Hr.
Qed.

Lemma refines_claim_next owner kinds : ok (ClaimNext e owner kinds J).2.
Proof.
  unfold ClaimNext. repeat (case_if; [apply refines_id|]).
  destruct (selectClaimCandidate _ _ _) as [[id r]|] eqn:Hsel; [|apply refines_id].
  apply select_spec in Hsel as (Hr & Hst & Hidle). pose proof (Hwf id r Hr) as W.
  destruct (decode_candidate J r) as [[item seen]|err] eqn:Hdec.
  - assert (refines by_id e now now' D J (saw_legacy seen J)) as Hseen
      by (apply refines_frame; by autorewrite with jobs).
    destruct (rand e 0) as [tok|] eqn:Htok; [|done]. destruct (fault e 3); [done|].
    destruct (put_row _ _ _) as [t|] eqn:Hput; [|done]. destruct (fault e 4); [done|]. cbn [snd].
    pose proof (put_row_unique _ _ _ _ Hput) as Hu. apply put_row_lookup in Hput.
    assert (ID item = id ∧ User item = r_owner r) as [Hid Hus].
    { unfold decode_candidate in Hdec. unfold wf_row in W. destruct (r_payload r) as [job raw|]; [|done].
      destruct (openPayload _ _ _) as [[p sn]|]; [|done]. by injection Hdec as <- <-. }
    split; autorewrite with jobs; [done| |done| |].
    + eapply TClaim with (c := clock e 0); eauto.
    + rewrite Hput. intros k rk Hn Hk. rewrite lookup_insert in Hk. case_decide; congruence.
    + rewrite Hput. intros k jk [[-> ->]|[_ Hk]]%insert_cases; [right|by left; eauto].
      eexists. rewrite lookup_insert_eq. done.
  - case_if; [apply refines_id|].
    destruct (quarantine_record id (clock e 1) err r) as [job raw] eqn:Hq.
    case_if; [apply refines_id|]. cbn [snd].
    assert (ID job = id ∧ User job = r_owner r) as [Hid Hus].
    { unfold quarantine_record in Hq. unfold wf_row in W.
      destruct (r_payload r) as [j0 raw0|]; by injection Hq as <- <-. }
    eapply (refines_one _ id r); [| |exact Hr| | |].
    + by autorewrite with jobs.
    + autorewrite with jobs. reflexivity.
    + unfold rewrites, wf_row. cbn. split_and!; auto. intros c _ Hl%live_running. done.
    + autorewrite with jobs. apply (narrower_insert _ _ r); [done|].
      unfold narrower. cbn. split_and!; auto. left. done.
    + autorewrite with jobs. intros k jk [[-> ->]|[_ Hk]]%insert_cases; [right|by left].
      split; [done|]. right. done.
Qed.

(** [Claim] takes a queued job by its ID. *)
Lemma refines_claim id owner : by_id = true → ok (Claim e id owner J).2.
Proof.
  intros Hby. unfold Claim. case_if; [apply refines_id|].
  destruct (rand e 0) as [tok|] eqn:Htok; [|apply refines_id].
  destruct (items J !! id) as [item|] eqn:Hi; [|apply refines_id]. case_if; [apply refines_id|].
  case_if; [apply refines_id|]. unfold queued_row. destruct (table J !! id) as [r|] eqn:Hr; [|case_if; apply refines_id].
  destruct (decide (r_state r = Queued)) as [Hst|]; [|case_if; apply refines_id].
  destruct (put_row _ _ _) as [t|] eqn:Hput; [|apply refines_id].
  pose proof (put_row_unique _ _ _ _ Hput) as Hu. apply put_row_lookup in Hput as ->.
  set (r' := run_row _ _ _ r) in *. set (item' := lease_item _ _ _ _).
  assert (∀ J', has_db J' = true → table J' = <[id := r']> (table J) →
            items J' = items J ∨ items J' = <[id := item']> (items J) → ok J') as Hone.
  { intros J' Hd Ht HI. split; [done| | | |]; rewrite ?Ht; [|done| |].
    - eapply TTake; eauto.
    - intros k rk Hn Hk. rewrite lookup_insert in Hk. case_decide; congruence.
    - intros k jk Hk. left. destruct HI as [E|E]; rewrite E in Hk; [by exists jk|].
      apply insert_cases in Hk as [[-> ->]|[_ Hk]]; [by exists item|by exists jk]. }
  case_if; cbn [snd]; apply Hone; autorewrite with jobs; auto.
Qed.

(** ** Legacy payloads *)

Lemma refines_reseal id : ok (reseal_row e id J).2.
Proof.
  unfold reseal_row. destruct (table J !! id) as [r|] eqn:Hr; [|apply refines_id].
  pose proof (Hwf id r Hr) as W. unfold wf_row in W. destruct (r_payload r) as [job raw|] eqn:Hp; [|apply refines_id].
  case_if; [apply refines_id|]. case_if; [apply refines_id|].
  destruct (openPayload _ _ _) as [[opened seen]|]; [|apply refines_id].
  assert (ok (saw_legacy seen J)) as Hseen by (apply refines_frame; by autorewrite with jobs).
  destruct (sealPayload _ _ _) as [sealed|]; [|done]. unfold marshal_job. case_if; [done|].
  case_if; [done|]. cbn [snd]. eapply refines_one with (id := id) (r := r); autorewrite with jobs; [done|reflexivity|done| | |by left].
  - unfold rewrites, wf_row. cbn. split_and!; auto. intros c Hc Hl. by apply (live_mono now c r).
  - apply (narrower_insert _ _ r); [done|]. unfold narrower. auto.
Qed.

(** ** Startup *)

Definition rewritten (t t' : Table) : Prop :=
  (∀ id r', t' !! id = Some r' → ∃ r, t !! id = Some r ∧ (r = r' ∨ rewrites now id r r')) ∧
  (unique_rows t → unique_rows t') ∧ (∀ id, is_Some (t !! id) → is_Some (t' !! id)).

Lemma rewrites_trans id r1 r2 r3 : rewrites now id r1 r2 → rewrites now id r2 r3 → rewrites now id r1 r3.
Proof.
  intros (O1 & W1 & T1 & L1) (O2 & W2 & T2 & L2). unfold rewrites. split_and!.
  - congruence.
  - auto.
  - destruct T2 as [|E]; [by left|]. rewrite E. done.
  - intros c Hc Hl. apply (L1 now); [lia|]. by apply (L2 c).
Qed.

Lemma rewritten_trans t1 t2 t3 : rewritten t1 t2 → rewritten t2 t3 → rewritten t1 t3.
Proof.
  intros (H1 & U1 & D1) (H2 & U2 & D2). split; [|auto]. intros id r3 H3.
  destruct (H2 _ _ H3) as (r2 & Hr2 & C2), (H1 _ _ Hr2) as (r1 & Hr1 & C1).
  exists r1. split; [done|]. destruct C1 as [->|C1], C2 as [->|C2]; auto.
  right. by eapply rewrites_trans.
Qed.

Lemma load_row_identity J0 c id r item orphan seen :
  load_row J0 c r = Ok (item, orphan, seen) → wf_row id r → ID item = id ∧ User item = r_owner r.
Proof.
  unfold load_row, wf_row. intros H W. case_if; [done|].
  assert (∀ it, decodeDurableJobRecord (r_payload r) = Ok it → ID it = id ∧ User it = r_owner r) as Hd.
  { intros it. destruct (r_payload r) as [job raw|]; [|done]. cbn. by destruct raw; intros [= <-]. }
  destruct (decodeDurableJobRecord _) as [it|]; [|done]. destruct (Hd it eq_refl) as [H1 H2].
  case_if; [done|]. case_if; [done|]. destruct (openPayload _ _ _) as [[p sn]|]; [|done].
  case_if; by injection H as <- <- <-.
Qed.

Lemma load_all_identity c rows : ∀ J0 os J1 os1,
  (∀ x, x ∈ rows → table J0 !! x.1 = Some x.2) → wf_table (table J0) →
  load_all J0 c rows os = Ok (J1, os1) →
  has_db J1 = has_db J0 ∧ table J1 = table J0 ∧
  ∀ id item, items J1 !! id = Some item →
    items J0 !! id = Some item ∨ ∃ r, table J0 !! id = Some r ∧ ID item = id ∧ User item = r_owner r.
Proof.
  induction rows as [|[k r] rows IH]; intros J0 os J1 os1 Hin W; cbn [load_all].
  { intros [= <- <-]. auto. }
  destruct (load_row J0 c r) as [[[item orphan] seen]|] eqn:Hl; [|done].
  destruct (items J0 !! ID item) eqn:Hi; [done|]. intros H.
  pose proof (Hin (k, r) ltac:(set_solver)) as Hr. cbn in Hr.
  destruct (load_row_identity _ _ k _ _ _ _ Hl (W _ _ Hr)) as [Hid Hus].
  apply IH in H; autorewrite with jobs; [|intros x Hx; apply Hin; set_solver|done].
  autorewrite with jobs in H. destruct H as (-> & -> & Hc). split_and!; [done..|].
  intros id it Hit. destruct (Hc id it Hit) as [Hold|]; [|by right].
  apply insert_cases in Hold as [[-> ->]|[_ Hold]]; [|by left]. right. rewrite Hid. eauto.
Qed.

Lemma fail_orphans_rewritten c os : ∀ i J0 err J1,
  has_db J0 = true → coherent (table J0) (items J0) →
  fail_orphans e i c os J0 = (err, J1) →
  has_db J1 = true ∧ items J1 = items J0 ∧ rewritten (table J0) (table J1).
Proof.
  assert (∀ t, rewritten t t) as Hrefl by (intros t; split_and!; eauto).
  induction os as [|o os IH]; intros i J0 err J1 Hd Hc; cbn [fail_orphans].
  { intros [= <- <-]. auto. }
  destruct (fail_orphan e i c o J0) as [[er|] J'] eqn:Ho; intros H;
    unfold fail_orphan in Ho.
  { simplify_eq. repeat (case_if || case_match); simplify_eq; auto. }
  destruct (items J0 !! o_id o) as [item|] eqn:Hi; [|done].
  destruct (encodeDurableItem _ _ _) as [data|] eqn:He; [|done]. case_if; [done|].
  destruct (table J0 !! o_id o) as [r|] eqn:Hr; [|done]. case_if; [|done].
  apply (f_equal snd) in Ho. cbn [snd] in Ho. subst J'. apply encode_view in He as [raw ->].
  rewrite !andb_true_iff, !bool_decide_eq_true in Heqb0. destruct Heqb0 as [[[Hs _] _] _].
  destruct (Hc _ _ Hi) as [Hid Hus]. specialize (Hus r Hr).
  match type of H with fail_orphans _ _ _ _ (set_table _ (<[_ := ?x]> _)) = _ => set (r' := x) in H end.
  assert (rewritten (table J0) (<[o_id o := r']> (table J0))) as Hrw.
  { split_and!.
    - intros k rk [[-> ->]|[_ Hk]]%insert_cases; [|by eauto]. exists r. split; [done|]. right.
      unfold rewrites. split_and!; [done| |by left|].
      + intros _. exact (conj Hid Hus).
      + intros d _ Hl%live_running. done.
    - apply (narrower_insert _ _ r); [done|]. unfold narrower. split_and!; [done..|]. left. done.
    - intros k Hk. rewrite lookup_insert. case_decide; eauto. }
  apply IH in H; autorewrite with jobs; [|done|].
  - autorewrite with jobs in H. destruct H as (H1 & H2 & H3). split_and!; [done..|].
    by eapply rewritten_trans.
  - intros k it Hk. destruct (Hc _ _ Hk) as [Hk1 Hk2]. split; [done|].
    intros rk [[-> ->]|[_ Hrk]]%insert_cases; [|by apply Hk2]. by apply (Hk2 r).
Qed.

Lemma load_rows_sub (t : Table) x : x ∈ load_rows t → t !! x.1 = Some x.2.
Proof.
  unfold load_rows. rewrite merge_sort_Permutation. intros [_ H]%list_elem_of_filter.
  destruct x. by apply elem_of_map_to_list in H.
Qed.

Lemma refines_load : ok (load e (set_items J ∅)).2.
Proof.
  unfold load. autorewrite with jobs.
  assert (ok (set_items J ∅)) as Hempty.
  { apply refines_frame; autorewrite with jobs; [done..|]. apply map_empty_subseteq. }
  destruct (fault e 0); [done|].
  destruct (load_all _ _ _ _) as [[J1 os]|] eqn:Hl; [|done].
  apply load_all_identity in Hl as (Hd1 & Ht1 & Hc1); autorewrite with jobs;
    [|apply load_rows_sub|done].
  autorewrite with jobs in *. rewrite Hdb in Hd1.
  assert (∀ id item, items J1 !! id = Some item →
     ∃ r, table J !! id = Some r ∧ ID item = id ∧ User item = r_owner r) as Hc.
  { intros id item Hi. destruct (Hc1 id item Hi) as [Hbad|]; [|done]. by rewrite lookup_empty in Hbad. }
  assert (∃ J2, (if fault e 1 then (Some (EWrap "iterate durable job state" io_err), J1)
                 else fail_orphans e 0 (clock e 0) os J1).2 = J2 ∧
      has_db J2 = true ∧ items J2 = items J1 ∧ rewritten (table J) (table J2)) as (J2 & -> & Hd2 & Hi2 & Hrw & Hu & Hdom).
  { destruct (fault e 1).
    - exists J1. split_and!; [done..|]. rewrite Ht1. unfold rewritten. split_and!; eauto.
    - destruct (fail_orphans _ _ _ _ _) as [err J2] eqn:Hf. exists J2. split; [done|].
      rewrite <- Ht1. eapply fail_orphans_rewritten; [done| |exact Hf].
      intros id item Hi. destruct (Hc _ _ Hi) as (r & Hr & Hid & Hus). split; [done|].
      intros r'. rewrite Ht1, Hr. by intros [= <-]. }
  split; [done|by apply TRewrite|done| |].
  - intros id r Hn Hr. destruct (Hrw _ _ Hr) as (? & ? & _). congruence.
  - rewrite Hi2. intros id item Hi. right. destruct (Hc _ _ Hi) as (r & Hr & Hid & Hus).
    (* the row may have been reconciled, never removed *)
    destruct (table J2 !! id) as [r2|] eqn:Hr2.
    + exists r2. destruct (Hrw _ _ Hr2) as (r0 & Hr0 & Hcase). split_and!; [done..|].
      rewrite Hus. assert (r0 = r) as -> by congruence. destruct Hcase as [->|(E & _)]; congruence.
    + exfalso. destruct (Hdom id ltac:(by rewrite Hr)). congruence.
Qed.

End Refine.
End JobRefine.
