(* ===== verification/JobInv.v ===== *)
(** * JobInv: invariants of every reachable world

    [exec_refines] collects the lemmas of JobRefine; from it follow the
    invariant [winv], by induction on the steps, and the fate of a lease token
    that no row carries any more. *)
From S2P Require Import Prelude Secretbox JobStore JobQueue JobClaim JobOps JobLife JobFacts JobWorld JobRefine.
Import Secretbox.

Module JobInv.
Import Jobs JobQueue JobClaim JobOps JobLife JobFacts JobWorld JobRefine.

Section Inv.
Context `{A : AEAD} `{JT : JSONText}.

Lemma exec_refines by_id e now now' D o J :
  allowed by_id o = true → has_db J = true → (∀ n, now ≤ clock e n ≤ now') → (∀ s, rand e 0 = Some s → s ∉ D) →
  wf_table (table J) → coherent (table J) (items J) →
  refines by_id e now now' D J (exec e o J).
Proof.
  intros. destruct o; unfold exec;
    [by apply refines_enqueue | by apply refines_release | by apply refines_lookup
    | by apply refines_claim_next | by apply refines_claim | by apply refines_exec_claim ..
    | by apply refines_requeue | by apply refines_cancel | by apply refines_requeue_dead
    | by apply refines_get | by apply refines_cleanup | by apply refines_expire_dead
    | by apply refines_heartbeat | by apply refines_reseal | by apply refines_load].
Qed.

Lemma table_view w J : table (view w J) = jobs (wdb w).
Proof. done. Qed.
Lemma items_view w J : items (view w J) = items J.
Proof. done. Qed.

Lemma table_db J d : db J = Some d → table J = jobs d.
Proof. unfold table. by intros ->. Qed.

Lemma step_refines by_id w w' p J e o :
  winv by_id w → allowed by_id o = true → procs w !! p = Some J → timely w w' e → fresh w e →
  db (exec e o (view w J)) = Some (wdb w') →
  refines by_id e (wnow w) (wnow w') (drawn w) (view w J) (exec e o (view w J)) ∧
  table (exec e o (view w J)) = jobs (wdb w').
Proof.
  intros I Ha Hp Ht Hf Hd. split; [|by apply table_db].
  apply exec_refines; [done|done|exact Ht| |exact (inv_wf _ w I)|].
  - intros s Hs. by destruct (Hf s Hs).
  - rewrite table_view, items_view. by eapply inv_cache.
Qed.

(** A job that was not in the table is in nobody's cache either. *)
Lemma coherent_step by_id e now now' D J J' t m :
  refines by_id e now now' D J J' → table J = t → coherent t m →
  (∀ kind s, rand e 0 = Some s → m !! (kind +:+ "-" +:+ s) = None) →
  coherent (table J') m.
Proof.
  intros R <- Hc Hf id item Hi. destruct (Hc id item Hi) as [Hid Hus]. split; [done|].
  intros r' Hr'. destruct (rf_step _ _ _ _ _ _ _ R) as [H|k r Hn E _ _ _|k r ow tk c ex Hk _ _ _ _ _ E|k r ow tk ex _ Hk _ _ _ E].
  - destruct (H _ _ Hr') as (r & Hr & [->|(-> & _)]); by apply Hus.
  - rewrite E in Hr'. apply insert_cases in Hr' as [[-> ->]|[_ Hr']]; [|by apply Hus].
    destruct (rf_new _ _ _ _ _ _ _ R k r) as (kind & s & Hs & ->); [done|by rewrite E, lookup_insert_eq|].
    rewrite Hf in Hi by done. done.
  - rewrite E in Hr'. apply insert_cases in Hr' as [[-> ->]|[_ Hr']]; [exact (Hus r Hk)|by apply Hus].
  - rewrite E in Hr'. apply insert_cases in Hr' as [[-> ->]|[_ Hr']]; [exact (Hus r Hk)|by apply Hus].
Qed.

Lemma winv_op by_id w w' p J e o :
  winv by_id w → allowed by_id o = true → procs w !! p = Some J → timely w w' e → fresh w e →
  db (exec e o (view w J)) = Some (wdb w') →
  procs w' = <[p := exec e o (view w J)]> (procs w) →
  drawn w' = add_token (rand e 0) (drawn w) → winv by_id w'.
Proof.
  intros I Ha Hp Ht Hf Hd Hps Hdr. pose proof (Ht 0%nat) as Hnow.
  destruct (step_refines _ _ _ _ _ _ _ I Ha Hp Ht Hf Hd) as [R E].
  pose proof (rf_step _ _ _ _ _ _ _ R) as S. rewrite E, table_view in S.
  split.
  - rewrite <- E. eapply (rf_unique _ _ _ _ _ _ _ R), inv_unique; done.
  - intros ->. eapply tstep_one_live; [|exact S|by apply (inv_live false)]. lia.
  - eapply tstep_wf; [exact S|by eapply inv_wf].
  - rewrite Hdr. eapply tstep_tokens; [exact S|by eapply inv_tokens].
  - eapply tstep_distinct; [exact S|by eapply inv_tokens|by eapply inv_distinct].
  - rewrite Hps. intros q Jq [[<- <-]|[_ Hq]]%lookup_insert_Some.
    + rewrite <- E. intros id item' Hi.
      destruct (rf_cache _ _ _ _ _ _ _ R id item' Hi) as [(item & Hit & HID & HU)|(r & Hr & HID & HU)].
      * assert (coherent (table (exec e o (view w J))) (items J)) as Hc.
        { eapply coherent_step; [exact R|apply table_view|by eapply inv_cache|].
          intros kind s Hs. destruct (Hf s Hs) as [_ Hfr]. by eapply (Hfr kind). }
        destruct (Hc id item Hit) as [H1 H2]. rewrite HID, HU. auto.
      * split; [done|]. intros r'. rewrite Hr. by intros [= <-].
    + rewrite <- E. eapply coherent_step; [exact R|apply table_view|by eapply inv_cache|].
      intros kind s Hs. destruct (Hf s Hs) as [_ Hfr]. by eapply (Hfr kind).
Qed.

Lemma winv_step by_id w w' : step by_id w w' → winv by_id w → winv by_id w'.
Proof.
  intros [w0 w1 p J e o Ha Hp Ht Hf Hd Hps Hdr|w0 w1 p J Hi Hle Hd Hps Hdr|w0 w1 p Hle Hd Hps Hdr] I.
  - by eapply winv_op.
  - destruct I as [U L W K T C]. split; rewrite ?Hd, ?Hps, ?Hdr; [done| |done..|].
    + intros Hby i j ri rj ???? ?. eapply (L Hby); eauto using live_mono.
    + intros q Jq [[<- <-]|[_ Hq]]%lookup_insert_Some; [|by eapply C].
      rewrite Hi. intros id item. by rewrite lookup_empty.
  - destruct I as [U L W K T C]. split; rewrite ?Hd, ?Hps, ?Hdr; [done| |done..|].
    + intros Hby i j ri rj ???? ?. eapply (L Hby); eauto using live_mono.
    + intros q Jq [_ Hq]%lookup_delete_Some. by eapply C.
Qed.

Lemma winv_initial by_id w : initial w → winv by_id w.
Proof.
  intros [Ht Hp]. split; unfold unique_rows, one_live, wf_table, tokens_known, tokens_distinct; rewrite ?Ht, ?Hp.
  all: try (intros; by rewrite lookup_empty in * ).
  all: intros *; rewrite ?lookup_empty; try done.
Qed.

Lemma winv_steps by_id w w' : rtc (step by_id) w w' → winv by_id w → winv by_id w'.
Proof. induction 1; eauto using winv_step. Qed.

Lemma winv_reachable by_id w : reachable by_id w → winv by_id w.
Proof. intros (w0 & H0 & Hs). eapply winv_steps; [exact Hs|by apply winv_initial]. Qed.

(** ** A lost token stays lost *)

Lemma lost_step by_id w w' tok :
  step by_id w w' → winv by_id w → token_lost (drawn w) tok (jobs (wdb w)) →
  token_lost (drawn w') tok (jobs (wdb w')).
Proof.
  intros [w0 w1 p J e o Ha Hp Ht Hf Hd Hps Hdr|w0 w1 p J Hi Hle Hd Hps Hdr|w0 w1 p Hle Hd Hps Hdr] I L;
    [|by rewrite Hd, Hdr..].
  destruct (step_refines _ _ _ _ _ _ _ I Ha Hp Ht Hf Hd) as [R E].
  pose proof (rf_step _ _ _ _ _ _ _ R) as S. rewrite E, table_view in S. rewrite Hdr. by eapply tstep_lost.
Qed.

Lemma lost_steps by_id w w' tok :
  rtc (step by_id) w w' → winv by_id w → token_lost (drawn w) tok (jobs (wdb w)) →
  token_lost (drawn w') tok (jobs (wdb w')).
Proof. induction 1; eauto using winv_step, lost_step. Qed.

End Inv.
End JobInv.
