(* ===== verification/JobProps.v ===== *)
(** * JobProps: what the durable queue guarantees of one operation

    The properties of the queue operations of [src/jobs.go] taken one call at a
    time: selection of the next job, admission, idempotency, the fencing of
    writes by lease tokens, retry and dead-letter decisions, recovery of expired
    leases, retention, and the encoding of a row. The module [Demo] evaluates
    them on concrete states. *)
From S2P Require Import Prelude Secretbox JobStore JobQueue JobClaim JobOps JobLife JobFacts JobWorld JobRefine.
Import Secretbox.

Module JobProps.
Import Jobs JobQueue JobClaim JobOps JobLife JobFacts JobWorld.

(** ** Concrete states for the witnesses *)
Module Demo.

#[export] Instance aead : AEAD := Framing.aead.
#[export] Instance laws : AEADLaws := Framing.laws.
#[export] Instance binding : AEADBinding := Framing.binding.

(** A JSON codec: every output is valid, encodings are as long as the payload. *)
#[export] Instance json : JSONText := {|
  json_valid := λ _, true;
  json_len := λ job raw, match raw with RawBase64 b => Z.of_nat (length b) | _ => 0 end;
  json_result := λ _ _, None
|}.

Definition box : Box := mkBox "job-payload" (bytes_of "panel-key").
Definition empty_db : DB := mkDB ∅ ∅ None.
Definition panel (d : DB) : Jobs :=
  mkJobs (Some d) ∅ ∅ 2 3 [] (Some box) false false 0 2 false "1" "c" None [].

(** A random source that returns the same secret for every call. *)
Definition env (t : Z) (secret : string) : Env := calm t secret.

End Demo.

Section Props.
Context `{A : AEAD} `{JT : JSONText}.

(** ** Choosing the next job *)

Lemma select_eligible t now kinds :
  selectClaimCandidate t now kinds = oldest_eligible t now kinds.
Proof.
  unfold selectClaimCandidate. destruct (claimPrefixQuery _ _ _) as [x|] eqn:E.
  - symmetry. by apply prefix_eligible.
  - apply heads_eligible.
Qed.

(** C1: the two-stage search of [selectClaimCandidate] (a bounded prefix of the
    queue in claim order, then the queue heads of the owners) returns exactly
    the oldest job that is queued, past its backoff, of a wanted kind, the
    oldest queued job of its owner, and whose owner runs nothing. *)
Theorem selectClaimCandidate_oldest_eligible t now kinds :
  selectClaimCandidate t now kinds = oldest_eligible t now kinds.
Proof. exact (select_eligible t now kinds). Qed.

Lemma oldest_eligible_spec t now kinds id r :
  oldest_eligible t now kinds = Some (id, r) →
  t !! id = Some r ∧ eligible now kinds (map_to_list t) (id, r) = true.
Proof.
  intros [[He Hin]%list_elem_of_filter _]%oldest_least. by apply elem_of_map_to_list in Hin.
Qed.

Lemma eligible_queued now kinds rows x : eligible now kinds rows x = true → r_state x.2 = Queued.
Proof. unfold eligible, is_queued. rewrite !andb_true_iff, bool_decide_eq_true. by intros [[[[? ?] ?] ?] ?]. Qed.

(** Counting rows of a table by a property of the row. *)
Definition countb (P : Row → bool) (t : Table) : nat :=
  length (filter (λ '(_, r), P r = true) (map_to_list t)).

Lemma countb_alt P t : countb P t = length (filter (λ x : Entry, P x.2 = true) (map_to_list t)).
Proof. unfold countb. f_equal. apply list_filter_iff. by intros []. Qed.

Lemma countb_insert_new P (t : Table) id r :
  t !! id = None → countb P (<[id := r]> t) = ((if P r then 1 else 0) + countb P t)%nat.
Proof.
  intros Hn. unfold countb.
  rewrite (Permutation_length (filter_Permutation _ _ _ (map_to_list_insert t id r Hn))), filter_cons.
  case_decide as H; cbn in H; [by rewrite H|]. apply not_true_is_false in H. by rewrite H.
Qed.

Lemma countb_insert P (t : Table) id r r' :
  t !! id = Some r →
  (countb P (<[id := r']> t) + (if P r then 1 else 0) = (if P r' then 1 else 0) + countb P t)%nat.
Proof.
  intros Hr. pose proof (insert_delete_id t id r Hr) as Et.
  assert (countb P t = (if P r then 1 else 0) + countb P (delete id t))%nat as E1.
  { rewrite <- Et at 1. apply countb_insert_new, lookup_delete_eq. }
  rewrite <- insert_delete_eq, countb_insert_new by apply lookup_delete_eq. lia.
Qed.

Lemma pending_count t : pending t = Z.of_nat (countb (λ r, active (r_state r)) t).
Proof. done. Qed.
Lemma live_count_count now t : live_count now t = Z.of_nat (countb (live now) t).
Proof. done. Qed.

Lemma decode_candidate_ID J r item seen id :
  decode_candidate J r = Ok (item, seen) → wf_row id r → ID item = id ∧ User item = r_owner r.
Proof.
  unfold decode_candidate, wf_row. destruct (r_payload r) as [job raw|]; [|done].
  destruct (openPayload _ _ _) as [[o s]|]; [|done]. by intros [= <- _] [? ?].
Qed.

(** A successful [ClaimNext] leases the oldest eligible job to the caller:
    the returned item and its row are running under the fresh token until one
    lease duration after the clock, every other row is untouched, and the
    number of live leases stays within the worker limit. *)
Theorem ClaimNext_leases_oldest e owner kinds J item J' :
  wf_table (table J) → ClaimNext e owner kinds J = (Ok (Some item), J') →
  ∃ id r tok, oldest_eligible (table J) (clock e 0) kinds = Some (id, r) ∧
    rand e 0 = Some tok ∧ ID item = id ∧ State item = Running ∧ User item = r_owner r ∧
    LeaseToken item = tok ∧ LeaseExpires item = Some (clock e 1 + leaseDuration J) ∧
    table J' = <[id := run_row owner tok (clock e 1 + leaseDuration J) r]> (table J) ∧
    items J' = <[id := item]> (items J) ∧
    live_count (clock e 0) (table J') ≤ Z.max 1 (workerLimit J).
Proof.
  intros W. unfold ClaimNext. rewrite select_eligible. intros H.
  case_if; [done|]. apply orb_false_iff in Heqb as [Hdb _]. apply negb_false_iff in Hdb.
  case_if; [done|]. case_if; [done|]. apply Z.leb_gt in Heqb0. case_if; [done|].
  destruct (oldest_eligible _ _ _) as [[id r]|] eqn:Ho; [|done].
  destruct (oldest_eligible_spec _ _ _ _ _ Ho) as [Hr Hel].
  destruct (decode_candidate J r) as [[job seen]|err] eqn:Hd.
  2: { case_if; [done|]. destruct (quarantine_record _ _ _ _). by case_if. }
  destruct (rand e 0) as [tok|] eqn:Htok; [|done]. case_if; [done|].
  destruct (put_row _ _ _) as [t|] eqn:Hp; [|done]. case_if; [done|].
  apply put_row_lookup in Hp as ->. apply pair_eq in H as [Hi <-].
  apply (inj Ok) in Hi. apply (inj Some) in Hi as <-.
  destruct (decode_candidate_ID _ _ _ _ id Hd (W _ _ Hr)) as [HID HU].
  exists id, r, tok. autorewrite with jobs. split_and!; try done.
  rewrite live_count_count in *. pose proof (countb_insert (live (clock e 0)) (table J) id r
    (run_row owner tok (clock e 1 + leaseDuration J) r) Hr) as Hc.
  revert Heqb0 Hc. repeat case_if; lia.
Qed.

(** ** Admission *)

Lemma persistAdmittedItem_spec J f0 f1 f2 f3 f4 n item J' :
  persistAdmittedItem J f0 f1 f2 f3 f4 n item = Ok J' →
  ∃ data, encodeDurableItem J n item = Ok data ∧ table J !! ID item = None ∧
    pending (table J) < pendingLimit J ∧
    put_row (table J) (ID item) (row_of item data) = Ok (<[ID item := row_of item data]> (table J)) ∧
    J' = set_table J (<[ID item := row_of item data]> (table J)).
Proof.
  unfold persistAdmittedItem. intros H. apply bind_Ok in H as (data & He & H).
  repeat (case_if; [done|]). apply Z.leb_gt in Heqb2.
  destruct (table J !! ID item) eqn:Hl; [done|].
  apply bind_Ok in H as (t & Hp & H). case_if; [done|]. apply (inj Ok) in H as <-.
  pose proof (put_row_lookup _ _ _ _ Hp) as ->. eauto 10.
Qed.

(** [enqueue] is exact about the pending-job limit and atomic: a job it
    returns is a new queued row, counted within the limit; when it fails the
    table and the cache are what they were. *)
Theorem enqueue_admission e kind owner key payload maxAttempts expires J out J' :
  enqueue e kind owner key payload maxAttempts expires J = (out, J') →
  match out with
  | Ok item =>
      table J !! ID item = None ∧
      (∃ r, table J' = <[ID item := r]> (table J) ∧ r_state r = Queued ∧ r_owner r = owner ∧
            r_kind r = kind ∧ r_operation_key r = key ∧ r_lease_token r = None) ∧
      pending (table J') = pending (table J) + 1 ∧ pending (table J') ≤ pendingLimit J
  | Err _ => table J' = table J ∧ items J' = items J
  end.
Proof.
  unfold enqueue. intros H.
  case_if; [by simplify_eq|]. apply orb_false_iff in Heqb as [[Hdb _]%orb_false_iff _].
  apply negb_false_iff in Hdb. case_if; [by simplify_eq|].
  destruct (admissionWorkerReady e J); [by simplify_eq|].
  destruct (newJobID kind (rand e 0)) as [id|]; [|by simplify_eq].
  unfold addWith in H.
  match type of H with context [items J !! ID ?x] => set (it := x) in H end.
  destruct (items J !! ID it) eqn:Hi; [by simplify_eq|].
  destruct (persistAdmittedItem _ _ _ _ _ _ _ _) as [J2|err] eqn:Hp.
  - apply pair_eq in H as [<- <-].
    apply persistAdmittedItem_spec in Hp as (data & He & Hn & Hlim & _ & ->).
    autorewrite with jobs in *. split; [done|]. split; [by exists (row_of it data)|].
    change (pendingLimit (set_item J (ID it) it)) with (pendingLimit J) in Hlim.
    rewrite !pending_count in *.
    pose proof (countb_insert_new (λ r, active (r_state r)) (table J) (ID it) (row_of it data) Hn) as Hc.
    cbn beta iota in Hc. change (active (r_state (row_of it data))) with true in Hc. cbn iota in Hc. lia.
  - apply pair_eq in H as [<- <-]. case_if; autorewrite with jobs; cbn -[it]; split; try done;
      unfold set_item; cbn -[it]; by apply delete_insert_id.
Qed.

(** ** Fencing of lease holders *)

(** The job, the token and the database clock of a lease holder's operation,
    and the change it makes to the record. *)
Definition claim_of (e : Env) (o : Op) : option (string * string * Z) :=
  match o with
  | OComplete id token _ | OFinishCancelled id token | OFail id token _ _ _ => Some (id, token, clock e 1)
  | OUpdate id token _ | OUpdatePayload id token _ => Some (id, token, clock e 0)
  | ORenew id token => Some (id, token, clock e 2)
  | _ => None
  end.
Definition claim_update (e : Env) (J : Jobs) (o : Op) (item : Job) : Job :=
  match o with
  | OComplete _ _ output => no_lease (complete_item (clock e 0) output item)
  | OFinishCancelled _ _ => no_lease (cancel_item (clock e 0) item)
  | OFail _ _ message retry output => fail_item message retry output (clock e 0) item
  | OUpdate _ _ progress => item <| Progress := clamp_progress progress |>
  | OUpdatePayload _ _ payload => item <| Payload := payload |>
  | ORenew _ _ => item <| LeaseExpires := Some (clock e 1 + leaseDuration J) |>
  | _ => item
  end.

Lemma claim_update_ID e J o item : ID (claim_update e J o item) = ID item ∧ User (claim_update e J o item) = User item.
Proof. destruct o; try done. cbn [claim_update]. unfold fail_item. repeat case_if; done. Qed.

Lemma lease_held_row t id token now :
  lease_held t id token now = true →
  ∃ r, t !! id = Some r ∧ r_state r = Running ∧ r_lease_token r = Some token ∧ live now r = true.
Proof.
  unfold lease_held, live. destruct (t !! id) as [r|]; [|done].
  rewrite !andb_true_iff, !bool_decide_eq_true. intros [[Hs Ht] Hx]. exists r. split_and!; [done..|].
  rewrite Hs, bool_decide_true by done. destruct (r_lease_expires_at r); [|done].
  cbn in *. by rewrite Z.ltb_lt in *.
Qed.

(** What every operation of a lease holder does: the record it finds in the cache is
    updated, written while the lease is held, and published. *)
Lemma exec_claim_spec e o J id token now err J' :
  claim_of e o = Some (id, token, now) → exec_claim e o J = (err, J') →
  match err with
  | None => ∃ item, claimed_item J id token = Some item ∧
              lease_write J e now token (claim_update e J o item) (table J') ∧
              items J' = <[id := claim_update e J o item]> (items J)
  | Some _ => items J' = items J ∧ (table J' = table J ∨ fault e 1 = true)
  end.
Proof.
  intros Hcl H. assert ((∃ msg, exec_claim e o J = update_claimed msg e now id token (claim_update e J o) J) ∨ o = ORenew id token ∧ now = clock e 2) as [[msg E]|[-> ->]].
  { destruct o; try done; cbn [claim_of] in Hcl; injection Hcl as <- <- <-; try (left; by eexists). by right. }
  - rewrite E in H. apply update_claimed_spec in H. destruct err; [naive_solver|]. destruct H as (_ & item & Hi). eauto.
  - clear Hcl. cbn [exec_claim claim_update] in *. unfold Renew in H. case_if; [by simplify_eq; auto|].
    apply orb_false_iff in Heqb as [[Hdb _]%orb_false_iff _]. apply negb_false_iff in Hdb. unfold claimed_item.
    destruct (items J !! id) as [item|] eqn:Hi; [|by simplify_eq; auto]. destruct (_ || _) eqn:Hc in H; [by simplify_eq; auto|].
    apply orb_false_iff in Hc as [Hs%negb_false_iff%bool_decide_eq_true Ht%negb_false_iff%bool_decide_eq_true].
    destruct (LeaseExpires item) as [x|]; [|by simplify_eq; auto]. case_if; [by simplify_eq; auto|].
    destruct (cas_item _ _ _ _ _ _) as [[er|] J1] eqn:Ec; simplify_eq; apply cas_item_spec in Ec; auto.
    + naive_solver.
    + destruct Ec as [Hw HI]. exists item. by rewrite !decide_True by done.
Qed.

Lemma claim_fenced e o J id token now err J' :
  coherent (table J) (items J) → claim_of e o = Some (id, token, now) →
  exec_claim e o J = (err, J') →
  match err with
  | None => ∃ item data, let item' := claim_update e J o item in
      claimed_item J id token = Some item ∧ lease_held (table J) id token now = true ∧
      items J' = <[id := item']> (items J) ∧ encodeDurableItem J (nonce e 0) item' = Ok data ∧
      table J' = <[id := row_of item' data]> (table J)
  | Some _ => items J' = items J ∧ (fault e 1 = false → table J' = table J)
  end.
Proof.
  intros Hco Hcl H. apply (exec_claim_spec _ _ _ _ _ _ _ _ Hcl) in H. destruct err as [err|].
  - destruct H as [Hi [Ht|Hf]]; split; [done..|done|congruence].
  - destruct H as (item & Hc & (data & He & Hl & Hp) & Hi).
    pose proof Hc as (Hit & _)%claimed_item_spec. destruct (Hco _ _ Hit) as [HID _].
    destruct (claim_update_ID e J o item) as [HID' _]. rewrite HID', HID in *.
    exists item, data. split_and!; [done..|]. by apply put_row_lookup.
Qed.

(** ** Failed attempts *)

(** Whether the queue gives up on a job after one more failed attempt. *)
Definition gives_up (retry : bool) (item : Job) : bool :=
  negb retry || (0 <? MaxAttempts item) && (MaxAttempts item <=? Attempts item + 1).

Lemma fail_item_gives_up message retry output now item :
  let item' := fail_item message retry output now item in
  Attempts item' = Attempts item + 1 ∧ LeaseToken item' = "" ∧ LeaseOwner item' = "" ∧
  if gives_up retry item then State item' = DeadLetter ∧ FinishedAt item' = Some now
  else State item' = Queued ∧ NextAttempt item' = Some (now + 2 ^ Z.min (Attempts item + 1) 8 * Second).
Proof.
  destruct item. unfold fail_item, gives_up. case_bool_decide; cbn; unfold Z.succ; case_if; auto.
Qed.

(** A recorded failure ends the lease and counts the attempt. The job
    becomes a dead letter exactly when the failure is not retryable or its
    attempts are used up; otherwise it is queued again and no claim of any
    worker can select it before its backoff of [2^min(attempts,8)] seconds is
    over. *)
Theorem failed_attempt_outcome e id token message retry output J J' :
  coherent (table J) (items J) →
  failClaimWithOutput e id token message retry output J = (None, J') →
  ∃ item r, items J !! id = Some item ∧ table J' !! id = Some r ∧
    r_lease_token r = None ∧ r_lease_owner r = None ∧
    items J' !! id = Some (fail_item message retry output (clock e 0) item) ∧
    if gives_up retry item
    then r_state r = DeadLetter ∧ r_finished_at r = Some (clock e 0)
    else r_state r = Queued ∧
      ∀ now kinds r', now < clock e 0 + 2 ^ Z.min (Attempts item + 1) 8 * Second →
        selectClaimCandidate (table J') now kinds ≠ Some (id, r').
Proof.
  intros Hco H. set (o := OFail id token message retry output).
  pose proof (claim_fenced e o J id token (clock e 1) None J' Hco eq_refl H)
    as (item & data & Hc & _ & Hi & _ & Ht).
  apply claimed_item_spec in Hc as (Hit & _). cbn [claim_update o] in *.
  pose proof (fail_item_gives_up message retry output (clock e 0) item) as (_ & Htok & How & Hst).
  set (item' := fail_item _ _ _ _ item) in *.
  exists item, (row_of item' data).
  rewrite Ht, Hi, !lookup_insert_eq. cbn [row_of r_lease_token r_lease_owner r_state r_finished_at].
  rewrite Htok, How. split_and!; [done..|]. destruct (gives_up retry item).
  - done.
  - destruct Hst as [Hs Hn]. split; [done|]. intros now kinds r' Hnow.
    rewrite select_eligible. intros [Hr He]%oldest_eligible_spec.
    rewrite lookup_insert_eq in Hr. apply (inj Some) in Hr as <-.
    unfold eligible, backoff_over in He. rewrite !andb_true_iff in He.
    destruct He as [[[[_ Hb] _] _] _]. cbn in Hb. rewrite Hn in Hb. apply Z.leb_le in Hb. lia.
Qed.

(** ** Recovery of expired leases *)

Lemma length_filter_split {X} (P Q R : X → Prop) `{∀ x, Decision (P x), ∀ x, Decision (Q x), ∀ x, Decision (R x)} l :
  (∀ x, x ∈ l → (R x ↔ P x ∨ Q x) ∧ ¬ (P x ∧ Q x)) →
  (length (filter P l) + length (filter Q l) = length (filter R l))%nat.
Proof.
  induction l as [|x l IH]; intros Hx; [done|]. rewrite !filter_cons.
  assert (length (filter P l) + length (filter Q l) = length (filter R l))%nat as IH'.
  { apply IH. intros y Hy. apply Hx. set_solver. }
  destruct (Hx x ltac:(set_solver)) as [Hor Hnot]. repeat case_decide; cbn; try lia; naive_solver.
Qed.

Lemma cloud_not_other now r : cloud_expired now r = true → other_expired now r = false.
Proof.
  unfold cloud_expired, other_expired. rewrite !andb_true_iff, !bool_decide_eq_true.
  intros [[-> ->] _]. by rewrite !bool_decide_true.
Qed.

(** The rows the recovery rewrites, by their readable payload. *)
Lemma recover_row_changed now r :
  (dead_lettered now r = true → ∃ job raw, r_payload r = BJson job raw) →
  recover_row now r ≠ r ↔ other_expired now r = true ∨ dead_lettered now r = true.
Proof.
  intros Hp. unfold recover_row, dead_lettered in *. split.
  - destruct (cloud_expired now r).
    + destruct (r_payload r), (r_lease_owner r); try done. by right.
    + destruct (other_expired now r); [by left|done].
  - intros Hor E. apply (f_equal r_state) in E. destruct (cloud_expired now r) eqn:Hc.
    + destruct Hor as [Ho|Hd]; [by rewrite (cloud_not_other _ _ Hc) in Ho|].
      destruct (r_lease_owner r) eqn:Hlo; [|done]. destruct (Hp eq_refl) as (job & raw & Hpl).
      rewrite Hpl in E. unfold cloud_expired in Hc.
      rewrite !andb_true_iff, !bool_decide_eq_true in Hc. destruct Hc as [[_ Hc] _].
      rewrite Hc in E. done.
    + destruct Hor as [Ho|Hd]; [|done]. rewrite Ho in E. unfold other_expired in Ho.
      rewrite !andb_true_iff, !bool_decide_eq_true in Ho. destruct Ho as [[Hs _] _].
      rewrite Hs in E. done.
Qed.

Lemma recover_row_untouched now r : live now r = true ∨ r_state r ≠ Running → recover_row now r = r.
Proof.
  intros H. unfold recover_row.
  assert (bool_decide (r_state r = Running) && sql_le (r_lease_expires_at r) now = false) as E.
  { destruct H as [[Hs Hl]%andb_true_iff|Hs]; [|by rewrite bool_decide_false].
    rewrite Hs. cbn. unfold sql_le. destruct (r_lease_expires_at r); [|done].
    apply Z.leb_gt. by apply Z.ltb_lt. }
  unfold cloud_expired, other_expired.
  destruct (bool_decide (r_state r = Running)), (sql_le _ _); try done; by rewrite ?andb_false_r.
Qed.

Lemma recover_row_other now r : other_expired now r = true → recover_row now r = requeue_row r.
Proof.
  intros Ho. unfold recover_row. destruct (cloud_expired now r) eqn:Hc.
  - by rewrite (cloud_not_other _ _ Hc) in Ho.
  - by rewrite Ho.
Qed.

Lemma recover_row_dead now r job raw :
  r_payload r = BJson job raw → dead_lettered now r = true → recover_row now r = dead_row now job raw r.
Proof.
  unfold recover_row, dead_lettered. intros Hp [-> Hl]%andb_true_iff. rewrite Hp.
  by destruct (r_lease_owner r).
Qed.

Lemma recover_row_cloud now r :
  r_kind r = "cloud.action" → r_state r = Running → r_state (recover_row now r) ≠ Queued.
Proof.
  intros Hk Hs. unfold recover_row, other_expired. rewrite (bool_decide_true _ Hk), andb_false_r. cbn.
  destruct (cloud_expired now r); [|congruence].
  destruct (r_payload r), (r_lease_owner r); congruence || done.
Qed.

(** Which expired cloud actions the recovery could not decide about. *)
Definition unreadable (r : Row) : bool := match r_payload r with BRaw _ => true | BJson _ _ => false end.

Lemma RequeueExpired_Ok e J n J' :
  RequeueExpired e J = (Ok n, J') →
  has_db J = true ∧ table J' = recover_row (clock e 0) <$> table J ∧
  (∀ id r, table J !! id = Some r → cloud_expired (clock e 0) r = true → unreadable r = false) ∧
  n = Z.of_nat (countb (other_expired (clock e 0)) (table J) + countb (dead_lettered (clock e 0)) (table J)).
Proof.
  unfold RequeueExpired. intros H. case_if; [done|]. apply negb_false_iff in Heqb.
  case_if; [done|]. case_if; [done|]. case_if; [done|].
  apply pair_eq in H as [Hn <-]. apply (inj Ok) in Hn. autorewrite with jobs. split_and!; [done..| |].
  - intros id r Hr Hc. rewrite existsb_false_elem in Heqb1.
    apply (Heqb1 (id, r)), list_elem_of_filter. by rewrite elem_of_map_to_list.
  - subst n. unfold countb. do 2 f_equal. rewrite list_filter_filter. f_equal.
    apply list_filter_iff. intros [id r]. unfold dead_lettered. cbn. rewrite andb_true_iff. tauto.
Qed.

(** A successful [RequeueExpired] is exact. A row whose lease is live, or
    that is not running, is untouched; an expired cloud action is never queued
    again (it becomes a dead letter, its provider outcome being unknown); any
    other expired job is queued again without a lease; no row appears or
    disappears; and the returned count is the number of rows that changed. *)
Theorem RequeueExpired_exact e J n J' :
  RequeueExpired e J = (Ok n, J') →
  (∀ id, table J' !! id = None ↔ table J !! id = None) ∧
  (∀ id r, table J !! id = Some r → ∃ r', table J' !! id = Some r' ∧
     (live (clock e 0) r = true ∨ r_state r ≠ Running → r' = r) ∧
     (other_expired (clock e 0) r = true →
        r_state r' = Queued ∧ r_lease_token r' = None ∧ r_payload r' = r_payload r) ∧
     (r_kind r = "cloud.action" → r_state r = Running → r_state r' ≠ Queued) ∧
     (dead_lettered (clock e 0) r = true → r_state r' = DeadLetter ∧ r_lease_token r' = None)) ∧
  n = Z.of_nat (length (filter (λ '(id, r), table J' !! id ≠ Some r) (map_to_list (table J)))).
Proof.
  intros (Hdb & Ht & Hread & ->)%RequeueExpired_Ok. rewrite Ht. set (now := clock e 0) in *.
  assert (∀ id r, table J !! id = Some r → dead_lettered now r = true →
            ∃ job raw, r_payload r = BJson job raw) as Hpay.
  { intros id r Hr [Hc _]%andb_true_iff. specialize (Hread id r Hr Hc).
    unfold unreadable in Hread. destruct (r_payload r); [eauto|done]. }
  split; [intros id; by rewrite lookup_fmap, fmap_None|]. split.
  - intros id r Hr. exists (recover_row now r). rewrite lookup_fmap, Hr. split; [done|].
    split_and!.
    + apply recover_row_untouched.
    + intros Ho. by rewrite (recover_row_other _ _ Ho).
    + apply recover_row_cloud.
    + intros Hd. destruct (Hpay id r Hr Hd) as (job & raw & Hp). by rewrite (recover_row_dead _ _ _ _ Hp Hd).
  - f_equal. unfold countb. apply length_filter_split. intros [id r] Hr%elem_of_map_to_list.
    rewrite lookup_fmap, Hr. cbn. pose proof (recover_row_changed now r (Hpay id r Hr)) as Hch. split.
    + rewrite <- Hch. split; intros Hne E; apply Hne; [by rewrite E | by apply (inj Some) in E].
    + intros [Ho [Hc _]%andb_true_iff]. by rewrite (cloud_not_other _ _ Hc) in Ho.
Qed.

(** ** Retention *)

Lemma foldr_delete_lookup (ids : list string) (t : Table) k :
  foldr delete t ids !! k = if decide (k ∈ ids) then None else t !! k.
Proof.
  induction ids as [|i ids IH]; cbn; [by rewrite decide_False by set_solver|].
  destruct (decide (i = k)) as [->|Hne].
  - rewrite lookup_delete_eq. by rewrite decide_True by set_solver.
  - rewrite lookup_delete_ne, IH by done. repeat case_decide; set_solver.
Qed.

(** [cleanupDurableJobs] deletes only rows that finished before the cutoff
    in a terminal state other than dead-letter, at most [batch] of them; it
    leaves every other row as it is; and when no more than [batch] rows are due
    none is left behind. *)
Theorem cleanup_removes_only_expired e cutoff batch J ids J' :
  has_db J = true → cleanupDurableJobs e cutoff batch J = (Ok ids, J') →
  Z.of_nat (length ids) ≤ batch ∧
  (∀ id, id ∈ ids → ∃ r, table J !! id = Some r ∧ terminal (r_state r) = true ∧
     ∃ f, r_finished_at r = Some f ∧ f < cutoff) ∧
  (∀ id, table J' !! id = if decide (id ∈ ids) then None else table J !! id) ∧
  (Z.of_nat (countb (expired_terminal cutoff) (table J)) ≤ batch →
     countb (expired_terminal cutoff) (table J') = 0%nat).
Proof.
  unfold cleanupDurableJobs. intros Hdb H. case_if; [done|]. apply orb_false_iff in Heqb as [Hb _].
  apply Z.leb_gt in Hb. case_if; [done|]. case_if; [done|].
  apply pair_eq in H as [Hids <-]. apply (inj Ok) in Hids. rewrite table_set_table by done.
  set (rows := filter _ (map_to_list (table J))) in *.
  pose proof (merge_sort_Permutation finished_le rows) as P.
  assert (∀ id, id ∈ ids → ∃ r, table J !! id = Some r ∧ expired_terminal cutoff r = true) as Hin.
  { intros id. rewrite <- Hids, list_elem_of_fmap. intros ([k r] & -> & Hk).
    apply elem_of_take in Hk as (i & Hk & _). apply list_elem_of_lookup_2 in Hk. rewrite P in Hk.
    apply list_elem_of_filter in Hk as [He Hk%elem_of_map_to_list]. by exists r. }
  rewrite Hids. split_and!.
  - rewrite <- Hids, length_fmap, length_take. lia.
  - intros id Hid. destruct (Hin id Hid) as (r & Hr & [Hf Ht]%andb_true_iff). exists r. split_and!; [done..|].
    unfold sql_lt in Hf. destruct (r_finished_at r) as [f|]; [|done]. exists f. by rewrite Z.ltb_lt in Hf.
  - intros id. apply foldr_delete_lookup.
  - intros Hle. unfold countb. apply length_zero_iff_nil, elem_of_nil_inv.
    intros [k r] [He Hk%elem_of_map_to_list]%list_elem_of_filter.
    rewrite foldr_delete_lookup in Hk. case_decide as Hnot; [done|]. exfalso. apply Hnot.
    rewrite <- Hids. apply list_elem_of_fmap. exists (k, r). split; [done|].
    rewrite take_ge; [|rewrite P; apply Nat2Z.inj_le; rewrite Z2Nat.id by lia;
      by rewrite countb_alt in Hle].
    rewrite P. apply list_elem_of_filter. by rewrite elem_of_map_to_list.
Qed.

(** ** Encoding of a row *)
Section Encoding.
Context {L : AEADLaws}.

(** A payload this process can write and read back: sealed with its key, or,
    without a key, one that does not look like a ciphertext. *)
Definition plain (payload : bytes) : Prop :=
  IsSealed payload = false ∧ strip_prefix encryptedJobPayloadPrefix payload = None.
Definition payload_ok (J : Jobs) (payload : bytes) : Prop :=
  match payloadBox J with Some _ => True | None => plain payload end.
Definition nonce_ok (n : option bytes) : Prop := ∀ n', n = Some n' → length n' = NonceSize.

Lemma openPayload_nil J item : openPayload J item [] = Ok ([], false).
Proof. unfold openPayload. cbn. by destruct (payloadBox J). Qed.

Lemma seal_open_payload J n item item' sealed :
  nonce_ok n → payload_ok J (Payload item) →
  ID item' = ID item → Kind item' = Kind item → User item' = User item →
  sealPayload J n item = Ok sealed → openPayload J item' sealed = Ok (Payload item, false).
Proof.
  intros Hn Hok HI HK HU. unfold sealPayload. destruct (payloadBox J) as [b|] eqn:Hb.
  - destruct (Payload item) as [|c p] eqn:Hp; [intros [= <-]; apply openPayload_nil|].
    intros Hs. unfold openPayload. rewrite (Seal_IsSealed _ _ _ _ _ Hs), Hb, HI, HK, HU.
    by rewrite (Seal_Open _ _ _ _ _ Hn Hs).
  - intros [= <-]. unfold payload_ok in Hok. rewrite Hb in Hok. destruct Hok as [H1 H2].
    unfold openPayload. by rewrite H1, H2, Hb.
Qed.

Lemma decode_marshal_bytes b : decodePersistedJobPayload (marshal_bytes b) = b.
Proof. by destruct b. Qed.

Lemma encode_inv J n item data :
  encodeDurableItem J n item = Ok data →
  ∃ sealed, sealPayload J n item = Ok sealed ∧ data = BJson (json_view item) (marshal_bytes sealed).
Proof.
  unfold encodeDurableItem, marshal_job. intros H. case_if; [done|].
  destruct (sealPayload J n item) as [sealed|]; [|done]. exists sealed. split; [done|].
  case_if; [done|]. case_if; [done|]. by apply (inj Ok) in H.
Qed.

Lemma null_string_default s : default "" (null_string s) = s.
Proof. unfold null_string. case_decide; [by subst|done]. Qed.

Lemma decode_encode J n item data :
  nonce_ok n → payload_ok J (Payload item) → encodeDurableItem J n item = Ok data →
  decodeDurableJob J (row_of item data) = Ok (item, false).
Proof.
  intros Hn Hok (sealed & Hs & ->)%encode_inv. unfold decodeDurableJob. cbn [row_of r_payload].
  rewrite decode_marshal_bytes.
  match goal with |- context [openPayload J ?i (Payload ?i)] =>
    rewrite (seal_open_payload J n item i sealed Hn Hok eq_refl eq_refl eq_refl Hs : openPayload J i (Payload i) = _)
  end.
  clear. destruct item; cbn. rewrite !null_string_default, orb_diag. do 2 f_equal.
  by destruct LeaseExpires0, NextAttempt0.
Qed.

(** C5: each operation of a lease holder (complete, finish as cancelled, fail, update
    the progress or the payload, renew) is fenced by its token and atomic. It succeeds
    only while the row is running under this very token with an unexpired lease; then
    the cache holds the updated record, no other row has changed, and the row written
    decodes to exactly that record, its payload included, given a full random nonce and
    a payload that is sealed or does not look like a ciphertext. A failure leaves the
    cache as it was, and the table too unless reading the number of affected rows
    failed. *)
Theorem lease_operation_fenced e o J id token now err J' :
  coherent (table J) (items J) → claim_of e o = Some (id, token, now) →
  exec_claim e o J = (err, J') →
  match err with
  | None => ∃ item r', let item' := claim_update e J o item in
      claimed_item J id token = Some item ∧ lease_held (table J) id token now = true ∧
      items J' = <[id := item']> (items J) ∧ table J' = <[id := r']> (table J) ∧
      r_state r' = State item' ∧ r_owner r' = User item' ∧ r_lease_expires_at r' = LeaseExpires item' ∧
      (nonce_ok (nonce e 0) → payload_ok J (Payload item') → decodeDurableJob J r' = Ok (item', false))
  | Some _ => items J' = items J ∧ (fault e 1 = false → table J' = table J)
  end.
Proof.
  intros Hco Hcl H. apply (claim_fenced _ _ _ _ _ _ _ _ Hco Hcl) in H. destruct err; [done|].
  destruct H as (item & data & Hc & Hl & Hi & He & Ht). exists item, (row_of (claim_update e J o item) data).
  split_and!; try done. intros Hn Hp. by eapply decode_encode.
Qed.

(** A sealed payload is bound to its job: it opens to the same bytes for
    this job, and for no job with another ID, kind or owner. *)
Theorem payload_bound_to_job `{!AEADBinding} J b n item sealed item' opened :
  payloadBox J = Some b → Payload item ≠ [] → nonce_ok n →
  go_string (purpose b) → Forall go_string [ID item; Kind item; User item] →
  Forall go_string [ID item'; Kind item'; User item'] →
  sealPayload J n item = Ok sealed → openPayload J item' sealed = Ok opened →
  ID item' = ID item ∧ Kind item' = Kind item ∧ User item' = User item ∧ opened = (Payload item, false).
Proof.
  intros Hb Hne Hn Hp Hc Hc' Hs Ho. pose proof Hs as Hseal. unfold sealPayload in Hseal. rewrite Hb in Hseal.
  destruct (Payload item) as [|x p] eqn:Hpl; [done|]. rewrite <- Hpl in *.
  pose proof Ho as Hopen. unfold openPayload in Hopen.
  rewrite (Seal_IsSealed _ _ _ _ _ Hseal), Hb in Hopen.
  destruct (Open b sealed [ID item'; Kind item'; User item']) as [q|] eqn:Hq; [|done].
  pose proof (Open_bound _ _ _ _ _ _ _ Hp Hc Hc' Hn Hseal Hq) as [= HI HK HU].
  split_and!; [done..|]. rewrite (seal_open_payload J n item item' sealed Hn) in Ho by (done || (unfold payload_ok; by rewrite Hb)).
  by injection Ho.
Qed.

(** ** Idempotent submission *)

Lemma find_operation_unique t kind owner key id r :
  unique_rows t → t !! id = Some r → r_kind r = kind → r_owner r = owner → r_operation_key r = key →
  key ≠ "" → find_operation t kind owner key = Some id.
Proof.
  intros U Hr Hk Ho Hkey Hne. unfold find_operation.
  set (P := λ '(_, r0), _). destruct (filter P (map_to_list t)) as [|[id' r'] l] eqn:E.
  - exfalso. apply (not_elem_of_nil (id, r)). rewrite <- E. apply list_elem_of_filter.
    split; [|by apply elem_of_map_to_list]. cbn. by rewrite Hk, Ho, Hkey, !bool_decide_true.
  - pose proof (list_elem_of_here (id', r') l) as Hin. rewrite <- E in Hin.
    apply list_elem_of_filter in Hin as [HP Hin%elem_of_map_to_list]. cbn in HP.
    rewrite !andb_true_iff, !bool_decide_eq_true in HP. destruct HP as [[Hk' Ho'] Hkey'].
    f_equal. destruct (decide (id' = id)) as [->|Hd]; [done|]. exfalso.
    pose proof (U id' id r' r Hin Hr Hd) as Hcl. unfold clash in Hcl.
    rewrite Hk', Ho', Hkey', Hk, Ho, Hkey, !bool_decide_true, (bool_decide_false _ Hne) in Hcl by done. done.
Qed.

Lemma enqueueIdempotent_existing e0 e1 e2 e3 kind owner key payload maxAttempts J id r item :
  unique_rows (table J) → has_db J = true → TrimSpace key ≠ "" → key ≠ "" →
  table J !! id = Some r → r_kind r = kind → r_owner r = owner → r_operation_key r = key →
  decodeDurableJob J r = Ok (item, false) → fault e1 0 = false → fault e1 1 = false →
  enqueueIdempotent e0 e1 e2 e3 kind owner key payload maxAttempts None J =
    (if bool_decide (Payload item = payload) then Ok (item, true) else Err ErrIdempotencyConflict, J).
Proof.
  intros U Hdb Htrim Hne Hr Hk Ho Hkey Hdec F0 F1. unfold enqueueIdempotent.
  rewrite (bool_decide_false _ Htrim), Hdb. cbn [negb orb].
  unfold lookupIdempotentJob. rewrite F0, (find_operation_unique _ _ _ _ id r) by done.
  unfold loadDurableJob. rewrite Hdb, F1, Hr, Hdec. cbn [negb]. by case_bool_decide.
Qed.

Lemma enqueue_row e kind owner key payload maxAttempts expires J item J' :
  enqueue e kind owner key payload maxAttempts expires J = (Ok item, J') →
  ∃ data, encodeDurableItem J (nonce e 1) item = Ok data ∧ has_db J' = true ∧
    put_row (table J) (ID item) (row_of item data) = Ok (table J') ∧
    payloadBox J' = payloadBox J ∧ legacyPayloads J' = legacyPayloads J ∧ payloadKey J' = payloadKey J ∧
    Kind item = kind ∧ User item = owner ∧ OperationKey item = key ∧ Payload item = payload.
Proof.
  unfold enqueue. intros E. case_if; [done|].
  apply orb_false_iff in Heqb as [[Hdb _]%orb_false_iff _]. apply negb_false_iff in Hdb.
  case_if; [done|]. destruct (admissionWorkerReady e J); [done|].
  destruct (newJobID kind (rand e 0)) as [id|]; [|done]. unfold addWith in E.
  match type of E with context [items J !! ID ?x] => set (it := x) in E end.
  destruct (items J !! ID it) eqn:Hi; [done|].
  destruct (persistAdmittedItem _ _ _ _ _ _ _ _) as [J2|err] eqn:Hp; [|done].
  apply pair_eq in E as [Eit <-]. apply (inj Ok) in Eit as <-.
  apply persistAdmittedItem_spec in Hp as (data & He & Hn & Hlim & Hput & ->). exists data.
  autorewrite with jobs in *. split_and!; done.
Qed.

(** What [openPayload] reads of the process. *)
Lemma decodeDurableJob_ext J J' r :
  payloadBox J' = payloadBox J → legacyPayloads J' = legacyPayloads J → payloadKey J' = payloadKey J →
  decodeDurableJob J' r = decodeDurableJob J r.
Proof. intros H1 H2 H3. unfold decodeDurableJob, openPayload. by rewrite H1, H2, H3. Qed.

(** C6: a submission with an idempotency key happens once. After a call that
    created a job for the key, a second call with the same request returns that
    very job, and one with another payload is refused with
    [ErrIdempotencyConflict]; neither changes the queue. *)
Theorem idempotent_submission e0 e1 e2 e3 f0 f1 f2 f3 kind owner key payload payload' max max' J item J1 :
  unique_rows (table J) → TrimSpace key ≠ "" → nonce_ok (nonce e2 1) → payload_ok J payload →
  fault f1 0 = false → fault f1 1 = false →
  enqueueIdempotent e0 e1 e2 e3 kind owner key payload max None J = (Ok (item, false), J1) →
  enqueueIdempotent f0 f1 f2 f3 kind owner key payload' max' None J1 =
    (if bool_decide (payload = payload') then Ok (item, true) else Err ErrIdempotencyConflict, J1).
Proof.
  intros U Hkey Hn Hpl F0 F1 E.
  assert (∃ J0, enqueue e2 kind owner key payload max None J0 = (Ok item, J1) ∧
    table J0 = table J ∧ payloadBox J0 = payloadBox J) as (J0 & He & Ht & Hb).
  { revert E. unfold enqueueIdempotent. rewrite (bool_decide_false _ Hkey). cbn [orb].
    destruct (has_db J) eqn:Hdb; cbn [negb]; [|unfold enqueue; by rewrite Hdb].
    destruct (lookupIdempotentJob e1 0 kind owner key payload J) as [[[x|]|] Jx] eqn:El; [done| |done].
    destruct (enqueue e2 kind owner key payload max None Jx) as [[it|err] Jy] eqn:Ee.
    - intros [= -> ->]. exists Jx. split; [done|]. unfold lookupIdempotentJob, loadDurableJob in El.
      repeat (case_if || case_match); simplify_eq; autorewrite with jobs; auto.
    - case_if; [|done]. by destruct (lookupIdempotentJob e3 0 kind owner key payload Jy) as [[[?|]|] ?]. }
  apply enqueue_row in He as (data & Henc & Hdb & Hput & Hb1 & Hl1 & Hk1 & HK & HU & HO & HP).
  rewrite Ht in *. pose proof (put_row_lookup _ _ _ _ Hput) as Et.
  rewrite <- HP. apply (enqueueIdempotent_existing f0 f1 f2 f3 kind owner key payload' max' J1 (ID item)
    (row_of item data) item); try done.
  - by eapply put_row_unique.
  - by intros ->.
  - by rewrite Et, lookup_insert_eq.
  - rewrite (decodeDurableJob_ext J0 J1) by done. eapply decode_encode; [done| |done].
    unfold payload_ok in *. by rewrite Hb, HP.
Qed.

End Encoding.

(** ** Cancellation *)

(** C7: the cancellation bit of a running job can be lost. When the process
    that runs a job has not cached the request, its next successful [Renew]
    writes its whole cached record back: a cancellation another process has
    just recorded in the row is erased, and nobody will see it. *)
Theorem renew_erases_cancellation ep ew ec id token Jp Jp' Jw Jw' item :
  coherent (table Jw) (items Jw) → items Jw !! id = Some item → Cancel item = false →
  RequestCancel ep id Jp = (None, Jp') → db Jw = db Jp' →
  Renew ew id token Jw = (Ok true, Jw') → fault ec 0 = false →
  (∃ r, table Jw !! id = Some r ∧ r_cancel_requested r = true) ∧
  CancellationRequestedWithError ec id Jw' = Ok false.
Proof.
  intros Hco Hit Hcan Hreq Hdb Hren Fc. unfold Renew in Hren. case_if; [done|].
  apply orb_false_iff in Heqb as [[Hd _]%orb_false_iff _]. apply negb_false_iff in Hd.
  rewrite Hit in Hren. case_if; [done|]. destruct (LeaseExpires item) as [x|]; [|done]. case_if; [done|].
  destruct (cas_item _ _ _ _ _ _) as [[err|] J2] eqn:Ec; [done|]. apply pair_eq in Hren as [_ <-].
  assert (has_db J2 = true) as Hd2.
  { unfold cas_item in Ec. repeat case_match; simplify_eq; by autorewrite with jobs. }
  apply cas_item_spec in Ec as [(data & _ & Hheld & Hput) _]; [|done].
  destruct (Hco _ _ Hit) as [HID _]. change (ID (item <| LeaseExpires := _ |>)) with (ID item) in *.
  rewrite HID in *. apply put_row_lookup in Hput.
  apply lease_held_row in Hheld as (r & Hr & Hst & _). split.
  - exists r. split; [done|]. unfold table in Hr. rewrite Hdb in Hr. unfold RequestCancel in Hreq.
    destruct (has_db Jp) eqn:Hdp; [|done]. cbn [negb orb] in Hreq. case_if; [done|]. case_if; [done|]. destruct (table Jp !! id) as [rp|] eqn:Hrp; [|done].
    destruct (r_state rp); try done; case_if; try done; case_if; try done.
    all: fold (table Jp') in Hr; case_match; simplify_eq; autorewrite with jobs in Hr.
    all: rewrite lookup_insert_eq in Hr; apply (inj Some) in Hr as <-; done.
  - unfold CancellationRequestedWithError. rewrite Hd2, Fc, Hput, lookup_insert_eq.
    change (Ok (Cancel item) = Ok false). by rewrite Hcan.
Qed.

End Props.
End JobProps.
