(* ===== verification/JobGlobal.v ===== *)
(** * JobGlobal: guarantees over all interleavings of panel and workers

    The properties of every world that processes sharing the control-plane
    database can reach, whatever the order of their operations, with crashes,
    restarts and database failures in between; and a concrete run that the
    witnesses of the queue properties evaluate. *)
From S2P Require Import Prelude Secretbox JobStore JobQueue JobClaim JobOps JobLife JobFacts JobWorld JobRefine JobInv JobProps.
Import Secretbox.

Module JobGlobal.
Import Jobs JobQueue JobClaim JobOps JobLife JobFacts JobWorld JobInv JobProps.

Section Global.
Context `{A : AEAD} `{JT : JSONText}.

(** C3: as long as workers take jobs through [ClaimNext] and not by their ID (the
    program has no call of [Claim]), an owner has at most one running job with a live
    lease in every reachable world, whatever the order of the operations of [Op], with
    crashes and database failures: two workers never run jobs of one account at once. *)
Theorem one_live_job_per_owner w id1 id2 r1 r2 :
  reachable false w → jobs (wdb w) !! id1 = Some r1 → jobs (wdb w) !! id2 = Some r2 →
  live (wnow w) r1 = true → live (wnow w) r2 = true → r_owner r1 = r_owner r2 → id1 = id2.
Proof. intros Hr. by apply (inv_live false w (winv_reachable false w Hr)). Qed.

(** In every reachable world the operations on the queue have respected
    its keys: one job per kind, owner and non-empty operation key, and at most
    one queued or running job per kind and owner without a key. *)
Theorem operation_keys_unique by_id w id1 id2 r1 r2 :
  reachable by_id w → jobs (wdb w) !! id1 = Some r1 → jobs (wdb w) !! id2 = Some r2 →
  r_kind r1 = r_kind r2 → r_owner r1 = r_owner r2 → r_operation_key r1 = r_operation_key r2 →
  r_operation_key r1 ≠ "" ∨ active (r_state r1) = true ∧ active (r_state r2) = true → id1 = id2.
Proof.
  intros Hr H1 H2 Hk Ho Hkey Hact. destruct (decide (id1 = id2)) as [|Hne]; [done|]. exfalso.
  pose proof (inv_unique by_id w (winv_reachable by_id w Hr) _ _ _ _ H1 H2 Hne) as Hc. unfold clash in Hc.
  rewrite Hk, Ho, Hkey, !bool_decide_true in Hc by done. cbn in Hc.
  destruct Hact as [Hn|[Ha Hb]]; [|by rewrite Ha, Hb, orb_true_r in Hc].
  rewrite Hkey in Hn. by rewrite bool_decide_false in Hc.
Qed.


(** ** Finished leases *)

(** The operations that end a lease. *)
Definition finishing (o : Op) : bool :=
  match o with OComplete _ _ _ | OFinishCancelled _ _ | OFail _ _ _ _ _ => true | _ => false end.

Lemma finishing_token e J o item : finishing o = true → LeaseToken (claim_update e J o item) = "".
Proof. destruct o; try done. intros _. cbn [claim_update]. unfold fail_item. repeat case_if; done. Qed.

Lemma drawn_step by_id w w' : step by_id w w' → drawn w ⊆ drawn w'.
Proof.
  intros S. destruct S; match goal with E : drawn _ = _ |- _ => rewrite E end;
    [apply add_token_mono|done..].
Qed.

Lemma Renew_held e id token J :
  coherent (table J) (items J) → (Renew e id token J).1 = Ok true →
  lease_held (table J) id token (clock e 2) = true.
Proof.
  intros Hco. unfold Renew. case_if; [done|].
  apply orb_false_iff in Heqb as [[Hd _]%orb_false_iff _]. apply negb_false_iff in Hd.
  destruct (items J !! id) as [item|] eqn:Hi; [|done]. case_if; [done|].
  destruct (LeaseExpires item); [|done]. case_if; [done|].
  destruct (cas_item _ _ _ _ _ _) as [[err|] J'] eqn:Ec; [done|]. intros _.
  apply cas_item_spec in Ec as [(data & _ & Hheld & _) _]; [|done].
  destruct (Hco _ _ Hi) as [HID _]. change (ID (item <| LeaseExpires := _ |>)) with (ID item) in Hheld.
  by rewrite HID in Hheld.
Qed.

Lemma lost_not_held D token t id now : token_lost D token t → lease_held t id token now = true → False.
Proof. intros [_ L] (r & Hr & _ & Ht & _)%lease_held_row. by apply (L id r). Qed.

(** Finishing a job removes its token from the table. *)
Lemma finish_loses_token by_id w w1 J e o id token now Jx :
  winv by_id w → (∃ p, procs w !! p = Some J) → step by_id w w1 →
  claim_of e o = Some (id, token, now) → finishing o = true →
  exec_claim e o (view w J) = (None, Jx) → db Jx = Some (wdb w1) →
  token_lost (drawn w1) token (jobs (wdb w1)).
Proof.
  intros I [p Hp] S Hcl Hf Hx Hd.
  apply (claim_fenced e o (view w J) id token now) in Hx as (item & data & _ & Hheld & _ & _ & Ht);
    [|exact (inv_cache _ w I p J Hp)|done].
  apply table_db in Hd. rewrite Hd, table_view in Ht. rewrite table_view in Hheld.
  apply lease_held_row in Hheld as (r & Hr & _ & Htok & _).
  split; [apply (drawn_step _ _ _ S); by eapply inv_tokens|].
  rewrite Ht. intros k rk [[-> ->]|[Hne Hk]]%insert_cases Hrk.
  - cbn in Hrk. by rewrite finishing_token in Hrk.
  - apply Hne. by eapply (inv_distinct _ w I k id rk r token).
Qed.

(** C4: a lease that has ended is dead for good. Once a worker has completed,
    failed or cancelled its job, then whatever the processes do afterwards, no
    operation that presents that token succeeds again, on any job: the worker
    cannot complete, fail, update or renew with it, whether or not jobs are also claimed
    by their ID. *)
Theorem ended_lease_never_usable by_id w w1 w2 p J e o id token now Jx q J2 e' o' id' now' :
  reachable by_id w → procs w !! p = Some J → claim_of e o = Some (id, token, now) → finishing o = true →
  exec_claim e o (view w J) = (None, Jx) → step by_id w w1 → db Jx = Some (wdb w1) →
  rtc (step by_id) w1 w2 → procs w2 !! q = Some J2 → claim_of e' o' = Some (id', token, now') →
  (exec_claim e' o' (view w2 J2)).1 ≠ None ∧ (Renew e' id' token (view w2 J2)).1 ≠ Ok true.
Proof.
  intros Hr Hp Hcl Hf Hx S Hd Hs Hq Hcl'. pose proof (winv_reachable by_id w Hr) as I.
  pose proof (finish_loses_token _ _ _ _ _ _ _ _ _ _ I (ex_intro _ p Hp) S Hcl Hf Hx Hd) as L.
  pose proof (winv_step _ _ _ S I) as I1. pose proof (winv_steps _ _ _ Hs I1) as I2.
  pose proof (lost_steps _ _ _ _ Hs I1 L) as L2.
  assert (coherent (table (view w2 J2)) (items (view w2 J2))) as Hco by exact (inv_cache _ w2 I2 q J2 Hq).
  split.
  - destruct (exec_claim e' o' (view w2 J2)) as [[err|] Jy] eqn:E; [done|]. intros _.
    apply (claim_fenced e' o' _ id' token now') in E as (item & data & _ & Hheld & _); [|done..].
    by eapply lost_not_held.
  - intros Hok%Renew_held; [|done]. by eapply lost_not_held.
Qed.

End Global.

(** ** A concrete run: one panel process enqueues and claims a job *)
Module Run.
Import Demo.

Definition J0 : Jobs := panel empty_db.
Definition e1 : Env := env 100 "aa".
Definition e2 : Env := env 200 "bb".
Definition e3 : Env := env 300 "cc".
Definition id : string := "site.backup-aa".
Definition J1 : Jobs := (enqueue e1 "site.backup" "alice" "key-1" (bytes_of "hello") 3 None J0).2.
Definition J2 : Jobs := (ClaimNext e2 "worker-1" [] J1).2.
Definition dbof (J : Jobs) : DB := default empty_db (db J).
Definition w0 : World := mkWorld empty_db ∅ 0 ∅.
Definition w1 : World := mkWorld empty_db {[0%nat := J0]} 100 ∅.
Definition w2 : World := mkWorld (dbof J1) {[0%nat := J1]} 200 {["aa"]}.
Definition w3 : World := mkWorld (dbof J2) {[0%nat := J2]} 200 {["bb"; "aa"]}.
Definition row1 : Row := default (row_of zeroJob (BRaw [])) (table J1 !! id).
Definition row2 : Row := default (row_of zeroJob (BRaw [])) (table J2 !! id).
Definition item2 : Job := default zeroJob (items J2 !! id).

(** A job ID made of a fresh secret is not one made of another. *)
Lemma id_fresh kind : kind +:+ "-" +:+ "bb" ≠ id.
Proof.
  intros E. apply (f_equal (last ∘ bytes_of)) in E. unfold compose in E. rewrite bytes_of_app in E.
  change (bytes_of ("-" +:+ "bb")) with (["-"; "b"]%char ++ ["b"]%char) in E.
  rewrite app_assoc, last_snoc in E. vm_compute in E. congruence.
Qed.

Lemma table1 : table J1 = {[id := row1]}.
Proof. vm_compute. reflexivity. Qed.
Lemma items1 : items J1 = {[id := default zeroJob (items J1 !! id)]}.
Proof. vm_compute. reflexivity. Qed.

Lemma step01 : step false w0 w1.
Proof. by apply (StepStart false w0 w1 0%nat J0). Qed.

Lemma step12 : step false w1 w2.
Proof.
  apply (StepOp false w1 w2 0%nat J0 e1 (OEnqueue "site.backup" "alice" "key-1" (bytes_of "hello") 3 None)).
  - done.
  - done.
  - intros n. cbn. lia.
  - intros s _. split; [set_solver|]. intros kind. split; [done|].
    intros p J. cbn. rewrite lookup_singleton_Some. by intros [_ <-].
  - vm_compute. reflexivity.
  - vm_compute. reflexivity.
  - vm_compute. reflexivity.
Qed.

Lemma step23 : step false w2 w3.
Proof.
  apply (StepOp false w2 w3 0%nat J1 e2 (OClaimNext "worker-1" [])).
  - done.
  - done.
  - intros n. cbn. lia.
  - intros s [= <-]. split; [vm_compute; congruence|]. intros kind. split.
    + change (jobs (wdb w2)) with (table J1). rewrite table1. apply lookup_singleton_None.
      intros E. by apply (id_fresh kind).
    + intros p J. cbn. rewrite lookup_singleton_Some. intros [_ <-]. rewrite items1.
      apply lookup_singleton_None. intros E. by apply (id_fresh kind).
  - vm_compute. reflexivity.
  - vm_compute. reflexivity.
  - vm_compute. reflexivity.
Qed.

Lemma reach1 : reachable false w1.
Proof. exists w0. split; [done|]. apply rtc_once, step01. Qed.
Lemma reach2 : reachable false w2.
Proof. exists w0. split; [done|]. eapply rtc_l; [apply step01|]. apply rtc_once, step12. Qed.
Lemma reach3 : reachable false w3.
Proof.
  exists w0. split; [done|]. eapply rtc_l; [apply step01|]. eapply rtc_l; [apply step12|].
  apply rtc_once, step23.
Qed.

Lemma coherent2 : coherent (table J2) (items J2).
Proof. exact (inv_cache false w3 (winv_reachable false w3 reach3) 0%nat J2 eq_refl). Qed.

Lemma one_live_job_per_owner_witness : id = id.
Proof.
  apply (one_live_job_per_owner w3 id id row2 row2); [apply reach3|vm_compute; reflexivity..].
Defined.


Lemma operation_keys_unique_witness : id = id.
Proof.
  apply (operation_keys_unique false w3 id id row2 row2); [apply reach3|vm_compute; reflexivity..|].
  left. vm_compute. congruence.
Defined.

(** The worker's claim of the job. *)
Lemma ClaimNext_leases_oldest_witness :
  ∃ id' r tok, oldest_eligible (table J1) 200 [] = Some (id', r) ∧ tok = "bb" ∧
    table J2 = <[id' := run_row "worker-1" tok (200 + leaseDuration J1) r]> (table J1).
Proof.
  destruct (ClaimNext_leases_oldest e2 "worker-1" [] J1 item2 J2) as (id' & r & tok & Ho & Htok & Hrest).
  - exact (inv_wf false w2 (winv_reachable false w2 reach2)).
  - vm_compute. reflexivity.
  - exists id', r, tok. split; [exact Ho|]. split; [by injection Htok|]. apply Hrest.
Defined.

Lemma enqueue_admission_witness : pending (table J1) = pending (table J0) + 1 ∧ pending (table J1) ≤ 3.
Proof.
  destruct (enqueue_admission e1 "site.backup" "alice" "key-1" (bytes_of "hello") 3 None J0
    (Ok (default zeroJob (items J1 !! id))) J1) as (_ & _ & H); [vm_compute; reflexivity|exact H].
Defined.

Definition J3 : Jobs := (exec_claim e3 (OComplete id "bb" []) J2).2.
Definition J4 : Jobs := (exec_claim e3 (OFail id "bb" "disk full" true []) J2).2.

(** The worker replaces the payload; what it wrote is read back. *)
Definition Jpay : Jobs := (exec_claim e3 (OUpdatePayload id "bb" (bytes_of "next")) J2).2.
Lemma lease_operation_fenced_witness :
  lease_held (table J2) id "bb" 300 = true ∧
  ∃ r', table Jpay !! id = Some r' ∧ decodeDurableJob J2 r' = Ok (item2 <| Payload := bytes_of "next" |>, false).
Proof.
  destruct (lease_operation_fenced e3 (OUpdatePayload id "bb" (bytes_of "next")) J2 id "bb" 300 None Jpay)
    as (item & r' & Hc & Hl & _ & Ht & _ & _ & _ & Hd); [apply coherent2|reflexivity|vm_compute; reflexivity|].
  assert (item = item2) as -> by (vm_compute in Hc |- *; congruence).
  split; [exact Hl|]. exists r'. rewrite Ht, lookup_insert_eq. split; [reflexivity|].
  apply Hd; [intros n [= <-]; reflexivity|exact I].
Defined.

Lemma failed_attempt_outcome_witness :
  ∃ r, table J4 !! id = Some r ∧ r_lease_token r = None.
Proof.
  destruct (failed_attempt_outcome e3 id "bb" "disk full" true [] J2 J4)
    as (item & r & _ & Hr & Ht & _); [apply coherent2|vm_compute; reflexivity|].
  exists r. exact (conj Hr Ht).
Defined.

(** Two minutes later the lease has expired. *)
Definition e4 : Env := env (200 + 3 * Minute) "dd".
Definition J5 : Jobs := (RequeueExpired e4 J2).2.
Lemma RequeueExpired_exact_witness :
  1 = Z.of_nat (length (filter (λ '(id, r), table J5 !! id ≠ Some r) (map_to_list (table J2)))).
Proof. apply (RequeueExpired_exact e4 J2 1 J5). vm_compute. reflexivity. Defined.

Definition J6 : Jobs := (cleanupDurableJobs e4 (200 + 2 * Minute) 500 J3).2.
Lemma cleanup_removes_only_expired_witness :
  countb (expired_terminal (200 + 2 * Minute)) (table J6) = 0%nat.
Proof.
  apply (cleanup_removes_only_expired e4 (200 + 2 * Minute) 500 J3 [id] J6); vm_compute; congruence.
Defined.

Definition nn : option bytes := Some (bytes_of "nn").
Definition sealed2 : bytes := match sealPayload J2 nn item2 with Ok s => s | Err _ => [] end.
Lemma payload_bound_to_job_witness : (bytes_of "hello", false) = (Payload item2, false).
Proof.
  destruct (payload_bound_to_job J2 box nn item2 sealed2 item2 (bytes_of "hello", false)) as (_ & _ & _ & H).
  - reflexivity.
  - vm_compute. congruence.
  - intros n [= <-]. reflexivity.
  - vm_compute. reflexivity.
  - repeat constructor; vm_compute; congruence.
  - repeat constructor; vm_compute; congruence.
  - vm_compute. reflexivity.
  - vm_compute. reflexivity.
  - exact H.
Defined.

Definition first : Job := default zeroJob (items J1 !! id).
Lemma idempotent_submission_witness :
  enqueueIdempotent e2 e2 e2 e2 "site.backup" "alice" "key-1" (bytes_of "other") 3 None J1 =
    (Err ErrIdempotencyConflict, J1).
Proof.
  exact (idempotent_submission e1 e1 e1 e1 e2 e2 e2 e2 "site.backup" "alice" "key-1" (bytes_of "hello")
    (bytes_of "other") 3 3 J0 first J1 (inv_unique false w1 (winv_reachable false w1 reach1))
    ltac:(vm_compute; congruence) (λ n (E : Some (bytes_of "aa") = Some n), match E with eq_refl => eq_refl end) I
    eq_refl eq_refl ltac:(vm_compute; reflexivity)).
Defined.

(** The panel process records a cancellation, the worker process renews. *)
Definition Jpanel : Jobs := (RequestCancel e3 id (panel (dbof J2))).2.
Definition Jworker : Jobs := J2 <| db := db Jpanel |>.
Definition Jrenewed : Jobs := (Renew e3 id "bb" Jworker).2.
Lemma renew_erases_cancellation_witness : CancellationRequestedWithError e3 id Jrenewed = Ok false.
Proof.
  apply (renew_erases_cancellation e3 e3 e3 id "bb" (panel (dbof J2)) Jpanel Jworker Jrenewed item2);
    try (vm_compute; reflexivity).
  intros k j Hk. change (items Jworker) with (items J2) in Hk. destruct (coherent2 k j Hk) as [Hid Hown]. split; [exact Hid|].
  intros r Hr. assert (k = id) as ->.
  { assert (items J2 = {[id := item2]}) as E by (vm_compute; reflexivity).
    rewrite E in Hk. by apply lookup_singleton_Some in Hk as [<- _]. }
  assert (j = item2) as -> by (vm_compute in Hk |- *; congruence).
  assert (r = default row2 (table Jworker !! id)) as -> by (by rewrite Hr). vm_compute. reflexivity.
Defined.

(** The worker completes the job; its token is dead afterwards. *)
Definition w4 : World := mkWorld (dbof J3) {[0%nat := J3]} 300 {["cc"; "bb"; "aa"]}.
Lemma id_fresh' kind : kind +:+ "-" +:+ "cc" ≠ id.
Proof.
  intros E. apply (f_equal (last ∘ bytes_of)) in E. unfold compose in E. rewrite bytes_of_app in E.
  change (bytes_of ("-" +:+ "cc")) with (["-"; "c"]%char ++ ["c"]%char) in E.
  rewrite app_assoc, last_snoc in E. vm_compute in E. congruence.
Qed.
Lemma step34 : step false w3 w4.
Proof.
  apply (StepOp false w3 w4 0%nat J2 e3 (OComplete id "bb" [])).
  - done.
  - done.
  - intros n. cbn. lia.
  - intros s [= <-]. split; [vm_compute; congruence|]. intros kind. split.
    + assert (jobs (wdb w3) = {[id := row2]}) as -> by (vm_compute; reflexivity).
      apply lookup_singleton_None. intros E. by apply (id_fresh' kind).
    + intros p J. cbn. rewrite lookup_singleton_Some. intros [_ <-].
      assert (items J2 = {[id := item2]}) as -> by (vm_compute; reflexivity).
      apply lookup_singleton_None. intros E. by apply (id_fresh' kind).
  - vm_compute. reflexivity.
  - vm_compute. reflexivity.
  - vm_compute. reflexivity.
Qed.
Lemma ended_lease_never_usable_witness :
  (exec_claim e3 (OUpdate id "bb" 50) (view w4 J3)).1 ≠ None ∧
  (Renew e3 id "bb" (view w4 J3)).1 ≠ Ok true.
Proof.
  apply (ended_lease_never_usable false w3 w4 w4 0%nat J2 e3 (OComplete id "bb" []) id "bb" 300 J3 0%nat J3
    e3 (OUpdate id "bb" 50) id 300).
  - apply reach3.
  - reflexivity.
  - reflexivity.
  - reflexivity.
  - vm_compute. reflexivity.
  - apply step34.
  - vm_compute. reflexivity.
  - apply rtc_refl.
  - reflexivity.
  - reflexivity.
Defined.

(** [Claim] takes a job by its ID without looking at its owner: after it, two workers
    run jobs of one account at once. *)
Example claim_by_id_runs_two :
  let Ja := (enqueue e1 "site.backup" "alice" "key-1" (bytes_of "one") 3 None J0).2 in
  let Jb := (enqueue e2 "site.backup" "alice" "key-2" (bytes_of "two") 3 None Ja).2 in
  let Jc := (ClaimNext e3 "worker-1" [] Jb).2 in
  let Jd := (Claim (env 300 "dd") "site.backup-bb" "worker-2" Jc).2 in
  countb (λ r, live 300 r && bool_decide (r_owner r = "alice")) (table Jc) = 1%nat ∧
  (ClaimNext (env 300 "dd") "worker-2" [] Jc).1 = Ok None ∧
  countb (λ r, live 300 r && bool_decide (r_owner r = "alice")) (table Jd) = 2%nat.
Proof. vm_compute. split_and!; reflexivity. Qed.

End Run.

End JobGlobal.
