(* ===== verification/JobStartup.v ===== *)
(** * JobStartup: what a process finds after a restart

    The startup [load] of the durable queue ([src/jobs.go]): it caches the jobs
    that recovery needs and marks the jobs failed whose worker left no lease
    owner behind, with a conditional update per row. *)
From S2P Require Import Prelude Secretbox JobStore JobQueue JobClaim JobOps JobLife JobFacts JobWorld JobRefine JobProps JobGlobal.
Import Secretbox.

Module JobStartup.
Import Jobs JobQueue JobClaim JobOps JobLife JobFacts JobWorld JobRefine.

(** A running row without a lease owner: nobody will renew or finish it. *)
Definition orphaned (r : Row) : bool :=
  bool_decide (r_state r = Running) && bool_decide (default "" (r_lease_owner r) = "").
Definition orphan_of (x : Entry) : orphanedJobLease :=
  mkOrphan x.1 (r_lease_token x.2) (r_lease_expires_at x.2).
Definition loaded_state (r : Row) : JobState := if orphaned r then Failed else r_state r.

Section Startup.
Context `{A : AEAD} `{JT : JSONText}.

Lemma load_row_state J now r item orphan seen :
  load_row J now r = Ok (item, orphan, seen) → orphan = orphaned r ∧ State item = loaded_state r.
Proof.
  unfold load_row. case_if; [done|]. intros H.
  assert (∀ it, decodeDurableJobRecord (r_payload r) = Ok it → LeaseOwner it = "") as Hd.
  { intros it. destruct (r_payload r) as [job raw|]; [|done]. cbn. by destruct raw; intros [= <-]. }
  destruct (decodeDurableJobRecord _) as [it|]; [|done]. specialize (Hd it eq_refl).
  case_if; [done|]. case_if; [done|]. destruct (openPayload _ _ _) as [[p sn]|]; [|done].
  assert (bool_decide (r_state r = Running) && bool_decide (default (LeaseOwner it) (r_lease_owner r) = "") = orphaned r)
    as Ho by (by rewrite Hd).
  unfold loaded_state. rewrite <- Ho. destruct it; cbn in *.
  case_if; injection H as <- <- <-; done.
Qed.

Lemma load_all_spec now rows : ∀ J0 os J1 os1,
  NoDup rows.*1 → (∀ x, x ∈ rows → wf_row x.1 x.2) → load_all J0 now rows os = Ok (J1, os1) →
  has_db J1 = has_db J0 ∧ table J1 = table J0 ∧ os1 = os ++ (orphan_of <$> filter (λ x, orphaned x.2 = true) rows) ∧
  (∀ id, id ∉ rows.*1 → items J1 !! id = items J0 !! id) ∧
  (∀ x, x ∈ rows → ∃ item, items J1 !! x.1 = Some item ∧ State item = loaded_state x.2).
Proof.
  induction rows as [|[k r] rows IH]; intros J0 os J1 os1 Hnd W; cbn [load_all].
  { intros [= <- <-]. rewrite app_nil_r. split_and!; [done..|]. by intros x ?%not_elem_of_nil. }
  destruct (load_row J0 now r) as [[[item orphan] seen]|] eqn:Hl; [|done].
  destruct (items J0 !! ID item) eqn:Hi; [done|]. intros H. cbn in Hnd. apply NoDup_cons in Hnd as [Hk Hnd].
  destruct (load_row_identity _ _ k _ _ _ _ Hl (W (k, r) ltac:(set_solver))) as [Hid _].
  apply load_row_state in Hl as [-> Hst]. rewrite Hid in H.
  apply IH in H as (Hd & Ht & Ho & Hsame & Hin); [|done|intros x Hx; apply W; set_solver].
  autorewrite with jobs in *. split_and!; [done|done| | |].
  - rewrite Ho, filter_cons. cbn [snd]. destruct (orphaned r) eqn:Hr.
    + rewrite decide_True by done. by rewrite <- app_assoc.
    + by rewrite decide_False.
  - intros id Hn. cbn in Hn. rewrite Hsame by set_solver. rewrite lookup_insert_ne by set_solver. done.
  - intros x [->|Hx]%elem_of_cons; [|by apply Hin]. cbn. rewrite Hsame by done.
    rewrite lookup_insert_eq. eauto.
Qed.

(** What the reconciliation leaves of an orphaned row. *)
Definition reconciled (now : Z) (r r' : Row) : Prop :=
  r_state r' = Failed ∧ r_finished_at r' = Some now ∧ r_lease_token r' = None ∧ r_lease_owner r' = None ∧
  r_owner r' = r_owner r ∧ r_kind r' = r_kind r ∧ r_operation_key r' = r_operation_key r.

Lemma fail_orphan_spec e i now o J J' :
  fail_orphan e i now o J = (None, J') → items J' = items J ∧
  ∃ r r', table J !! o_id o = Some r ∧ reconciled now r r' ∧ (has_db J = true → table J' = <[o_id o := r']> (table J)) ∧
    has_db J' = has_db J.
Proof.
  unfold fail_orphan. destruct (items J !! o_id o) as [item|]; [|done].
  destruct (encodeDurableItem _ _ _) as [data|]; [|done]. case_if; [done|].
  destruct (table J !! o_id o) as [r|] eqn:Hr; [|done]. case_if; [|done]. intros H.
  apply (f_equal snd) in H. cbn [snd] in H. subst J'. autorewrite with jobs. split; [done|].
  eexists r, _. split_and!; [done| | |done].
  2: { intros Hd. by autorewrite with jobs. }
  done.
Qed.

Lemma fail_orphans_spec e now os : ∀ i J J',
  has_db J = true → NoDup (o_id <$> os) → fail_orphans e i now os J = (None, J') →
  items J' = items J ∧
  (∀ id, id ∉ o_id <$> os → table J' !! id = table J !! id) ∧
  (∀ o, o ∈ os → ∃ r r', table J !! o_id o = Some r ∧ table J' !! o_id o = Some r' ∧ reconciled now r r').
Proof.
  induction os as [|o os IH]; intros i J J' Hd Hnd; cbn [fail_orphans fmap list_fmap].
  { intros [= <-]. split_and!; [done..|]. by intros o ?%not_elem_of_nil. }
  destruct (fail_orphan e i now o J) as [[er|] J1] eqn:Ho; [done|]. intros H.
  cbn in Hnd. apply NoDup_cons in Hnd as [Hn Hnd].
  apply fail_orphan_spec in Ho as (Hit & r & r' & Hr & Hrec & Ht & Hd1). specialize (Ht Hd).
  apply IH in H as (Hit2 & Hsame & Hin); [|congruence|done]. split_and!.
  - congruence.
  - intros id Hid. rewrite Hsame by set_solver. rewrite Ht. apply lookup_insert_ne. set_solver.
  - intros o' [->|Ho']%elem_of_cons.
    + exists r, r'. rewrite Hsame by done. by rewrite Ht, lookup_insert_eq.
    + destruct (Hin o' Ho') as (r1 & r2 & H1 & H2 & H3). exists r1, r2. split_and!; [|done..].
      rewrite Ht, lookup_insert_ne in H1; [done|]. intros E. apply Hn. rewrite E. by apply list_elem_of_fmap_2.
Qed.

Lemma load_rows_NoDup (t : Table) : NoDup (load_rows t).*1.
Proof.
  unfold load_rows. rewrite merge_sort_Permutation.
  apply (sublist_NoDup _ (map_to_list t).*1); [apply NoDup_fst_map_to_list|].
  apply fmap_sublist, sublist_filter.
Qed.

Lemma load_rows_complete (t : Table) id r :
  t !! id = Some r → recovery_critical r = true → (id, r) ∈ load_rows t.
Proof.
  intros Hr Hc. unfold load_rows. rewrite merge_sort_Permutation. apply list_elem_of_filter.
  split; [cbn; by rewrite Hc|]. by apply elem_of_map_to_list.
Qed.

(** A successful startup leaves no job behind. Every job that was running
    without a lease owner is failed, in the table and in the cache, no other row
    changes, and every queued, running and dead-letter job is in the cache under
    the state of its row. *)
Theorem load_recovers e J J' :
  has_db J = true → wf_table (table J) → load e J = (None, J') →
  (∀ id r, table J !! id = Some r →
     if orphaned r then ∃ r', table J' !! id = Some r' ∧ reconciled (clock e 0) r r'
     else table J' !! id = Some r) ∧
  (∀ id, table J !! id = None → table J' !! id = None) ∧
  (∀ id r, table J !! id = Some r → recovery_critical r = true →
     ∃ item, items J' !! id = Some item ∧ State item = loaded_state r).
Proof.
  intros Hd W. unfold load. case_if; [done|].
  destruct (load_all J (clock e 0) (load_rows (table J)) []) as [[J1 os]|] eqn:Hl; [|done].
  case_if; [done|]. intros Hf.
  apply load_all_spec in Hl as (Hd1 & Ht & -> & _ & Hin);
    [|apply load_rows_NoDup|intros x Hx; by apply W, load_rows_sub].
  rewrite app_nil_l in Hf.
  assert (o_id <$> (orphan_of <$> filter (λ x, orphaned x.2 = true) (load_rows (table J))) =
          (filter (λ x, orphaned x.2 = true) (load_rows (table J))).*1) as Hids.
  { rewrite <- list_fmap_compose. done. }
  apply fail_orphans_spec in Hf as (Hit & Hsame & Horph); [|congruence|].
  2: { rewrite Hids. eapply sublist_NoDup; [apply load_rows_NoDup|apply fmap_sublist, sublist_filter]. }
  rewrite Hids in Hsame. split_and!.
  - intros id r Hr. destruct (orphaned r) eqn:Ho.
    + destruct (Horph (orphan_of (id, r))) as (r0 & r' & H0 & H1 & H2).
      { apply list_elem_of_fmap_2, list_elem_of_filter. split; [done|]. apply load_rows_complete; [done|].
        unfold orphaned in Ho. apply andb_true_iff in Ho as [Hs%bool_decide_eq_true _].
        unfold recovery_critical. by rewrite Hs. }
      cbn in *. rewrite Ht in H0. simplify_eq. eauto.
    + rewrite Hsame, Ht; [done|]. intros ([k rk] & -> & [Hk Hx]%list_elem_of_filter)%list_elem_of_fmap.
      apply load_rows_sub in Hx. cbn in *. congruence.
  - intros id Hn. rewrite Hsame, Ht; [done|]. intros ([k rk] & -> & [Hk Hx]%list_elem_of_filter)%list_elem_of_fmap.
    apply load_rows_sub in Hx. cbn in *. congruence.
  - intros id r Hr Hc. rewrite Hit. exact (Hin (id, r) (load_rows_complete _ _ _ Hr Hc)).
Qed.

End Startup.

(** ** A restart after a crash *)

Import JobProps.JobProps.Demo JobGlobal.JobGlobal.

(** The table of a crashed process: the claimed job, its lease owner lost. *)
Definition crashed : Jobs :=
  panel (mkDB {[Run.id := Run.row2 <| r_lease_owner := None |>]} ∅ None).

Lemma crashed_wf : wf_table (table crashed).
Proof.
  intros id r. change (table crashed) with ({[Run.id := Run.row2 <| r_lease_owner := None |>]} : Table).
  intros [<- <-]%lookup_singleton_Some. vm_compute. done.
Qed.

Lemma load_recovers_witness :
  ∃ r', table (load (calm 900 "cc") crashed).2 !! Run.id = Some r' ∧
    reconciled 900 (Run.row2 <| r_lease_owner := None |>) r'.
Proof.
  destruct (load_recovers (calm 900 "cc") crashed (load (calm 900 "cc") crashed).2) as (H & _).
  - reflexivity.
  - apply crashed_wf.
  - vm_compute. reflexivity.
  - specialize (H Run.id (Run.row2 <| r_lease_owner := None |>)). apply H. reflexivity.
Defined.

End JobStartup.
