(* ===== verification/GoPath.v ===== *)
(** * GoPath: slash-separated paths and UTF-8 validity

    The parts of the Go standard library that the path policies of StePanel
    build on: [path.Clean] and [path.Dir] of package [path] (the lexical rules
    of their documentation), and [utf8.ValidString]. *)
From S2P Require Import Prelude.

Module GoPath.

Abbreviation byteseq := (list ascii).
Definition slash : ascii := "/"%char.
Definition dot : byteseq := ["."]%char.
Definition dotdot : byteseq := ["."; "."]%char.

(** ** Components *)

Fixpoint join_bytes (cs : list byteseq) : byteseq :=
  match cs with
  | [] => []
  | [c] => c
  | c :: rest => c ++ slash :: join_bytes rest
  end.

(** One component of [path.Clean]; the stack holds the output, last first. *)
Definition clean_step (rooted : bool) (out : list byteseq) (c : byteseq) : list byteseq :=
  if decide (c = [] ∨ c = dot) then out
  else if decide (c = dotdot) then
    match out with
    | [] => if rooted then [] else [dotdot]
    | top :: rest => if decide (top = dotdot) then dotdot :: out else rest
    end
  else c :: out.

Definition rooted_path (p : byteseq) : bool :=
  match p with c :: _ => bool_decide (c = slash) | [] => false end.

Definition clean_comps (p : byteseq) : list byteseq :=
  reverse (foldl (clean_step (rooted_path p)) [] (split_bytes slash p)).

(** [path.Clean]. *)
Definition Clean_bytes (p : byteseq) : byteseq :=
  let out := (if rooted_path p then [slash] else []) ++ join_bytes (clean_comps p) in
  match out with [] => dot | _ => out end.
Definition Clean (p : string) : string := of_bytes (Clean_bytes (bytes_of p)).

(** [path.Split] up to and including the last slash. *)
Definition dir_part (p : byteseq) : byteseq :=
  match removelast (split_bytes slash p) with
  | [] => []
  | ds => join_bytes ds ++ [slash]
  end.

(** [path.Dir]. *)
Definition Dir_bytes (p : byteseq) : byteseq := Clean_bytes (dir_part p).
Definition Dir (p : string) : string := of_bytes (Dir_bytes (bytes_of p)).

(** [filepath.Join]: the nonempty elements, joined and cleaned. *)
Definition Join (elems : list string) : string :=
  match filter (λ e, e ≠ "") elems with
  | [] => ""
  | es => Clean (join "/" es)
  end.

(** [filepath.IsAbs], and [filepath.Base] on Unix. *)
Definition IsAbs (p : string) : bool := rooted_path (bytes_of p).
Definition Base (p : string) : string :=
  if decide (p = "") then "." else
  match filter (λ c, c ≠ []) (split_bytes slash (bytes_of p)) with
  | [] => "/"
  | cs => of_bytes (List.last cs [])
  end.

(** ** UTF-8 *)

(** The acceptance ranges of Go's [unicode/utf8]: what the next byte of an
    unfinished encoding must be. *)
Inductive Utf8 : Type :=
  | UStart | UTail1 | UTail2 | UTail3 | UE0 | UED | UF0 | UF4.

Definition between (lo hi : Z) (c : ascii) : bool := (lo <=? code c) && (code c <=? hi).

Definition utf8_step (s : Utf8) (c : ascii) : option Utf8 :=
  match s with
  | UStart =>
      if between 0 127 c then Some UStart
      else if between 194 223 c then Some UTail1
      else if between 224 224 c then Some UE0
      else if between 225 236 c || between 238 239 c then Some UTail2
      else if between 237 237 c then Some UED
      else if between 240 240 c then Some UF0
      else if between 241 243 c then Some UTail3
      else if between 244 244 c then Some UF4
      else None
  | UTail1 => if between 128 191 c then Some UStart else None
  | UTail2 => if between 128 191 c then Some UTail1 else None
  | UTail3 => if between 128 191 c then Some UTail2 else None
  | UE0 => if between 160 191 c then Some UTail1 else None
  | UED => if between 128 159 c then Some UTail1 else None
  | UF0 => if between 144 191 c then Some UTail2 else None
  | UF4 => if between 128 143 c then Some UTail2 else None
  end.

Fixpoint utf8_run (s : Utf8) (l : byteseq) : option Utf8 :=
  match l with
  | [] => Some s
  | c :: l' => match utf8_step s c with Some s' => utf8_run s' l' | None => None end
  end.

Definition valid_utf8 (l : byteseq) : bool :=
  match utf8_run UStart l with Some UStart => true | _ => false end.
Definition ValidString (s : string) : bool := valid_utf8 (bytes_of s).

(** ** Lemmas on components *)

Lemma split_bytes_nonempty sep s : split_bytes sep s ≠ [].
Proof. destruct s as [|c s]; cbn; [done|]. case_decide; [done|]. by destruct (split_bytes sep s). Qed.

Lemma split_bytes_no_sep sep s : Forall (λ c, sep ∉ c) (split_bytes sep s).
Proof.
  induction s as [|c s IH]; cbn; [repeat constructor; set_solver|].
  case_decide; [constructor; [set_solver|done]|].
  pose proof (split_bytes_nonempty sep s). destruct (split_bytes sep s) as [|w ws]; [done|].
  inversion_clear IH. constructor; [set_solver|done].
Qed.

Lemma join_cons c cs : cs ≠ [] → join_bytes (c :: cs) = c ++ slash :: join_bytes cs.
Proof. by destruct cs. Qed.

Lemma join_split s : join_bytes (split_bytes slash s) = s.
Proof.
  induction s as [|c s IH]; [done|]. cbn [split_bytes].
  pose proof (split_bytes_nonempty slash s) as Hn. case_decide; [subst c; by rewrite join_cons, IH|].
  destruct (split_bytes slash s) as [|w ws] eqn:E; [done|]. destruct ws as [|v vs].
  - cbn in *. by rewrite IH.
  - rewrite join_cons in IH by done. rewrite join_cons by done. by rewrite <- IH.
Qed.

Lemma split_app_sep a s : slash ∉ a → split_bytes slash (a ++ slash :: s) = a :: split_bytes slash s.
Proof.
  induction a as [|c a IH]; intros Ha; cbn; [by rewrite decide_True|].
  rewrite decide_False by set_solver. by rewrite IH by set_solver.
Qed.

Lemma split_one a : slash ∉ a → split_bytes slash a = [a].
Proof.
  induction a as [|c a IH]; intros Ha; cbn; [done|].
  rewrite decide_False by set_solver. by rewrite IH by set_solver.
Qed.

Lemma split_join cs : cs ≠ [] → Forall (λ c, slash ∉ c) cs → split_bytes slash (join_bytes cs) = cs.
Proof.
  intros Hn H. induction H as [|c cs Hc H IH]; [done|].
  destruct cs as [|d ds]; [by apply split_one|].
  rewrite join_cons, split_app_sep by done. by rewrite IH.
Qed.

Lemma join_bytes_snoc cs c : cs ≠ [] → join_bytes (cs ++ [c]) = join_bytes cs ++ slash :: c.
Proof.
  induction cs as [|d ds IH]; [done|]. intros _. destruct ds as [|e es]; [done|].
  change ((d :: e :: es) ++ [c]) with (d :: ((e :: es) ++ [c])).
  rewrite join_cons, IH, (join_cons d) by done. by rewrite <- app_assoc.
Qed.

(** ** Normal paths *)

(** A component that names an entry of a directory. *)
Definition plain (c : byteseq) : Prop := c ≠ [] ∧ c ≠ dot ∧ c ≠ dotdot ∧ slash ∉ c.

(** The relative path with the given components. *)
Definition path_of (cs : list byteseq) : string := of_bytes (join_bytes cs).

Lemma clean_step_plain b out c : plain c → clean_step b out c = c :: out.
Proof. intros (H1 & H2 & H3 & _). unfold clean_step. rewrite !decide_False by tauto. done. Qed.

Lemma clean_fold_plain b cs out : Forall plain cs → foldl (clean_step b) out cs = reverse cs ++ out.
Proof.
  intros H. revert out. induction H as [|c cs Hc H IH]; intros out; [done|].
  cbn [foldl]. rewrite clean_step_plain, IH by done. by rewrite reverse_cons, <- app_assoc.
Qed.

(** Without [".."] components cleaning keeps the named components. *)
Definition named (c : byteseq) : Prop := c ≠ [] ∧ c ≠ dot.
#[export] Instance named_dec c : Decision (named c).
Proof. unfold named. apply _. Defined.

Lemma clean_fold_named b cs out :
  Forall (λ c, c ≠ dotdot) cs → foldl (clean_step b) out cs = reverse (filter named cs) ++ out.
Proof.
  intros H. revert out. induction H as [|c cs Hc H IH]; intros out; [done|].
  cbn [foldl]. rewrite filter_cons, IH. unfold clean_step, named.
  repeat case_decide; rewrite ?reverse_cons, <- ?app_assoc; try done; tauto.
Qed.

Lemma plain_not_rooted cs : Forall plain cs → rooted_path (join_bytes cs) = false.
Proof.
  intros H. destruct H as [|c cs (Hc & _ & _ & Hs) _]; [done|].
  destruct c as [|x c]; [done|]. assert (x ≠ slash) as Hx by set_solver.
  destruct cs; cbn; by rewrite bool_decide_false.
Qed.

Lemma plain_no_slash cs : Forall plain cs → Forall (λ c, slash ∉ c) cs.
Proof. intros H. eapply Forall_impl; [exact H|]. by intros c (_ & _ & _ & ?). Qed.

Lemma join_plain_nonempty cs : cs ≠ [] → Forall plain cs → join_bytes cs ≠ [].
Proof.
  intros Hn H. destruct H as [|c cs (Hc & _) _]; [done|].
  destruct c; [done|]. by destruct cs.
Qed.

Lemma Clean_plain cs : cs ≠ [] → Forall plain cs → Clean_bytes (join_bytes cs) = join_bytes cs.
Proof.
  intros Hn H. unfold Clean_bytes, clean_comps. rewrite plain_not_rooted by done.
  rewrite split_join by (done || by apply plain_no_slash). rewrite clean_fold_plain by done.
  rewrite app_nil_r, reverse_involutive. cbn.
  pose proof (join_plain_nonempty cs Hn H). by destruct (join_bytes cs).
Qed.

Lemma path_of_inj cs ds :
  cs ≠ [] → ds ≠ [] → Forall plain cs → Forall plain ds → path_of cs = path_of ds → cs = ds.
Proof.
  intros Hc Hd Pc Pd E. apply (f_equal bytes_of) in E. unfold path_of in E. rewrite !bytes_of_of in E.
  rewrite <- (split_join cs), <- (split_join ds) by (done || by apply plain_no_slash). by rewrite E.
Qed.

Lemma path_of_not_dot cs : Forall plain cs → path_of cs ≠ ".".
Proof.
  intros H E. apply (f_equal bytes_of) in E. unfold path_of in E. rewrite bytes_of_of in E.
  destruct cs as [|c cs]; [done|]. pose proof (Forall_inv H) as (_ & Hd & _).
  assert (split_bytes slash (join_bytes (c :: cs)) = c :: cs) as Es
    by (apply split_join; [done|by apply plain_no_slash]).
  rewrite E in Es. vm_compute in Es. by injection Es as <- _.
Qed.

(** [path.Dir] of a normal path drops its last component. *)
Lemma Dir_path_of cs c :
  Forall plain (cs ++ [c]) → Dir (path_of (cs ++ [c])) = match cs with [] => "." | _ => path_of cs end.
Proof.
  intros H. pose proof (plain_no_slash _ H) as Hs. unfold Dir, path_of, Dir_bytes, dir_part.
  rewrite bytes_of_of, split_join by (done || by destruct cs). rewrite removelast_last.
  apply Forall_app in H as [Hp _]. destruct cs as [|d ds]; [done|].
  remember (d :: ds) as cs eqn:Ecs. assert (cs ≠ []) as Hne by (by subst). clear Ecs.
  assert (Clean_bytes (join_bytes cs ++ [slash]) = join_bytes cs) as ->; [|done].
  assert (join_bytes cs ++ [slash] = join_bytes (cs ++ [[]])) as -> by (by rewrite join_bytes_snoc).
  assert (rooted_path (join_bytes (cs ++ [[]])) = false) as Hr.
  { rewrite join_bytes_snoc by done. pose proof (plain_not_rooted _ Hp) as E.
    pose proof (join_plain_nonempty cs Hne Hp). by destruct (join_bytes cs). }
  unfold Clean_bytes, clean_comps. rewrite Hr, split_join; [|by intros [? ?]%app_nil|].
  - rewrite foldl_app, (clean_fold_plain _ cs [] Hp), app_nil_r.
    change (foldl _ (reverse cs) [[]]) with (reverse cs). rewrite reverse_involutive.
    pose proof (join_plain_nonempty cs Hne Hp). by destruct (join_bytes cs).
  - apply Forall_app. split; [by apply plain_no_slash|]. repeat constructor. set_solver.
Qed.

(** ** Absolute paths *)

(** The absolute path with the given components. *)
Definition abs_path (cs : list byteseq) : string := of_bytes (slash :: join_bytes cs).

Lemma split_abs cs :
  cs ≠ [] → Forall plain cs → split_bytes slash (slash :: join_bytes cs) = [] :: cs.
Proof.
  intros Hn H. change (slash :: join_bytes cs) with ([] ++ slash :: join_bytes cs).
  rewrite split_app_sep by set_solver. by rewrite split_join by (done || by apply plain_no_slash).
Qed.

Lemma Clean_abs cs : cs ≠ [] → Forall plain cs → Clean (abs_path cs) = abs_path cs.
Proof.
  intros Hn H. unfold Clean, abs_path, Clean_bytes, clean_comps. rewrite bytes_of_of.
  rewrite split_abs by done. cbn [rooted_path foldl]. rewrite bool_decide_true by done.
  change (clean_step true [] []) with (@nil byteseq).
  rewrite clean_fold_plain, app_nil_r, reverse_involutive by done. done.
Qed.

Lemma abs_path_inj cs ds :
  cs ≠ [] → ds ≠ [] → Forall plain cs → Forall plain ds → abs_path cs = abs_path ds → cs = ds.
Proof.
  intros Hc Hd Pc Pd E. apply (f_equal bytes_of) in E. unfold abs_path in E. rewrite !bytes_of_of in E.
  apply (f_equal (split_bytes slash)) in E. rewrite !split_abs in E by done. by injection E.
Qed.

(** The absolute path of a list of components lies below that of another only if
    the second list is a prefix of the first. *)
Lemma abs_path_prefix cs ds :
  cs ≠ [] → ds ≠ [] → Forall plain cs → Forall plain ds →
  has_prefix (abs_path cs) (abs_path ds +:+ "/") = true → ds `prefix_of` cs.
Proof.
  intros Hc Hd Pc Pd. unfold has_prefix, abs_path. rewrite bytes_of_app, !bytes_of_of.
  change (bytes_of "/") with [slash].
  assert (Hsp : ∀ p s r, strip_prefix p s = Some r → s = p ++ r).
  { induction p as [|a p IH]; intros s r E; destruct s as [|b s]; cbn in E; simplify_eq; try done.
    case_decide; [|done]. subst. cbn. f_equal. by apply IH. }
  destruct (strip_prefix _ _) as [r|] eqn:E; [|done]. intros _. apply Hsp in E.
  apply (f_equal (split_bytes slash)) in E. rewrite split_abs in E by done.
  change ((slash :: join_bytes ds) ++ [slash]) with ([] ++ slash :: (join_bytes ds ++ [slash])) in E.
  rewrite <- !app_assoc, <- app_comm_cons, <- app_assoc in E.
  rewrite split_app_sep in E by set_solver. injection E as E. rewrite E. clear E Hc Pc.
  assert (∀ t, split_bytes slash (join_bytes ds ++ slash :: t) = ds ++ split_bytes slash t) as ->.
  { clear r cs. induction ds as [|d ds IH]; [done|]. intros t. inversion Pd as [|? ? Hp Pd']; subst.
    destruct Hp as (_ & _ & _ & Hs). destruct ds as [|d' ds].
    - cbn [join_bytes]. by rewrite split_app_sep.
    - rewrite join_cons, <- app_assoc, <- app_comm_cons, split_app_sep by done.
      rewrite IH by done. done. }
  by apply prefix_app_r.
Qed.

(** Joining plain names to an absolute path appends components. *)
Lemma join_string cs d : cs ≠ [] → Forall plain cs → plain d →
  abs_path cs +:+ "/" +:+ of_bytes d = abs_path (cs ++ [d]).
Proof.
  intros Hn H Hd. apply (inj bytes_of). unfold abs_path.
  rewrite !bytes_of_app, !bytes_of_of, join_bytes_snoc by done. done.
Qed.

Lemma join_merge p q rest : join "/" (p :: q :: rest) = join "/" ((p +:+ "/" +:+ q) :: rest).
Proof.
  apply (inj bytes_of). destruct rest as [|x rest]; cbn [join]; [done|].
  rewrite !bytes_of_app. by rewrite <- !app_assoc.
Qed.

Lemma join_abs cs ds : cs ≠ [] → Forall plain cs → Forall plain ds →
  join "/" (abs_path cs :: (of_bytes <$> ds)) = abs_path (cs ++ ds).
Proof.
  intros Hn H Hd. revert cs Hn H. induction Hd as [|d ds Hd Hds IH]; intros cs Hn H.
  - cbn. by rewrite app_nil_r.
  - rewrite fmap_cons, join_merge, join_string by done. rewrite IH; [by rewrite <- app_assoc| |].
    + by intros [? ?]%app_nil.
    + apply Forall_app. auto.
Qed.

Lemma of_bytes_nonempty c : c ≠ [] → of_bytes c ≠ "".
Proof. by destruct c. Qed.

Lemma Join_abs cs ds : cs ≠ [] → Forall plain cs → Forall plain ds →
  Join (abs_path cs :: (of_bytes <$> ds)) = abs_path (cs ++ ds).
Proof.
  intros Hn H Hd. unfold Join.
  assert (∀ l : list string, Forall (λ e, e ≠ "") l → filter (λ e, e ≠ "") l = l) as Hf.
  { induction 1 as [|e l He Hl IH]; [done|]. by rewrite filter_cons_True, IH. }
  rewrite Hf.
  - rewrite join_abs by done. apply Clean_abs; [by intros [? ?]%app_nil | by apply Forall_app].
  - constructor; [by unfold abs_path|]. apply Forall_fmap. eapply Forall_impl; [exact Hd|].
    intros c (Hc & _). by apply of_bytes_nonempty.
Qed.

Lemma join_bytes_app cs ds : cs ≠ [] → ds ≠ [] → join_bytes (cs ++ ds) = join_bytes cs ++ slash :: join_bytes ds.
Proof.
  intros Hc Hd. induction cs as [|c cs IH]; [done|]. destruct cs as [|c' cs]; cbn [app].
  - by rewrite join_cons.
  - rewrite join_cons by done. cbn [app] in IH. rewrite IH, (join_cons c) by done. by rewrite <- app_assoc.
Qed.

(** Joining a relative path of plain names. *)
Lemma Join_path cs ds : cs ≠ [] → ds ≠ [] → Forall plain cs → Forall plain ds →
  Join [abs_path cs; path_of ds] = abs_path (cs ++ ds).
Proof.
  intros Hc Hd Pc Pd. unfold Join.
  assert (path_of ds ≠ "") by (apply of_bytes_nonempty, join_plain_nonempty; done).
  rewrite !filter_cons, filter_nil, !decide_True by done. cbn [join].
  assert (abs_path cs +:+ "/" +:+ path_of ds = abs_path (cs ++ ds)) as ->.
  { apply (inj bytes_of). unfold abs_path, path_of. rewrite !bytes_of_app, !bytes_of_of, join_bytes_app by done. done. }
  apply Clean_abs; [by intros [? ?]%app_nil | by apply Forall_app].
Qed.

(** A string whose bytes form a plain component. *)
Definition plainb (s : string) : bool :=
  bool_decide (s ≠ "" ∧ s ≠ "." ∧ s ≠ ".." ∧ slash ∉ bytes_of s).
Lemma plainb_plain s : plainb s = true → plain (bytes_of s).
Proof.
  intros (H1 & H2 & H3 & H4)%bool_decide_eq_true. unfold plain.
  repeat split; [intros E|intros E|intros E|done];
    apply (f_equal of_bytes) in E; rewrite of_bytes_of in E; by subst.
Qed.

(** ** UTF-8 and slashes *)

Lemma utf8_run_app s a b :
  utf8_run s (a ++ b) = match utf8_run s a with Some s' => utf8_run s' b | None => None end.
Proof. revert s. induction a as [|c a IH]; intros s; cbn; [done|]. by destruct (utf8_step s c). Qed.

Lemma utf8_step_slash s s' : utf8_step s slash = Some s' → s = UStart ∧ s' = UStart.
Proof. by destruct s; vm_compute; intros [= <-]. Qed.

Lemma valid_utf8_app_slash a b : valid_utf8 (a ++ slash :: b) = valid_utf8 a && valid_utf8 b.
Proof.
  unfold valid_utf8. rewrite utf8_run_app. destruct (utf8_run UStart a) as [s|]; [|done].
  cbn [utf8_run]. destruct (utf8_step s slash) as [s'|] eqn:E.
  - by apply utf8_step_slash in E as [-> ->].
  - by destruct s.
Qed.

Lemma valid_utf8_join cs : cs ≠ [] → valid_utf8 (join_bytes cs) = forallb valid_utf8 cs.
Proof.
  induction cs as [|c cs IH]; [done|]. intros _. destruct cs as [|d ds].
  - cbn. by rewrite andb_true_r.
  - rewrite join_cons, valid_utf8_app_slash, IH by done. done.
Qed.

End GoPath.
