(* ===== verification/GoText.v ===== *)
(** * GoText: strings and numbers

    The functions of Go's packages [strings] and [strconv] that the validators
    of the root broker use, on byte strings, with the lemmas about decimal
    numbers ([Itoa] and [ParseInt]) and about cutting at a separator. *)
From S2P Require Import Prelude.

Module GoText.

(** ** Package [strings] *)

(** [strings.Contains(s, sub)]. *)
Fixpoint contains_bytes (s sub : list ascii) : bool :=
  match strip_prefix sub s with
  | Some _ => true
  | None => match s with [] => false | _ :: s' => contains_bytes s' sub end
  end.
Definition Contains (s sub : string) : bool := contains_bytes (bytes_of s) (bytes_of sub).

(** [strings.ContainsAny(s, chars)], the characters given by their byte values. *)
Definition ContainsAny (s : string) (codes : list Z) : bool :=
  any_byte (λ c, bool_decide (code c ∈ codes)) s.
Definition nul_cr_lf : list Z := [0; 13; 10].

(** [strings.TrimPrefix] and [strings.TrimSuffix]. *)
Definition TrimPrefix (s p : string) : string :=
  match strip_prefix (bytes_of p) (bytes_of s) with Some r => of_bytes r | None => s end.
Definition TrimSuffix (s p : string) : string :=
  match strip_prefix (reverse (bytes_of p)) (reverse (bytes_of s)) with
  | Some r => of_bytes (reverse r) | None => s end.

(** [strings.Cut(s, sep)] for a one-byte separator. *)
Fixpoint cut_bytes (sep : ascii) (s : list ascii) : option (list ascii * list ascii) :=
  match s with
  | [] => None
  | c :: s' =>
      if decide (c = sep) then Some ([], s')
      else match cut_bytes sep s' with Some (a, b) => Some (c :: a, b) | None => None end
  end.
Definition Cut (sep : ascii) (s : string) : string * string * bool :=
  match cut_bytes sep (bytes_of s) with
  | Some (a, b) => (of_bytes a, of_bytes b, true)
  | None => (s, "", false)
  end.

(** [strings.ReplaceAll(s, old, new)] for single bytes. *)
Definition replace_byte (old new : ascii) (s : string) : string :=
  of_bytes ((λ c, if decide (c = old) then new else c) <$> bytes_of s).

(** [strings.EqualFold(s, t)] where [t] is ASCII: beside the other case of a
    letter, simple folding identifies U+017F with [s] and U+212A with [k]. *)
Fixpoint fold_bytes (s : list ascii) : list ascii :=
  match s with
  | [] => []
  | c :: s' =>
      match s' with
      | d :: s'' =>
          if decide (code c = 197 ∧ code d = 191) then "s"%char :: fold_bytes s''
          else match s'' with
               | e :: s3 =>
                   if decide (code c = 226 ∧ code d = 132 ∧ code e = 170) then "k"%char :: fold_bytes s3
                   else lower_byte c :: fold_bytes s'
               | [] => lower_byte c :: fold_bytes s'
               end
      | [] => [lower_byte c]
      end
  end.
Definition EqualFold (s t : string) : bool :=
  bool_decide (fold_bytes (bytes_of s) = fold_bytes (bytes_of t)).

(** [strings.ToLower] and [strings.ToUpper]. Beside the ASCII letters, U+0130 and
    U+212A have the ASCII lower cases [i] and [k], U+0131 and U+017F the upper cases
    [I] and [S]; every other rune outside ASCII stays outside it and is left alone
    here, which suffices where the result is compared with ASCII text. *)
Fixpoint lower_bytes (s : list ascii) : list ascii :=
  match s with
  | [] => []
  | c :: s' =>
      match s' with
      | d :: s'' =>
          if decide (code c = 196 ∧ code d = 176) then "i"%char :: lower_bytes s''
          else match s'' with
               | e :: s3 =>
                   if decide (code c = 226 ∧ code d = 132 ∧ code e = 170) then "k"%char :: lower_bytes s3
                   else lower_byte c :: lower_bytes s'
               | [] => lower_byte c :: lower_bytes s'
               end
      | [] => [lower_byte c]
      end
  end.
Definition ToLower (s : string) : string := of_bytes (lower_bytes (bytes_of s)).
Definition upper_byte (c : ascii) : ascii := if is_lower c then chr (code c - 32) else c.
Fixpoint upper_bytes (s : list ascii) : list ascii :=
  match s with
  | [] => []
  | c :: s' =>
      match s' with
      | d :: s'' =>
          if decide (code c = 196 ∧ code d = 177) then "I"%char :: upper_bytes s''
          else if decide (code c = 197 ∧ code d = 191) then "S"%char :: upper_bytes s''
          else upper_byte c :: upper_bytes s'
      | [] => [upper_byte c]
      end
  end.
Definition ToUpper (s : string) : string := of_bytes (upper_bytes (bytes_of s)).

(** [err.Error()]. *)
Fixpoint error_text (e : error) : string :=
  match e with
  | ESentinel n => n
  | EMsg m => m
  | EWrap c i => c +:+ ": " +:+ error_text i
  end.

(** ** Package [strconv] *)

Definition digit (n : Z) : ascii := chr (48 + n).

(** The decimal digits of [n], most significant first; a 64-bit value has at most
    20 digits. *)
Fixpoint digits (fuel : nat) (n : Z) : list ascii :=
  match fuel with
  | O => []
  | S f => if n <? 10 then [digit n] else digits f (n / 10) ++ [digit (n mod 10)]
  end.
Definition Itoa (n : Z) : string :=
  if n <? 0 then of_bytes ("-"%char :: digits 20 (- n)) else of_bytes (digits 20 n).

(** [strconv.ParseInt(s, 10, 64)] on a nonempty string of decimal digits. *)
Definition parse_digits (l : list ascii) : Z := foldl (λ a c, a * 10 + (code c - 48)) 0 l.
Definition maxInt64 : Z := 2 ^ 63 - 1.
Definition ParseInt (s : string) : res Z :=
  let n := parse_digits (bytes_of s) in
  if bool_decide (s = "") || negb (all_bytes is_digit s) then Err (EMsg "invalid syntax") else
  if maxInt64 <? n then Err (EMsg "value out of range") else Ok n.

(** ** Lemmas *)

Lemma code_digit n : 0 ≤ n < 10 → code (digit n) = 48 + n.
Proof.
  intros H. unfold digit, chr, code. rewrite N_ascii_embedding; [|lia]. by rewrite Z2N.id by lia.
Qed.

Lemma is_digit_digit n : 0 ≤ n < 10 → is_digit (digit n) = true.
Proof.
  intros H. unfold is_digit, in_range. rewrite code_digit by done.
  change (code "0") with 48. change (code "9") with 57. lia.
Qed.

Lemma digits_spec f n : 0 ≤ n < 10 ^ Z.of_nat f →
  parse_digits (digits f n) = n ∧ forallb is_digit (digits f n) = true ∧
  (f ≠ 0%nat → digits f n ≠ []) ∧ (length (digits f n) ≤ f)%nat.
Proof.
  revert n. induction f as [|f IH]; intros n Hn; [cbn in *; repeat split; lia || done|].
  cbn [digits]. destruct (n <? 10) eqn:E.
  - apply Z.ltb_lt in E. unfold parse_digits. cbn [foldl]. rewrite code_digit by lia. cbn [forallb].
    rewrite is_digit_digit by lia. repeat split; cbn; lia || done.
  - apply Z.ltb_ge in E. rewrite Nat2Z.inj_succ, Z.pow_succ_r in Hn by lia.
    pose proof (Z.mod_pos_bound n 10 ltac:(lia)).
    destruct (IH (n / 10)) as (H1 & H2 & _ & H3).
    { split; [apply Z.div_pos; lia|]. apply Z.div_lt_upper_bound; lia. }
    unfold parse_digits in *. rewrite foldl_app, H1. cbn [foldl].
    rewrite code_digit, forallb_app, H2 by done. cbn [forallb]. rewrite is_digit_digit by done.
    pose proof (Z.div_mod n 10 ltac:(lia)). rewrite length_app. cbn.
    repeat split; [lia | by intros _ [? ?]%app_nil | lia].
Qed.

Lemma Itoa_digits n : 0 ≤ n < 10 ^ 20 →
  all_bytes is_digit (Itoa n) = true ∧ Itoa n ≠ "" ∧ parse_digits (bytes_of (Itoa n)) = n.
Proof.
  intros Hn. unfold Itoa, all_bytes. rewrite (proj2 (Z.ltb_ge n 0)) by lia. rewrite bytes_of_of.
  destruct (digits_spec 20 n Hn) as (H1 & H2 & H3 & _). repeat split; try done.
  intros E. apply (f_equal bytes_of) in E. rewrite bytes_of_of in E. by apply H3 in E.
Qed.

(** Parsing what [Itoa] printed. *)
Lemma ParseInt_Itoa n : 0 ≤ n ≤ maxInt64 → ParseInt (Itoa n) = Ok n.
Proof.
  intros Hn. destruct (Itoa_digits n) as (H1 & H2 & H3); [unfold maxInt64 in *; lia|].
  unfold ParseInt. rewrite bool_decide_false, H1, H3 by done. cbn.
  by rewrite (proj2 (Z.ltb_ge _ _)) by lia.
Qed.

Lemma Itoa_negative n : n < 0 → all_bytes is_digit (Itoa n) = false.
Proof.
  intros Hn. unfold Itoa. rewrite (proj2 (Z.ltb_lt n 0)) by done. unfold all_bytes. by rewrite bytes_of_of.
Qed.

(** The number of digits grows with the value. *)
Lemma digits_length f n k : 0 ≤ n < 10 ^ Z.of_nat k → (0 < k)%nat → (length (digits f n) ≤ k)%nat.
Proof.
  revert n k. induction f as [|f IH]; intros n k Hn Hk; cbn [digits length]; [lia|].
  destruct (n <? 10) eqn:E; [cbn; lia|]. apply Z.ltb_ge in E. rewrite length_app. cbn.
  destruct k as [|[|k]]; [lia | cbn in Hn; lia |].
  specialize (IH (n / 10) (S k)). rewrite (Nat2Z.inj_succ (S k)), Z.pow_succ_r in Hn by lia.
  assert (0 ≤ n / 10 < 10 ^ Z.of_nat (S k)).
  { split; [apply Z.div_pos; lia|]. apply Z.div_lt_upper_bound; lia. }
  assert (length (digits f (n / 10)) ≤ S k)%nat by (apply IH; [done|lia]). lia.
Qed.

Lemma strip_prefix_Some p s r : strip_prefix p s = Some r ↔ s = p ++ r.
Proof.
  revert s. induction p as [|a p IH]; intros s; cbn.
  - split; [by intros [= ->] | by intros ->].
  - destruct s as [|b s]; [done|]. case_decide as E.
    + rewrite IH. subst. split; [by intros -> | by intros [= ->]].
    + split; [done | intros [= ? ?]; congruence].
Qed.

Lemma has_prefix_iff s p : has_prefix s p = true ↔ ∃ r, s = p +:+ r.
Proof.
  unfold has_prefix. destruct (strip_prefix _ _) as [r|] eqn:E; split; try done.
  - intros _. apply strip_prefix_Some in E. exists (of_bytes r). apply (inj bytes_of).
    by rewrite bytes_of_app, bytes_of_of.
  - intros [r ->]. rewrite bytes_of_app in E.
    by rewrite (proj2 (strip_prefix_Some _ _ (bytes_of r)) eq_refl) in E.
Qed.

Lemma cut_bytes_Some sep s a b : cut_bytes sep s = Some (a, b) ↔ s = a ++ sep :: b ∧ sep ∉ a.
Proof.
  revert a. induction s as [|c s IH]; intros a; cbn.
  - split; [done | intros [E _]; by destruct a].
  - case_decide as E; subst.
    + split; [intros [= <- <-]; split; [done | set_solver]|].
      intros [Ha Hs]. destruct a as [|x a]; simplify_list_eq; [done | set_solver].
    + destruct (cut_bytes sep s) as [[a' b']|] eqn:Ec; split.
      * intros [= <- <-]. destruct (proj1 (IH a') eq_refl) as [-> Hs]. split; [done | set_solver].
      * intros [Ha Hs]. destruct a as [|x a]; simplify_list_eq.
        assert (Some (a', b') = Some (a, b)) as [= -> ->] by (apply IH; split; [done | set_solver]). done.
      * done.
      * intros [Ha Hs]. destruct a as [|x a]; simplify_list_eq.
        assert (None = Some (a, b)) by (apply IH; split; [done | set_solver]). done.
Qed.

Lemma Cut_Some sep s a b : Cut sep s = (a, b, true) ↔ s = a +:+ String sep b ∧ sep ∉ bytes_of a.
Proof.
  unfold Cut. destruct (cut_bytes sep (bytes_of s)) as [[x y]|] eqn:E; split.
  - intros [= <- <-]. apply cut_bytes_Some in E as [Es Hs]. rewrite bytes_of_of. split; [|done].
    apply (inj bytes_of). rewrite bytes_of_app, bytes_of_of, Es.
    change (bytes_of (String sep (of_bytes y))) with (sep :: bytes_of (of_bytes y)). by rewrite bytes_of_of.
  - intros [-> Hs]. rewrite bytes_of_app in E. change (bytes_of (String sep b)) with (sep :: bytes_of b) in E.
    rewrite (proj2 (cut_bytes_Some _ _ (bytes_of a) (bytes_of b)) (conj eq_refl Hs)) in E.
    injection E as <- <-. by rewrite !of_bytes_of.
  - done.
  - intros [-> Hs]. rewrite bytes_of_app in E. change (bytes_of (String sep b)) with (sep :: bytes_of b) in E.
    by rewrite (proj2 (cut_bytes_Some _ _ (bytes_of a) (bytes_of b)) (conj eq_refl Hs)) in E.
Qed.

(** ** Splitting what was joined *)

Lemma app_sep_inj {A} (x : A) a b c d : a ++ x :: b = c ++ x :: d → x ∉ b → x ∉ d → a = c.
Proof.
  revert c. induction a as [|y a IH]; intros c E Hb Hd; destruct c as [|z c]; cbn in E; simplify_eq; try done.
  - exfalso. apply Hb. set_solver.
  - exfalso. apply Hd. set_solver.
  - f_equal. by eapply IH.
Qed.

Lemma split_bytes_app sep a b : sep ∉ a → split_bytes sep (a ++ sep :: b) = a :: split_bytes sep b.
Proof.
  induction a as [|c a IH]; intros Ha; cbn; [by rewrite decide_True|].
  rewrite decide_False by set_solver. rewrite IH by set_solver. done.
Qed.
Lemma split_bytes_free sep a : sep ∉ a → split_bytes sep a = [a].
Proof. induction a as [|c a IH]; intros Ha; cbn; [done|]. rewrite decide_False by set_solver. by rewrite IH by set_solver. Qed.

Lemma split_joined sep l : l ≠ [] → Forall (λ s, sep ∉ bytes_of s) l → split sep (join (String sep "") l) = l.
Proof.
  intros Hn Hl. induction Hl as [|s l Hs Hl IH]; [done|]. destruct l as [|s2 l].
  - unfold split. cbn [join]. rewrite split_bytes_free by done. cbn. by rewrite of_bytes_of.
  - change (join (String sep "") (s :: s2 :: l)) with (s +:+ String sep "" +:+ join (String sep "") (s2 :: l)). unfold split in *. rewrite !bytes_of_app.
    change (bytes_of (String sep "") ++ bytes_of (join (String sep "") (s2 :: l))) with (sep :: bytes_of (join (String sep "") (s2 :: l))).
    rewrite split_bytes_app by done. cbn [fmap list_fmap]. rewrite of_bytes_of. f_equal. by apply IH.
Qed.

End GoText.
