(* ===== verification/Regex.v ===== *)
(** * Regex: the regular expressions of the validators

    Go's [regexp.MustCompile(p).MatchString(s)] for the anchored patterns the
    program uses ([^...$] with byte classes, concatenation, alternation and
    bounded or unbounded repetition). [re] is the syntax, [Matches] the language
    a pattern denotes, [MatchString] an executable matcher by derivatives, and
    [MatchString_spec] their agreement. [re_bytes] bounds the bytes a matching
    string can hold, which is how the clients show that a validated value carries
    no separator, newline or NUL. *)
From S2P Require Import Prelude.

Module Regex.

(** ** Syntax *)

Inductive re : Type :=
  | Never
  | Eps
  | Cls (ranges : list (ascii * ascii))
  | Cat (r1 r2 : re)
  | Alt (r1 r2 : re)
  | Star (r : re).

Definition in_class (ranges : list (ascii * ascii)) (c : ascii) : bool :=
  existsb (λ p, in_range p.1 p.2 c) ranges.

(** One given byte, a literal, [r?], [r+]. *)
Definition byte (c : ascii) : re := Cls [(c, c)].
Fixpoint lit_bytes (l : list ascii) : re :=
  match l with [] => Eps | c :: l' => Cat (byte c) (lit_bytes l') end.
Definition lit (s : string) : re := lit_bytes (bytes_of s).
Definition opt (r : re) : re := Alt Eps r.
Definition plus (r : re) : re := Cat r (Star r).

(** [r{0,n}], [r{m}], [r{m,n}]. *)
Fixpoint upto (n : nat) (r : re) : re :=
  match n with O => Eps | S n' => Alt Eps (Cat r (upto n' r)) end.
Fixpoint times (m : nat) (r k : re) : re :=
  match m with O => k | S m' => Cat r (times m' r k) end.
Definition rep (m n : nat) (r : re) : re := times m r (upto (n - m) r).
Definition exactly (m : nat) (r : re) : re := times m r Eps.

(** ** The language of a pattern *)

Inductive Matches : re → list ascii → Prop :=
  | MEps : Matches Eps []
  | MCls rs c : in_class rs c = true → Matches (Cls rs) [c]
  | MCat r1 r2 s1 s2 : Matches r1 s1 → Matches r2 s2 → Matches (Cat r1 r2) (s1 ++ s2)
  | MAltL r1 r2 s : Matches r1 s → Matches (Alt r1 r2) s
  | MAltR r1 r2 s : Matches r2 s → Matches (Alt r1 r2) s
  | MStarNil r : Matches (Star r) []
  | MStarCons r s1 s2 : Matches r s1 → Matches (Star r) s2 → Matches (Star r) (s1 ++ s2).

(** ** The matcher *)

Fixpoint nullable (r : re) : bool :=
  match r with
  | Never | Cls _ => false
  | Eps | Star _ => true
  | Cat r1 r2 => nullable r1 && nullable r2
  | Alt r1 r2 => nullable r1 || nullable r2
  end.

(** Concatenation and alternation that drop trivial parts, so that derivatives
    stay small. *)
Definition cat (r1 r2 : re) : re :=
  match r1 with Never => Never | Eps => r2 | _ => Cat r1 r2 end.
Definition alt (r1 r2 : re) : re :=
  match r1, r2 with Never, _ => r2 | _, Never => r1 | _, _ => Alt r1 r2 end.

Fixpoint deriv (c : ascii) (r : re) : re :=
  match r with
  | Never | Eps => Never
  | Cls rs => if in_class rs c then Eps else Never
  | Cat r1 r2 =>
      if nullable r1 then alt (cat (deriv c r1) r2) (deriv c r2) else cat (deriv c r1) r2
  | Alt r1 r2 => alt (deriv c r1) (deriv c r2)
  | Star r1 => cat (deriv c r1) (Star r1)
  end.

Fixpoint match_bytes (r : re) (s : list ascii) : bool :=
  match s with [] => nullable r | c :: s' => match_bytes (deriv c r) s' end.
Definition MatchString (r : re) (s : string) : bool := match_bytes r (bytes_of s).

(** Every byte of every class of the pattern satisfies [p]. *)
Definition all_ascii : list ascii := map (λ n, chr (Z.of_nat n)) (seq 0 256).
Fixpoint re_bytes (p : ascii → bool) (r : re) : bool :=
  match r with
  | Never | Eps => true
  | Cls rs => forallb (λ c, negb (in_class rs c) || p c) all_ascii
  | Cat r1 r2 | Alt r1 r2 => re_bytes p r1 && re_bytes p r2
  | Star r1 => re_bytes p r1
  end.

(** An upper bound of the length of a match, [None] under an unbounded
    repetition. *)
Fixpoint re_max (r : re) : option nat :=
  match r with
  | Never | Eps => Some 0%nat
  | Cls _ => Some 1%nat
  | Cat r1 r2 => a ← re_max r1; b ← re_max r2; Some (a + b)%nat
  | Alt r1 r2 => a ← re_max r1; b ← re_max r2; Some (Nat.max a b)
  | Star _ => None
  end.

(** ** Correctness of the matcher *)

Lemma nullable_spec r : nullable r = true ↔ Matches r [].
Proof.
  split.
  - induction r; cbn; intros H; [done | constructor | done | | | constructor].
    + apply andb_true_iff in H as [H1 H2]. rewrite <- (app_nil_r []). constructor; auto.
    + apply orb_true_iff in H as [H|H]; [apply MAltL | apply MAltR]; auto.
  - intros H. remember [] as s eqn:E. induction H; cbn; try done.
    + apply app_eq_nil in E as [-> ->]. by rewrite IHMatches1, IHMatches2.
    + by rewrite IHMatches.
    + rewrite IHMatches by done. by rewrite orb_true_r.
Qed.

Lemma cat_spec r1 r2 s : Matches (cat r1 r2) s ↔ Matches (Cat r1 r2) s.
Proof.
  destruct r1; cbn; try done.
  - split; inversion 1; subst. match goal with H : Matches Never _ |- _ => inversion H end.
  - split; intros H.
    + change s with ([] ++ s). by constructor; [constructor|].
    + inversion H as [| |? ? ? ? H1 H2| | | |]; subst. by inversion H1.
Qed.

Lemma alt_spec r1 r2 s : Matches (alt r1 r2) s ↔ Matches r1 s ∨ Matches r2 s.
Proof.
  assert (Hnever : ¬ Matches Never s) by inversion 1.
  assert (Halt : ∀ a b, Matches (Alt a b) s ↔ Matches a s ∨ Matches b s).
  { intros a b. split; [inversion 1; subst; auto | intros [?|?]; [by apply MAltL | by apply MAltR]]. }
  destruct r1; cbn; try (tauto); destruct r2; rewrite ?Halt; tauto.
Qed.

Lemma Cat_cons r1 r2 c s :
  Matches (Cat r1 r2) (c :: s) ↔
  (Matches r1 [] ∧ Matches r2 (c :: s)) ∨ ∃ s1 s2, s = s1 ++ s2 ∧ Matches r1 (c :: s1) ∧ Matches r2 s2.
Proof.
  split.
  - inversion 1 as [| |? ? s1 s2 H1 H2 [E1 E2]| | | |]; subst.
    destruct s1 as [|c1 s1]; cbn in *; simplify_eq; [by left | right; eauto].
  - intros [[H1 H2]|(s1 & s2 & -> & H1 & H2)].
    + change (c :: s) with ([] ++ c :: s). by constructor.
    + change (c :: s1 ++ s2) with ((c :: s1) ++ s2). by constructor.
Qed.

Lemma Star_cons r c s :
  Matches (Star r) (c :: s) ↔ ∃ s1 s2, s = s1 ++ s2 ∧ Matches r (c :: s1) ∧ Matches (Star r) s2.
Proof.
  split.
  - intros H. remember (Star r) as q eqn:Eq. remember (c :: s) as t eqn:Et.
    induction H; try done; simplify_eq.
    destruct s1 as [|c1 s1]; cbn in *; [by apply IHMatches2 | simplify_eq; eauto].
  - intros (s1 & s2 & -> & H1 & H2). change (c :: s1 ++ s2) with ((c :: s1) ++ s2). by constructor.
Qed.

Lemma deriv_spec c r s : Matches (deriv c r) s ↔ Matches r (c :: s).
Proof.
  revert s. induction r as [| |rs|r1 IH1 r2 IH2|r1 IH1 r2 IH2|r IH]; intros s; cbn.
  - split; inversion 1.
  - split; inversion 1.
  - destruct (in_class rs c) eqn:E; split; inversion 1; subst; try congruence; [by apply MCls | apply MEps].
  - assert (Hc : Matches (cat (deriv c r1) r2) s ↔
                 ∃ s1 s2, s = s1 ++ s2 ∧ Matches r1 (c :: s1) ∧ Matches r2 s2).
    { rewrite cat_spec. split.
      - inversion 1; subst. eexists _, _. rewrite <- IH1. eauto.
      - intros (s1 & s2 & -> & H1 & H2). constructor; [by apply IH1 | done]. }
    rewrite Cat_cons. destruct (nullable r1) eqn:E.
    + rewrite alt_spec, Hc, IH2. apply nullable_spec in E. tauto.
    + rewrite Hc, <- nullable_spec, E. intuition congruence.
  - rewrite alt_spec, IH1, IH2. split; [intros [?|?]; [by apply MAltL | by apply MAltR] | inversion 1; auto].
  - rewrite cat_spec, Star_cons. split.
    + inversion 1; subst. eexists _, _. rewrite <- IH. eauto.
    + intros (s1 & s2 & -> & H1 & H2). constructor; [by apply IH | done].
Qed.

(** The matcher decides the language of the pattern. *)
Theorem MatchString_spec r s : MatchString r s = true ↔ Matches r (bytes_of s).
Proof.
  unfold MatchString. generalize (bytes_of s) as l. intros l. revert r.
  induction l as [|c l IH]; intros r; cbn; [apply nullable_spec|].
  by rewrite IH, deriv_spec.
Qed.

(** ** Bytes and lengths of a match *)

Lemma elem_of_all_ascii c : c ∈ all_ascii.
Proof.
  unfold all_ascii. apply list_elem_of_In, in_map_iff. exists (Z.to_nat (code c)).
  pose proof (code_bound c). rewrite Z2Nat.id by lia. split.
  - unfold chr, code. rewrite N2Z.id. apply ascii_N_embedding.
  - apply in_seq. lia.
Qed.

Lemma re_bytes_spec p r s : re_bytes p r = true → Matches r s → Forall (λ c, p c = true) s.
Proof.
  intros Hp H. revert Hp. induction H; cbn [re_bytes]; rewrite ?andb_true_iff;
    intros Hp; try done; try (apply Forall_app; split); try tauto.
  rewrite forallb_forall in Hp. specialize (Hp c). rewrite <- list_elem_of_In in Hp.
  specialize (Hp (elem_of_all_ascii c)). rewrite H in Hp. by repeat constructor.
Qed.

Lemma MatchString_bytes p r s :
  re_bytes p r = true → MatchString r s = true → all_bytes p s = true.
Proof.
  intros Hp Hm%MatchString_spec. unfold all_bytes. apply forallb_forall.
  pose proof (re_bytes_spec p r _ Hp Hm) as HF. rewrite Forall_forall in HF.
  intros c Hc. apply HF. by apply list_elem_of_In.
Qed.

Lemma re_max_spec r s n : re_max r = Some n → Matches r s → (length s ≤ n)%nat.
Proof.
  intros Hn H. revert n Hn. induction H as [|rs c Hc|r1 r2 s1 s2 H1 IH1 H2 IH2|r1 r2 s H IH|r1 r2 s H IH|r|r s1 s2 H1 IH1 H2 IH2];
    intros n Hn; cbn in Hn; try (injection Hn as <-; cbn; lia); try done.
  all: destruct (re_max r1) as [a|]; [|done]; destruct (re_max r2) as [b|]; [|done]; injection Hn as <-.
  - rewrite length_app. specialize (IH1 _ eq_refl). specialize (IH2 _ eq_refl). lia.
  - specialize (IH _ eq_refl). lia.
  - specialize (IH _ eq_refl). lia.
Qed.

Lemma MatchString_len r s n : re_max r = Some n → MatchString r s = true → len s ≤ Z.of_nat n.
Proof.
  intros Hn Hm%MatchString_spec. pose proof (re_max_spec _ _ _ Hn Hm) as H.
  rewrite length_bytes_of in H. unfold len. lia.
Qed.

(** The matches of a literal, a concatenation and a class repeated at least once. *)
Lemma Matches_lit l s : Matches (lit_bytes l) s ↔ s = l.
Proof.
  revert s. induction l as [|c l IH]; intros s; cbn; split.
  - by inversion 1.
  - intros ->. constructor.
  - inversion 1 as [| |? ? s1 s2 H1 H2| | | |]; subst. apply IH in H2 as ->.
    inversion H1 as [|? ? Hc| | | | |]; subst. cbn in Hc. rewrite orb_false_r in Hc.
    unfold in_range in Hc. apply andb_true_iff in Hc as [H3%Z.leb_le H4%Z.leb_le].
    assert (c = c0) as -> by (apply (inj code); lia). done.
  - intros ->. change (c :: l) with ([c] ++ l). constructor; [|by apply IH]. constructor. cbn.
    unfold in_range. by rewrite !Z.leb_refl.
Qed.

Lemma Matches_cat r1 r2 s : Matches (Cat r1 r2) s ↔ ∃ s1 s2, s = s1 ++ s2 ∧ Matches r1 s1 ∧ Matches r2 s2.
Proof. split; [inversion 1; eauto | intros (? & ? & -> & ? & ?); by constructor]. Qed.

(** A pattern with no match that starts with [c]. *)
Lemma MatchString_head r s c : deriv c r = Never → MatchString r s = true → head (bytes_of s) ≠ Some c.
Proof.
  unfold MatchString. destruct (bytes_of s) as [|d l]; [done|]. cbn. intros Hd Hm [= ->]. rewrite Hd in Hm.
  clear Hd. induction l as [|e l IH]; [done|]. by apply IH.
Qed.

End Regex.
