(* ===== verification/Archive.v ===== *)
(** * Archive: the policy for untrusted archives

    Models [src/internal/archivesafe/archivesafe.go]: format detection, entry
    names and types, the set of paths an archive produces ([PathSet]), and the
    [Extractor] that applies limits and writes entries below one directory. The
    destination directory is a map from relative paths to nodes; it holds
    directories, files and other special nodes, but no symbolic links. *)
From S2P Require Import Prelude GoPath.

Module Archive.
Import GoPath.

(** ** Formats and entry types *)

Inductive Format : Type := TarGzip | Zip.

Definition ErrUnknownFormat : error := ESentinel "archive is neither a gzip-compressed tar nor a ZIP file".

Definition gzipMagic : byteseq := [chr 31; chr 139].
Definition zipLocalMagic : byteseq := bytes_of "PK" ++ [chr 3; chr 4].
Definition zipEmptyMagic : byteseq := bytes_of "PK" ++ [chr 5; chr 6].

Definition HasPrefix (s p : byteseq) : bool :=
  match strip_prefix p s with Some _ => true | None => false end.

Definition Sniff (prefix : byteseq) : res Format :=
  if HasPrefix prefix gzipMagic then Ok TarGzip
  else if HasPrefix prefix zipLocalMagic || HasPrefix prefix zipEmptyMagic then Ok Zip
  else Err ErrUnknownFormat.

(** [DetectReader]: [fail] tells that reading the header fails other than by
    end of input. The stream after the call still starts with the peeked bytes. *)
Definition DetectReader (content : byteseq) (fail : bool) : res (Format * byteseq) :=
  if fail then Err (EWrap "read archive header" io_err) else
  f ← Sniff (take 4 content); Ok (f, content).

Definition maxComponentBytes : nat := 255.
Definition maxPathBytes : Z := 4096.

(** ** Entry names *)

Definition backslash : ascii := chr 92.
Definition replace_backslash (s : byteseq) : byteseq :=
  (λ c, if decide (c = backslash) then slash else c) <$> s.

(** The test of one component, in the order of the loop. *)
Fixpoint check_components (cs : list byteseq) : res unit :=
  match cs with
  | [] => Ok ()
  | c :: rest =>
      if decide (c = dotdot) then Err (EMsg "entry contains path traversal") else
      if decide (maxComponentBytes < length c)%nat
      then Err (EMsg "entry has a component longer than 255 bytes") else check_components rest
  end.

Definition NormalizeName (name : string) : res string :=
  if bool_decide (name = "") then Err (EMsg "empty entry name") else
  if negb (ValidString name) || any_byte (λ c, bool_decide (c = chr 0)) name
  then Err (EMsg "entry name is not valid UTF-8 text") else
  let p := replace_backslash (bytes_of name) in
  if rooted_path p then Err (EMsg "entry has an absolute path") else
  if maxPathBytes <? Z.of_nat (length p) then Err (EMsg "entry name exceeds 4096 bytes") else
  _ ← check_components (split_bytes slash p);
  Ok (of_bytes (Clean_bytes p)).

Inductive Kind : Type := Directory | File.
#[export] Instance Kind_eq_dec : EqDecision Kind.
Proof. solve_decision. Defined.

(** [TarKind] on the type flag. *)
Definition TarKind (typeflag : ascii) : res Kind :=
  if decide (typeflag = "5"%char) then Ok Directory
  else if decide (typeflag = "0"%char ∨ typeflag = chr 0) then Ok File
  else if decide (typeflag = "2"%char ∨ typeflag = "1"%char)
  then Err (EMsg "entry is a link; links are not supported")
  else Err (EMsg "entry has unsupported type").

(** Bits of [fs.FileMode]. *)
Definition ModeDir : Z := 2 ^ 31.
Definition ModeSymlink : Z := 2 ^ 27.
Definition ModeType : Z :=
  Z.lor ModeDir (Z.lor ModeSymlink (Z.lor (2 ^ 26) (Z.lor (2 ^ 25) (Z.lor (2 ^ 24) (Z.lor (2 ^ 21) (2 ^ 19)))))).

Definition ZipKind (mode : Z) : res Kind :=
  if negb (Z.land mode ModeDir =? 0) then Ok Directory
  else if Z.land mode ModeType =? 0 then Ok File
  else if negb (Z.land mode ModeSymlink =? 0) then Err (EMsg "entry is a link; links are not supported")
  else Err (EMsg "entry is an unsupported special file").

(** ** The paths of an archive *)

Abbreviation PathSet := (gmap string Kind).

Record pathClaim := mkClaim {
  clean : string;
  kind : Kind;
  newParents : list string;
  newLeaf : bool;
  objects : Z;
  metadataBytes : Z
}.

(** What one retained path costs. *)
Definition path_cost (p : string) : Z := len p + 64.

(** The loop over the ancestors of the path; each round moves to a shorter
    path, so the length of the path bounds the rounds. *)
Fixpoint plan_parents (fuel : nat) (kinds : PathSet) (dir : string) (c : pathClaim) : res pathClaim :=
  match fuel with
  | O => Ok c
  | S n =>
      if decide (dir = ".") then Ok c else
      match kinds !! dir with
      | Some File => Err (EMsg "entry is inside a path the archive already created as a file")
      | Some Directory => Ok c
      | None => plan_parents n kinds (Dir dir)
                  (mkClaim (clean c) (kind c) (newParents c ++ [dir]) (newLeaf c) (objects c + 1)
                     (metadataBytes c + path_cost dir))
      end
  end.

Definition plan (kinds : PathSet) (name : string) (k : Kind) : res pathClaim :=
  cl ← NormalizeName name;
  let claim := mkClaim cl k [] false 0 0 in
  if decide (cl = ".") then
    if decide (k = Directory) then Ok claim
    else Err (EMsg "entry names the archive root as a file")
  else
    claim ← plan_parents (String.length cl) kinds (Dir cl) claim;
    match kinds !! cl with
    | None => Ok (mkClaim cl k (newParents claim) true (objects claim + 1) (metadataBytes claim + path_cost cl))
    | Some existing =>
        if decide (existing = Directory ∧ k = Directory) then Ok claim
        else Err (EMsg "entry collides with an earlier entry")
    end.

Definition commit (claim : pathClaim) (kinds : PathSet) : PathSet :=
  let kinds := foldl (λ m d, <[d := Directory]> m) kinds (newParents claim) in
  if newLeaf claim then <[clean claim := kind claim]> kinds else kinds.

Definition ClaimWithStats (kinds : PathSet) (name : string) (k : Kind) : res (string * Z * Z) * PathSet :=
  match plan kinds name k with
  | Err e => (Err e, kinds)
  | Ok c => (Ok (clean c, objects c, metadataBytes c), commit c kinds)
  end.

Definition Claim (kinds : PathSet) (name : string) (k : Kind) : res string * PathSet :=
  match ClaimWithStats kinds name k with
  | (Ok (cl, _, _), m) => (Ok cl, m)
  | (Err e, m) => (Err e, m)
  end.

(** ** The extractor *)

Record ExtractorLimits := mkLimits {
  MaxEntries : Z; MaxPathMetadataBytes : Z; MaxPathComponents : Z
}.

(** The destination directory. *)
Inductive Node : Type :=
  | NDir (mode : Z)
  | NFile (content : byteseq) (mode : Z)
  | NSpecial.
Abbreviation Tree := (gmap string Node).

Record Extractor := mkExtractor {
  root : Tree;
  paths : PathSet;
  limits : ExtractorLimits;
  entries : Z;
  pathMetadataBytes : Z;
  archiveObjects : Z;
  ParentMode : Z
}.

(** [OpenExtractorWithLimits] on a directory that holds [t]. *)
Definition OpenExtractorWithLimits (t : Tree) (lim : ExtractorLimits) : Extractor :=
  mkExtractor t ∅ lim 0 0 0 448.
Definition OpenExtractor (t : Tree) : Extractor := OpenExtractorWithLimits t (mkLimits 0 0 0).

(** [strings.Count(clean, "/") + 1]. *)
Definition components (cl : string) : Z :=
  if decide (cl = ".") then 0 else Z.of_nat (length (filter (λ c, c = slash) (bytes_of cl))) + 1.

Definition claim (x : Extractor) (name : string) (k : Kind) (archiveEntry : bool) : res string * Extractor :=
  if archiveEntry && (0 <? MaxEntries (limits x)) && (MaxEntries (limits x) <=? entries x)
  then (Err (EMsg "archive entry limit exceeded"), x) else
  match plan (paths x) name k with
  | Err e => (Err e, x)
  | Ok c =>
      if (0 <? MaxPathComponents (limits x)) && (MaxPathComponents (limits x) <? components (clean c))
      then (Err (EMsg "archive path has too many components"), x) else
      if (0 <? MaxPathMetadataBytes (limits x)) &&
         (MaxPathMetadataBytes (limits x) - pathMetadataBytes x <? metadataBytes c)
      then (Err (EMsg "archive path metadata limit exceeded"), x) else
      (Ok (clean c),
       mkExtractor (root x) (commit c (paths x)) (limits x)
         (if archiveEntry then entries x + 1 else entries x)
         (pathMetadataBytes x + metadataBytes c)
         (if archiveEntry then archiveObjects x + objects c else archiveObjects x) (ParentMode x))
  end.

Definition Reserve (x : Extractor) (name : string) : option error * Extractor :=
  match claim x name File false with
  | (Ok _, x') => (None, x')
  | (Err e, x') => (Some e, x')
  end.

Definition CreatedObjects (x : Extractor) : Z := archiveObjects x.

(** ** Writing entries *)

Definition set_root (x : Extractor) (t : Tree) : Extractor :=
  mkExtractor t (paths x) (limits x) (entries x) (pathMetadataBytes x) (archiveObjects x) (ParentMode x).

(** The path and its ancestors, from the top. *)
Definition prefixes (p : string) : list string :=
  let cs := split_bytes slash (bytes_of p) in
  (λ n, path_of (take (S n) cs)) <$> seq 0 (length cs).

(** [Root.MkdirAll]: creates the missing directories from the top and stops at
    the first failure ([f i]: creating the [i]-th fails). *)
Fixpoint mkdir_all (f : nat → bool) (mode : Z) (ps : list string) (t : Tree) : option error * Tree :=
  match ps with
  | [] => (None, t)
  | p :: rest =>
      match t !! p with
      | Some (NDir _) => mkdir_all (λ i, f (S i)) mode rest t
      | Some _ => (Some (EMsg "not a directory"), t)
      | None => if f 0%nat then (Some io_err, t)
                else mkdir_all (λ i, f (S i)) mode rest (<[p := NDir mode]> t)
      end
  end.

(** [mode.Perm()]. *)
Definition Perm (mode : Z) : Z := Z.land mode 511.

(** [Dir]; fault 0: open, 1: stat, 2: chmod, 3: close, [4+i]: making the [i]-th
    directory. *)
Definition DirEntry (e : Env) (x : Extractor) (name : string) (mode : Z) : res string * Extractor :=
  match claim x name Directory true with
  | (Err err, x') => (Err err, x')
  | (Ok cl, x') =>
      if decide (cl = ".") then (Ok cl, x') else
      match mkdir_all (λ i, fault e (4 + i)%nat) (ParentMode x') (prefixes cl) (root x') with
      | (Some err, t) => (Err (EWrap "create directory" err), set_root x' t)
      | (None, t) =>
          if fault e 0 then (Err (EWrap "open directory" io_err), set_root x' t) else
          if fault e 1 then (Err (EWrap "inspect directory" io_err), set_root x' t) else
          match t !! cl with
          | Some (NDir _) =>
              if fault e 2 then (Err (EWrap "set permissions" io_err), set_root x' t) else
              let x'' := set_root x' (<[cl := NDir (Perm mode)]> t) in
              if fault e 3 then (Err (EWrap "close directory" io_err), x'') else (Ok cl, x'')
          | _ => (Err (EMsg "entry is not a directory"), set_root x' t)
          end
      end
  end.

(** [io.Copy(out, io.LimitReader(src, size+1))]: at most [size+1] bytes of the
    source; [cut]: the copy fails after that many bytes. *)
Definition copy_limited (src : byteseq) (cut : option nat) (size : Z) : byteseq * bool :=
  let all := take (Z.to_nat (size + 1)) src in
  match cut with
  | Some k => if decide (k < length all)%nat then (take k all, true) else (all, false)
  | None => (all, false)
  end.

(** [File]; fault 0: create, 1: chmod, 2: close, [4+i]: making the [i]-th parent. *)
Definition FileEntry (e : Env) (x : Extractor) (name : string) (mode : Z) (src : byteseq)
    (cut : option nat) (size : Z) : res string * Z * Extractor :=
  if size <? 0 then (Err (EMsg "entry has a negative size"), 0, x) else
  match claim x name File true with
  | (Err err, x') => (Err err, 0, x')
  | (Ok cl, x') =>
      let parent := Dir cl in
      match (if decide (parent = ".") then (None, root x')
             else mkdir_all (λ i, fault e (4 + i)%nat) (ParentMode x') (prefixes parent) (root x')) with
      | (Some err, t) => (Err (EWrap "create parent" err), 0, set_root x' t)
      | (None, t) =>
          match t !! cl with
          | Some _ => (Err (EWrap "create" (EMsg "file exists")), 0, set_root x' t)
          | None =>
              if fault e 0 then (Err (EWrap "create" io_err), 0, set_root x' t) else
              let '(content, copyErr) := copy_limited src cut size in
              let written := Z.of_nat (length content) in
              let good := negb copyErr && (written =? size) in
              let mode' := if good && negb (fault e 1) then Perm mode else 384 in
              let x'' := set_root x' (<[cl := NFile content mode']> t) in
              if copyErr then (Err (EWrap "write" io_err), written, x'') else
              if negb (written =? size) then (Err (EMsg "entry length differs from its header"), written, x'') else
              if fault e 1 then (Err (EWrap "set permissions" io_err), written, x'') else
              if fault e 2 then (Err (EWrap "finalize" io_err), written, x'') else
              (Ok cl, written, x'')
          end
      end
  end.

End Archive.
