(* ===== verification/ArchiveProps.v ===== *)
(** * ArchiveProps: archives cannot escape, collide or exceed their limits

    Properties of the archive policy: normalized names are canonical relative
    paths, the recorded paths always form a tree without collisions, the
    accounting of an [Extractor] is exact under every sequence of entries, and
    writing a file never replaces anything. *)
From S2P Require Import Prelude GoPath Archive.

Module ArchiveProps.
Import GoPath Archive.

(** ** Normalized names *)

Definition component_ok (c : byteseq) : Prop :=
  plain c ∧ (length c ≤ 255)%nat ∧ chr 0 ∉ c ∧ backslash ∉ c ∧ valid_utf8 c = true.

(** A canonical relative path inside the archive. *)
Definition canonical (p : string) (cs : list byteseq) : Prop :=
  cs ≠ [] ∧ p = path_of cs ∧ Forall component_ok cs.

Lemma check_components_Ok cs :
  check_components cs = Ok () ↔ Forall (λ c, c ≠ dotdot ∧ (length c ≤ 255)%nat) cs.
Proof.
  induction cs as [|c cs IH]; cbn; [by split|]. rewrite Forall_cons, <- IH.
  repeat case_decide; unfold maxComponentBytes in *; split; try done; intros; try tauto; try lia.
  split; [|done]. split; [done|lia].
Qed.

Lemma utf8_step_backslash s : utf8_step s backslash = utf8_step s slash.
Proof. by destruct s. Qed.

Lemma utf8_run_replace l : ∀ s, utf8_run s (replace_backslash l) = utf8_run s l.
Proof.
  induction l as [|c l IH]; intros s; [done|]. cbn. case_decide; [subst; rewrite utf8_step_backslash|].
  all: destruct (utf8_step s _); [apply IH|done].
Qed.

Lemma valid_utf8_replace l : valid_utf8 (replace_backslash l) = valid_utf8 l.
Proof. unfold valid_utf8. by rewrite utf8_run_replace. Qed.

Lemma no_backslash_replace l : backslash ∉ replace_backslash l.
Proof.
  unfold replace_backslash. rewrite list_elem_of_fmap. intros (c & E & _). case_decide; [done|congruence].
Qed.

Lemma replace_id l : backslash ∉ l → replace_backslash l = l.
Proof.
  induction l as [|c l IH]; [done|]. intros H. cbn. rewrite decide_False by set_solver.
  f_equal. apply IH. set_solver.
Qed.

Lemma no_nul_replace l : chr 0 ∉ l → chr 0 ∉ replace_backslash l.
Proof.
  unfold replace_backslash. rewrite list_elem_of_fmap. intros H (c & E & Hc). case_decide; [done|congruence].
Qed.

Lemma elem_join x c cs : c ∈ cs → x ∈ c → x ∈ join_bytes cs.
Proof.
  induction cs as [|d ds IH]; [set_solver|]. destruct ds as [|e es]; [set_solver|].
  rewrite join_cons by done. set_solver.
Qed.

Lemma join_elem x cs : x ∈ join_bytes cs → x = slash ∨ ∃ c, c ∈ cs ∧ x ∈ c.
Proof.
  induction cs as [|d ds IH]; [set_solver|]. destruct ds as [|e es].
  - intros Hx. right. exists d. set_solver.
  - rewrite join_cons by done. rewrite elem_of_app, elem_of_cons.
    intros [Hx|[Hx|Hx]]; [right; exists d; set_solver|by left|].
    destruct (IH Hx) as [|(c & Hc & Hxc)]; [by left|]. right. exists c. set_solver.
Qed.

Definition total_len (cs : list byteseq) : nat := sum_list_with (λ c, S (length c)) cs.

Lemma length_join cs : cs ≠ [] → S (length (join_bytes cs)) = total_len cs.
Proof.
  induction cs as [|c cs IH]; [done|]. intros _. destruct cs as [|d ds]; [cbn; lia|].
  rewrite join_cons, length_app by done. cbn [length]. rewrite IH by done. unfold total_len. cbn. lia.
Qed.

Lemma total_len_filter (P : byteseq → Prop) `{∀ c, Decision (P c)} cs : (total_len (filter P cs) ≤ total_len cs)%nat.
Proof. induction cs as [|c cs IH]; [done|]. rewrite filter_cons. unfold total_len in *. case_decide; cbn; lia. Qed.

Lemma forallb_Forall {X} (f : X → bool) l : forallb f l = true ↔ Forall (λ x, f x = true) l.
Proof. rewrite forallb_forall, List.Forall_forall. done. Qed.

Lemma NormalizeName_components name cl :
  NormalizeName name = Ok cl →
  cl = "." ∨ ∃ cs, canonical cl cs ∧ len cl ≤ 4096.
Proof.
  unfold NormalizeName, ValidString. intros E. case_if; [done|]. case_if; [done|].
  apply orb_false_iff in Heqb0 as [Hv Hnul]. apply negb_false_iff in Hv.
  set (p := replace_backslash (bytes_of name)) in *. case_if; [done|]. case_if; [done|].
  apply bind_Ok in E as ([] & Hc%check_components_Ok & E). apply (inj Ok) in E.
  assert (valid_utf8 p = true) as Hvp by (unfold p; by rewrite valid_utf8_replace).
  assert (chr 0 ∉ p) as Hnp.
  { apply no_nul_replace. intros Hin. unfold any_byte in Hnul. rewrite existsb_false_elem in Hnul.
    specialize (Hnul _ Hin). by rewrite bool_decide_true in Hnul. }
  assert (backslash ∉ p) as Hbp by apply no_backslash_replace.
  pose proof (split_bytes_no_sep slash p) as Hs. pose proof (join_split p) as Hj.
  rewrite <- Hj in Hvp, Hnp, Hbp. rewrite valid_utf8_join in Hvp by apply split_bytes_nonempty.
  apply forallb_Forall in Hvp. rewrite <- E.
  unfold Clean_bytes, clean_comps. rewrite Heqb0.
  rewrite clean_fold_named by (eapply Forall_impl; [exact Hc|by intros ? []]).
  rewrite app_nil_r, reverse_involutive. set (cs := filter named (split_bytes slash p)).
  destruct (decide (cs = [])) as [->|Hne]; [by left|]. right. exists cs.
  assert (Forall component_ok cs) as Hok.
  { rewrite Forall_forall in Hc, Hs, Hvp |- *. intros c [[Hn1 Hn2] Hin]%list_elem_of_filter.
    destruct (Hc c Hin). unfold component_ok, plain. split_and!; try done; auto.
    - intros Hx. by apply Hnp, (elem_join _ c).
    - intros Hx. by apply Hbp, (elem_join _ c). }
  assert (join_bytes cs ≠ []) as Hjn.
  { apply join_plain_nonempty; [done|]. eapply Forall_impl; [exact Hok|]. by intros c []. }
  replace (match _ with [] => dot | _ => _ end) with (join_bytes cs) by (cbn; by destruct (join_bytes cs)).
  split; [by split|]. unfold len. rewrite <- length_bytes_of, bytes_of_of. apply Z.ltb_ge in Heqb1.
  unfold maxPathBytes in *. pose proof (length_join cs Hne).
  pose proof (length_join (split_bytes slash p) (split_bytes_nonempty _ _)).
  rewrite Hj in *. pose proof (total_len_filter named (split_bytes slash p)). unfold cs in *. lia.
Qed.

Lemma NormalizeName_fixed cs :
  cs ≠ [] → Forall component_ok cs → len (path_of cs) ≤ 4096 → NormalizeName (path_of cs) = Ok (path_of cs).
Proof.
  intros Hne Hok Hlen.
  assert (Forall plain cs) as Hp by (eapply Forall_impl; [exact Hok|]; by intros c []).
  unfold NormalizeName, ValidString, path_of in *. rewrite bytes_of_of.
  assert (Hnn : join_bytes cs ≠ []) by (by apply join_plain_nonempty).
  rewrite bool_decide_false by (intros E; apply (f_equal bytes_of) in E; by rewrite bytes_of_of in E).
  assert (valid_utf8 (join_bytes cs) = true) as ->.
  { rewrite valid_utf8_join by done. apply forallb_Forall. eapply Forall_impl; [exact Hok|].
    intros c H. apply H. }
  unfold any_byte. rewrite bytes_of_of. rewrite Forall_forall in Hok.
  assert (existsb (λ c, bool_decide (c = chr 0)) (join_bytes cs) = false) as ->.
  { apply existsb_false_elem. intros x Hx. apply bool_decide_false. intros ->.
    destruct (join_elem _ _ Hx) as [E0|(c & Hc & Hxc)]; [by vm_compute in E0|]. by destruct (Hok c Hc) as (_ & _ & ? & ? & _). }
  cbn [negb orb]. rewrite replace_id.
  2: { intros Hx. destruct (join_elem _ _ Hx) as [E0|(c & Hc & Hxc)]; [by vm_compute in E0|]. by destruct (Hok c Hc) as (_ & _ & ? & ? & _). }
  rewrite plain_not_rooted by done. unfold len in Hlen. rewrite <- length_bytes_of, bytes_of_of in Hlen.
  rewrite (proj2 (Z.ltb_ge _ _)) by (unfold maxPathBytes; lia).
  rewrite split_join by (done || by apply plain_no_slash).
  rewrite (proj2 (check_components_Ok cs)); [cbn; by rewrite Clean_plain|].
  apply Forall_forall. intros c Hc. destruct (Hok c Hc) as ((_ & _ & ? & _) & ? & _). done.
Qed.

(** A name that [NormalizeName] accepts becomes a canonical path below the
    extraction root: the root itself or a slash-joined list of components none
    of which is empty, a dot, a traversal, or contains a separator, a backslash
    or a zero byte, within the length limits; and normalizing it again gives the
    same path. *)
Theorem NormalizeName_canonical name cl :
  NormalizeName name = Ok cl →
  (cl = "." ∨ ∃ cs, canonical cl cs ∧ len cl ≤ 4096) ∧ NormalizeName cl = Ok cl.
Proof.
  intros H%NormalizeName_components. split; [done|].
  destruct H as [->|(cs & (Hne & -> & Hok) & Hlen)]; [by vm_compute|by apply NormalizeName_fixed].
Qed.

Lemma NormalizeName_canonical_witness :
  NormalizeName "a\./b//c" = Ok "a/b/c" ∧ NormalizeName "a/b/c" = Ok "a/b/c".
Proof. split; [by vm_compute|]. apply (NormalizeName_canonical "a\./b//c"). by vm_compute. Defined.

(** ** The tree of recorded paths *)

Definition is_path (p : string) : Prop := ∃ cs, cs ≠ [] ∧ Forall plain cs ∧ p = path_of cs.

(** Every recorded path is canonical and all its proper ancestors are recorded
    as directories. *)
Definition wf_paths (m : PathSet) : Prop :=
  (∀ p k, m !! p = Some k → is_path p) ∧
  ∀ cs k ds, Forall plain cs → m !! path_of cs = Some k → ds ≠ [] → ds `prefix_of` cs → ds ≠ cs →
    m !! path_of ds = Some Directory.

(** The metadata estimate of a whole set. *)
Definition total (m : PathSet) : Z := map_fold (λ p _ acc, path_cost p + acc) 0 m.

Lemma total_insert m p k : m !! p = None → total (<[p := k]> m) = path_cost p + total m.
Proof.
  intros H. apply (map_fold_insert_L (λ p _ acc, path_cost p + acc)); [intros; lia|done].
Qed.

Definition sum_cost (ps : list string) : Z := foldr (λ p acc, path_cost p + acc) 0 ps.

Lemma sum_cost_cons p ps : sum_cost (p :: ps) = path_cost p + sum_cost ps.
Proof. done. Qed.

Definition add_dirs (m : PathSet) (ps : list string) : PathSet :=
  foldl (λ m d, <[d := Directory]> m) m ps.

Lemma add_dirs_lookup ps : ∀ m p,
  add_dirs m ps !! p = if decide (p ∈ ps) then Some Directory else m !! p.
Proof.
  unfold add_dirs. induction ps as [|q ps IH]; intros m p; cbn; [by rewrite decide_False by set_solver|].
  rewrite IH, lookup_insert. repeat case_decide; set_solver.
Qed.

Lemma add_dirs_stats ps : ∀ m, NoDup ps → (∀ p, p ∈ ps → m !! p = None) →
  total (add_dirs m ps) = total m + sum_cost ps ∧
  size (add_dirs m ps) = (size m + length ps)%nat.
Proof.
  unfold add_dirs. induction ps as [|q ps IH]; intros m Hd Hn; cbn [foldl length]; [cbn; lia|].
  rewrite sum_cost_cons. apply NoDup_cons in Hd as [Hq Hd]. assert (m !! q = None) as Hmq by (apply Hn; set_solver).
  destruct (IH (<[q := Directory]> m)) as [-> ->]; [done| |].
  - intros p Hp. rewrite lookup_insert_ne by set_solver. apply Hn. set_solver.
  - rewrite total_insert, map_size_insert_None by done. lia.
Qed.

Lemma prefix_snoc_cases {X} (ds cs : list X) c : ds `prefix_of` cs ++ [c] → ds = cs ++ [c] ∨ ds `prefix_of` cs.
Proof.
  intros [l E]. destruct (decide (l = [])) as [->|Hl].
  - left. by rewrite app_nil_r in E.
  - right. destruct (exists_last Hl) as (l' & x & ->). rewrite app_assoc in E.
    apply app_inj_tail in E as [-> _]. by exists l'.
Qed.

Definition pdir (cs : list byteseq) : string := match cs with [] => "." | _ => path_of cs end.

Lemma Dir_snoc cs c : Forall plain (cs ++ [c]) → Dir (path_of (cs ++ [c])) = pdir cs.
Proof. apply Dir_path_of. Qed.

(** What the loop over the ancestors finds: exactly the unrecorded ones. *)
Definition missing (m : PathSet) (cs : list byteseq) (p : string) : Prop :=
  ∃ ds, ds ≠ [] ∧ ds `prefix_of` cs ∧ p = path_of ds ∧ m !! p = None.

Lemma prefix_plain (ds cs : list byteseq) : ds `prefix_of` cs → Forall plain cs → Forall plain ds.
Proof. intros [l ->]. by rewrite Forall_app; intros []. Qed.

Lemma plan_parents_spec m cs : ∀ fuel c c',
  wf_paths m → Forall plain cs → (length cs ≤ fuel)%nat →
  plan_parents fuel m (pdir cs) c = Ok c' →
  ∃ new, newParents c' = newParents c ++ new ∧ NoDup new ∧ (∀ p, p ∈ new ↔ missing m cs p) ∧
    (∀ ds, ds ≠ [] → ds `prefix_of` cs → m !! path_of ds ≠ Some File) ∧
    objects c' = objects c + Z.of_nat (length new) ∧ metadataBytes c' = metadataBytes c + sum_cost new ∧
    clean c' = clean c ∧ kind c' = kind c ∧ newLeaf c' = newLeaf c.
Proof.
  induction cs as [|x cs IH] using rev_ind; intros fuel c c' W P Hf.
  - assert (plan_parents fuel m (pdir []) c = Ok c) as -> by (by destruct fuel). intros [= <-].
    exists []. rewrite app_nil_r. split_and!; try done; try (cbn; lia); [by constructor| |].
    + intros p. split; [set_solver|]. intros (ds & Hn & Hp & _). by apply prefix_nil_inv in Hp.
    + intros ds Hn Hp. by apply prefix_nil_inv in Hp.
  - rewrite length_app in Hf. cbn in Hf. destruct fuel as [|fuel]; [lia|].
    assert (pdir (cs ++ [x]) = path_of (cs ++ [x])) as -> by (by destruct cs). cbn [plan_parents].
    rewrite decide_False by (by apply path_of_not_dot). pose proof (prefix_plain cs (cs ++ [x])) as Pc.
    destruct (m !! path_of (cs ++ [x])) as [[|]|] eqn:Hm; [| done |].
    + intros [= <-]. assert (∀ ds, ds ≠ [] → ds `prefix_of` cs ++ [x] → m !! path_of ds = Some Directory) as Hall.
      { intros ds Hn Hp. destruct (decide (ds = cs ++ [x])) as [->|Hne]; [done|].
        by eapply (proj2 W). }
      exists []. rewrite app_nil_r. split_and!; try done; try (cbn; lia); [by constructor| |].
      * intros p. split; [set_solver|]. intros (ds & Hn & Hp & -> & E). by rewrite Hall in E.
      * intros ds Hn Hp. by rewrite Hall.
    + rewrite Dir_snoc by done. intros E.
      apply IH in E as (new & Hnp & Hd & Hin & Hnf & Ho & Hmd & H1 & H2 & H3); [|done| |lia].
      2: { apply Pc; [by exists [x]|done]. }
      cbn in *. exists (path_of (cs ++ [x]) :: new). rewrite <- app_assoc in Hnp.
      rewrite sum_cost_cons. cbn [length]. split_and!; try done; try lia.
      * apply NoDup_cons. split; [|done]. intros (ds & Hn & Hp & E & _)%Hin.
        apply path_of_inj in E; [|by destruct cs|done|done|].
        -- subst ds. apply prefix_length in Hp. rewrite length_app in Hp. cbn in Hp. lia.
        -- eapply prefix_plain; [|exact P]. etrans; [exact Hp|by exists [x]].
      * intros p. rewrite elem_of_cons, Hin. split.
        -- intros [->|(ds & Hn & Hp & -> & Hpm)].
           ++ exists (cs ++ [x]). by split_and!; [destruct cs|..].
           ++ exists ds. split_and!; try done. etrans; [exact Hp|by exists [x]].
        -- intros (ds & Hn & [->|Hp]%prefix_snoc_cases & -> & Hpm); [by left|]. right. by exists ds.
      * intros ds Hn [->|Hp]%prefix_snoc_cases; [by rewrite Hm|by apply Hnf].
Qed.

(** Recording a path with its missing ancestors keeps the tree. *)
Lemma add_dirs_wf m cs new :
  wf_paths m → Forall plain cs → (∀ p, p ∈ new ↔ missing m cs p) →
  (∀ ds, ds ≠ [] → ds `prefix_of` cs → m !! path_of ds ≠ Some File) →
  wf_paths (add_dirs m new) ∧
  (∀ ds, ds ≠ [] → ds `prefix_of` cs → add_dirs m new !! path_of ds = Some Directory).
Proof.
  intros [W1 W2] P Hin Hnf.
  assert (∀ ds, ds ≠ [] → ds `prefix_of` cs → add_dirs m new !! path_of ds = Some Directory) as Hanc.
  { intros ds Hn Hp. rewrite add_dirs_lookup. case_decide as Hc; [done|].
    destruct (m !! path_of ds) as [[|]|] eqn:E; [done|by apply Hnf in E|].
    exfalso. apply Hc, Hin. by exists ds. }
  split; [|done]. split.
  - intros p k. rewrite add_dirs_lookup. case_decide as Hc; [|by eauto].
    intros _. apply Hin in Hc as (ds & Hn & Hp & -> & _). exists ds. split_and!; try done.
    by eapply prefix_plain.
  - intros es k ds Pe He Hn Hp Hne. rewrite add_dirs_lookup in He. case_decide as Hc.
    + apply Hin in Hc as (fs & Hfn & Hfp & E & _). apply path_of_inj in E; try done.
      * subst fs. apply Hanc; [done|]. by etrans.
      * intros ->. apply Hn. by apply prefix_nil_inv in Hp.
      * by eapply prefix_plain.
    + rewrite add_dirs_lookup. case_decide; [done|]. by eapply W2.
Qed.

(** What an admitted claim does to the set. *)
Record claim_effect (m m' : PathSet) (c : pathClaim) : Prop := {
  ce_wf : wf_paths m';
  ce_mono : m ⊆ m';
  ce_here : clean c ≠ "." → m' !! clean c = Some (kind c) ∧ ∃ cs, canonical (clean c) cs;
  ce_file : kind c = File → clean c ≠ "." ∧ m !! clean c = None;
  ce_new : ∀ p, m' !! p ≠ None → m !! p = None →
             ∃ ds cs, canonical (clean c) cs ∧ ds ≠ [] ∧ ds `prefix_of` cs ∧ p = path_of ds;
  ce_size : Z.of_nat (size m') = Z.of_nat (size m) + objects c;
  ce_total : total m' = total m + metadataBytes c
}.

Lemma canonical_plain p cs : canonical p cs → Forall plain cs.
Proof. intros (_ & _ & H). eapply Forall_impl; [exact H|]. by intros c []. Qed.

Lemma prefix_snoc {X} (ds es : list X) x : es `prefix_of` ds → es `prefix_of` ds ++ [x].
Proof. intros H. etrans; [exact H|by exists [x]]. Qed.

Lemma snoc_plain ds x : Forall plain (ds ++ [x]) → Forall plain ds.
Proof. by intros [? _]%Forall_app. Qed.

(** The loop has at least as much fuel as ancestors. *)
Lemma plan_fuel ds x : Forall plain (ds ++ [x]) → (length ds ≤ String.length (path_of (ds ++ [x])))%nat.
Proof.
  intros P. rewrite <- length_bytes_of. unfold path_of. rewrite bytes_of_of.
  pose proof (length_join (ds ++ [x]) ltac:(by destruct ds)) as Hlen.
  assert (∀ l, Forall plain l → (2 * length l ≤ total_len l)%nat) as Htl.
  { intros l. induction 1 as [|y l (Hy & _) _ IH]; [done|]. unfold total_len in *. cbn.
    destruct y; [done|]. cbn. lia. }
  specialize (Htl _ P). rewrite length_app in Htl. cbn in Htl. lia.
Qed.

Lemma missing_not_leaf m ds x p : Forall plain (ds ++ [x]) → missing m ds p → p ≠ path_of (ds ++ [x]).
Proof.
  intros P (es & Hen & Hep & -> & _) Eq. apply path_of_inj in Eq; [|done|by destruct ds| |done].
  - subst es. apply prefix_length in Hep. rewrite length_app in Hep. cbn in Hep. lia.
  - eapply prefix_plain; [|exact P]. by apply prefix_snoc.
Qed.

Lemma insert_leaf_wf m ds x k :
  wf_paths m → Forall plain (ds ++ [x]) → m !! path_of (ds ++ [x]) = None →
  (∀ es, es ≠ [] → es `prefix_of` ds → m !! path_of es = Some Directory) →
  wf_paths (<[path_of (ds ++ [x]) := k]> m).
Proof.
  intros W P Hnone Hanc. assert (ds ++ [x] ≠ []) as Hne by (by destruct ds). split.
  - intros p k' [[-> ->]|[_ Hp]]%insert_cases; [by exists (ds ++ [x])|by apply (proj1 W p k')].
  - intros es k' fs Pe He Hfn Hfp Hfne. apply insert_cases in He as [[Eq _]|[_ He]].
    + apply path_of_inj in Eq; [|by intros ->; apply Hfn; apply prefix_nil_inv in Hfp|done|done|done].
      subst es. apply prefix_snoc_cases in Hfp as [->|Hfp]; [done|].
      pose proof (Hanc fs Hfn Hfp) as Hd. rewrite lookup_insert_ne; [done|].
      intros Eq. by rewrite Eq, Hd in Hnone.
    + pose proof (proj2 W es k' fs Pe He Hfn Hfp Hfne) as Hd. rewrite lookup_insert_ne; [done|].
      intros Eq. by rewrite Eq, Hd in Hnone.
Qed.

(** Recording the missing ancestors of a leaf. *)
Lemma parents_effect m ds x new :
  wf_paths m → Forall plain (ds ++ [x]) → NoDup new → (∀ p, p ∈ new ↔ missing m ds p) →
  (∀ es, es ≠ [] → es `prefix_of` ds → m !! path_of es ≠ Some File) →
  let m1 := add_dirs m new in
  wf_paths m1 ∧ (∀ es, es ≠ [] → es `prefix_of` ds → m1 !! path_of es = Some Directory) ∧
  m ⊆ m1 ∧ m1 !! path_of (ds ++ [x]) = m !! path_of (ds ++ [x]) ∧
  total m1 = total m + sum_cost new ∧ size m1 = (size m + length new)%nat ∧
  (∀ p, m1 !! p ≠ None → m !! p = None → ∃ es, es ≠ [] ∧ es `prefix_of` ds ++ [x] ∧ p = path_of es).
Proof.
  intros W P Hd Hin Hnf m1. destruct (add_dirs_wf m ds new W (snoc_plain _ _ P) Hin Hnf) as [Wd Hanc].
  assert (∀ p, p ∈ new → m !! p = None) as Hnew by (by intros p (? & ? & ? & ? & ?)%Hin).
  destruct (add_dirs_stats new m Hd Hnew) as [Ht Hs]. split_and!; try done.
  - apply map_subseteq_spec. intros p k' Hp. unfold m1. rewrite add_dirs_lookup.
    case_decide as Hx; [|done]. by rewrite (Hnew p Hx) in Hp.
  - unfold m1. rewrite add_dirs_lookup, decide_False; [done|]. intros Hx%Hin.
    by apply (missing_not_leaf m ds x) in Hx.
  - intros p Hp Hpm. unfold m1 in Hp. rewrite add_dirs_lookup in Hp. case_decide as Hx; [|congruence].
    apply Hin in Hx as (es & Hen & Hep & -> & _). exists es. split_and!; [done|by apply prefix_snoc|done].
Qed.

Lemma plan_effect m name k c :
  wf_paths m → plan m name k = Ok c → kind c = k ∧ claim_effect m (commit c m) c.
Proof.
  intros W. unfold plan. intros (cl & Hn & E)%bind_Ok. destruct (decide (cl = ".")) as [->|Hdot].
  { destruct (decide (k = Directory)) as [->|]; [|done]. injection E as <-. split; [done|].
    by split; cbn; try done; lia. }
  apply NormalizeName_components in Hn as [?|(cs & Hcan & _)]; [done|].
  pose proof (canonical_plain _ _ Hcan) as P. pose proof Hcan as (Hne & Hcl & _).
  destruct (exists_last Hne) as (ds & x & Ecs). rewrite Ecs in P, Hcl.
  apply bind_Ok in E as (c1 & E1 & E). rewrite Hcl in E1 at 1 2. rewrite Dir_snoc in E1 by done.
  apply plan_parents_spec in E1 as (new & Hnp & Hd & Hin & Hnf & Ho & Hm & Hc1 & Hk1 & Hl1);
    [|done|by eapply snoc_plain|by apply plan_fuel].
  cbn in Hnp, Ho, Hm, Hc1, Hk1, Hl1.
  destruct (parents_effect m ds x new W P Hd Hin Hnf) as (Wd & Hanc & Hsub & Hleaf & Ht & Hs & Hnewp).
  rewrite <- Ecs, <- Hcl in *.
  destruct (m !! cl) as [existing|] eqn:Hmcl.
  - destruct (decide _) as [[-> ->]|]; [|done]. injection E as <-. split; [done|].
    unfold commit. rewrite Hl1, Hnp. change (foldl _ m new) with (add_dirs m new).
    split; rewrite ?Hc1, ?Hk1, ?Ho, ?Hm; try done; try lia.
    + intros _. split; [exact Hleaf|by exists cs].
    + intros p Hp Hpm. destruct (Hnewp p Hp Hpm) as (es & He). exists es, cs. split; [done|apply He].
  - injection E as <-. split; [done|]. unfold commit. cbn [newLeaf newParents clean kind objects metadataBytes].
    rewrite Hnp. change (foldl _ m new) with (add_dirs m new).
    split; cbn [newLeaf newParents clean kind objects metadataBytes].
    + rewrite Hcl, Ecs. apply insert_leaf_wf; rewrite <- ?Ecs, <- ?Hcl; done.
    + etrans; [exact Hsub|]. by apply insert_subseteq.
    + intros _. rewrite lookup_insert_eq. split; [done|by exists cs].
    + done.
    + intros p Hp Hpm. destruct (decide (p = cl)) as [->|Hpc]; [by exists cs, cs|].
      rewrite lookup_insert_ne in Hp by done. destruct (Hnewp p Hp Hpm) as (es & He).
      exists es, cs. split; [done|apply He].
    + rewrite map_size_insert_None, Hs by done. lia.
    + rewrite total_insert by done. lia.
Qed.

(** The set of recorded paths stays a tree. A successful claim keeps every
    earlier entry, records its path with the claimed kind below directories
    only, never lets a file take a path that is already recorded, and reports
    exactly the number of new paths and their metadata. *)
Theorem ClaimWithStats_tree m name k cl n b m' :
  wf_paths m → ClaimWithStats m name k = (Ok (cl, n, b), m') →
  wf_paths m' ∧ m ⊆ m' ∧ (cl ≠ "." → m' !! cl = Some k) ∧ (k = File → m !! cl = None) ∧
  Z.of_nat (size m') = Z.of_nat (size m) + n ∧ total m' = total m + b.
Proof.
  unfold ClaimWithStats. intros W E. destruct (plan m name k) as [c|] eqn:Hp; [|done].
  injection E as <- <- <- <-. destruct (plan_effect m name k c W Hp) as [<- []].
  split_and!; try done.
  - intros Hd. by destruct (ce_here0 Hd).
  - intros Hf. by destruct (ce_file0 Hf).
Qed.

Definition demo_paths : PathSet := (ClaimWithStats ∅ "site/index.php" File).2.
Lemma wf_empty : wf_paths ∅.
Proof. by split; intros *; rewrite ?lookup_empty. Qed.

Lemma ClaimWithStats_tree_witness : Z.of_nat (size demo_paths) = 0 + 2.
Proof.
  destruct (ClaimWithStats_tree ∅ "site/index.php" File "site/index.php" 2 146 demo_paths) as (_ & _ & _ & _ & H & _);
    [apply wf_empty|by vm_compute|exact H].
Defined.

(** ** Sequences of entries *)

Inductive Entry : Type :=
  | EReserve (name : string)
  | EDir (e : Env) (name : string) (mode : Z)
  | EFile (e : Env) (name : string) (mode : Z) (src : byteseq) (cut : option nat) (size : Z).

Definition extract (x : Extractor) (en : Entry) : Extractor :=
  match en with
  | EReserve name => (Reserve x name).2
  | EDir e name mode => (DirEntry e x name mode).2
  | EFile e name mode src cut size => (FileEntry e x name mode src cut size).2
  end.

Record extractor_inv (x : Extractor) : Prop := {
  xi_wf : wf_paths (paths x);
  xi_metadata : pathMetadataBytes x = total (paths x);
  xi_objects : 0 ≤ archiveObjects x ≤ Z.of_nat (size (paths x));
  xi_entries : 0 < MaxEntries (limits x) → entries x ≤ MaxEntries (limits x);
  xi_max_metadata : 0 < MaxPathMetadataBytes (limits x) → pathMetadataBytes x ≤ MaxPathMetadataBytes (limits x);
  xi_depth : ∀ p, 0 < MaxPathComponents (limits x) → paths x !! p ≠ None →
               components p ≤ MaxPathComponents (limits x)
}.

Lemma count_slash_join cs :
  cs ≠ [] → Forall plain cs → S (length (filter (λ c, c = slash) (join_bytes cs))) = length cs.
Proof.
  assert (∀ c, plain c → filter (λ c, c = slash) c = []) as Hnone.
  { intros c (_ & _ & _ & Hs). apply elem_of_nil_inv. by intros y [-> Hy]%list_elem_of_filter. }
  intros Hne H. induction H as [|c cs Hc H IH]; [done|]. destruct cs as [|d ds].
  - change (join_bytes [c]) with c. by rewrite Hnone.
  - rewrite join_cons, filter_app, filter_cons, decide_True, Hnone, app_nil_l by done.
    cbn [length] in *. by rewrite IH.
Qed.

Lemma components_path_of cs : cs ≠ [] → Forall plain cs → components (path_of cs) = Z.of_nat (length cs).
Proof.
  intros Hne H. unfold components. rewrite decide_False by (by apply path_of_not_dot).
  unfold path_of. rewrite bytes_of_of. rewrite <- (count_slash_join cs) by done. lia.
Qed.

Lemma claim_inv x name k entry :
  extractor_inv x → extractor_inv (claim x name k entry).2 ∧
  root (claim x name k entry).2 = root x ∧ limits (claim x name k entry).2 = limits x.
Proof.
  intros I. unfold claim. case_if; [done|]. destruct (plan (paths x) name k) as [c|] eqn:Hp; [|done].
  case_if; [done|]. case_if; [done|]. cbn. split; [|done].
  destruct (plan_effect _ _ _ _ (xi_wf x I) Hp) as [Hk CE]. destruct CE as [W M _ _ N S T].
  pose proof (xi_objects x I). pose proof (xi_metadata x I). pose proof (xi_entries x I).
  assert (0 ≤ objects c) as Ho by (apply map_subseteq_size in M; lia).
  split; cbn.
  - done.
  - lia.
  - destruct entry; lia.
  - intros Hm. specialize (H1 Hm). apply andb_false_iff in Heqb.
    destruct entry; [|done]. rewrite andb_false_iff, Z.ltb_ge, Z.leb_gt in Heqb. cbn in Heqb. lia.
  - intros Hm. rewrite andb_false_iff, !Z.ltb_ge in Heqb1. lia.
  - intros p Hm Hpn. rewrite andb_false_iff, !Z.ltb_ge in Heqb0.
    destruct (paths x !! p) eqn:E; [apply (xi_depth x I); congruence|].
    destruct (N p Hpn E) as (ds & cs & Hcan & Hn & Hpre & ->). pose proof (canonical_plain _ _ Hcan) as P.
    destruct Hcan as (Hne & Hcl & _). rewrite Hcl in Heqb0.
    rewrite components_path_of in * by (done || by eapply prefix_plain).
    apply prefix_length in Hpre. lia.
Qed.

(** Only the claim touches the accounting. *)
Lemma inv_set_root x t : extractor_inv x → extractor_inv (set_root x t).
Proof. by intros []. Qed.

Lemma extract_inv x en : extractor_inv x → extractor_inv (extract x en) ∧ limits (extract x en) = limits x.
Proof.
  intros I. destruct en as [name|e name mode|e name mode src cut size]; cbn [extract].
  - unfold Reserve. destruct (claim_inv x name File false I) as (I' & _ & L).
    by destruct (claim x name File false) as [[] x'].
  - unfold DirEntry. destruct (claim_inv x name Directory true I) as (I' & _ & L).
    destruct (claim x name Directory true) as [[cl|] x']; [|done]. cbn in I', L.
    repeat (case_match || case_if); split; try apply inv_set_root; done.
  - unfold FileEntry. destruct (claim_inv x name File true I) as (I' & _ & L). case_if; [done|].
    destruct (claim x name File true) as [[cl|] x']; [|done]. cbn in I', L. cbn zeta.
    destruct (if decide (Dir cl = ".") then _ else _) as [[err|] t]; [split; [by apply inv_set_root|done]|].
    destruct (t !! cl); [split; [by apply inv_set_root|done]|].
    case_if; [split; [by apply inv_set_root|done]|]. destruct (copy_limited src cut size) as [content copyErr].
    repeat case_if; split; try apply inv_set_root; done.
Qed.

(** The accounting of an extractor is exact and its limits hold after
    every sequence of reservations, directories and files, failed ones
    included: the metadata counter is the cost of the recorded paths, the
    object counter does not exceed their number, the entry and metadata
    counters stay within their limits, and no recorded path is deeper than
    allowed. *)
Theorem extractor_limits_hold t lim entries_ :
  let x := foldl extract (OpenExtractorWithLimits t lim) entries_ in
  extractor_inv x ∧ limits x = lim.
Proof.
  assert (extractor_inv (OpenExtractorWithLimits t lim)) as I0.
  { split; cbn; try done; lia. }
  assert (∀ es x, extractor_inv x → extractor_inv (foldl extract x es) ∧ limits (foldl extract x es) = limits x) as Hall.
  { induction es as [|en es IH]; intros x I; [done|]. cbn [foldl].
    destruct (extract_inv x en I) as [I' L]. destruct (IH _ I') as [? ->]. done. }
  apply (Hall entries_ _ I0).
Qed.

(** ** Writing files *)

Lemma mkdir_all_mono mode ps : ∀ f t, t ⊆ (mkdir_all f mode ps t).2.
Proof.
  induction ps as [|p ps IH]; intros f t; cbn; [done|].
  destruct (t !! p) as [[]|] eqn:E; [apply IH|done|done|]. destruct (f 0%nat); [done|].
  etrans; [|apply IH]. by apply insert_subseteq.
Qed.

Lemma claim_root x name k entry : root (claim x name k entry).2 = root x.
Proof. unfold claim. repeat (case_if || case_match); done. Qed.

Lemma copy_limited_exact src cut size content :
  0 ≤ size → copy_limited src cut size = (content, false) → Z.of_nat (length content) = size → content = src.
Proof.
  intros Hs. unfold copy_limited. intros E Hl.
  assert (take (Z.to_nat (size + 1)) src = content) as <-.
  { destruct cut as [k|]; [case_decide|]; by injection E. }
  rewrite length_take in Hl. rewrite take_ge; [done|]. lia.
Qed.

(** [File] never replaces anything: every node that existed before is
    still there unchanged, whether it succeeds or fails; and a success creates,
    at a path that did not exist, a file whose content is exactly the declared
    number of bytes of the entry, with its permission bits. *)
Theorem FileEntry_never_overwrites e x name mode src cut size out n x' :
  FileEntry e x name mode src cut size = (out, n, x') →
  root x ⊆ root x' ∧
  match out with
  | Ok cl => root x !! cl = None ∧ root x' !! cl = Some (NFile src (Perm mode)) ∧
             Z.of_nat (length src) = size ∧ n = size
  | Err _ => True
  end.
Proof.
  unfold FileEntry. intros E. case_if; [by simplify_eq|]. apply Z.ltb_ge in Heqb.
  pose proof (claim_root x name File true) as Hr.
  destruct (claim x name File true) as [[cl|err] x1]; cbn in Hr; [|simplify_eq; by rewrite Hr].
  cbn zeta in E. match type of E with context [if decide (Dir cl = ".") then ?a else ?b] =>
    assert (root x ⊆ (if decide (Dir cl = ".") then a else b).2) as Hsub
      by (rewrite <- Hr; case_decide; [done|apply mkdir_all_mono]) end.
  destruct (if decide (Dir cl = ".") then _ else _) as [[err|] t]; [by simplify_eq|]. cbn in Hsub.
  destruct (t !! cl) eqn:Hcl; [by simplify_eq|]. case_if; [by simplify_eq|].
  destruct (copy_limited src cut size) as [content copyErr] eqn:Hc.
  assert (∀ nd, root x ⊆ <[cl := nd]> t) as Hins by (intros; etrans; [exact Hsub|by apply insert_subseteq]).
  destruct copyErr; cbn [negb andb] in E; [simplify_eq; split; [apply Hins|done]|].
  destruct (Z.eqb_spec (Z.of_nat (length content)) size) as [Hl|]; cbn [negb andb] in E;
    [|simplify_eq; split; [apply Hins|done]].
  destruct (fault e 1); [simplify_eq; split; [apply Hins|done]|].
  destruct (fault e 2); [simplify_eq; split; [apply Hins|done]|].
  injection E as <- <- <-. split; [apply Hins|]. pose proof (copy_limited_exact _ _ _ _ Heqb Hc Hl) as ->.
  split_and!; [|by cbn; rewrite lookup_insert_eq|done|done].
  destruct (root x !! cl) eqn:Hx; [|done]. by rewrite (lookup_weaken _ _ _ _ Hx Hsub) in Hcl.
Qed.

Lemma FileEntry_never_overwrites_witness :
  let x := OpenExtractor {["old.txt" := NFile (bytes_of "keep") 384]} in
  root x ⊆ root (FileEntry (calm 0 "") x "new.txt" 420 (bytes_of "hi") None 2).2.
Proof.
  apply (FileEntry_never_overwrites (calm 0 "") (OpenExtractor {["old.txt" := NFile (bytes_of "keep") 384]})
    "new.txt" 420 (bytes_of "hi") None 2 (Ok "new.txt") 2). by vm_compute.
Defined.

End ArchiveProps.
