(* ===== verification/Capacity.v ===== *)
(** * Capacity: the ledger of promised disk space

    Models the capacity ledger of [src/upload_admission.go]: admission of a
    workflow against free space, the configured reserve and every outstanding
    promise, in memory or in the [capacity_reservations] table that panel and
    workers share; progressive admission of uploads of unknown length; and the
    growth, consumption and release of a reservation. Byte counts are [uint64]
    values kept as integers with the overflow tests of the code. Reading how
    many rows an update changed does not fail with the SQLite driver. *)
From S2P Require Import Prelude.

Module Capacity.

Definition u64_max : Z := 2 ^ 64 - 1.
Definition i64_max : Z := 2 ^ 63 - 1.

Definition saturatingAdd (a b : Z) : Z := if u64_max - b <? a then u64_max else a + b.

(** What the ledger asks the file system: the device of a path and the free
    bytes there; [None] when the call fails. *)
Record FileSystem := mkFS { filesystemDevice : string → option Z; availableBytes : string → option Z }.

Record capacityDemand := mkDemand { Path : string; Bytes : Z }.
Record deviceDemand := mkDevice { device : Z; path : string; bytes : Z }.

(** A [capacityError] is the sentinel of this class. *)
Definition capacityError : error := ESentinel "insufficient capacity".
Definition overflow_err : error := EMsg "capacity estimate overflow".

(** ** Grouping demands by file system *)

Fixpoint add_demand (dev : Z) (p : string) (n : Z) (grouped : list deviceDemand) : res (list deviceDemand) :=
  match grouped with
  | [] => Ok [mkDevice dev p n]
  | d :: rest =>
      if decide (device d = dev) then
        if u64_max - bytes d <? n then Err overflow_err
        else Ok (mkDevice (device d) (path d) (bytes d + n) :: rest)
      else rest' ← add_demand dev p n rest; Ok (d :: rest')
  end.

Fixpoint group_from (fs : FileSystem) (demands : list capacityDemand) (grouped : list deviceDemand)
    : res (list deviceDemand) :=
  match demands with
  | [] => Ok grouped
  | d :: rest =>
      match filesystemDevice fs (Path d) with
      | None => Err (EWrap "inspect capacity" io_err)
      | Some dev => g ← add_demand dev (Path d) (Bytes d) grouped; group_from fs rest g
      end
  end.

Definition groupDemands (fs : FileSystem) (demands : list capacityDemand) : res (list deviceDemand) :=
  group_from fs demands [].

(** ** State *)

(** A row of [capacity_reservations]; its key is the reservation and device. *)
Record ResRow := mkRes { row_bytes : Z; owner_pid : Z; owner_start : string }.
Abbreviation Reservations := (gmap (string * Z) ResRow).

(** [capacityLedger]; [db] is [None] for the process-local ledger. *)
Record capacityLedger := mkLedger {
  held : gmap Z Z;
  pendingReleases : gset string;
  db : option Reservations;
  ownerPID : Z;
  ownerStart : string
}.

Record capacityReservation := mkReservation {
  reserve_ : Z;
  rheld : gmap Z Z;
  stagingPath : string;
  stagingDev : Z;
  consumedSize : Z;
  id : string;
  progressive : bool;
  admitted : Z;
  limit : Z;
  step : Z;
  demandsFor : Z → list capacityDemand
}.

Definition get (m : gmap Z Z) (d : Z) : Z := default 0 (m !! d).
Definition set_held (l : capacityLedger) (m : gmap Z Z) : capacityLedger :=
  mkLedger m (pendingReleases l) (db l) (ownerPID l) (ownerStart l).
Definition set_db (l : capacityLedger) (t : Reservations) : capacityLedger :=
  mkLedger (held l) (pendingReleases l) (Some t) (ownerPID l) (ownerStart l).
Definition set_rheld (r : capacityReservation) (m : gmap Z Z) : capacityReservation :=
  mkReservation (reserve_ r) m (stagingPath r) (stagingDev r) (consumedSize r) (id r)
    (progressive r) (admitted r) (limit r) (step r) (demandsFor r).
Definition set_consumed (r : capacityReservation) (n : Z) : capacityReservation :=
  mkReservation (reserve_ r) (rheld r) (stagingPath r) (stagingDev r) n (id r)
    (progressive r) (admitted r) (limit r) (step r) (demandsFor r).
Definition set_admitted (r : capacityReservation) (n : Z) : capacityReservation :=
  mkReservation (reserve_ r) (rheld r) (stagingPath r) (stagingDev r) (consumedSize r) (id r)
    (progressive r) n (limit r) (step r) (demandsFor r).

Definition capacitySQLBytes (n : Z) : res Z :=
  if i64_max <? n then Err (EMsg "capacity reservation exceeds SQLite integer range") else Ok n.

(** [SELECT SUM(bytes) ... WHERE device=?]. *)
Definition device_sum (t : Reservations) (dev : Z) : Z :=
  map_fold (λ k r acc, (if decide (k.2 = dev) then row_bytes r else 0) + acc) 0 t.

(** [durableHeld]: a sum beyond the SQLite integer range fails. *)
Definition durableHeld (fail : bool) (t : Reservations) (dev : Z) : res Z :=
  if fail || (i64_max <? device_sum t dev) then Err (EWrap "read capacity reservations" io_err)
  else Ok (Z.max 0 (device_sum t dev)).

(** ** Admission *)

(** The test of one demand against what is outstanding on its device. *)
Definition admit_demand (fs : FileSystem) (minFree : Z) (outstanding : res Z) (d : deviceDemand) : res unit :=
  out ← outstanding;
  if (u64_max - minFree <? bytes d) || (u64_max - out <? bytes d + minFree) then Err overflow_err else
  match availableBytes fs (path d) with
  | None => Err (EWrap "inspect capacity" io_err)
  | Some free => if free <? bytes d + minFree + out then Err capacityError else Ok ()
  end.

Fixpoint admit_all (fs : FileSystem) (minFree : Z) (outstanding : Z → res Z) (grouped : list deviceDemand) : res unit :=
  match grouped with
  | [] => Ok ()
  | d :: rest => _ ← admit_demand fs minFree (outstanding (device d)) d; admit_all fs minFree outstanding rest
  end.

Definition add_held (m : gmap Z Z) (grouped : list deviceDemand) : gmap Z Z :=
  foldl (λ m d, <[device d := get m (device d) + bytes d]> m) m grouped.
Definition new_held (grouped : list deviceDemand) : gmap Z Z :=
  foldl (λ m d, <[device d := bytes d]> m) ∅ grouped.

(** The rows of an admitted reservation; a key in use fails the insert. *)
Fixpoint insert_rows (l : capacityLedger) (rid : string) (f : nat → bool) (grouped : list deviceDemand)
    (t : Reservations) : res Reservations :=
  match grouped with
  | [] => Ok t
  | d :: rest =>
      n ← capacitySQLBytes (bytes d);
      if f 0%nat then Err (EWrap "persist capacity reservation" io_err) else
      match t !! (rid, device d) with
      | Some _ => Err (EWrap "persist capacity reservation" (EMsg "UNIQUE constraint failed"))
      | None => insert_rows l rid (λ i, f (S i)) rest
                  (<[(rid, device d) := mkRes n (ownerPID l) (ownerStart l)]> t)
      end
  end.

Definition fresh_reservation (minFree : Z) (m : gmap Z Z) (rid : string) : capacityReservation :=
  mkReservation minFree m "" 0 0 rid false 0 0 0 (λ _, []).

(** [retryPendingReleasesLocked]: [failing] names the deletions that fail. *)
Definition drop_reservations (ids : gset string) (t : Reservations) : Reservations :=
  filter (λ '(k, _), k.1 ∉ ids) t.
Definition retryPendingReleases (failing : string → bool) (l : capacityLedger) : capacityLedger :=
  match db l with
  | None => l
  | Some t =>
      let done := filter (λ i, failing i = false) (pendingReleases l) in
      mkLedger (held l) (pendingReleases l ∖ done) (Some (drop_reservations done t)) (ownerPID l) (ownerStart l)
  end.

(** [admitDurable]; fault 0: begin, 1: the lock row, 2: commit, 3: the sums,
    [4+i]: the [i]-th insert. A failure rolls back. *)
Definition admitDurable (e : Env) (fs : FileSystem) (minFree : Z) (grouped : list deviceDemand) (hold : bool)
    (rid : string) (t : Reservations) (l : capacityLedger) : res capacityReservation * capacityLedger :=
  let run : res (capacityReservation * Reservations) :=
    if fault e 0 then Err (EWrap "begin capacity reservation" io_err) else
    if fault e 1 then Err (EWrap "lock capacity ledger" io_err) else
    _ ← admit_all fs minFree (durableHeld (fault e 3) t) grouped;
    t' ← (if hold then insert_rows l rid (λ i, fault e (4 + i)%nat) grouped t else Ok t);
    if fault e 2 then Err (EWrap "commit capacity reservation" io_err) else
    Ok (fresh_reservation minFree (if hold then new_held grouped else ∅) rid, t') in
  match run with
  | Err err => (Err err, l)
  | Ok (r, t') => (Ok r, set_db l t')
  end.

(** [admit]; [rid] is the identifier [capacityReservationID] draws. *)
Definition admit_ (e : Env) (fs : FileSystem) (minFree : Z) (demands : list capacityDemand) (hold : bool)
    (rid : string) (failing : string → bool) (l : capacityLedger) : res capacityReservation * capacityLedger :=
  match groupDemands fs demands with
  | Err err => (Err err, l)
  | Ok grouped =>
      let l := retryPendingReleases failing l in
      match db l with
      | Some t => admitDurable e fs minFree grouped hold rid t l
      | None =>
          match admit_all fs minFree (λ dev, Ok (get (held l) dev)) grouped with
          | Err err => (Err err, l)
          | Ok _ =>
              if hold then (Ok (fresh_reservation minFree (new_held grouped) ""), set_held l (add_held (held l) grouped))
              else (Ok (fresh_reservation minFree ∅ ""), l)
          end
      end
  end.

Definition check (e : Env) (fs : FileSystem) (minFree : Z) (demands : list capacityDemand)
    (rid : string) (failing : string → bool) (l : capacityLedger) : option error * capacityLedger :=
  match admit_ e fs minFree demands false rid failing l with
  | (Ok _, l') => (None, l')
  | (Err err, l') => (Some err, l')
  end.

(** ** Release *)

Definition sub_held (m r : gmap Z Z) : gmap Z Z := map_imap (λ d n, Some (n - get r d)) m.

(** [release]; [fail]: deleting the rows fails, and they stay charged. *)
Definition release (fail : bool) (r : capacityReservation) (l : capacityLedger)
    : capacityReservation * capacityLedger :=
  let l1 := match db l with
            | Some t =>
                if bool_decide (id r = "") then l
                else if fail then mkLedger (held l) ({[id r]} ∪ pendingReleases l) (db l) (ownerPID l) (ownerStart l)
                else mkLedger (held l) (pendingReleases l ∖ {[id r]}) (Some (drop_reservations {[id r]} t))
                       (ownerPID l) (ownerStart l)
            | None => l
            end in
  (set_rheld r ∅, match db l with Some _ => l1 | None => set_held l1 (sub_held (held l1) (rheld r)) end).

(** [reserve]: admission, then the device of the staging path. *)
Definition reserve (e : Env) (fs : FileSystem) (minFree : Z) (staging : string) (demands : list capacityDemand)
    (rid : string) (failing : string → bool) (l : capacityLedger) : res capacityReservation * capacityLedger :=
  match admit_ e fs minFree demands true rid failing l with
  | (Err err, l') => (Err err, l')
  | (Ok r, l') =>
      match filesystemDevice fs staging with
      | None => (Err (EWrap "inspect staging filesystem" io_err), (release (failing rid) r l').2)
      | Some dev => (Ok (mkReservation (reserve_ r) (rheld r) staging dev 0 (id r) false 0 0 0 (λ _, [])), l')
      end
  end.

Definition progressiveUploadStep : Z := 256 * 2 ^ 20.

Definition reserveProgressive (e : Env) (fs : FileSystem) (minFree : Z) (staging : string) (lim : Z)
    (demands : Z → list capacityDemand) (rid : string) (failing : string → bool) (l : capacityLedger)
    : res capacityReservation * capacityLedger :=
  let first := Z.min progressiveUploadStep lim in
  match reserve e fs minFree staging (demands first) rid failing l with
  | (Err err, l') => (Err err, l')
  | (Ok r, l') => (Ok (mkReservation (reserve_ r) (rheld r) (stagingPath r) (stagingDev r) (consumedSize r) (id r)
                         true first lim progressiveUploadStep demands), l')
  end.

(** ** Growth *)

(** The test of an extension of a reservation. *)
Definition extend_demand (fs : FileSystem) (reserve : Z) (outstanding : res Z) (d : deviceDemand) : res unit :=
  out ← outstanding;
  match availableBytes fs (path d) with
  | None => Err (EWrap "inspect capacity" io_err)
  | Some free => if free <? saturatingAdd (saturatingAdd out (bytes d)) reserve then Err capacityError else Ok ()
  end.
Fixpoint extend_all (fs : FileSystem) (reserve : Z) (outstanding : Z → res Z) (grouped : list deviceDemand) : res unit :=
  match grouped with
  | [] => Ok ()
  | d :: rest => _ ← extend_demand fs reserve (outstanding (device d)) d; extend_all fs reserve outstanding rest
  end.

(** [UPDATE ... SET bytes=bytes+? WHERE reservation_id=? AND device=?], which
    must change one row. *)
Definition grow_row (rid : string) (dev n : Z) (t : Reservations) : res Reservations :=
  match t !! (rid, dev) with
  | Some r => Ok (<[(rid, dev) := mkRes (row_bytes r + n) (owner_pid r) (owner_start r)]> t)
  | None => Err (EMsg "reservation update: expected one durable row, changed 0")
  end.
Fixpoint grow_rows (rid : string) (f : nat → bool) (grouped : list deviceDemand) (t : Reservations) : res Reservations :=
  match grouped with
  | [] => Ok t
  | d :: rest =>
      n ← capacitySQLBytes (bytes d);
      if f 0%nat then Err (EWrap "extend capacity reservation" io_err) else
      t' ← grow_row rid (device d) n t; grow_rows rid (λ i, f (S i)) rest t'
  end.

(** [extendLocked]; fault 0: begin, 1: the lock row, 2: commit, 3: the sums,
    [4+i]: the [i]-th update. *)
Definition extendLocked (e : Env) (fs : FileSystem) (demands : list capacityDemand) (r : capacityReservation)
    (l : capacityLedger) : res (capacityReservation * capacityLedger) :=
  grouped ← groupDemands fs demands;
  match db l with
  | Some t =>
      if fault e 0 then Err (EWrap "begin capacity extension" io_err) else
      if fault e 1 then Err (EWrap "lock capacity ledger extension" io_err) else
      _ ← extend_all fs (reserve_ r) (durableHeld (fault e 3) t) grouped;
      t' ← grow_rows (id r) (λ i, fault e (4 + i)%nat) grouped t;
      if fault e 2 then Err (EWrap "commit capacity extension" io_err) else
      Ok (set_rheld r (add_held (rheld r) grouped), set_db l t')
  | None =>
      _ ← extend_all fs (reserve_ r) (λ dev, Ok (get (held l) dev)) grouped;
      Ok (set_rheld r (add_held (rheld r) grouped), set_held l (add_held (held l) grouped))
  end.

(** [grow]; fault 0: begin, 1: the lock row, 2: commit, 3: the sum, 4: the update. *)
Definition grow (e : Env) (fs : FileSystem) (p : string) (n : Z) (r : capacityReservation) (l : capacityLedger)
    : option error * capacityReservation * capacityLedger :=
  if n =? 0 then (None, r, l) else
  match filesystemDevice fs p with
  | None => (Some (EWrap "inspect capacity" io_err), r, l)
  | Some dev =>
      let demand := mkDevice dev p n in
      let run : res (capacityReservation * capacityLedger) :=
        match db l with
        | Some t =>
            sqlBytes ← capacitySQLBytes n;
            if fault e 0 then Err (EWrap "begin capacity growth" io_err) else
            if fault e 1 then Err (EWrap "lock capacity ledger growth" io_err) else
            _ ← extend_demand fs (reserve_ r) (durableHeld (fault e 3) t dev) demand;
            if fault e 4 then Err (EWrap "grow capacity reservation" io_err) else
            t' ← grow_row (id r) dev sqlBytes t;
            if fault e 2 then Err (EWrap "commit capacity growth" io_err) else
            Ok (set_rheld r (<[dev := get (rheld r) dev + n]> (rheld r)), set_db l t')
        | None =>
            if u64_max - get (held l) dev <? n then Err overflow_err else
            _ ← extend_demand fs (reserve_ r) (Ok (get (held l) dev)) demand;
            Ok (set_rheld r (<[dev := get (rheld r) dev + n]> (rheld r)),
                set_held l (<[dev := get (held l) dev + n]> (held l)))
        end in
      match run with
      | Err err => (Some err, r, l)
      | Ok (r', l') => (None, r', l')
      end
  end.

(** [recordExternalGrowth]: mirrors growth another writer has committed. *)
Definition recordExternalGrowth (e : Env) (fs : FileSystem) (p : string) (n : Z) (r : capacityReservation)
    (l : capacityLedger) : option error * capacityReservation :=
  if n =? 0 then (None, r) else
  match filesystemDevice fs p with
  | None => (Some (EWrap "inspect capacity" io_err), r)
  | Some dev =>
      match db l with
      | None => (Some (EMsg "external capacity growth requires a durable reservation"), r)
      | Some t =>
          if bool_decide (id r = "") then (Some (EMsg "external capacity growth requires a durable reservation"), r) else
          if fault e 0 then (Some (EWrap "verify external capacity growth" io_err), r) else
          match t !! (id r, dev) with
          | None => (Some (EWrap "verify external capacity growth" (ESentinel "sql: no rows in result set")), r)
          | Some row =>
              if (row_bytes row <? 0) || (u64_max - get (rheld r) dev <? n) || (row_bytes row <? get (rheld r) dev + n)
              then (Some (EMsg "external capacity growth is not present in the durable reservation"), r)
              else (None, set_rheld r (<[dev := get (rheld r) dev + n]> (rheld r)))
          end
      end
  end.

(** ** Shrinking and consuming *)

(** [UPDATE ... SET bytes=MAX(bytes-?,0) ...], which must change one row. *)
Definition shrink_row (rid : string) (dev n : Z) (t : Reservations) : res Reservations :=
  match t !! (rid, dev) with
  | Some r => Ok (<[(rid, dev) := mkRes (Z.max (row_bytes r - n) 0) (owner_pid r) (owner_start r)]> t)
  | None => Err (EMsg "reservation update: expected one durable row, changed 0")
  end.

(** Gives [n] bytes of the hold on [dev] back; fault 0: the update. *)
Definition give_back (e : Env) (dev n : Z) (r : capacityReservation) (l : capacityLedger)
    : res (capacityReservation * capacityLedger) :=
  l1 ← match db l with
       | Some t =>
           if bool_decide (id r = "") || (n <=? 0) then Ok l else
           sqlBytes ← capacitySQLBytes n;
           if fault e 0 then Err (EWrap "update capacity reservation" io_err) else
           t' ← shrink_row (id r) dev sqlBytes t; Ok (set_db l t')
       | None => Ok l
       end;
  Ok (set_rheld r (<[dev := get (rheld r) dev - n]> (rheld r)),
      match db l with
      | Some _ => l1  (* a durable ledger has no process-local map *)
      | None => set_held l1 (<[dev := get (held l1) dev - n]> (held l1))
      end).

(** [shrink]. *)
Definition shrink (e : Env) (fs : FileSystem) (p : string) (n : Z) (r : capacityReservation) (l : capacityLedger)
    : option error * capacityReservation * capacityLedger :=
  if n =? 0 then (None, r, l) else
  match filesystemDevice fs p with
  | None => (Some (EWrap "inspect capacity" io_err), r, l)
  | Some dev =>
      let released := Z.min n (get (rheld r) dev) in
      if released =? 0 then (None, r, l) else
      match give_back e dev released r l with
      | Err err => (Some err, r, l)
      | Ok (r', l') => (None, r', l')
      end
  end.

(** The extension loop of [consume]: stay half a step ahead of the writer. Each
    round admits a full step or the rest of the limit. *)
Fixpoint extend_loop (fuel : nat) (ext : nat → Env) (fs : FileSystem) (written : Z) (r : capacityReservation)
    (l : capacityLedger) : option error * capacityReservation * capacityLedger :=
  if (admitted r <? limit r) && (admitted r <? saturatingAdd written (step r / 2)) then
    match fuel with
    | O => (None, r, l)
    | S n =>
        let next := Z.min (step r) (limit r - admitted r) in
        match extendLocked (ext 0%nat) fs (demandsFor r next) r l with
        | Err err => (Some err, r, l)
        | Ok (r', l') => extend_loop n (λ i, ext (S i)) fs written (set_admitted r' (admitted r + next)) l'
        end
    end
  else (None, r, l).

Definition extend_fuel (r : capacityReservation) : nat := Z.to_nat ((limit r - admitted r) / step r + 1).

(** [consume]; [e] is the environment of the update and the final sum (fault
    1), [ext] the environments of the extensions. *)
Definition consume (e : Env) (ext : nat → Env) (fs : FileSystem) (size : Z) (r : capacityReservation)
    (l : capacityLedger) : option error * capacityReservation * capacityLedger :=
  if size <? 0 then (None, r, l) else
  let landed := Z.min (size - consumedSize r) (get (rheld r) (stagingDev r)) in
  match (if consumedSize r <? size then
           match give_back e (stagingDev r) landed r l with
           | Err err => Err err
           | Ok (r', l') => Ok (set_consumed r' size, l')
           end
         else Ok (r, l)) with
  | Err err => (Some err, r, l)
  | Ok (r1, l1) =>
      match (if progressive r1 then
               match extend_loop (extend_fuel r1) ext fs size r1 l1 with
               | (Some err, r2, l2) => (Some err, r2, l2)
               | (None, r2, l2) => if admitted r2 <? size then (Some capacityError, r2, l2) else (None, r2, l2)
               end
             else (None, r1, l1)) with
      | (Some err, r2, l2) => (Some err, r2, l2)
      | (None, r2, l2) =>
          match availableBytes fs (stagingPath r2) with
          | None => (Some (EWrap "inspect capacity" io_err), r2, l2)
          | Some free =>
              match (match db l2 with
                     | Some t => durableHeld (fault e 1) t (stagingDev r2)
                     | None => Ok (get (held l2) (stagingDev r2))
                     end) with
              | Err err => (Some (EWrap "read capacity after write" err), r2, l2)
              | Ok h => if free <? saturatingAdd h (reserve_ r2) then (Some capacityError, r2, l2) else (None, r2, l2)
              end
          end
      end
  end.

(** ** Reclaiming after a crash *)

(** [linuxProcessStartIdentity]: the identity of a live process, its absence,
    or a failure to read it. *)
Inductive ProcIdentity : Type := Alive (start : string) | Missing | Unreadable.

(** Whether the reservations of an owner are deleted. *)
Definition reclaimable (proc : Z → ProcIdentity) (pid : Z) (start : string) : bool :=
  if 0 <? pid then
    match proc pid with
    | Alive actual => negb (bool_decide (actual = start))
    | Missing => true
    | Unreadable => false
    end
  else true.

(** [SELECT DISTINCT owner_pid,owner_start]. *)
Definition row_owner (r : ResRow) : Z * string := (owner_pid r, owner_start r).
Definition owners (t : Reservations) : list (Z * string) :=
  remove_dups ((λ x, row_owner x.2) <$> map_to_list t).

(** The deletions in turn; those before a failure stay. *)
Fixpoint reclaim_owners (proc : Z → ProcIdentity) (f : nat → bool) (os : list (Z * string)) (t : Reservations)
    : option error * Reservations :=
  match os with
  | [] => (None, t)
  | (pid, start) :: rest =>
      if reclaimable proc pid start then
        if f 0%nat then (Some io_err, t)
        else reclaim_owners proc (λ i, f (S i)) rest (filter (λ '(_, r), row_owner r ≠ (pid, start)) t)
      else reclaim_owners proc (λ i, f (S i)) rest t
  end.

(** [reclaimOrphanedCapacityReservations]; fault 0: reading the owners, [1+i]:
    the [i]-th deletion. *)
Definition reclaimOrphanedCapacityReservations (e : Env) (proc : Z → ProcIdentity) (t : Reservations)
    : option error * Reservations :=
  if fault e 0 then (Some io_err, t) else reclaim_owners proc (λ i, fault e (S i)) (owners t) t.

(** [heldBytes] of a durable or local ledger (pending releases are retried). *)
Definition heldBytes (e : Env) (fs : FileSystem) (failing : string → bool) (p : string) (l : capacityLedger)
    : Z * capacityLedger :=
  match filesystemDevice fs p with
  | None => (0, l)
  | Some dev =>
      match db l with
      | None => (get (held l) dev, l)
      | Some _ =>
          let l' := retryPendingReleases failing l in
          match db l' with
          | Some t => (match durableHeld (fault e 0) t dev with Ok h => h | Err _ => 0 end, l')
          | None => (0, l')
          end
      end
  end.

(** ** What an upload asks for *)

(** [declaredUploadBytes]: the size and whether it is known. *)
Definition errUploadLengthRequired : error := ESentinel "archive uploads require a Content-Length header".
Definition declaredUploadBytes (contentLength maxUpload : Z) : res (Z * bool) :=
  if 0 <=? contentLength then Ok (contentLength, true)
  else if 0 <? maxUpload then Ok (maxUpload, false) else Err errUploadLengthRequired.

Definition archiveUploadDemands (importRoot sites : string) (archive : Z) : list capacityDemand :=
  [mkDemand importRoot (saturatingAdd archive archive); mkDemand sites archive].
Definition stagedArchiveDemands (importRoot sites : string) (expanded : Z) : list capacityDemand :=
  [mkDemand importRoot expanded; mkDemand sites expanded].

End Capacity.
