(* ===== verification/CapacityProps.v ===== *)
(** * CapacityProps: promised space is never promised twice

    Admission leaves enough free space for every outstanding promise, the rows
    of a reservation always equal what its process believes to hold, other
    reservations are never touched, releases give back exactly what was held,
    and only reservations of dead processes are reclaimed. *)
From S2P Require Import Prelude Capacity.

Module CapacityProps.
Import Capacity.

(** What is promised on a device. *)
Definition outstanding (l : capacityLedger) (dev : Z) : Z :=
  match db l with Some t => device_sum t dev | None => get (held l) dev end.

(** ** Sums *)

Lemma device_sum_insert t k r dev :
  t !! k = None → device_sum (<[k := r]> t) dev = (if decide (k.2 = dev) then row_bytes r else 0) + device_sum t dev.
Proof.
  intros H. unfold device_sum.
  apply (map_fold_insert_L (λ k r acc, (if decide (k.2 = dev) then row_bytes r else 0) + acc)); [intros; lia|done].
Qed.

Lemma device_sum_delete t k r dev :
  t !! k = Some r → device_sum t dev = (if decide (k.2 = dev) then row_bytes r else 0) + device_sum (delete k t) dev.
Proof.
  intros H. rewrite <- (insert_delete_id t k r H) at 1. apply device_sum_insert, lookup_delete_eq.
Qed.

Lemma device_sum_update t k r r' dev :
  t !! k = Some r →
  device_sum (<[k := r']> t) dev =
    device_sum t dev + (if decide (k.2 = dev) then row_bytes r' - row_bytes r else 0).
Proof.
  intros H. rewrite (device_sum_delete t k r dev H), <- insert_delete_eq.
  rewrite device_sum_insert by apply lookup_delete_eq. case_decide; lia.
Qed.

Lemma get_insert m d n d' : get (<[d := n]> m) d' = if decide (d = d') then n else get m d'.
Proof. unfold get. rewrite lookup_insert. by case_decide. Qed.

(** What a reservation holds of the table. *)
Definition rowb (t : Reservations) (rid : string) (dev : Z) : Z := default 0 (row_bytes <$> t !! (rid, dev)).

Lemma rowb_insert t rid dev r rid' dev' :
  rowb (<[(rid, dev) := r]> t) rid' dev' =
    if decide (rid = rid' ∧ dev = dev') then row_bytes r else rowb t rid' dev'.
Proof.
  unfold rowb. rewrite lookup_insert. repeat case_decide; naive_solver.
Qed.

(** ** Grouping *)

Definition demanded (grouped : list deviceDemand) (dev : Z) : Z :=
  foldr (λ d acc, (if decide (device d = dev) then bytes d else 0) + acc) 0 grouped.

Arguments demanded : simpl never.
Lemma demanded_nil dev : demanded [] dev = 0.
Proof. done. Qed.
Lemma demanded_cons d g dev :
  demanded (d :: g) dev = (if decide (device d = dev) then bytes d else 0) + demanded g dev.
Proof. done. Qed.

Lemma add_demand_spec dev p n g g' :
  add_demand dev p n g = Ok g' → NoDup (device <$> g) →
  NoDup (device <$> g') ∧ (∀ x, x ∈ device <$> g' → x = dev ∨ x ∈ device <$> g) ∧
  ∀ d, demanded g' d = demanded g d + if decide (dev = d) then n else 0.
Proof.
  revert g'. induction g as [|x g IH]; intros g' E Hd; cbn in E.
  - injection E as <-. split_and!; [repeat constructor; set_solver|set_solver|]. intros d. rewrite demanded_cons, !demanded_nil. cbn. case_decide; lia.
  - apply NoDup_cons in Hd as [Hx Hd]. destruct (decide (device x = dev)) as [<-|Hne].
    + case_if; [done|]. injection E as <-. cbn. split_and!; [by apply NoDup_cons|set_solver|].
      intros d. rewrite !demanded_cons. cbn. case_decide; lia.
    + apply bind_Ok in E as (g1 & E1 & E). injection E as <-. destruct (IH _ E1 Hd) as (H1 & H2 & H3).
      cbn. split_and!; [|set_solver|intros d; rewrite !demanded_cons, H3; lia].
      apply NoDup_cons. split; [|done]. intros [E2|E2]%H2; done.
Qed.

Lemma group_from_spec fs ds : ∀ g g',
  group_from fs ds g = Ok g' → NoDup (device <$> g) → NoDup (device <$> g').
Proof.
  induction ds as [|d ds IH]; intros g g' E Hd; cbn in E; [by injection E as <-|].
  destruct (filesystemDevice fs (Path d)) as [dev|]; [|done].
  apply bind_Ok in E as (g1 & E1 & E). eapply IH; [exact E|]. by eapply add_demand_spec.
Qed.

Lemma groupDemands_NoDup fs ds g : groupDemands fs ds = Ok g → NoDup (device <$> g).
Proof. intros E. eapply group_from_spec; [exact E|constructor]. Qed.

Lemma demanded_elem g d : NoDup (device <$> g) → d ∈ g → demanded g (device d) = bytes d.
Proof.
  induction g as [|x g IH]; [set_solver|]. cbn. rewrite demanded_cons.
  intros [Hx Hd]%NoDup_cons [->|Hin]%elem_of_cons.
  - rewrite decide_True by done. assert (demanded g (device x) = 0) as ->; [|lia].
    clear IH Hd. induction g as [|y g IH]; [done|]. rewrite demanded_cons, decide_False by set_solver.
    rewrite IH by set_solver. done.
  - rewrite decide_False, IH; [lia|done..|]. intros E. apply Hx. rewrite E. by apply list_elem_of_fmap_2.
Qed.

(** ** Effects on a table *)

Lemma insert_rows_spec l rid f g : ∀ t t',
  insert_rows l rid f g t = Ok t' → NoDup (device <$> g) →
  (∀ dev, device_sum t' dev = device_sum t dev + demanded g dev) ∧
  (∀ rid' dev, rid' ≠ rid → t' !! (rid', dev) = t !! (rid', dev)) ∧
  (∀ dev, (∀ d, d ∈ g → device d ≠ dev) → t' !! (rid, dev) = t !! (rid, dev)) ∧
  (∀ d, d ∈ g → rowb t' rid (device d) = bytes d).
Proof.
  revert f. induction g as [|d g IH]; intros f t t' E Hd; cbn in E.
  - injection E as <-. split_and!; [intros; rewrite demanded_nil; lia|done|done|set_solver].
  - apply bind_Ok in E as (n & Hn & E). unfold capacitySQLBytes in Hn. destruct (i64_max <? bytes d); [done|].
    injection Hn as <-. destruct (f 0%nat); [done|]. destruct (t !! (rid, device d)) eqn:Hk; [done|].
    cbn in Hd. apply NoDup_cons in Hd as [Hx Hd]. destruct (IH _ _ _ E Hd) as (H1 & H2 & H3 & H4).
    split_and!.
    + intros dev. rewrite H1, device_sum_insert, demanded_cons by done. cbn. lia.
    + intros rid' dev Hne. rewrite H2, lookup_insert_ne by (done || congruence). done.
    + intros dev Hdev. rewrite H3 by (intros; apply Hdev; set_solver).
      rewrite lookup_insert_ne; [done|]. intros [= E']. by apply (Hdev d); [set_solver|].
    + intros x [->|Hin]%elem_of_cons; [|by apply H4]. unfold rowb. rewrite H3, lookup_insert_eq; [done|].
      intros y Hy Ey. apply Hx. rewrite <- Ey. by apply list_elem_of_fmap_2.
Qed.

Lemma add_held_get g : ∀ m dev, NoDup (device <$> g) → get (add_held m g) dev = get m dev + demanded g dev.
Proof.
  unfold add_held. induction g as [|d g IH]; intros m dev Hd; cbn [foldl];
    [rewrite demanded_nil; lia|]. rewrite demanded_cons.
  cbn in Hd. apply NoDup_cons in Hd as [_ Hd]. rewrite IH, get_insert by done. case_decide; subst; lia.
Qed.

Lemma admit_all_Ok fs minFree out g :
  admit_all fs minFree out g = Ok () → ∀ d, d ∈ g → ∃ o free, out (device d) = Ok o ∧
    availableBytes fs (path d) = Some free ∧ bytes d + minFree + o ≤ free.
Proof.
  induction g as [|x g IH]; [set_solver|]. cbn. intros ([] & Ex & E)%bind_Ok d [->|Hd]%elem_of_cons; [|by apply IH].
  unfold admit_demand in Ex. apply bind_Ok in Ex as (o & Ho & Ex). case_if; [done|].
  destruct (availableBytes fs (path x)) as [free|]; [|done]. case_if; [done|]. apply Z.ltb_ge in Heqb0. eauto.
Qed.

Lemma durableHeld_Ok f t dev o : durableHeld f t dev = Ok o → o = Z.max 0 (device_sum t dev).
Proof. unfold durableHeld. case_if; [done|]. by intros [= <-]. Qed.

(** C38: admission never over-commits a file system. When a workflow has been
    admitted with a hold, the free space measured for each of its devices still
    covers everything now promised there, by all workflows and processes and
    this one included, plus the configured reserve. *)
Theorem admit_never_overcommits e fs minFree demands rid failing l r l' g d :
  admit_ e fs minFree demands true rid failing l = (Ok r, l') →
  groupDemands fs demands = Ok g → d ∈ g →
  ∃ free, availableBytes fs (path d) = Some free ∧ outstanding l' (device d) + minFree ≤ free.
Proof.
  unfold admit_. intros E Hg Hd. rewrite Hg in E. pose proof (groupDemands_NoDup _ _ _ Hg) as Hnd.
  set (l1 := retryPendingReleases failing l) in *. destruct (db l1) as [t|] eqn:Ht.
  - unfold admitDurable in E. destruct (fault e 0); [done|]. destruct (fault e 1); [done|].
    destruct (admit_all _ _ _ g) as [[]|] eqn:Ha; [|done]. cbn in E.
    destruct (insert_rows _ _ _ g t) as [t'|] eqn:Hi; [|done]. cbn in E. destruct (fault e 2); [done|].
    injection E as <- <-. destruct (admit_all_Ok _ _ _ _ Ha d Hd) as (o & free & Ho & Hf & Hle).
    exists free. split; [done|]. apply durableHeld_Ok in Ho. unfold outstanding. cbn.
    destruct (insert_rows_spec _ _ _ _ _ _ Hi Hnd) as [Hs _]. rewrite Hs, demanded_elem by done. lia.
  - destruct (admit_all _ _ _ g) as [[]|] eqn:Ha; [|done]. injection E as <- <-.
    destruct (admit_all_Ok _ _ _ _ Ha d Hd) as (o & free & Ho & Hf & Hle). injection Ho as <-.
    exists free. split; [done|]. unfold outstanding. cbn [db set_held held]. rewrite Ht.
    rewrite add_held_get, demanded_elem by done. lia.
Qed.

(** Two paths on one device with a thousand free bytes. *)
Definition demo_fs : FileSystem := mkFS (λ _, Some 7) (λ _, Some 1000).
Definition demo_ledger : capacityLedger := mkLedger ∅ ∅ (Some ∅) 10 "boot:1".
Definition demo_demands : list capacityDemand := archiveUploadDemands "/imports" "/sites" 100.
Definition demo_admitted := admit_ (calm 0 "") demo_fs 500 demo_demands true "a" (λ _, false) demo_ledger.
Definition demo_reservation : capacityReservation := match demo_admitted.1 with Ok r => r | Err _ => fresh_reservation 0 ∅ "" end.
Lemma admit_never_overcommits_witness :
  ∃ free, availableBytes demo_fs "/imports" = Some free ∧ outstanding demo_admitted.2 7 + 500 ≤ free.
Proof.
  apply (admit_never_overcommits (calm 0 "") demo_fs 500 demo_demands "a" (λ _, false) demo_ledger
    demo_reservation demo_admitted.2 [mkDevice 7 "/imports" 300] (mkDevice 7 "/imports" 300)).
  - vm_compute. reflexivity.
  - vm_compute. reflexivity.
  - apply list_elem_of_here.
Defined.

(** ** The rows behind a reservation *)

(** The process's view of its reservation is what the table charges for it. *)
Definition backed (t : Reservations) (r : capacityReservation) : Prop :=
  id r ≠ "" ∧ ∀ dev, get (rheld r) dev = rowb t (id r) dev ∧ 0 ≤ get (rheld r) dev.

(** What an operation on one reservation of a durable ledger guarantees: its
    rows follow its view, and no row of another reservation changes. *)
Definition isolated (t t' : Reservations) (r r' : capacityReservation) : Prop :=
  id r' = id r ∧ backed t' r' ∧ ∀ rid dev, rid ≠ id r → t' !! (rid, dev) = t !! (rid, dev).

Lemma isolated_refl t r : backed t r → isolated t t r r.
Proof. done. Qed.
Lemma isolated_trans t1 t2 t3 r1 r2 r3 : isolated t1 t2 r1 r2 → isolated t2 t3 r2 r3 → isolated t1 t3 r1 r3.
Proof.
  intros (E1 & B1 & F1) (E2 & B2 & F2). split_and!; [congruence|done|].
  intros rid dev Hne. rewrite F2, F1 by congruence. done.
Qed.

Lemma grow_row_isolated t t' r dev n :
  0 ≤ n → backed t r → grow_row (id r) dev n t = Ok t' →
  isolated t t' r (set_rheld r (<[dev := get (rheld r) dev + n]> (rheld r))).
Proof.
  intros Hn [Hid B]. unfold grow_row. destruct (t !! (id r, dev)) as [row|] eqn:Hr; [|done]. intros [= <-].
  split_and!; [done| |].
  - split; [done|]. intros d. cbn. rewrite get_insert, rowb_insert. destruct (B d) as [E N]. cbn.
    repeat case_decide; subst; try tauto; try lia.
    destruct (B d) as [E' N']. unfold rowb in E'. rewrite Hr in E'. cbn in E'. lia.
  - intros rid d Hne. by rewrite lookup_insert_ne by congruence.
Qed.

Lemma shrink_row_isolated t t' r dev n :
  0 ≤ n ≤ get (rheld r) dev → backed t r → shrink_row (id r) dev n t = Ok t' →
  isolated t t' r (set_rheld r (<[dev := get (rheld r) dev - n]> (rheld r))).
Proof.
  intros Hn [Hid B]. unfold shrink_row. destruct (t !! (id r, dev)) as [row|] eqn:Hr; [|done]. intros [= <-].
  split_and!; [done| |].
  - split; [done|]. intros d. cbn. rewrite get_insert, rowb_insert. destruct (B d) as [E N]. cbn.
    repeat case_decide; subst; try tauto; try lia.
    destruct (B d) as [E' N']. unfold rowb in E'. rewrite Hr in E'. cbn in E'. lia.
  - intros rid d Hne. by rewrite lookup_insert_ne by congruence.
Qed.

Definition nonneg (g : list deviceDemand) : Prop := Forall (λ d, 0 ≤ bytes d) g.

Lemma grow_rows_isolated g : ∀ f t t' r,
  nonneg g → backed t r → grow_rows (id r) f g t = Ok t' →
  isolated t t' r (set_rheld r (add_held (rheld r) g)).
Proof.
  induction g as [|d g IH]; intros f t t' r Hn B E; cbn in E.
  - injection E as <-. by destruct r.
  - apply Forall_cons in Hn as [Hd Hn]. apply bind_Ok in E as (n & En & E).
    unfold capacitySQLBytes in En. destruct (i64_max <? bytes d); [done|]. injection En as <-.
    destruct (f 0%nat); [done|]. apply bind_Ok in E as (t1 & Eg & E).
    pose proof (grow_row_isolated _ _ _ _ _ Hd B Eg) as I1. eapply isolated_trans; [exact I1|].
    destruct I1 as (_ & B1 & _). apply (IH _ t1 t' _ Hn B1 E).
Qed.

Definition demands_ok (ds : list capacityDemand) : Prop := Forall (λ d, 0 ≤ Bytes d) ds.

Lemma add_demand_nonneg dev p n g g' : 0 ≤ n → nonneg g → add_demand dev p n g = Ok g' → nonneg g'.
Proof.
  intros Hn. revert g'. induction g as [|x g IH]; intros g' Hg E; cbn in E.
  - injection E as <-. by repeat constructor.
  - apply Forall_cons in Hg as [Hx Hg]. case_decide.
    + case_if; [done|]. injection E as <-. constructor; [cbn; lia|done].
    + apply bind_Ok in E as (g1 & E1 & E). injection E as <-. constructor; [done|]. by apply IH.
Qed.

Lemma groupDemands_nonneg fs ds g : demands_ok ds → groupDemands fs ds = Ok g → nonneg g.
Proof.
  unfold groupDemands. assert (nonneg []) as Hnil by constructor. revert Hnil. generalize (@nil deviceDemand).
  induction ds as [|d ds IH]; intros g0 H0 Hd E; cbn in E; [by injection E as <-|].
  apply Forall_cons in Hd as [Hd Hds]. destruct (filesystemDevice fs (Path d)); [|done].
  apply bind_Ok in E as (g1 & E1 & E). eapply IH; [|done|exact E]. by eapply add_demand_nonneg.
Qed.

Lemma extendLocked_isolated e fs ds r l t r' l' :
  demands_ok ds → db l = Some t → backed t r → extendLocked e fs ds r l = Ok (r', l') →
  ∃ t', db l' = Some t' ∧ isolated t t' r r'.
Proof.
  intros Hds Ht B E. unfold extendLocked in E. apply bind_Ok in E as (g & Hg & E). rewrite Ht in E.
  destruct (fault e 0); [done|]. destruct (fault e 1); [done|]. apply bind_Ok in E as ([] & _ & E).
  apply bind_Ok in E as (t' & Hr & E). destruct (fault e 2); [done|]. injection E as <- <-.
  exists t'. split; [done|]. eapply grow_rows_isolated; [|done|exact Hr]. by eapply groupDemands_nonneg.
Qed.

Lemma give_back_isolated e dev n r l t r' l' :
  0 ≤ n ≤ get (rheld r) dev → db l = Some t → backed t r → give_back e dev n r l = Ok (r', l') →
  ∃ t', db l' = Some t' ∧ isolated t t' r r'.
Proof.
  intros Hn Ht B E. unfold give_back in E. rewrite Ht in E. apply bind_Ok in E as (l1 & E1 & E).
  injection E as <- <-. destruct B as [Hid B]. rewrite (bool_decide_false _ Hid) in E1. cbn [orb] in E1.
  destruct (Z.leb_spec n 0) as [Hz|Hz].
  - injection E1 as <-. exists t. split; [done|]. split_and!; [done| |done]. split; [done|].
    intros d. cbn. rewrite get_insert. destruct (B d). case_decide; subst; split; lia || done.
  - apply bind_Ok in E1 as (m & Em & E1). unfold capacitySQLBytes in Em. destruct (i64_max <? n); [done|].
    injection Em as <-. destruct (fault e 0); [done|]. apply bind_Ok in E1 as (t' & Es & E1).
    injection E1 as <-. exists t'. split; [done|]. by eapply shrink_row_isolated.
Qed.

Lemma extend_loop_isolated fuel : ∀ ext fs written r l t err r' l',
  (∀ n, demands_ok (demandsFor r n)) → db l = Some t → backed t r →
  extend_loop fuel ext fs written r l = (err, r', l') → ∃ t', db l' = Some t' ∧ isolated t t' r r'.
Proof.
  induction fuel as [|fuel IH]; intros ext fs written r l t err r' l' Hds Ht B E; cbn in E;
    (case_if; [|injection E as <- <- <-; exists t; by split; [|apply isolated_refl]]).
  - injection E as <- <- <-. exists t. by split; [|apply isolated_refl].
  - destruct (extendLocked _ _ _ _ _) as [[r1 l1]|] eqn:Ex.
    2: { injection E as <- <- <-. exists t. by split; [|apply isolated_refl]. }
    destruct (extendLocked_isolated _ _ _ _ _ _ _ _ (Hds _) Ht B Ex) as (t1 & Ht1 & I1).
    assert (demandsFor r1 = demandsFor r) as Hdf.
    { unfold extendLocked in Ex. apply bind_Ok in Ex as (g & _ & Ex). rewrite Ht in Ex.
      destruct (fault _ 0); [done|]. destruct (fault _ 1); [done|]. apply bind_Ok in Ex as ([] & _ & Ex).
      apply bind_Ok in Ex as (t2 & _ & Ex). destruct (fault _ 2); [done|]. by injection Ex as <- <-. }
    match type of E with extend_loop _ ?x _ _ ?y _ = _ =>
      destruct (IH x fs written y l1 t1 err r' l' ltac:(cbn; by rewrite Hdf) Ht1 (proj1 (proj2 I1)) E)
        as (t2 & Ht2 & I2) end.
    exists t2. split; [done|]. eapply isolated_trans; [exact I1|]. exact I2.
Qed.

(** The operations on an admitted reservation. *)
Inductive ROp : Type :=
  | RConsume (e : Env) (ext : nat → Env) (size : Z)
  | RGrow (e : Env) (p : string) (n : Z)
  | RShrink (e : Env) (p : string) (n : Z).

Definition exec_op (fs : FileSystem) (s : capacityReservation * capacityLedger) (o : ROp)
    : capacityReservation * capacityLedger :=
  let '(r, l) := s in
  let '(_, r', l') := match o with
                      | RConsume e ext size => consume e ext fs size r l
                      | RGrow e p n => grow e fs p n r l
                      | RShrink e p n => shrink e fs p n r l
                      end in (r', l').
Definition op_ok (o : ROp) : Prop :=
  match o with RGrow _ _ n | RShrink _ _ n => 0 ≤ n | RConsume _ _ _ => True end.

Definition same_policy (r r' : capacityReservation) : Prop :=
  demandsFor r' = demandsFor r ∧ limit r' = limit r ∧ step r' = step r ∧ progressive r' = progressive r.

Lemma extendLocked_policy e fs ds r l r' l' :
  extendLocked e fs ds r l = Ok (r', l') → same_policy r r' ∧ admitted r' = admitted r.
Proof.
  unfold extendLocked. intros (g & _ & E)%bind_Ok. destruct (db l).
  - destruct (fault e 0); [done|]. destruct (fault e 1); [done|]. apply bind_Ok in E as ([] & _ & E).
    apply bind_Ok in E as (t2 & _ & E). destruct (fault e 2); [done|]. by injection E as <- <-.
  - apply bind_Ok in E as ([] & _ & E). by injection E as <- <-.
Qed.

Lemma extend_loop_policy fuel : ∀ ext fs written r l err r' l',
  extend_loop fuel ext fs written r l = (err, r', l') → same_policy r r'.
Proof.
  induction fuel as [|fuel IH]; intros ext fs written r l err r' l' E; cbn in E;
    (case_if; [|by injection E as <- <- <-]); [by injection E as <- <- <-|].
  destruct (extendLocked _ _ _ _ _) as [[r1 l1]|] eqn:Ex; [|by injection E as <- <- <-].
  apply extendLocked_policy in Ex as [(H1 & H2 & H3 & H4) _].
  apply IH in E as (H5 & H6 & H7 & H8). cbn in *. unfold same_policy. by rewrite H5, H6, H7, H8.
Qed.

Lemma give_back_policy e dev n r l r' l' :
  give_back e dev n r l = Ok (r', l') → same_policy r r' ∧ admitted r' = admitted r.
Proof. unfold give_back. intros (l1 & _ & E)%bind_Ok. by injection E as <- _. Qed.

(** [consume] in its three phases: the landed bytes, the extensions, the final
    test of the free space. *)
Lemma consume_phases e ext fs size r l err r' l' :
  consume e ext fs size r l = (err, r', l') →
  (r' = r ∧ l' = l ∧ (err = None → size < 0)) ∨ 0 ≤ size ∧ ∃ r1 l1,
    (consumedSize r < size ∧
       (∃ r0, give_back e (stagingDev r) (Z.min (size - consumedSize r) (get (rheld r) (stagingDev r))) r l = Ok (r0, l1)
              ∧ r1 = set_consumed r0 size) ∨ size ≤ consumedSize r ∧ r1 = r ∧ l1 = l) ∧
    (if progressive r1 then
       (∃ e1, extend_loop (extend_fuel r1) ext fs size r1 l1 = (e1, r', l') ∧
              (err = None → e1 = None ∧ size ≤ admitted r'))
     else r' = r1 ∧ l' = l1).
Proof.
  unfold consume. intros E. destruct (Z.ltb_spec size 0) as [Hs|Hs]; [by injection E as <- <- <-; left|].
  destruct (if consumedSize r <? size then _ else _) as [[r1 l1]|er] eqn:E1;
    [|injection E as <- <- <-; left; done].
  right. split; [done|]. exists r1, l1. split.
  { destruct (Z.ltb_spec (consumedSize r) size).
    - destruct (give_back _ _ _ _ _) as [[r0 l0]|]; [|done]. injection E1 as <- <-. left. eauto.
    - injection E1 as <- <-. by right. }
  destruct (progressive r1).
  - destruct (extend_loop _ _ _ _ _ _) as [[[er|] r2] l2] eqn:El.
    { injection E as <- <- <-. exists (Some er). done. }
    destruct (Z.ltb_spec (admitted r2) size) as [Ha|Ha]; [injection E as <- <- <-; by exists None|].
    exists None. destruct (availableBytes fs (stagingPath r2)); [|by injection E as <- <- <-].
    destruct (match db l2 with Some t => _ | None => _ end); [|by injection E as <- <- <-].
    case_if; by injection E as <- <- <-.
  - destruct (availableBytes fs (stagingPath r1)); [|by injection E as <- <- <-].
    destruct (match db l1 with Some t => _ | None => _ end); [|by injection E as <- <- <-].
    case_if; by injection E as <- <- <-.
Qed.

Lemma consume_isolated e ext fs size r l t err r' l' :
  (∀ n, demands_ok (demandsFor r n)) → db l = Some t → backed t r →
  consume e ext fs size r l = (err, r', l') →
  ∃ t', db l' = Some t' ∧ isolated t t' r r' ∧ demandsFor r' = demandsFor r.
Proof.
  intros Hds Ht B E. apply consume_phases in E as [(-> & -> & _)|(Hs & r1 & l1 & E1 & E2)].
  { exists t. split_and!; [done|by apply isolated_refl|done]. }
  assert (∃ t1, db l1 = Some t1 ∧ isolated t t1 r r1 ∧ demandsFor r1 = demandsFor r) as (t1 & Ht1 & I1 & D1).
  { destruct E1 as [(Hlt & r0 & Eg & ->)|(_ & -> & ->)]; [|exists t; split_and!; [done|by apply isolated_refl|done]].
    pose proof (give_back_policy _ _ _ _ _ _ _ Eg) as [(Hd & _) _].
    assert (0 ≤ get (rheld r) (stagingDev r)) as Hpos by apply B.
    pose proof (λ H, give_back_isolated _ _ _ _ _ t _ _ H Ht B Eg) as Hgb.
    destruct Hgb as (t1 & Ht1 & I1); [lia|].
    exists t1. by split_and!. }
  destruct (progressive r1).
  - destruct E2 as (e1 & El & _). pose proof (extend_loop_policy _ _ _ _ _ _ _ _ _ El) as (Hd & _).
    destruct (extend_loop_isolated _ _ _ _ _ _ t1 _ _ _ ltac:(by rewrite D1) Ht1 (proj1 (proj2 I1)) El)
      as (t2 & Ht2 & I2).
    exists t2. split_and!; [done|by eapply isolated_trans|congruence].
  - destruct E2 as [-> ->]. exists t1. done.
Qed.

Lemma exec_op_isolated fs o r l t r' l' :
  op_ok o → (∀ n, demands_ok (demandsFor r n)) → db l = Some t → backed t r →
  exec_op fs (r, l) o = (r', l') → ∃ t', db l' = Some t' ∧ isolated t t' r r' ∧ demandsFor r' = demandsFor r.
Proof.
  intros Ho Hds Ht B. assert (∃ t', db l = Some t' ∧ isolated t t' r r ∧ demandsFor r = demandsFor r) as Hid.
  { exists t. split_and!; [done|by apply isolated_refl|done]. }
  unfold exec_op. destruct o as [e ext size|e p n|e p n]; cbn in Ho.
  - destruct (consume _ _ _ _ _ _) as [[err r1] l1] eqn:E. intros [= <- <-]. by eapply consume_isolated.
  - unfold grow. destruct (n =? 0); [by intros [= <- <-]|].
    destruct (filesystemDevice fs p) as [dev|]; [|by intros [= <- <-]]. rewrite Ht.
    destruct (_ ≫= _) as [[r1 l1]|] eqn:E; intros [= <- <-]; [|done].
    apply bind_Ok in E as (m & Em & E). unfold capacitySQLBytes in Em. destruct (i64_max <? n); [done|].
    injection Em as <-. destruct (fault e 0); [done|]. destruct (fault e 1); [done|].
    apply bind_Ok in E as ([] & _ & E). destruct (fault e 4); [done|]. apply bind_Ok in E as (t1 & Eg & E).
    destruct (fault e 2); [done|]. injection E as <- <-. exists t1. split_and!; [done| |done].
    by eapply grow_row_isolated.
  - unfold shrink. destruct (n =? 0); [by intros [= <- <-]|].
    destruct (filesystemDevice fs p) as [dev|]; [|by intros [= <- <-]].
    destruct (_ =? 0); [by intros [= <- <-]|].
    destruct (give_back _ _ _ _ _) as [[r1 l1]|] eqn:E; intros [= <- <-]; [|done].
    pose proof (give_back_policy _ _ _ _ _ _ _ E) as [(Hd & _) _].
    assert (0 ≤ get (rheld r) dev) as Hpos by apply B.
    pose proof (λ H, give_back_isolated _ _ _ _ _ t _ _ H Ht B E) as Hgb.
    destruct Hgb as (t1 & Ht1 & I1); [lia|]. by exists t1.
Qed.

(** The rows of a reservation in the shared table always charge exactly
    what its process believes to hold, after every sequence of writes,
    extensions, growths and shrinks with any database or file-system failures
    in between; and no such sequence changes a row of another reservation. *)
Theorem reservation_rows_exact fs ops r l t :
  Forall op_ok ops → (∀ n, demands_ok (demandsFor r n)) → db l = Some t → backed t r →
  ∃ t', db (foldl (exec_op fs) (r, l) ops).2 = Some t' ∧
    isolated t t' r (foldl (exec_op fs) (r, l) ops).1.
Proof.
  intros Ho. revert r l t. induction Ho as [|o ops Ho Hos IH]; intros r l t Hds Ht B.
  { exists t. split; [done|by apply isolated_refl]. }
  cbn [foldl]. destruct (exec_op fs (r, l) o) as [r1 l1] eqn:E.
  destruct (exec_op_isolated _ _ _ _ _ _ _ Ho Hds Ht B E) as (t1 & Ht1 & I1 & D1).
  destruct (IH r1 l1 t1 ltac:(by rewrite D1) Ht1 (proj1 (proj2 I1))) as (t2 & Ht2 & I2).
  exists t2. split; [done|by eapply isolated_trans].
Qed.

Definition demo_table : Reservations := default ∅ (db demo_admitted.2).
Lemma demo_backed : backed demo_table demo_reservation.
Proof.
  split; [done|]. intros dev.
  assert (demo_table = {[("a", 7) := mkRes 300 10 "boot:1"]}) as -> by (by vm_compute).
  assert (rheld demo_reservation = {[7 := 300]}) as -> by (by vm_compute).
  change (id demo_reservation) with "a". unfold get, rowb.
  destruct (decide (dev = 7)) as [->|Hne]; [by vm_compute|].
  rewrite !lookup_singleton_ne by congruence. cbn. lia.
Qed.

Lemma reservation_rows_exact_witness :
  ∃ t', db (foldl (exec_op demo_fs) (demo_reservation, demo_admitted.2) [RGrow (calm 0 "") "/imports" 50]).2 = Some t' ∧
    isolated demo_table t' demo_reservation
      (foldl (exec_op demo_fs) (demo_reservation, demo_admitted.2) [RGrow (calm 0 "") "/imports" 50]).1.
Proof.
  apply (reservation_rows_exact demo_fs [RGrow (calm 0 "") "/imports" 50] demo_reservation demo_admitted.2 demo_table).
  - repeat constructor; vm_compute; congruence.
  - intros n. constructor.
  - vm_compute. reflexivity.
  - apply demo_backed.
Defined.

(** ** Release *)

Lemma drop_lookup ids t k : drop_reservations ids t !! k = if decide (k.1 ∈ ids) then None else t !! k.
Proof.
  unfold drop_reservations. case_decide as Hk.
  - apply map_lookup_filter_None. right. intros r _ Hn. by apply Hn.
  - destruct (t !! k) as [r|] eqn:E.
    + apply map_lookup_filter_Some. done.
    + apply map_lookup_filter_None. by left.
Qed.

Lemma device_sum_drop rid t dev :
  device_sum (drop_reservations {[rid]} t) dev = device_sum t dev - rowb t rid dev.
Proof.
  induction t as [|k r t Hk IH] using map_ind.
  { assert (drop_reservations {[rid]} ∅ = ∅) as -> by apply map_filter_empty.
    unfold rowb. rewrite lookup_empty. cbn. lia. }
  rewrite device_sum_insert by done. destruct k as [rid' dev']. cbn [snd].
  destruct (decide (rid' = rid)) as [->|Hne].
  - assert (drop_reservations {[rid]} (<[(rid, dev') := r]> t) = drop_reservations {[rid]} t) as ->.
    { apply map_eq. intros k. rewrite !drop_lookup. case_decide as Hd; [done|].
      rewrite lookup_insert_ne; [done|]. intros <-. apply Hd. cbn. set_solver. }
    rewrite IH, rowb_insert. destruct (decide (dev' = dev)) as [->|Hdev].
    + rewrite decide_True by done. assert (rowb t rid dev = 0) as -> by (unfold rowb; by rewrite Hk). lia.
    + destruct (decide (rid = rid ∧ dev' = dev)) as [[_ ?]|_]; [done|]. lia.
  - assert (drop_reservations {[rid]} (<[(rid', dev') := r]> t) =
            <[(rid', dev') := r]> (drop_reservations {[rid]} t)) as ->.
    { apply map_eq. intros k. rewrite drop_lookup, !lookup_insert, drop_lookup.
      repeat case_decide; subst; cbn in *; set_solver. }
    rewrite device_sum_insert by (rewrite drop_lookup; case_decide; done).
    rewrite IH, rowb_insert. destruct (decide (rid' = rid ∧ dev' = dev)) as [[? ?]|_]; [done|]. cbn [snd]. lia.
Qed.

(** A release gives back exactly what the reservation held: on every
    device the promised sum drops by its hold, its rows disappear, every other
    row stays, and releasing again changes nothing. When the deletion fails the
    rows stay charged and the reservation is queued for a retry, which frees
    them. *)
Theorem release_exact r l t fail :
  db l = Some t → backed t r →
  let '(r1, l1) := release fail r l in
  rheld r1 = ∅ ∧
  if fail then db l1 = Some t ∧ id r ∈ pendingReleases l1 ∧
    db (retryPendingReleases (λ _, false) l1) = Some (drop_reservations ({[id r]} ∪ pendingReleases l) t)
  else ∃ t1, db l1 = Some t1 ∧ (release false r1 l1).2 = l1 ∧
    (∀ dev, device_sum t1 dev = device_sum t dev - get (rheld r) dev) ∧
    (∀ rid dev, t1 !! (rid, dev) = if decide (rid = id r) then None else t !! (rid, dev)).
Proof.
  intros Ht [Hid B]. unfold release. rewrite Ht, (bool_decide_false _ Hid). destruct fail; cbn.
  - split_and!; [done|done|set_solver|]. unfold retryPendingReleases. cbn. do 2 f_equal.
    apply set_eq. intros x. rewrite elem_of_filter. naive_solver.
  - split; [done|]. exists (drop_reservations {[id r]} t). rewrite (bool_decide_false _ Hid). split_and!.
    + done.
    + cbn. f_equal; [set_solver|]. f_equal. apply map_eq. intros k. rewrite !drop_lookup. by case_decide.
    + intros dev. destruct (B dev) as [-> _]. apply device_sum_drop.
    + intros rid dev. rewrite drop_lookup. cbn. repeat case_decide; set_solver.
Qed.

Lemma release_exact_witness : rheld (release false demo_reservation demo_admitted.2).1 = ∅.
Proof.
  pose proof (release_exact demo_reservation demo_admitted.2 demo_table false ltac:(by vm_compute) demo_backed) as H.
  destruct (release false demo_reservation demo_admitted.2) as [r1 l1]. apply H.
Defined.

(** ** Progressive admission *)

Definition ahead (written : Z) (r : capacityReservation) : Prop :=
  admitted r = limit r ∨ saturatingAdd written (step r / 2) ≤ admitted r.

Lemma extend_loop_ahead fuel : ∀ ext fs written r l r' l',
  0 < step r → admitted r ≤ limit r → ((limit r - admitted r) / step r + 1 ≤ Z.of_nat fuel ∨ admitted r = limit r) →
  extend_loop fuel ext fs written r l = (None, r', l') → ahead written r' ∧ admitted r ≤ admitted r' ≤ limit r'.
Proof.
  induction fuel as [|fuel IH]; intros ext fs written r l r' l' Hs Hle Hf E; cbn in E.
  - destruct (_ && _) eqn:Hc; injection E as <- <-.
    + apply andb_true_iff in Hc as [Hc%Z.ltb_lt _].
      pose proof (Z.div_pos (limit r - admitted r) (step r)). lia.
    + apply andb_false_iff in Hc as [Hc|Hc]; apply Z.ltb_ge in Hc; unfold ahead; split; lia.
  - destruct (_ && _) eqn:Hc.
    2: { injection E as <- <-. apply andb_false_iff in Hc as [Hc|Hc]; apply Z.ltb_ge in Hc; unfold ahead; split; lia. }
    apply andb_true_iff in Hc as [Hc%Z.ltb_lt _].
    destruct (extendLocked _ _ _ _ _) as [[r1 l1]|] eqn:Ex; [|done].
    apply extendLocked_policy in Ex as [(_ & H2 & H3 & _) H5]. apply IH in E; cbn in *; rewrite ?H2, ?H3 in *;
      [destruct E; split; [done|lia]|lia|lia|].
    destruct (Z.min_spec (step r) (limit r - admitted r)) as [[Hm ->]|[Hm ->]]; [|lia].
    left. destruct Hf as [Hf|Hf]; [|lia].
    replace (limit r - admitted r) with (limit r - (admitted r + step r) + 1 * step r) in Hf by lia.
    rewrite Z.div_add in Hf by lia. lia.
Qed.

(** An upload of unknown length never writes beyond what was admitted.
    Whenever [consume] accepts a progress report the written size is within the
    admitted size, which is within the limit; and the reservation is at least
    half a step ahead of the writer or fully admitted: the extension loop does
    not stop early. *)
Theorem consume_stays_admitted e ext fs size r l r' l' :
  progressive r = true → 0 < step r → admitted r ≤ limit r → 0 ≤ size →
  consume e ext fs size r l = (None, r', l') →
  size ≤ admitted r' ≤ limit r' ∧ limit r' = limit r ∧ ahead size r'.
Proof.
  intros Hp Hs Hle Hsz E. apply consume_phases in E as [(_ & _ & H)|(_ & r1 & l1 & E1 & E2)].
  { specialize (H eq_refl). lia. }
  assert (same_policy r r1 ∧ admitted r1 = admitted r) as [(D & L & S & P) Ad].
  { destruct E1 as [(_ & r0 & Eg & ->)|(_ & -> & _)]; [|done]. apply give_back_policy in Eg. apply Eg. }
  rewrite P, Hp in E2. destruct E2 as (e1 & El & He). destruct (He eq_refl) as [-> Hadm].
  pose proof (extend_loop_policy _ _ _ _ _ _ _ _ _ El) as (_ & L2 & _ & _).
  apply extend_loop_ahead in El as [Ha Hb]; [|lia|lia|].
  - split_and!; [done|lia|congruence|done].
  - left. unfold extend_fuel. pose proof (Z.div_pos (limit r1 - admitted r1) (step r1)). lia.
Qed.

Definition demo_fs2 : FileSystem := mkFS (λ _, Some 7) (λ _, Some (2 ^ 40)).
Definition demo_progressive : capacityReservation :=
  match (reserveProgressive (calm 0 "") demo_fs2 500 "/imports" (2 ^ 30) (archiveUploadDemands "/imports" "/sites")
           "b" (λ _, false) demo_ledger) with
  | (Ok r, _) => r | (Err _, _) => fresh_reservation 0 ∅ ""
  end.
Definition demo_progressive_ledger : capacityLedger :=
  (reserveProgressive (calm 0 "") demo_fs2 500 "/imports" (2 ^ 30) (archiveUploadDemands "/imports" "/sites")
     "b" (λ _, false) demo_ledger).2.
Definition demo_consumed := consume (calm 0 "") (λ _, calm 0 "") demo_fs2 (200 * 2 ^ 20) demo_progressive demo_progressive_ledger.
Lemma consume_stays_admitted_witness : 200 * 2 ^ 20 ≤ admitted demo_consumed.1.2.
Proof.
  apply (consume_stays_admitted (calm 0 "") (λ _, calm 0 "") demo_fs2 (200 * 2 ^ 20) demo_progressive
    demo_progressive_ledger demo_consumed.1.2 demo_consumed.2).
  - vm_compute. reflexivity.
  - vm_compute. reflexivity.
  - vm_compute. congruence.
  - vm_compute. congruence.
  - assert (demo_consumed.1.1 = None) as <- by (vm_compute; reflexivity).
    fold demo_consumed. by destruct demo_consumed as [[]].
Defined.

(** ** Reclaiming *)

Lemma reclaim_owners_spec proc os : ∀ f t err t',
  reclaim_owners proc f os t = (err, t') →
  t' ⊆ t ∧ (∀ k r, t !! k = Some r → reclaimable proc (owner_pid r) (owner_start r) = false → t' !! k = Some r) ∧
  (err = None → ∀ k r, t' !! k = Some r → row_owner r ∈ os → reclaimable proc (owner_pid r) (owner_start r) = false).
Proof.
  induction os as [|[pid start] os IH]; intros f t err t' E; cbn in E.
  { injection E as <- <-. split_and!; [done|done|]. intros _ k r _ Hin. by apply not_elem_of_nil in Hin. }
  destruct (reclaimable proc pid start) eqn:Hr.
  - destruct (f 0%nat); [injection E as <- <-; split_and!; done|].
    set (t1 := filter _ t) in E. destruct (IH _ _ _ _ E) as (H1 & H2 & H3).
    assert (t1 ⊆ t) as Hsub by apply map_filter_subseteq. split_and!; [by etrans| |].
    + intros k r Hk Hn. apply H2; [|done]. apply map_lookup_filter_Some. split; [done|].
      intros [= E1 E2]. rewrite E1, E2 in Hn. congruence.
    + intros He k r Hk [Eo|Hin]%elem_of_cons; [|by eapply H3].
      pose proof (lookup_weaken _ _ _ _ Hk H1) as Hk1. apply map_lookup_filter_Some in Hk1 as [_ Hne]. done.
  - destruct (IH _ _ _ _ E) as (H1 & H2 & H3). split_and!; [done|done|].
    intros He k r Hk [Eo|Hin]%elem_of_cons; [|by eapply H3]. by injection Eo as -> ->.
Qed.

(** Reclaiming after a restart is safe and complete: a reservation whose
    owner process is alive with the recorded identity, or whose identity cannot
    be read, is kept whatever fails; and when it succeeds nothing of a missing
    or replaced process is left charged. *)
Theorem reclaim_spares_live_owners e proc t err t' :
  reclaimOrphanedCapacityReservations e proc t = (err, t') →
  t' ⊆ t ∧
  (∀ k r, t !! k = Some r → 0 < owner_pid r →
     proc (owner_pid r) = Alive (owner_start r) ∨ proc (owner_pid r) = Unreadable → t' !! k = Some r) ∧
  (err = None → ∀ k r, t' !! k = Some r →
     0 < owner_pid r ∧ (proc (owner_pid r) = Alive (owner_start r) ∨ proc (owner_pid r) = Unreadable)).
Proof.
  unfold reclaimOrphanedCapacityReservations. intros E. destruct (fault e 0); [injection E as <- <-; by split_and!|].
  destruct (reclaim_owners_spec _ _ _ _ _ _ E) as (H1 & H2 & H3). split_and!; [done| |].
  - intros k r Hk Hp Hal. apply H2; [done|]. unfold reclaimable. rewrite (proj2 (Z.ltb_lt _ _)) by done.
    destruct Hal as [Ea|Ea]; rewrite Ea; [|done]. by rewrite bool_decide_true.
  - intros He k r Hk. pose proof (lookup_weaken _ _ _ _ Hk H1) as Hk1.
    assert (row_owner r ∈ owners t) as Hin.
    { apply elem_of_remove_dups, list_elem_of_fmap. exists (k, r). by rewrite elem_of_map_to_list. }
    specialize (H3 He k r Hk Hin). unfold reclaimable in H3. destruct (Z.ltb_spec 0 (owner_pid r)); [|done].
    split; [done|]. destruct (proc (owner_pid r)); [|done|by right]. left. f_equal.
    by apply negb_false_iff, bool_decide_eq_true in H3.
Qed.

Lemma reclaim_spares_live_owners_witness :
  (reclaimOrphanedCapacityReservations (calm 0 "") (λ p, if p =? 10 then Alive "boot:1" else Missing)
     {[("a", 7) := mkRes 300 10 "boot:1"; ("c", 7) := mkRes 5 11 "boot:0"]}).2 ⊆
  {[("a", 7) := mkRes 300 10 "boot:1"; ("c", 7) := mkRes 5 11 "boot:0"]}.
Proof.
  apply (reclaim_spares_live_owners (calm 0 "") (λ p, if p =? 10 then Alive "boot:1" else Missing)
    {[("a", 7) := mkRes 300 10 "boot:1"; ("c", 7) := mkRes 5 11 "boot:0"]} None). by vm_compute.
Defined.

End CapacityProps.
