(* ===== verification/DBLocks.v ===== *)
(** * DBLocks: leased locks with fencing generations

    Models [src/internal/operations/db_locks.go]: the [resource_locks] table
    shared by all processes, acquisition with takeover of expired leases,
    release, renewal, the renewal loop of [Hold], and the verification of
    fencing tokens at a privileged boundary. The step relation interleaves the
    processes; the theorems show that a lease that lost its row is fenced off
    for good. *)
From S2P Require Import Prelude.

Module DBLocks.

(** ** Data *)

(** A row of [resource_locks]. *)
Record LockRow := mkLock { owner_id : string; lease_until : Z; generation : Z; acquired_at : Z }.
Abbreviation Locks := (gmap string LockRow).

Record Lease := mkLease { ResourceKey : string; OwnerID : string; Generation : Z; ExpiresAt : Z }.
Record FencingToken := mkToken { TokenKey : string; TokenOwner : string; TokenGeneration : Z }.

Definition Token (lease : Lease) : FencingToken :=
  mkToken (ResourceKey lease) (OwnerID lease) (Generation lease).

Definition ErrLockHeld : error := ESentinel "lock is held by another owner".
Definition ErrLeaseLost : error := ESentinel "lease is no longer valid".

(** The lock manager of one process. *)
Record DBLocks := mkLocks { ownerID : string; leaseTime : Z }.

(** [NewDBLocks]; fault 0: creating the table. *)
Definition NewDBLocks (e : Env) (has_db : bool) (owner : string) (lt : Z) : res DBLocks :=
  if negb has_db then Err (EMsg "db is required for distributed locking") else
  if bool_decide (owner = "") then Err (EMsg "owner_id is required for distributed locking") else
  if fault e 0 then Err (EWrap "ensure lock schema" io_err)
  else Ok (mkLocks owner (if lt <=? 0 then 30 * Second else lt)).

(** ** Operations *)

(** The row matches the owner and the generation of a lease. *)
Definition matches (r : LockRow) (owner : string) (gen : Z) : bool :=
  bool_decide (owner_id r = owner) && (generation r =? gen).

(** [tryOnce]; clock 0: now, clock 1: the base of the lease; fault 0: begin,
    1: the upsert, 2: its row count, 3: reading the generation back, 4: commit.
    A failure rolls back. *)
Definition tryOnce (e : Env) (dl : DBLocks) (key : string) (t : Locks) : res Lease * Locks :=
  let nowNS := clock e 0 in
  let leaseNS := clock e 1 + leaseTime dl in
  if fault e 0 then (Err (EWrap "begin lock txn" io_err), t) else
  if fault e 1 then (Err (EWrap "insert lock" io_err), t) else
  if fault e 2 then (Err (EWrap "rows affected" io_err), t) else
  let upsert := match t !! key with
                | None => Some (mkLock (ownerID dl) leaseNS 1 nowNS)
                | Some r => if lease_until r <=? nowNS
                            then Some (mkLock (ownerID dl) leaseNS (generation r + 1) nowNS) else None
                end in
  match upsert with
  | None => (Err ErrLockHeld, t)
  | Some row =>
      if fault e 3 then (Err (EWrap "read back generation" io_err), t) else
      if fault e 4 then (Err (EWrap "commit lock" io_err), t) else
      (Ok (mkLease key (ownerID dl) (generation row) leaseNS), <[key := row]> t)
  end.

Definition TryAcquire (e : Env) (dl : DBLocks) (key : string) (t : Locks) : res Lease * Locks :=
  if bool_decide (key = "") then (Err (EMsg "resource_key is required"), t) else tryOnce e dl key t.

(** What happens up to an attempt: its environment, and what the other processes
    have done to the table since the previous one. *)
Abbreviation Attempt := (Env * (Locks → Locks))%type.
Definition ctx_err : error := ESentinel "context deadline exceeded".

(** [Acquire]: the attempts until the context is done, at most one per entry. *)
Fixpoint acquire_loop (attempts : list Attempt) (dl : DBLocks) (key : string) (t : Locks) : res Lease * Locks :=
  match attempts with
  | [] => (Err (EWrap ("waiting for lock " +:+ key) ctx_err), t)
  | (e, others) :: rest =>
      match tryOnce e dl key (others t) with
      | (Ok lease, t') => (Ok lease, t')
      | (Err err, t') => if errors_is err ErrLockHeld then acquire_loop rest dl key t' else (Err err, t')
      end
  end.
Definition Acquire (attempts : list Attempt) (dl : DBLocks) (key : string) (t : Locks) : res Lease * Locks :=
  if bool_decide (key = "") then (Err (EMsg "resource_key is required"), t) else
  match attempts with
  | [] => (Err ctx_err, t)
  | _ => acquire_loop attempts dl key t
  end.

Definition set_until (r : LockRow) (z : Z) : LockRow := mkLock (owner_id r) z (generation r) (acquired_at r).

(** [Release]; fault 0: the update, 1: its row count, 2: inspecting the row. *)
Definition Release (e : Env) (lease : Lease) (t : Locks) : option error * Locks :=
  if bool_decide (ResourceKey lease = "") then (Some (EMsg "lease has no resource_key"), t) else
  if fault e 0 then (Some (EWrap "release lock" io_err), t) else
  match t !! ResourceKey lease with
  | Some r =>
      if matches r (OwnerID lease) (Generation lease) && (0 <? lease_until r) then
        let t' := <[ResourceKey lease := set_until r 0]> t in
        if fault e 1 then (Some (EWrap "rows affected" io_err), t') else (None, t')
      else if fault e 1 then (Some (EWrap "rows affected" io_err), t) else
      if fault e 2 then (Some (EWrap "inspect lock state" io_err), t) else
      if (generation r =? Generation lease) && (lease_until r =? 0) then (None, t) else (Some ErrLeaseLost, t)
  | None =>
      if fault e 1 then (Some (EWrap "rows affected" io_err), t) else
      if fault e 2 then (Some (EWrap "inspect lock state" io_err), t) else (None, t)
  end.

(** [Renew]; clock 0: now, clock 1: the base of the new expiry. *)
Definition Renew (e : Env) (dl : DBLocks) (lease : Lease) (t : Locks) : res Lease * Locks :=
  if bool_decide (ResourceKey lease = "") then (Err (EMsg "lease has no resource_key"), t) else
  let newExpiry := clock e 1 + leaseTime dl in
  if fault e 0 then (Err (EWrap "renew lock" io_err), t) else
  match t !! ResourceKey lease with
  | Some r =>
      if matches r (OwnerID lease) (Generation lease) && (clock e 0 <? lease_until r) then
        let t' := <[ResourceKey lease := set_until r newExpiry]> t in
        if fault e 1 then (Err (EWrap "rows affected" io_err), t')
        else (Ok (mkLease (ResourceKey lease) (OwnerID lease) (Generation lease) newExpiry), t')
      else if fault e 1 then (Err (EWrap "rows affected" io_err), t) else (Err ErrLeaseLost, t)
  | None => if fault e 1 then (Err (EWrap "rows affected" io_err), t) else (Err ErrLeaseLost, t)
  end.

(** [VerifyFencingTokenWithinContext], for a process with a database. *)
Definition VerifyFencingTokenWithin (e : Env) (token : FencingToken) (margin : Z) (t : Locks) : option error :=
  if bool_decide (TokenKey token = "") || bool_decide (TokenOwner token = "") || (TokenGeneration token <=? 0)
  then Some ErrLeaseLost else
  if fault e 0 then Some (EWrap "verify fencing token" io_err) else
  match t !! TokenKey token with
  | Some r => if matches r (TokenOwner token) (TokenGeneration token) && (clock e 0 + margin <? lease_until r)
              then None else Some ErrLeaseLost
  | None => Some ErrLeaseLost
  end.
Definition VerifyFencingToken (e : Env) (token : FencingToken) (t : Locks) : option error :=
  VerifyFencingTokenWithin e token 0 t.

(** [Hold]: the first renewal, then one per tick until the context is done;
    fault 2: the context is done by the time a renewal has failed. *)
Fixpoint hold_loop (ticks : list Attempt) (dl : DBLocks) (lease : Lease) (t : Locks) : option error * Locks :=
  match ticks with
  | [] => (None, t)
  | (e, others) :: rest =>
      match Renew e dl lease (others t) with
      | (Ok renewed, t') => hold_loop rest dl renewed t'
      | (Err err, t') => (if fault e 2 then None else Some err, t')
      end
  end.
Definition Hold (ticks : list Attempt) (dl : DBLocks) (lease : Lease) (t : Locks) : option error * Locks :=
  if bool_decide (ResourceKey lease = "") then (Some (EMsg "lease has no resource_key"), t) else
  match ticks with
  | [] => (None, t)
  | (e, others) :: rest =>
      match Renew e dl lease (others t) with
      | (Ok renewed, t') => hold_loop rest dl renewed t'
      | (Err err, t') => (Some err, t')
      end
  end.

(** ** Interleavings *)

Inductive Op : Type :=
  | OTry (dl : DBLocks) (key : string)
  | ORelease (lease : Lease)
  | ORenew (dl : DBLocks) (lease : Lease).

Definition exec (e : Env) (o : Op) (t : Locks) : Locks :=
  match o with
  | OTry dl key => (TryAcquire e dl key t).2
  | ORelease lease => (Release e lease t).2
  | ORenew dl lease => (Renew e dl lease t).2
  end.

(** One operation of some process between two instants. *)
Inductive step : Z * Locks → Z * Locks → Prop :=
  | Step now now' t e o : (∀ n, now ≤ clock e n ≤ now') → step (now, t) (now', exec e o t).

(** ** Fencing *)

Lemma tryOnce_spec e dl key t out t' :
  tryOnce e dl key t = (out, t') →
  match out with
  | Ok lease => ResourceKey lease = key ∧ OwnerID lease = ownerID dl ∧
      ExpiresAt lease = clock e 1 + leaseTime dl ∧
      t' = <[key := mkLock (ownerID dl) (ExpiresAt lease) (Generation lease) (clock e 0)]> t ∧
      match t !! key with
      | None => Generation lease = 1
      | Some r => Generation lease = generation r + 1 ∧ lease_until r ≤ clock e 0
      end
  | Err err => t' = t
  end.
Proof.
  unfold tryOnce. intros E. repeat (case_if; [by simplify_eq|]).
  destruct (t !! key) as [r|]; [destruct (Z.leb_spec (lease_until r) (clock e 0))|]; repeat case_if; simplify_eq; done.
Qed.

Lemma matches_spec r o g : matches r o g = true ↔ owner_id r = o ∧ generation r = g.
Proof. unfold matches. by rewrite andb_true_iff, bool_decide_eq_true, Z.eqb_eq. Qed.

(** Release and renewal only move the end of a lease. *)
Lemma Release_table e lease t :
  (Release e lease t).2 = t ∨
  ∃ r z, t !! ResourceKey lease = Some r ∧ (Release e lease t).2 = <[ResourceKey lease := set_until r z]> t.
Proof.
  unfold Release. case_if; [by left|]. case_if; [by left|].
  destruct (t !! ResourceKey lease) as [r|]; [|repeat case_if; by left].
  case_if; [|repeat case_if; by left]. right. exists r, 0. by case_if.
Qed.
Lemma Renew_table e dl lease t :
  (Renew e dl lease t).2 = t ∨
  ∃ r z, t !! ResourceKey lease = Some r ∧ (Renew e dl lease t).2 = <[ResourceKey lease := set_until r z]> t.
Proof.
  unfold Renew. case_if; [by left|]. case_if; [by left|].
  destruct (t !! ResourceKey lease) as [r|]; [|repeat case_if; by left].
  case_if; [|repeat case_if; by left]. right. exists r, (clock e 1 + leaseTime dl). by case_if.
Qed.

Lemma set_until_row (P : LockRow → Prop) (t : Locks) k key r r0 z :
  t !! key = Some r → t !! k = Some r0 → ∃ r', <[k := set_until r0 z]> t !! key = Some r' ∧
    (generation r' = generation r ∧ owner_id r' = owner_id r ∨ P r').
Proof.
  intros Hr Hr0. destruct (decide (k = key)) as [->|Hne].
  - rewrite lookup_insert_eq. eexists. split; [done|]. left. by simplify_eq.
  - rewrite lookup_insert_ne by done. eauto.
Qed.

(** The generation of a key never decreases, its row is never removed, and only
    an expired lease is taken over. *)
Lemma exec_row e o t key r :
  t !! key = Some r → ∃ r', exec e o t !! key = Some r' ∧
    (generation r' = generation r ∧ owner_id r' = owner_id r ∨
     generation r' = generation r + 1 ∧ lease_until r ≤ clock e 0).
Proof.
  intros Hr. destruct o as [dl k|lease|dl lease]; cbn.
  - unfold TryAcquire. case_if; [by eauto|]. destruct (tryOnce e dl k t) as [[l|] t'] eqn:E;
      apply tryOnce_spec in E; [|subst; eauto].
    destruct E as (_ & _ & _ & -> & Hk). cbn. destruct (decide (k = key)) as [->|Hne].
    + rewrite Hr in Hk. rewrite lookup_insert_eq. eexists. split; [done|]. cbn. tauto.
    + rewrite lookup_insert_ne by done. eauto.
  - destruct (Release_table e lease t) as [->|(r0 & z & Hr0 & ->)]; [by eauto|by apply (set_until_row (λ r', generation r' = generation r + 1 ∧ lease_until r ≤ clock e 0))].
  - destruct (Renew_table e dl lease t) as [->|(r0 & z & Hr0 & ->)]; [by eauto|by apply (set_until_row (λ r', generation r' = generation r + 1 ∧ lease_until r ≤ clock e 0))].
Qed.

(** The lease is no longer the row's: it was overtaken by a higher generation. *)
Definition fenced (t : Locks) (lease : Lease) : Prop :=
  ∃ r, t !! ResourceKey lease = Some r ∧ Generation lease < generation r.

Lemma fenced_step s s' lease : step s s' → fenced s.2 lease → fenced s'.2 lease.
Proof.
  intros [now now' t e o _] (r & Hr & Hg). cbn in *.
  destruct (exec_row e o t _ _ Hr) as (r' & Hr' & [[E _]|[E _]]); exists r'; split; (done || lia).
Qed.

Lemma fenced_steps s s' lease : rtc step s s' → fenced s.2 lease → fenced s'.2 lease.
Proof. induction 1; eauto using fenced_step. Qed.

Lemma fenced_matches t lease r :
  fenced t lease → t !! ResourceKey lease = Some r → matches r (OwnerID lease) (Generation lease) = false.
Proof.
  intros (r0 & Hr0 & Hg) Hr. simplify_eq. apply not_true_iff_false. rewrite matches_spec. lia.
Qed.

(** C36: leases are fenced. After another acquisition of its resource, a lease
    is dead whatever the processes do next: its token is never verified again,
    it cannot be renewed, and releasing it reports a lost lease and leaves the
    table alone. *)
Theorem stale_lease_fenced_forever s s' e dl lease new t1 e' dl' margin :
  fault e' 0 = false → fault e' 1 = false → fault e' 2 = false → ResourceKey lease ≠ "" →
  (∃ r, s.2 !! ResourceKey lease = Some r ∧ generation r = Generation lease) →
  tryOnce e dl (ResourceKey lease) s.2 = (Ok new, t1) →
  rtc step (s.1, t1) s' →
  VerifyFencingTokenWithin e' (Token lease) margin s'.2 = Some ErrLeaseLost ∧
  Renew e' dl' lease s'.2 = (Err ErrLeaseLost, s'.2) ∧
  Release e' lease s'.2 = (Some ErrLeaseLost, s'.2).
Proof.
  intros F0 F1 F2 Hkey (r & Hr & Hg) Ht Hs.
  assert (fenced t1 lease) as Hf.
  { apply tryOnce_spec in Ht as (_ & _ & _ & -> & Hnew). rewrite Hr in Hnew.
    eexists. rewrite lookup_insert_eq. split; [done|]. cbn. lia. }
  apply (fenced_steps _ _ _ Hs) in Hf. pose proof Hf as (r' & Hr' & Hlt).
  pose proof (fenced_matches _ _ _ Hf Hr') as Hm.
  unfold VerifyFencingTokenWithin, Renew, Release. cbn. rewrite (bool_decide_false _ Hkey), F0, F1, F2, Hr', Hm. cbn.
  split_and!; [by case_if|done|]. by rewrite (proj2 (Z.eqb_neq _ _)) by lia.
Qed.

(** ** Takeover *)

(** The row is the token's and its lease lasts beyond an instant. *)
Definition keeps (t : Locks) (token : FencingToken) (until : Z) : Prop :=
  ∃ r, t !! TokenKey token = Some r ∧ matches r (TokenOwner token) (TokenGeneration token) = true ∧
       until < lease_until r.

(** An operation not later than [start + margin], other than the release of
    this very lease; renewals are not older than [start] and longer than the
    margin. *)
Definition within (start margin : Z) (token : FencingToken) (x : Env * Op) : Prop :=
  clock x.1 0 ≤ start + margin ∧
  match x.2 with
  | ORelease lease => Token lease ≠ token
  | ORenew dl _ => start ≤ clock x.1 1 ∧ margin < leaseTime dl
  | OTry _ _ => True
  end.

Fixpoint run (ops : list (Env * Op)) (t : Locks) : Locks :=
  match ops with
  | [] => t
  | (e, o) :: rest => run rest (exec e o t)
  end.

Lemma keeps_ne t token until k row :
  k ≠ TokenKey token → keeps t token until → keeps (<[k := row]> t) token until.
Proof. intros Hne (r & Hr & H). exists r. by rewrite lookup_insert_ne. Qed.

Lemma exec_keeps e o t token start margin :
  keeps t token (start + margin) → within start margin token (e, o) → keeps (exec e o t) token (start + margin).
Proof.
  intros K [Hc Ho]. pose proof K as (r & Hr & Hm & Hu). destruct o as [dl k|lease|dl lease]; cbn in *.
  - unfold TryAcquire. case_if; [done|]. destruct (tryOnce e dl k t) as [[l|] t'] eqn:E;
      apply tryOnce_spec in E; [|by subst].
    destruct E as (_ & _ & _ & -> & Hk). cbn. destruct (decide (k = TokenKey token)) as [->|Hne].
    + rewrite Hr in Hk. lia.
    + by apply keeps_ne.
  - unfold Release. case_if; [done|]. case_if; [done|].
    destruct (decide (ResourceKey lease = TokenKey token)) as [Ek|Hne].
    + rewrite Ek, Hr. destruct (matches r (OwnerID lease) (Generation lease)) eqn:Hml; [|by repeat case_if].
      exfalso. apply Ho. apply matches_spec in Hml as [H1 H2], Hm as [H3 H4].
      destruct token, lease; cbn in *; subst. done.
    + repeat (case_match || case_if); try done; by apply keeps_ne.
  - unfold Renew. case_if; [done|]. case_if; [done|].
    destruct (decide (ResourceKey lease = TokenKey token)) as [Ek|Hne].
    + rewrite Ek, Hr. repeat case_if; try done;
        (eexists; cbn; rewrite lookup_insert_eq; split; [done|]; split; [done|cbn; lia]).
    + repeat (case_match || case_if); try done; by apply keeps_ne.
Qed.

Lemma run_keeps ops token start margin : ∀ t,
  keeps t token (start + margin) → Forall (within start margin token) ops → keeps (run ops t) token (start + margin).
Proof.
  induction ops as [|[e o] ops IH]; intros t K Hw; [done|]. apply Forall_cons in Hw as [Hx Hw].
  cbn. apply IH; [|done]. by apply exec_keeps.
Qed.

(** A verified token keeps the lock from everybody else for the margin. *)
Lemma verified_excludes e token margin t ops e' dl :
  VerifyFencingTokenWithin e token margin t = None →
  Forall (within (clock e 0) margin token) ops → clock e' 0 ≤ clock e 0 + margin →
  ∃ err, TryAcquire e' dl (TokenKey token) (run ops t) = (Err err, run ops t).
Proof.
  intros Hv Hops Hc.
  assert (keeps t token (clock e 0 + margin)) as Hk.
  { unfold VerifyFencingTokenWithin in Hv. case_if; [done|]. case_if; [done|].
    destruct (t !! TokenKey token) as [r|] eqn:Hr; [|done]. case_if; [|done].
    apply andb_true_iff in Heqb1 as [Hm Hl%Z.ltb_lt]. by exists r. }
  destruct (run_keeps ops token _ _ t Hk Hops) as (r & Hr & _ & Hu).
  unfold TryAcquire. case_if; [by eexists|].
  destruct (tryOnce e' dl (TokenKey token) (run ops t)) as [[l|err] t'] eqn:E; apply tryOnce_spec in E.
  - destruct E as (_ & _ & _ & _ & Hnew). rewrite Hr in Hnew. lia.
  - exists err. by subst.
Qed.

(** While a token verifies with a margin nobody else can get the lock: if
    it verifies at one instant then, unless the holder releases it, no
    acquisition of the resource by any process succeeds until the margin has
    passed, whatever operations the processes interleave before it. *)
Theorem verified_token_excludes e token margin t ops e' dl :
  VerifyFencingTokenWithin e token margin t = None →
  Forall (within (clock e 0) margin token) ops → clock e' 0 ≤ clock e 0 + margin →
  ∃ err, TryAcquire e' dl (TokenKey token) (run ops t) = (Err err, run ops t).
Proof. apply verified_excludes. Qed.

(** ** Generations *)

(** The leases handed out by a run, oldest first. *)
Fixpoint granted (ops : list (Env * Op)) (t : Locks) : list Lease :=
  match ops with
  | [] => []
  | (e, o) :: rest =>
      match o with
      | OTry dl key => match (TryAcquire e dl key t).1 with Ok lease => [lease] | Err _ => [] end
      | _ => []
      end ++ granted rest (exec e o t)
  end.

Lemma granted_above ops : ∀ t key r lease,
  t !! key = Some r → lease ∈ granted ops t → ResourceKey lease = key → generation r < Generation lease.
Proof.
  induction ops as [|[e o] ops IH]; intros t key r lease Hr Hin Hk; cbn in Hin; [by apply not_elem_of_nil in Hin|].
  destruct (exec_row e o t key r Hr) as (r' & Hr' & Hg).
  apply elem_of_app in Hin as [Hin|Hin]; [|specialize (IH _ _ _ _ Hr' Hin Hk); lia].
  destruct o as [dl k|l|dl l]; try by apply not_elem_of_nil in Hin.
  unfold TryAcquire in Hin. case_if; [by apply not_elem_of_nil in Hin|].
  destruct (tryOnce e dl k t) as [[l|] t'] eqn:E; cbn in Hin; [|by apply not_elem_of_nil in Hin].
  apply list_elem_of_singleton in Hin as ->. apply tryOnce_spec in E as (HK & _ & _ & _ & Hnew).
  rewrite Hk in HK. subst k. rewrite Hr in Hnew. lia.
Qed.

(** Fencing generations are unique and increasing: over any sequence of
    operations of any processes, with failures, a lease granted later for the
    same resource carries a strictly larger generation. *)
Theorem generations_increase ops t l1 i j lease1 lease2 :
  granted ops t = l1 → l1 !! i = Some lease1 → l1 !! j = Some lease2 → (i < j)%nat →
  ResourceKey lease1 = ResourceKey lease2 → Generation lease1 < Generation lease2.
Proof.
  intros <-. revert t i j. induction ops as [|[e o] ops IH]; intros t i j Hi Hj Hlt Hk; cbn in Hi, Hj; [done|].
  set (hd := match o with OTry dl key => _ | _ => [] end) in *.
  assert (hd = [] ∨ ∃ lease, hd = [lease] ∧ ∃ r, exec e o t !! ResourceKey lease = Some r ∧ generation r = Generation lease)
    as [Hnil|(lease & Hone & r & Hr & Hg)].
  { unfold hd. destruct o as [dl k|l|dl l]; [|by left|by left]. cbn. unfold TryAcquire. case_if; [by left|].
    destruct (tryOnce e dl k t) as [[l|] t'] eqn:E; [|by left]. right. exists l. split; [done|].
    apply tryOnce_spec in E as (-> & _ & _ & -> & _). cbn. rewrite lookup_insert_eq. by eexists. }
  - rewrite Hnil in Hi, Hj. by eapply IH.
  - rewrite Hone in Hi, Hj. destruct i as [|i], j as [|j]; try lia; cbn in Hi, Hj.
    + injection Hi as <-. apply list_elem_of_lookup_2 in Hj. rewrite <- Hg.
      by eapply (granted_above _ _ _ _ _ Hr Hj).
    + eapply IH; [exact Hi|exact Hj|lia|done].
Qed.

(** ** Waiting for a lock and holding it *)

Lemma acquire_loop_spec attempts dl key lease t' : ∀ t,
  acquire_loop attempts dl key t = (Ok lease, t') →
  ∃ pre e others post t0, attempts = pre ++ (e, others) :: post ∧
    acquire_loop pre dl key t = (Err (EWrap ("waiting for lock " +:+ key) ctx_err), t0) ∧
    tryOnce e dl key (others t0) = (Ok lease, t').
Proof.
  induction attempts as [|[e others] rest IH]; intros t H; cbn in H; [done|].
  destruct (tryOnce e dl key (others t)) as [[l|err] t1] eqn:E.
  - injection H as -> ->. by exists [], e, others, rest, t.
  - case_if; [|done]. destruct (IH _ H) as (pre & e' & o' & post & t0 & -> & Hp & Ht).
    exists ((e, others) :: pre), e', o', post, t0. split_and!; [done| |done]. cbn. by rewrite E, Heqb.
Qed.

(** [Acquire] waits for its turn. It hands out a lease only from an attempt
    that found the resource free or its lease expired at that attempt's time,
    after attempts that all met a live holder; the row then carries exactly
    this lease, under a generation above the previous one. *)
Theorem Acquire_waits_its_turn attempts dl key t lease t' :
  Acquire attempts dl key t = (Ok lease, t') →
  ∃ pre e others post t0, attempts = pre ++ (e, others) :: post ∧
    acquire_loop pre dl key t = (Err (EWrap ("waiting for lock " +:+ key) ctx_err), t0) ∧
    (∀ r, others t0 !! key = Some r → lease_until r ≤ clock e 0 ∧ Generation lease = generation r + 1) ∧
    t' = <[key := mkLock (OwnerID lease) (ExpiresAt lease) (Generation lease) (clock e 0)]> (others t0) ∧
    OwnerID lease = ownerID dl ∧ ExpiresAt lease = clock e 1 + leaseTime dl.
Proof.
  unfold Acquire. case_if; [done|]. intros H. destruct attempts as [|a rest]; [done|].
  apply acquire_loop_spec in H as (pre & e & others & post & t0 & -> & Hp & Ht).
  exists pre, e, others, post, t0. apply tryOnce_spec in Ht as (_ & Ho & Hx & Hi & Hg).
  rewrite Ho. split_and!; [done|done| |done..]. intros r Hr. rewrite Hr in Hg. lia.
Qed.

(** The row is the lease's, with the expiry a renewal in [e] gives it. *)
Definition renewed_by (e : Env) (dl : DBLocks) (lease : Lease) (t : Locks) : Prop :=
  ∃ r, t !! ResourceKey lease = Some r ∧ matches r (OwnerID lease) (Generation lease) = true ∧
       lease_until r = clock e 1 + leaseTime dl.

Lemma Renew_renewed e dl lease t lease' t' :
  Renew e dl lease t = (Ok lease', t') → renewed_by e dl lease t' ∧ Token lease' = Token lease.
Proof.
  unfold Renew. case_if; [done|]. destruct (fault e 0); [done|]. destruct (fault e 1), (t !! ResourceKey lease) as [r|];
    try done; [by case_if|].
  destruct (matches r _ _) eqn:Hm; cbn; [|done]. case_if; [|done]. intros [= <- <-]. split; [|done].
  eexists. rewrite lookup_insert_eq. split_and!; [done| |done].
  exact Hm.
Qed.

Lemma renewed_by_token e dl lease lease' t : Token lease' = Token lease → renewed_by e dl lease' t → renewed_by e dl lease t.
Proof. destruct lease, lease'. cbn. by intros [= -> -> ->]. Qed.

(** Every renewal of a holding period that ended quietly succeeded. *)
Lemma hold_loop_app pre post dl : ∀ lease t t1,
  hold_loop pre dl lease t = (None, t1) → Forall (λ x, fault x.1 2 = false) pre →
  ∃ lease', Token lease' = Token lease ∧ hold_loop (pre ++ post) dl lease t = hold_loop post dl lease' t1.
Proof.
  induction pre as [|[e others] pre IH]; intros lease t t1 H F; cbn in H |- *; [injection H as ->; eauto|].
  apply Forall_cons in F as [F0 F]. cbn in F0. destruct (Renew e dl lease (others t)) as [[l|err] t2] eqn:E.
  - destruct (IH _ _ _ H F) as (l' & Hl & ->). apply Renew_renewed in E as [_ Ht]. exists l'. split; [congruence|done].
  - by rewrite F0 in H.
Qed.

Lemma hold_loop_last ticks dl : ∀ lease t t',
  hold_loop ticks dl lease t = (None, t') → Forall (λ x, fault x.1 2 = false) ticks →
  match last ticks with Some x => renewed_by x.1 dl lease t' | None => t' = t end.
Proof.
  induction ticks as [|[e others] ticks IH]; intros lease t t' H F; [by injection H as ->|].
  cbn [hold_loop] in H. apply Forall_cons in F as [F0 F]. cbn in F0.
  destruct (Renew e dl lease (others t)) as [[l|err] t2] eqn:E; [|by rewrite F0 in H].
  apply Renew_renewed in E as [Hr Ht]. specialize (IH _ _ _ H F). rewrite last_cons.
  destruct (last ticks) as [x|]; [by apply (renewed_by_token _ _ _ l)|]. by subst.
Qed.

Lemma Hold_unfold ticks dl lease t :
  ResourceKey lease ≠ "" → (∀ e others rest, ticks = (e, others) :: rest → fault e 2 = false) →
  Hold ticks dl lease t = hold_loop ticks dl lease t.
Proof.
  intros Hk F. unfold Hold. rewrite (bool_decide_false _ Hk). destruct ticks as [|[e others] rest]; [done|].
  cbn. by rewrite (F _ _ _ eq_refl).
Qed.

Lemma heads_ok ticks : Forall (λ x : Attempt, fault x.1 2 = false) ticks →
  ∀ e others rest, ticks = (e, others) :: rest → fault e 2 = false.
Proof. intros F e o r ->. by apply Forall_cons in F as [? _]. Qed.

(** A holder that is not told otherwise still holds its lock. When [Hold]
    returns no error before the context has cut a failing renewal short, the
    row is still this lease's, whatever the other processes did in between, and
    lasts a full lease time from the last renewal. *)
Theorem Hold_quiet_means_held ticks dl lease t t' e others pre :
  ResourceKey lease ≠ "" → ticks = pre ++ [(e, others)] → Forall (λ x, fault x.1 2 = false) ticks →
  Hold ticks dl lease t = (None, t') → renewed_by e dl lease t'.
Proof.
  intros Hk -> F H. rewrite Hold_unfold in H by eauto using heads_ok.
  apply hold_loop_last in H; [|done]. by rewrite last_snoc in H.
Qed.

(** [Hold] gives up at the first failed renewal, a database error included:
    it does not wait for a second one, although the row is untouched and the
    lease may still verify. *)
Theorem Hold_aborts_on_one_fault pre e others post dl lease t t1 :
  ResourceKey lease ≠ "" → Forall (λ x, fault x.1 2 = false) pre → Hold pre dl lease t = (None, t1) →
  fault e 0 = true → fault e 2 = false → 
  Hold (pre ++ (e, others) :: post) dl lease t = (Some (EWrap "renew lock" io_err), others t1).
Proof.
  intros Hk F H F0 F2. rewrite Hold_unfold in H by eauto using heads_ok.
  rewrite Hold_unfold; [|done|].
  - destruct (hold_loop_app pre ((e, others) :: post) dl lease t t1 H F) as (l' & Hl & ->). cbn. unfold Renew.
    assert (ResourceKey l' = ResourceKey lease) as -> by (by injection Hl).
    by rewrite (bool_decide_false _ Hk), F0, F2.
  - destruct pre as [|x pre]; cbn; [by intros ??? [= <- <- <-]|].
    intros e' o' r' [= -> _]. by apply Forall_cons in F as [? _].
Qed.

(** ** A concrete run *)

Definition p1 : DBLocks := mkLocks "p1" 100.
Definition p2 : DBLocks := mkLocks "p2" 100.
Definition t1 : Locks := (TryAcquire (calm 10 "") p1 "site" ∅).2.
Definition lease1 : Lease := mkLease "site" "p1" 1 110.
Definition t2 : Locks := (tryOnce (calm 200 "") p2 "site" t1).2.

Lemma stale_lease_fenced_forever_witness :
  Renew (calm 210 "") p1 lease1 t2 = (Err ErrLeaseLost, t2).
Proof.
  apply (stale_lease_fenced_forever (10, t1) (10, t2) (calm 200 "") p2 lease1 (mkLease "site" "p2" 2 300) t2
    (calm 210 "") p1 0).
  - reflexivity.
  - reflexivity.
  - reflexivity.
  - vm_compute. congruence.
  - exists (mkLock "p1" 110 1 10). split; vm_compute; reflexivity.
  - vm_compute. reflexivity.
  - apply rtc_refl.
Defined.

Lemma verified_token_excludes_witness :
  ∃ err, TryAcquire (calm 60 "") p2 "site" (run [(calm 50 "", ORenew p1 lease1)] t1) =
    (Err err, run [(calm 50 "", ORenew p1 lease1)] t1).
Proof.
  apply (verified_token_excludes (calm 40 "") (Token lease1) 30 t1 [(calm 50 "", ORenew p1 lease1)] (calm 60 "") p2).
  - vm_compute. reflexivity.
  - repeat constructor; vm_compute; congruence.
  - vm_compute. congruence.
Defined.

Lemma generations_increase_witness : 1 < 2.
Proof.
  apply (generations_increase [(calm 10 "", OTry p1 "site"); (calm 200 "", OTry p2 "site")] ∅
    [lease1; mkLease "site" "p2" 2 300] 0 1 lease1 (mkLease "site" "p2" 2 300)).
  - vm_compute. reflexivity.
  - reflexivity.
  - reflexivity.
  - repeat constructor.
  - reflexivity.
Defined.

Lemma Acquire_waits_its_turn_witness :
  ∃ pre e others post t0,
    [(calm 20 "", id); (calm 200 "", id)] = pre ++ (e, others) :: post ∧
    acquire_loop pre p2 "site" t1 = (Err (EWrap "waiting for lock site" ctx_err), t0) ∧
    (∀ r, others t0 !! "site" = Some r → lease_until r ≤ clock e 0 ∧ 2 = generation r + 1) ∧
    t2 = <["site" := mkLock "p2" 300 2 (clock e 0)]> (others t0) ∧ "p2" = "p2" ∧ 300 = clock e 1 + 100.
Proof.
  apply (Acquire_waits_its_turn [(calm 20 "", id); (calm 200 "", id)] p2 "site" t1 (mkLease "site" "p2" 2 300) t2).
  vm_compute. reflexivity.
Defined.

Lemma Hold_quiet_means_held_witness :
  renewed_by (calm 80 "") p1 lease1 (Hold [(calm 40 "", id); (calm 80 "", id)] p1 lease1 t1).2.
Proof.
  apply (Hold_quiet_means_held [(calm 40 "", id); (calm 80 "", id)] p1 lease1 t1 _ (calm 80 "") id [(calm 40 "", id)]).
  - vm_compute. congruence.
  - reflexivity.
  - repeat constructor.
  - vm_compute. reflexivity.
Defined.

(** One failed statement 40 ns after a renewal for 100 ns: the token verifies. *)
Definition broken (now : Z) : Env := mkEnv (λ _, now) (λ n, bool_decide (n = 0%nat)) (λ _, None).
Lemma Hold_aborts_on_one_fault_witness :
  (Hold ([(calm 40 "", id)] ++ [(broken 80, id)]) p1 lease1 t1).1 = Some (EWrap "renew lock" io_err) ∧
  VerifyFencingToken (calm 80 "") (Token lease1) (Hold ([(calm 40 "", id)] ++ [(broken 80, id)]) p1 lease1 t1).2 = None.
Proof.
  rewrite (Hold_aborts_on_one_fault [(calm 40 "", id)] (broken 80) id [] p1 lease1 t1 (Hold [(calm 40 "", id)] p1 lease1 t1).2).
  - vm_compute. split; reflexivity.
  - vm_compute. congruence.
  - repeat constructor.
  - vm_compute. reflexivity.
  - reflexivity.
  - reflexivity.
Defined.

End DBLocks.
