(* ===== verification/Session.v ===== *)
(** * Session: the revocable session registry

    Models [src/internal/session/registry.go]: the registry of one process with
    its in-memory entries over the shared [sessions] and [session_revocations]
    tables, or over a state file. Times are Unix seconds. *)
From S2P Require Import Prelude.

Module Session.

Record Entry := mkEntry { Username : string; Expiry : Z }.
#[export] Instance Entry_eq_dec : EqDecision Entry.
Proof. solve_decision. Defined.

Abbreviation Sessions := (gmap string Entry).

(** The two tables. *)
Record Store := mkStore { sessions : Sessions; session_revocations : gmap string Z }.

(** [Registry]; [file] is the content of the state file, for a registry with a
    path and no database. *)
Record Registry := mkRegistry {
  path : string;
  file : Sessions;
  db : option Store;
  Entries : Sessions;
  err : option error;
  generations : gmap string Z
}.

Definition set_entries (r : Registry) (m : Sessions) : Registry :=
  mkRegistry (path r) (file r) (db r) m (err r) (generations r).
Definition set_err (r : Registry) (e : option error) : Registry :=
  mkRegistry (path r) (file r) (db r) (Entries r) e (generations r).
Definition set_sessions (r : Registry) (s : Store) (m : Sessions) : Registry :=
  mkRegistry (path r) (file r) (Some (mkStore m (session_revocations s))) (Entries r) (err r) (generations r).

(** [Generation]; fault 0: the query. *)
Definition Generation (e : Env) (username : string) (r : Registry) : res Z :=
  match db r with
  | Some s => if fault e 0 then Err io_err else Ok (default 0 (session_revocations s !! username))
  | None => Ok (default 0 (generations r !! username))
  end.

(** [HashSessionID]; [digest] is the hexadecimal SHA-256 of a string. *)
Definition HashSessionID (digest : string → string) (id : string) : string :=
  if bool_decide (id = "") then "" else digest ("stepanel-queued-session" +:+ of_bytes [chr 0] +:+ id).

(** [ActiveSessionHash]; fault 0: the query, 1: reading its rows (which fails
    only when no row read so far matches). *)
Definition ActiveSessionHash (e : Env) (digest : string → string) (username hash : string) (r : Registry) : res bool :=
  if bool_decide (hash = "") then Ok false else
  let now := clock e 0 in
  let found (m : Sessions) := existsb (λ '(id, en), bool_decide (Username en = username) && (now <? Expiry en) &&
                                bool_decide (HashSessionID digest id = hash)) (map_to_list m) in
  match db r with
  | Some s => if fault e 0 then Err io_err else
              if found (sessions s) then Ok true else if fault e 1 then Err io_err else Ok false
  | None => Ok (found (Entries r))
  end.

(** [advanceGenerationLocked]; [fail]: the upsert fails. *)
Definition advanceGeneration (fail : bool) (username : string) (r : Registry) : option error * Registry :=
  match db r with
  | Some s =>
      if fail then (Some io_err, r) else
      let g := default 0 (session_revocations s !! username) in
      (None, mkRegistry (path r) (file r) (Some (mkStore (sessions s) (<[username := g + 1]> (session_revocations s))))
               (Entries r) (err r) (generations r))
  | None =>
      let g := default 0 (generations r !! username) in
      (None, mkRegistry (path r) (file r) None (Entries r) (err r) (<[username := g + 1]> (generations r)))
  end.

(** [persistFileLocked]. *)
Definition persistFile (fail : bool) (r : Registry) : option error * Registry :=
  if bool_decide (path r = "") then (None, r) else
  if fail then (Some io_err, r)
  else (None, mkRegistry (path r) (Entries r) (db r) (Entries r) (err r) (generations r)).

(** The persistence functions apply a change to the [sessions] table in one
    statement or transaction, or rewrite the state file. *)
Definition persist (fail : bool) (change : Sessions → Sessions) (r : Registry) : option error * Registry :=
  match db r with
  | Some s => if fail then (Some io_err, r) else (None, set_sessions r s (change (sessions s)))
  | None => persistFile fail r
  end.

Definition expired (now : Z) (en : Entry) : bool := Expiry en <=? now.
Definition drop_expired (now : Z) (m : Sessions) : Sessions := filter (λ '(_, en), expired now en = false) m.
Definition drop_user (username : string) (m : Sessions) : Sessions := filter (λ '(_, en), Username en ≠ username) m.

(** [persistFullSyncLocked], [persistAddLocked], [persistDeleteLocked],
    [persistDeleteManyLocked] and [persistDeleteByUsernameLocked]. *)
Definition persistFullSync (fail : bool) (r : Registry) : option error * Registry :=
  persist fail (λ _, Entries r) r.
Definition persistAdd (fail : bool) (id : string) (en : Entry) (cutoff : Z) (evicted : string) (r : Registry)
    : option error * Registry :=
  persist fail (λ m, <[id := en]> (if bool_decide (evicted = "") then drop_expired cutoff m
                                   else delete evicted (drop_expired cutoff m))) r.
Definition persistDelete (fail : bool) (id : string) (r : Registry) : option error * Registry :=
  persist fail (delete id) r.
Definition persistDeleteByUsername (fail : bool) (username : string) (r : Registry) : option error * Registry :=
  persist fail (drop_user username) r.

Definition maxEntries : nat := Z.to_nat 10000.

(** The ID of the entry with the earliest expiry, the first one found among
    equals; the empty ID stands for none found yet. *)
Definition older (acc : string * Z) (x : string * Entry) : string * Z :=
  if bool_decide (acc.1 = "") || (Expiry x.2 <? acc.2) then (x.1, Expiry x.2) else acc.
Definition oldest (m : Sessions) : string := (foldl older ("", 0) (map_to_list m)).1.

(** [Add]; clock 0: now; fault 0: persisting. The garbage collection and the
    eviction of the in-memory entries stay when persisting fails. *)
Definition Add (e : Env) (id username : string) (expiry : Z) (r : Registry) : option error * Registry :=
  let now := clock e 0 in
  let live := drop_expired now (Entries r) in
  let evicted := if decide (maxEntries ≤ size live)%nat then oldest live else "" in
  let kept := if bool_decide (evicted = "") then live else delete evicted live in
  let en := mkEntry username expiry in
  let r1 := set_entries r (<[id := en]> kept) in
  match persistAdd (fault e 0) id en now evicted r1 with
  | (Some er, r2) => (Some er, set_err (set_entries r2 (delete id (Entries r2))) (Some er))
  | (None, r2) => (None, set_err r2 None)
  end.

(** [CheckValid]; clock 0: now; fault 0: the query. *)
Definition CheckValid (e : Env) (id username : string) (expiry : Z) (r : Registry) : res bool :=
  match db r with
  | Some s =>
      if fault e 0 then Err io_err else
      match sessions s !! id with
      | None => Ok false
      | Some en => Ok ((Expiry en =? expiry) && bool_decide (Username en = username) && (clock e 0 <? Expiry en))
      end
  | None =>
      match Entries r !! id with
      | None => Ok false
      | Some en => Ok ((Expiry en =? expiry) && bool_decide (Username en = username) && (clock e 0 <? expiry))
      end
  end.
Definition Valid (e : Env) (id username : string) (expiry : Z) (r : Registry) : bool :=
  match CheckValid e id username expiry r with Ok b => b | Err _ => false end.

(** [RevokeUser]; fault 0: deleting the sessions, 1: advancing the generation. *)
Definition RevokeUser (e : Env) (username : string) (r : Registry) : option error * Registry :=
  let previous := Entries r in
  let r1 := set_entries r (drop_user username (Entries r)) in
  match persistDeleteByUsername (fault e 0) username r1 with
  | (Some er, r2) => (Some er, set_err (set_entries r2 previous) (Some er))
  | (None, r2) =>
      match advanceGeneration (fault e 1) username r2 with
      | (Some er, r3) => (Some er, set_err r3 (Some er))
      | (None, r3) => (None, set_err r3 None)
      end
  end.

(** [RevokeUserExcept]; fault 0: advancing the generation, 1: the deletion. The
    deletion is skipped when the in-memory entries hold no other session. *)
Definition other_session (username keepID : string) (id : string) (en : Entry) : bool :=
  bool_decide (Username en = username) && negb (bool_decide (id = keepID)).
Definition drop_others (username keepID : string) (m : Sessions) : Sessions :=
  filter (λ '(id, en), other_session username keepID id en = false) m.

Definition RevokeUserExcept (e : Env) (username keepID : string) (r : Registry) : option error * Registry :=
  let previous := Entries r in
  let revoked := filter (λ '(id, en), other_session username keepID id en = true) (map_to_list (Entries r)) in
  let r1 := set_entries r (drop_others username keepID (Entries r)) in
  match advanceGeneration (fault e 0) username r1 with
  | (Some er, r2) => (Some er, set_err (set_entries r2 previous) (Some er))
  | (None, r2) =>
      match revoked with
      | [] => (None, set_err r2 None)
      | _ =>
          match persist (fault e 1) (drop_others username keepID) r2 with
          | (Some er, r3) => (Some er, set_err (set_entries r3 previous) (Some er))
          | (None, r3) => (None, set_err r3 None)
          end
      end
  end.

(** [Revoke]; fault 0: the deletion. *)
Definition Revoke (e : Env) (id : string) (r : Registry) : option error * Registry :=
  let r1 := set_entries r (delete id (Entries r)) in
  match persistDelete (fault e 0) id r1 with
  | (Some er, r2) =>
      (Some er, set_err (match Entries r !! id with
                         | Some en => set_entries r2 (<[id := en]> (Entries r2))
                         | None => r2
                         end) (Some er))
  | (None, r2) => (None, set_err r2 None)
  end.

Definition PersistenceError (r : Registry) : option error := err r.

(** What reading and parsing a state file gives: entries, the older format with
    bare expiries, nothing, or an error. *)
Inductive StateFile : Type :=
  | FMissing
  | FEntries (m : Sessions)
  | FLegacy (m : gmap string Z)
  | FBad (e : error).

Definition load_state (f : StateFile) : res Sessions :=
  match f with
  | FMissing => Ok ∅
  | FEntries m => Ok m
  | FLegacy m => Ok (mkEntry "" <$> m)
  | FBad e => Err e
  end.

Definition live_entries (now : Z) (m : Sessions) : Sessions :=
  filter (λ '(id, en), id ≠ "" ∧ expired now en = false) m.

Definition New (p : string) : Registry := mkRegistry p ∅ None ∅ None ∅.
Definition ErrNotExist : error := ESentinel "file does not exist".

(** [Open]; clock 0: now; fault 0: writing the file back, 1: the failure is
    that its directory is missing. *)
Definition Open (e : Env) (p : string) (f : StateFile) : res Registry :=
  m ← load_state f;
  match persistFullSync (fault e 0) (mkRegistry p m None (live_entries (clock e 0) m) None ∅) with
  | (Some er, _) => Err (if fault e 1 then ErrNotExist else er)
  | (None, r) => Ok r
  end.

(** [OpenDB]; [f]: the legacy state file at [legacyPath], opened in [eo]. Fault
    0: creating the table, 1: reading the sessions, 2: the synchronization. *)
Definition OpenDB (e eo : Env) (s : Store) (legacyPath : string) (f : StateFile) : res Registry :=
  if fault e 0 || fault e 1 then Err io_err else
  loaded ← (if bool_decide (sessions s = ∅) && negb (bool_decide (legacyPath = "")) then
              match Open eo legacyPath f with
              | Ok legacy => Ok (Entries legacy)
              | Err er => if errors_is er ErrNotExist then Ok ∅ else Err er
              end
            else Ok (sessions s));
  match persistFullSync (fault e 2) (mkRegistry "" ∅ (Some s) (live_entries (clock e 0) loaded) None ∅) with
  | (Some er, _) => Err er
  | (None, r) => Ok r
  end.

(** ** Processes over one database *)

Inductive Op : Type :=
  | OAdd (id username : string) (expiry : Z)
  | ORevokeUser (username : string)
  | ORevokeUserExcept (username keepID : string)
  | ORevoke (id : string).

Definition exec (e : Env) (o : Op) (r : Registry) : option error * Registry :=
  match o with
  | OAdd id username expiry => Add e id username expiry r
  | ORevokeUser username => RevokeUser e username r
  | ORevokeUserExcept username keepID => RevokeUserExcept e username keepID r
  | ORevoke id => Revoke e id r
  end.

(** One operation of some process, with whatever it has in memory, over the
    shared tables; not a login of [user]. *)
Inductive step_but (user : string) : Store → Store → Prop :=
  | StepBut s s' e o r :
      db r = Some s → db (exec e o r).2 = Some s' →
      (∀ id expiry, o ≠ OAdd id user expiry) → step_but user s s'.

(** ** What an operation does to the tables *)

(** The sessions table afterwards: unchanged, or one of the changes. *)
Lemma persist_db fail change r er r' s :
  persist fail change r = (er, r') → db r = Some s →
  (er = None ∧ db r' = Some (mkStore (change (sessions s)) (session_revocations s)) ∨ er ≠ None ∧ r' = r) ∧
  Entries r' = Entries r.
Proof. unfold persist. intros E Hs. rewrite Hs in E. destruct fail; injection E as <- <-; auto. Qed.

Lemma advance_db fail username r er r' s :
  advanceGeneration fail username r = (er, r') → db r = Some s →
  (er = None ∧ db r' = Some (mkStore (sessions s)
     (<[username := default 0 (session_revocations s !! username) + 1]> (session_revocations s))) ∨
   er ≠ None ∧ r' = r) ∧ Entries r' = Entries r.
Proof. unfold advanceGeneration. intros E Hs. rewrite Hs in E. destruct fail; injection E as <- <-; auto. Qed.

(** Every session afterwards was there before or has just been added; a
    generation never decreases. *)
Record table_change (o : Op) (s s' : Store) : Prop := {
  tc_sessions : ∀ id en, sessions s' !! id = Some en →
    sessions s !! id = Some en ∨ ∃ u x, o = OAdd id u x ∧ en = mkEntry u x;
  tc_generations : ∀ u, default 0 (session_revocations s !! u) ≤ default 0 (session_revocations s' !! u)
}.

Lemma advance_le (m : gmap string Z) u v :
  default 0 (m !! v) ≤ default 0 (<[u := default 0 (m !! u) + 1]> m !! v).
Proof. rewrite lookup_insert. case_decide; [subst; cbn; lia|done]. Qed.

Lemma exec_table e o r s s' : db r = Some s → db (exec e o r).2 = Some s' → table_change o s s'.
Proof.
  intros Hs Hs'. assert (∀ s0, Some s = Some s0 → table_change o s s0) as Hsame by (intros ? [= <-]; split; [by left|done]).
  destruct o as [id u x|u|u k|id]; cbn [exec] in Hs'.
  - unfold Add in Hs'. cbn zeta in Hs'. destruct (persistAdd _ _ _ _ _ _) as [er r2] eqn:E. unfold persistAdd in E.
    destruct (persist_db _ _ _ _ _ s E Hs) as [[[-> E2]|[Hn ->]] _].
    + cbn [snd set_err db] in Hs'. rewrite E2 in Hs'. injection Hs' as <-. split; cbn; [|done].
      intros i en [[-> ->]|[_ Hi]]%insert_cases; [right; eauto|]. left.
      assert (drop_expired (clock e 0) (sessions s) !! i = Some en) as Hd.
      { case_if; [done|]. by apply lookup_delete_Some in Hi as [_ Hi]. }
      by apply map_lookup_filter_Some in Hd as [Hd _].
    + destruct er; [|done]. cbn in Hs'. rewrite Hs in Hs'. by apply Hsame.
  - unfold RevokeUser in Hs'. destruct (persistDeleteByUsername _ _ _) as [er r2] eqn:E. unfold persistDeleteByUsername in E.
    destruct (persist_db _ _ _ _ _ s E Hs) as [[[-> E2]|[Hn ->]] _].
    2: { destruct er; [|done]. cbn in Hs'. rewrite Hs in Hs'. by apply Hsame. }
    destruct (advanceGeneration _ _ _) as [er3 r3] eqn:E3.
    assert (∃ g, s' = mkStore (drop_user u (sessions s)) g ∧
              ∀ v, default 0 (session_revocations s !! v) ≤ default 0 (g !! v)) as (g & -> & Hg).
    { destruct (advance_db _ _ _ _ _ _ E3 E2) as [[[-> E4]|[Hn3 ->]] _].
      - cbn in Hs'. rewrite E4 in Hs'. injection Hs' as <-. eexists. split; [done|]. intros v. apply advance_le.
      - destruct er3; [|done]. cbn in Hs'. rewrite E2 in Hs'. injection Hs' as <-. by eexists. }
    split; cbn; [|done]. intros i en [Hi _]%map_lookup_filter_Some. by left.
  - unfold RevokeUserExcept in Hs'. destruct (advanceGeneration _ _ _) as [er r2] eqn:E.
    destruct (advance_db _ _ _ _ _ s E Hs) as [[[-> E2]|[Hn ->]] _].
    2: { destruct er; [|done]. cbn in Hs'. rewrite Hs in Hs'. by apply Hsame. }
    set (g := <[u := _]> (session_revocations s)) in E2.
    assert (∃ m, s' = mkStore m g ∧ m ⊆ sessions s) as (m & -> & Hm).
    { destruct (filter _ _) as [|x l]; [cbn in Hs'; rewrite E2 in Hs'; injection Hs' as <-; by eexists|].
      destruct (persist _ _ r2) as [er3 r3] eqn:E3.
      destruct (persist_db _ _ _ _ _ _ E3 E2) as [[[-> E4]|[Hn3 ->]] _].
      - cbn in Hs'. rewrite E4 in Hs'. injection Hs' as <-. eexists. split; [done|]. apply map_filter_subseteq.
      - destruct er3; [|done]. cbn in Hs'. rewrite E2 in Hs'. injection Hs' as <-. by eexists. }
    split; cbn; [|intros v; apply advance_le]. intros i en Hi. left. by eapply lookup_weaken.
  - unfold Revoke in Hs'. destruct (persistDelete _ _ _) as [er r2] eqn:E. unfold persistDelete in E.
    destruct (persist_db _ _ _ _ _ s E Hs) as [[[-> E2]|[Hn ->]] _].
    + cbn in Hs'. rewrite E2 in Hs'. injection Hs' as <-. split; cbn; [|done].
      intros i en [_ Hi]%lookup_delete_Some. by left.
    + destruct er; [|done]. destruct (Entries r !! id); cbn in Hs'; rewrite Hs in Hs'; by apply Hsame.
Qed.

(** ** Revocation *)

Definition no_session (u : string) (s : Store) : Prop :=
  ∀ id en, sessions s !! id = Some en → Username en ≠ u.
Definition gen (u : string) (s : Store) : Z := default 0 (session_revocations s !! u).

Lemma RevokeUser_Ok e u r r1 s s1 :
  db r = Some s → RevokeUser e u r = (None, r1) → db r1 = Some s1 →
  no_session u s1 ∧ gen u s1 = gen u s + 1.
Proof.
  intros Hs E Hs1. unfold RevokeUser in E. destruct (persistDeleteByUsername _ _ _) as [er r2] eqn:E2.
  unfold persistDeleteByUsername in E2. destruct (persist_db _ _ _ _ _ s E2 Hs) as [[[-> D2]|[Hn ->]] _];
    [|by destruct er].
  destruct (advanceGeneration _ _ _) as [er3 r3] eqn:E3.
  destruct (advance_db _ _ _ _ _ _ E3 D2) as [[[-> D3]|[Hn ->]] _]; [|by destruct er3].
  injection E as <-. cbn in Hs1. rewrite D3 in Hs1. injection Hs1 as <-. split.
  - intros id en. cbn. intros [_ Hne]%map_lookup_filter_Some. done.
  - unfold gen. cbn. by rewrite lookup_insert_eq.
Qed.

Lemma step_but_change u s s' :
  step_but u s s' → (no_session u s → no_session u s') ∧ gen u s ≤ gen u s'.
Proof.
  intros [s0 s1 e o r Hs Hs' Ho]. destruct (exec_table e o r s0 s1 Hs Hs') as [T G]. split; [|apply G].
  intros Hn id en Hi. destruct (T id en Hi) as [Hold|(v & x & -> & ->)]; [by eapply Hn|].
  cbn. intros ->. by apply (Ho id x).
Qed.

Lemma steps_but_change u s s' :
  rtc (step_but u) s s' → (no_session u s → no_session u s') ∧ gen u s ≤ gen u s'.
Proof.
  induction 1 as [|s s1 s2 H _ [IH1 IH2]]; [done|]. destruct (step_but_change u s s1 H) as [H1 H2].
  split; [auto|lia].
Qed.

Lemma no_session_invalid u s e id x r : db r = Some s → no_session u s → CheckValid e id u x r ≠ Ok true.
Proof.
  intros Hs Hn. unfold CheckValid. rewrite Hs. case_if; [done|]. destruct (sessions s !! id) as [en|] eqn:Hi; [|done].
  specialize (Hn id en Hi). rewrite (bool_decide_false _ Hn), andb_false_r. done.
Qed.

(** After a successful [RevokeUser] no session of the account is accepted
    by any process, whatever logins of other accounts, revocations and database
    failures follow, until the account logs in again; and its revocation
    generation has advanced for good. *)
Theorem revoked_user_stays_out e u r r1 s s1 s2 r2 e' id x :
  db r = Some s → RevokeUser e u r = (None, r1) → db r1 = Some s1 →
  rtc (step_but u) s1 s2 → db r2 = Some s2 →
  CheckValid e' id u x r2 ≠ Ok true ∧ gen u s < gen u s2.
Proof.
  intros Hs E Hs1 Hst Hs2. destruct (RevokeUser_Ok _ _ _ _ _ _ Hs E Hs1) as [Hn Hg].
  destruct (steps_but_change _ _ _ Hst) as [H1 H2]. split; [|lia].
  apply (no_session_invalid u s2); auto.
Qed.

(** ** Logins *)

Lemma oldest_elem m : m ≠ ∅ → m !! "" = None → oldest m ≠ "" ∧ ∃ en, m !! oldest m = Some en.
Proof.
  intros Hne He. unfold oldest.
  assert (∀ l acc, (acc.1 ≠ "" → is_Some (m !! acc.1)) → (∀ x, x ∈ l → m !! x.1 = Some x.2) →
    (acc.1 ≠ "" ∨ l ≠ []) → is_Some (m !! (foldl older acc l).1)) as H.
  { induction l as [|x l IH]; intros acc Ha Hl Hn; cbn.
    - destruct Hn; [by apply Ha|done].
    - assert (m !! x.1 = Some x.2) as Hx by (apply Hl; set_solver). assert (x.1 ≠ "") by (intros E; congruence).
      apply IH; [|intros; apply Hl; set_solver|left]; unfold older; case_if; cbn; try done.
      by apply orb_false_iff in Heqb as [?%bool_decide_eq_false ?]. }
  destruct (H (map_to_list m) ("", 0)) as [en Hen]; [done| | |].
  - intros [i en]. by rewrite elem_of_map_to_list.
  - right. intros Hl. apply Hne. by apply map_to_list_empty_iff.
  - split; [|eauto]. intros E. congruence.
Qed.

(** A login that was recorded is a valid session until its expiry, for
    every process; the sessions of other IDs survive it unless they had expired
    or were the one evicted for room; and the registry keeps at most ten
    thousand entries. *)
Theorem Add_then_valid e id u x r r1 s s1 e' :
  db r = Some s → Entries r !! "" = None → (size (Entries r) ≤ maxEntries)%nat →
  Add e id u x r = (None, r1) → db r1 = Some s1 → fault e' 0 = false → clock e' 0 < x →
  CheckValid e' id u x r1 = Ok true ∧ (size (Entries r1) ≤ maxEntries)%nat ∧
  ∃ evicted, ∀ i en, i ≠ id → i ≠ evicted → sessions s !! i = Some en → clock e 0 < Expiry en →
    sessions s1 !! i = Some en.
Proof.
  intros Hs Hempty Hsz E Hs1 F Hx. unfold Add in E. cbn zeta in E.
  set (live := drop_expired (clock e 0) (Entries r)) in *.
  set (ev := if decide _ then oldest live else "") in *.
  set (kept := if bool_decide (ev = "") then live else delete ev live) in *.
  assert (size live ≤ maxEntries)%nat as Hlive.
  { etrans; [|exact Hsz]. apply map_subseteq_size, map_filter_subseteq. }
  assert (S (size kept) ≤ maxEntries)%nat as Hkept.
  { unfold kept, ev. case_decide as Hd; [|by rewrite bool_decide_true; [lia|]].
    destruct (oldest_elem live) as (Ho & en & Hen).
    { intros Hl. rewrite Hl, map_size_empty in Hd. unfold maxEntries in Hd. lia. }
    { apply map_lookup_filter_None. by left. }
    rewrite bool_decide_false, map_size_delete_Some by eauto.
    assert (size live ≠ 0%nat) by (intros H0%map_size_empty_inv; by rewrite H0 in Hen). lia. }
  destruct (persistAdd _ _ _ _ _ _) as [er r2] eqn:E2. unfold persistAdd in E2.
  destruct (persist_db _ _ _ _ _ s E2 Hs) as [[[-> D2]|[Hn _]] En]; [|by destruct er].
  injection E as <-. cbn in Hs1. rewrite D2 in Hs1. injection Hs1 as <-. split_and!.
  - unfold CheckValid. cbn. rewrite D2, F. cbn. rewrite lookup_insert_eq. cbn.
    rewrite Z.eqb_refl, bool_decide_true, (proj2 (Z.ltb_lt _ _)) by done. done.
  - cbn. rewrite En. cbn. rewrite map_size_insert. destruct (kept !! id); cbn; lia.
  - exists ev. intros i en Hi Hev Hl Hexp. cbn. rewrite lookup_insert_ne by done.
    assert (drop_expired (clock e 0) (sessions s) !! i = Some en) as Hd.
    { apply map_lookup_filter_Some. split; [done|]. by apply Z.leb_gt. }
    case_if; [done|]. by rewrite lookup_delete_ne.
Qed.

(** ** Logging out other devices *)

Lemma drop_others_lookup u k m i en :
  drop_others u k m !! i = Some en ↔ m !! i = Some en ∧ (Username en = u → i = k).
Proof.
  unfold drop_others. rewrite map_lookup_filter_Some. apply and_iff_compat_l. unfold other_session.
  rewrite andb_false_iff, negb_false_iff, bool_decide_eq_false, bool_decide_eq_true.
  destruct (decide (Username en = u)); tauto.
Qed.

(** When the process has every session of the account in memory, a
    successful [RevokeUserExcept] ends all of them but the one kept: no other
    session of the account is accepted, the kept one is untouched, sessions of
    other accounts stay, and the generation advances. *)
Theorem RevokeUserExcept_ends_others e u keep r r1 s s1 :
  db r = Some s →
  (∀ id en, sessions s !! id = Some en → Username en = u → Entries r !! id = Some en) →
  RevokeUserExcept e u keep r = (None, r1) → db r1 = Some s1 →
  (∀ e' id x, id ≠ keep → CheckValid e' id u x r1 ≠ Ok true) ∧
  (∀ id en, id = keep ∨ Username en ≠ u → sessions s !! id = Some en → sessions s1 !! id = Some en) ∧
  gen u s1 = gen u s + 1.
Proof.
  intros Hs Hmem E Hs1. unfold RevokeUserExcept in E.
  destruct (advanceGeneration _ _ _) as [er r2] eqn:E2.
  destruct (advance_db _ _ _ _ _ s E2 Hs) as [[[-> D2]|[Hn ->]] _]; [|by destruct er].
  set (g := <[u := _]> (session_revocations s)) in D2.
  assert (gen u (mkStore (sessions s) g) = gen u s + 1) as Hg by (unfold gen, g; cbn; by rewrite lookup_insert_eq).
  assert (∀ id en, sessions s1 !! id = Some en ↔ sessions s !! id = Some en ∧ (Username en = u → id = keep)) as Hl.
  { destruct (filter _ _) as [|y l] eqn:Hf.
    - injection E as <-. cbn in Hs1. rewrite D2 in Hs1. injection Hs1 as <-. cbn. intros id en. split; [|tauto].
      intros Hi. split; [done|]. intros Hu. destruct (decide (id = keep)) as [|Hne]; [done|]. exfalso.
      apply (not_elem_of_nil (id, en)). rewrite <- Hf. apply list_elem_of_filter.
      split; [unfold other_session; by rewrite bool_decide_true, bool_decide_false|].
      by apply elem_of_map_to_list, Hmem.
    - destruct (persist _ _ r2) as [er3 r3] eqn:E3.
      destruct (persist_db _ _ _ _ _ _ E3 D2) as [[[-> D3]|[Hn ->]] _]; [|by destruct er3].
      injection E as <-. cbn in Hs1. rewrite D3 in Hs1. injection Hs1 as <-. intros id en. apply drop_others_lookup. }
  assert (session_revocations s1 = g) as Hrev.
  { destruct (filter _ _) as [|y l].
    - injection E as <-. cbn in Hs1. rewrite D2 in Hs1. by injection Hs1 as <-.
    - destruct (persist _ _ r2) as [er3 r3] eqn:E3.
      destruct (persist_db _ _ _ _ _ _ E3 D2) as [[[-> D3]|[Hn ->]] _]; [|by destruct er3].
      injection E as <-. cbn in Hs1. rewrite D3 in Hs1. by injection Hs1 as <-. }
  split_and!.
  - intros e' id x Hne. unfold CheckValid. rewrite Hs1. case_if; [done|].
    destruct (sessions s1 !! id) as [en|] eqn:Hi; [|done]. apply Hl in Hi as [_ Hu].
    rewrite (bool_decide_false (Username en = u)) by (intros Hx; by apply Hne, Hu). by rewrite andb_false_r.
  - intros id en Hor Hi. apply Hl. split; [done|]. tauto.
  - unfold gen. rewrite Hrev. exact Hg.
Qed.

(** The deletion is decided on the in-memory entries, not on the shared
    table. When the process does not have another session of the account in
    memory (one another process recorded, or one lost from memory by a failed
    login), [RevokeUserExcept] reports success and that session stays valid. *)
Theorem RevokeUserExcept_misses_unknown_session e u keep r s id x e' :
  db r = Some s → (∀ i en, Entries r !! i = Some en → Username en = u → i = keep) →
  sessions s !! id = Some (mkEntry u x) → id ≠ keep → fault e 0 = false → fault e' 0 = false → clock e' 0 < x →
  (RevokeUserExcept e u keep r).1 = None ∧ CheckValid e' id u x (RevokeUserExcept e u keep r).2 = Ok true.
Proof.
  intros Hs Hmem Hi Hne F F' Hx. unfold RevokeUserExcept.
  assert (filter (λ '(i, en), other_session u keep i en = true) (map_to_list (Entries r)) = []) as ->.
  { apply elem_of_nil_inv. intros [i en] [Ho Hin%elem_of_map_to_list]%list_elem_of_filter.
    unfold other_session in Ho. rewrite andb_true_iff, bool_decide_eq_true, negb_true_iff, bool_decide_eq_false in Ho.
    destruct Ho as [Hu Hk]. apply Hk. by apply (Hmem i en). }
  unfold advanceGeneration. cbn. rewrite Hs, F. cbn. split; [done|]. unfold CheckValid. cbn.
  rewrite F', Hi. cbn. by rewrite Z.eqb_refl, bool_decide_true, (proj2 (Z.ltb_lt _ _)) by done.
Qed.

Lemma live_lookup m now id u x :
  m !! id = Some (mkEntry u x) → id ≠ "" → now < x → live_entries now m !! id = Some (mkEntry u x).
Proof. intros. apply map_lookup_filter_Some. split; [done|]. split; [done|]. by apply Z.leb_gt. Qed.

(** A restart can bring revoked sessions back. The legacy session file is
    imported whenever the table is empty, so after a revocation that emptied it
    the next [OpenDB] accepts an unexpired session of the revoked account that
    the file still holds. *)
Theorem legacy_import_revives_revoked e u r r1 s s1 e2 eo p legacy id x r2 e' :
  db r = Some s → RevokeUser e u r = (None, r1) → db r1 = Some s1 → sessions s1 = ∅ →
  legacy !! id = Some (mkEntry u x) → id ≠ "" → p ≠ "" → fault eo 0 = false → clock eo 0 < x → clock e2 0 < x →
  OpenDB e2 eo s1 p (FEntries legacy) = Ok r2 → fault e' 0 = false → clock e' 0 < x →
  CheckValid e' id u x r2 = Ok true.
Proof.
  intros Hs E Hs1 Hemp Hl Hid Hp Fo Hxo Hx Ho F Hx'.
  apply (live_lookup _ (clock eo 0)) in Hl as Hl1; [|done..]. apply (live_lookup _ (clock e2 0)) in Hl1; [|done..].
  unfold OpenDB in Ho. case_if; [done|]. rewrite bool_decide_true, (bool_decide_false (p = "")) in Ho by done.
  unfold Open, persistFullSync, persist, persistFile in Ho. cbn [load_state mbind res_bind db path Entries] in Ho.
  rewrite (bool_decide_false (p = "")), Fo in Ho by done. cbn in Ho. case_if; [done|].
  injection Ho as <-. unfold CheckValid. cbn. rewrite F, Hl1. cbn.
  by rewrite Z.eqb_refl, bool_decide_true, (proj2 (Z.ltb_lt _ _)) by done.
Qed.

(** ** Concrete registries *)

Definition s0 : Store := mkStore ∅ ∅.
Definition r0 : Registry := mkRegistry "" ∅ (Some s0) ∅ None ∅.
Definition now0 : Env := calm 100 "".
Definition r1 : Registry := (Add now0 "sid1" "alice" 500 r0).2.
Definition r2 : Registry := (RevokeUser now0 "alice" r1).2.
Definition store_of (r : Registry) : Store := default s0 (db r).

Lemma revoked_user_stays_out_witness :
  CheckValid now0 "sid1" "alice" 500 r2 ≠ Ok true ∧ gen "alice" (store_of r1) < gen "alice" (store_of r2).
Proof.
  apply (revoked_user_stays_out now0 "alice" r1 r2 (store_of r1) (store_of r2) (store_of r2) r2 now0 "sid1" 500);
    [vm_compute; reflexivity..|apply rtc_refl|vm_compute; reflexivity].
Defined.

Lemma maxEntries_pos : (0 ≤ maxEntries)%nat.
Proof. apply Nat.le_0_l. Qed.

Lemma Add_then_valid_witness : CheckValid now0 "sid1" "alice" 500 r1 = Ok true.
Proof.
  apply (Add_then_valid now0 "sid1" "alice" 500 r0 r1 s0 (store_of r1) now0).
  - reflexivity.
  - reflexivity.
  - apply maxEntries_pos.
  - vm_compute. reflexivity.
  - vm_compute. reflexivity.
  - reflexivity.
  - vm_compute. reflexivity.
Defined.

Definition r3 : Registry := (RevokeUserExcept now0 "alice" "sid2" r1).2.
Lemma RevokeUserExcept_ends_others_witness : gen "alice" (store_of r3) = gen "alice" (store_of r1) + 1.
Proof.
  apply (RevokeUserExcept_ends_others now0 "alice" "sid2" r1 r3 (store_of r1) (store_of r3)).
  - vm_compute. reflexivity.
  - intros id en Hi _. assert (sessions (store_of r1) = Entries r1) as E by (vm_compute; reflexivity).
    by rewrite <- E.
  - vm_compute. reflexivity.
  - vm_compute. reflexivity.
Defined.

(** A second process over the same tables, started before the login. *)
Definition r4 : Registry := mkRegistry "" ∅ (db r1) ∅ None ∅.
Lemma RevokeUserExcept_misses_unknown_session_witness :
  CheckValid now0 "sid1" "alice" 500 (RevokeUserExcept now0 "alice" "sid2" r4).2 = Ok true.
Proof.
  apply (RevokeUserExcept_misses_unknown_session now0 "alice" "sid2" r4 (store_of r1) "sid1" 500 now0).
  - vm_compute. reflexivity.
  - intros i en. change (Entries r4) with (∅ : Sessions). by rewrite lookup_empty.
  - vm_compute. reflexivity.
  - vm_compute. congruence.
  - reflexivity.
  - reflexivity.
  - vm_compute. reflexivity.
Defined.

Definition legacy0 : Sessions := {["old" := mkEntry "alice" 900]}.
Lemma legacy_import_revives_revoked_witness :
  ∃ r, OpenDB now0 now0 (store_of r2) "sessions.json" (FEntries legacy0) = Ok r ∧ CheckValid now0 "old" "alice" 900 r = Ok true.
Proof.
  eexists. split; [vm_compute; reflexivity|].
  apply (legacy_import_revives_revoked now0 "alice" r1 r2 (store_of r1) (store_of r2) now0 now0 "sessions.json" legacy0
    "old" 900); first [vm_compute; reflexivity | vm_compute; congruence].
Defined.

End Session.
