(* ===== verification/DomainName.v ===== *)
(** * DomainName: the validator of host names

    Models [src/internal/domainname/domainname.go], the one check host names
    pass before they reach web server configuration, certificates or privileged
    helpers, and proves what an accepted name looks like. *)
From S2P Require Import Prelude.

Module DomainName.

Abbreviation byteseq := (list ascii).
Definition hyphen : ascii := "-"%char.
Definition dot : ascii := "."%char.

Definition maxNameLength : nat := 253.
Definition maxLabelLength : nat := 63.

Definition label_byte (c : ascii) : bool := is_lower c || is_upper c || is_digit c || bool_decide (c = hyphen).

(** [strings.EqualFold(label[:2], "xn")]. *)
Definition equal_fold_xn (a b : ascii) : bool :=
  bool_decide (lower_byte a = "x"%char) && bool_decide (lower_byte b = "n"%char).

Definition validateLabel (label : byteseq) : option error :=
  match label with
  | [] => Some (EMsg "label is empty")
  | first :: _ =>
      if decide (maxLabelLength < length label)%nat then Some (EMsg "label exceeds 63 characters") else
      if negb (forallb label_byte label) then Some (EMsg "invalid character") else
      if bool_decide (first = hyphen) || bool_decide (last label = Some hyphen)
      then Some (EMsg "label must not start or end with a hyphen") else
      match label with
      | a :: b :: c :: d :: rest =>
          if bool_decide (c = hyphen) && bool_decide (d = hyphen) then
            if negb (equal_fold_xn a b) then Some (EMsg "labels with hyphens in positions 3 and 4 are reserved")
            else match rest with [] => Some (EMsg "punycode label is empty") | _ => None end
          else None
      | _ => None
      end
  end.

Fixpoint validateLabels (labels : list byteseq) : option error :=
  match labels with
  | [] => None
  | l :: rest => match validateLabel l with
                 | Some e => Some (EWrap "domain label" e)
                 | None => validateLabels rest
                 end
  end.

(** [Validate] on the bytes of the name. *)
Definition Validate_bytes (name : byteseq) : option error :=
  if decide (name = []) then Some (EMsg "domain is required") else
  if decide (maxNameLength < length name)%nat then Some (EMsg "domain exceeds 253 characters") else
  if negb (forallb (λ c, code c <? 128) name) then
    Some (EMsg "domain must be ASCII; submit internationalized names in punycode (xn--) form") else
  if bool_decide (last name = Some dot) then Some (EMsg "domain must not end with a dot") else
  let labels := split_bytes dot name in
  if decide (length labels < 2)%nat then Some (EMsg "domain must contain at least two labels") else
  match validateLabels labels with
  | Some e => Some e
  | None =>
      if forallb is_digit (default [] (last labels)) then Some (EMsg "top-level label must not be numeric") else None
  end.
Definition Validate (name : string) : option error := Validate_bytes (bytes_of name).

Definition Valid (name : string) : bool := match Validate name with None => true | Some _ => false end.

Definition Normalize (name : string) : res string :=
  match Validate name with
  | Some e => Err e
  | None => Ok (lower_ascii name)
  end.

(** ** Lowercasing *)

(** Facts about single bytes, checked on all of them. *)
Definition byte_facts (c : ascii) : bool :=
  let l := lower_byte c in
  bool_decide (lower_byte l = l) && (negb (label_byte c) || label_byte l && negb (is_upper l)) &&
  eqb (bool_decide (l = hyphen)) (bool_decide (c = hyphen)) && eqb (bool_decide (l = dot)) (bool_decide (c = dot)) &&
  eqb (is_digit l) (is_digit c) && eqb (code l <? 128) (code c <? 128).

Lemma byte_facts_all c : byte_facts c = true.
Proof. destruct c as [[] [] [] [] [] [] [] []]; vm_compute; reflexivity. Qed.

Lemma lower_byte_facts c :
  lower_byte (lower_byte c) = lower_byte c ∧
  (label_byte c = true → label_byte (lower_byte c) = true ∧ is_upper (lower_byte c) = false) ∧
  (lower_byte c = hyphen ↔ c = hyphen) ∧ (lower_byte c = dot ↔ c = dot) ∧
  is_digit (lower_byte c) = is_digit c ∧ (code (lower_byte c) <? 128) = (code c <? 128).
Proof.
  pose proof (byte_facts_all c) as H. unfold byte_facts in H.
  rewrite !andb_true_iff, !eqb_true_iff in H. destruct H as [[[[[H1 H2] H3] H4] H5] H6].
  apply bool_decide_eq_true in H1.
  split_and!; try done.
  - intros Hl. rewrite Hl in H2. cbn in H2. apply andb_true_iff in H2 as [H2 Hu]. by apply negb_true_iff in Hu.
  - by rewrite <- (bool_decide_eq_true (lower_byte c = hyphen)), H3, bool_decide_eq_true.
  - by rewrite <- (bool_decide_eq_true (lower_byte c = dot)), H4, bool_decide_eq_true.
Qed.

Definition lower_bytes (l : byteseq) : byteseq := lower_byte <$> l.

Lemma forallb_lower (p : ascii → bool) l :
  (∀ c, p (lower_byte c) = p c) → forallb p (lower_bytes l) = forallb p l.
Proof. intros H. induction l as [|c l IH]; [done|]. cbn. rewrite H. f_equal. exact IH. Qed.

Lemma split_lower l : split_bytes dot (lower_bytes l) = lower_bytes <$> split_bytes dot l.
Proof.
  induction l as [|c l IH]; [done|]. change (lower_bytes (c :: l)) with (lower_byte c :: lower_bytes l).
  cbn [split_bytes]. destruct (lower_byte_facts c) as (_ & _ & _ & Hd & _).
  destruct (decide (c = dot)) as [->|Hne].
  - rewrite decide_True by (by apply Hd). by rewrite IH.
  - rewrite decide_False by (by rewrite Hd). rewrite IH. by destruct (split_bytes dot l).
Qed.

Lemma last_lower l : last (lower_bytes l) = lower_byte <$> last l.
Proof. apply fmap_last. Qed.

Lemma bool_decide_lower_last l c :
  (∀ x, lower_byte x = c ↔ x = c) → bool_decide (last (lower_bytes l) = Some c) = bool_decide (last l = Some c).
Proof.
  intros H. apply bool_decide_ext. rewrite last_lower. destruct (last l) as [x|]; cbn; [|done].
  split; intros [= E]; f_equal; by apply H.
Qed.

Lemma lower_label_bytes l : forallb label_byte l = true → forallb label_byte (lower_bytes l) = true.
Proof.
  induction l as [|c l IH]; [done|]. intros [Hc Hl]%andb_true_iff.
  destruct (lower_byte_facts c) as (_ & Hlc & _). destruct (Hlc Hc) as [E _].
  cbn. rewrite E. exact (IH Hl).
Qed.

Lemma validateLabel_lower l : validateLabel l = None → validateLabel (lower_bytes l) = None.
Proof.
  unfold validateLabel. destruct l as [|a l]; [done|].
  set (lab := a :: l). intros H. change (lower_bytes lab) with (lower_byte a :: lower_bytes l).
  destruct (decide (maxLabelLength < length lab)%nat) as [|Hlen]; [done|].
  rewrite decide_False by (cbn in *; unfold lower_bytes; rewrite length_fmap; done).
  destruct (forallb label_byte lab) eqn:Hb; [|done]. cbn [negb] in H.
  assert (forallb label_byte (lower_byte a :: lower_bytes l) = true) as ->.
  { by apply (lower_label_bytes lab). }
  cbn [negb]. change (lower_byte a :: lower_bytes l) with (lower_bytes lab).
  rewrite (bool_decide_lower_last lab hyphen) by (intros x; apply lower_byte_facts).
  rewrite (bool_decide_ext (lower_byte a = hyphen) (a = hyphen)) by apply lower_byte_facts.
  destruct (bool_decide (a = hyphen) || bool_decide (last lab = Some hyphen)); [done|].
  unfold lab in *. destruct l as [|b [|c [|d rest]]]; try done. cbn [lower_bytes fmap list_fmap].
  rewrite (bool_decide_ext (lower_byte c = hyphen) (c = hyphen)) by apply lower_byte_facts.
  rewrite (bool_decide_ext (lower_byte d = hyphen) (d = hyphen)) by apply lower_byte_facts.
  destruct (bool_decide (c = hyphen) && bool_decide (d = hyphen)); [|done].
  unfold equal_fold_xn in *. destruct (lower_byte_facts a) as [-> _], (lower_byte_facts b) as [-> _].
  destruct (negb _); [done|]. by destruct rest.
Qed.

Lemma validateLabels_Forall ls : validateLabels ls = None ↔ Forall (λ l, validateLabel l = None) ls.
Proof.
  induction ls as [|l ls IH]; cbn; [done|]. rewrite Forall_cons, <- IH.
  destruct (validateLabel l); naive_solver.
Qed.

Lemma Validate_bytes_spec n :
  Validate_bytes n = None ↔
  n ≠ [] ∧ (length n ≤ 253)%nat ∧ forallb (λ c, code c <? 128) n = true ∧ last n ≠ Some dot ∧
  (2 ≤ length (split_bytes dot n))%nat ∧ Forall (λ l, validateLabel l = None) (split_bytes dot n) ∧
  forallb is_digit (default [] (last (split_bytes dot n))) = false.
Proof.
  rewrite <- validateLabels_Forall. unfold Validate_bytes, maxNameLength.
  destruct (decide (n = [])); [split; [done|naive_solver]|].
  destruct (decide (253 < length n)%nat); [split; [done|lia]|].
  destruct (forallb (λ c, code c <? 128) n); cbn [negb]; [|split; [done|naive_solver]].
  destruct (bool_decide (last n = Some dot)) eqn:Hd;
    [apply bool_decide_eq_true in Hd; split; [done|naive_solver]|apply bool_decide_eq_false in Hd].
  cbn zeta. destruct (decide (length (split_bytes dot n) < 2)%nat); [split; [done|lia]|].
  destruct (validateLabels (split_bytes dot n)); [split; [done|naive_solver]|].
  destruct (forallb is_digit _); split; try done; try naive_solver. intros _. split_and!; try done; lia.
Qed.

(** [Normalize] is canonical: the name it returns is valid, is its own
    normal form, and contains no uppercase letter. *)
Theorem Normalize_canonical name d :
  Normalize name = Ok d →
  Validate d = None ∧ Normalize d = Ok d ∧ any_byte is_upper d = false.
Proof.
  unfold Normalize. destruct (Validate name) eqn:Hv; [done|]. intros [= <-].
  assert (bytes_of (lower_ascii name) = lower_bytes (bytes_of name)) as Hb by apply bytes_of_of.
  assert (Validate (lower_ascii name) = None) as Hl.
  { unfold Validate in *. rewrite Hb. set (n := bytes_of name) in *.
    apply Validate_bytes_spec in Hv as (H1 & H2 & H3 & H4 & H5 & H6 & H7).
    apply Validate_bytes_spec. rewrite split_lower. split_and!.
    - by destruct n.
    - unfold lower_bytes. by rewrite length_fmap.
    - rewrite forallb_lower; [done|]. intros c. apply lower_byte_facts.
    - rewrite last_lower. destruct (last n) as [x|]; [|done]. cbn. intros [= E]. apply H4. f_equal.
      by apply lower_byte_facts.
    - by rewrite length_fmap.
    - apply Forall_fmap. eapply Forall_impl; [exact H6|]. intros l. apply validateLabel_lower.
    - rewrite fmap_last. destruct (last (split_bytes dot n)) as [l|]; [|done]. cbn in *.
      rewrite forallb_lower; [done|]. intros c. apply lower_byte_facts. }
  split_and!; [done| |].
  - rewrite Hl. f_equal. unfold lower_ascii. f_equal. rewrite bytes_of_of, <- list_fmap_compose.
    apply list_fmap_ext. intros i c _. apply lower_byte_facts.
  - unfold any_byte. rewrite Hb. apply existsb_false_elem. intros c (x & -> & _)%list_elem_of_fmap.
    unfold lower_byte. destruct (is_upper x) eqn:Hx; [|done]. clear -Hx.
    destruct x as [[] [] [] [] [] [] [] []]; vm_compute in *; congruence.
Qed.

Lemma Normalize_canonical_witness : Normalize "example.com" = Ok "example.com".
Proof. apply (Normalize_canonical "Example.COM" "example.com"). by vm_compute. Defined.

Lemma elem_split x n : x ∈ n → x = dot ∨ ∃ l, l ∈ split_bytes dot n ∧ x ∈ l.
Proof.
  induction n as [|c n IH]; [set_solver|]. intros [->|Hx]%elem_of_cons; cbn.
  - case_decide as Hd; [by left|]. right. destruct (split_bytes dot n) as [|w ws].
    + exists [c]. set_solver.
    + exists (c :: w). set_solver.
  - destruct (IH Hx) as [|(l & Hl & Hxl)]; [by left|]. right. case_decide.
    + exists l. set_solver.
    + destruct (split_bytes dot n) as [|w ws]; [set_solver|].
      apply elem_of_cons in Hl as [->|Hl]; [exists (c :: w)|exists l]; set_solver.
Qed.

(** An accepted host name cannot smuggle anything into a configuration
    file or a command line: every byte is an ASCII letter, a digit, a hyphen or
    a dot, it starts with a letter or digit, and it is at most 253 bytes long
    with at least two labels of at most 63 bytes each. *)
Theorem Validate_safe_bytes name :
  Validate name = None →
  (∀ c, c ∈ bytes_of name → label_byte c = true ∨ c = dot) ∧
  (∃ c, head (bytes_of name) = Some c ∧ label_byte c = true ∧ c ≠ hyphen) ∧
  (length (bytes_of name) ≤ 253)%nat ∧ (2 ≤ length (split_bytes dot (bytes_of name)))%nat ∧
  Forall (λ l, l ≠ [] ∧ (length l ≤ 63)%nat) (split_bytes dot (bytes_of name)).
Proof.
  unfold Validate. set (n := bytes_of name). intros (H1 & H2 & H3 & H4 & H5 & H6 & H7)%Validate_bytes_spec.
  assert (∀ l, validateLabel l = None → l ≠ [] ∧ (length l ≤ 63)%nat ∧ forallb label_byte l = true ∧ head l ≠ Some hyphen) as Hlab.
  { intros [|a l]; [done|]. unfold validateLabel. set (lab := a :: l).
    destruct (decide (maxLabelLength < length lab)%nat) as [|Hlen]; [done|].
    destruct (forallb label_byte lab) eqn:Hb; [|done]. cbn [negb]. unfold maxLabelLength in Hlen.
    destruct (bool_decide (a = hyphen)) eqn:Ha; [done|]. apply bool_decide_eq_false in Ha. intros _.
    split_and!; [done|lia|done|]. cbn. congruence. }
  rewrite Forall_forall in H6. split_and!; try done.
  - intros c [->|(l & Hl & Hc)]%elem_split; [by right|]. left.
    destruct (Hlab l (H6 l Hl)) as (_ & _ & Hb & _). rewrite forallb_forall in Hb. apply Hb.
    by apply list_elem_of_In.
  - destruct n as [|c n']; [done|]. exists c. split; [done|].
    destruct (decide (c = dot)) as [->|Hne].
    { destruct (Hlab [] (H6 [] ltac:(cbn; apply list_elem_of_here))) as [Hbad _]. done. }
    assert (∃ w, (c :: w) ∈ split_bytes dot (c :: n')) as [w Hw].
    { cbn. rewrite decide_False by done. destruct (split_bytes dot n') as [|w ws]; eexists; apply list_elem_of_here. }
    destruct (Hlab _ (H6 _ Hw)) as (_ & _ & Hb & Hh). cbn in *. apply andb_true_iff in Hb as [Hb _].
    split; [done|]. congruence.
  - apply Forall_forall. intros l Hl. destruct (Hlab l (H6 l Hl)) as (? & ? & _). done.
Qed.

Lemma Validate_safe_bytes_witness : (length (bytes_of "www.example.org") ≤ 253)%nat.
Proof. apply (Validate_safe_bytes "www.example.org"). by vm_compute. Defined.

End DomainName.
