(* ===== verification/RateLimit.v ===== *)
(** * RateLimit: the login limiter

    Models the [Limiter] of [src/internal/auth/ratelimit.go]: attempts per key
    and window, the least-recently-used order that bounds the table, and the
    refund of attempts. Times are nanoseconds. *)
From S2P Require Import Prelude.

Module RateLimit.

Record loginAttempt := mkAttempt { count : Z; start : Z }.

(** [order] lists the keys of the linked list, front first; [entries] are the
    keys that have an element in it. *)
Record Limiter := mkLimiter {
  attempt : gmap string loginAttempt;
  order : list string;
  entries : gset string;
  lastGC : Z;
  limit : Z;
  window : Z
}.

Definition maxKeys : nat := Z.to_nat 10000.
Definition defaultLimit : Z := 5.
Definition defaultWindow : Z := 15 * Minute.

Definition NewLimiterWithPolicy (now lim win : Z) : Limiter :=
  mkLimiter ∅ [] ∅ now (if lim <=? 0 then defaultLimit else lim) (if win <=? 0 then defaultWindow else win).
Definition NewLimiter (now : Z) : Limiter := NewLimiterWithPolicy now defaultLimit defaultWindow.

Definition set_attempt (l : Limiter) (m : gmap string loginAttempt) : Limiter :=
  mkLimiter m (order l) (entries l) (lastGC l) (limit l) (window l).

(** [removeLocked]. *)
Definition removeLocked (key : string) (l : Limiter) : Limiter :=
  mkLimiter (delete key (attempt l)) (if decide (key ∈ entries l) then filter (λ k, k ≠ key) (order l) else order l)
    (entries l ∖ {[key]}) (lastGC l) (limit l) (window l).

Definition pushFront (key : string) (l : Limiter) : Limiter :=
  mkLimiter (attempt l) (key :: order l) ({[key]} ∪ entries l) (lastGC l) (limit l) (window l).
Definition moveToFront (key : string) (l : Limiter) : Limiter :=
  mkLimiter (attempt l) (key :: filter (λ k, k ≠ key) (order l)) (entries l) (lastGC l) (limit l) (window l).

(** The periodic removal of expired windows. *)
Definition stale (now : Z) (l : Limiter) : list string :=
  (filter (λ '(_, a), window l ≤ now - start a) (map_to_list (attempt l))).*1.
Definition collect (now : Z) (l : Limiter) : Limiter :=
  if Minute <=? now - lastGC l then
    let l' := foldl (λ l k, removeLocked k l) l (stale now l) in
    mkLimiter (attempt l') (order l') (entries l') now (limit l') (window l')
  else l.

(** Opens a new window for the key, evicting the least recently used key from a
    full table. *)
Definition open_window (now : Z) (key : string) (l : Limiter) : Limiter :=
  let l := if decide (maxKeys ≤ size (attempt l))%nat
           then match last (order l) with Some k => removeLocked k l | None => l end else l in
  pushFront key (set_attempt l (<[key := mkAttempt 1 now]> (attempt l))).

Definition Allow (now : Z) (key : string) (l : Limiter) : bool * Limiter :=
  let l := collect now l in
  match attempt l !! key with
  | None => (true, open_window now key l)
  | Some a =>
      if window l <=? now - start a then (true, open_window now key (removeLocked key l)) else
      let l := moveToFront key l in
      if limit l <=? count a then (false, l)
      else (true, set_attempt l (<[key := mkAttempt (count a + 1) (start a)]> (attempt l)))
  end.

Definition Reset (key : string) (l : Limiter) : Limiter := removeLocked key l.

Definition Release (key : string) (l : Limiter) : Limiter :=
  match attempt l !! key with
  | None => l
  | Some a =>
      if count a <=? 1 then removeLocked key l
      else moveToFront key (set_attempt l (<[key := mkAttempt (count a - 1) (start a)]> (attempt l)))
  end.

(** ** Sequences of calls *)

Inductive Op : Type := OAllow (key : string) | OReset (key : string) | ORelease (key : string).
#[export] Instance Op_eq_dec : EqDecision Op.
Proof. solve_decision. Defined.

Definition exec (x : Z * Op) (l : Limiter) : bool * Limiter :=
  match x.2 with
  | OAllow key => Allow x.1 key l
  | OReset key => (false, Reset key l)
  | ORelease key => (false, Release key l)
  end.

(** ** The table and the list agree *)

Record limiter_inv (l : Limiter) : Prop := {
  li_nodup : NoDup (order l);
  li_order : ∀ k, k ∈ order l ↔ attempt l !! k ≠ None;
  li_entries : ∀ k, k ∈ entries l ↔ attempt l !! k ≠ None;
  li_size : (size (attempt l) ≤ maxKeys)%nat;
  li_limit : 0 < limit l
}.

Lemma remove_inv key l : limiter_inv l → limiter_inv (removeLocked key l).
Proof.
  intros [N O E S L]. split; cbn.
  - case_decide; [by apply NoDup_filter|done].
  - intros k. rewrite lookup_delete. case_decide as Hk.
    + rewrite list_elem_of_filter, O. case_decide; naive_solver.
    + rewrite O. case_decide as Hd; [|done]. subst. rewrite E in Hk. naive_solver.
  - intros k. rewrite elem_of_difference, E, lookup_delete. case_decide; set_solver.
  - etrans; [|exact S]. apply map_subseteq_size, delete_subseteq.
  - done.
Qed.

Lemma removes_inv ks : ∀ l, limiter_inv l → limiter_inv (foldl (λ l k, removeLocked k l) l ks) ∧
  (∀ k, k ∉ ks → attempt (foldl (λ l k, removeLocked k l) l ks) !! k = attempt l !! k) ∧
  window (foldl (λ l k, removeLocked k l) l ks) = window l ∧ limit (foldl (λ l k, removeLocked k l) l ks) = limit l.
Proof.
  induction ks as [|k ks IH]; intros l I; cbn [foldl]; [done|].
  destruct (IH _ (remove_inv k l I)) as (I' & H & W & L). split_and!; try done.
  intros k' Hk'. rewrite H by set_solver. cbn. apply lookup_delete_ne. set_solver.
Qed.

Lemma collect_inv now l :
  limiter_inv l → limiter_inv (collect now l) ∧ window (collect now l) = window l ∧ limit (collect now l) = limit l ∧
  ∀ k a, attempt l !! k = Some a → now - start a < window l → attempt (collect now l) !! k = Some a.
Proof.
  intros I. unfold collect. case_if; [|done].
  destruct (removes_inv (stale now l) l I) as (I' & H & W & L). split_and!; try done.
  - destruct I' as [N O E S Lm]. by split.
  - intros k a Ha Hlt. cbn. rewrite H; [done|]. intros ([k' a'] & -> & [Hs Hin%elem_of_map_to_list]%list_elem_of_filter)%list_elem_of_fmap.
    cbn in *. simplify_eq. lia.
Qed.

Lemma open_inv now key l :
  limiter_inv l → attempt l !! key = None → limiter_inv (open_window now key l).
Proof.
  intros I Hn. unfold open_window.
  set (l1 := if decide _ then _ else l).
  assert (limiter_inv l1 ∧ attempt l1 !! key = None ∧ (S (size (attempt l1)) ≤ maxKeys)%nat) as (I1 & Hn1 & Hs).
  { unfold l1. case_decide as Hd; [|split_and!; [done|done|lia]].
    destruct (last (order l)) as [k|] eqn:Hk.
    - split_and!; [by apply remove_inv|cbn; rewrite lookup_delete; by case_decide|]. cbn.
      assert (is_Some (attempt l !! k)) as Hsome.
      { apply not_eq_None_Some, (li_order l I). apply last_Some in Hk as [l' ->]. set_solver. }
      rewrite map_size_delete_Some by done. pose proof (li_size l I). unfold maxKeys in *. lia.
    - exfalso. apply last_None in Hk. unfold maxKeys in Hd.
      assert (attempt l = ∅) as He.
      { apply map_empty. intros k. destruct (attempt l !! k) eqn:E; [|done]. exfalso.
        assert (k ∈ order l) as Hin by (apply (li_order l I); congruence). rewrite Hk in Hin. set_solver. }
      rewrite He, map_size_empty in Hd. lia. }
  destruct I1 as [N O E S L]. split; cbn.
  - apply NoDup_cons. split; [|done]. rewrite O. intros H. by apply H.
  - intros k. rewrite elem_of_cons, O, lookup_insert. case_decide; naive_solver.
  - intros k. rewrite elem_of_union, E, lookup_insert. case_decide; set_solver.
  - rewrite map_size_insert_None by done. done.
  - done.
Qed.

Lemma update_inv l key a b :
  limiter_inv l → attempt l !! key = Some a →
  limiter_inv (moveToFront key (set_attempt l (<[key := b]> (attempt l)))) ∧ limiter_inv (moveToFront key l).
Proof.
  intros [N O E S L] Ha.
  assert (key ∈ order l) as Hin by (apply O; congruence).
  assert (NoDup (key :: filter (λ k, k ≠ key) (order l))) as Hnd.
  { apply NoDup_cons. split; [|by apply NoDup_filter]. by intros [? _]%list_elem_of_filter. }
  assert (∀ k, k ∈ key :: filter (λ k, k ≠ key) (order l) ↔ k ∈ order l) as Ho.
  { intros k. rewrite elem_of_cons, list_elem_of_filter. destruct (decide (k = key)); naive_solver. }
  split; split; cbn; try done; try (intros k; rewrite ?Ho, ?O, ?E, ?lookup_insert; try case_decide; naive_solver).
  by rewrite map_size_insert_Some by eauto.
Qed.

Lemma Allow_inv now key l : limiter_inv l → limiter_inv (Allow now key l).2.
Proof.
  intros I. unfold Allow. destruct (collect_inv now l I) as (I' & _). set (l1 := collect now l) in *.
  destruct (attempt l1 !! key) as [a|] eqn:Ha; [|by apply open_inv].
  case_if; [apply open_inv; [by apply remove_inv|cbn; apply lookup_delete_eq]|].
  case_if; [by eapply (update_inv l1 key a a)|].
  by destruct (update_inv l1 key a (mkAttempt (count a + 1) (start a)) I' Ha).
Qed.

Lemma exec_inv x l : limiter_inv l → limiter_inv (exec x l).2.
Proof.
  intros I. destruct x as [t [k|k|k]]; cbn; [by apply Allow_inv|by apply remove_inv|].
  unfold Release. destruct (attempt l !! k) as [a|] eqn:Ha; [|done]. case_if; [by apply remove_inv|].
  by eapply (update_inv l k a).
Qed.

Lemma new_inv now lim win : limiter_inv (NewLimiterWithPolicy now lim win).
Proof.
  split; cbn; try (intros k; rewrite lookup_empty); try set_solver.
  - constructor.
  - rewrite map_size_empty. apply Nat.le_0_l.
  - unfold defaultLimit. destruct (Z.leb_spec lim 0); lia.
Qed.

(** The limiter's memory is bounded and consistent after every sequence of
    calls at any times: at most ten thousand keys, and the recency list holds
    each tracked key exactly once and nothing else, so the eviction of a full
    table always finds its victim. *)
Theorem limiter_table_bounded now lim win ops :
  limiter_inv (foldl (λ l x, (exec x l).2) (NewLimiterWithPolicy now lim win) ops).
Proof.
  generalize (new_inv now lim win). generalize (NewLimiterWithPolicy now lim win).
  induction ops as [|x ops IH]; intros l I; [done|]. cbn [foldl]. by apply IH, exec_inv.
Qed.

(** ** The limit *)

(** The calls neither reset nor refund the key, fall into its window, and never
    evict it. *)
Fixpoint window_run (key : string) (s : Z) (ops : list (Z * Op)) (l : Limiter) : Prop :=
  match ops with
  | [] => True
  | (t, o) :: rest =>
      t < s + window l ∧ o ≠ OReset key ∧ o ≠ ORelease key ∧
      attempt (exec (t, o) l).2 !! key ≠ None ∧ window_run key s rest (exec (t, o) l).2
  end.

(** How many attempts of the key a sequence admits. *)
Fixpoint admitted (key : string) (ops : list (Z * Op)) (l : Limiter) : Z :=
  match ops with
  | [] => 0
  | (t, o) :: rest =>
      let '(ok, l') := exec (t, o) l in
      (if bool_decide (o = OAllow key) && ok then 1 else 0) + admitted key rest l'
  end.

Lemma remove_other k key l : k ≠ key → attempt (removeLocked k l) !! key = attempt l !! key.
Proof. intros H. cbn. by apply lookup_delete_ne. Qed.

Lemma open_other now k key l :
  k ≠ key → attempt (open_window now k l) !! key = None ∨ attempt (open_window now k l) !! key = attempt l !! key.
Proof.
  intros H. unfold open_window. cbn. rewrite lookup_insert_ne by done. case_decide; [|by right].
  destruct (last (order l)) as [v|]; [|by right]. cbn. rewrite lookup_delete. case_decide; auto.
Qed.

Lemma open_policy now k l : window (open_window now k l) = window l ∧ limit (open_window now k l) = limit l.
Proof. unfold open_window. cbn. case_decide; [|done]. by destruct (last (order l)). Qed.

Lemma exec_window key s t o l a :
  limiter_inv l → attempt l !! key = Some a → start a = s → t < s + window l → o ≠ OReset key → o ≠ ORelease key →
  attempt (exec (t, o) l).2 !! key ≠ None →
  window (exec (t, o) l).2 = window l ∧ limit (exec (t, o) l).2 = limit l ∧ ∃ a',
  attempt (exec (t, o) l).2 !! key = Some a' ∧ start a' = s ∧
  count a' = count a + (if bool_decide (o = OAllow key) && (exec (t, o) l).1 then 1 else 0) ∧
  (count a ≤ limit l → count a' ≤ limit l).
Proof.
  intros I Ha Hs Ht Hr1 Hr2 Htr. destruct o as [k|k|k]; cbn [exec snd fst] in *.
  - destruct (collect_inv t l I) as (I' & W & L & Hkeep). unfold Allow in *.
    specialize (Hkeep key a Ha ltac:(lia)). set (l1 := collect t l) in *.
    destruct (decide (k = key)) as [->|Hne].
    + rewrite Hkeep in *. rewrite (proj2 (Z.leb_gt (window l1) (t - start a))) in * by lia.
      rewrite bool_decide_true by done. cbn [moveToFront limit] in *. case_if; cbn.
      * split_and!; [done..|]. exists a. split_and!; [done|done|lia|done].
      * apply Z.leb_gt in Heqb. split_and!; [done..|]. eexists. rewrite lookup_insert_eq. split_and!; [done|done|cbn; lia|cbn; lia].
    + rewrite bool_decide_false by congruence. cbn [andb].
      destruct (attempt l1 !! k) as [b|].
      * case_if.
        -- destruct (open_policy t k (removeLocked k l1)) as [W2 L2]. cbn [fst snd removeLocked window limit] in *. split_and!; [congruence..|].
           destruct (open_other t k key (removeLocked k l1) Hne) as [E|E]; [congruence|]. cbn [removeLocked attempt] in E.
           rewrite lookup_delete_ne, Hkeep in E by done. exists a. split_and!; [done|done|lia|done].
        -- case_if; cbn; (split_and!; [done..|]); exists a; rewrite ?lookup_insert_ne by done; split_and!; done || lia.
      * destruct (open_policy t k l1) as [W2 L2]. cbn [fst snd] in *. split_and!; [congruence..|].
        destruct (open_other t k key l1 Hne) as [E|E]; [congruence|]. rewrite Hkeep in E.
        exists a. split_and!; [done|done|lia|done].
  - rewrite bool_decide_false by done. cbn. split_and!; [done..|]. exists a.
    rewrite lookup_delete_ne by congruence. split_and!; [done|done|lia|done].
  - rewrite bool_decide_false by done. unfold Release in *.
    assert (k ≠ key) as Hne by congruence. cbn [andb].
    destruct (attempt l !! k) as [b|]; [|split_and!; [done..|]; exists a; split_and!; [done|done|lia|done]].
    case_if; cbn; (split_and!; [done..|]); exists a; rewrite ?lookup_delete_ne, ?lookup_insert_ne by done;
      split_and!; done || lia.
Qed.

(** The limiter enforces its limit. Once a key has an open window, the
    attempts it is granted until the window ends, together with those already
    counted, never exceed the limit, however calls for other keys interleave,
    as long as its bucket is not reset, refunded or evicted. *)
Theorem limiter_enforces_limit key l a ops :
  limiter_inv l → attempt l !! key = Some a → count a ≤ limit l → window_run key (start a) ops l →
  count a + admitted key ops l ≤ limit l.
Proof.
  intros I Ha Hc Hw. remember (start a) as s eqn:Hs. symmetry in Hs.
  revert l a I Ha Hc Hs Hw. induction ops as [|[t o] ops IH]; intros l a I Ha Hc Hs Hw; cbn [admitted]; [lia|].
  cbn [window_run] in Hw. destruct Hw as (Ht & Hr1 & Hr2 & Htr & Hw).
  destruct (exec_window key s t o l a I Ha Hs Ht Hr1 Hr2 Htr) as (W & L & a' & Ha' & Hs' & Hcount & Hlim).
  pose proof (exec_inv (t, o) l I) as I'. destruct (exec (t, o) l) as [ok l'] eqn:E. cbn in *.
  specialize (IH l' a' I' Ha' ltac:(rewrite L; auto) Hs' Hw). rewrite L in IH. lia.
Qed.

Definition lim0 : Limiter := (Allow 100 "ip" (NewLimiterWithPolicy 0 2 1000)).2.
Lemma lim0_inv : limiter_inv lim0.
Proof. exact (exec_inv (100, OAllow "ip") _ (new_inv 0 2 1000)). Qed.

Lemma limiter_enforces_limit_witness :
  1 + admitted "ip" [(200, OAllow "ip"); (300, OAllow "other"); (400, OAllow "ip")] lim0 ≤ 2.
Proof.
  apply (limiter_enforces_limit "ip" lim0 (mkAttempt 1 100)).
  - apply lim0_inv.
  - vm_compute. reflexivity.
  - vm_compute. congruence.
  - cbn [window_run]. repeat split; vm_compute; congruence.
Defined.

End RateLimit.
