(* ===== verification/Encoding.v ===== *)
(** * Encoding: base32 and base64

    Go's [base32.StdEncoding] and [base64.RawURLEncoding], both without padding,
    as the program uses them for TOTP secrets and for session cookies. A byte is
    its eight bits, a digit of base 32 five bits and one of base 64 six; encoding
    regroups the bits. The decoders skip line breaks and accept a last group of
    any length, as Go's do: a group too short for a byte, or of a length that no
    encoding has, contributes nothing in base 32 and is an error in base 64. *)
From S2P Require Import Prelude GoText.

Module Encoding.
Import GoText.

Definition bits5 : Type := bool * bool * bool * bool * bool.
Definition bits6 : Type := bool * bool * bool * bool * bool * bool.

Definition num (l : list bool) : Z := foldl (λ a (b : bool), 2 * a + (if b then 1 else 0)) 0 l.
Definition num5 (q : bits5) : Z := let '(a, b, c, d, e) := q in num [a; b; c; d; e].
Definition num6 (q : bits6) : Z := let '(a, b, c, d, e, f) := q in num [a; b; c; d; e; f].

(** The [n]-th bit of a small number. *)
Definition bits5_of (n : Z) : bits5 :=
  (Z.testbit n 4, Z.testbit n 3, Z.testbit n 2, Z.testbit n 1, Z.testbit n 0).
Definition bits6_of (n : Z) : bits6 :=
  (Z.testbit n 5, Z.testbit n 4, Z.testbit n 3, Z.testbit n 2, Z.testbit n 1, Z.testbit n 0).

(** A byte from its bits, the most significant first. *)
Definition byte (a b c d e f g h : bool) : ascii := Ascii h g f e d c b a.

(** ** Base 32 *)

Definition digit32 (q : bits5) : ascii :=
  let n := num5 q in if n <? 26 then chr (65 + n) else chr (24 + n).
Definition value32 (c : ascii) : option bits5 :=
  if is_upper c then Some (bits5_of (code c - 65)) else
  if in_range "2" "7" c then Some (bits5_of (code c - 24)) else None.

Fixpoint groups32 (l : list ascii) : list bits5 :=
  match l with
  | [] => []
  | [Ascii h0 g0 f0 e0 d0 c0 b0 a0] => [(a0, b0, c0, d0, e0); (f0, g0, h0, false, false)]
  | [Ascii h0 g0 f0 e0 d0 c0 b0 a0; Ascii h1 g1 f1 e1 d1 c1 b1 a1] =>
      [(a0, b0, c0, d0, e0); (f0, g0, h0, a1, b1); (c1, d1, e1, f1, g1); (h1, false, false, false, false)]
  | [Ascii h0 g0 f0 e0 d0 c0 b0 a0; Ascii h1 g1 f1 e1 d1 c1 b1 a1; Ascii h2 g2 f2 e2 d2 c2 b2 a2] =>
      [(a0, b0, c0, d0, e0); (f0, g0, h0, a1, b1); (c1, d1, e1, f1, g1); (h1, a2, b2, c2, d2);
       (e2, f2, g2, h2, false)]
  | [Ascii h0 g0 f0 e0 d0 c0 b0 a0; Ascii h1 g1 f1 e1 d1 c1 b1 a1; Ascii h2 g2 f2 e2 d2 c2 b2 a2;
     Ascii h3 g3 f3 e3 d3 c3 b3 a3] =>
      [(a0, b0, c0, d0, e0); (f0, g0, h0, a1, b1); (c1, d1, e1, f1, g1); (h1, a2, b2, c2, d2);
       (e2, f2, g2, h2, a3); (b3, c3, d3, e3, f3); (g3, h3, false, false, false)]
  | Ascii h0 g0 f0 e0 d0 c0 b0 a0 :: Ascii h1 g1 f1 e1 d1 c1 b1 a1 :: Ascii h2 g2 f2 e2 d2 c2 b2 a2 ::
    Ascii h3 g3 f3 e3 d3 c3 b3 a3 :: Ascii h4 g4 f4 e4 d4 c4 b4 a4 :: rest =>
      (a0, b0, c0, d0, e0) :: (f0, g0, h0, a1, b1) :: (c1, d1, e1, f1, g1) :: (h1, a2, b2, c2, d2) ::
      (e2, f2, g2, h2, a3) :: (b3, c3, d3, e3, f3) :: (g3, h3, a4, b4, c4) :: (d4, e4, f4, g4, h4) :: groups32 rest
  end.
Definition EncodeToString32 (l : list ascii) : string := of_bytes (digit32 <$> groups32 l).

(** The bytes of a sequence of groups; surplus bits are dropped. *)
Fixpoint bytes32 (l : list bits5) : list ascii :=
  match l with
  | (a0, b0, c0, d0, e0) :: (f0, g0, h0, a1, b1) :: (c1, d1, e1, f1, g1) :: (h1, a2, b2, c2, d2) ::
    (e2, f2, g2, h2, a3) :: (b3, c3, d3, e3, f3) :: (g3, h3, a4, b4, c4) :: (d4, e4, f4, g4, h4) :: rest =>
      byte a0 b0 c0 d0 e0 f0 g0 h0 :: byte a1 b1 c1 d1 e1 f1 g1 h1 :: byte a2 b2 c2 d2 e2 f2 g2 h2 ::
      byte a3 b3 c3 d3 e3 f3 g3 h3 :: byte a4 b4 c4 d4 e4 f4 g4 h4 :: bytes32 rest
  | [(a0, b0, c0, d0, e0); (f0, g0, h0, a1, b1); (c1, d1, e1, f1, g1); (h1, a2, b2, c2, d2);
     (e2, f2, g2, h2, a3); (b3, c3, d3, e3, f3); (g3, h3, _, _, _)] =>
      [byte a0 b0 c0 d0 e0 f0 g0 h0; byte a1 b1 c1 d1 e1 f1 g1 h1; byte a2 b2 c2 d2 e2 f2 g2 h2;
       byte a3 b3 c3 d3 e3 f3 g3 h3]
  | [(a0, b0, c0, d0, e0); (f0, g0, h0, a1, b1); (c1, d1, e1, f1, g1); (h1, a2, b2, c2, d2); (e2, f2, g2, h2, _)] =>
      [byte a0 b0 c0 d0 e0 f0 g0 h0; byte a1 b1 c1 d1 e1 f1 g1 h1; byte a2 b2 c2 d2 e2 f2 g2 h2]
  | [(a0, b0, c0, d0, e0); (f0, g0, h0, a1, b1); (c1, d1, e1, f1, g1); (h1, _, _, _, _)] =>
      [byte a0 b0 c0 d0 e0 f0 g0 h0; byte a1 b1 c1 d1 e1 f1 g1 h1]
  | [(a0, b0, c0, d0, e0); (f0, g0, h0, _, _)] => [byte a0 b0 c0 d0 e0 f0 g0 h0]
  | _ => []
  end.

Definition is_newline (c : ascii) : bool := bool_decide (c = chr 10 ∨ c = chr 13).
Definition strip_newlines (l : list ascii) : list ascii := filter (λ c, is_newline c = false) l.

Definition DecodeString32 (s : string) : option (list ascii) :=
  bytes32 <$> mapM value32 (strip_newlines (bytes_of s)).

(** ** Base 64, the URL alphabet *)

Definition digit64 (q : bits6) : ascii :=
  let n := num6 q in
  if n <? 26 then chr (65 + n) else if n <? 52 then chr (71 + n) else
  if n <? 62 then chr (n - 4) else if n =? 62 then "-"%char else "_"%char.
Definition value64 (c : ascii) : option bits6 :=
  if is_upper c then Some (bits6_of (code c - 65)) else
  if is_lower c then Some (bits6_of (code c - 71)) else
  if is_digit c then Some (bits6_of (code c + 4)) else
  if decide (c = "-"%char) then Some (bits6_of 62) else
  if decide (c = "_"%char) then Some (bits6_of 63) else None.

Fixpoint groups64 (l : list ascii) : list bits6 :=
  match l with
  | [] => []
  | [Ascii h0 g0 f0 e0 d0 c0 b0 a0] => [(a0, b0, c0, d0, e0, f0); (g0, h0, false, false, false, false)]
  | [Ascii h0 g0 f0 e0 d0 c0 b0 a0; Ascii h1 g1 f1 e1 d1 c1 b1 a1] =>
      [(a0, b0, c0, d0, e0, f0); (g0, h0, a1, b1, c1, d1); (e1, f1, g1, h1, false, false)]
  | Ascii h0 g0 f0 e0 d0 c0 b0 a0 :: Ascii h1 g1 f1 e1 d1 c1 b1 a1 :: Ascii h2 g2 f2 e2 d2 c2 b2 a2 :: rest =>
      (a0, b0, c0, d0, e0, f0) :: (g0, h0, a1, b1, c1, d1) :: (e1, f1, g1, h1, a2, b2) :: (c2, d2, e2, f2, g2, h2) ::
      groups64 rest
  end.
Definition EncodeToString64 (l : list ascii) : string := of_bytes (digit64 <$> groups64 l).

Fixpoint bytes64 (l : list bits6) : option (list ascii) :=
  match l with
  | [] => Some []
  | (a0, b0, c0, d0, e0, f0) :: (g0, h0, a1, b1, c1, d1) :: (e1, f1, g1, h1, a2, b2) :: (c2, d2, e2, f2, g2, h2) :: rest =>
      app [byte a0 b0 c0 d0 e0 f0 g0 h0; byte a1 b1 c1 d1 e1 f1 g1 h1; byte a2 b2 c2 d2 e2 f2 g2 h2] <$> bytes64 rest
  | [(a0, b0, c0, d0, e0, f0); (g0, h0, a1, b1, c1, d1); (e1, f1, g1, h1, _, _)] =>
      Some [byte a0 b0 c0 d0 e0 f0 g0 h0; byte a1 b1 c1 d1 e1 f1 g1 h1]
  | [(a0, b0, c0, d0, e0, f0); (g0, h0, _, _, _, _)] => Some [byte a0 b0 c0 d0 e0 f0 g0 h0]
  | [_] => None
  end.
Definition DecodeString64 (s : string) : option (list ascii) :=
  mapM value64 (strip_newlines (bytes_of s)) ≫= bytes64.

(** ** Round trips *)

Lemma value32_digit q : value32 (digit32 q) = Some q.
Proof. destruct q as [[[[[] []] []] []] []]; vm_compute; reflexivity. Qed.
Lemma value64_digit q : value64 (digit64 q) = Some q.
Proof. destruct q as [[[[[[] []] []] []] []] []]; vm_compute; reflexivity. Qed.
Lemma digit32_alphabet q : is_upper (digit32 q) || in_range "2" "7" (digit32 q) = true.
Proof. destruct q as [[[[[] []] []] []] []]; vm_compute; reflexivity. Qed.
Lemma digit64_alphabet q : is_upper (digit64 q) || is_lower (digit64 q) || is_digit (digit64 q) || one_of "-_" (digit64 q) = true.
Proof. destruct q as [[[[[[] []] []] []] []] []]; vm_compute; reflexivity. Qed.
Lemma digit32_newline q : is_newline (digit32 q) = false.
Proof. destruct q as [[[[[] []] []] []] []]; vm_compute; reflexivity. Qed.
Lemma digit64_newline q : is_newline (digit64 q) = false.
Proof. destruct q as [[[[[[] []] []] []] []] []]; vm_compute; reflexivity. Qed.

Lemma strip_newlines_map {A} (f : A → ascii) l : (∀ a, is_newline (f a) = false) → strip_newlines (f <$> l) = f <$> l.
Proof.
  intros H. unfold strip_newlines. induction l as [|a l IH]; [done|]. cbn [fmap list_fmap].
  rewrite filter_cons, decide_True by apply H. by f_equal.
Qed.
Lemma mapM_map {A B} (f : A → B) (g : B → option A) l : (∀ a, g (f a) = Some a) → mapM g (f <$> l) = Some l.
Proof. intros H. induction l as [|a l IH]; [done|]. cbn. by rewrite H, IH. Qed.

(** Five bytes make eight groups, so the induction is on the length. *)
Lemma bytes32_groups l : bytes32 (groups32 l) = l.
Proof.
  remember (length l) as n eqn:Hn. revert l Hn. induction n as [n IH] using lt_wf_ind. intros l ->.
  destruct l as [|[] [|[] [|[] [|[] [|[] l]]]]]; try reflexivity.
  cbn [groups32 bytes32]. rewrite (IH (length l)) by (cbn; lia || done). reflexivity.
Qed.
Lemma bytes64_groups l : bytes64 (groups64 l) = Some l.
Proof.
  remember (length l) as n eqn:Hn. revert l Hn. induction n as [n IH] using lt_wf_ind. intros l ->.
  destruct l as [|[] [|[] [|[] l]]]; try reflexivity.
  cbn [groups64 bytes64]. rewrite (IH (length l)) by (cbn; lia || done). reflexivity.
Qed.

Theorem base32_roundtrip l : DecodeString32 (EncodeToString32 l) = Some l.
Proof.
  unfold DecodeString32, EncodeToString32. rewrite bytes_of_of, strip_newlines_map by apply digit32_newline.
  rewrite mapM_map by apply value32_digit. cbn. by rewrite bytes32_groups.
Qed.
Theorem base64_roundtrip l : DecodeString64 (EncodeToString64 l) = Some l.
Proof.
  unfold DecodeString64, EncodeToString64. rewrite bytes_of_of, strip_newlines_map by apply digit64_newline.
  rewrite mapM_map by apply value64_digit. cbn. by rewrite bytes64_groups.
Qed.

Lemma EncodeToString32_alphabet l : all_bytes (λ c, is_upper c || in_range "2" "7" c) (EncodeToString32 l) = true.
Proof.
  unfold all_bytes, EncodeToString32. rewrite bytes_of_of. apply forallb_forall. intros c Hc.
  apply list_elem_of_In, list_elem_of_fmap in Hc as (q & -> & _). apply digit32_alphabet.
Qed.
Lemma EncodeToString64_alphabet l :
  all_bytes (λ c, is_upper c || is_lower c || is_digit c || one_of "-_" c) (EncodeToString64 l) = true.
Proof.
  unfold all_bytes, EncodeToString64. rewrite bytes_of_of. apply forallb_forall. intros c Hc.
  apply list_elem_of_In, list_elem_of_fmap in Hc as (q & -> & _). apply digit64_alphabet.
Qed.

End Encoding.
