(* ===== verification/Names.v ===== *)
(** * Names: names of accounts and sites

    [safeUser] of [src/main.go], which every account and site name passes, and
    lemmas about the names it returns. *)
From S2P Require Import Prelude GoPath.

Module Names.

Definition safe_byte (c : ascii) : bool := one_of "_-" c || is_lower c || is_digit c.
Definition safeUser (value : string) : string :=
  let value := TrimSpace value in
  if (32 <? len value) || bool_decide (value = "") then "" else
  if all_bytes safe_byte value then value else "".

#[global] Arguments safeUser : simpl never.

(** A name as [safeUser] returns it. *)
Definition safe (u : string) : Prop := u ≠ "" ∧ len u ≤ 32 ∧ all_bytes safe_byte u = true.

Lemma safeUser_safe v u : safeUser v = u → u ≠ "" → safe u.
Proof.
  unfold safeUser. intros <- Hu. destruct (_ || _) eqn:E; [done|].
  destruct (all_bytes safe_byte (TrimSpace v)) eqn:Ha; [|done].
  apply orb_false_iff in E as [E1%Z.ltb_ge E2%bool_decide_eq_false]. split_and!; done.
Qed.

(** ** Trimming *)

Section Trim.
Context (P : ascii → bool).

Definition never (p : list ascii) : bool := match p with [] => false | c :: _ => negb (P c) end.

Lemma strip_any_never ps l : forallb never ps = true → forallb P l = true → strip_any ps l = None.
Proof.
  intros Hps Hl. induction ps as [|p ps IH]; [done|]. cbn in *. apply andb_true_iff in Hps as [Hp Hps].
  destruct p as [|c p]; [done|]. cbn in Hp. destruct l as [|b l]; cbn; [by apply IH|].
  cbn in Hl. apply andb_true_iff in Hl as [Hb Hl]. rewrite decide_False; [by apply IH|].
  intros ->. by rewrite Hb in Hp.
Qed.
Lemma strip_leading_never n ps l : forallb never ps = true → forallb P l = true → strip_leading n ps l = l.
Proof. intros Hps Hl. destruct n; [done|]. cbn. by rewrite strip_any_never. Qed.
End Trim.

Lemma forallb_reverse {A} (p : A → bool) l : forallb p (reverse l) = forallb p l.
Proof.
  apply eq_true_iff_eq. rewrite !forallb_forall. setoid_rewrite <- list_elem_of_In. by setoid_rewrite elem_of_reverse.
Qed.

(** Text of which no byte begins or ends a space is not changed by trimming. *)
Lemma TrimSpace_solid P s :
  forallb (never P) space_encodings = true → forallb (never P) (reverse <$> space_encodings) = true →
  all_bytes P s = true → TrimSpace s = s.
Proof.
  unfold all_bytes. intros H1 H2 Hs. unfold TrimSpace. rewrite (strip_leading_never P _ space_encodings) by done.
  rewrite (strip_leading_never P); [|done|by rewrite forallb_reverse].
  rewrite reverse_involutive. apply of_bytes_of.
Qed.

Lemma safeUser_fixed u : safe u → safeUser u = u.
Proof.
  intros (Hne & Hl & Ha). unfold safeUser.
  rewrite (TrimSpace_solid safe_byte) by (vm_compute; reflexivity || done).
  rewrite Ha, bool_decide_eq_false_2 by done. replace (32 <? len u) with false by (symmetry; apply Z.ltb_ge; lia). done.
Qed.

(** ** ASCII text *)

Definition is_ascii (c : ascii) : bool := code c <? 128.

Lemma all_bytes_weaken (p q : ascii → bool) s : (∀ c, p c = true → q c = true) → all_bytes p s = true → all_bytes q s = true.
Proof. unfold all_bytes. rewrite !forallb_forall. eauto. Qed.

Lemma ascii_step c : is_ascii c = true → GoPath.utf8_step GoPath.UStart c = Some GoPath.UStart.
Proof. destruct c as [[][][][][][][][]]; vm_compute; done. Qed.
Lemma ascii_ValidString s : all_bytes is_ascii s = true → GoPath.ValidString s = true.
Proof.
  unfold all_bytes, GoPath.ValidString, GoPath.valid_utf8. generalize (bytes_of s). induction l as [|c l IH]; [done|].
  cbn [forallb GoPath.utf8_run]. intros [Hc Hl]%andb_true_iff. rewrite ascii_step by done. by apply IH.
Qed.
Lemma safe_byte_ascii c : safe_byte c = true → is_ascii c = true.
Proof. destruct c as [[][][][][][][][]]; vm_compute; done. Qed.
Lemma safe_valid u : safe u → GoPath.ValidString u = true.
Proof. intros (_ & _ & Ha). eapply ascii_ValidString, all_bytes_weaken, Ha. apply safe_byte_ascii. Qed.

End Names.
