(* ===== verification/Accounts.v ===== *)
(** * Accounts: the store of customer identities

    Models the store of [src/accounts.go]: hosting plans, accounts and their
    validation, the sealing of TOTP seeds, loading, and every operation. The store
    of a process is a cache of the [accounts] and [tenant_sites] tables. An
    operation checks its arguments, reads the tables, decides, and writes in one
    transaction that is guarded by the payloads it read; between reading and
    writing other processes act. So an operation is an argument check and a
    decision ([Operation]), run in two halves, [start] and [finish].

    bcrypt and JSON are the class [AccountLib], what is used of them
    [AccountLaws]; the sealing is that of [Secretbox]. Texts of errors are the
    format strings of the code; times are nanoseconds, 0 the zero time. *)
From S2P Require Import Prelude GoText GoPath Names Encoding Secretbox.

Module Accounts.
Import GoText Names Encoding.

(** ** Data *)

Record HostingPlan := mkPlan { Name : string; SiteLimit : Z; CPUPercent : Z; MemoryMB : Z; TasksMax : Z; PHPWorkers : Z;
  DiskMB : Z; Inodes : Z; DatabaseLimit : Z; RedisMemoryMB : Z }.
Definition hostingPlans : gmap string HostingPlan := list_to_map
  [("starter", mkPlan "starter" 1 100 512 128 8 10240 200000 1 128);
   ("professional", mkPlan "professional" 5 200 1024 256 16 51200 1000000 10 1024);
   ("agency", mkPlan "agency" 25 400 2048 512 32 204800 5000000 50 4096)].

(** [Sites] is [None] for a nil slice, whose JSON differs from that of an empty one. *)
Record HostingAccount := mkAccount { Username : string; TenantID : string; Role : string; PasswordHash : string;
  TOTPSecret : string; TOTPEncrypted : bool; RecoveryCodeHashes : list string; SessionGeneration : Z;
  PasswordResetRequired : bool; MFAEnrollmentRequired : bool; MFAConfigured : bool; Plan : string;
  Sites : option (list string); Suspended : bool; CreatedAt : Z }.
#[export] Instance HostingAccount_eq_dec : EqDecision HostingAccount.
Proof. solve_decision. Defined.
Definition sites (a : HostingAccount) : list string := default [] (Sites a).

Record HostingAccountSummary := mkSummary { s_Username : string; s_TenantID : string; s_Role : string; s_Plan : string;
  s_Sites : list string; s_Suspended : bool; s_CreatedAt : Z; MFAEnabled : bool; s_PasswordResetRequired : bool;
  s_MFAEnrollmentRequired : bool }.

Definition accountTenantID (a : HostingAccount) : string :=
  if bool_decide (TrimSpace (TenantID a) = "") then Username a else TenantID a.
Definition accountRole (a : HostingAccount) : string :=
  let role := ToLower (TrimSpace (Role a)) in if bool_decide (role = "") then "owner" else role.
Definition publicHostingAccount (a : HostingAccount) : HostingAccountSummary :=
  mkSummary (Username a) (accountTenantID a) (accountRole a) (Plan a) (sites a) (Suspended a) (CreatedAt a)
    (MFAConfigured a || negb (bool_decide (TOTPSecret a = ""))) (PasswordResetRequired a) (MFAEnrollmentRequired a).

(** What the responses leave out. *)
Definition redact (a : HostingAccount) : HostingAccount :=
  a <| PasswordHash := "" |> <| TOTPSecret := "" |> <| RecoveryCodeHashes := [] |>.
(** [SessionGeneration++] on 64 bits. *)
Definition bump (a : HostingAccount) : HostingAccount := a <| SessionGeneration := (SessionGeneration a + 1) mod 2 ^ 64 |>.

Definition decodeTOTPSecret (value : string) : res (list ascii) :=
  let value := ToUpper (of_bytes (filter (λ c, c ≠ " "%char) (bytes_of (TrimSpace value)))) in
  match DecodeString32 value with
  | Some secret => if decide (length secret < 20)%nat then Err (EMsg "invalid TOTP secret") else Ok secret
  | None => Err (EMsg "invalid TOTP secret")
  end.

#[global] Arguments hostingPlans : simpl never.
#[global] Arguments decodeTOTPSecret : simpl never.
#[global] Arguments accountRole : simpl never.
#[global] Arguments accountTenantID : simpl never.

(** The outcomes of [bcrypt] and [encoding/json]: whether a hash is well formed,
    whether it is the hash of a password, hashing with a salt (which fails for
    passwords that are too long). *)
Class AccountLib := {
  bcrypt_cost : string → bool;
  bcrypt_compare : string → string → bool;
  bcrypt_generate : string → string → option string;
  json_marshal : HostingAccount → string;
  json_unmarshal : string → option HostingAccount
}.

(** [io.ReadFull(rand.Reader, make([]byte, size))]; [n]: which read it is. *)
Definition read_full (e : Env) (n size : nat) : option (list ascii) :=
  match rand e n with
  | Some s => if decide (String.length s = size) then Some (bytes_of s) else None
  | None => None
  end.
(** [fmt.Sprintf("%x", buf)]. *)
Definition hex_digit (n : Z) : ascii := if n <? 10 then chr (48 + n) else chr (87 + n).
Definition hex (l : list ascii) : string := of_bytes (l ≫= λ c, [hex_digit (code c / 16); hex_digit (code c mod 16)]).

(** ** The store of a process *)

(** The payload of a row and the JSON of the account it decodes to. *)
Record accountRow := mkRow { payload : string; image : string }.
#[export] Instance accountRow_eq_dec : EqDecision accountRow.
Proof. solve_decision. Defined.
(** [keys]: the key of the old format and the box, if a key is configured. *)
Record AccountStore := mkStore { keys : option (list ascii * Secretbox.Box); legacyTOTP : bool; legacyTOTPSeen : bool;
  accounts : gmap string HostingAccount; rows : gmap string accountRow; administratorUsername : string }.
(** The tables; [encryption_format] is the row of [encryption_formats] for this store. *)
Record DB := mkDB { t_accounts : gmap string string; tenant_sites : gmap string string; encryption_format : option Z }.

Section Store.
Context `{AL : AccountLib} `{A : Secretbox.AEAD}.

Definition validate_sites : list string → list string → bool :=
  fix go seen l := match l with
    | [] => true
    | site :: l => negb (bool_decide (safeUser site = "") || bool_decide (site ∈ seen)) && go (site :: seen) l
    end.
Definition validateHostingAccount (a : HostingAccount) (requireCreated : bool) : option error :=
  if bool_decide (safeUser (Username a) = "") || bool_decide (PasswordHash a = "") || bool_decide (TOTPSecret a = "") then
    Some (EMsg "account username, password hash, and TOTP secret are required") else
  if bool_decide (safeUser (TenantID a) = "") then Some (EMsg "account tenant ID is invalid") else
  let role := accountRole a in
  if negb (bool_decide (role ∈ ["owner"; "manager"; "developer"; "viewer"])) then Some (EMsg "account role is invalid") else
  if bool_decide (role = "owner") && negb (bool_decide (TenantID a = Username a)) then Some (EMsg "tenant owner must own the tenant identity") else
  if negb (bool_decide (role = "owner")) && negb (bool_decide (sites a = [])) then Some (EMsg "tenant members cannot own site assignments") else
  if negb (bcrypt_cost (PasswordHash a)) then Some (EMsg "account password hash must be valid bcrypt") else
  if negb (is_ok (decodeTOTPSecret (TOTPSecret a))) then Some (EMsg "account TOTP secret must be unpadded base32 with at least 160 bits") else
  match hostingPlans !! Plan a with
  | None => Some (EMsg "account plan or assigned sites are invalid")
  | Some plan =>
      if SiteLimit plan <? Z.of_nat (length (sites a)) then Some (EMsg "account plan or assigned sites are invalid") else
      if negb (validate_sites [] (sites a)) then Some (EMsg "account sites must be unique valid site names") else
      if requireCreated && (CreatedAt a =? 0) then Some (EMsg "account creation time is required") else None
  end.

(** ** Keys and sealed seeds *)

Definition accountTOTPPrefix : string := "v2:".

(** [configureAccountKey]. *)
Definition configureAccountKey (accountKey : string) : res (option (list ascii * Secretbox.Box)) :=
  if bool_decide (TrimSpace accountKey = "") then Ok None else
  match Secretbox.New (bytes_of accountKey) "account-totp" with
  | Err err => Err err
  | Ok box => Ok (Some (Secretbox.LegacyKey (bytes_of accountKey), box))
  end.

Definition sealTOTP (s : AccountStore) (nonce : option (list ascii)) (username secret : string) : res string :=
  match keys s with
  | None => Err (EMsg "account TOTP encryption key is not configured")
  | Some (_, box) =>
      match Secretbox.Seal box nonce (bytes_of secret) [username] with
      | Err err => Err err
      | Ok sealed => Ok (accountTOTPPrefix +:+ EncodeToString32 sealed)
      end
  end.

(** The flag tells that an old ciphertext was read. *)
Definition openTOTP (s : AccountStore) (username value : string) : res (string * bool) :=
  match keys s with
  | None => Err (EMsg "encrypted account TOTP requires STEPANEL_ACCOUNT_KEY")
  | Some (key, box) =>
      match strip_prefix (bytes_of accountTOTPPrefix) (bytes_of value) with
      | Some encoded =>
          match DecodeString32 (of_bytes encoded) with
          | None => Err (EMsg "invalid encrypted TOTP")
          | Some raw => match Secretbox.Open box raw [username] with Err err => Err err | Ok plain => Ok (of_bytes plain, false) end
          end
      | None =>
          if negb (legacyTOTP s) then Err (EMsg "TOTP seed is not bound to its account; legacy ciphertexts are no longer accepted") else
          match DecodeString32 value with
          | None => Err (EMsg "invalid encrypted TOTP")
          | Some raw => match Secretbox.OpenLegacyWithKey key raw with Err err => Err err | Ok plain => Ok (of_bytes plain, true) end
          end
      end
  end.

(** The part of every loader that opens the seed. *)
Definition open_account (s : AccountStore) (a : HostingAccount) : res (HostingAccount * bool) :=
  if TOTPEncrypted a then
    match openTOTP s (Username a) (TOTPSecret a) with
    | Err err => Err (EWrap "decrypt account TOTP" err)
    | Ok (plain, seen) => Ok (a <| TOTPSecret := plain |> <| TOTPEncrypted := false |>, seen)
    end
  else Ok (a, false).
(** The defaults of the tenant and of the role. *)
Definition fill (a : HostingAccount) : HostingAccount :=
  let a := if bool_decide (TenantID a = "") then a <| TenantID := Username a |> else a in
  if bool_decide (Role a = "") then a <| Role := "owner" |> else a.

Definition sealedAccount (s : AccountStore) (nonce : option (list ascii)) (a : HostingAccount) : res HostingAccount :=
  match keys s with
  | Some _ =>
      if bool_decide (TOTPSecret a = "") then Ok a else
      match sealTOTP s nonce (Username a) (TOTPSecret a) with
      | Err err => Err err
      | Ok encrypted => Ok (a <| TOTPSecret := encrypted |> <| TOTPEncrypted := true |>)
      end
  | None => Ok a
  end.

Definition accountImage (a : HostingAccount) : string := json_marshal a.

(** ** Reading the tables *)

Definition by_name {B} (x y : string * B) : Prop := String.le x.1 y.1.
#[export] Instance by_name_dec {B} : RelDecision (@by_name B).
Proof. intros x y. unfold by_name. apply _. Defined.
(** The rows of a table, ordered by their key. *)
Definition sorted_rows {B} (m : gmap string B) : list (string * B) := merge_sort by_name (map_to_list m).

(** Some site is assigned to two accounts. *)
Definition site_shared (m : gmap string HostingAccount) : bool :=
  existsb (λ x, existsb (λ y, negb (bool_decide (x.1 = y.1)) && existsb (λ site, bool_decide (site ∈ sites y.2)) (sites x.2))
                  (map_to_list m)) (map_to_list m).

Fixpoint refresh_rows (s : AccountStore) (payloads : list string) (acc : gmap string HostingAccount) (rws : gmap string accountRow) (seen : bool)
    : res (gmap string HostingAccount * gmap string accountRow) * bool :=
  match payloads with
  | [] => (Ok (acc, rws), seen)
  | p :: rest =>
      match json_unmarshal p with
      | None => (Err (EWrap "decode durable account state" io_err), seen)
      | Some a =>
          match open_account s a with
          | Err err => (Err err, seen)
          | Ok (a, legacy) =>
              let seen := seen || legacy in
              let a := fill a in
              match validateHostingAccount a false with
              | Some err => (Err (EWrap "invalid durable account state" err), seen)
              | None =>
                  match acc !! Username a with
                  | Some _ => (Err (EMsg "duplicate durable account %q"), seen)
                  | None => refresh_rows s rest (<[Username a := a]> acc) (<[Username a := mkRow p (accountImage a)]> rws) seen
                  end
              end
          end
      end
  end.

(** [refreshFromDBLocked]; fault 0: the query. *)
Definition refreshFromDBLocked (e : Env) (d : DB) (s : AccountStore) : option error * AccountStore :=
  if fault e 0 then (Some (EWrap "read durable account state" io_err), s) else
  match refresh_rows s ((sorted_rows (t_accounts d)).*2) ∅ ∅ (legacyTOTPSeen s) with
  | (Err err, seen) => (Some err, s <| legacyTOTPSeen := seen |>)
  | (Ok (acc, rws), seen) =>
      if site_shared acc then (Some (EMsg "durable site %q is assigned to both %q and %q"), s <| legacyTOTPSeen := seen |>) else
      (None, s <| legacyTOTPSeen := seen |> <| accounts := acc |> <| rows := rws |>)
  end.

(** [Get]; fault 0: the query. *)
Definition Get (e : Env) (username : string) (d : DB) (s : AccountStore) : option HostingAccount :=
  if fault e 0 then None else
  match t_accounts d !! username with
  | None => None
  | Some p =>
      match json_unmarshal p with
      | None => None
      | Some a =>
          if negb (bool_decide (Username a = username)) then None else
          match open_account s (fill a) with
          | Err _ => None
          | Ok (a, _) => Some (a <| MFAConfigured := MFAConfigured a || negb (bool_decide (TOTPSecret a = "")) |>)
          end
      end
  end.

(** The environment of the second query of an operation. *)
Definition later (e : Env) (n : nat) : Env :=
  mkEnv (λ i, clock e (n + i)) (λ i, fault e (n + i)) (λ i, rand e (n + i)).

(** Fault 0 and 1: the two queries. *)
Definition TenantSuspended (e : Env) (username : string) (d : DB) (s : AccountStore) : bool :=
  match Get e username d s with
  | None => false
  | Some account => if Suspended account then true else
                    match Get (later e 1) (accountTenantID account) d s with Some tenant => Suspended tenant | None => false end
  end.
Definition OwnsSite (e : Env) (username site : string) (d : DB) (s : AccountStore) : bool :=
  match Get e username d s with
  | None => false
  | Some account => if fault e 1 then false else bool_decide (tenant_sites d !! site = Some (accountTenantID account))
  end.
Definition OwnerOfSiteWithError (e : Env) (site : string) (d : DB) : res (option string) :=
  if fault e 0 then Err (EWrap "read owner for site %q" io_err) else Ok (tenant_sites d !! site).
Definition OwnerOfSite (e : Env) (site : string) (d : DB) : option string :=
  match OwnerOfSiteWithError e site d with Ok o => o | Err _ => None end.
Definition GetSitesWithError (e : Env) (username : string) (d : DB) (s : AccountStore) : res (list string) :=
  match Get e username d s with
  | None => Ok []
  | Some account =>
      if fault e 1 then Err (EWrap "query sites for account %q" io_err) else
      Ok ((sorted_rows (filter (λ kv, kv.2 = accountTenantID account) (tenant_sites d))).*1)
  end.
Definition GetSites (e : Env) (username : string) (d : DB) (s : AccountStore) : list string :=
  match GetSitesWithError e username d s with Ok l => l | Err _ => [] end.

Fixpoint list_accounts (e : Env) (names : list string) (d : DB) (s : AccountStore) : res (list HostingAccount) :=
  match names with
  | [] => Ok []
  | n :: rest =>
      match Get e n d s with
      | None => Err (EMsg "load account %q")
      | Some a => match list_accounts (later e 1) rest d s with Err err => Err err | Ok l => Ok (redact a :: l) end
      end
  end.
(** [ListWithError] and [List]; fault 0: the query, then one for each account. *)
Definition ListWithError (e : Env) (d : DB) (s : AccountStore) : res (list HostingAccount) :=
  if fault e 0 then Err (EWrap "query accounts" io_err) else list_accounts (later e 1) (sorted_rows (t_accounts d)).*1 d s.
Definition List (e : Env) (d : DB) (s : AccountStore) : list HostingAccount :=
  match ListWithError e d s with Ok l => l | Err _ => [] end.

(** ** Writing the tables *)

Record change := mkChange { c_username : string; c_previous : option HostingAccount; c_next : option HostingAccount; c_row : accountRow }.

(** What differs between the cache and the rows it was read from, by name. *)
Definition change_of (s : AccountStore) (u : string) : res (option change) :=
  match accounts s !! u, rows s !! u with
  | Some a, Some row =>
      if bool_decide (image row = accountImage a) then Ok None else
      match json_unmarshal (image row) with
      | None => Err (EWrap "decode cached account %s" io_err)
      | Some previous => Ok (Some (mkChange u (Some previous) (Some a) row))
      end
  | Some a, None => Ok (Some (mkChange u None (Some a) (mkRow "" "")))
  | None, Some row =>
      match json_unmarshal (image row) with
      | None => Err (EWrap "decode cached account %s" io_err)
      | Some previous => Ok (Some (mkChange u (Some previous) None row))
      end
  | None, None => Ok None
  end.
Fixpoint collect (s : AccountStore) (us : list string) : res (list change) :=
  match us with
  | [] => Ok []
  | u :: us =>
      match change_of s u, collect s us with
      | Err err, _ => Err err
      | _, Err err => Err err
      | Ok None, Ok l => Ok l
      | Ok (Some c), Ok l => Ok (c :: l)
      end
  end.
Definition name_le (x y : string) : Prop := String.le x y.
#[export] Instance name_le_dec : RelDecision name_le.
Proof. intros x y. unfold name_le. apply _. Defined.
Definition changes (s : AccountStore) : res (list change) :=
  collect s (merge_sort name_le (elements (dom (accounts s) ∪ dom (rows s)))).

(** The first loop: assignments that are given up. *)
Definition same_tenant (c : change) : bool :=
  match c_previous c, c_next c with
  | Some p, Some n => bool_decide (accountTenantID n = accountTenantID p)
  | _, _ => false
  end.
Definition release_one (kept : list string) (tenant : string) (ts : gmap string string) (site : string) : gmap string string :=
  if bool_decide (site ∈ kept) then ts else if bool_decide (ts !! site = Some tenant) then delete site ts else ts.
Definition release_sites (c : change) (ts : gmap string string) : gmap string string :=
  match c_previous c with
  | None => ts
  | Some p =>
      let kept := if same_tenant c then match c_next c with Some n => sites n | None => [] end else [] in
      foldl (release_one kept (accountTenantID p)) ts (sites p)
  end.

Definition errAccountStateConflict : error := ESentinel "account state was changed by another StePanel process; retry the operation".

(** [INSERT ... ON CONFLICT(site) DO NOTHING] of the sites that are not held yet. *)
Fixpoint claim_sites (tenant : string) (held l : list string) (ts : gmap string string) : res (gmap string string) :=
  match l with
  | [] => Ok ts
  | site :: l =>
      if bool_decide (site ∈ held) then claim_sites tenant held l ts else
      match ts !! site with
      | Some _ => Err errAccountStateConflict
      | None => claim_sites tenant held l (<[site := tenant]> ts)
      end
  end.

(** One round of the second loop; [n]: which read of the random source seals it. *)
Definition write_change (e : Env) (n : nat) (s : AccountStore) (c : change) (d : DB) : res (DB * option accountRow) :=
  match c_next c with
  | None =>
      if bool_decide (t_accounts d !! c_username c = Some (payload (c_row c)))
      then Ok (mkDB (delete (c_username c) (t_accounts d)) (tenant_sites d) (encryption_format d), None)
      else Err errAccountStateConflict
  | Some next =>
      match sealedAccount s (read_full e n Secretbox.NonceSize) next with
      | Err err => Err err
      | Ok sealed =>
          let p := json_marshal sealed in
          let guarded := match c_previous c with
                         | None => bool_decide (t_accounts d !! c_username c = None)
                         | Some _ => bool_decide (t_accounts d !! c_username c = Some (payload (c_row c)))
                         end in
          if negb guarded then Err errAccountStateConflict else
          let held := if same_tenant c then match c_previous c with Some p => sites p | None => [] end else [] in
          match claim_sites (accountTenantID next) held (sites next) (tenant_sites d) with
          | Err err => Err err
          | Ok ts => Ok (mkDB (<[c_username c := p]> (t_accounts d)) ts (encryption_format d), Some (mkRow p (accountImage next)))
          end
      end
  end.
Fixpoint write_changes (e : Env) (n : nat) (s : AccountStore) (cs : list change) (d : DB) (rws : gmap string accountRow)
    : res (DB * gmap string accountRow) :=
  match cs with
  | [] => Ok (d, rws)
  | c :: cs =>
      match write_change e n s c d with
      | Err err => Err err
      | Ok (d, row) => write_changes e (S n) s cs d (partial_alter (λ _, row) (c_username c) rws)
      end
  end.

(** [persistChangedLocked]; fault 0: a statement of the transaction, which is rolled
    back, 1: committing, 2: the commit happened although it was reported as failed. *)
Definition persistChangedLocked (e : Env) (s : AccountStore) (d : DB) : option error * AccountStore * DB :=
  match changes s with
  | Err err => (Some err, s, d)
  | Ok [] => (None, s, d)
  | Ok cs =>
      if fault e 0 then (Some (EWrap "write durable account %s" io_err), s, d) else
      let d0 := mkDB (t_accounts d) (foldl (λ ts c, release_sites c ts) (tenant_sites d) cs) (encryption_format d) in
      match write_changes e 0 s cs d0 (rows s) with
      | Err err => (Some err, s, d)
      | Ok (d', rws) =>
          if fault e 1 then (Some (EWrap "commit durable account state" io_err), s, if fault e 2 then d' else d) else
          (None, s <| rows := rws |>, d')
      end
  end.

(** ** Operations *)

(** After the tables have been read an operation refuses, answers without writing, or
    sets or removes ([None]) one account and answers when that is durable. *)
Inductive Decided (B : Type) := Refuse (err : error) | Answer (b : B) | Write (username : string) (next : option HostingAccount) (b : B).
#[global] Arguments Refuse {B} err.
#[global] Arguments Answer {B} b.
#[global] Arguments Write {B} username next b.
(** An operation returns early, before it takes the lock of the store, or decides
    under it. *)
Inductive Operation (B : Type) := Early (r : res B) | Locked (f : AccountStore → Decided B).
#[global] Arguments Early {B} r.
#[global] Arguments Locked {B} f.

Definition not_found : error := EMsg "account not found".
Definition with_account {B} (username : string) (f : HostingAccount → Decided B) : AccountStore → Decided B := λ s,
  match accounts s !! username with None => Refuse not_found | Some account => f account end.

(** [hashPassword]; [n]: which read of the random source is the salt. *)
Definition hashPassword (e : Env) (n : nat) (password : string) : res string :=
  match rand e n with
  | None => Err io_err
  | Some salt => match bcrypt_generate password salt with Some h => Ok h | None => Err (EMsg "bcrypt: password length exceeds 72 bytes") end
  end.

Definition SetSuspended (username : string) (suspended : bool) : Operation HostingAccount := Locked (with_account username (λ account,
  let next := account <| Suspended := suspended |> in
  let next := if Bool.eqb (Suspended account) suspended then next else bump next in
  Write username (Some next) (redact next))).

Definition RemoveLogin (username : string) : Operation unit := Locked (with_account username (λ _, Write username None tt)).

(** Some other account has one of the sites. *)
Definition assigned_elsewhere (s : AccountStore) (username : string) (l : list string) : bool :=
  existsb (λ x, negb (bool_decide (x.1 = username)) && existsb (λ site, bool_decide (site ∈ l)) (sites x.2)) (map_to_list (accounts s)).

(** [append([]string(nil), l...)]. *)
Definition copy (l : list string) : option (list string) := match l with [] => None | _ => Some l end.

Definition Update (username plan : string) (l : list string) : Operation HostingAccount := Locked (λ s, with_account username (λ account,
  if negb (bool_decide (accountRole account = "owner")) then Refuse (EMsg "tenant member plan and assignments are inherited from the owner") else
  let updated := account <| Plan := ToLower (TrimSpace plan) |> <| Sites := copy l |> in
  match validateHostingAccount updated true with
  | Some err => Refuse err
  | None => if assigned_elsewhere s username (sites updated) then Refuse (EMsg "site %q is already assigned to account %q") else
            Write username (Some updated) (redact updated)
  end) s).

Definition ensureSiteAssigned (username site : string) (idempotent : bool) : Operation (HostingAccount * bool) :=
  let username := safeUser username in let site := safeUser site in
  if bool_decide (username = "") || bool_decide (site = "") then Early (Err (EMsg "account and site are required")) else
  Locked (λ s, with_account username (λ account,
    if negb (bool_decide (accountRole account = "owner")) then Refuse (EMsg "only a tenant owner may assign sites") else
    if Suspended account then Refuse (EMsg "account is suspended") else
    if bool_decide (site ∈ sites account) then
      if idempotent then Answer (redact account, false) else Refuse (EMsg "site is already assigned to this account") else
    if assigned_elsewhere s username [site] then Refuse (EMsg "site %q is already assigned to account %q") else
    let next := account <| Sites := Some (sites account ++ [site]) |> in
    match validateHostingAccount next true with
    | Some err => Refuse err
    | None => Write username (Some next) (redact next, true)
    end) s).
Definition AssignSite (username site : string) : Operation (HostingAccount * bool) := ensureSiteAssigned username site false.
Definition EnsureSiteAssigned (username site : string) : Operation (HostingAccount * bool) := ensureSiteAssigned username site true.

Definition UnassignSite (username site : string) : Operation unit :=
  let username := safeUser username in let site := safeUser site in
  if bool_decide (username = "") || bool_decide (site = "") then Early (Err (EMsg "account and site are required")) else
  Locked (with_account username (λ account,
    if negb (bool_decide (site ∈ sites account)) then Answer tt else
    Write username (Some (account <| Sites := Some (filter (λ x, x ≠ site) (sites account)) |>)) tt)).

Definition reservedAdministrator (s : AccountStore) : string :=
  if bool_decide (administratorUsername s = "") then "admin" else administratorUsername s.

Definition Create (e : Env) (username password totpSecret plan : string) (l : option (list string)) : Operation HostingAccount :=
  let username := safeUser username in let plan := ToLower (TrimSpace plan) in
  if bool_decide (username = "") || (len password <? 20) then Early (Err (EMsg "username and a password of at least 20 characters are required")) else
  match hashPassword e 0 password with
  | Err err => Early (Err err)
  | Ok hash =>
      let account := mkAccount username username "owner" hash totpSecret false [] 0 false false false plan l false (clock e 0) in
      match validateHostingAccount account true with
      | Some err => Early (Err err)
      | None => Locked (λ s,
          if bool_decide (username = reservedAdministrator s) then Refuse (EMsg "customer username is reserved for the administrator") else
          if bool_decide (is_Some (accounts s !! username)) then Refuse (EMsg "account already exists") else
          if existsb (λ x, existsb (λ site, bool_decide (site ∈ sites account)) (sites x.2)) (map_to_list (accounts s))
          then Refuse (EMsg "site %q is already assigned to account %q") else
          Write username (Some account) (redact account))
      end
  end.

Definition CreateMember (e : Env) (tenantID username password totpSecret role : string) : Operation HostingAccount :=
  let tenantID := safeUser tenantID in let username := safeUser username in let role := ToLower (TrimSpace role) in
  if bool_decide (tenantID = "") || bool_decide (username = "") || (len password <? 20) then
    Early (Err (EMsg "tenant, username, and a password of at least 20 characters are required")) else
  if bool_decide (role = "owner") || bool_decide (role = "") then Early (Err (EMsg "member role must be manager, developer, or viewer")) else
  match hashPassword e 0 password with
  | Err err => Early (Err err)
  | Ok hash => Locked (λ s,
      match accounts s !! tenantID with
      | None => Refuse (EMsg "tenant owner not found")
      | Some owner =>
          if negb (bool_decide (accountTenantID owner = tenantID)) || negb (bool_decide (accountRole owner = "owner")) then Refuse (EMsg "tenant owner not found") else
          if bool_decide (is_Some (accounts s !! username)) then Refuse (EMsg "account already exists") else
          let member := mkAccount username tenantID role hash totpSecret false [] 0 false false false (Plan owner) None false (clock e 0) in
          match validateHostingAccount member true with
          | Some err => Refuse err
          | None => if bool_decide (username = reservedAdministrator s) then Refuse (EMsg "customer username is reserved for the administrator") else
                    Write username (Some member) (redact member)
          end
      end)
  end.

Definition member_next (role : option string) (suspended : option bool) (account : HostingAccount) : HostingAccount :=
  let next := match role with Some r => account <| Role := r |> | None => account end in
  match suspended with
  | Some b => if Bool.eqb (Suspended next) b then next else bump (next <| Suspended := b |>)
  | None => next
  end.
Definition UpdateMember (username : string) (role : option string) (suspended : option bool) : Operation HostingAccount :=
  let username := safeUser username in
  let role := (λ r, ToLower (TrimSpace r)) <$> role in
  let decision : AccountStore → Decided HostingAccount := λ s,
    match accounts s !! username with
    | None => Refuse (EMsg "tenant member not found")
    | Some account =>
        if bool_decide (accountRole account = "owner") then Refuse (EMsg "tenant member not found") else
        let next := member_next role suspended account in
        match validateHostingAccount next true with
        | Some err => Refuse err
        | None => Write username (Some next) (redact next)
        end
    end in
  match role with
  | Some r => if bool_decide (r ∈ ["manager"; "developer"; "viewer"]) then Locked decision else Early (Err (EMsg "member role must be manager, developer, or viewer"))
  | None => Locked decision
  end.
Definition SetMemberRole (username role : string) : Operation HostingAccount := UpdateMember username (Some role) None.

(** The decision of [ListMembers]. *)
Definition ListMembers (tenantID : string) : Operation (list HostingAccount) :=
  let tenantID := safeUser tenantID in
  if bool_decide (tenantID = "") then Early (Err (EMsg "tenant ID is invalid")) else
  Locked (λ s, Answer (redact <$> (sorted_rows (filter (λ kv, accountTenantID kv.2 = tenantID ∧ accountRole kv.2 ≠ "owner") (accounts s))).*2)).

Definition ResetTOTP (e : Env) (username : string) : Operation (HostingAccount * string) :=
  match read_full e 0 20 with
  | None => Early (Err io_err)
  | Some secretBytes =>
      let secret := EncodeToString32 secretBytes in
      Locked (with_account username (λ account,
        let next := bump (account <| TOTPSecret := secret |> <| TOTPEncrypted := false |> <| MFAEnrollmentRequired := true |>) in
        Write username (Some next) (redact next <| TOTPEncrypted := false |>, secret)))
  end.

(** [n] codes and their hashes; the reads of the random source start at [i]. *)
Fixpoint recovery_codes (e : Env) (i n : nat) : res (list string * list string) :=
  match n with
  | O => Ok ([], [])
  | S n =>
      match read_full e i 8 with
      | None => Err io_err
      | Some buf =>
          match hashPassword e (S i) (hex buf), recovery_codes e (S (S i)) n with
          | Err err, _ => Err err
          | _, Err err => Err err
          | Ok h, Ok (cs, hs) => Ok (hex buf :: cs, h :: hs)
          end
      end
  end.
Definition GenerateRecoveryCodes (e : Env) (username : string) : Operation (HostingAccount * list string) :=
  match recovery_codes e 0 10 with
  | Err err => Early (Err err)
  | Ok (codes, hashes) => Locked (with_account username (λ account,
      let next := bump (account <| RecoveryCodeHashes := hashes |>) in Write username (Some next) (redact next, codes)))
  end.

(** The hashes without the first one the code matches. *)
Fixpoint consume (code : string) (hashes : list string) : option (list string) :=
  match hashes with
  | [] => None
  | h :: hs => if bcrypt_compare h code then Some hs else cons h <$> consume code hs
  end.
Definition ConsumeRecoveryCode (username code : string) : Operation bool :=
  if (len code <? 8) || (128 <? len code) then Early (Ok false) else Locked (λ s,
  match accounts s !! username with
  | None => Answer false
  | Some account =>
      match consume code (RecoveryCodeHashes account) with
      | None => Answer false
      | Some hs => Write username (Some (account <| RecoveryCodeHashes := hs |>)) true
      end
  end).

Definition RecoverCredentials (e : Env) (username : string) : Operation (HostingAccount * string * string * list string) :=
  match read_full e 0 18, read_full e 1 20 with
  | Some passwordBytes, Some totpBytes =>
      let temporaryPassword := EncodeToString64 passwordBytes in
      let totpSecret := EncodeToString32 totpBytes in
      match recovery_codes e 2 10 with
      | Err err => Early (Err err)
      | Ok (codes, hashes) =>
          match hashPassword e 22 temporaryPassword with
          | Err err => Early (Err err)
          | Ok passwordHash => Locked (with_account username (λ account,
              let next := bump (account <| PasswordHash := passwordHash |> <| TOTPSecret := totpSecret |> <| TOTPEncrypted := false |>
                <| RecoveryCodeHashes := hashes |> <| PasswordResetRequired := true |> <| MFAEnrollmentRequired := true |>) in
              Write username (Some next) (redact next <| TOTPEncrypted := false |>, temporaryPassword, totpSecret, codes)))
          end
      end
  | _, _ => Early (Err io_err)
  end.

Definition SetPassword (e : Env) (username password : string) : Operation HostingAccount :=
  if (len password <? 20) || (128 <? len password) then Early (Err (EMsg "password must be 20-128 characters")) else
  match hashPassword e 0 password with
  | Err err => Early (Err err)
  | Ok hash => Locked (with_account username (λ account,
      let next := bump (account <| PasswordHash := hash |> <| PasswordResetRequired := false |>) in
      Write username (Some next) (redact next)))
  end.

Definition SetTOTP (username secret : string) : Operation HostingAccount :=
  match decodeTOTPSecret secret with
  | Err err => Early (Err err)
  | Ok _ => Locked (with_account username (λ account,
      let next := bump (account <| TOTPSecret := secret |> <| TOTPEncrypted := false |> <| MFAEnrollmentRequired := false |>) in
      Write username (Some next) (redact next)))
  end.

(** ** Running an operation *)

(** What is left to do when the operation has decided to write. *)
Record Pending (B : Type) := mkPending { p_username : string; p_previous : option HostingAccount; p_next : option HostingAccount; p_answer : B }.
#[global] Arguments mkPending {B}.
#[global] Arguments p_username {B}.
#[global] Arguments p_previous {B}.
#[global] Arguments p_next {B}.
#[global] Arguments p_answer {B}.

Definition set_account (u : string) (a : option HostingAccount) (s : AccountStore) : AccountStore :=
  s <| accounts := partial_alter (λ _, a) u (accounts s) |>.

(** Up to the decision; the environment is that of the refresh. *)
Definition start {B} (op : Operation B) (e : Env) (d : DB) (s : AccountStore) : (res B + Pending B) * AccountStore :=
  match op with
  | Early r => (inl r, s)
  | Locked f =>
      match refreshFromDBLocked e d s with
      | (Some err, s) => (inl (Err err), s)
      | (None, s) =>
          match f s with
          | Refuse err => (inl (Err err), s)
          | Answer b => (inl (Ok b), s)
          | Write u next b => (inr (mkPending u (accounts s !! u) next b), set_account u next s)
          end
      end
  end.

(** [persistLocked] and what follows it. *)
Definition finish {B} (p : Pending B) (e : Env) (d : DB) (s : AccountStore) : res B * AccountStore * DB :=
  match persistChangedLocked e s d with
  | (None, s, d) => (Ok (p_answer p), s, d)
  | (Some err, s, d) => (Err err, set_account (p_username p) (p_previous p) s, d)
  end.

(** Both halves when nobody interferes. *)
Definition run {B} (op : Operation B) (er ep : Env) (d : DB) (s : AccountStore) : res B * AccountStore * DB :=
  match start op er d s with
  | (inl r, s) => (r, s, d)
  | (inr p, s) => finish p ep d s
  end.

(** [SetAdministratorUsername] changes only the store. *)
Definition SetAdministratorUsername (e : Env) (username : string) (d : DB) (s : AccountStore) : option error * AccountStore :=
  let username := safeUser username in
  if bool_decide (username = "") then (Some (EMsg "administrator username is invalid"), s) else
  match refreshFromDBLocked e d s with
  | (Some err, s) => (Some err, s)
  | (None, s) =>
      if bool_decide (is_Some (accounts s !! username)) then (Some (EMsg "administrator username %q is already assigned to a customer account"), s)
      else (None, s <| administratorUsername := username |>)
  end.

(** ** Opening the store *)

(** [sealedAccounts]: [n], which read of the random source seals the first one. *)
Fixpoint seal_all (e : Env) (n : nat) (s : AccountStore) (l : list (string * HostingAccount)) : res (list HostingAccount) :=
  match l with
  | [] => Ok []
  | (_, a) :: l =>
      match sealedAccount s (read_full e n Secretbox.NonceSize) a, seal_all e (S n) s l with
      | Err err, _ => Err err
      | _, Err err => Err err
      | Ok a, Ok l => Ok (a :: l)
      end
  end.
Definition sealedAccounts (e : Env) (s : AccountStore) : res (list HostingAccount) := seal_all e 0 s (sorted_rows (accounts s)).

(** The statements of [persistAllLocked]; a primary key violated is an error. *)
Fixpoint insert_sites (tenant : string) (l : list string) (ts : gmap string string) : res (gmap string string) :=
  match l with
  | [] => Ok ts
  | site :: l => match ts !! site with
                 | Some _ => Err (EWrap "write durable site ownership %s" io_err)
                 | None => insert_sites tenant l (<[site := tenant]> ts)
                 end
  end.
Fixpoint insert_all (s : AccountStore) (l : list HostingAccount) (d : DB) (rws : gmap string accountRow) : res (DB * gmap string accountRow) :=
  match l with
  | [] => Ok (d, rws)
  | a :: l =>
      let p := json_marshal a in
      if bool_decide (is_Some (t_accounts d !! Username a)) then Err (EWrap "write durable account %s" io_err) else
      match insert_sites (accountTenantID a) (sites a) (tenant_sites d) with
      | Err err => Err err
      | Ok ts =>
          let image := match accounts s !! Username a with Some plain => accountImage plain | None => "" end in
          insert_all s l (mkDB (<[Username a := p]> (t_accounts d)) ts (encryption_format d)) (<[Username a := mkRow p image]> rws)
      end
  end.
(** [persistAllLocked] with a database; faults as in [persistChangedLocked]. *)
Definition persistAllLocked (e : Env) (s : AccountStore) (d : DB) : option error * AccountStore * DB :=
  match sealedAccounts e s with
  | Err err => (Some err, s, d)
  | Ok l =>
      if fault e 0 then (Some (EWrap "clear durable account state" io_err), s, d) else
      match insert_all s l (mkDB ∅ ∅ (encryption_format d)) ∅ with
      | Err err => (Some err, s, d)
      | Ok (d', rws) =>
          if fault e 1 then (Some (EWrap "commit durable account state" io_err), s, if fault e 2 then d' else d) else
          (None, s <| rows := rws |>, d')
      end
  end.

Definition addLoadedAccount (s : AccountStore) (a : HostingAccount) : res AccountStore :=
  let a := fill a in
  match validateHostingAccount a false with
  | Some err => Err (EWrap "invalid account state" err)
  | None =>
      if existsb (λ x, existsb (λ site, bool_decide (site ∈ sites a)) (sites x.2)) (map_to_list (accounts s))
      then Err (EMsg "invalid account state: site %q is assigned to both %q and %q") else
      if bool_decide (is_Some (accounts s !! Username a)) then Err (EMsg "duplicate account %q") else
      Ok (s <| accounts := <[Username a := a]> (accounts s) |>)
  end.
Fixpoint loadAccounts (l : list HostingAccount) (s : AccountStore) : res AccountStore :=
  match l with
  | [] => Ok s
  | a :: l =>
      match open_account s a with
      | Err err => Err err
      | Ok (a, legacy) =>
          match addLoadedAccount (s <| legacyTOTPSeen := legacyTOTPSeen s || legacy |>) (fill a) with
          | Err err => Err err
          | Ok s => loadAccounts l s
          end
      end
  end.

(** The state file of older versions: absent, unreadable, or its accounts. *)
Inductive StateFile := NoFile | BadFile (err : error) | Saved (l : list HostingAccount).
Definition empty_store (k : option (list ascii * Secretbox.Box)) (legacy : bool) : AccountStore := mkStore k legacy false ∅ ∅ "admin".
Definition OpenAccountStore (file : StateFile) (accountKey : string) : res AccountStore :=
  match configureAccountKey accountKey with
  | Err err => Err err
  | Ok k =>
      match file with
      | NoFile => Ok (empty_store k true)
      | BadFile err => Err (EWrap "read account state" err)
      | Saved l => loadAccounts l (empty_store k true)
      end
  end.

(** [legacyCiphertextAllowed] and [markContextBoundEncryption]. *)
Definition contextBoundEncryptionVersion : Z := 2.
Definition legacyCiphertextAllowed (e : Env) (n : nat) (d : DB) : res bool :=
  if fault e n then Err (EWrap "read %s encryption format" io_err) else
  Ok (match encryption_format d with None => true | Some v => v <? contextBoundEncryptionVersion end).
Definition markContextBoundEncryption (e : Env) (n : nat) (d : DB) : option error * DB :=
  if fault e n then (Some (EWrap "record %s encryption format" io_err), d) else
  (None, mkDB (t_accounts d) (tenant_sites d) (Some contextBoundEncryptionVersion)).

Fixpoint load_rows (payloads : list string) (s : AccountStore) : res AccountStore :=
  match payloads with
  | [] => Ok s
  | p :: rest =>
      if 2 ^ 20 <? len p then Err (EMsg "account payload exceeds 1 MiB") else
      match json_unmarshal p with
      | None => Err (EWrap "decode durable account state" io_err)
      | Some a =>
          match open_account s a with
          | Err err => Err err
          | Ok (a, legacy) =>
              match addLoadedAccount (s <| legacyTOTPSeen := legacyTOTPSeen s || legacy |>) a with
              | Err err => Err err
              | Ok s =>
                  let image := match accounts s !! Username a with Some a => accountImage a | None => "" end in
                  load_rows rest (s <| rows := <[Username a := mkRow p image]> (rows s) |>)
              end
          end
      end
  end.

(** [OpenAccountStoreDB]; fault 0: the format, 1: the rows, 2: counting the assignments,
    3: recording the format; the three rewrites have environments of their own. *)
Definition OpenAccountStoreDB (e e1 e2 e3 : Env) (legacyFile : option StateFile) (accountKey : string) (d : DB) : res AccountStore * DB :=
  match configureAccountKey accountKey with
  | Err err => (Err err, d)
  | Ok k =>
  match legacyCiphertextAllowed e 0 d with
  | Err err => (Err err, d)
  | Ok allowed =>
  if fault e 1 then (Err (EWrap "read durable account state" io_err), d) else
  let s := empty_store k allowed in
  let payloads := (sorted_rows (t_accounts d)).*2 in
  let '(loaded, d) :=
    match payloads, legacyFile with
    | [], Some file =>
        match OpenAccountStore file accountKey with
        | Err err => (Err (EWrap "load legacy account state" err), d)
        | Ok legacy =>
            let s := s <| accounts := accounts legacy |> in
            if bool_decide (accounts s = ∅) then (Ok s, d) else
            match persistAllLocked e1 s d with
            | (Some err, _, d) => (Err (EWrap "migrate legacy account state" err), d)
            | (None, s, d) => (Ok s, d)
            end
        end
    | _, _ => (load_rows payloads s, d)
    end in
  match loaded with
  | Err err => (Err err, d)
  | Ok s =>
  let '(owned, d) :=
    if bool_decide (accounts s = ∅) then (Ok s, d) else
    if fault e 2 then (Err (EWrap "inspect durable site ownership" io_err), d) else
    if bool_decide (tenant_sites d = ∅) then
      match persistAllLocked e2 s d with
      | (Some err, _, d) => (Err (EWrap "migrate durable site ownership" err), d)
      | (None, s, d) => (Ok s, d)
      end
    else (Ok s, d) in
  match owned with
  | Err err => (Err err, d)
  | Ok s =>
  if negb (legacyTOTP s) then (Ok s, d) else
  let '(resealed, d) :=
    if legacyTOTPSeen s then
      match persistAllLocked e3 s d with
      | (Some err, _, d) => (Err (EWrap "re-seal account TOTP seeds" err), d)
      | (None, s, d) => (Ok s, d)
      end
    else (Ok s, d) in
  match resealed with
  | Err err => (Err err, d)
  | Ok s =>
      match markContextBoundEncryption e 3 d with
      | (Some err, d) => (Err err, d)
      | (None, d) => (Ok (s <| legacyTOTP := false |> <| legacyTOTPSeen := false |>), d)
      end
  end
  end
  end
  end
  end.

End Store.
End Accounts.
