(* ===== verification/AccountsProps.v ===== *)
(** * AccountsProps: ownership, lost updates and recovery codes

    Theorems about [Accounts]. Any number of processes run operations on the same
    tables, each in two halves, with failures at every statement, commits whose
    outcome is not learnt, and kills between the halves ([step]). The invariant is
    that every row decodes to a valid account of its name and that [tenant_sites]
    says exactly what the accounts say. *)
From S2P Require Import Prelude GoText GoPath Names Encoding Secretbox Accounts.

Module AccountsProps.
Import GoText Names Encoding Accounts.

(** ** What is used of the libraries *)

(** Text that JSON carries unchanged. *)
Record texts (a : HostingAccount) : Prop := mkTexts {
  tx_fields : Forall (λ s, GoPath.ValidString s = true) [Username a; TenantID a; Role a; PasswordHash a; TOTPSecret a; Plan a];
  tx_hashes : Forall (λ s, GoPath.ValidString s = true) (RecoveryCodeHashes a);
  tx_sites : Forall (λ s, GoPath.ValidString s = true) (sites a);
  tx_generation : 0 ≤ SessionGeneration a < 2 ^ 64;
  tx_created : 0 ≤ CreatedAt a < 2 ^ 63
}.

Class AccountLaws `{AccountLib} : Prop := {
  bcrypt_generated pw salt h : bcrypt_generate pw salt = Some h → bcrypt_cost h = true ∧ h ≠ "" ∧ GoPath.ValidString h = true;
  json_roundtrip a : texts a → json_unmarshal (json_marshal a) = Some a
}.

(** ** What an operation writes *)

Definition forget {B} (op : Operation B) : Operation unit :=
  match op with
  | Early r => Early (match r with Ok _ => Ok tt | Err err => Err err end)
  | Locked f => Locked (λ s, match f s with Refuse err => Refuse err | Answer _ => Answer tt | Write u next _ => Write u next tt end)
  end.

Lemma with_account_Write {B} u (f : HostingAccount → Decided B) s v n b :
  with_account u f s = Write v n b → ∃ a, accounts s !! u = Some a ∧ f a = Write v n b.
Proof. unfold with_account. destruct (accounts s !! u) as [a|]; [|done]. eauto. Qed.

(** What an operation decides when it has read the accounts [m]. *)
Definition writes {B} (op : Operation B) (m : gmap string HostingAccount) (u : string) (next : option HostingAccount) : Prop :=
  ∃ f s b, op = Locked f ∧ accounts s = m ∧ f s = Write u next b.
Lemma writes_forget {B} (op : Operation B) m u next : writes (forget op) m u next → writes op m u next.
Proof.
  intros (f & s & b & Ef & Em & Ew). destruct op as [r|g]; [done|]. simplify_eq/=. destruct (g s) eqn:Eg; simplify_eq. by exists g, s, b0.
Qed.

Lemma writes_Locked {B} (f : AccountStore → Decided B) m u next :
  writes (Locked f) m u next → ∃ s b, accounts s = m ∧ f s = Write u next b.
Proof. intros (g & s & b & [= ->] & Em & Ew). eauto. Qed.
Lemma writes_Early {B} (r : res B) m u next : ¬ writes (Early r) m u next.
Proof. by intros (g & s & b & ? & _). Qed.

Ltac decided := let H := fresh in intros H; apply writes_Locked in H as (s & b & Em & Ew);
  lazymatch type of Ew with
  | with_account _ _ _ = _ => apply with_account_Write in Ew as (a & Ha & Ew); rewrite ?Em in Ha; simplify_eq
  | _ => idtac
  end.

Section Props.
Context `{AL : AccountLib} `{A : Secretbox.AEAD} `{!AccountLaws} `{!Secretbox.AEADLaws}.
(** The key all processes are configured with. *)
Context (k : option (list ascii * Secretbox.Box)).

(** ** Valid accounts *)

Record valid (a : HostingAccount) (requireCreated : bool) : Prop := mkValid {
  v_user : safeUser (Username a) ≠ "";
  v_hash : PasswordHash a ≠ "";
  v_totp : TOTPSecret a ≠ "";
  v_tenant : safeUser (TenantID a) ≠ "";
  v_role : accountRole a ∈ ["owner"; "manager"; "developer"; "viewer"];
  v_owner : accountRole a = "owner" → TenantID a = Username a;
  v_member : accountRole a ≠ "owner" → sites a = [];
  v_bcrypt : bcrypt_cost (PasswordHash a) = true;
  v_seed : is_ok (decodeTOTPSecret (TOTPSecret a)) = true;
  v_plan : ∃ plan, hostingPlans !! Plan a = Some plan ∧ Z.of_nat (length (sites a)) ≤ SiteLimit plan ∧ validate_sites [] (sites a) = true;
  v_created : requireCreated = true → CreatedAt a ≠ 0
}.

Lemma validate_spec a rc : validateHostingAccount a rc = None ↔ valid a rc.
Proof.
  unfold validateHostingAccount. split.
  - intros Hv. repeat (case_match; try discriminate).
    repeat match goal with
      | Hb : _ || _ = false |- _ => apply orb_false_iff in Hb as [? ?]
      | Hb : bool_decide _ = false |- _ => apply bool_decide_eq_false in Hb
      | Hb : negb _ = false |- _ => apply negb_false_iff in Hb
      | Hb : _ && _ = false |- _ => apply andb_false_iff in Hb
      | Hb : bool_decide _ = true |- _ => apply bool_decide_eq_true in Hb
      end.
    split; try done.
    + intros E. repeat match goal with Hb : _ ∨ _ |- _ => destruct Hb end; rewrite ?bool_decide_eq_false, ?negb_false_iff, ?bool_decide_eq_true in *; done.
    + intros E. repeat match goal with Hb : _ ∨ _ |- _ => destruct Hb end; rewrite ?bool_decide_eq_false, ?negb_false_iff, ?bool_decide_eq_true in *; done.
    + eexists. split_and!; [done|lia|done].
    + intros ->. repeat match goal with Hb : _ ∨ _ |- _ => destruct Hb end; try done; lia.
  - intros [Hu Hh Ht Hte Hr Ho Hm Hb Hs (plan & Hp & Hl & Hvs) Hc].
    rewrite !(bool_decide_eq_false_2 (_ = "")) by done. cbn. rewrite (bool_decide_eq_true_2 (_ ∈ _)) by done. cbn.
    rewrite Hb, Hs, Hp, Hvs. cbn. replace (SiteLimit plan <? _) with false by lia.
    case_bool_decide as E.
    + rewrite (bool_decide_eq_true_2 (TenantID a = _)) by auto. cbn. destruct rc; [|done]. cbn.
      by replace (CreatedAt a =? 0) with false by (specialize (Hc eq_refl); lia).
    + cbn. rewrite (bool_decide_eq_true_2 (sites a = [])) by auto. cbn. destruct rc; [|done]. cbn.
      by replace (CreatedAt a =? 0) with false by (specialize (Hc eq_refl); lia).
Qed.

(** ** Rows *)

(** An account as the tables hold it. *)
Record wf (a : HostingAccount) : Prop := mkWf {
  wf_valid : validateHostingAccount a false = None;
  wf_role : Role a ≠ "";
  wf_plain : TOTPEncrypted a = false;
  wf_texts : texts a
}.

Lemma fill_id a : wf a → fill a = a.
Proof.
  intros [Hv Hr _ _]. apply validate_spec in Hv. unfold fill. rewrite (bool_decide_eq_false_2 (TenantID a = "")).
  - by rewrite (bool_decide_eq_false_2 (Role a = "")).
  - intros E. apply (v_tenant a false Hv). by rewrite E.
Qed.

Definition probe : AccountStore := empty_store k false.
(** What a payload stands for. *)
Definition decode (p : string) : option HostingAccount :=
  match json_unmarshal p with
  | None => None
  | Some a => match open_account probe a with Ok (a, _) => Some (fill a) | Err _ => None end
  end.
Definition abs (d : DB) : gmap string HostingAccount := omap decode (t_accounts d).

Record good (d : DB) : Prop := mkGood {
  g_rows u p : t_accounts d !! u = Some p → ∃ a, decode p = Some a ∧ Username a = u ∧ wf a;
  g_sites site u : tenant_sites d !! site = Some u ↔ ∃ a, abs d !! u = Some a ∧ site ∈ sites a
}.

Lemma abs_Some d u a : abs d !! u = Some a ↔ ∃ p, t_accounts d !! u = Some p ∧ decode p = Some a.
Proof. unfold abs. rewrite lookup_omap. by rewrite bind_Some. Qed.

Lemma good_abs d u a : good d → abs d !! u = Some a → Username a = u ∧ wf a.
Proof.
  intros [Hr _] (p & Hp & Hd)%abs_Some. destruct (Hr _ _ Hp) as (a' & Hd' & Hu & Hw). simplify_eq. done.
Qed.

(** ** Sealing *)

Lemma openTOTP_keys s s' u v : keys s = keys s' → (∀ r b, openTOTP s u v = Ok (r, b) → b = false → openTOTP s' u v = Ok (r, b)).
Proof.
  intros Hk r b. unfold openTOTP. rewrite Hk. destruct (keys s') as [[ky box]|]; [|done].
  destruct (strip_prefix _ _); [done|]. destruct (negb (legacyTOTP s)); [done|].
  destruct (DecodeString32 v); [|done]. destruct (Secretbox.OpenLegacyWithKey _ _); [|done]. intros [= <- <-]. done.
Qed.

Lemma ascii_bytes s t : all_bytes is_ascii s = true → all_bytes is_ascii t = true → all_bytes is_ascii (s +:+ t) = true.
Proof. unfold all_bytes. rewrite bytes_of_app, forallb_app. by intros -> ->. Qed.
Lemma base32_ascii l : all_bytes is_ascii (EncodeToString32 l) = true.
Proof.
  eapply all_bytes_weaken, EncodeToString32_alphabet. intros c Hc.
  destruct c as [[][][][][][][][]]; vm_compute; vm_compute in Hc; done.
Qed.

Lemma read_full_length e n size l : read_full e n size = Some l → length l = size.
Proof.
  unfold read_full. destruct (rand e n) as [r|]; [|done]. case_decide; [|done]. intros [= <-]. by rewrite length_bytes_of.
Qed.

Lemma seal_open_account s s' e n a x : keys s = keys s' → TOTPEncrypted a = false → texts a →
  sealedAccount s (read_full e n Secretbox.NonceSize) a = Ok x → texts x ∧ open_account s' x = Ok (a, false).
Proof.
  intros Hk Hp Ht. unfold sealedAccount, open_account. destruct (keys s) as [[ky box]|] eqn:Es.
  2: { intros [= <-]. by rewrite Hp. }
  case_bool_decide as Hempty. { intros [= <-]. by rewrite Hp. }
  unfold sealTOTP. rewrite Es. destruct (read_full e n Secretbox.NonceSize) as [nonce|] eqn:Hn; [|done].
  destruct (Secretbox.Seal box _ _ _) as [sealed|] eqn:Hs; [|done]. intros [= <-]. split.
  - destruct Ht as [Hf Hh Hsi Hg Hc]. split; cbn; try done.
    apply Forall_cons in Hf as [H1 Hf]. repeat (apply Forall_cons in Hf as [? Hf]).
    repeat constructor; try done. apply ascii_ValidString, ascii_bytes; [vm_compute; reflexivity|apply base32_ascii].
  - cbn. unfold openTOTP. rewrite <- Hk. rewrite bytes_of_app, Secretbox.strip_prefix_app, of_bytes_of, base32_roundtrip.
    rewrite (Secretbox.Seal_Open box (Some nonce) (bytes_of (TOTPSecret a)) [Username a] sealed); [|by intros ? [= <-]; eapply read_full_length|exact Hs]. rewrite of_bytes_of. destruct a; cbn in *. by subst.
Qed.

Lemma decode_sealed s e n a x : keys s = k → wf a → sealedAccount s (read_full e n Secretbox.NonceSize) a = Ok x →
  decode (json_marshal x) = Some a.
Proof.
  intros Hk Hw Hs. unfold decode. destruct (seal_open_account s probe e n a x) as [Hx Ho]; try apply Hw; [done|done|].
  rewrite json_roundtrip by done. rewrite Ho. by rewrite (fill_id a Hw).
Qed.

(** ** Reading *)

(** The rows a process holds after it has read the tables. *)
Definition row_of (p : string) : option accountRow :=
  match decode p with Some a => Some (mkRow p (accountImage a)) | None => None end.
Definition rows_of (d : DB) : gmap string accountRow := omap row_of (t_accounts d).

Lemma refresh_rows_spec s l acc rws seen : keys s = k → NoDup l.*1 →
  (∀ u p, (u, p) ∈ l → (∃ a, decode p = Some a ∧ Username a = u ∧ wf a) ∧ acc !! u = None) →
  ∃ seen', refresh_rows s l.*2 acc rws seen =
    (Ok (foldl (λ m x, match decode x.2 with Some a => <[x.1 := a]> m | None => m end) acc l,
         foldl (λ m x, match row_of x.2 with Some r => <[x.1 := r]> m | None => m end) rws l), seen').
Proof.
  intros Hk. revert acc rws seen. induction l as [|[u p] l IH]; intros acc rws seen Hnd Hl; [by exists seen|].
  cbn [fmap list_fmap] in *. apply NoDup_cons in Hnd as [Hu Hnd]. cbn in Hu.
  destruct (Hl u p) as [(a & Hd & Hua & Hw) Hacc]; [left|]. cbn [refresh_rows foldl fst snd]. unfold row_of at 2. rewrite Hd.
  unfold decode in Hd. destruct (json_unmarshal p) as [x|]; [|done].
  destruct (open_account probe x) as [[x' b]|] eqn:Ho; [|done]. injection Hd as Hx'.
  assert (b = false ∧ open_account s x = Ok (x', false)) as [-> ->].
  { unfold open_account in *. destruct (TOTPEncrypted x); [|by simplify_eq].
    destruct (openTOTP probe (Username x) (TOTPSecret x)) as [[pl b']|] eqn:E; [|done]. simplify_eq.
    assert (b = false) as ->.
    { unfold openTOTP in E. destruct (keys probe) as [[ky box]|]; [|done]. destruct (strip_prefix _ _); [|done].
      destruct (DecodeString32 _); [|done]. destruct (Secretbox.Open _ _ _); [|done]. by simplify_eq. }
    split; [done|]. by rewrite (openTOTP_keys probe s _ _ (eq_sym Hk) _ _ E eq_refl). }
  rewrite orb_false_r, Hx'. rewrite (wf_valid a Hw), Hua, Hacc. apply IH; [done|].
  intros u' p' Hin. destruct (Hl u' p') as [? ?]; [by right|]. split; [done|]. rewrite lookup_insert_ne; [done|].
  intros ->. apply Hu, list_elem_of_fmap. by exists (u', p').
Qed.

Lemma foldl_insert_lookup {B C} (f : B → option C) (l : list (string * B)) (acc : gmap string C) u : NoDup l.*1 →
  foldl (λ a x, match f x.2 with Some c => <[x.1 := c]> a | None => a end) acc l !! u =
  match (list_to_map l : gmap string B) !! u ≫= f with Some c => Some c | None => acc !! u end.
Proof.
  revert acc. induction l as [|[u0 b] l IH]; intros acc Hnd; [cbn; by rewrite lookup_empty|].
  cbn [fmap list_fmap] in Hnd. apply NoDup_cons in Hnd as [Hu Hnd]. cbn [foldl list_to_map foldr fst snd curry].
  rewrite IH by done. cbn. destruct (decide (u = u0)) as [->|Hne].
  - rewrite lookup_insert_eq, (not_elem_of_list_to_map_1 (M := gmap string) l u0) by done. cbn.
    destruct (f b); [by rewrite lookup_insert_eq|done].
  - rewrite lookup_insert_ne by done. destruct (_ ≫= f); [done|]. destruct (f b); [by rewrite lookup_insert_ne|done].
Qed.

Lemma sorted_rows_perm {B} (m : gmap string B) : sorted_rows m ≡ₚ map_to_list m.
Proof. apply merge_sort_Permutation. Qed.
Lemma sorted_rows_NoDup {B} (m : gmap string B) : NoDup (sorted_rows m).*1.
Proof. rewrite sorted_rows_perm. apply NoDup_fst_map_to_list. Qed.
Lemma sorted_rows_map {B} (m : gmap string B) : list_to_map (sorted_rows m) = m.
Proof.
  rewrite <- (list_to_map_to_list m) at 2. apply list_to_map_proper; [apply sorted_rows_NoDup|apply sorted_rows_perm].
Qed.

Lemma site_shared_false m : site_shared m = false ↔
  ∀ u u' a a' site, m !! u = Some a → m !! u' = Some a' → site ∈ sites a → site ∈ sites a' → u = u'.
Proof.
  unfold site_shared. rewrite existsb_false_elem. setoid_rewrite existsb_false_elem. split.
  - intros Hx u u' a a' site Hu Hu' Ha Ha'. apply elem_of_map_to_list in Hu, Hu'.
    specialize (Hx (u, a) Hu (u', a') Hu'). cbn in Hx. destruct (decide (u = u')) as [|Hne]; [done|].
    rewrite bool_decide_eq_false_2 in Hx by done. cbn in Hx. rewrite existsb_false_elem in Hx.
    specialize (Hx site Ha). by rewrite bool_decide_eq_true_2 in Hx.
  - intros Hx [u a] Hu%elem_of_map_to_list [u' a'] Hu'%elem_of_map_to_list. cbn.
    case_bool_decide as Hne; [done|]. cbn. apply existsb_false_elem. intros site Hs. apply bool_decide_eq_false.
    intros Hs'. apply Hne. by eapply Hx.
Qed.

Lemma good_unshared d : good d → site_shared (abs d) = false.
Proof.
  intros Hg. apply site_shared_false. intros u u' a a' site Ha Ha' Hs Hs'.
  assert (tenant_sites d !! site = Some u) by (apply (g_sites d Hg); eauto).
  assert (tenant_sites d !! site = Some u') by (apply (g_sites d Hg); eauto). congruence.
Qed.

Lemma fold_abs d : foldl (λ m x, match decode x.2 with Some a => <[x.1 := a]> m | None => m end) ∅ (sorted_rows (t_accounts d)) = abs d.
Proof.
  apply map_eq. intros u. rewrite foldl_insert_lookup by apply sorted_rows_NoDup. rewrite sorted_rows_map, lookup_empty.
  unfold abs. rewrite lookup_omap. by destruct (_ ≫= _).
Qed.
Lemma fold_rows d : foldl (λ m x, match row_of x.2 with Some r => <[x.1 := r]> m | None => m end) ∅ (sorted_rows (t_accounts d)) = rows_of d.
Proof.
  apply map_eq. intros u. rewrite foldl_insert_lookup by apply sorted_rows_NoDup. rewrite sorted_rows_map, lookup_empty.
  unfold rows_of. rewrite lookup_omap. by destruct (_ ≫= _).
Qed.

(** Reading well-formed tables succeeds unless the query fails, and yields them. *)
Lemma refresh_good e d s : keys s = k → good d →
  ∃ seen, refreshFromDBLocked e d s =
    if fault e 0 then (Some (EWrap "read durable account state" io_err), s)
    else (None, s <| legacyTOTPSeen := seen |> <| accounts := abs d |> <| rows := rows_of d |>).
Proof.
  intros Hk Hg. unfold refreshFromDBLocked. destruct (fault e 0); [by exists false|].
  destruct (refresh_rows_spec s (sorted_rows (t_accounts d)) ∅ ∅ (legacyTOTPSeen s) Hk (sorted_rows_NoDup _)) as [seen ->].
  { intros u p Hin. split; [|apply lookup_empty]. eapply g_rows; [done|].
    rewrite (sorted_rows_perm (t_accounts d)) in Hin. by apply elem_of_map_to_list. }
  exists seen. by rewrite fold_abs, fold_rows, good_unshared.
Qed.

(** ** Writing *)

(** The store of a process that has read [d0] and means to set account [u] to [next]. *)
Record snapshot (d0 : DB) (u : string) (next : option HostingAccount) (s : AccountStore) : Prop := mkSnapshot {
  sn_keys : keys s = k;
  sn_accounts : accounts s = partial_alter (λ _, next) u (abs d0);
  sn_rows : rows s = rows_of d0
}.

(** An update keeps the name and the tenant, and leaves an account valid. *)
Definition proper (u : string) (prev next : option HostingAccount) : Prop :=
  ∀ a, next = Some a → Username a = u ∧ wf a ∧ ∀ a0, prev = Some a0 → TenantID a = TenantID a0.

Lemma rows_of_Some d u r : good d → rows_of d !! u = Some r ↔
  ∃ p a, t_accounts d !! u = Some p ∧ decode p = Some a ∧ abs d !! u = Some a ∧ r = mkRow p (accountImage a).
Proof.
  intros Hg. unfold rows_of. rewrite lookup_omap, bind_Some. split.
  - intros (p & Hp & Hr). unfold row_of in Hr. destruct (decode p) as [a|] eqn:Hd; [|done]. simplify_eq.
    exists p, a. split_and!; try done. apply abs_Some. eauto.
  - intros (p & a & Hp & Hd & _ & ->). exists p. split; [done|]. unfold row_of. by rewrite Hd.
Qed.
Lemma rows_of_None d u : good d → rows_of d !! u = None ↔ abs d !! u = None.
Proof.
  intros Hg. unfold rows_of, abs. rewrite !lookup_omap. destruct (t_accounts d !! u) as [p|]; [|done]. cbn.
  unfold row_of. by destruct (decode p).
Qed.

Lemma image_json a : wf a → json_unmarshal (accountImage a) = Some a.
Proof. intros Hw. apply json_roundtrip, Hw. Qed.
Lemma image_inj a b : wf a → wf b → accountImage a = accountImage b → a = b.
Proof. intros Ha Hb E. apply image_json in Ha, Hb. congruence. Qed.

(** The change of one account. *)
Definition single (d0 : DB) (u : string) (next : option HostingAccount) : option change :=
  if bool_decide (next = abs d0 !! u) then None else
  Some (mkChange u (abs d0 !! u) next (default (mkRow "" "") (rows_of d0 !! u))).

Lemma change_of_snapshot d0 u next s v : good d0 → snapshot d0 u next s → proper u (abs d0 !! u) next →
  change_of s v = Ok (if bool_decide (v = u) then single d0 u next else None).
Proof.
  intros Hg [Hk Ha Hr] Hn. unfold change_of. rewrite Ha, Hr. case_bool_decide as Hv.
  - subst v. rewrite lookup_partial_alter_eq. unfold single. destruct next as [a|].
    + destruct (Hn a eq_refl) as (Hu & Hw & _). destruct (rows_of d0 !! u) as [r|] eqn:Er.
      * apply rows_of_Some in Er as (p & a0 & Hp & Hd & Ha0 & ->); [|done]. cbn. rewrite Ha0.
        pose proof (good_abs _ _ _ Hg Ha0) as [Hu0 Hw0]. rewrite image_json by done.
        destruct (decide (a = a0)) as [->|Hne]; [by rewrite !bool_decide_eq_true_2|].
        rewrite !bool_decide_eq_false_2; [done|congruence|]. intros E. by apply image_inj in E.
      * apply rows_of_None in Er; [|done]. by rewrite Er, bool_decide_eq_false_2.
    + destruct (rows_of d0 !! u) as [r|] eqn:Er.
      * apply rows_of_Some in Er as (p & a0 & Hp & Hd & Ha0 & ->); [|done]. cbn. rewrite Ha0.
        rewrite image_json by (by eapply good_abs). by rewrite bool_decide_eq_false_2.
      * apply rows_of_None in Er; [|done]. by rewrite Er, bool_decide_eq_true_2.
  - rewrite lookup_partial_alter_ne by done. destruct (rows_of d0 !! v) as [r|] eqn:Er.
    + apply rows_of_Some in Er as (p & a0 & Hp & Hd & Ha0 & ->); [|done]. cbn. by rewrite Ha0, bool_decide_eq_true_2.
    + apply rows_of_None in Er; [|done]. by rewrite Er.
Qed.

Lemma collect_one s l u oc : (∀ v, change_of s v = Ok (if bool_decide (v = u) then oc else None)) → NoDup l →
  collect s l = Ok (if bool_decide (u ∈ l) then match oc with Some c => [c] | None => [] end else []).
Proof.
  intros Hc. induction l as [|v l IH]; intros Hnd; [done|]. apply NoDup_cons in Hnd as [Hv Hnd].
  cbn. rewrite Hc, IH by done. destruct (decide (v = u)) as [->|Hne].
  - rewrite (bool_decide_eq_true_2 (u = u)), (bool_decide_eq_false_2 (u ∈ l)), bool_decide_eq_true_2 by (done || left). by destruct oc.
  - rewrite (bool_decide_eq_false_2 (v = u)) by done. by rewrite (bool_decide_ext (u ∈ v :: l) (u ∈ l)) by set_solver.
Qed.

Lemma changes_snapshot d0 u next s : good d0 → snapshot d0 u next s → proper u (abs d0 !! u) next →
  changes s = Ok (match single d0 u next with Some c => [c] | None => [] end).
Proof.
  intros Hg Hs Hn. unfold changes. erewrite collect_one; [|intros v; by eapply change_of_snapshot|].
  2: { rewrite merge_sort_Permutation. apply NoDup_elements. }
  case_bool_decide as Hin; [done|]. rewrite merge_sort_Permutation, elem_of_elements in Hin.
  destruct Hs as [_ Ha Hr]. rewrite Ha, Hr in Hin. unfold single. rewrite bool_decide_eq_true_2; [done|].
  apply not_elem_of_union in Hin as [H1%not_elem_of_dom H2%not_elem_of_dom].
  rewrite lookup_partial_alter_eq in H1. apply rows_of_None in H2; [|done]. congruence.
Qed.

(** ** Site assignments *)

Lemma release_lookup kept t l (ts : gmap string string) x :
  foldl (release_one kept t) ts l !! x =
  if bool_decide (x ∈ l ∧ x ∉ kept ∧ ts !! x = Some t) then None else ts !! x.
Proof.
  revert ts. induction l as [|y l IH]; intros ts; [by rewrite bool_decide_eq_false_2 by (intros [Hx%elem_of_nil _]; done)|].
  cbn [foldl]. rewrite IH. unfold release_one. destruct (decide (y ∈ kept)) as [Hk|Hk].
  - rewrite (bool_decide_eq_true_2 (y ∈ kept)) by done. rewrite (bool_decide_ext (x ∈ y :: l ∧ _) (x ∈ l ∧ x ∉ kept ∧ ts !! x = Some t)); [done|].
    rewrite elem_of_cons. naive_solver.
  - rewrite (bool_decide_eq_false_2 (y ∈ kept)) by done. destruct (decide (ts !! y = Some t)) as [Hy|Hy].
    + rewrite (bool_decide_eq_true_2 (ts !! y = Some t)) by done. destruct (decide (x = y)) as [->|Hne].
      * rewrite lookup_delete_eq. rewrite (bool_decide_eq_true_2 (y ∈ y :: l ∧ _)) by (split_and!; [left|done|done]). by case_bool_decide.
      * rewrite lookup_delete_ne by done. rewrite (bool_decide_ext (x ∈ y :: l ∧ _) (x ∈ l ∧ x ∉ kept ∧ ts !! x = Some t)); [done|].
        rewrite elem_of_cons. naive_solver.
    + rewrite (bool_decide_eq_false_2 (ts !! y = Some t)) by done.
      rewrite (bool_decide_ext (x ∈ y :: l ∧ _) (x ∈ l ∧ x ∉ kept ∧ ts !! x = Some t)); [done|].
      rewrite elem_of_cons. naive_solver.
Qed.

Lemma claim_lookup t held l (ts ts' : gmap string string) : claim_sites t held l ts = Ok ts' →
  (∀ x, x ∈ l → x ∉ held → ts !! x = None) ∧
  ∀ x, ts' !! x = if bool_decide (x ∈ l ∧ x ∉ held) then Some t else ts !! x.
Proof.
  revert ts. induction l as [|y l IH]; intros ts Hc; cbn in Hc.
  { simplify_eq. split; [by intros x Hx%elem_of_nil|]. intros x. by rewrite bool_decide_eq_false_2 by (intros [Hx%elem_of_nil _]; done). }
  case_bool_decide as Hh.
  - apply IH in Hc as [H1 H2]. split.
    + intros x [->|Hx]%elem_of_cons; [done|auto].
    + intros x. rewrite H2. rewrite (bool_decide_ext (x ∈ y :: l ∧ _) (x ∈ l ∧ x ∉ held)); [done|]. rewrite elem_of_cons. naive_solver.
  - destruct (ts !! y) eqn:Ey; [done|]. apply IH in Hc as [H1 H2]. split.
    + intros x [->|Hx]%elem_of_cons Hxh; [done|]. specialize (H1 x Hx Hxh). destruct (decide (x = y)) as [->|]; [done|].
      by rewrite lookup_insert_ne in H1.
    + intros x. rewrite H2. destruct (decide (x = y)) as [->|Hne].
      * rewrite lookup_insert_eq. rewrite (bool_decide_eq_true_2 (y ∈ y :: l ∧ _)) by (split; [left|done]). by case_bool_decide.
      * rewrite lookup_insert_ne by done.
        rewrite (bool_decide_ext (x ∈ y :: l ∧ _) (x ∈ l ∧ x ∉ held)); [done|]. rewrite elem_of_cons. naive_solver.
Qed.

Lemma tenant_nonblank a : safeUser (TenantID a) ≠ "" → accountTenantID a = TenantID a.
Proof.
  intros Hs. unfold accountTenantID. case_bool_decide as E; [|done]. exfalso. apply Hs. unfold safeUser. by rewrite E.
Qed.
Lemma wf_tenant a : wf a → accountTenantID a = TenantID a.
Proof. intros Hw. apply tenant_nonblank, (validate_spec a false), Hw. Qed.
Lemma wf_owner a x : wf a → x ∈ sites a → accountTenantID a = Username a.
Proof.
  intros Hw Hx. rewrite wf_tenant by done. pose proof (proj1 (validate_spec a false) (wf_valid a Hw)) as Hv.
  destruct (decide (accountRole a = "owner")) as [E|E]; [by apply Hv|]. apply Hv in E. rewrite E in Hx. by apply elem_of_nil in Hx.
Qed.

Definition osites (o : option HostingAccount) : list string := match o with Some a => sites a | None => [] end.

(** The assignments after account [u] has been set to [next] in consistent tables. *)
Lemma assignments_consistent d u next (ts : gmap string string) : good d →
  (∀ x, ts !! x = if bool_decide (x ∈ osites next) then Some u else
                  if bool_decide (x ∈ osites (abs d !! u)) then None else tenant_sites d !! x) →
  (∀ x, x ∈ osites next → tenant_sites d !! x = None ∨ tenant_sites d !! x = Some u) →
  ∀ x v, ts !! x = Some v ↔ ∃ a, partial_alter (λ _, next) u (abs d) !! v = Some a ∧ x ∈ sites a.
Proof.
  intros Hg Hts Hfree x v. rewrite Hts. pose proof (g_sites d Hg x) as Hx. case_bool_decide as Hn.
  - split.
    + intros [= <-]. destruct next as [a|]; [|by apply elem_of_nil in Hn]. exists a. by rewrite lookup_partial_alter_eq.
    + intros (a & Ha & Hxa). destruct (decide (v = u)) as [->|Hne]; [done|]. rewrite lookup_partial_alter_ne in Ha by done.
      assert (tenant_sites d !! x = Some v) as E by (apply Hx; eauto). destruct (Hfree x Hn); congruence.
  - case_bool_decide as Hp.
    + split; [done|]. intros (a & Ha & Hxa). destruct (decide (v = u)) as [->|Hne].
      * rewrite lookup_partial_alter_eq in Ha. subst next. by cbn in Hn.
      * rewrite lookup_partial_alter_ne in Ha by done. destruct (abs d !! u) as [a0|] eqn:E0; [|by apply elem_of_nil in Hp].
        assert (tenant_sites d !! x = Some v) by (apply Hx; eauto). assert (tenant_sites d !! x = Some u) by (apply Hx; eauto). congruence.
    + rewrite Hx. split.
      * intros (a & Ha & Hxa). exists a. rewrite lookup_partial_alter_ne; [done|]. intros ->. apply Hp. by rewrite Ha.
      * intros (a & Ha & Hxa). destruct (decide (v = u)) as [->|Hne].
        -- rewrite lookup_partial_alter_eq in Ha. subst next. by cbn in Hn.
        -- rewrite lookup_partial_alter_ne in Ha by done. eauto.
Qed.

(** Releasing and claiming together. *)
Lemma release_claim d u (prev : option HostingAccount) (n : HostingAccount) row ts : good d → abs d !! u = prev →
  proper u prev (Some n) →
  let c := mkChange u prev (Some n) row in
  let held := if same_tenant c then match prev with Some p => sites p | None => [] end else [] in
  claim_sites (accountTenantID n) held (sites n) (release_sites c (tenant_sites d)) = Ok ts →
  (∀ x, ts !! x = if bool_decide (x ∈ osites (Some n)) then Some u else
                  if bool_decide (x ∈ osites prev) then None else tenant_sites d !! x) ∧
  (∀ x, x ∈ sites n → tenant_sites d !! x = None ∨ tenant_sites d !! x = Some u).
Proof.
  intros Hg Hprev Hn c held Hc. destruct (Hn n eq_refl) as (Hun & Hwn & Htn).
  assert (∀ x, x ∈ osites prev → tenant_sites d !! x = Some u) as Hown.
  { intros x Hx. apply (g_sites d Hg). destruct prev as [p|]; [|by apply elem_of_nil in Hx]. eauto. }
  assert (held = osites prev) as Hheld.
  { unfold held, same_tenant. cbn. destruct prev as [p|]; [|done]. rewrite bool_decide_eq_true_2; [done|].
    destruct (good_abs d u p Hg Hprev) as [_ Hwp]. rewrite !wf_tenant by done. by apply Htn. }
  assert (∀ x, release_sites c (tenant_sites d) !! x =
               if bool_decide (x ∈ osites prev ∧ x ∉ sites n) then None else tenant_sites d !! x) as Hrel.
  { intros x. unfold release_sites. cbn. destruct prev as [p|] eqn:Ep; [|by rewrite bool_decide_eq_false_2 by (intros [Hx%elem_of_nil _]; done)].
    destruct (good_abs d u p Hg Hprev) as [Hup Hwp]. unfold same_tenant. cbn.
    rewrite (bool_decide_eq_true_2 (accountTenantID n = _)) by (rewrite !wf_tenant by done; by apply Htn).
    etransitivity; [apply release_lookup|].
    rewrite (bool_decide_ext _ (x ∈ sites p ∧ x ∉ sites n)); [done|].
    split; [naive_solver|]. intros [Hx Hxn]. split_and!; try done. rewrite (wf_owner p x) by done. rewrite Hup. by apply Hown. }
  apply claim_lookup in Hc as [Hfree Hc]. rewrite Hheld in *. split.
  - intros x. rewrite Hc, Hrel. cbn [osites]. destruct (decide (x ∈ sites n)) as [Hxn|Hxn].
    + rewrite (bool_decide_eq_true_2 (x ∈ sites n)) by done. destruct (decide (x ∈ osites prev)) as [Hxp|Hxp].
      * rewrite bool_decide_eq_false_2 by naive_solver. rewrite bool_decide_eq_false_2 by naive_solver. by apply Hown.
      * rewrite bool_decide_eq_true_2 by done. by rewrite (wf_owner n x), Hun.
    + rewrite (bool_decide_eq_false_2 (x ∈ sites n)) by done. rewrite (bool_decide_eq_false_2 (x ∈ sites n ∧ _)) by naive_solver.
      rewrite (bool_decide_ext (x ∈ osites prev ∧ _) (x ∈ osites prev)) by naive_solver. done.
  - intros x Hx. destruct (decide (x ∈ osites prev)) as [Hxp|Hxp]; [right; by apply Hown|left].
    specialize (Hfree x Hx Hxp). rewrite Hrel in Hfree. by rewrite bool_decide_eq_false_2 in Hfree by naive_solver.
Qed.

(** [d'] is [d] with account [u], which was [prev], set to [next]. *)
Record applied (u : string) (prev next : option HostingAccount) (d d' : DB) : Prop := mkApplied {
  ap_before : abs d !! u = prev;
  ap_after : abs d' = partial_alter (λ _, next) u (abs d);
  ap_good : good d'
}.

Lemma good_update d u next p ts fmt : good d → proper u (abs d !! u) next →
  (∀ a, next = Some a → decode p = Some a) →
  (∀ x v, ts !! x = Some v ↔ ∃ a, partial_alter (λ _, next) u (abs d) !! v = Some a ∧ x ∈ sites a) →
  applied u (abs d !! u) next d (mkDB (partial_alter (λ _, (λ _, p) <$> next) u (t_accounts d)) ts fmt).
Proof.
  intros Hg Hn Hp Hts. assert (abs (mkDB (partial_alter (λ _, (λ _, p) <$> next) u (t_accounts d)) ts fmt) = partial_alter (λ _, next) u (abs d)) as Ha.
  { apply map_eq. intros v. unfold abs. cbn. rewrite lookup_omap. destruct (decide (v = u)) as [->|Hne].
    - rewrite !lookup_partial_alter_eq. destruct next as [a|]; [cbn; by apply Hp|done].
    - rewrite !lookup_partial_alter_ne by done. by rewrite lookup_omap. }
  split; [done|done|]. split.
  - cbn. intros v q. destruct (decide (v = u)) as [->|Hne].
    + rewrite lookup_partial_alter_eq. destruct next as [a|]; [|done]. intros [= <-]. exists a. destruct (Hn a eq_refl) as (? & ? & _). eauto.
    + rewrite lookup_partial_alter_ne by done. apply (g_rows d Hg).
  - intros x v. rewrite Ha. apply Hts.
Qed.

(** The guard of a write compares the payload that was read, so the account is what it was. *)
Definition old_row (d0 : DB) (u : string) : accountRow := default (mkRow "" "") (rows_of d0 !! u).
Lemma guard_update d0 d u a0 : abs d0 !! u = Some a0 → t_accounts d !! u = Some (payload (old_row d0 u)) → abs d !! u = Some a0.
Proof.
  intros (p & Hp & Hd)%abs_Some Ht. apply abs_Some. exists p. split; [|done]. rewrite Ht. unfold old_row, rows_of.
  rewrite lookup_omap, Hp. cbn. unfold row_of. by rewrite Hd.
Qed.
Lemma guard_insert d u : t_accounts d !! u = None → abs d !! u = None.
Proof. intros Ht. unfold abs. by rewrite lookup_omap, Ht. Qed.

Lemma partial_alter_const {B} (o : option B) (f : option B → option B) u (m : gmap string B) : (∀ x, f x = o) →
  partial_alter f u m = partial_alter (λ _, o) u m.
Proof. intros Hf. apply partial_alter_ext. intros; apply Hf. Qed.

Lemma write_change_spec e n s d0 d u next d' r : good d0 → good d → snapshot d0 u next s → proper u (abs d0 !! u) next →
  next ≠ abs d0 !! u →
  let c := mkChange u (abs d0 !! u) next (old_row d0 u) in
  write_change e n s c (mkDB (t_accounts d) (release_sites c (tenant_sites d)) (encryption_format d)) = Ok (d', r) →
  applied u (abs d0 !! u) next d d'.
Proof.
  intros Hg0 Hg Hsn Hn Hne c. subst c. unfold write_change. cbn [c_next c_username c_previous c_row tenant_sites t_accounts encryption_format].
  destruct next as [a|].
  - destruct (Hn a eq_refl) as (Hua & Hwa & Hta). destruct (sealedAccount _ _ a) as [sealed|] eqn:Hs; [|done].
    destruct (negb _) eqn:Hgd; [done|]. apply negb_false_iff in Hgd.
    assert (abs d !! u = abs d0 !! u) as Hcur.
    { destruct (abs d0 !! u) eqn:E0; apply bool_decide_eq_true in Hgd; [by eapply guard_update|by apply guard_insert]. }
    destruct (claim_sites _ _ _ _) as [ts|] eqn:Hc; [|done]. intros [= <- _]. rewrite <- Hcur in *.
    apply (release_claim d u (abs d !! u) a (old_row d0 u)) in Hc as [Hts Hfree]; [|done..].
    apply (good_update d u (Some a) (json_marshal sealed) ts (encryption_format d)); [done|done| |].
    + intros a' [= <-]. eapply decode_sealed; [apply Hsn|done|done].
    + by apply assignments_consistent.
  - case_bool_decide as Hgd; [|done]. intros [= <- _]. destruct (abs d0 !! u) as [a0|] eqn:E0; [|done].
    pose proof (guard_update d0 d u a0 E0 Hgd) as Hcur. rewrite <- Hcur in *.
    apply (good_update d u None ""); [done|done|done|]. apply assignments_consistent; [done| |by intros x Hx%elem_of_nil].
    intros x. cbn [osites]. rewrite bool_decide_eq_false_2 by (by intros Hx%elem_of_nil). rewrite Hcur. cbn.
    destruct (good_abs d u a0 Hg Hcur) as [Hu0 Hw0]. unfold release_sites. cbn. rewrite release_lookup.
    rewrite (bool_decide_ext _ (x ∈ sites a0)); [done|]. split; [naive_solver|]. intros Hx. split_and!; [done|by intros ?%elem_of_nil|].
    rewrite (wf_owner a0 x), Hu0 by done. apply (g_sites d Hg). eauto.
Qed.

(** What the transaction does: nothing, or it sets the account, in which case the
    account was what the process had read. *)
Lemma persist_spec e d0 d u next s r s' d' : good d0 → good d → snapshot d0 u next s → proper u (abs d0 !! u) next →
  persistChangedLocked e s d = (r, s', d') →
  keys s' = k ∧ administratorUsername s' = administratorUsername s ∧
  (d' = d ∧ (r = None → next = abs d0 !! u) ∨ applied u (abs d0 !! u) next d d').
Proof.
  intros Hg0 Hg Hsn Hn. unfold persistChangedLocked. rewrite (changes_snapshot d0 u next) by done. unfold single.
  case_bool_decide as Hsame.
  { intros [= <- <- <-]. split_and!; [apply Hsn|done|left; done]. }
  destruct (fault e 0); [intros [= <- <- <-]; split_and!; [apply Hsn|done|by left]|]. cbn [foldl write_changes].
  match goal with |- context [write_change ?e ?n ?s ?c ?d] => destruct (write_change e n s c d) as [[d1 row]|err] eqn:Hw end; [|intros [= <- <- <-]; split_and!; [apply Hsn|done|by left]].
  apply (write_change_spec e 0 s d0 d u next d1 row) in Hw; [|done..].
  destruct (fault e 1); [destruct (fault e 2)|]; intros [= <- <- <-]; (split_and!; [apply Hsn|done|]); [by right|by left|by right].
Qed.

(** ** Operations *)

Inductive Request :=
  | QSetSuspended (username : string) (suspended : bool)
  | QRemoveLogin (username : string)
  | QUpdate (username plan : string) (l : list string)
  | QAssign (username site : string) (idempotent : bool)
  | QUnassign (username site : string)
  | QCreate (e : Env) (username password totpSecret plan : string) (l : option (list string))
  | QCreateMember (e : Env) (tenantID username password totpSecret role : string)
  | QUpdateMember (username : string) (role : option string) (suspended : option bool)
  | QListMembers (tenantID : string)
  | QResetTOTP (e : Env) (username : string)
  | QGenerateRecoveryCodes (e : Env) (username : string)
  | QConsumeRecoveryCode (username code : string)
  | QRecoverCredentials (e : Env) (username : string)
  | QSetPassword (e : Env) (username password : string)
  | QSetTOTP (username secret : string).

Definition request (q : Request) : Operation unit :=
  match q with
  | QSetSuspended u b => forget (SetSuspended u b)
  | QRemoveLogin u => forget (RemoveLogin u)
  | QUpdate u plan l => forget (Update u plan l)
  | QAssign u site i => forget (ensureSiteAssigned u site i)
  | QUnassign u site => forget (UnassignSite u site)
  | QCreate e u pw totp plan l => forget (Create e u pw totp plan l)
  | QCreateMember e t u pw totp role => forget (CreateMember e t u pw totp role)
  | QUpdateMember u r b => forget (UpdateMember u r b)
  | QListMembers t => forget (ListMembers t)
  | QResetTOTP e u => forget (ResetTOTP e u)
  | QGenerateRecoveryCodes e u => forget (GenerateRecoveryCodes e u)
  | QConsumeRecoveryCode u c => forget (ConsumeRecoveryCode u c)
  | QRecoverCredentials e u => forget (RecoverCredentials e u)
  | QSetPassword e u pw => forget (SetPassword e u pw)
  | QSetTOTP u s => forget (SetTOTP u s)
  end.

(** Text of requests comes from JSON or forms and is valid UTF-8. *)
Definition text_ok (s : string) : Prop := GoPath.ValidString s = true.
Definition clock_ok (e : Env) : Prop := 0 ≤ clock e 0 < 2 ^ 63.
Definition ok_request (q : Request) : Prop :=
  match q with
  | QUpdate _ _ l => Forall text_ok l
  | QCreate e _ _ totp _ l => text_ok totp ∧ Forall text_ok (default [] l) ∧ clock_ok e
  | QCreateMember e _ _ _ totp role => text_ok totp ∧ text_ok (ToLower (TrimSpace role)) ∧ clock_ok e
  | QSetTOTP _ secret => text_ok secret
  | _ => True
  end.

Lemma plan_text p plan : hostingPlans !! p = Some plan → text_ok p.
Proof.
  unfold hostingPlans. intros Hp%elem_of_list_to_map_2. set_unfold in Hp.
  destruct Hp as [[= -> _]|[[= -> _]|[[= -> _]|[]]]]; vm_compute; reflexivity.
Qed.

Lemma validate_sites_spec seen l : validate_sites seen l = true ↔ Forall (λ x, safeUser x ≠ "" ∧ x ∉ seen) l ∧ NoDup l.
Proof.
  revert seen. induction l as [|x l IH]; intros seen; cbn [validate_sites]; [by split; [repeat constructor|]|].
  rewrite andb_true_iff, negb_true_iff, orb_false_iff, !bool_decide_eq_false, IH, Forall_cons, NoDup_cons, !Forall_forall.
  split.
  - intros [[H1 H2] [H3 H4]]. split_and!; try done; [|].
    + intros y Hy. destruct (H3 y Hy) as [? Hn]. split; [done|]. intros Hs. apply Hn. by right.
    + intros Hx. destruct (H3 x Hx) as [_ Hn]. apply Hn. by left.
  - intros [[[H1 H2] H3] [H4 H5]]. split_and!; try done. intros y Hy. destruct (H3 y Hy). split; [done|].
    intros [->|?]%elem_of_cons; done.
Qed.

Lemma Forall_filter_keep {B} (P Q : B → Prop) `{∀ x, Decision (P x)} (l : list B) : Forall Q l → Forall Q (filter P l).
Proof. rewrite !Forall_forall. intros Hl x Hx. apply list_elem_of_filter in Hx as [_ Hx]. auto. Qed.
Lemma filter_all {B} (P : B → Prop) `{∀ x, Decision (P x)} (l : list B) : (∀ x, x ∈ l → P x) → filter P l = l.
Proof.
  induction l as [|x l IH]; intros Hl; [done|]. rewrite filter_cons, decide_True by (apply Hl; left).
  f_equal. apply IH. intros y Hy. apply Hl. by right.
Qed.
Lemma upper_solid l : forallb (λ c, is_upper c || in_range "2" "7" c) l = true → upper_bytes l = l.
Proof.
  induction l as [|c l IH]; [done|]. cbn [forallb upper_bytes]. intros [Hc Hl]%andb_true_iff.
  assert (code c < 128 ∧ upper_byte c = c) as [Hlt Hu].
  { destruct c as [[][][][][][][][]]; vm_compute in Hc; try discriminate; vm_compute; done. }
  destruct l as [|d l]; [by rewrite Hu|]. rewrite !decide_False by lia. by rewrite IH, Hu.
Qed.
Lemma seed_decodes l : (20 ≤ length l)%nat → decodeTOTPSecret (EncodeToString32 l) = Ok l.
Proof.
  intros Hl. unfold decodeTOTPSecret. pose proof (EncodeToString32_alphabet l) as Ha.
  rewrite (TrimSpace_solid (λ c, is_upper c || in_range "2" "7" c)) by (done || (vm_compute; reflexivity)).
  replace (filter (λ c, c ≠ " "%char) (bytes_of (EncodeToString32 l))) with (bytes_of (EncodeToString32 l)).
  - unfold ToUpper. rewrite bytes_of_of, upper_solid by done. rewrite of_bytes_of, base32_roundtrip, decide_False by lia. done.
  - symmetry. apply filter_all. intros c Hc ->. unfold all_bytes in Ha. rewrite forallb_forall in Ha.
    specialize (Ha " "%char (proj1 (list_elem_of_In _ _) Hc)). done.
Qed.

Lemma recovery_hashes_text e i n cs hs : recovery_codes e i n = Ok (cs, hs) → Forall text_ok hs.
Proof.
  revert i cs hs. induction n as [|n IH]; intros i cs hs; cbn [recovery_codes]; [by intros [= <- <-]|].
  destruct (read_full e i 8); [|done]. destruct (hashPassword e (S i) _) as [h|] eqn:Hh; [|done].
  destruct (recovery_codes e (S (S i)) n) as [[cs' hs']|] eqn:E; [|done]. intros [= <- <-]. constructor; [|by eapply IH].
  unfold hashPassword in Hh. destruct (rand e (S i)); [|done]. destruct (bcrypt_generate _ _) eqn:Eg; [|done]. simplify_eq.
  by eapply bcrypt_generated.
Qed.
Lemma hash_ok e n pw h : hashPassword e n pw = Ok h → bcrypt_cost h = true ∧ h ≠ "" ∧ text_ok h.
Proof.
  unfold hashPassword. destruct (rand e n); [|done]. destruct (bcrypt_generate _ _) eqn:Eg; [|done]. intros [= ->].
  by eapply bcrypt_generated.
Qed.
Lemma consume_sub code l l' : consume code l = Some l' → ∀ x, x ∈ l' → x ∈ l.
Proof.
  revert l'. induction l as [|h l IH]; intros l'; cbn; [done|]. destruct (bcrypt_compare h code).
  - intros [= ->] x Hx. by right.
  - intros (l1 & H1 & ->)%fmap_Some x [->|Hx]%elem_of_cons; [by left|right; eauto].
Qed.

(** ** Every operation leaves an account valid *)

Lemma valid_weaken a rc : valid a rc → valid a false.
Proof. intros []. by split. Qed.

(** Changes that validation does not look at. *)
Lemma wf_same a b : wf a → Username b = Username a → TenantID b = TenantID a → Role b = Role a → PasswordHash b = PasswordHash a →
  TOTPSecret b = TOTPSecret a → TOTPEncrypted b = false → Plan b = Plan a → sites b = sites a → CreatedAt b = CreatedAt a →
  Forall text_ok (RecoveryCodeHashes b) → 0 ≤ SessionGeneration b < 2 ^ 64 → wf b.
Proof.
  intros [Hv Hr Hp Ht] E1 E2 E3 E4 E5 E6 E7 E8 E9 Hh Hg. apply validate_spec in Hv as [V1 V2 V3 V4 V5 V6 V7 V8 V9 V10 V11].
  assert (accountRole b = accountRole a) as Er by (unfold accountRole; by rewrite E3).
  destruct Ht as [T1 T2 T3 T4 T5]. split.
  - apply validate_spec. split; rewrite ?E1, ?E2, ?E4, ?E5, ?E7, ?E8, ?Er; done.
  - by rewrite E3.
  - done.
  - split; rewrite ?E1, ?E2, ?E3, ?E4, ?E5, ?E7, ?E8, ?E9; done.
Qed.
Lemma bump_range a : 0 ≤ SessionGeneration (bump a) < 2 ^ 64.
Proof. cbn. apply Z.mod_pos_bound. lia. Qed.

Definition fresh_credentials (h secret : string) : Prop :=
  bcrypt_cost h = true ∧ h ≠ "" ∧ text_ok h ∧ is_ok (decodeTOTPSecret secret) = true ∧ secret ≠ "" ∧ text_ok secret.
Lemma wf_credentials a : wf a → fresh_credentials (PasswordHash a) (TOTPSecret a).
Proof.
  intros [Hv _ _ Ht]. apply validate_spec in Hv as [V1 V2 V3 V4 V5 V6 V7 V8 V9 V10 V11]. destruct Ht as [T1 _ _ _ _].
  repeat (apply Forall_cons in T1 as [? T1]). split_and!; done.
Qed.
Lemma wf_rekey a b : wf a → fresh_credentials (PasswordHash b) (TOTPSecret b) → Username b = Username a → TenantID b = TenantID a →
  Role b = Role a → TOTPEncrypted b = false → Plan b = Plan a → sites b = sites a → CreatedAt b = CreatedAt a →
  Forall text_ok (RecoveryCodeHashes b) → 0 ≤ SessionGeneration b < 2 ^ 64 → wf b.
Proof.
  intros [Hv Hr Hp Ht] (F1 & F2 & F3 & F4 & F5 & F6) E1 E2 E3 E6 E7 E8 E9 Hh Hg.
  apply validate_spec in Hv as [V1 V2 V3 V4 V5 V6 V7 V8 V9 V10 V11].
  assert (accountRole b = accountRole a) as Er by (unfold accountRole; by rewrite E3).
  destruct Ht as [T1 T2 T3 T4 T5]. split.
  - apply validate_spec. split; rewrite ?E1, ?E2, ?E7, ?E8, ?Er; done.
  - by rewrite E3.
  - done.
  - repeat (apply Forall_cons in T1 as [? T1]). split; rewrite ?E1, ?E2, ?E3, ?E7, ?E8, ?E9; try done. repeat constructor; done.
Qed.

(** Changes that are validated. *)
Lemma wf_validated a : validateHostingAccount a true = None → Role a ≠ "" → TOTPEncrypted a = false → text_ok (Username a) → text_ok (TenantID a) →
  text_ok (Role a) → text_ok (PasswordHash a) → text_ok (TOTPSecret a) → Forall text_ok (RecoveryCodeHashes a) → Forall text_ok (sites a) →
  0 ≤ SessionGeneration a < 2 ^ 64 → 0 ≤ CreatedAt a < 2 ^ 63 → wf a.
Proof.
  intros Hv Hr Hp T1 T2 T3 T4 T5 Hh Hs Hg Hc. apply validate_spec in Hv. pose proof (v_plan a _ Hv) as (plan & Hpl & _).
  split; [by eapply validate_spec, valid_weaken|done|done|]. split; try done. repeat constructor; try done. by eapply plan_text.
Qed.
Lemma seed_fresh e n l : read_full e n 20 = Some l →
  is_ok (decodeTOTPSecret (EncodeToString32 l)) = true ∧ EncodeToString32 l ≠ "" ∧ text_ok (EncodeToString32 l).
Proof.
  intros Hl%read_full_length. assert (decodeTOTPSecret (EncodeToString32 l) = Ok l) as Hd by (apply seed_decodes; lia).
  split_and!; [by rewrite Hd| |apply ascii_ValidString, base32_ascii]. intros E. rewrite E in Hd. vm_compute in Hd. done.
Qed.

Section Proper.
Context (d0 : DB) (Hg : good d0).

Lemma keep_proper u a next : abs d0 !! u = Some a → Username next = Username a → TenantID next = TenantID a → wf next →
  proper u (abs d0 !! u) (Some next).
Proof.
  intros Ha Hu Ht Hw a' [= <-]. destruct (good_abs d0 u a Hg Ha) as [Hua _]. split_and!; [congruence|done|]. intros a0 Ha0. congruence.
Qed.
Lemma new_proper u next : abs d0 !! u = None → Username next = u → wf next → proper u (abs d0 !! u) (Some next).
Proof. intros Ha Hu Hw a' [= <-]. split_and!; [done|done|]. intros a0 Ha0. congruence. Qed.

Lemma SetSuspended_proper v su u next : writes (SetSuspended v su) (abs d0) u next → proper u (abs d0 !! u) next.
Proof.
  unfold SetSuspended. decided. destruct (good_abs d0 _ a Hg Ha) as [_ Hw]. pose proof (wf_texts a Hw) as Ht.
  apply (keep_proper _ a); [done|by destruct (Bool.eqb _ _)..|]. apply (wf_same a); try done; try (by destruct (Bool.eqb _ _)); try apply Hw.
  - destruct (Bool.eqb _ _); apply Hw.
  - destruct (Bool.eqb _ _); apply Ht.
  - destruct (Bool.eqb _ _); [apply Ht|apply bump_range].
Qed.

Lemma RemoveLogin_proper v u next : writes (RemoveLogin v) (abs d0) u next → proper u (abs d0 !! u) next.
Proof. unfold RemoveLogin. decided. by intros a'. Qed.

Lemma Update_proper v plan l u next : Forall text_ok l → writes (Update v plan l) (abs d0) u next → proper u (abs d0 !! u) next.
Proof.
  intros Hl. unfold Update. decided. destruct (negb _); [done|]. destruct (validateHostingAccount _ true) eqn:Hv; [done|].
  destruct (assigned_elsewhere _ _ _); [done|]. simplify_eq. destruct (good_abs d0 _ a Hg Ha) as [_ Hw]. pose proof (wf_texts a Hw) as [T1 T2 T3 T4 T5].
  apply (keep_proper _ a); [done..|]. repeat (apply Forall_cons in T1 as [? T1]). apply wf_validated; try done; try apply Hw. cbn. by destruct l.
Qed.

Lemma ensureSiteAssigned_proper v site i u next : writes (ensureSiteAssigned v site i) (abs d0) u next → proper u (abs d0 !! u) next.
Proof.
  unfold ensureSiteAssigned. destruct (bool_decide (safeUser v = "")); cbn; [by intros ?%writes_Early|].
  case_bool_decide as Hs; cbn; [by intros ?%writes_Early|].
  decided. destruct (negb _); [done|]. destruct (Suspended a); [done|]. case_bool_decide; [by destruct i|].
  destruct (assigned_elsewhere _ _ _); [done|]. destruct (validateHostingAccount _ true) eqn:Hv; [done|]. simplify_eq.
  destruct (good_abs d0 _ a Hg Ha) as [_ Hw]. pose proof (wf_texts a Hw) as [T1 T2 T3 T4 T5].
  apply (keep_proper _ a); [done..|]. repeat (apply Forall_cons in T1 as [? T1]). apply wf_validated; try done; try apply Hw. cbn.
  apply Forall_app. split; [done|]. repeat constructor. by eapply safe_valid, safeUser_safe.
Qed.

Lemma UnassignSite_proper v site u next : writes (UnassignSite v site) (abs d0) u next → proper u (abs d0 !! u) next.
Proof.
  unfold UnassignSite. destruct (bool_decide (safeUser v = "")); cbn; [by intros ?%writes_Early|].
  case_bool_decide as Hs; cbn; [by intros ?%writes_Early|].
  decided. destruct (negb _); [done|]. simplify_eq. destruct (good_abs d0 _ a Hg Ha) as [_ Hw].
  apply (keep_proper _ a); [done..|]. destruct Hw as [Hv Hr Hp [T1 T2 T3 T4 T5]]. apply validate_spec in Hv as [V1 V2 V3 V4 V5 V6 V7 V8 V9 (plan & P1 & P2 & P3) V11].
  split; [|done|done|]. 
  - apply validate_spec. split; try done.
    + cbn. intros E. by rewrite V7.
    + exists plan. cbn. apply validate_sites_spec in P3 as [P3 P4]. split_and!; [done| |].
      * pose proof (length_filter (λ x, x ≠ safeUser site) (sites a)). lia.
      * apply validate_sites_spec. split; [by apply Forall_filter_keep|by apply NoDup_filter].
  - split; try done. by apply Forall_filter_keep.
Qed.

Lemma Create_proper e v pw totp plan l u next : text_ok totp → Forall text_ok (default [] l) → clock_ok e →
  writes (Create e v pw totp plan l) (abs d0) u next → proper u (abs d0 !! u) next.
Proof.
  intros Ht Hl Hc. unfold Create. case_bool_decide as Hv; cbn; [by intros ?%writes_Early|].
  destruct (len pw <? 20); [by intros ?%writes_Early|]. destruct (hashPassword e 0 pw) as [h|] eqn:Hh; [|by intros ?%writes_Early].
  destruct (validateHostingAccount _ true) eqn:Hva; [by intros ?%writes_Early|]. decided.
  case_bool_decide; [done|]. case_bool_decide as Hnone; [done|]. destruct (existsb _ _); [done|]. simplify_eq.
  rewrite Em in Hnone. apply hash_ok in Hh as (? & ? & ?). pose proof (safe_valid _ (safeUser_safe v _ eq_refl Hv)).
  apply new_proper; [by apply eq_None_not_Some|done|]. apply wf_validated; done.
Qed.

Lemma CreateMember_proper e t v pw totp role u next : text_ok totp → text_ok (ToLower (TrimSpace role)) → clock_ok e →
  writes (CreateMember e t v pw totp role) (abs d0) u next → proper u (abs d0 !! u) next.
Proof.
  intros Ht Hl Hc. unfold CreateMember. case_bool_decide as Htn; cbn; [by intros ?%writes_Early|].
  case_bool_decide as Hv; cbn; [by intros ?%writes_Early|].
  destruct (len pw <? 20); [by intros ?%writes_Early|]. case_bool_decide; cbn; [by intros ?%writes_Early|].
  case_bool_decide; cbn; [by intros ?%writes_Early|].
  destruct (hashPassword e 0 pw) as [h|] eqn:Hh; [|by intros ?%writes_Early]. decided.
  destruct (accounts s !! safeUser t) as [owner|] eqn:Eo; [|done]. destruct (_ || _); [done|]. case_bool_decide as Hnone; [done|].
  destruct (validateHostingAccount _ true) eqn:Hva; [done|]. case_bool_decide; [done|]. simplify_eq.
  rewrite Em in Hnone. apply hash_ok in Hh as (? & ? & ?). pose proof (safe_valid _ (safeUser_safe v _ eq_refl Hv)).
  pose proof (safe_valid _ (safeUser_safe t _ eq_refl Htn)).
  apply new_proper; [by apply eq_None_not_Some|done|]. apply wf_validated; try done.
Qed.

Lemma member_next_fields r su a : 0 ≤ SessionGeneration a < 2 ^ 64 → let n := member_next r su a in
  Username n = Username a ∧ TenantID n = TenantID a ∧ PasswordHash n = PasswordHash a ∧ TOTPSecret n = TOTPSecret a ∧
  TOTPEncrypted n = TOTPEncrypted a ∧ RecoveryCodeHashes n = RecoveryCodeHashes a ∧ sites n = sites a ∧ CreatedAt n = CreatedAt a ∧
  Role n = default (Role a) r ∧ 0 ≤ SessionGeneration n < 2 ^ 64.
Proof.
  unfold member_next. intros Hgen. destruct r as [r|], su as [su|].
  - destruct (Bool.eqb _ _); (split_and!; try done; try apply Hgen; apply bump_range).
  - split_and!; done || apply Hgen.
  - destruct (Bool.eqb _ _); (split_and!; try done; try apply Hgen; apply bump_range).
  - split_and!; done || apply Hgen.
Qed.

Lemma UpdateMember_writes v role su m u next : writes (UpdateMember v role su) m u next →
  ∃ a r, m !! u = Some a ∧ next = Some (member_next r su a) ∧ validateHostingAccount (member_next r su a) true = None ∧
    ∀ x, r = Some x → x ∈ ["manager"; "developer"; "viewer"].
Proof.
  unfold UpdateMember. set (r := (λ x, ToLower (TrimSpace x)) <$> role). set (f := λ s : AccountStore, _). intros Hwr.
  assert (writes (Locked f) m u next ∧ ∀ x, r = Some x → x ∈ ["manager"; "developer"; "viewer"]) as [Hw Hr].
  { destruct r as [x|]; [|by split]. case_bool_decide; [|by apply writes_Early in Hwr]. split; [done|]. by intros ? [= <-]. }
  apply writes_Locked in Hw as (s & b & Em & Ew). unfold f in Ew. destruct (accounts s !! safeUser v) as [a|] eqn:Ha; [|done].
  case_bool_decide; [done|]. cbn zeta in Ew. destruct (validateHostingAccount _ true) eqn:Hv; [done|]. simplify_eq. exists a, r. done.
Qed.

Lemma UpdateMember_proper v role su u next : writes (UpdateMember v role su) (abs d0) u next → proper u (abs d0 !! u) next.
Proof.
  intros (a & r & Ha & -> & Hva & Hr)%UpdateMember_writes. destruct (good_abs d0 _ a Hg Ha) as [_ Hw]. pose proof (wf_texts a Hw) as [T1 T2 T3 T4 T5].
  destruct (member_next_fields r su a T4) as (E1 & E2 & E3 & E4 & E5 & E6 & E7 & E8 & E9 & E10).
  set (n := member_next r su a) in *. repeat (apply Forall_cons in T1 as [? T1]).
  assert (Role n ≠ "" ∧ text_ok (Role n)) as [Hr1 Hr2].
  { rewrite E9. destruct r as [x|]; [|split; [apply Hw|done]]. specialize (Hr x eq_refl). cbn. set_unfold in Hr.
    destruct Hr as [->|[->|[->|[]]]]; split; done || (vm_compute; reflexivity). }
  apply (keep_proper _ a); [done..|]. apply wf_validated; rewrite ?E1, ?E2, ?E3, ?E4, ?E5, ?E6, ?E7, ?E8; try done. apply Hw.
Qed.

Lemma ResetTOTP_proper e v u next : writes (ResetTOTP e v) (abs d0) u next → proper u (abs d0 !! u) next.
Proof.
  unfold ResetTOTP. destruct (read_full e 0 20) as [l|] eqn:Hl; [|by intros ?%writes_Early]. decided.
  destruct (good_abs d0 _ a Hg Ha) as [_ Hw]. pose proof (wf_credentials a Hw) as (F1 & F2 & F3 & _). destruct (seed_fresh e 0 l Hl) as (F4 & F5 & F6).
  apply (keep_proper _ a); [done..|]. apply (wf_rekey a); try done; [apply Hw|apply bump_range].
Qed.

Lemma GenerateRecoveryCodes_proper e v u next : writes (GenerateRecoveryCodes e v) (abs d0) u next → proper u (abs d0 !! u) next.
Proof.
  unfold GenerateRecoveryCodes. destruct (recovery_codes e 0 10) as [[cs hs]|] eqn:Hr; [|by intros ?%writes_Early]. decided.
  destruct (good_abs d0 _ a Hg Ha) as [_ Hw]. apply (keep_proper _ a); [done..|]. apply (wf_same a); try done; [apply Hw| |apply bump_range].
  by eapply recovery_hashes_text.
Qed.

Lemma ConsumeRecoveryCode_proper v c u next : writes (ConsumeRecoveryCode v c) (abs d0) u next → proper u (abs d0 !! u) next.
Proof.
  unfold ConsumeRecoveryCode. destruct (_ || _); [by intros ?%writes_Early|]. decided.
  destruct (accounts s !! v) as [a|] eqn:Ha; [|done]. rewrite Em in Ha. destruct (consume c _) as [hs|] eqn:Hc; [|done]. simplify_eq.
  destruct (good_abs d0 _ a Hg Ha) as [_ Hw]. pose proof (wf_texts a Hw) as [T1 T2 T3 T4 T5].
  apply (keep_proper _ a); [done..|]. apply (wf_same a); try done; [apply Hw|]. cbn. rewrite Forall_forall in *. intros x Hx. by eapply T2, consume_sub.
Qed.

Lemma RecoverCredentials_proper e v u next : writes (RecoverCredentials e v) (abs d0) u next → proper u (abs d0 !! u) next.
Proof.
  unfold RecoverCredentials. destruct (read_full e 0 18) as [pb|]; [|by intros ?%writes_Early].
  destruct (read_full e 1 20) as [l|] eqn:Hl; [|by intros ?%writes_Early].
  destruct (recovery_codes e 2 10) as [[cs hs]|] eqn:Hr; [|by intros ?%writes_Early].
  destruct (hashPassword e 22 _) as [h|] eqn:Hh; [|by intros ?%writes_Early]. decided.
  destruct (good_abs d0 _ a Hg Ha) as [_ Hw]. destruct (hash_ok _ _ _ _ Hh) as (F1 & F2 & F3). destruct (seed_fresh e 1 l Hl) as (F4 & F5 & F6).
  apply (keep_proper _ a); [done..|]. apply (wf_rekey a); try done; [|apply bump_range]. by eapply recovery_hashes_text.
Qed.

Lemma SetPassword_proper e v pw u next : writes (SetPassword e v pw) (abs d0) u next → proper u (abs d0 !! u) next.
Proof.
  unfold SetPassword. destruct (_ || _); [by intros ?%writes_Early|]. destruct (hashPassword e 0 pw) as [h|] eqn:Hh; [|by intros ?%writes_Early]. decided.
  destruct (good_abs d0 _ a Hg Ha) as [_ Hw]. destruct (hash_ok _ _ _ _ Hh) as (F1 & F2 & F3). pose proof (wf_credentials a Hw) as (_ & _ & _ & F4 & F5 & F6).
  apply (keep_proper _ a); [done..|]. apply (wf_rekey a); try done; [apply Hw|apply Hw|apply bump_range].
Qed.

Lemma SetTOTP_proper v secret u next : text_ok secret → writes (SetTOTP v secret) (abs d0) u next → proper u (abs d0 !! u) next.
Proof.
  intros Ht. unfold SetTOTP. destruct (decodeTOTPSecret secret) as [l|] eqn:Hd; [|by intros ?%writes_Early]. decided.
  destruct (good_abs d0 _ a Hg Ha) as [_ Hw]. pose proof (wf_credentials a Hw) as (F1 & F2 & F3 & _).
  assert (secret ≠ "") by (intros ->; vm_compute in Hd; done).
  apply (keep_proper _ a); [done..|]. apply (wf_rekey a); try done; [|apply Hw|apply bump_range]. split_and!; try done. cbn. by rewrite Hd.
Qed.

Lemma request_proper q u next : ok_request q → writes (request q) (abs d0) u next → proper u (abs d0 !! u) next.
Proof.
  destruct q; intros Hq Hwr%writes_forget; cbn in Hq.
  - by eapply SetSuspended_proper.
  - by eapply RemoveLogin_proper.
  - by eapply Update_proper.
  - by eapply ensureSiteAssigned_proper.
  - by eapply UnassignSite_proper.
  - destruct Hq as (? & ? & ?). by eapply Create_proper.
  - destruct Hq as (H1 & H2 & H3). exact (CreateMember_proper _ _ _ _ _ _ _ _ H1 H2 H3 Hwr).
  - by eapply UpdateMember_proper.
  - unfold ListMembers in Hwr. destruct (bool_decide _); [by apply writes_Early in Hwr|]. by apply writes_Locked in Hwr as (s & b & _ & ?).
  - by eapply ResetTOTP_proper.
  - by eapply GenerateRecoveryCodes_proper.
  - by eapply ConsumeRecoveryCode_proper.
  - by eapply RecoverCredentials_proper.
  - by eapply SetPassword_proper.
  - by eapply SetTOTP_proper.
Qed.

End Proper.

(** ** Several processes *)

(** A process: its store, and the request it has decided but not written yet. *)
Record Proc := mkProc { store : AccountStore; pending : option (Request * Pending unit) }.
Record World := mkWorld { db : DB; procs : gmap nat Proc }.

(** What a step shows: the end of a request whose write failed or may have failed, or
    was reported as durable. [SProcess]: a process starts with an empty store, which every
    operation refreshes from the tables. What [OpenAccounts] may write before (an account file
    imported into empty tables, and [persistAllLocked] when no site is owned or a legacy
    TOTP seed was read) is not a step: the worlds are those in which it found nothing to do. *)
Inductive Label := Tau | Failed (q : Request) | Done (q : Request).

Inductive step (w : World) : Label → World → Prop :=
  | SBegin i s q e r s' : procs w !! i = Some (mkProc s None) → ok_request q → start (request q) e (db w) s = (inl r, s') →
      step w Tau (mkWorld (db w) (<[i := mkProc s' None]> (procs w)))
  | SDecide i s q e p s' : procs w !! i = Some (mkProc s None) → ok_request q → start (request q) e (db w) s = (inr p, s') →
      step w Tau (mkWorld (db w) (<[i := mkProc s' (Some (q, p))]> (procs w)))
  | SFail i s q p e err s' d' : procs w !! i = Some (mkProc s (Some (q, p))) → finish p e (db w) s = (Err err, s', d') →
      step w (Failed q) (mkWorld d' (<[i := mkProc s' None]> (procs w)))
  | SDone i s q p e s' d' : procs w !! i = Some (mkProc s (Some (q, p))) → finish p e (db w) s = (Ok tt, s', d') →
      step w (Done q) (mkWorld d' (<[i := mkProc s' None]> (procs w)))
  | SAdministrator i s e u r s' : procs w !! i = Some (mkProc s None) → SetAdministratorUsername e u (db w) s = (r, s') →
      step w Tau (mkWorld (db w) (<[i := mkProc s' None]> (procs w)))
  | SProcess i legacy : step w Tau (mkWorld (db w) (<[i := mkProc (empty_store k legacy) None]> (procs w)))
  | SKill i : step w Tau (mkWorld (db w) (delete i (procs w))).

Definition any_step (w w' : World) : Prop := ∃ l, step w l w'.
Definition empty_world : World := mkWorld (mkDB ∅ ∅ None) ∅.
Definition reachable (w : World) : Prop := rtc any_step empty_world w.

(** What a process that is about to write has read. *)
Inductive holds (s : AccountStore) (q : Request) (p : Pending unit) : Prop :=
  mkHolds d0 : good d0 → snapshot d0 (p_username p) (p_next p) s → p_previous p = abs d0 !! p_username p →
    writes (request q) (abs d0) (p_username p) (p_next p) → ok_request q → holds s q p.

Record inv (w : World) : Prop := mkInv {
  i_good : good (db w);
  i_keys i pr : procs w !! i = Some pr → keys (store pr) = k;
  i_holds i s q p : procs w !! i = Some (mkProc s (Some (q, p))) → holds s q p
}.

Lemma start_spec q e d s x s' : good d → keys s = k → ok_request q → start (request q) e d s = (x, s') →
  keys s' = k ∧ ∀ p, x = inr p → holds s' q p.
Proof.
  intros Hg Hk Hq. unfold start. destruct (request q) as [r|f] eqn:Er; [by intros [= <- <-]|].
  destruct (refresh_good e d s Hk Hg) as [seen ->]. destruct (fault e 0); [by intros [= <- <-]|].
  set (s1 := _ : AccountStore). destruct (f s1) as [err|b|u next b] eqn:Ef; intros [= <- <-]; try done. split; [done|].
  intros p [= <-]. exists d; cbn; try done.
  exists f, s1, b. done.
Qed.

Lemma finish_spec q p e d s r s' d' : good d → holds s q p → finish p e d s = (r, s', d') →
  keys s' = k ∧ good d' ∧
  (d' = d ∧ (∀ x, r = Ok x → p_next p = p_previous p) ∨ applied (p_username p) (p_previous p) (p_next p) d d').
Proof.
  intros Hg [d0 Hg0 Hsn Hprev Hwr Hq]. unfold finish. destruct (persistChangedLocked e s d) as [[r1 s1] d1] eqn:Hp.
  pose proof (request_proper d0 Hg0 q _ _ Hq Hwr) as Hn.
  destruct (persist_spec e d0 d _ _ s r1 s1 d1 Hg0 Hg Hsn Hn Hp) as (Hk & _ & Hcase). rewrite Hprev.
  assert (good d1) as Hg1 by (destruct Hcase as [[-> _]|[? ? ?]]; done).
  destruct r1 as [err|]; intros [= <- <- <-]; (split_and!; [done|done|]);
    (destruct Hcase as [[-> Hs]|Hap]; [left; split; [done|]; intros x Hx; (discriminate || by apply Hs)|by right]).
Qed.

Lemma inv_put w d i pr : inv w → good d → keys (store pr) = k → (∀ q p, pending pr = Some (q, p) → holds (store pr) q p) →
  inv (mkWorld d (<[i := pr]> (procs w))).
Proof.
  intros [Hg Hk Hh] Hd Hpr Hp. split; cbn; [done| |].
  - intros j pr' [[-> <-]|[_ ?]]%lookup_insert_Some; [done|eauto].
  - intros j s q p [[-> ->]|[_ ?]]%lookup_insert_Some; [by apply Hp|eauto].
Qed.

Lemma accounts_inv_step w l w' : inv w → step w l w' → inv w'.
Proof.
  intros Hi Hst. pose proof Hi as [Hg Hk Hh].
  destruct Hst as [i s q e r s' Hp Hq Hs|i s q e p s' Hp Hq Hs|i s q p e err s' d' Hp Hf|i s q p e s' d' Hp Hf|i s e u r s' Hp Hf|i legacy|i].
  - destruct (start_spec q e (db w) s _ s' Hg (Hk _ _ Hp) Hq Hs) as [Hk' _]. by apply inv_put.
  - destruct (start_spec q e (db w) s _ s' Hg (Hk _ _ Hp) Hq Hs) as [Hk' Hx]. apply inv_put; try done. intros q' p' [= <- <-]. by apply Hx.
  - destruct (finish_spec q p e (db w) s _ s' d' Hg (Hh _ _ _ _ Hp) Hf) as (Hk' & Hg' & _). by apply inv_put.
  - destruct (finish_spec q p e (db w) s _ s' d' Hg (Hh _ _ _ _ Hp) Hf) as (Hk' & Hg' & _). by apply inv_put.
  - apply inv_put; try done. cbn. unfold SetAdministratorUsername in Hf. specialize (Hk _ _ Hp). cbn in Hk. case_bool_decide; [by simplify_eq|].
    destruct (refresh_good e (db w) s Hk Hg) as [seen Hr]. rewrite Hr in Hf.
    destruct (fault e 0); [by simplify_eq|]. cbn in Hf. by case_bool_decide; simplify_eq.
  - by apply inv_put.
  - split; cbn; [done| |]; intros *; rewrite lookup_delete_Some; intros [_ ?]; eauto.
Qed.

Lemma empty_good : good (mkDB ∅ ∅ None).
Proof.
  split; cbn.
  - intros u p. by rewrite lookup_empty.
  - intros x u. rewrite lookup_empty. split; [done|]. intros (a & Ha & _). unfold abs in Ha. cbn in Ha. by rewrite omap_empty, lookup_empty in Ha.
Qed.
Lemma inv_rtc w w' : inv w → rtc any_step w w' → inv w'.
Proof. intros Hi Hr. induction Hr as [|x y z [l Hl] _ IH]; [done|]. eauto using accounts_inv_step. Qed.
Lemma accounts_inv w : reachable w → inv w.
Proof.
  apply inv_rtc. split; cbn; [apply empty_good| |]; intros *; by rewrite lookup_empty.
Qed.

(** C8: Site ownership is exact. Whatever operations any number of processes interleave,
    with failures, lost commit reports and kills anywhere, every site of
    [tenant_sites] belongs to the one account that lists it and every site an account
    lists is its own there, no two accounts share a site, and no account exceeds the
    site limit of its plan. A process starts with an empty store and reads the tables with its
    first operation; the rewriting of all rows when a store is opened is not among the steps. *)
Theorem site_ownership_exact w : reachable w →
  (∀ site u, tenant_sites (db w) !! site = Some u ↔ ∃ a, abs (db w) !! u = Some a ∧ site ∈ sites a) ∧
  ∀ u p, t_accounts (db w) !! u = Some p → ∃ a plan, decode p = Some a ∧ Username a = u ∧ validateHostingAccount a false = None ∧
    hostingPlans !! Plan a = Some plan ∧ Z.of_nat (length (sites a)) ≤ SiteLimit plan.
Proof.
  intros [Hg _ _]%accounts_inv. split; [apply Hg|]. intros u p Hp. destruct (g_rows _ Hg u p Hp) as (a & Hd & Hu & Hw).
  pose proof (proj1 (validate_spec a false) (wf_valid a Hw)) as Hv. destruct (v_plan a false Hv) as (plan & Hpl & Hle & _).
  exists a, plan. split_and!; try done. apply Hw.
Qed.

(** C9: No update is lost. A request that is reported as done either wanted no change, or
    its change was computed from the account as it is in the table at the moment of
    the commit; the commit sets that account and no other. The steps are the requests; the
    rewriting of all rows when a store is opened ([persistAllLocked], [src/accounts.go:291-310])
    is not one, and compares with nothing. *)
Theorem no_lost_update w q w' : reachable w → step w (Done q) w' →
  (∃ m u, writes (request q) m u (m !! u) ∧ db w' = db w) ∨
  ∃ m u next, writes (request q) m u next ∧ m !! u = abs (db w) !! u ∧ abs (db w') = partial_alter (λ _, next) u (abs (db w)).
Proof.
  intros Hi%accounts_inv Hst. inversion Hst as [| | |i s q' p e s' d' Hp Hf| | |]; subst. cbn.
  pose proof (i_holds w Hi _ _ _ _ Hp) as Hh. destruct (finish_spec q p e (db w) s _ s' d' (i_good w Hi) Hh Hf) as (_ & _ & Hcase).
  destruct Hh as [d0 Hg0 Hsn Hprev Hwr Hq]. destruct Hcase as [[-> Hn]|[Hb Ha _]].
  - left. exists (abs d0), (p_username p). split; [|done]. by rewrite <- Hprev, <- (Hn tt).
  - right. exists (abs d0), (p_username p), (p_next p). split_and!; [done|congruence|done].
Qed.

(** ** Recovery codes *)

Definition hashes (o : option HostingAccount) : list string := match o with Some a => RecoveryCodeHashes a | None => [] end.
(** How many of the stored hashes a code matches. *)
Definition count (code : string) (l : list string) : nat := length (filter (λ h, bcrypt_compare h code = true) l).
Definition matches (d : DB) (u code : string) : nat := count code (hashes (abs d !! u)).

Definition regenerates (u : string) (l : Label) : Prop :=
  match l with
  | Failed (QGenerateRecoveryCodes _ v) | Done (QGenerateRecoveryCodes _ v)
  | Failed (QRecoverCredentials _ v) | Done (QRecoverCredentials _ v) => v = u
  | _ => False
  end.

Inductive trace (w : World) : list Label → World → Prop :=
  | TNil : trace w [] w
  | TCons l w1 ls w2 : step w l w1 → trace w1 ls w2 → trace w (l :: ls) w2.

Lemma consume_count code l l' : consume code l = Some l' → count code l = S (count code l').
Proof.
  revert l'. induction l as [|h l IH]; intros l'; cbn [consume]; [done|]. unfold count in *. destruct (bcrypt_compare h code) eqn:E.
  - intros [= ->]. by rewrite filter_cons, decide_True.
  - intros (l1 & H1 & ->)%fmap_Some. rewrite !filter_cons, !decide_False by congruence. by apply IH.
Qed.
Lemma consume_count_other code code' l l' : consume code l = Some l' → (count code' l' ≤ count code' l)%nat.
Proof.
  revert l'. induction l as [|h l IH]; intros l'; cbn [consume]; [done|]. unfold count in *. destruct (bcrypt_compare h code) eqn:E.
  - intros [= ->]. rewrite filter_cons. case_decide; cbn; lia.
  - intros (l1 & H1 & ->)%fmap_Some. rewrite !filter_cons. specialize (IH _ H1). case_decide; cbn; lia.
Qed.

(** Requests that do not issue new codes keep them, drop them all or consume one. *)
Lemma request_hashes q m u next : writes (request q) m u next → ¬ regenerates u (Done q) →
  hashes next = hashes (m !! u) ∨ hashes next = [] ∨ ∃ code, consume code (hashes (m !! u)) = Some (hashes next).
Proof.
  destruct q; intros Hwr%writes_forget Hre; cbn in Hre.
  - unfold SetSuspended in Hwr. revert Hwr. decided. rewrite Ha. left. by destruct (Bool.eqb _ _).
  - unfold RemoveLogin in Hwr. revert Hwr. decided. by right; left.
  - unfold Update in Hwr. revert Hwr. decided. destruct (negb _); [done|]. destruct (validateHostingAccount _ _); [done|].
    destruct (assigned_elsewhere _ _ _); [done|]. simplify_eq. rewrite Ha. by left.
  - unfold ensureSiteAssigned in Hwr. destruct (_ || _); [by apply writes_Early in Hwr|]. revert Hwr. decided.
    destruct (negb _); [done|]. destruct (Suspended a); [done|]. destruct (bool_decide _); [by destruct idempotent|].
    destruct (assigned_elsewhere _ _ _); [done|]. destruct (validateHostingAccount _ _); [done|]. simplify_eq. rewrite Ha. by left.
  - unfold UnassignSite in Hwr. destruct (_ || _); [by apply writes_Early in Hwr|]. revert Hwr. decided.
    destruct (negb _); [done|]. simplify_eq. rewrite Ha. by left.
  - unfold Create in Hwr. destruct (_ || _); [by apply writes_Early in Hwr|]. destruct (hashPassword _ _ _) as [h|]; [|by apply writes_Early in Hwr].
    destruct (validateHostingAccount _ _); [by apply writes_Early in Hwr|]. revert Hwr. decided.
    destruct (bool_decide _); [done|]. destruct (bool_decide _); [done|]. destruct (existsb _ _); [done|]. simplify_eq. by right; left.
  - unfold CreateMember in Hwr. destruct (_ || _); [by apply writes_Early in Hwr|]. destruct (_ || _); [by apply writes_Early in Hwr|].
    destruct (hashPassword _ _ _) as [h|]; [|by apply writes_Early in Hwr]. revert Hwr. decided. destruct (accounts s !! _); [|done].
    destruct (_ || _); [done|]. destruct (bool_decide _); [done|]. destruct (validateHostingAccount _ _); [done|].
    destruct (bool_decide _); [done|]. simplify_eq. by right; left.
  - apply UpdateMember_writes in Hwr as (a & r & Ha & -> & _). rewrite Ha. left. unfold member_next.
    destruct r, suspended as [su|]; try done; by destruct (Bool.eqb _ _).
  - unfold ListMembers in Hwr. destruct (bool_decide _); [by apply writes_Early in Hwr|]. by apply writes_Locked in Hwr as (s & b & _ & ?).
  - unfold ResetTOTP in Hwr. destruct (read_full e 0 20) as [tb|]; [|by apply writes_Early in Hwr]. revert Hwr. decided. rewrite Ha. by left.
  - unfold GenerateRecoveryCodes in Hwr. destruct (recovery_codes e 0 10) as [[cs hs]|]; [|by apply writes_Early in Hwr]. revert Hwr. by decided.
  - unfold ConsumeRecoveryCode in Hwr. destruct (_ || _); [by apply writes_Early in Hwr|]. revert Hwr. decided.
    destruct (accounts s !! username) as [a|] eqn:Ha; [|done]. destruct (consume code _) as [hs|] eqn:Hc; [|done]. simplify_eq. rewrite Ha. eauto.
  - unfold RecoverCredentials in Hwr. destruct (read_full e 0 18) as [pb|]; [|by apply writes_Early in Hwr]. destruct (read_full e 1 20) as [tb|]; [|by apply writes_Early in Hwr].
    destruct (recovery_codes e 2 10) as [[cs hs]|]; [|by apply writes_Early in Hwr]. destruct (hashPassword _ _ _) as [h|]; [|by apply writes_Early in Hwr].
    revert Hwr. by decided.
  - unfold SetPassword in Hwr. destruct (_ || _); [by apply writes_Early in Hwr|]. destruct (hashPassword _ _ _) as [h|]; [|by apply writes_Early in Hwr].
    revert Hwr. decided. rewrite Ha. by left.
  - unfold SetTOTP in Hwr. destruct (decodeTOTPSecret secret) as [tb|]; [|by apply writes_Early in Hwr]. revert Hwr. decided. rewrite Ha. by left.
Qed.
Lemma request_count q m u next code : writes (request q) m u next → ¬ regenerates u (Done q) →
  (count code (hashes next) ≤ count code (hashes (m !! u)))%nat.
Proof.
  intros Hwr Hre. destruct (request_hashes q m u next Hwr Hre) as [->|[->|[c Hc]]]; [done|cbn; lia|by eapply consume_count_other].
Qed.

Lemma finish_count w i s q p e r s' d' u code : inv w → procs w !! i = Some (mkProc s (Some (q, p))) → finish p e (db w) s = (r, s', d') →
  ¬ regenerates u (Done q) → (matches d' u code ≤ matches (db w) u code)%nat.
Proof.
  intros Hi Hp Hf Hre. pose proof (i_holds w Hi _ _ _ _ Hp) as Hh. destruct (finish_spec q p e (db w) s _ s' d' (i_good w Hi) Hh Hf) as (_ & _ & Hcase).
  destruct Hcase as [[-> _]|[Hb Ha _]]; [done|]. destruct Hh as [d0 Hg0 Hsn Hprev Hwr Hq]. unfold matches. rewrite Ha.
  destruct (decide (p_username p = u)) as [<-|Hne]; [|by rewrite lookup_partial_alter_ne].
  rewrite lookup_partial_alter_eq, Hb, Hprev. by eapply request_count.
Qed.

Lemma step_count w l w' u code : inv w → step w l w' → ¬ regenerates u l → (matches (db w') u code ≤ matches (db w) u code)%nat.
Proof. intros Hi Hst Hre. destruct Hst; try done; by eapply finish_count. Qed.

Lemma consume_done w u code w' : inv w → step w (Done (QConsumeRecoveryCode u code)) w' → matches (db w) u code = S (matches (db w') u code).
Proof.
  intros Hi Hst. inversion Hst as [| | |i s q p e s' d' Hp Hf| | |]; subst. cbn.
  pose proof (i_holds w Hi _ _ _ _ Hp) as Hh. destruct (finish_spec _ p e (db w) s _ s' d' (i_good w Hi) Hh Hf) as (_ & _ & Hcase).
  destruct Hh as [d0 Hg0 Hsn Hprev Hwr Hq].
  assert (p_username p = u ∧ ∃ hs, consume code (hashes (p_previous p)) = Some hs ∧ hashes (p_next p) = hs) as [Hu (hs & Hc & Hn)].
  { rewrite Hprev. apply writes_forget in Hwr. unfold ConsumeRecoveryCode in Hwr. destruct (_ || _); [by apply writes_Early in Hwr|].
    apply writes_Locked in Hwr as (s0 & b & Em & Ew). destruct (accounts s0 !! u) as [a|] eqn:Ha; [|done].
    destruct (consume code _) as [hs|] eqn:Hc; [|done]. injection Ew as Eu En _. split; [done|]. exists hs. rewrite <- Em, <- Eu, Ha, <- En. done. }
  apply consume_count in Hc. destruct Hcase as [[-> Hsame]|[Hb Ha _]].
  - rewrite (Hsame tt eq_refl) in Hn. rewrite <- Hn in Hc. lia.
  - unfold matches. rewrite Ha, <- Hu, lookup_partial_alter_eq, Hb, Hn. done.
Qed.

Lemma trace_count w ls w' u code : inv w → trace w ls w' → Forall (λ l, ¬ regenerates u l) ls →
  inv w' ∧ (matches (db w') u code ≤ matches (db w) u code)%nat.
Proof.
  intros Hi Ht. induction Ht as [w|w l w1 ls w2 Hst _ IH]; intros Hls; [done|]. apply Forall_cons in Hls as [Hl Hls].
  destruct (IH (accounts_inv_step _ _ _ Hi Hst) Hls) as [Hi2 Hle]. split; [done|]. pose proof (step_count w l w1 u code Hi Hst Hl). lia.
Qed.

(** A recovery code works once. After a login has consumed a code that matches a
    single stored hash, no request of any process consumes it again, whatever happens
    in between, until new codes are issued for the account. *)
Theorem recovery_code_single_use w1 w2 ls w3 w4 u code : reachable w1 → (matches (db w1) u code ≤ 1)%nat →
  step w1 (Done (QConsumeRecoveryCode u code)) w2 → trace w2 ls w3 → Forall (λ l, ¬ regenerates u l) ls →
  ¬ step w3 (Done (QConsumeRecoveryCode u code)) w4.
Proof.
  intros Hi%accounts_inv Hm Hst Ht Hls Hst'. pose proof (consume_done _ _ _ _ Hi Hst) as H1.
  destruct (trace_count w2 ls w3 u code (accounts_inv_step _ _ _ Hi Hst) Ht Hls) as [Hi3 Hle]. pose proof (consume_done _ _ _ _ Hi3 Hst') as H2. lia.
Qed.

End Props.
(** A sealed seed is bound to its account: moved into the record of another account it
    does not open. *)
Theorem sealed_seed_bound `{A : Secretbox.AEAD} `{!Secretbox.AEADBinding} s s' e n u u' secret v r :
  keys s = keys s' → (∀ ky b, keys s = Some (ky, b) → Secretbox.go_string (Secretbox.purpose b)) →
  Secretbox.go_string u → Secretbox.go_string u' →
  sealTOTP s (read_full e n Secretbox.NonceSize) u secret = Ok v → openTOTP s' u' v = Ok r → u' = u.
Proof.
  intros Hk Hp Hu Hu'. unfold sealTOTP, openTOTP. rewrite <- Hk. destruct (keys s) as [[ky box]|]; [|done].
  destruct (read_full e n Secretbox.NonceSize) as [nonce|] eqn:Hn; [|done]. destruct (Secretbox.Seal _ _ _ _) as [sealed|] eqn:Hs; [|done].
  intros [= <-]. rewrite bytes_of_app, Secretbox.strip_prefix_app, of_bytes_of, base32_roundtrip.
  destruct (Secretbox.Open box sealed [u']) as [p|] eqn:Ho; [|done]. intros _.
  assert ([u'] = [u]) as [= ->]; [|done]. eapply (Secretbox.Open_bound box (Some nonce)); [by eapply Hp|by constructor|by constructor| |done|done].
  intros ? [= <-]. by eapply read_full_length.
Qed.

(** ** An instance *)

Module Toy.

(** A list of texts as one text. *)
Fixpoint esc (s rest : list ascii) : list ascii :=
  match s with [] => "b"%char :: rest | c :: s => "a"%char :: c :: esc s rest end.
Definition enc (l : list string) : string := of_bytes (foldr (λ s, esc (bytes_of s)) [] l).
Fixpoint dec_bytes (l cur : list ascii) : option (list string) :=
  match l with
  | [] => match cur with [] => Some [] | _ => None end
  | t :: l =>
      if decide (t = "a"%char) then match l with c :: l => dec_bytes l (cur ++ [c]) | [] => None end
      else cons (of_bytes cur) <$> dec_bytes l []
  end.
Definition dec (s : string) : option (list string) := dec_bytes (bytes_of s) [].

Lemma dec_esc s rest cur : dec_bytes (esc s rest) cur = cons (of_bytes (cur ++ s)) <$> dec_bytes rest [].
Proof.
  revert cur. induction s as [|c s IH]; intros cur; cbn; [by rewrite app_nil_r|]. rewrite IH. by rewrite <- app_assoc.
Qed.
Lemma dec_enc_list l : dec (enc l) = Some l.
Proof.
  unfold dec, enc. rewrite bytes_of_of. induction l as [|s l IH]; [done|]. cbn [foldr]. rewrite dec_esc, IH. cbn. by rewrite of_bytes_of.
Qed.

Definition of_bool (b : bool) : string := if b then "t" else "f".
Definition to_bool (s : string) : bool := bool_decide (s = "t").
Lemma to_of_bool b : to_bool (of_bool b) = b.
Proof. by destruct b. Qed.
Fixpoint of_pos (p : positive) : string :=
  match p with xH => "" | xO p => String "0" (of_pos p) | xI p => String "1" (of_pos p) end.
Fixpoint to_pos (s : string) : positive :=
  match s with EmptyString => xH | String c s => if decide (c = "0"%char) then xO (to_pos s) else xI (to_pos s) end.
Definition of_Z (z : Z) : string := of_pos (Z.to_pos (z + 1)).
Definition to_Z (s : string) : Z := Z.pos (to_pos s) - 1.
Lemma to_of_pos p : to_pos (of_pos p) = p.
Proof. induction p as [p IH|p IH|]; cbn [of_pos to_pos]; [rewrite decide_False by done|rewrite decide_True by done|]; congruence. Qed.
Lemma to_of_Z z : 0 ≤ z → to_Z (of_Z z) = z.
Proof. intros Hz. unfold to_Z, of_Z. rewrite to_of_pos. rewrite Z2Pos.id by lia. lia. Qed.

Definition marshal (a : HostingAccount) : string :=
  enc [Username a; TenantID a; Role a; PasswordHash a; TOTPSecret a; of_bool (TOTPEncrypted a); enc (RecoveryCodeHashes a);
       of_Z (SessionGeneration a); of_bool (PasswordResetRequired a); of_bool (MFAEnrollmentRequired a); of_bool (MFAConfigured a);
       Plan a; match Sites a with None => "" | Some l => String "s" (enc l) end; of_bool (Suspended a); of_Z (CreatedAt a)].
Definition unmarshal (s : string) : option HostingAccount :=
  match dec s with
  | Some [u; t; r; h; o; oe; hs; g; b1; b2; b3; p; si; su; cr] =>
      match dec hs, match si with String _ l => dec l | EmptyString => Some [] end with
      | Some hs, Some l => Some (mkAccount u t r h o (to_bool oe) hs (to_Z g) (to_bool b1) (to_bool b2) (to_bool b3) p
                                   (match si with String _ _ => Some l | EmptyString => None end) (to_bool su) (to_Z cr))
      | _, _ => None
      end
  | _ => None
  end.
Lemma unmarshal_marshal a : 0 ≤ SessionGeneration a → 0 ≤ CreatedAt a → unmarshal (marshal a) = Some a.
Proof.
  intros Hg Hc. unfold unmarshal, marshal. rewrite dec_enc_list. rewrite dec_enc_list, !to_of_bool, !to_of_Z by done.
  destruct a as [? ? ? ? ? ? ? ? ? ? ? ? [l|] ? ?]; cbn; [by rewrite dec_enc_list|done].
Qed.

#[export] Instance lib : AccountLib := {|
  bcrypt_cost h := has_prefix h "$";
  bcrypt_compare h pw := bool_decide (h = "$" +:+ pw);
  bcrypt_generate pw _ := if GoPath.ValidString ("$" +:+ pw) then Some ("$" +:+ pw) else None;
  json_marshal := marshal;
  json_unmarshal := unmarshal
|}.
#[export] Instance laws : AccountLaws.
Proof.
  split.
  - cbn. intros pw salt h Hg. destruct (GoPath.ValidString _) eqn:Hv; [|done]. injection Hg as <-. split_and!; [|done|done].
    unfold has_prefix. rewrite bytes_of_app, Secretbox.strip_prefix_app. done.
  - intros a [_ _ _ Hg Hc]. apply unmarshal_marshal; lia.
Qed.

Definition key : option (list ascii * Secretbox.Box) :=
  Some (bytes_of "0123456789abcdef0123456789abcdef", Secretbox.mkBox "account-totp" (bytes_of "key")).
#[export] Existing Instance Secretbox.Framing.aead.
#[export] Existing Instance Secretbox.Framing.laws.

(** Reads of the random source: two bytes for a nonce, as many as are asked for
    otherwise; [at_byte n c] are [n] bytes [c]. *)
Definition at_byte (n : nat) (c : ascii) : string := of_bytes (replicate n c).
Definition env (t : Z) (r : string) : Env := calm t r.
Definition seed : string := EncodeToString32 (replicate 20 "x"%char).
Definition password : string := "correct horse battery staple".

(** Requests of one process. *)
Definition sit : Type := AccountStore * DB.
Definition before (x : sit) (q : Request) : World :=
  match start (request q) (env 5 "nn") x.2 x.1 with
  | (inr p, s) => mkWorld x.2 {[0%nat := mkProc s (Some (q, p))]}
  | (inl _, s) => mkWorld x.2 {[0%nat := mkProc s None]}
  end.
Definition go (x : sit) (q : Request) : sit :=
  match start (request q) (env 5 "nn") x.2 x.1 with
  | (inl _, s) => (s, x.2)
  | (inr p, s) => let r := finish p (env 5 "nn") x.2 s in (r.1.2, r.2)
  end.
Definition succeeds (x : sit) (q : Request) : bool :=
  match start (request q) (env 5 "nn") x.2 x.1 with
  | (inr p, s) => match finish p (env 5 "nn") x.2 s with (Ok _, _, _) => true | _ => false end
  | _ => false
  end.
Definition world (x : sit) : World := mkWorld x.2 {[0%nat := mkProc x.1 None]}.

Lemma go_steps x q : ok_request q → succeeds x q = true → step key (world x) Tau (before x q) ∧ step key (before x q) (Done q) (world (go x q)).
Proof.
  intros Hq. unfold succeeds, before, go. destruct (start _ _ _ _) as [[r|p] s] eqn:Hs; [done|].
  destruct (finish p _ _ s) as [[r s'] d'] eqn:Hf. destruct r as [[]|]; [|done]. intros _. split.
  - pose proof (SDecide key (world x) 0 x.1 q (env 5 "nn") p s (lookup_singleton_eq _ _) Hq Hs) as Hst.
    unfold world in Hst. cbn in Hst. by rewrite insert_singleton_eq in Hst.
  - pose proof (SDone key (mkWorld x.2 {[0%nat := mkProc s (Some (q, p))]}) 0 s q p (env 5 "nn") s' d' (lookup_singleton_eq _ _) Hf) as Hst.
    cbn in Hst. by rewrite insert_singleton_eq in Hst.
Qed.
Lemma go_reachable x q : ok_request q → succeeds x q = true → reachable key (world x) → reachable key (before x q) ∧ reachable key (world (go x q)).
Proof.
  intros Hq Hs Hr. destruct (go_steps x q Hq Hs) as [H1 H2].
  assert (reachable key (before x q)) by (eapply rtc_r; [exact Hr|by eexists]). split; [done|]. eapply rtc_r; [done|by eexists].
Qed.

Definition start_sit : sit := (empty_store key false, mkDB ∅ ∅ None).
Lemma start_reachable : reachable key (world start_sit).
Proof. apply rtc_once. exists Tau. apply (SProcess key empty_world 0 false). Qed.

Definition alice : Request := QCreate (env 7 "salt") "alice" password seed "starter" (Some ["blog"]).
Lemma alice_ok : ok_request alice.
Proof. split; [vm_compute; reflexivity|]. split; [|by vm_compute]. cbn. apply Forall_singleton. vm_compute. reflexivity. Qed.
Definition sit1 : sit := go start_sit alice.
Lemma alice_succeeds : succeeds start_sit alice = true.
Proof. vm_compute. reflexivity. Qed.
Lemma reachable1 : reachable key (before start_sit alice) ∧ reachable key (world sit1).
Proof. exact (go_reachable start_sit alice alice_ok alice_succeeds start_reachable). Qed.

Definition codes : Request := QGenerateRecoveryCodes (mkEnv (λ _, 5) (λ _, false) (λ i, Some (at_byte 8 (chr (Z.of_nat i + 65))))) "alice".
Definition sit2 : sit := go sit1 codes.
Definition login : Request := QConsumeRecoveryCode "alice" (hex (replicate 8 "A"%char)).
Definition sit3 : sit := go sit2 login.
Lemma reachable2 : reachable key (world sit2).
Proof. refine (proj2 (go_reachable sit1 codes I _ (proj2 reachable1))). vm_compute. reflexivity. Qed.
Lemma login_succeeds : succeeds sit2 login = true.
Proof. vm_compute. reflexivity. Qed.

Lemma site_ownership_exact_witness : tenant_sites sit1.2 !! "blog" = Some "alice" ↔ ∃ a, abs key sit1.2 !! "alice" = Some a ∧ "blog" ∈ sites a.
Proof. apply (site_ownership_exact key (world sit1)). apply reachable1. Defined.

Lemma no_lost_update_witness :
  (∃ m u, writes (request alice) m u (m !! u) ∧ sit1.2 = start_sit.2) ∨
  ∃ m u next, writes (request alice) m u next ∧ m !! u = abs key start_sit.2 !! u ∧ abs key sit1.2 = partial_alter (λ _, next) u (abs key start_sit.2).
Proof.
  apply (no_lost_update key (before start_sit alice) alice (world sit1)); [exact (proj1 reachable1)|].
  exact (proj2 (go_steps start_sit alice alice_ok alice_succeeds)).
Defined.

Lemma recovery_code_single_use_witness : ¬ step key (world sit3) (Done login) (world (go sit3 login)).
Proof.
  apply (recovery_code_single_use key (before sit2 login) (world sit3) [] (world sit3) _ "alice" (hex (replicate 8 "A"%char))).
  - exact (proj1 (go_reachable sit2 login I login_succeeds reachable2)).
  - vm_compute. lia.
  - exact (proj2 (go_steps sit2 login I login_succeeds)).
  - constructor.
  - constructor.
Defined.

(** ** A removed tenant leaves its members behind *)

(** Members of a tenant survive the removal of its owner, and when the name is given to
    a new customer they belong to the new tenant: they own its sites. *)
Definition member : Request := QCreateMember (env 8 "salt") "alice" "mallory" password seed "manager".
Definition free_site : Request := QUnassign "alice" "blog".
Definition remove : Request := QRemoveLogin "alice".
Definition newcomer : Request := QCreate (env 9 "salt") "alice" "another password altogether" seed "agency" (Some ["shop"]).
Definition story : sit := go (go (go (go sit1 member) free_site) remove) newcomer.

Theorem member_inherits_new_tenant :
  succeeds sit1 member = true ∧ succeeds (go sit1 member) free_site = true ∧ succeeds (go (go sit1 member) free_site) remove = true ∧
  succeeds (go (go (go sit1 member) free_site) remove) newcomer = true ∧
  OwnsSite (env 10 "") "mallory" "shop" story.2 story.1 = true.
Proof. vm_compute. repeat split. Qed.

End Toy.
End AccountsProps.
