(* ===== verification/ApiTokens.v ===== *)
(** * ApiTokens: tokens of automation clients

    Models the token store of [src/api_tokens.go] and the cutoff of unscoped tokens
    of [src/internal/auth/legacy_token_deprecation.go]: issuing with normalised
    scopes, with and without an idempotency key, authentication, and the three
    revocations. The tables are shared by all processes; each operation is one
    statement or one transaction. SHA-256 and JSON are the class [TokenLib].
    Times are Unix seconds. *)
From S2P Require Import Prelude GoText Names Encoding Secretbox Accounts AccountsProps.

Module ApiTokens.
Import GoText Encoding.

(** ** Data *)

Record apiTokenInfo := mkInfo { ID : string; Name : string; Prefix : string; CreatedAt : Z; ExpiresAt : option Z;
  RevokedAt : option Z; Scopes : list string; LegacyUnscoped : bool }.
Record apiTokenIdentity := mkIdentity { t_ID : string; Username : string; t_Scopes : list string }.
Definition legacyUnscoped (t : apiTokenIdentity) : bool := bool_decide (t_Scopes t = []).

(** The tables [api_tokens], [idempotency_records], [legacy_token_policy] and the
    expiry column of [api_token_deprecation]. *)
Record TokenRow := mkTokenRow { username : string; name : string; token_hash : string; token_prefix : string; scopes : string;
  created_at : Z; expires_at : option Z; revoked_at : option Z }.
Record IdemRow := mkIdemRow { request_hash : string; completed : bool; result : list ascii }.
Record DB := mkDB { api_tokens : gmap string TokenRow; idempotency_records : gmap (string * string * string) IdemRow;
  activated_at : option Z; deprecation : gmap string Z }.

Definition set_tokens (m : gmap string TokenRow) (d : DB) : DB := mkDB m (idempotency_records d) (activated_at d) (deprecation d).

Definition errIdempotencyConflict : error := ESentinel "idempotency key was reused for a different request".
Definition errIdempotencyInFlight : error := ESentinel "idempotent operation is already in progress".
Definition errAPITokenInactive : error := ESentinel "API token is revoked, expired, or no longer exists".

(** What the idempotency hash covers beside operation and principal. *)
Inductive TokenRequest := CreateRequest (name : string) (expiresAt : option Z) (scopes : list string) | RevokeRequest (id : string).

Class TokenLib := {
  sha256_hex : string → string;
  request_json : string → string → TokenRequest → string;
  result_marshal : apiTokenInfo * string → string;
  result_unmarshal : string → option (apiTokenInfo * string)
}.
Class TokenLaws `{TokenLib} : Prop := {
  result_roundtrip r : result_unmarshal (result_marshal r) = Some r
}.

(** [time.Now().Unix()] and [unixepoch()]. *)
Definition unix (e : Env) (n : nat) : Z := clock e n / Second.

(** ** Scopes *)

Definition adminAPIScopes : gset string := {["admin:read"; "admin:operate"]}.
Definition customerAPIScopes : gset string := {["site:read"; "site:deploy"; "deploy:write"; "environment:read"; "environment:write";
  "backup:read"; "backup:create"; "backup:restore"; "database:read"; "database:write"; "redis:read"; "redis:write"; "ssh:read"; "ssh:write";
  "logs:read"; "files:read"; "files:write"]}.

Fixpoint scope_set (allowed : gset string) (l : list string) (set : gset string) : res (gset string) :=
  match l with
  | [] => Ok set
  | scope :: l =>
      let scope := TrimSpace scope in
      if bool_decide (scope = "") then scope_set allowed l set else
      if negb (bool_decide (scope ∈ allowed)) then Err (EMsg "unsupported API token scope") else
      scope_set allowed l ({[scope]} ∪ set)
  end.
Definition scope_le (x y : string) : Prop := String.le x y.
#[export] Instance scope_le_dec : RelDecision scope_le.
Proof. intros x y. unfold scope_le. apply _. Defined.
Definition normalizeTokenScopes (l : list string) (allowed : gset string) : res (string * list string) :=
  match scope_set allowed l ∅ with
  | Err err => Err err
  | Ok set => let normalized := merge_sort scope_le (elements set) in Ok (join "," normalized, normalized)
  end.

(** How a stored list of scopes is read. *)
Definition read_scopes (text : string) : list string :=
  filter (λ s, s ≠ "") (TrimSpace <$> split "," text).

(** Clock 0: the time the expiry is compared with. *)
Definition validateTokenRequest (e : Env) (nm : string) (expiresAt : option Z) (l : list string) (allowed : gset string) : res (string * list string) :=
  let nm := TrimSpace nm in
  if bool_decide (nm = "") || (80 <? len nm) then Err (EMsg "token name must be 1-80 characters") else
  if match expiresAt with Some x => x <=? unix e 0 | None => false end then Err (EMsg "token expiry must be in the future") else
  normalizeTokenScopes l allowed.

Section Store.
Context `{TL : TokenLib} `{A : Secretbox.AEAD}.

(** ** Issuing *)

(** [INSERT INTO api_tokens]: the identifier and the hash are unique. *)
Definition hash_taken (h : string) (d : DB) : bool := existsb (λ x, bool_decide (token_hash x.2 = h)) (map_to_list (api_tokens d)).
Definition insert_token (id : string) (r : TokenRow) (d : DB) : res DB :=
  if bool_decide (is_Some (api_tokens d !! id)) || hash_taken (token_hash r) d then Err io_err else
  Ok (set_tokens (<[id := r]> (api_tokens d)) d).

(** A fresh secret and identifier; reads 0 and 1 of the random source. *)
Definition fresh_token (e : Env) : res (string * string) :=
  match Accounts.read_full e 0 32, Accounts.read_full e 1 16 with
  | Some raw, Some idBytes => Ok ("stp_" +:+ EncodeToString64 raw, Accounts.hex idBytes)
  | _, _ => Err io_err
  end.
Definition prefix12 (secret : string) : string := of_bytes (take 12 (bytes_of secret)).
Definition token_item (id nm secret : string) (now : Z) (expiresAt : option Z) (l : list string) : apiTokenInfo :=
  mkInfo id nm (prefix12 secret) now expiresAt None l false.
Definition token_row (user nm secret scopeText : string) (now : Z) (expiresAt : option Z) : TokenRow :=
  mkTokenRow user nm (sha256_hex secret) (prefix12 secret) scopeText now expiresAt None.

(** [createScoped]; fault 0: the insertion. *)
Definition createScoped (e : Env) (user nm : string) (expiresAt : option Z) (l : list string) (allowed : gset string) (d : DB) : res (apiTokenInfo * string) * DB :=
  let nm := TrimSpace nm in
  match validateTokenRequest e nm expiresAt l allowed with
  | Err err => (Err err, d)
  | Ok (scopeText, normalized) =>
      match fresh_token e with
      | Err err => (Err err, d)
      | Ok (secret, id) =>
          if fault e 0 then (Err io_err, d) else
          match insert_token id (token_row user nm secret scopeText (unix e 1) expiresAt) d with
          | Err err => (Err err, d)
          | Ok d' => (Ok (token_item id nm secret (unix e 1) expiresAt normalized, secret), d')
          end
      end
  end.
Definition create (e : Env) (user nm : string) (expiresAt : option Z) (d : DB) : res (apiTokenInfo * string) * DB :=
  createScoped e user nm expiresAt [] customerAPIScopes d.

Definition configureIdempotencyKey (masterKey : string) : res Secretbox.Box :=
  if bool_decide (TrimSpace masterKey = "") then Err (EMsg "API token idempotency requires STEPANEL_ACCOUNT_KEY") else
  Secretbox.New (bytes_of masterKey) "api-token-idempotency".

Definition idempotencyHash (operation principal : string) (q : TokenRequest) : string := sha256_hex (request_json operation principal q).

(** [n]: which read of the random source is the nonce. *)
Definition sealIdempotencyResult (box : option Secretbox.Box) (e : Env) (n : nat) (plain : string) (principal operation key : string) : res (list ascii) :=
  match box with
  | None => Err (EMsg "idempotent API token mutations require STEPANEL_ACCOUNT_KEY")
  | Some b => Secretbox.Seal b (Accounts.read_full e n Secretbox.NonceSize) (bytes_of plain) [principal; operation; key]
  end.
Definition openIdempotencyResult (box : option Secretbox.Box) (sealed : list ascii) (principal operation key : string) : res (list ascii) :=
  match box with
  | None => Err (EMsg "idempotent API token result key is unavailable")
  | Some b => Secretbox.Open b sealed [principal; operation; key]
  end.

(** [beginIdempotency] and [lookupIdempotency], inside the transaction: the record of
    this request is new, or its stored result. *)
Definition beginIdempotency (principal operation key hash : string) (d : DB) : bool * DB :=
  match idempotency_records d !! (principal, operation, key) with
  | Some _ => (false, d)
  | None => (true, mkDB (api_tokens d) (<[(principal, operation, key) := mkIdemRow hash false []]> (idempotency_records d)) (activated_at d) (deprecation d))
  end.
Definition lookupIdempotency (principal operation key hash : string) (d : DB) : res (option (list ascii)) :=
  match idempotency_records d !! (principal, operation, key) with
  | None => Ok None
  | Some r => if negb (bool_decide (request_hash r = hash)) then Err errIdempotencyConflict else
              if negb (completed r) then Err errIdempotencyInFlight else Ok (Some (result r))
  end.
(** The final update of the record. *)
Definition complete (principal operation key hash : string) (sealed : list ascii) (d : DB) : DB :=
  mkDB (api_tokens d)
    (alter (λ r, if bool_decide (request_hash r = hash) then mkIdemRow hash true sealed else r) (principal, operation, key) (idempotency_records d))
    (activated_at d) (deprecation d).
(** The end of a transaction; fault 1: committing, 2: it happened nevertheless. *)
Definition commit {B} (e : Env) (b : B) (d d' : DB) : res B * DB :=
  if fault e 1 then (Err io_err, if fault e 2 then d' else d) else (Ok b, d').

(** [createScopedIdempotent]; fault 0: a statement. *)
Definition createScopedIdempotent (e : Env) (box : option Secretbox.Box) (user nm : string) (expiresAt : option Z) (l : list string) (allowed : gset string)
    (operation key : string) (d : DB) : res (apiTokenInfo * string) * DB :=
  let nm := TrimSpace nm in
  match validateTokenRequest e nm expiresAt l allowed with
  | Err err => (Err err, d)
  | Ok (scopeText, normalized) =>
      let hash := idempotencyHash operation user (CreateRequest nm expiresAt normalized) in
      if fault e 0 then (Err io_err, d) else
      let '(inserted, d1) := beginIdempotency user operation key hash d in
      let stored := if inserted then Ok None else lookupIdempotency user operation key hash d1 in
      match stored with
      | Err err => (Err err, d)
      | Ok (Some sealed) =>
          match openIdempotencyResult box sealed user operation key with
          | Err err => (Err (EWrap "open idempotent token result" err), d)
          | Ok plain =>
              match result_unmarshal (of_bytes plain) with
              | None => (Err (EWrap "decode idempotent token result" io_err), d)
              | Some response => (Ok response, d)
              end
          end
      | Ok None =>
          match fresh_token e with
          | Err err => (Err err, d)
          | Ok (secret, id) =>
              let item := token_item id nm secret (unix e 1) expiresAt normalized in
              match insert_token id (token_row user nm secret scopeText (unix e 1) expiresAt) d1 with
              | Err err => (Err err, d)
              | Ok d2 =>
                  match sealIdempotencyResult box e 2 (result_marshal (item, secret)) user operation key with
                  | Err err => (Err err, d)
                  | Ok sealed => commit e (item, secret) d (complete user operation key hash sealed d2)
                  end
              end
          end
      end
  end.

(** ** Authenticating *)

Definition active (now : Z) (r : TokenRow) : bool :=
  match revoked_at r with
  | Some _ => false
  | None => match expires_at r with Some x => negb (x <=? now) | None => true end
  end.
Definition identity (id : string) (r : TokenRow) : apiTokenIdentity := mkIdentity id (username r) (read_scopes (scopes r)).

(** [activeTokenWhere]; the row that satisfies the condition is unique. Fault 0: the
    query. *)
Definition activeTokenWhere (e : Env) (cond : string → TokenRow → bool) (d : DB) : res apiTokenIdentity :=
  if fault e 0 then Err (EWrap "read API token" io_err) else
  match filter (λ x, cond x.1 x.2 = true) (map_to_list (api_tokens d)) with
  | [] => Err errAPITokenInactive
  | (id, r) :: _ => if active (unix e 0) r then Ok (identity id r) else Err errAPITokenInactive
  end.
Definition authenticateToken (e : Env) (secret : string) (d : DB) : option apiTokenIdentity :=
  if negb (has_prefix secret "stp_") || (100 <? len secret) then None else
  match activeTokenWhere e (λ _ r, bool_decide (token_hash r = sha256_hex secret)) d with Ok t => Some t | Err _ => None end.
Definition activeToken (e : Env) (id : string) (d : DB) : res apiTokenIdentity :=
  if bool_decide (TrimSpace id = "") then Err errAPITokenInactive else
  activeTokenWhere e (λ i _, bool_decide (i = id)) d.
Definition authenticateWithScopesAndLegacy (e : Env) (secret : string) (d : DB) : option (string * list string * bool) :=
  match authenticateToken e secret d with Some t => Some (Username t, t_Scopes t, legacyUnscoped t) | None => None end.

(** ** Revoking *)

Definition revoke_row (now : Z) (r : TokenRow) : TokenRow :=
  match revoked_at r with
  | Some _ => r
  | None => mkTokenRow (username r) (name r) (token_hash r) (token_prefix r) (scopes r) (created_at r) (expires_at r) (Some now)
  end.
(** The row of [WHERE id = ? AND username = ? AND revoked_at IS NULL]. *)
Definition revocable (user id : string) (d : DB) : bool :=
  match api_tokens d !! id with Some r => bool_decide (username r = user) && bool_decide (revoked_at r = None) | None => false end.
Definition revoke_one (now : Z) (id : string) (d : DB) : DB := set_tokens (alter (revoke_row now) id (api_tokens d)) d.

(** [revoke]; fault 0: the statement. *)
Definition revoke (e : Env) (user id : string) (d : DB) : option error * DB :=
  if fault e 0 then (Some io_err, d) else
  if revocable user id d then (None, revoke_one (unix e 0) id d) else (Some (EMsg "token not found or already revoked"), d).

Definition revokeIdempotent (e : Env) (box : option Secretbox.Box) (user id operation key : string) (d : DB) : res unit * DB :=
  let hash := idempotencyHash operation user (RevokeRequest id) in
  if fault e 0 then (Err io_err, d) else
  let '(inserted, d1) := beginIdempotency user operation key hash d in
  let stored := if inserted then Ok None else lookupIdempotency user operation key hash d1 in
  match stored with
  | Err err => (Err err, d)
  | Ok (Some sealed) =>
      match openIdempotencyResult box sealed user operation key with
      | Err err => (Err (EWrap "open idempotent revocation result" err), d)
      | Ok _ => (Ok tt, d)
      end
  | Ok None =>
      if negb (revocable user id d1) then (Err (EMsg "token not found or already revoked"), d) else
      match sealIdempotencyResult box e 0 "{}" user operation key with
      | Err err => (Err err, d)
      | Ok sealed => commit e tt d (complete user operation key hash sealed (revoke_one (unix e 0) id d1))
      end
  end.

Definition revokeAll (e : Env) (user : string) (d : DB) : option error * DB :=
  if fault e 0 then (Some io_err, d) else
  (None, set_tokens ((λ r, if bool_decide (username r = user) then revoke_row (unix e 0) r else r) <$> api_tokens d) d).

(** SQLite's [TRIM] removes spaces only. *)
Definition sql_blank (text : string) : bool := all_bytes (λ c, bool_decide (c = " "%char)) text.
Definition revokeLegacyUnscoped (e : Env) (d : DB) : res nat * DB :=
  if fault e 0 then (Err io_err, d) else
  let hit r := sql_blank (scopes r) && bool_decide (revoked_at r = None) in
  (Ok (size (filter (λ kv : string * TokenRow, hit kv.2 = true) (api_tokens d))),
   set_tokens ((λ r, if hit r then revoke_row (unix e 0) r else r) <$> api_tokens d) d).

(** ** The cutoff of unscoped tokens *)

(** 15 November 2026, 00:00 UTC. *)
Definition LegacyTokenHardCutoff : Z := 1794700800.
Definition GracePeriodDays : Z := 30.

(** [InitializeSchema]: the activation is recorded once; the deadline is [None] before
    it has run. Faults 0 and 1: the statements. *)
Definition InitializeSchema (e : Env) (d : DB) : res Z * DB :=
  if fault e 0 then (Err (EWrap "record legacy token policy activation" io_err), d) else
  let activated := default (unix e 0) (activated_at d) in
  let d' := mkDB (api_tokens d) (idempotency_records d) (Some activated) (deprecation d) in
  if fault e 1 then (Err (EWrap "read legacy token policy activation" io_err), d') else
  (Ok (Z.max LegacyTokenHardCutoff (activated + GracePeriodDays * 24 * 3600)), d').
Definition CutoffPassed (e : Env) (n : nat) (deadline : option Z) : bool :=
  match deadline with None => true | Some t => negb (unix e n <? t) end.
(** Clocks 0 and 1, fault 0. *)
Definition IsLegacyTokenExpired (e : Env) (deadline : option Z) (hash : string) (d : DB) : res bool :=
  if CutoffPassed e 0 deadline then Ok true else
  if fault e 0 then Err io_err else
  match deprecation d !! hash with None => Ok false | Some x => Ok (negb (unix e 1 <? x)) end.
(** Fault 1. *)
Definition MarkLegacyTokenDeprecated (e : Env) (deadline : option Z) (hash : string) (d : DB) : option error * DB :=
  match deadline with
  | None => (Some (EMsg "legacy token policy is not initialized"), d)
  | Some t =>
      if fault e 1 then (Some io_err, d) else
      (None, mkDB (api_tokens d) (idempotency_records d) (activated_at d)
               (match deprecation d !! hash with Some _ => deprecation d | None => <[hash := t]> (deprecation d) end))
  end.

End Store.
(** ** Revocation is final *)

Section Props.
Context `{TL : TokenLib} `{A : Secretbox.AEAD}.

Inductive step (d : DB) : DB → Prop :=
  | SCreate e user nm x l allowed r d' : createScoped e user nm x l allowed d = (r, d') → step d d'
  | SCreateIdempotent e box user nm x l allowed op key r d' : createScopedIdempotent e box user nm x l allowed op key d = (r, d') → step d d'
  | SRevoke e user id r d' : revoke e user id d = (r, d') → step d d'
  | SRevokeIdempotent e box user id op key r d' : revokeIdempotent e box user id op key d = (r, d') → step d d'
  | SRevokeAll e user r d' : revokeAll e user d = (r, d') → step d d'
  | SRevokeLegacy e r d' : revokeLegacyUnscoped e d = (r, d') → step d d'
  | SInitialize e r d' : InitializeSchema e d = (r, d') → step d d'
  | SMark e deadline h r d' : MarkLegacyTokenDeprecated e deadline h d = (r, d') → step d d'.

Definition empty_db : DB := mkDB ∅ ∅ None ∅.

(** What becomes of a row: nothing, or it is revoked. *)
Definition succeeded_by (r r' : TokenRow) : Prop := r' = r ∨ ∃ now, r' = revoke_row now r.
Definition evolves (d d' : DB) : Prop :=
  (∀ id r, api_tokens d !! id = Some r → ∃ r', api_tokens d' !! id = Some r' ∧ succeeded_by r r') ∧
  (∀ id r', api_tokens d' !! id = Some r' → (∃ r, api_tokens d !! id = Some r ∧ succeeded_by r r') ∨
     api_tokens d !! id = None ∧ hash_taken (token_hash r') d = false ∧ ∀ id2, id2 ≠ id → api_tokens d' !! id2 = api_tokens d !! id2).
(** The hash is a key. *)
Definition unique (d : DB) : Prop := ∀ id id' r r', api_tokens d !! id = Some r → api_tokens d !! id' = Some r' → token_hash r = token_hash r' → id = id'.

Lemma succeeded_hash r r' : succeeded_by r r' → token_hash r' = token_hash r ∧ username r' = username r.
Proof. intros [->|[now ->]]; [done|]. unfold revoke_row. by destruct (revoked_at r). Qed.
Lemma succeeded_revoked r r' : succeeded_by r r' → revoked_at r ≠ None → r' = r.
Proof. intros [->|[now ->]] Hr; [done|]. unfold revoke_row. by destruct (revoked_at r). Qed.

Lemma evolves_same d d' : api_tokens d' = api_tokens d → evolves d d'.
Proof. intros E. split; intros id r; rewrite E; intros Hr; [|left]; exists r; (split; [done|by left]). Qed.
Lemma evolves_map d d' f : api_tokens d' = f <$> api_tokens d → (∀ r, succeeded_by r (f r)) → evolves d d'.
Proof.
  intros E Hf. split; intros id r; rewrite E, lookup_fmap.
  - intros ->. exists (f r). done.
  - intros (r0 & -> & Hr)%fmap_Some. subst r. left. eauto.
Qed.
Lemma evolves_insert d d' id r : insert_token id r d = Ok d' → evolves d d'.
Proof.
  unfold insert_token. case_bool_decide as Hid; [done|]. cbn. destruct (hash_taken _ d) eqn:Hh; [done|]. intros [= <-]. apply eq_None_not_Some in Hid.
  split; cbn; intros i r0.
  - intros Hr. exists r0. split; [|by left]. rewrite lookup_insert_ne; [done|]. intros ->. congruence.
  - intros [[<- <-]|[Hne Hr]]%lookup_insert_Some.
    + right. split_and!; [done|done|]. intros i2 Hi2. by rewrite lookup_insert_ne.
    + left. exists r0. split; [done|by left].
Qed.
Lemma evolves_tokens d d1 d2 d' : api_tokens d1 = api_tokens d → api_tokens d2 = api_tokens d' → evolves d1 d2 → evolves d d'.
Proof. unfold evolves, hash_taken. by intros -> ->. Qed.
Lemma begin_tokens p o key h d : api_tokens (beginIdempotency p o key h d).2 = api_tokens d.
Proof. unfold beginIdempotency. by destruct (_ !! _). Qed.
Lemma evolves_one d now id : evolves d (revoke_one now id d).
Proof.
  split; cbn; intros i r.
  - intros Hr. destruct (decide (i = id)) as [->|Hne].
    + exists (revoke_row now r). rewrite lookup_alter_eq, Hr. split; [done|]. right. eauto.
    + exists r. rewrite lookup_alter_ne by done. split; [done|by left].
  - destruct (decide (i = id)) as [->|Hne].
    + rewrite lookup_alter_eq. intros (r0 & Hr & ->)%fmap_Some. left. exists r0. split; [done|]. right. eauto.
    + rewrite lookup_alter_ne by done. intros Hr. left. exists r. split; [done|by left].
Qed.

Lemma step_evolves d d' : step d d' → evolves d d'.
Proof.
  intros [e user nm x l allowed r d1 Hs|e box user nm x l allowed op key r d1 Hs|e user id r d1 Hs|e box user id op key r d1 Hs|e user r d1 Hs|e r d1 Hs|e r d1 Hs|e dl h r d1 Hs].
  - unfold createScoped in Hs. destruct (validateTokenRequest _ _ _ _ _) as [[st nl]|]; [|simplify_eq; by apply evolves_same].
    destruct (fresh_token e) as [[sec id]|]; [|simplify_eq; by apply evolves_same]. destruct (fault e 0); [simplify_eq; by apply evolves_same|].
    destruct (insert_token _ _ _) eqn:Hi; simplify_eq; [by eapply evolves_insert|by apply evolves_same].
  - unfold createScopedIdempotent in Hs. destruct (validateTokenRequest _ _ _ _ _) as [[st nl]|]; [|simplify_eq; by apply evolves_same].
    destruct (fault e 0); [simplify_eq; by apply evolves_same|]. cbv zeta in Hs.
    set (h := idempotencyHash _ _ _) in Hs. pose proof (begin_tokens user op key h d) as Hb. destruct (beginIdempotency user op key h d) as [ins d2]. cbn in Hb.
    destruct (if ins then _ else _) as [[sealed|]|]; [|  |simplify_eq; by apply evolves_same].
    { destruct (openIdempotencyResult _ _ _ _ _); [|simplify_eq; by apply evolves_same]. destruct (result_unmarshal _); simplify_eq; by apply evolves_same. }
    destruct (fresh_token e) as [[sec id]|]; [|simplify_eq; by apply evolves_same].
    destruct (insert_token _ _ _) as [d3|] eqn:Hi; [|simplify_eq; by apply evolves_same].
    destruct (sealIdempotencyResult _ _ _ _ _ _ _) as [sl|]; [|simplify_eq; by apply evolves_same].
    unfold commit in Hs. apply evolves_insert in Hi. destruct (fault e 1), (fault e 2); simplify_eq; try (by apply evolves_same);
      by eapply evolves_tokens; [exact Hb| |exact Hi].
  - unfold revoke in Hs. destruct (fault e 0); [simplify_eq; by apply evolves_same|]. destruct (revocable _ _ _); simplify_eq; [apply evolves_one|by apply evolves_same].
  - unfold revokeIdempotent in Hs. destruct (fault e 0); [simplify_eq; by apply evolves_same|]. cbv zeta in Hs.
    set (h := idempotencyHash _ _ _) in Hs. pose proof (begin_tokens user op key h d) as Hb. destruct (beginIdempotency user op key h d) as [ins d2]. cbn in Hb.
    destruct (if ins then _ else _) as [[sealed|]|]; [|  |simplify_eq; by apply evolves_same].
    { destruct (openIdempotencyResult _ _ _ _ _); simplify_eq; by apply evolves_same. }
    destruct (negb _); [simplify_eq; by apply evolves_same|].
    destruct (sealIdempotencyResult _ _ _ _ _ _ _) as [sl|]; [|simplify_eq; by apply evolves_same].
    unfold commit in Hs. pose proof (evolves_one d2 (unix e 0) id) as Hi. destruct (fault e 1), (fault e 2); simplify_eq; try (by apply evolves_same);
      by eapply evolves_tokens; [exact Hb| |exact Hi].
  - unfold revokeAll in Hs. destruct (fault e 0); simplify_eq; [by apply evolves_same|]. eapply evolves_map; [done|].
    intros r0. cbv beta. case_bool_decide; [right; eauto|by left].
  - unfold revokeLegacyUnscoped in Hs. destruct (fault e 0); simplify_eq; [by apply evolves_same|]. eapply evolves_map; [done|].
    intros r0. cbv beta. destruct (_ && _); [right; eauto|by left].
  - unfold InitializeSchema in Hs. destruct (fault e 0), (fault e 1); simplify_eq; by apply evolves_same.
  - unfold MarkLegacyTokenDeprecated in Hs. destruct dl; [|simplify_eq; by apply evolves_same]. destruct (fault e 1); simplify_eq; by apply evolves_same.
Qed.

Lemma hash_taken_false h d : hash_taken h d = false → ∀ id r, api_tokens d !! id = Some r → token_hash r ≠ h.
Proof.
  unfold hash_taken. rewrite existsb_false_elem. intros Hf id r Hr%elem_of_map_to_list E. specialize (Hf _ Hr). cbn in Hf.
  by apply bool_decide_eq_false in Hf.
Qed.

Lemma evolves_unique d d' : evolves d d' → unique d → unique d'.
Proof.
  intros [_ Hb] Hu id id' r r' Hr Hr' E.
  destruct (Hb _ _ Hr) as [(r0 & H0 & [Hs _]%succeeded_hash)|(Hn & Hf & Ho)], (Hb _ _ Hr') as [(r1 & H1 & [Hs' _]%succeeded_hash)|(Hn' & Hf' & Ho')].
  - eapply Hu; [done|done|congruence].
  - exfalso. eapply (hash_taken_false _ _ Hf'); [exact H0|]. congruence.
  - exfalso. eapply (hash_taken_false _ _ Hf); [exact H1|]. congruence.
  - destruct (decide (id = id')) as [|Hne]; [done|]. rewrite Ho in Hr' by done. congruence.
Qed.

Lemma revoked_inactive e cond d id r : api_tokens d !! id = Some r → revoked_at r ≠ None →
  (∀ i x, api_tokens d !! i = Some x → cond i x = true → i = id) → ∀ t, activeTokenWhere e cond d ≠ Ok t.
Proof.
  intros Hr Hrev Hc t. unfold activeTokenWhere. destruct (fault e 0); [done|]. destruct (filter _ _) as [|[i x] l] eqn:Hf; [done|].
  assert ((i, x) ∈ filter (λ y : string * TokenRow, cond y.1 y.2 = true) (map_to_list (api_tokens d))) as Hin by (rewrite Hf; left).
  apply list_elem_of_filter in Hin as [Hci Hin%elem_of_map_to_list]. pose proof (Hc _ _ Hin Hci) as ->. rewrite Hr in Hin. simplify_eq.
  unfold active. by destruct (revoked_at x).
Qed.

Lemma steps_keep d d' id r : unique d → rtc step d d' → api_tokens d !! id = Some r → revoked_at r ≠ None → unique d' ∧ api_tokens d' !! id = Some r.
Proof.
  intros Hu Hs. revert Hu. induction Hs as [|x y z Hst _ IH]; intros Hu Hr Hrev; [done|]. apply step_evolves in Hst.
  pose proof (evolves_unique _ _ Hst Hu) as Hu'. destruct (proj1 Hst _ _ Hr) as (r' & Hr' & Hsb). apply succeeded_revoked in Hsb as ->; [|done]. by apply IH.
Qed.

Lemma steps_unique d d' : unique d → rtc step d d' → unique d'.
Proof. intros Hu Hs. induction Hs as [|x y z Hst _ IH]; [done|]. apply IH. by eapply evolves_unique, Hu; apply step_evolves. Qed.
Lemma empty_unique : unique empty_db.
Proof. intros id id' r r' Hr. cbn in Hr. by rewrite lookup_empty in Hr. Qed.

(** C10: Revocation is final. Once a token has been revoked, by itself or with all tokens of
    its account, then whatever tokens are issued or revoked afterwards, by any process
    and with any failures, neither its secret nor its identifier is accepted again. *)
Theorem revoked_token_stays_dead d e user d1 d' id r : rtc step empty_db d → api_tokens d !! id = Some r →
  revoke e user id d = (None, d1) ∨ revokeAll e user d = (None, d1) ∧ username r = user → rtc step d1 d' →
  (∀ e' secret, sha256_hex secret = token_hash r → authenticateToken e' secret d' = None) ∧
  (∀ e' t, activeToken e' id d' ≠ Ok t).
Proof.
  intros Hreach Hr Hrev Hs. pose proof (steps_unique _ _ empty_unique Hreach) as Hu.
  assert (∃ r1, api_tokens d1 !! id = Some r1 ∧ revoked_at r1 ≠ None ∧ token_hash r1 = token_hash r ∧ unique d1) as (r1 & Hr1 & Hn & Hh & Hu1).
  { exists (revoke_row (unix e 0) r). assert (revoked_at (revoke_row (unix e 0) r) ≠ None ∧ token_hash (revoke_row (unix e 0) r) = token_hash r) as [H1 H2].
    { unfold revoke_row. destruct (revoked_at r) eqn:E; [|done]. by rewrite E. }
    destruct Hrev as [Hrev|[Hrev Hus]].
    - split_and!; try done; [|by eapply evolves_unique, Hu; apply step_evolves; econstructor 3].
      unfold revoke in Hrev. destruct (fault e 0); [done|]. destruct (revocable user id d); [|done]. simplify_eq. cbn. by rewrite lookup_alter_eq, Hr.
    - split_and!; try done; [|by eapply evolves_unique, Hu; apply step_evolves; econstructor 5].
      unfold revokeAll in Hrev. destruct (fault e 0); [done|]. simplify_eq. cbn. rewrite lookup_fmap, Hr. cbn. by rewrite bool_decide_eq_true_2. }
  destruct (steps_keep _ _ _ _ Hu1 Hs Hr1 Hn) as [Hu' Hr']. split.
  - intros e' secret Hsec. unfold authenticateToken. destruct (_ || _); [done|].
    destruct (activeTokenWhere _ _ d') as [t|] eqn:Ha; [|done]. exfalso. revert Ha. eapply revoked_inactive; [done|done|].
    intros i x Hx Hc%bool_decide_eq_true. eapply Hu'; [done|done|congruence].
  - intros e' t. unfold activeToken. case_bool_decide; [done|]. eapply revoked_inactive; [done|done|]. by intros i x _ ->%bool_decide_eq_true.
Qed.

End Props.
(** ** Scopes survive the table *)

(** A scope that can be listed: not blank at the ends, and without a comma. *)
Definition listable (s : string) : bool := bool_decide (TrimSpace s = s) && negb (bool_decide (s = "")) && negb (bool_decide (","%char ∈ bytes_of s)).

Lemma read_scopes_join l : Forall (λ s, listable s = true) l → read_scopes (join "," l) = l.
Proof.
  intros Hl. unfold read_scopes. destruct l as [|s0 l0]; [by vm_compute|]. set (l := s0 :: l0) in *. clearbody l.
  destruct (decide (l = [])) as [->|Hn]; [by vm_compute|].
  rewrite (split_joined ","%char l); [|done|].
  - induction Hl as [|s l' Hs Hl IH]; [done|]. unfold listable in Hs. apply andb_true_iff in Hs as [Hs _]. apply andb_true_iff in Hs as [Ht%bool_decide_eq_true Hb].
    apply negb_true_iff, bool_decide_eq_false in Hb. cbn [fmap list_fmap]. rewrite Ht, filter_cons, decide_True by done. f_equal.
    destruct (decide (l' = [])) as [->|]; [done|]. by apply IH.
  - eapply Forall_impl; [exact Hl|]. intros s Hs. unfold listable in Hs. apply andb_true_iff in Hs as [_ Hc]. by apply negb_true_iff, bool_decide_eq_false in Hc.
Qed.

(** A list of scopes is not blank. *)
Lemma strip_blank n l ps :
  Forall (λ c, c = " "%char) l → strip_any ps [] = None → (∀ l, strip_any ps (" "%char :: l) = Some l) →
  (length l ≤ n)%nat → strip_leading n ps l = [].
Proof.
  intros Hl H0 Hps. revert l Hl. induction n as [|n IH]; intros [|c l] Hl Hn; try done; cbn [length] in Hn; [lia|cbn; by rewrite H0|].
  apply Forall_cons in Hl as [-> Hl]. cbn. rewrite Hps. apply IH; [done|lia].
Qed.
Lemma TrimSpace_blank s : sql_blank s = true → TrimSpace s = "".
Proof.
  unfold sql_blank, all_bytes. intros H. unfold TrimSpace. rewrite (strip_blank (length (bytes_of s)) (bytes_of s)); [done| |reflexivity|intros l; reflexivity|lia].
  rewrite forallb_forall in H. apply Forall_forall. intros c Hc%list_elem_of_In. eapply bool_decide_eq_true. by apply H.
Qed.
Lemma scopes_not_blank l : l ≠ [] → Forall (λ s, listable s = true) l → sql_blank (join "," l) = false.
Proof.
  intros Hn Hl. apply not_true_iff_false. intros Hb. destruct l as [|s l]; [done|]. apply Forall_cons in Hl as [Hs _].
  assert (sql_blank s = true) as Hbs.
  { unfold sql_blank, all_bytes in *. destruct l; [done|]. cbn [join] in Hb. rewrite bytes_of_app, forallb_app in Hb. by apply andb_true_iff in Hb as [? _]. }
  apply TrimSpace_blank in Hbs. unfold listable in Hs. rewrite Hbs in Hs. apply andb_true_iff in Hs as [[Ht%bool_decide_eq_true Hne]%andb_true_iff _].
  apply negb_true_iff, bool_decide_eq_false in Hne. congruence.
Qed.

Lemma scope_set_allowed allowed l set set' : scope_set allowed l set = Ok set' → set ⊆ allowed → set' ⊆ allowed.
Proof.
  revert set. induction l as [|s l IH]; intros set; cbn [scope_set]; [by intros [= <-]|]. case_bool_decide; [eauto|].
  case_bool_decide as Ha; cbn; [|done]. intros Hs Hsub. eapply IH; [done|]. set_solver.
Qed.
Definition listable_set (allowed : gset string) : bool := forallb listable (elements allowed).
Lemma normalize_listable l allowed text n : listable_set allowed = true → normalizeTokenScopes l allowed = Ok (text, n) →
  text = join "," n ∧ Forall (λ s, listable s = true ∧ s ∈ allowed) n ∧ NoDup n.
Proof.
  unfold normalizeTokenScopes, listable_set. intros Hl. destruct (scope_set allowed l ∅) as [set|] eqn:Hs; [|done]. intros [= <- <-].
  apply scope_set_allowed in Hs; [|set_solver]. rewrite forallb_forall in Hl. split_and!; [done| |].
  - apply Forall_forall. intros s Hin. rewrite merge_sort_Permutation, elem_of_elements in Hin. split; [|by apply Hs].
    apply Hl, list_elem_of_In, elem_of_elements. by apply Hs.
  - rewrite merge_sort_Permutation. apply NoDup_elements.
Qed.

Section Issue.
Context `{TL : TokenLib} `{A : Secretbox.AEAD}.

(** ** A token lives until it is revoked *)

(** The token operations that do not revoke the token [id] of [user], whose scopes are
    [l]: tokens are created, with or without a key; other tokens are revoked, one by one
    or with all of another account; and the tokens without scopes are, if this one has
    any. *)
Inductive sparing (user id : string) (l : list string) (d : DB) : DB → Prop :=
  | KCreate e u nm x l' allowed r d' : createScoped e u nm x l' allowed d = (r, d') → sparing user id l d d'
  | KCreateIdempotent e box u nm x l' allowed op key r d' :
      createScopedIdempotent e box u nm x l' allowed op key d = (r, d') → sparing user id l d d'
  | KRevoke e u i r d' : u ≠ user ∨ i ≠ id → revoke e u i d = (r, d') → sparing user id l d d'
  | KRevokeIdempotent e box u i op key r d' :
      u ≠ user ∨ i ≠ id → revokeIdempotent e box u i op key d = (r, d') → sparing user id l d d'
  | KRevokeAll e u r d' : u ≠ user → revokeAll e u d = (r, d') → sparing user id l d d'
  | KRevokeLegacy e r d' : l ≠ [] → revokeLegacyUnscoped e d = (r, d') → sparing user id l d d'
  | KInitialize e r d' : InitializeSchema e d = (r, d') → sparing user id l d d'
  | KMark e deadline h r d' : MarkLegacyTokenDeprecated e deadline h d = (r, d') → sparing user id l d d'.

Lemma sparing_step user id l d d' : sparing user id l d d' → step d d'.
Proof.
  intros []; [by eapply SCreate|by eapply SCreateIdempotent|by eapply SRevoke|by eapply SRevokeIdempotent|by eapply SRevokeAll
    |by eapply SRevokeLegacy|by eapply SInitialize|by eapply SMark].
Qed.

(** Creating a token, initialising and marking revoke nothing. *)
Lemma insert_keeps id r d d' i x : insert_token id r d = Ok d' → api_tokens d !! i = Some x → api_tokens d' !! i = Some x.
Proof.
  unfold insert_token. case_bool_decide as Hid; [done|]. destruct (hash_taken _ _); [done|]. intros [= <-] Hx. cbn.
  rewrite lookup_insert_ne; [done|]. intros <-. apply Hid. eauto.
Qed.
Lemma revoke_one_keeps now u i d id r :
  revocable u i d = true → api_tokens d !! id = Some r → u ≠ username r ∨ i ≠ id → api_tokens (revoke_one now i d) !! id = Some r.
Proof.
  unfold revocable. intros Hv Hr [Hu|Hi]; cbn; [|by rewrite lookup_alter_ne].
  destruct (decide (i = id)) as [->|]; [|by rewrite lookup_alter_ne]. rewrite Hr in Hv.
  apply andb_true_iff in Hv as [Hv%bool_decide_eq_true _]. congruence.
Qed.

Lemma sparing_keeps id l d d' r :
  sparing (username r) id l d d' → (l ≠ [] → sql_blank (scopes r) = false) → api_tokens d !! id = Some r → api_tokens d' !! id = Some r.
Proof.
  intros S Hl Hr. destruct S as [e u nm x l' al rr d1 Hs|e box u nm x l' al op key rr d1 Hs|e u i rr d1 Hne Hs|e box u i op key rr d1 Hne Hs|e u rr d1 Hne Hs|e rr d1 Hne Hs|e rr d1 Hs|e dl h rr d1 Hs].
  - unfold createScoped in Hs. repeat (case_match; simplify_eq; try done). by eapply insert_keeps.
  - unfold createScopedIdempotent in Hs. destruct (validateTokenRequest _ _ _ _ _) as [[st nl]|]; [|by simplify_eq].
    destruct (fault e 0); [by simplify_eq|]. cbv zeta in Hs. set (h := idempotencyHash _ _ _) in Hs.
    pose proof (begin_tokens u op key h d) as Hb. destruct (beginIdempotency u op key h d) as [ins d2]. cbn in Hb.
    destruct (if ins then _ else _) as [[sealed|]|]; [| |by simplify_eq].
    { repeat (case_match; simplify_eq; try done). }
    destruct (fresh_token e) as [[sec i]|]; [|by simplify_eq]. destruct (insert_token _ _ _) as [d3|] eqn:Hi; [|by simplify_eq].
    destruct (sealIdempotencyResult _ _ _ _ _ _ _); [|by simplify_eq]. rewrite <- Hb in Hr. pose proof (insert_keeps _ _ _ _ _ _ Hi Hr) as Hk.
    rewrite Hb in Hr. unfold commit in Hs. repeat (case_match; simplify_eq; try done).
  - unfold revoke in Hs. destruct (fault e 0); [by simplify_eq|]. destruct (revocable u i d) eqn:Hv; simplify_eq; [|done]. by apply (revoke_one_keeps _ u).
  - unfold revokeIdempotent in Hs. destruct (fault e 0); [by simplify_eq|]. cbv zeta in Hs. set (h := idempotencyHash _ _ _) in Hs.
    pose proof (begin_tokens u op key h d) as Hb. destruct (beginIdempotency u op key h d) as [ins d2]. cbn in Hb.
    destruct (if ins then _ else _) as [[sealed|]|]; [| |by simplify_eq]; [by repeat (case_match; simplify_eq; try done)|].
    destruct (revocable u i d2) eqn:Hv; cbn in Hs; [|by simplify_eq]. destruct (sealIdempotencyResult _ _ _ _ _ _ _); [|by simplify_eq].
    rewrite <- Hb in Hr. pose proof (revoke_one_keeps (unix e 0) u i d2 id r Hv Hr Hne) as Hk. rewrite Hb in Hr.
    unfold commit in Hs. repeat (case_match; simplify_eq; try done).
  - unfold revokeAll in Hs. destruct (fault e 0); simplify_eq; [done|]. cbn. rewrite lookup_fmap, Hr. cbn. by rewrite bool_decide_eq_false_2.
  - unfold revokeLegacyUnscoped in Hs. destruct (fault e 0); simplify_eq; [done|]. cbn. rewrite lookup_fmap, Hr. cbn. by rewrite Hl.
  - unfold InitializeSchema in Hs. by destruct (fault e 0), (fault e 1); simplify_eq.
  - unfold MarkLegacyTokenDeprecated in Hs. destruct dl; [|by simplify_eq]. by destruct (fault e 1); simplify_eq.
Qed.

(** The row of a live token authenticates its secret. *)
Lemma row_authenticates e secret d id r :
  unique d → has_prefix secret "stp_" = true → len secret ≤ 100 → api_tokens d !! id = Some r → token_hash r = sha256_hex secret →
  fault e 0 = false → active (unix e 0) r = true → authenticateToken e secret d = Some (identity id r).
Proof.
  intros Hu Hp Hlen Hr Hh Hf Ha. unfold authenticateToken. rewrite Hp. cbn. replace (100 <? len secret) with false by lia. unfold activeTokenWhere. rewrite Hf.
  destruct (filter _ _) as [|[i x] rest] eqn:Hfil.
  - exfalso. assert ((id, r) ∈ filter (λ y : string * TokenRow, bool_decide (token_hash y.2 = sha256_hex secret) = true) (map_to_list (api_tokens d))) as Hin.
    { apply list_elem_of_filter. split; [by apply bool_decide_eq_true|by apply elem_of_map_to_list]. }
    rewrite Hfil in Hin. by apply elem_of_nil in Hin.
  - assert ((i, x) ∈ filter (λ y : string * TokenRow, bool_decide (token_hash y.2 = sha256_hex secret) = true) (map_to_list (api_tokens d))) as Hin by (rewrite Hfil; left).
    apply list_elem_of_filter in Hin as [Hx%bool_decide_eq_true Hin%elem_of_map_to_list]. cbn in Hx.
    assert (i = id) as -> by (eapply Hu; [exact Hin|exact Hr|congruence]). assert (x = r) as -> by congruence. by rewrite Ha.
Qed.

(** What creating a token leaves in the table. *)
Lemma createScoped_row e user nm x l allowed item secret d d' :
  createScoped e user nm x l allowed d = (Ok (item, secret), d') →
  ∃ text, normalizeTokenScopes l allowed = Ok (text, Scopes item) ∧ has_prefix secret "stp_" = true ∧ len secret ≤ 100 ∧
    api_tokens d' !! ID item = Some (token_row user (TrimSpace nm) secret text (unix e 1) x) ∧ evolves d d'.
Proof.
  unfold createScoped. destruct (validateTokenRequest _ _ _ _ _) as [[text n]|] eqn:Hv; [|done].
  destruct (fresh_token e) as [[sec id]|] eqn:Hfr; [|done]. destruct (fault e 0); [done|]. destruct (insert_token _ _ _) as [d1|] eqn:Hi; [|done]. intros Hc. simplify_eq/=.
  exists text. assert (normalizeTokenScopes l allowed = Ok (text, n)) as Hn.
  { unfold validateTokenRequest in Hv. destruct (_ || _); [done|]. by destruct (match x with Some _ => _ | None => _ end). }
  assert (has_prefix secret "stp_" = true ∧ len secret ≤ 100) as [Hp Hlen].
  { unfold fresh_token in Hfr. destruct (Accounts.read_full e 0 32) as [raw|] eqn:Hraw; [|done]. destruct (Accounts.read_full e 1 16); [|done]. simplify_eq.
    apply AccountsProps.read_full_length in Hraw. split; [unfold has_prefix; by rewrite bytes_of_app, Secretbox.strip_prefix_app|].
    rewrite len_app. unfold len at 2, EncodeToString64. rewrite <- length_bytes_of, bytes_of_of, length_fmap.
    do 32 (destruct raw as [|[] raw]; [done|]). destruct raw; [|done]. vm_compute. done. }
  split_and!; [done..| |by eapply evolves_insert].
  unfold insert_token in Hi. destruct (_ || _); [done|]. simplify_eq. cbn. by rewrite lookup_insert_eq.
Qed.

(** C11: A token lives until it expires or is revoked. A token created by
    [createScoped] authenticates afterwards as its account with exactly the normalised
    scopes, all of them allowed and none twice, whatever tokens any process issues or
    revokes in between and wherever those operations fail, as long as none of them
    revokes this token (by its identifier, with all tokens of its account, or, when it
    has no scopes, with all such tokens), its expiry lies ahead, and the query that
    reads it does not fail. The allowed scopes are blank at neither end and have no
    comma, as both lists of the program. *)
Theorem issued_token_authenticates e user nm x l allowed item secret d d' d'' e' :
  listable_set allowed = true → rtc step empty_db d → createScoped e user nm x l allowed d = (Ok (item, secret), d') →
  rtc (sparing user (ID item) (Scopes item)) d' d'' → fault e' 0 = false → (∀ t, x = Some t → unix e' 0 < t) →
  authenticateToken e' secret d'' = Some (mkIdentity (ID item) user (Scopes item)) ∧ Forall (λ s, s ∈ allowed) (Scopes item) ∧ NoDup (Scopes item).
Proof.
  intros Hal Hreach Hc Hs Hf Hx. pose proof (steps_unique _ _ empty_unique Hreach) as Hu.
  apply createScoped_row in Hc as (text & Hn & Hp & Hlen & Hrow & Hev).
  apply normalize_listable in Hn as (-> & Hall & Hnd); [|done]. set (row := token_row _ _ _ _ _ _) in Hrow.
  assert (Forall (λ s, listable s = true) (Scopes item)) as Hli by (eapply Forall_impl; [exact Hall|]; by intros s [? _]).
  assert (unique d'' ∧ api_tokens d'' !! ID item = Some row) as [Hu'' Hrow''].
  { pose proof (evolves_unique _ _ Hev Hu) as Hu'. clear Hev Hreach Hu. induction Hs as [|d1 d2 d3 H12 _ IH]; [done|]. apply IH.
    - apply (sparing_keeps (ID item) (Scopes item) d1 d2 row); [done| |done]. intros Hne. by apply scopes_not_blank.
    - eapply evolves_unique, Hu'. by eapply step_evolves, sparing_step. }
  split_and!; [|by eapply Forall_impl; [exact Hall|]; intros s [_ ?]|done].
  rewrite (row_authenticates e' secret d'' (ID item) row); try done.
  - unfold identity. assert (scopes row = join "," (Scopes item)) as -> by done. by rewrite read_scopes_join.
  - unfold active. cbn. destruct x as [t|]; [|done]. specialize (Hx t eq_refl). lia.
Qed.

(** ** Idempotent creation *)

Context `{!TokenLaws} `{!Secretbox.AEADLaws}.

Lemma begin_lookup user op key h d : idempotency_records (beginIdempotency user op key h d).2 !! (user, op, key) =
  Some (default (mkIdemRow h false []) (idempotency_records d !! (user, op, key))).
Proof. unfold beginIdempotency. destruct (idempotency_records d !! _) eqn:E; cbn; [by rewrite E|by rewrite lookup_insert_eq]. Qed.
Lemma begin_again user op key h d r : idempotency_records d !! (user, op, key) = Some r → beginIdempotency user op key h d = (false, d).
Proof. unfold beginIdempotency. by intros ->. Qed.
Lemma insert_records id r d d' : insert_token id r d = Ok d' → idempotency_records d' = idempotency_records d.
Proof. unfold insert_token. destruct (_ || _); [done|]. by intros [= <-]. Qed.

(** What a successful keyed creation leaves: the record of the request holds its sealed
    result, whether it was made now or found. *)
Lemma created_record e box user nm x l allowed op key item secret d d' :
  createScopedIdempotent e box user nm x l allowed op key d = (Ok (item, secret), d') →
  ∃ text n sealed, validateTokenRequest e (TrimSpace nm) x l allowed = Ok (text, n) ∧
    idempotency_records d' !! (user, op, key) = Some (mkIdemRow (idempotencyHash op user (CreateRequest (TrimSpace nm) x n)) true sealed) ∧
    ∃ plain, openIdempotencyResult box sealed user op key = Ok plain ∧ result_unmarshal (of_bytes plain) = Some (item, secret).
Proof.
  unfold createScopedIdempotent. destruct (validateTokenRequest _ _ _ _ _) as [[text n]|] eqn:Hv; [|done]. destruct (fault e 0); [done|]. cbv zeta.
  set (h := idempotencyHash _ _ _). pose proof (begin_lookup user op key h d) as Hb.
  destruct (beginIdempotency user op key h d) as [ins d1] eqn:Hbe. cbn [snd] in Hb. intros Hc. exists text, n.
  destruct (if ins then _ else _) as [[sealed|]|] eqn:Hst; [| |done].
  - destruct ins; [done|]. unfold beginIdempotency in Hbe. destruct (idempotency_records d !! (user, op, key)) as [r|] eqn:Hr; [|done]. simplify_eq.
    unfold lookupIdempotency in Hst. rewrite Hr in Hst. case_bool_decide as Hh; [|done]. destruct (completed r) eqn:Hco; [|done]. cbn in Hst. simplify_eq.
    destruct (openIdempotencyResult _ _ _ _ _) as [plain|] eqn:Ho; [|done]. destruct (result_unmarshal _) as [[]|] eqn:Hun; [|done]. simplify_eq.
    exists (result r). split_and!; [done| |by exists plain]. rewrite Hr. destruct r; cbn in *. by subst.
  - destruct (fresh_token e) as [[sec id]|]; [|done]. destruct (insert_token _ _ _) as [d2|] eqn:Hi; [|done]. apply insert_records in Hi.
    destruct (sealIdempotencyResult _ _ _ _ _ _ _) as [sealed|] eqn:Hse; [|done]. unfold commit in Hc. destruct (fault e 1); [by destruct (fault e 2)|].
    injection Hc as <- <- <-. exists sealed. split_and!; [done| |].
    + cbn. rewrite lookup_alter_eq, Hi, Hb. cbn.
      destruct (idempotency_records d !! (user, op, key)) as [r|] eqn:Hr; cbn.
      * unfold beginIdempotency in Hbe. rewrite Hr in Hbe. simplify_eq. unfold lookupIdempotency in Hst. rewrite Hr in Hst.
        destruct (negb _); [done|]. by destruct (negb _).
      * by rewrite bool_decide_eq_true_2.
    + unfold sealIdempotencyResult in Hse. destruct box as [b|]; [|done]. eexists. split; [eapply Secretbox.Seal_Open; [|exact Hse]; intros ? Hr; by eapply AccountsProps.read_full_length|].
      rewrite of_bytes_of. apply result_roundtrip.
Qed.

(** A creation with an idempotency key happens once: repeating the request, by any
    process with the same key material and however its own clock and random source
    differ, returns the token and the secret of the first and changes no table, and
    the same key with another request is refused. *)
Theorem creation_idempotent e box user nm x l allowed op key item secret d d' e' nm' x' l' allowed' text n text' n' :
  createScopedIdempotent e box user nm x l allowed op key d = (Ok (item, secret), d') → fault e' 0 = false →
  validateTokenRequest e (TrimSpace nm) x l allowed = Ok (text, n) → validateTokenRequest e' (TrimSpace nm') x' l' allowed' = Ok (text', n') →
  (CreateRequest (TrimSpace nm') x' n' = CreateRequest (TrimSpace nm) x n →
     createScopedIdempotent e' box user nm' x' l' allowed' op key d' = (Ok (item, secret), d')) ∧
  (idempotencyHash op user (CreateRequest (TrimSpace nm') x' n') ≠ idempotencyHash op user (CreateRequest (TrimSpace nm) x n) →
     createScopedIdempotent e' box user nm' x' l' allowed' op key d' = (Err errIdempotencyConflict, d')).
Proof.
  intros Hc Hf Hv Hv'. apply created_record in Hc as (text0 & n0 & sealed & Hv0 & Hrec & plain & Ho & Hun). rewrite Hv in Hv0. injection Hv0 as <- <-.
  unfold createScopedIdempotent. rewrite Hv', Hf. cbv zeta. rewrite (begin_again _ _ _ _ _ _ Hrec). unfold lookupIdempotency. rewrite Hrec. cbn [request_hash completed result negb].
  split; intros E.
  - rewrite E, bool_decide_eq_true_2 by done. cbn. by rewrite Ho, Hun.
  - by rewrite bool_decide_eq_false_2 by done.
Qed.

End Issue.

(** A list of blank scopes is a list of no scopes. *)
Lemma blank_scopes l allowed : Forall (λ s, TrimSpace s = "") l → normalizeTokenScopes l allowed = Ok ("", []).
Proof.
  intros Hl. unfold normalizeTokenScopes. assert (scope_set allowed l ∅ = Ok ∅) as ->; [|done].
  induction Hl as [|s l Hs _ IH]; [done|]. cbn [scope_set]. by rewrite Hs, bool_decide_eq_true_2.
Qed.

(** ** A concrete instance *)
Module Toy.
Import AccountsProps.AccountsProps.Toy.

Definition of_optZ (x : option Z) : string := match x with None => "" | Some z => String (if bool_decide (0 ≤ z) then "+" else "-") (of_Z (Z.abs z)) end.
Definition to_optZ (s : string) : option Z :=
  match s with EmptyString => None | String c s => Some (if bool_decide (c = "+"%char) then to_Z s else - to_Z s) end.
Lemma to_of_optZ x : to_optZ (of_optZ x) = x.
Proof.
  destruct x as [z|]; [|done]. unfold to_optZ, of_optZ. rewrite to_of_Z by lia. destruct (bool_decide (0 ≤ z)) eqn:E; [rewrite bool_decide_eq_true_2 by done|rewrite bool_decide_eq_false_2 by done]; f_equal; [apply bool_decide_eq_true in E|apply bool_decide_eq_false in E]; lia.
Qed.

Definition req_text (op user : string) (q : TokenRequest) : string :=
  match q with
  | CreateRequest nm x l => enc ([op; user; "create"; nm; of_optZ x] ++ l)
  | RevokeRequest id => enc [op; user; "revoke"; id]
  end.
Definition res_text (r : apiTokenInfo * string) : string :=
  enc [ID r.1; Name r.1; Prefix r.1; of_optZ (Some (CreatedAt r.1)); of_optZ (ExpiresAt r.1); of_optZ (RevokedAt r.1); enc (Scopes r.1);
       of_bool (LegacyUnscoped r.1); r.2].
Definition res_parse (s : string) : option (apiTokenInfo * string) :=
  match dec s with
  | Some [i; n; p; c; x; r; l; u; sec] =>
      match to_optZ c, dec l with Some c, Some l => Some (mkInfo i n p c (to_optZ x) (to_optZ r) l (to_bool u), sec) | _, _ => None end
  | _ => None
  end.

(** The text itself stands for its hash. *)
#[export] Instance token_lib : TokenLib := {| sha256_hex s := s; request_json := req_text; result_marshal := res_text; result_unmarshal := res_parse |}.
#[export] Instance token_laws : TokenLaws.
Proof.
  split. intros [[i n p c x r l u] sec]. cbn [result_unmarshal result_marshal token_lib]. unfold res_parse, res_text. rewrite dec_enc_list.
  cbn [fst snd ID Name Prefix CreatedAt ExpiresAt RevokedAt Scopes LegacyUnscoped]. rewrite !to_of_optZ, dec_enc_list, to_of_bool. done.
Qed.

(** At second [t]: reads of the random source are as long as the operations ask. *)
Definition at_time (t : Z) : Env :=
  mkEnv (λ _, t * Second) (λ _, false) (λ n, Some (match n with O => at_byte 32 "r" | 1%nat => at_byte 16 "i" | _ => "nn" end)).
Definition box : option Secretbox.Box := Some (Secretbox.mkBox "api-token-idempotency" (bytes_of "key")).
Definition made := createScopedIdempotent (at_time 5) box "alice" " ci " (Some 90) ["site:read"; " deploy:write"; "site:read"] customerAPIScopes "create-api-token" "k1" empty_db.
Definition issued := createScoped (at_time 5) "alice" "ci" (Some 90) ["site:read"; "logs:read"] customerAPIScopes empty_db.
Definition the_item : apiTokenInfo * string := match issued.1 with Ok x => x | Err _ => (mkInfo "" "" "" 0 None None [] false, "") end.
Definition made_item : apiTokenInfo * string := match made.1 with Ok x => x | Err _ => (mkInfo "" "" "" 0 None None [] false, "") end.

(** Another account's tokens and those without scopes are revoked in between. *)
Definition others_revoked : DB := (revokeLegacyUnscoped (at_time 31) (revokeAll (at_time 30) "bob" issued.2).2).2.
Lemma issued_token_authenticates_witness : authenticateToken (at_time 80) the_item.2 others_revoked = Some (mkIdentity (ID the_item.1) "alice" (Scopes the_item.1)) ∧
  Scopes the_item.1 = ["logs:read"; "site:read"].
Proof.
  split; [|vm_compute; reflexivity].
  apply (issued_token_authenticates (at_time 5) "alice" "ci" (Some 90) ["site:read"; "logs:read"] customerAPIScopes the_item.1 the_item.2 empty_db issued.2 others_revoked (at_time 80)).
  - vm_compute. reflexivity.
  - constructor.
  - vm_compute. reflexivity.
  - eapply rtc_l; [eapply (KRevokeAll _ _ _ _ (at_time 30) "bob" None (revokeAll (at_time 30) "bob" issued.2).2); [congruence|reflexivity]|].
    apply rtc_once. apply (KRevokeLegacy _ _ _ _ (at_time 31) (Ok 0%nat)); [vm_compute; congruence|vm_compute; reflexivity].
  - reflexivity.
  - intros t [= <-]. vm_compute. reflexivity.
Defined.

Lemma creation_idempotent_witness :
  createScopedIdempotent (at_time 7) box "alice" "ci" (Some 90) ["deploy:write"; "site:read"] customerAPIScopes "create-api-token" "k1" made.2 = (Ok made_item, made.2).
Proof.
  apply (creation_idempotent (at_time 5) box "alice" " ci " (Some 90) ["site:read"; " deploy:write"; "site:read"] customerAPIScopes "create-api-token" "k1"
    made_item.1 made_item.2 empty_db made.2 (at_time 7) "ci" (Some 90) ["deploy:write"; "site:read"] customerAPIScopes
    "deploy:write,site:read" ["deploy:write"; "site:read"] "deploy:write,site:read" ["deploy:write"; "site:read"]); vm_compute; reflexivity.
Defined.

Lemma revoked_token_stays_dead_witness :
  is_Some (authenticateToken (at_time 6) the_item.2 issued.2) ∧ authenticateToken (at_time 8) the_item.2 (revoke (at_time 7) "alice" (ID the_item.1) issued.2).2 = None.
Proof.
  split; [vm_compute; by eexists|].
  apply (revoked_token_stays_dead issued.2 (at_time 7) "alice" (revoke (at_time 7) "alice" (ID the_item.1) issued.2).2
    (revoke (at_time 7) "alice" (ID the_item.1) issued.2).2 (ID the_item.1) (token_row "alice" "ci" the_item.2 "logs:read,site:read" 5 (Some 90))).
  - apply rtc_once. apply (SCreate _ (at_time 5) "alice" "ci" (Some 90) ["site:read"; "logs:read"] customerAPIScopes issued.1). vm_compute. reflexivity.
  - vm_compute. reflexivity.
  - left. vm_compute. reflexivity.
  - constructor.
  - vm_compute. reflexivity.
Defined.

(** A customer's request that lists only a blank scope is answered with a token that
    authenticates without any. *)
Lemma blank_scope_unscoped : ∃ item secret d', createScoped (at_time 5) "alice" "ci" None [" "] customerAPIScopes empty_db = (Ok (item, secret), d') ∧
  authenticateWithScopesAndLegacy (at_time 6) secret d' = Some ("alice", [], true).
Proof. do 3 eexists. split; vm_compute; reflexivity. Qed.
End Toy.
End ApiTokens.
