(* ===== verification/Auth.v ===== *)
(** * Auth: login, sessions, API tokens and site authorization

    Models [src/auth.go] with [src/tenancy.go], [canAccessSite] of [src/sites.go] and
    [authorizeDurableSiteJob] of [src/jobs.go]: the composition of the account store,
    the session registry, the token store and the login limiters into the decision
    which requests are served, as whom and for which sites.

    A check that only reads takes a [Moment] per read: the environment of the call and
    the state of the host when it is made, so that other processes may have acted in
    between. [Login] takes the interference of others as a function per step. The
    address [ClientIP] finds, and whether the limiter of API tokens lets a request pass,
    are given with the request. HMAC is the class [AuthLib]. *)
From S2P Require Import Prelude GoText Names Encoding Secretbox Session RateLimit Accounts ApiTokens.

Module Auth.
Import GoText Encoding.

(** ** Data *)

Record Auth := mkAuth { Username : string; PasswordHash : string; Secret : string; credentialKey : string; credentialHash : string;
  Enabled : bool; TOTPEnabled : bool; totpSecret : list ascii }.

(** [totpReplayState]: absent, in memory, or the table. *)
Inductive Replay := NoReplay | InMemory (lastCounter : gmap string Z) | Durable.

(** What [SecurityAuditRequired], [RevocationAudit] and [TelemetryAudit] record. *)
Record Event := mkEvent { actor : string; action : string; target : string }.

(** The state behind the pointers of [Auth]; a nil pointer is [None]. *)
Record Host := mkHost { totpReplay : Replay; totp_replay : gmap string Z; loginLimiter : option RateLimit.Limiter;
  loginAccountLimiter : option RateLimit.Limiter; recoveryLimiter : option RateLimit.Limiter; sessions : option Session.Registry; accounts : option Accounts.AccountStore;
  accounts_db : Accounts.DB; apiTokens : option ApiTokens.DB; legacyTokenDeprecation : option (option Z); trail : list Event }.

(** What is read of a request, with the values [Require] puts into its context. *)
Record Request := mkRequest { Method : string; Path : string; clientIP : string; sessionCookie : option string; csrfCookie : option string;
  Authorization : string; csrfHeader : string; ContentType : string; formOK : bool; FormValue : string → string;
  ctxToken : option ApiTokens.apiTokenIdentity; ctxReplayed : option string }.

Class AuthLib := {
  hmac_sha256 : list ascii → list ascii → list ascii;
  hmac_sha1 : list ascii → list ascii → list ascii
}.
Definition Moment : Type := Env * Host.
(** The registry counts seconds. *)
Definition seconds (e : Env) : Env := mkEnv (λ n, ApiTokens.unix e n) (fault e) (rand e).
Definition nul : string := of_bytes [chr 0].

(** [strconv.ParseInt(s, 10, 64)], with its sign. *)
Definition ParseInt64 (s : string) : option Z :=
  match s with
  | String "-" r => if negb (bool_decide (r = "")) && all_bytes is_digit r && (parse_digits (bytes_of r) <=? 2 ^ 63) then Some (- parse_digits (bytes_of r)) else None
  | String "+" r => match ParseInt r with Ok n => Some n | Err _ => None end
  | _ => match ParseInt s with Ok n => Some n | Err _ => None end
  end.

(** ** The limits of attempts *)

Definition loginAttemptWindow : Z := 15 * Minute.
Definition loginAccountAttemptLimit : Z := 5.
Definition loginClientAttemptLimit : Z := 20.
Definition loginAccountLimiterKey (ip username : string) : string := ip +:+ nul +:+ ToLower (TrimSpace username).
Definition allow (now : Z) (key : string) (l : option RateLimit.Limiter) : bool * option RateLimit.Limiter :=
  match l with None => (true, None) | Some l => let '(b, l) := RateLimit.Allow now key l in (b, Some l) end.
Definition RecoveryActionAllowed (e : Env) (who : string) (h : Host) : bool * Host :=
  let '(b, l) := allow (clock e 0) who (recoveryLimiter h) in (b, h <| recoveryLimiter := l |>).

Section Model.
Context `{AuthLib} `{Accounts.AccountLib} `{Secretbox.AEAD} `{ApiTokens.TokenLib}.
Implicit Type a : Auth.

(** ** Accounts *)

Definition get (m : Moment) (username : string) : option Accounts.HostingAccount :=
  match accounts m.2 with Some s => Accounts.Get m.1 username (accounts_db m.2) s | None => None end.
Definition tenantSuspended (m : Moment) (username : string) : bool :=
  match accounts m.2 with Some s => Accounts.TenantSuspended m.1 username (accounts_db m.2) s | None => false end.
Definition ownsSite (m : Moment) (username site : string) : bool :=
  match accounts m.2 with Some s => Accounts.OwnsSite m.1 username site (accounts_db m.2) s | None => false end.

Definition passwordHashFor a (m : Moment) (username : string) : string * bool :=
  if bool_decide (username = Username a) then (PasswordHash a, true) else
  match get m username with Some account => (Accounts.PasswordHash account, true) | None => ("", false) end.

Definition totpFor a (m : Moment) (username : string) : list ascii * bool :=
  if bool_decide (username = Username a) then (totpSecret a, TOTPEnabled a) else
  match get m username with
  | Some account => match Accounts.decodeTOTPSecret (Accounts.TOTPSecret account) with Ok secret => (secret, true) | Err _ => ([], false) end
  | None => ([], false)
  end.

(** ** Signatures *)

Definition sign a (value : string) : string := Accounts.hex (hmac_sha256 (bytes_of (Secret a)) (bytes_of value)).

Definition fingerprint_key a (username passwordHash : string) : string :=
  if bool_decide (username = Username a) && negb (bool_decide (credentialKey a = "")) &&
     negb (has_prefix (credentialKey a) "password-digest:" && negb (bool_decide (credentialHash a = PasswordHash a)))
  then credentialKey a else passwordHash.
Definition fingerprint_generation a (m : Moment) (username : string) : Z :=
  if bool_decide (username = Username a) then 0 else
  match get m username with Some account => Accounts.SessionGeneration account | None => 0 end.
Definition fingerprint_text (username key : string) (generation : Z) : string :=
  "stepanel/credential-fingerprint/v1" +:+ nul +:+ username +:+ nul +:+ key +:+ nul +:+ Itoa generation.
Definition fingerprint a (username key : string) (generation : Z) : string :=
  Accounts.hex (take 16 (hmac_sha256 (bytes_of (Secret a)) (bytes_of (fingerprint_text username key generation)))).
Definition credentialFingerprintFor a (m : Moment) (username passwordHash : string) : string :=
  fingerprint a username (fingerprint_key a username passwordHash) (fingerprint_generation a m username).

Definition randomSecret (e : Env) : option string :=
  match Accounts.read_full e 0 32 with Some b => Some (EncodeToString64 b) | None => None end.

(** ** One-time codes *)

(** The eight bytes of a counter, the most significant first. *)
Definition counter_bytes (counter : Z) : list ascii := (λ i, chr (counter / 256 ^ i mod 256)) <$> [7; 6; 5; 4; 3; 2; 1; 0].
Definition byte_at (l : list ascii) (i : Z) : Z := match l !! Z.to_nat i with Some c => code c | None => 0 end.
Definition pad6 (n : Z) : string := let d := bytes_of (Itoa n) in of_bytes (replicate (6 - length d) "0"%char ++ d).
Definition totpCode (secret : list ascii) (counter : Z) : string :=
  let digest := hmac_sha1 secret (counter_bytes counter) in
  let offset := Z.land (byte_at digest (Z.of_nat (length digest) - 1)) 15 in
  let value := Z.lor (Z.lor (Z.shiftl (Z.land (byte_at digest offset) 127) 24) (Z.shiftl (byte_at digest (offset + 1)) 16))
                 (Z.lor (Z.shiftl (byte_at digest (offset + 2)) 8) (byte_at digest (offset + 3))) in
  pad6 (value mod 1000000).

(** The conditional upsert of [totp_replay]; [None] when no row is affected. *)
Definition record_counter (username : string) (candidate : Z) (t : gmap string Z) : option (gmap string Z) :=
  match t !! username with
  | None => Some (<[username := candidate]> t)
  | Some last => if (0 <=? last) && (last <? candidate) then Some (<[username := candidate]> t) else None
  end.

(** Fault 0: the statement. *)
Definition consume_counter (e : Env) (username : string) (candidate : Z) (h : Host) : bool * Host :=
  match totpReplay h with
  | NoReplay => (false, h)
  | Durable =>
      if fault e 0 then (false, h) else
      match record_counter username candidate (totp_replay h) with
      | Some t => (true, h <| totp_replay := t |>)
      | None => (false, h)
      end
  | InMemory m =>
      if candidate <=? default 0 (m !! username) then (false, h) else
      (true, h <| totpReplay := InMemory (<[username := candidate]> m) |>)
  end.

(** The first counter of the window whose code is [code]. *)
Fixpoint matching_counter (secret : list ascii) (code : string) (l : list Z) : option Z :=
  match l with
  | [] => None
  | c :: l => if c <? 0 then matching_counter secret code l else
              if bool_decide (totpCode secret c = code) then Some c else matching_counter secret code l
  end.
Definition window (now : Z) : list Z := let current := Z.quot now 30 in [current - 1; current; current + 1].

(** [now] is [time.Now().Unix()]. *)
Definition consumeTOTPFor (e : Env) (username : string) (secret : list ascii) (code : string) (now : Z) (h : Host) : bool * Host :=
  if negb (len code =? 6) || (length secret <? 20)%nat || match totpReplay h with NoReplay => true | _ => false end then (false, h) else
  if negb (all_bytes is_digit code) then (false, h) else
  match matching_counter secret code (window now) with
  | Some candidate => consume_counter e username candidate h
  | None => (false, h)
  end.

(** ** Login *)

(** Appends an event unless the ledger fails. *)
Definition record (e : Env) (ev : Event) (h : Host) : bool * Host :=
  if fault e 0 then (false, h) else (true, h <| trail := trail h ++ [ev] |>).

Inductive LoginResult :=
  | LoginPage (status : Z) (message : string)
  | LoginError (status : Z) (message : string)
  | LoggedIn (cookie csrf : string) (expiry : Z).

Definition csrfTokenFor a (identity : string) : string := if bool_decide (identity = "") then "" else sign a ("csrf" +:+ nul +:+ identity).

Definition session_payload (username : string) (expiry : Z) (id fp : string) : string := username +:+ "|" +:+ Itoa expiry +:+ "|" +:+ id +:+ "|" +:+ fp.
Definition session_token a (username : string) (expiry : Z) (id fp : string) : string :=
  let payload := session_payload username expiry id fp in EncodeToString64 (bytes_of (payload +:+ "|" +:+ sign a payload)).

(** The second factor: a one-time code, or a recovery code. Calls 4: [totpFor], 5:
    [consumeTOTPFor], 6 and 7: [ConsumeRecoveryCode]. *)
Definition second_factor a (es : nat → Env) (other : nat → Host → Host) (username code : string) (h : Host) : bool * Host :=
  let h := other 4%nat h in
  let '(secret, required) := totpFor a (es 4%nat, h) username in
  if negb required then (true, h) else
  let '(b, h) := consumeTOTPFor (es 5%nat) username secret code (ApiTokens.unix (es 5%nat) 0) (other 5%nat h) in
  if b then (true, h) else
  let h := other 6%nat h in
  match accounts h with
  | None => (false, h)
  | Some s =>
      match Accounts.start (Accounts.ConsumeRecoveryCode username code) (es 6%nat) (accounts_db h) s with
      | (inl r, s) => (match r with Ok b => b | Err _ => false end, h <| accounts := Some s |>)
      | (inr p, s) =>
          let h := other 7%nat (h <| accounts := Some s |>) in
          let '(r, s, d) := Accounts.finish p (es 7%nat) (accounts_db h) s in
          (match r with Ok b => b | Err _ => false end, h <| accounts := Some s |> <| accounts_db := d |>)
      end
  end.

(** The check of the credentials. Calls 2: [passwordHashFor], 3: [TenantSuspended]. *)
Definition credentials a (es : nat → Env) (other : nat → Host → Host) (username password code : string) (h : Host) : bool * string * Host :=
  let h := other 2%nat h in
  let '(hash, knownAccount) := passwordHashFor a (es 2%nat, h) username in
  let hash := if bool_decide (hash = "") then PasswordHash a else hash in
  if negb (knownAccount && Accounts.bcrypt_compare hash password) then (false, hash, h) else
  let h := other 3%nat h in
  if tenantSuspended (es 3%nat, h) username then (false, hash, h) else
  let '(b, h) := second_factor a es other username code h in (b, hash, h).

(** The session of a successful login. Calls 8: the audit event, 9: the clock and the
    random source, 10: the fingerprint, 11: the registry. *)
Definition issue_session a (es : nat → Env) (other : nat → Host → Host) (username ip hash : string) (h : Host) : LoginResult * Host :=
  let '(audited, h) := record (es 8%nat) (mkEvent username "auth.login.succeeded" ip) (other 8%nat h) in
  if negb audited then (LoginError 503 "audit persistence is unavailable", h) else
  let expiry := (clock (es 9%nat) 0 + 12 * Hour) / Second in
  match randomSecret (es 9%nat) with
  | None => (LoginError 500 "could not create a secure session", h)
  | Some sessionID =>
      let h := other 10%nat h in
      let fp := credentialFingerprintFor a (es 10%nat, h) username hash in
      let issued := LoggedIn (session_token a username expiry sessionID fp) (csrfTokenFor a sessionID) expiry in
      let h := other 11%nat h in
      match sessions h with
      | None => (issued, h)
      | Some reg =>
          match Session.Add (seconds (es 11%nat)) sessionID username expiry reg with
          | (Some _, reg) => (LoginError 503 "session persistence is unavailable", h <| sessions := Some reg |>)
          | (None, reg) => (issued, h <| sessions := Some reg |>)
          end
      end
  end.

(** [Login]. Calls 0 and 1: the limiters, 12: the telemetry of a refusal. *)
Definition Login a (es : nat → Env) (other : nat → Host → Host) (r : Request) (h : Host) : LoginResult * Host :=
  if negb (Enabled a) then (LoginError 404 "authentication is disabled", h) else
  if bool_decide (Method r = "GET") then (LoginPage 200 "", h) else
  if negb (bool_decide (Method r = "POST")) then (LoginError 405 "method not allowed", h) else
  let ip := clientIP r in
  let '(ok, l) := allow (clock (es 0%nat) 0) ip (loginLimiter h) in
  let h := h <| loginLimiter := l |> in
  if negb ok then (LoginError 429 "too many login attempts", (record (es 12%nat) (mkEvent "unknown" "auth.login.throttled" ip) h).2) else
  if negb (formOK r) then (LoginError 400 "invalid login request", h) else
  let username := FormValue r "username" in
  let accountKey := loginAccountLimiterKey ip username in
  let '(ok, l) := allow (clock (es 1%nat) 0) accountKey (loginAccountLimiter h) in
  let h := h <| loginAccountLimiter := l |> in
  if negb ok then (LoginError 429 "too many login attempts", (record (es 12%nat) (mkEvent "unknown" "auth.login.throttled" ip) h).2) else
  let '(valid, hash, h) := credentials a es other username (FormValue r "password") (FormValue r "totp") h in
  if negb valid then
    let who := if bool_decide (username = "") then "unknown" else username in
    (LoginPage 401 "Invalid credentials", (record (es 12%nat) (mkEvent who "auth.login.failed" ip) h).2) else
  let h := h <| loginLimiter := RateLimit.Release ip <$> loginLimiter h |> <| loginAccountLimiter := RateLimit.Reset accountKey <$> loginAccountLimiter h |> in
  issue_session a es other username ip hash h.

(** ** Sessions *)

(** The parts of the session cookie. *)
Definition cookie_parts (r : Request) : option (list string) :=
  match sessionCookie r with
  | None => None
  | Some v => match DecodeString64 v with Some raw => Some (split "|" (of_bytes raw)) | None => None end
  end.

(** Calls 0: [passwordHashFor], 1: the fingerprint, or the clock of a signed session
    without registry, 2: the registry, 3: [TenantSuspended]. *)
Definition checkValidSession a (ms : nat → Moment) (r : Request) : res bool :=
  match cookie_parts r with
  | None => Ok false
  | Some parts =>
      match parts, sessions (ms 0%nat).2 with
      | [user; exp; mac], None =>
          if negb (passwordHashFor a (ms 0%nat) user).2 || negb (bool_decide (sign a (user +:+ "|" +:+ exp) = mac)) then Ok false else
          match ParseInt64 exp with
          | None => Ok false
          | Some expiry => if expiry <=? ApiTokens.unix (ms 1%nat).1 0 then Ok false else Ok (negb (tenantSuspended (ms 3%nat) user))
          end
      | [user; exp; id; fp; mac], registry =>
          let '(hash, known) := passwordHashFor a (ms 0%nat) user in
          if negb known || negb (bool_decide (fp = credentialFingerprintFor a (ms 1%nat) user hash)) ||
             negb (bool_decide (sign a (join "|" [user; exp; id; fp]) = mac)) then Ok false else
          match ParseInt64 exp, registry with
          | Some expiry, Some _ =>
              match sessions (ms 2%nat).2 with
              | None => Ok false
              | Some reg =>
                  match Session.CheckValid (seconds (ms 2%nat).1) id user expiry reg with
                  | Err err => Err err
                  | Ok false => Ok false
                  | Ok true => Ok (negb (tenantSuspended (ms 3%nat) user))
                  end
              end
          | _, _ => Ok false
          end
      | _, _ => Ok false
      end
  end.
Definition validSession a (ms : nat → Moment) (r : Request) : bool := match checkValidSession a ms r with Ok b => b | Err _ => false end.

Definition sessionID (r : Request) : string := match cookie_parts r with Some [_; _; id; _; _] => id | _ => "" end.

(** ** Identity *)

Definition UsernameForRequest a (ms : nat → Moment) (r : Request) : string :=
  match ctxToken r, ctxReplayed r with
  | Some t, _ => ApiTokens.Username t
  | None, Some u => u
  | None, None => if negb (validSession a ms r) then "" else match cookie_parts r with Some [user; _; _; _; _] => user | _ => "" end
  end.
Definition AuditActor a (ms : nat → Moment) (r : Request) : string :=
  let username := UsernameForRequest a ms r in
  if negb (bool_decide (username = "")) then username else if negb (Enabled a) then "auth-disabled" else "".
Definition IsAPITokenRequest (r : Request) : bool := match ctxToken r with Some _ => true | None => false end.
Definition APITokenID (r : Request) : string := match ctxToken r with Some t => ApiTokens.t_ID t | None => "" end.
Definition IsAdministrator a (ms : nat → Moment) (r : Request) : bool := bool_decide (UsernameForRequest a ms r = Username a).

(** ** Cross-site requests *)

Definition sessionCSRFToken a (r : Request) : string * Z :=
  match cookie_parts r with
  | Some [_; exp; id; _; _] => match ParseInt64 exp with Some expiry => (csrfTokenFor a id, expiry) | None => ("", 0) end
  | Some [user; exp; _] => match ParseInt64 exp with Some expiry => (csrfTokenFor a (user +:+ "|" +:+ exp), expiry) | None => ("", 0) end
  | _ => ("", 0)
  end.
Definition CSRFToken a (r : Request) : string := (sessionCSRFToken a r).1.
(** The cookie that is set again, if any. *)
Definition refreshCSRFCookie a (r : Request) : option (string * Z) :=
  let '(token, expiry) := sessionCSRFToken a r in
  if bool_decide (token = "") || bool_decide (csrfCookie r = Some token) then None else Some (token, expiry).
Definition CSRF a (r : Request) : bool :=
  if negb (Enabled a) then true else
  match ctxToken r, ctxReplayed r with
  | None, None =>
      let expected := CSRFToken a r in
      if bool_decide (expected = "") then false else
      if negb (bool_decide (csrfHeader r = "")) then bool_decide (expected = csrfHeader r) else
      if has_prefix (ToLower (ContentType r)) "multipart/form-data" then false else
      bool_decide (expected = FormValue r "csrf")
  | _, _ => true
  end.

(** [Logout]; call 0 to 3: the actor, 4: the registry, 5: telemetry. *)
Inductive LogoutResult := LoggedOut | LogoutError (status : Z).
Definition Logout a (es : nat → Env) (r : Request) (h : Host) : LogoutResult * Host :=
  if negb (bool_decide (Method r = "POST")) then (LogoutError 405, h) else
  if negb (CSRF a r) then (LogoutError 403, h) else
  let who := AuditActor a (λ i, (es i, h)) r in
  let who := if bool_decide (who = "") then "unknown" else who in
  let told h := (LoggedOut, (record (es 5%nat) (mkEvent who "auth.logout" (clientIP r)) h).2) in
  match sessions h with
  | Some reg =>
      if bool_decide (sessionID r = "") then told h else
      match Session.Revoke (es 4%nat) (sessionID r) reg with
      | (Some _, reg) => (LogoutError 503, h <| sessions := Some reg |>)
      | (None, reg) => told (h <| sessions := Some reg |>)
      end
  | None => told h
  end.

(** ** API tokens *)

Definition bearer (r : Request) : option string :=
  let value := TrimSpace (Authorization r) in
  if (len value <? 8) || negb (EqualFold (of_bytes (take 7 (bytes_of value))) "Bearer ") then None else
  Some (TrimSpace (of_bytes (drop 7 (bytes_of value)))).

(** [enforceLegacyTokenCutoff]; clock 2; calls of the revocation and of its audit event
    in [er] and [ea]. *)
Definition enforceLegacyTokenCutoff (e er ea : Env) (h : Host) : option error * Host :=
  match legacyTokenDeprecation h, apiTokens h with
  | Some deadline, Some d =>
      if negb (ApiTokens.CutoffPassed e 2 deadline) then (None, h) else
      match ApiTokens.revokeLegacyUnscoped er d with
      | (Err err, d) => (Some err, h <| apiTokens := Some d |>)
      | (Ok n, d) =>
          let h := h <| apiTokens := Some d |> in
          (None, if (0 <? n)%nat then (record ea (mkEvent "system" "auth.api_token.legacy_revoked" "legacy-tokens") h).2 else h)
      end
  | _, _ => (None, h)
  end.
Definition legacyTokenAllowed (e er ea : Env) (tokenValue : string) (recordUse : bool) (h : Host) : bool * Host :=
  match legacyTokenDeprecation h, apiTokens h with
  | Some deadline, Some d =>
      let hash := ApiTokens.sha256_hex tokenValue in
      match ApiTokens.IsLegacyTokenExpired e deadline hash d with
      | Err _ => (false, h)
      | Ok true => (false, (enforceLegacyTokenCutoff e er ea h).2)
      | Ok false =>
          if negb recordUse then (true, h) else
          let '(err, d) := ApiTokens.MarkLegacyTokenDeprecated e deadline hash d in
          (match err with None => true | Some _ => false end, h <| apiTokens := Some d |>)
      end
  | _, _ => (false, h)
  end.

(** Calls 0: the token, 1 to 3: the cutoff, 4: [Get], 5: [TenantSuspended]; [limited]:
    the rate limiter refuses. *)
Definition validAPIToken a (es : nat → Env) (limited : bool) (r : Request) (h : Host) : option ApiTokens.apiTokenIdentity * Host :=
  match bearer r, apiTokens h with
  | Some tokenValue, Some d =>
      match ApiTokens.authenticateToken (es 0%nat) tokenValue d with
      | None => (None, h)
      | Some token =>
          if limited then (None, h) else
          let '(allowed, h) := if ApiTokens.legacyUnscoped token then legacyTokenAllowed (es 1%nat) (es 2%nat) (es 3%nat) tokenValue true h else (true, h) in
          if negb allowed then (None, h) else
          let user := ApiTokens.Username token in
          if bool_decide (user = Username a) then (Some token, h) else
          match get (es 4%nat, h) user with
          | None => (None, h)
          | Some _ => if tenantSuspended (es 5%nat, h) user then (None, h) else (Some token, h)
          end
      end
  | _, _ => (None, h)
  end.

(** [StillAuthenticated]; calls as in [validAPIToken], and 0 to 3 for a session. *)
Definition StillAuthenticated a (es : nat → Env) (r : Request) (h : Host) : bool * Host :=
  if negb (Enabled a) then (true, h) else
  match ctxToken r with
  | None => (validSession a (λ i, (es i, h)) r, h)
  | Some t =>
      match bearer r, apiTokens h with
      | Some tokenValue, Some d =>
          match ApiTokens.authenticateWithScopesAndLegacy (es 0%nat) tokenValue d with
          | None => (false, h)
          | Some (tokenUser, _, isLegacyUnscoped) =>
              let username := ApiTokens.Username t in
              if negb (bool_decide (tokenUser = username)) then (false, h) else
              let '(allowed, h) := if isLegacyUnscoped then legacyTokenAllowed (es 1%nat) (es 2%nat) (es 3%nat) tokenValue false h else (true, h) in
              if negb allowed then (false, h) else
              if bool_decide (username = Username a) then (true, h) else
              match get (es 4%nat, h) username with
              | None => (false, h)
              | Some _ => (negb (tenantSuspended (es 5%nat, h) username), h)
              end
          end
      | _, _ => (false, h)
      end
  end.

(** ** The middleware *)

Inductive Outcome := Next (r : Request) (csrf : option (string * Z)) | Reply (status : Z).
Definition safe_method (r : Request) : bool := bool_decide (Method r ∈ ["GET"; "HEAD"; "OPTIONS"]).

(** [Require]; calls 0 to 5: the token, 6 to 9: the session, 10: the audit event, 11 to
    14: the session again, for the actor. *)
Definition Require a (es : nat → Env) (limited : bool) (r : Request) (h : Host) : Outcome * Host :=
  if negb (Enabled a) then (Next r None, h) else
  match validAPIToken a es limited r h with
  | (Some token, h) =>
      let r := r <| ctxToken := Some token |> in
      if safe_method r then (Next r None, h) else
      let '(audited, h) := record (es 10%nat) (mkEvent (ApiTokens.Username token) "http.request" (Path r)) h in
      if audited then (Next r None, h) else (Reply 503, h)
  | (None, h) =>
      if has_prefix (ToLower (TrimSpace (Authorization r))) "bearer " then (Reply 401, h) else
      match checkValidSession a (λ i, (es (6 + i)%nat, h)) r with
      | Err _ => (Reply 503, h)
      | Ok true =>
          let cookie := refreshCSRFCookie a r in
          if safe_method r then (Next r cookie, h) else
          let '(audited, h') := record (es 10%nat) (mkEvent (AuditActor a (λ i, (es (11 + i)%nat, h)) r) "http.request" (Path r)) h in
          if audited then (Next r cookie, h') else (Reply 503, h')
      | Ok false => (Reply (if has_prefix (Path r) "/api/" then 401 else 303), h)
      end
  end.

Definition HasAPIScope (r : Request) (scope : string) : bool :=
  match ctxToken r with Some t => bool_decide (scope ∈ ApiTokens.t_Scopes t) | None => false end.

(** [RequireAdministrator]: [Require], then the role and the scope; moments 15 to 18. *)
Definition RequireAdministrator a (es : nat → Env) (limited : bool) (r : Request) (h : Host) : Outcome * Host :=
  match Require a es limited r h with
  | (Next r cookie, h) =>
      if negb (IsAdministrator a (λ i, (es (15 + i)%nat, h)) r) then (Reply 403, h) else
      if IsAPITokenRequest r then
        let scope := if bool_decide (Method r ∈ ["GET"; "HEAD"]) then "admin:read" else "admin:operate" in
        if negb (HasAPIScope r scope) && negb (bool_decide (scope = "admin:read") && HasAPIScope r "admin:operate") then (Reply 403, h)
        else (Next r cookie, h)
      else (Next r cookie, h)
  | out => out
  end.

(** ** Scopes *)

Definition developer_scopes : list string := ["site:read"; "site:deploy"; "deploy:write"; "environment:read"; "environment:write"; "logs:read";
  "backup:read"; "backup:create"; "database:read"; "redis:read"; "files:read"; "files:write"].
Definition viewer_scopes : list string := ["site:read"; "environment:read"; "backup:read"; "database:read"; "redis:read"; "logs:read"; "files:read"].
Definition roleAllowsCustomerScope (role scope : string) : bool :=
  let role := ToLower (TrimSpace role) in
  if bool_decide (role ∈ [""; "owner"; "manager"]) then true else
  if bool_decide (role = "developer") then bool_decide (scope ∈ developer_scopes) else
  if bool_decide (role = "viewer") then bool_decide (scope ∈ viewer_scopes) else false.

(** Whether a granted scope covers a required one. *)
Definition covers (candidate scope : string) : bool :=
  bool_decide (candidate = scope) || bool_decide (scope = "site:deploy") && bool_decide (candidate = "deploy:write") ||
  bool_decide (scope = "deploy:write") && bool_decide (candidate = "site:deploy").

(** Moments 0 to 3: [IsAdministrator], 4 to 7: the name again, 8: [Get], 9:
    [TenantSuspended]. *)
Definition HasRequiredCustomerScope a (ms : nat → Moment) (r : Request) (scope : string) : bool :=
  match ctxToken r with
  | None =>
      if IsAdministrator a ms r then true else
      match accounts (ms 8%nat).2 with
      | None => true
      | Some _ =>
          match get (ms 8%nat) (UsernameForRequest a (λ i, ms (4 + i)%nat) r) with
          | None => false
          | Some account =>
              if tenantSuspended (ms 9%nat) (Accounts.Username account) then false
              else roleAllowsCustomerScope (Accounts.accountRole account) scope
          end
      end
  | Some t =>
      let listed := existsb (λ c, covers c scope) (ApiTokens.t_Scopes t) in
      let unscoped := bool_decide (ApiTokens.t_Scopes t = []) in
      match accounts (ms 8%nat).2 with
      | None => unscoped || listed
      | Some _ =>
          match get (ms 8%nat) (ApiTokens.Username t) with
          | Some account =>
              if tenantSuspended (ms 9%nat) (Accounts.Username account) || negb (roleAllowsCustomerScope (Accounts.accountRole account) scope)
              then false else unscoped || listed
          | None => if unscoped then false else listed
          end
      end
  end.
Definition requireCustomerScope a (ms ms' : nat → Moment) (r : Request) (scope : string) : bool :=
  IsAdministrator a ms r || HasRequiredCustomerScope a ms' r scope.

(** ** Sites *)

Record AuthorizedSite := mkAuthorizedSite { site : string; tenantID : string }.

(** Moments 0 to 3: [IsAdministrator], 4 to 7: the name again, 8: [OwnsSite]. *)
Definition canAccessSite a (ms : nat → Moment) (r : Request) (s : string) : bool :=
  IsAdministrator a ms r || ownsSite (ms 8%nat) (UsernameForRequest a (λ i, ms (4 + i)%nat) r) s.
(** Moment 9: [OwnerOfSiteWithError]. *)
Definition authorizeSite a (ms : nat → Moment) (r : Request) (s : string) : option AuthorizedSite :=
  if negb (canAccessSite a ms r s) then None else
  match accounts (ms 9%nat).2 with
  | None => Some (mkAuthorizedSite s "")
  | Some _ =>
      match Accounts.OwnerOfSiteWithError (ms 9%nat).1 s (accounts_db (ms 9%nat).2) with
      | Err _ => None
      | Ok (Some owner) => Some (mkAuthorizedSite s owner)
      | Ok None => Some (mkAuthorizedSite s "")
      end
  end.
(** Moments 10 to 13: the actor of the refusal, 14: its event. *)
Definition requireSiteAccess a (ms : nat → Moment) (r : Request) (s : string) (h : Host) : option AuthorizedSite * Host :=
  match authorizeSite a ms r s with
  | Some access => (Some access, h)
  | None => (None, (record (ms 14%nat).1 (mkEvent (AuditActor a (λ i, ms (10 + i)%nat) r) "tenant.access_denied" s) h).2)
  end.
Definition customerTenantLockKey a (ms : nat → Moment) (r : Request) : string :=
  let username := UsernameForRequest a ms r in
  match accounts (ms 4%nat).2 with
  | None => "account:" +:+ username
  | Some _ => if bool_decide (username = "") then "account:" +:+ username else
              match get (ms 4%nat) username with Some account => "account:" +:+ Accounts.accountTenantID account | None => "account:" +:+ username end
  end.

(** Moments 0: [Get], 1: [TenantSuspended], 2: [OwnsSite]. *)
Definition authorizeDurableSiteJob a (ms : nat → Moment) (s who : string) (scheduled : bool) : res string :=
  if bool_decide (Names.safeUser s = "") || bool_decide (TrimSpace who = "") then Err (EMsg "durable site job has invalid ownership data") else
  if scheduled || bool_decide (who = Username a) then Ok s else
  match accounts (ms 0%nat).2 with
  | None => Err (EMsg "tenant ownership state is unavailable")
  | Some _ =>
      match get (ms 0%nat) who with
      | None => Err (EMsg "durable job actor no longer owns the site")
      | Some _ =>
          if tenantSuspended (ms 1%nat) who || negb (ownsSite (ms 2%nat) who s) then Err (EMsg "durable job actor no longer owns the site") else Ok s
      end
  end.

End Model.
End Auth.
