(* ===== verification/AuthProps.v ===== *)
(** * AuthProps: who is let in, and to what

    Theorems about [Auth] and its composition with the account store, the session
    registry and the token store: a one-time code is accepted once, a login needs every
    factor, a session works until it ends and dies with a change of credentials, sites
    are reached by their tenant only, tokens stay within their scopes and their owner's
    role, and CSRF tokens belong to one session. The last section proves where a failing
    read of the database lets a request pass that should not. *)
From S2P Require Import Prelude GoText GoPath Names Encoding Secretbox Session RateLimit Accounts AccountsProps ApiTokens Auth.

Module AuthProps.
Import GoText Encoding Auth.

(** The parts of the host that limiters, the ledger and the check of tokens leave alone. *)
Definition same_host (h h' : Host) : Prop := accounts h' = accounts h ∧ accounts_db h' = accounts_db h ∧ sessions h' = sessions h.
Lemma record_keeps e ev h : same_host h (record e ev h).2.
Proof. unfold record. by destruct (fault e 0). Qed.
(** Nobody interferes. *)
Definition alone : nat → Host → Host := λ _ h, h.

(** ** One-time codes *)
Section Codes.
Context `{AuthLib}.

Lemma matching_spec secret code l c : matching_counter secret code l = Some c → c ∈ l ∧ 0 ≤ c ∧ totpCode secret c = code.
Proof.
  induction l as [|x l IH]; cbn; [done|]. destruct (x <? 0) eqn:Hx; [intros (? & ?)%IH; set_solver|].
  case_bool_decide; [intros [= ->]; split; [set_solver|split; [lia|done]]|intros (? & ?)%IH; set_solver].
Qed.

Lemma record_counter_spec u c t t' : record_counter u c t = Some t' → t' = <[u := c]> t ∧ ∀ l, t !! u = Some l → 0 ≤ l < c.
Proof.
  unfold record_counter. destruct (t !! u) as [l|]; [|by intros [= <-]]. destruct ((0 <=? l) && (l <? c)) eqn:E; [|done]. intros [= <-].
  split; [done|]. intros ? [= <-]. lia.
Qed.

(** What an attempt does to the table: nothing, or it advances one counter. *)
Lemma consume_table e u secret code now h b h' : totpReplay h = Durable → consumeTOTPFor e u secret code now h = (b, h') →
  if b then ∃ c, matching_counter secret code (window now) = Some c ∧ totp_replay h' = <[u := c]> (totp_replay h) ∧
                 ∀ l, totp_replay h !! u = Some l → 0 ≤ l < c
  else h' = h.
Proof.
  intros Hd. unfold consumeTOTPFor. destruct (_ || _); [by intros [= <- <-]|]. destruct (negb _); [by intros [= <- <-]|].
  destruct (matching_counter _ _ _) as [c|] eqn:Hm; [|by intros [= <- <-]]. unfold consume_counter. rewrite Hd.
  destruct (fault e 0); [by intros [= <- <-]|]. destruct (record_counter _ _ _) as [t|] eqn:Hr; intros [= <- <-]; [|done].
  apply record_counter_spec in Hr as [-> Hl]. by exists c.
Qed.

(** An attempt of any process with any secret for any account. *)
Inductive totp_step (t t' : gmap string Z) : Prop :=
  TStep e u secret code now h b h' : totpReplay h = Durable → totp_replay h = t → consumeTOTPFor e u secret code now h = (b, h') →
    totp_replay h' = t' → totp_step t t'.

Lemma totp_steps_grow t t' u l : rtc totp_step t t' → t !! u = Some l → 0 ≤ l → ∃ l', t' !! u = Some l' ∧ l ≤ l'.
Proof.
  intros Hs. revert l. induction Hs as [|t t1 t' Hst _ IH]; intros l Hl Hp; [by exists l|].
  destruct Hst as [e v secret code now h b h' Hd <- Hc <-]. apply consume_table in Hc; [|done]. destruct b; [|subst; by apply IH].
  destruct Hc as (c & Hm & Ht & Hlt). apply matching_spec in Hm as (_ & Hc & _).
  destruct (decide (v = u)) as [->|Hne].
  - specialize (Hlt _ Hl). destruct (IH c) as (l' & Hl' & ?); [by rewrite Ht, lookup_insert_eq|lia|]. exists l'. split; [done|lia].
  - apply IH; [by rewrite Ht, lookup_insert_ne|done].
Qed.

(** C15: A one-time code is accepted once. When an attempt for an account succeeds, every
    later success for it, on any process that shares the database and after any other
    attempts and failures, is for a later time step than the first one: no code works
    twice, and none older than the last one used. *)
Theorem totp_single_use e u secret code now h h1 e' secret' code' now' h2 h3 :
  totpReplay h = Durable → consumeTOTPFor e u secret code now h = (true, h1) → rtc totp_step (totp_replay h1) (totp_replay h2) →
  totpReplay h2 = Durable → consumeTOTPFor e' u secret' code' now' h2 = (true, h3) →
  ∃ c c', matching_counter secret code (window now) = Some c ∧ matching_counter secret' code' (window now') = Some c' ∧ c < c'.
Proof.
  intros Hd Hc Hs Hd' Hc'. apply consume_table in Hc as (c & Hm & Ht & _); [|done]. apply consume_table in Hc' as (c' & Hm' & _ & Hlt); [|done].
  exists c, c'. split_and!; [done|done|]. pose proof (matching_spec _ _ _ _ Hm) as (_ & Hp & _).
  destruct (totp_steps_grow _ _ u c Hs) as (l & Hl & Hle); [by rewrite Ht, lookup_insert_eq|done|]. specialize (Hlt _ Hl). lia.
Qed.

End Codes.

(** ** Text without a separator *)

Definition free (c : ascii) (s : string) : Prop := c ∉ bytes_of s.
Lemma free_alphabet (p : ascii → bool) c s : all_bytes p s = true → p c = false → free c s.
Proof. unfold all_bytes, free. rewrite forallb_forall. intros Hp Hc Hin. apply list_elem_of_In, Hp in Hin. congruence. Qed.

Definition hex_char (c : ascii) : bool := is_digit c || in_range "a" "f" c.
Lemma hex_digit_spec n : 0 ≤ n < 16 → hex_char (Accounts.hex_digit n) = true ∧ ∀ m, 0 ≤ m < 16 → Accounts.hex_digit n = Accounts.hex_digit m → n = m.
Proof.
  intros Hn. assert (∃ i j, n = i ∧ 0 ≤ i < 16 ∧ j = Z.to_nat i) as (i & j & -> & _ & ->) by (eexists _, _; eauto).
  assert (∀ x, 0 ≤ x < 16 → x ∈ [0;1;2;3;4;5;6;7;8;9;10;11;12;13;14;15]) as Hall by (intros x Hx; set_unfold; lia).
  split.
  - apply Hall in Hn. set_unfold in Hn. repeat destruct Hn as [->|Hn]; try done; by vm_compute.
  - intros m Hm E. apply Hall in Hn, Hm. set_unfold in Hn. set_unfold in Hm.
    repeat (destruct Hn as [->|Hn]); try done; repeat (destruct Hm as [->|Hm]); try done; by vm_compute in E.
Qed.
Lemma code_inj c d : code c = code d → c = d.
Proof. unfold code. intros E%N2Z.inj. by rewrite <- (Ascii.ascii_N_embedding c), E, Ascii.ascii_N_embedding. Qed.

Lemma hex_chars l : all_bytes hex_char (Accounts.hex l) = true.
Proof.
  unfold all_bytes, Accounts.hex. rewrite bytes_of_of. induction l as [|c l IH]; [done|]. cbn [mbind list_bind app forallb].
  pose proof (code_bound c) as Hc. rewrite (proj1 (hex_digit_spec (code c / 16) ltac:(split; [apply Z.div_pos; lia|apply Z.div_lt_upper_bound; lia]))).
  rewrite (proj1 (hex_digit_spec (code c mod 16) ltac:(apply Z.mod_pos_bound; lia))). done.
Qed.
Lemma hex_inj l l' : Accounts.hex l = Accounts.hex l' → l = l'.
Proof.
  unfold Accounts.hex. intros E. assert (∀ x y, of_bytes x = of_bytes y → x = y) as Hi by (intros x y Exy; by rewrite <- (bytes_of_of x), Exy, bytes_of_of).
  apply Hi in E. revert l' E. induction l as [|c l IH]; intros [|d l'] E; try done. cbn [mbind list_bind app] in E. injection E as E1 E2 E3.
  f_equal; [|by apply IH]. apply code_inj. pose proof (code_bound c). pose proof (code_bound d).
  apply hex_digit_spec in E1; [|split; [apply Z.div_pos; lia|apply Z.div_lt_upper_bound; lia]..].
  apply hex_digit_spec in E2; [|apply Z.mod_pos_bound; lia..]. pose proof (Z.div_mod (code c) 16). pose proof (Z.div_mod (code d) 16). lia.
Qed.

Lemma str_app_assoc (x y z : string) : x +:+ y +:+ z = (x +:+ y) +:+ z.
Proof. induction x as [|c x IH]; [done|]. exact (f_equal (String c) IH). Qed.

(** ** The session cookie *)
Section Sessions.
Context `{AuthLib} `{Accounts.AccountLib} `{Secretbox.AEAD}.
Implicit Type a : Auth.

Lemma session_text user exp id fp mac :
  (user +:+ "|" +:+ exp +:+ "|" +:+ id +:+ "|" +:+ fp) +:+ "|" +:+ mac = join "|" [user; exp; id; fp; mac].
Proof. cbn [join]. by rewrite <- !str_app_assoc. Qed.
Lemma Itoa_free n : 0 ≤ n < 10 ^ 20 → free "|" (Itoa n) ∧ free (chr 0) (Itoa n).
Proof. intros Hn. destruct (Itoa_digits n Hn) as (Hd & _). split; by eapply free_alphabet; [exact Hd|]. Qed.
Lemma fingerprint_free a u key g : free "|" (fingerprint a u key g).
Proof. by eapply free_alphabet; [apply hex_chars|]. Qed.
Lemma sign_free a v : free "|" (sign a v).
Proof. by eapply free_alphabet; [apply hex_chars|]. Qed.

Lemma session_parts a r u expiry id fp : sessionCookie r = Some (session_token a u expiry id fp) →
  free "|" u → 0 ≤ expiry < 10 ^ 20 → free "|" id → free "|" fp →
  cookie_parts r = Some [u; Itoa expiry; id; fp; sign a (join "|" [u; Itoa expiry; id; fp])].
Proof.
  intros Hc Hu He Hid Hfp. unfold cookie_parts. rewrite Hc. unfold session_token. rewrite base64_roundtrip, of_bytes_of.
  unfold session_payload. rewrite session_text. rewrite (split_joined "|"%char); [done|done|].
  repeat (apply Forall_cons; split; [first [done|apply Itoa_free; lia|apply sign_free]|]). done.
Qed.

(** What the acceptance of a session means, for a process with a registry. *)
Lemma accepted_session a ms r : sessions (ms 0%nat).2 ≠ None → checkValidSession a ms r = Ok true →
  ∃ u exp id expiry reg, let hash := (passwordHashFor a (ms 0%nat) u).1 in let fp := credentialFingerprintFor a (ms 1%nat) u hash in
    cookie_parts r = Some [u; exp; id; fp; sign a (join "|" [u; exp; id; fp])] ∧ (passwordHashFor a (ms 0%nat) u).2 = true ∧
    ParseInt64 exp = Some expiry ∧ sessions (ms 2%nat).2 = Some reg ∧
    Session.CheckValid (seconds (ms 2%nat).1) id u expiry reg = Ok true ∧ tenantSuspended (ms 3%nat) u = false.
Proof.
  intros Hreg. unfold checkValidSession. destruct (cookie_parts r) as [parts|]; [|done]. destruct (sessions (ms 0%nat).2) as [reg0|]; [|done]. clear Hreg.
  destruct parts as [|u [|exp [|id [|fp [|mac [|? ?]]]]]]; try done. destruct (passwordHashFor a (ms 0%nat) u) as [hash known] eqn:Hp.
  destruct known; [|done]. cbn [negb orb]. case_bool_decide as Hf; [|done]. cbn [negb orb]. case_bool_decide as Hm; [|done]. cbn [negb orb].
  destruct (ParseInt64 exp) as [expiry|] eqn:He; [|done]. destruct (sessions (ms 2%nat).2) as [reg|] eqn:Hr; [|done].
  destruct (Session.CheckValid _ _ _ _ _) as [[]|] eqn:Hc; try done. intros [= Hs%negb_true_iff].
  exists u, exp, id, expiry, reg. cbv zeta. rewrite Hp. cbn [fst snd]. rewrite <- Hf, Hm. split_and!; done.
Qed.

Lemma session_name a ms r u exp id fp mac : ctxToken r = None → ctxReplayed r = None → cookie_parts r = Some [u; exp; id; fp; mac] →
  checkValidSession a ms r = Ok true → UsernameForRequest a ms r = u.
Proof. intros Ht Hr Hp Hc. unfold UsernameForRequest, validSession. by rewrite Ht, Hr, Hc, Hp. Qed.

(** The entry of a session in the shared table, read without failure before it ends. *)
Definition entry_live (m : Moment) (id u : string) (expiry : Z) : Prop :=
  ∃ reg st, sessions m.2 = Some reg ∧ Session.db reg = Some st ∧ Session.sessions st !! id = Some (Session.mkEntry u expiry) ∧
    fault m.1 0 = false ∧ ApiTokens.unix m.1 0 < expiry.
Lemma entry_live_valid m id u expiry : entry_live m id u expiry → ∃ reg, sessions m.2 = Some reg ∧ Session.CheckValid (seconds m.1) id u expiry reg = Ok true.
Proof.
  intros (reg & st & Hs & Hdb & Hl & Hf & Ht). exists reg. split; [done|]. unfold Session.CheckValid. rewrite Hdb. cbn. rewrite Hf, Hl. cbn.
  rewrite Z.eqb_refl, bool_decide_eq_true_2 by done. cbn. f_equal. lia.
Qed.

Lemma ParseInt64_Itoa n : 0 ≤ n ≤ maxInt64 → ParseInt64 (Itoa n) = Some n.
Proof.
  intros Hn. pose proof (ParseInt_Itoa n Hn) as Hp. destruct (Itoa_digits n) as (Hd & _ & _); [unfold maxInt64 in Hn; lia|].
  unfold ParseInt64. destruct (Itoa n) as [|c s]; [by rewrite Hp|]. cbn in Hd. apply andb_true_iff in Hd as [Hc _].
  rewrite Hp. destruct c as [[] [] [] [] [] [] [] []]; try done; by vm_compute in Hc.
Qed.

Lemma Add_entry e id u expiry reg reg' st : Session.Add e id u expiry reg = (None, reg') → Session.db reg = Some st →
  ∃ st', Session.db reg' = Some st' ∧ Session.sessions st' !! id = Some (Session.mkEntry u expiry).
Proof.
  intros Ha Hd. unfold Session.Add in Ha. cbv zeta in Ha. unfold Session.persistAdd, Session.persist in Ha. cbn [Session.db Session.set_entries] in Ha.
  rewrite Hd in Ha. destruct (fault e 0); [done|]. injection Ha as <-. cbn. eexists. split; [done|]. cbn. by rewrite lookup_insert_eq.
Qed.

(** What an issued session is made of. *)
Lemma issued a es other u ip hash h cookie csrf expiry h' : issue_session a es other u ip hash h = (LoggedIn cookie csrf expiry, h') →
  fault (es 8%nat) 0 = false ∧ expiry = (clock (es 9%nat) 0 + 12 * Hour) / Second ∧
  ∃ id h10, randomSecret (es 9%nat) = Some id ∧ cookie = session_token a u expiry id (credentialFingerprintFor a (es 10%nat, h10) u hash) ∧
    csrf = csrfTokenFor a id ∧
    match sessions (other 11%nat h10) with None => h' = other 11%nat h10 | Some reg => ∃ reg', Session.Add (seconds (es 11%nat)) id u expiry reg = (None, reg') ∧ h' = (other 11%nat h10) <| sessions := Some reg' |> end ∧
    h10 = other 10%nat (record (es 8%nat) (mkEvent u "auth.login.succeeded" ip) (other 8%nat h)).2.
Proof.
  unfold issue_session, record. destruct (fault (es 8%nat) 0) eqn:Hf; [done|]. cbn [negb]. destruct (randomSecret _) as [id|] eqn:Hr; [|done]. cbv zeta. cbn [snd].
  set (h1 := _ <| trail := _ |>). set (h10 := other 10%nat h1). set (h11 := other 11%nat h10). intros Hi.
  destruct (sessions h11) as [reg|] eqn:Hs.
  - destruct (Session.Add _ _ _ _ _) as [[err|] reg'] eqn:Ha; [done|]. injection Hi as <- <- <- <-. split_and!; [done..|]. exists id, h10. fold h11. rewrite Hs. split_and!; try done. exists reg'. by split.
  - injection Hi as <- <- <- <-. split_and!; [done..|]. exists id, h10. fold h11. by rewrite Hs.
Qed.
Lemma randomSecret_free e id : randomSecret e = Some id → free "|" id ∧ id ≠ "".
Proof.
  unfold randomSecret. destruct (Accounts.read_full e 0 32) as [b|] eqn:Hb; [|done]. intros [= <-]. split.
  - by eapply free_alphabet; [apply EncodeToString64_alphabet|].
  - apply AccountsProps.read_full_length in Hb. intros E. pose proof (base64_roundtrip b) as Hr. rewrite E in Hr. injection Hr as <-. done.
Qed.

(** ** Login *)

Lemma Login_issued a es other r h cookie csrf expiry h' : Login a es other r h = (LoggedIn cookie csrf expiry, h') →
  ∃ h1 hash h2 h3, credentials a es other (FormValue r "username") (FormValue r "password") (FormValue r "totp") h1 = (true, hash, h2) ∧
    issue_session a es other (FormValue r "username") (clientIP r) hash h3 = (LoggedIn cookie csrf expiry, h') ∧ same_host h h1 ∧ same_host h2 h3.
Proof.
  unfold Login. destruct (negb (Enabled a)); [done|]. destruct (bool_decide _); [done|]. destruct (negb _); [done|]. cbv zeta.
  destruct (allow _ _ (loginLimiter h)) as [ok l]. destruct ok; [|done]. cbn [negb]. destruct (negb (formOK r)); [done|].
  destruct (allow _ _ _) as [ok l']. destruct ok; [|done]. cbn [negb]. set (h1 := _ <| loginAccountLimiter := _ |>).
  destruct (credentials _ _ _ _ _ _ _) as [[valid hash] h2] eqn:Hc. destruct valid; [|done]. cbn [negb]. intros Hi. by exists h1, hash, h2, (h2 <| loginLimiter := RateLimit.Release (clientIP r) <$> loginLimiter h2 |>
    <| loginAccountLimiter := RateLimit.Reset (loginAccountLimiterKey (clientIP r) (FormValue r "username")) <$> loginAccountLimiter h2 |>).
Qed.

(** How the second factor was met. *)
Inductive factor_met a (es : nat → Env) (u code : string) (secret : list ascii) : Prop :=
  | FCode h h' : consumeTOTPFor (es 5%nat) u secret code (ApiTokens.unix (es 5%nat) 0) h = (true, h') → factor_met a es u code secret
  | FRecovery d s p s1 d' s2 d2 : Accounts.start (Accounts.ConsumeRecoveryCode u code) (es 6%nat) d s = (inr p, s1) →
      Accounts.finish p (es 7%nat) d' s1 = (Ok true, s2, d2) → factor_met a es u code secret.

Lemma recovery_start u code e d s b s1 : Accounts.start (Accounts.ConsumeRecoveryCode u code) e d s = (inl (Ok b), s1) → b = false.
Proof.
  unfold Accounts.start, Accounts.ConsumeRecoveryCode. destruct (_ || _); [by intros [= <- _]|].
  destruct (Accounts.refreshFromDBLocked _ _ _) as [[err|] s2]; [done|]. destruct (Accounts.accounts s2 !! u) as [acc|]; [|by intros [= <- _]].
  destruct (Accounts.consume _ _); [done|by intros [= <- _]].
Qed.

Lemma second_factor_met a es other u code h h' : second_factor a es other u code h = (true, h') →
  ∃ h4, (totpFor a (es 4%nat, h4) u).2 = true → factor_met a es u code (totpFor a (es 4%nat, h4) u).1.
Proof.
  unfold second_factor. cbv zeta. set (h4 := other 4%nat h). intros Hs. exists h4. destruct (totpFor a (es 4%nat, h4) u) as [secret required]. cbn.
  intros ->. cbn [negb] in Hs. destruct (consumeTOTPFor _ _ _ _ _ _) as [b h5] eqn:Hc. destruct b; [by eapply FCode|].
  destruct (accounts (other 6%nat h5)) as [s|]; [|done]. destruct (Accounts.start _ _ _ _) as [[[b|]|p] s1] eqn:Hst; try done.
  - apply recovery_start in Hst. by subst.
  - set (h7 := other 7%nat _) in Hs. destruct (Accounts.finish p (es 7%nat) (accounts_db h7) s1) as [[[b|] s2] d2] eqn:Hf; [|done]. destruct b; [|done].
    by eapply FRecovery.
Qed.

(** Nobody logs in without every factor. When [Login] issues a session then, whatever
    other processes do between its reads, it has seen the account exist with a password
    hash that the given password matches, has then seen its tenant not suspended, has
    consumed a one-time or recovery code if it has then seen a second factor required,
    and has recorded the login before the session existed. *)
Theorem login_needs_every_factor a es other r h cookie csrf expiry h' : Login a es other r h = (LoggedIn cookie csrf expiry, h') →
  let u := FormValue r "username" in
  ∃ h2 h3 h4 hash, passwordHashFor a (es 2%nat, h2) u = (hash, true) ∧
    Accounts.bcrypt_compare (if bool_decide (hash = "") then PasswordHash a else hash) (FormValue r "password") = true ∧
    tenantSuspended (es 3%nat, h3) u = false ∧
    ((totpFor a (es 4%nat, h4) u).2 = true → factor_met a es u (FormValue r "totp") (totpFor a (es 4%nat, h4) u).1) ∧
    fault (es 8%nat) 0 = false.
Proof.
  intros (h1 & hash & h2 & h3 & Hc & Hi & _)%Login_issued u. apply issued in Hi as (Hf & _). fold u in Hc. unfold credentials in Hc. cbv zeta in Hc.
  destruct (passwordHashFor a (es 2%nat, other 2%nat h1) u) as [hash0 known] eqn:Hp.
  destruct (negb _) eqn:Hk in Hc; [done|]. apply negb_false_iff, andb_true_iff in Hk as [-> Hb].
  destruct (tenantSuspended _ u) eqn:Hs in Hc; [done|]. destruct (second_factor _ _ _ _ _ _) as [b h4] eqn:H2. injection Hc as -> <- <-.
  apply second_factor_met in H2 as [h4' H2]. by exists (other 2%nat h1), (other 3%nat (other 2%nat h1)), h4', hash0.
Qed.

Lemma passwordHashFor_same a e h h' u : same_host h h' → passwordHashFor a (e, h') u = passwordHashFor a (e, h) u.
Proof. intros (Ea & Ed & _). unfold passwordHashFor, get. cbn. by rewrite Ea, Ed. Qed.
Lemma generation_same a e h h' u : accounts h' = accounts h → accounts_db h' = accounts_db h → fingerprint_generation a (e, h') u = fingerprint_generation a (e, h) u.
Proof. intros Ea Ed. unfold fingerprint_generation, get. cbn. by rewrite Ea, Ed. Qed.
Lemma consume_sessions e u secret code now h : sessions (consumeTOTPFor e u secret code now h).2 = sessions h.
Proof.
  unfold consumeTOTPFor. destruct (_ || _); [done|]. destruct (negb _); [done|]. destruct (matching_counter _ _ _); [|done]. unfold consume_counter.
  destruct (totpReplay h); [done|by destruct (_ <=? _)|]. destruct (fault e 0); [done|]. by destruct (record_counter _ _ _).
Qed.
Lemma credentials_alone a es u pw code h b hash h' : credentials a es alone u pw code h = (b, hash, h') →
  hash = (if bool_decide ((passwordHashFor a (es 2%nat, h) u).1 = "") then PasswordHash a else (passwordHashFor a (es 2%nat, h) u).1) ∧
  (b = true → (passwordHashFor a (es 2%nat, h) u).2 = true) ∧ sessions h' = sessions h.
Proof.
  unfold credentials, alone. cbv zeta. destruct (passwordHashFor a (es 2%nat, h) u) as [hash0 known]. cbn [fst snd]. destruct known; cbn [andb]; [|by intros [= <- <- <-]]. destruct (negb _); [by intros [= <- <- <-]|].
  destruct (tenantSuspended _ u); [by intros [= <- <- <-]|]. destruct (second_factor _ _ _ _ _ _) as [b' h1] eqn:H2. intros [= _ <- <-]. split; [done|]. split; [done|].
  unfold second_factor in H2. cbv zeta in H2. destruct (totpFor a _ u) as [secret required]. destruct (negb required); [by injection H2 as _ <-|].
  pose proof (consume_sessions (es 5%nat) u secret code (ApiTokens.unix (es 5%nat) 0) h) as Hs. destruct (consumeTOTPFor _ _ _ _ _ _) as [c h2]. cbn [snd] in Hs.
  destruct c; [by injection H2 as _ <-|]. destruct (accounts h2) as [st|]; [|by injection H2 as _ <-].
  destruct (Accounts.start _ _ _ _) as [[r|p] s1]; [by injection H2 as _ <-|].
  destruct (Accounts.finish _ _ _ _) as [[r s2] d2]. by injection H2 as _ <-.
Qed.

(** A login works. The session a login issues is stored, and accepted under the name that
    logged in, with the CSRF token issued with it, for as long as its entry is in the
    table and has not expired, the tenant is not suspended and the credentials are those
    of the login. *)
Theorem login_session_works a es r h cookie csrf expiry h' r' : Login a es alone r h = (LoggedIn cookie csrf expiry, h') →
  let u := FormValue r "username" in free "|" u → 0 ≤ expiry ≤ maxInt64 → (passwordHashFor a (es 2%nat, h) u).1 ≠ "" →
  sessionCookie r' = Some cookie → ctxToken r' = None → ctxReplayed r' = None →
  (∀ reg st, sessions h = Some reg → Session.db reg = Some st →
     ∃ reg' st', sessions h' = Some reg' ∧ Session.db reg' = Some st' ∧ Session.sessions st' !! sessionID r' = Some (Session.mkEntry u expiry)) ∧
  ∀ ms, sessions (ms 0%nat).2 ≠ None → passwordHashFor a (ms 0%nat) u = passwordHashFor a (es 2%nat, h) u →
    fingerprint_generation a (ms 1%nat) u = fingerprint_generation a (es 10%nat, h') u → entry_live (ms 2%nat) (sessionID r') u expiry →
    tenantSuspended (ms 3%nat) u = false →
    checkValidSession a ms r' = Ok true ∧ UsernameForRequest a ms r' = u ∧ CSRFToken a r' = csrf.
Proof.
  intros HL u Hu He Hne Hck Hct Hcr. apply Login_issued in HL as (h1 & hash & h2 & h3 & Hc & Hi & Hs1 & Hs3).
  fold u in Hc, Hi. apply credentials_alone in Hc as (Hh & Hk & Hs2). rewrite (passwordHashFor_same a _ _ _ u Hs1), bool_decide_eq_false_2 in Hh by done.
  rewrite (passwordHashFor_same a _ _ _ u Hs1) in Hk. specialize (Hk eq_refl).
  apply issued in Hi as (_ & _ & id & h10 & Hr & -> & -> & Hadd & H10). unfold alone in Hadd. destruct (randomSecret_free _ _ Hr) as [Hid Hidne].
  assert (sessions h10 = sessions h) as Hreg.
  { rewrite H10. unfold alone. destruct Hs1 as (_ & _ & E1), Hs3 as (_ & _ & E3). destruct (record_keeps (es 8%nat) (mkEvent u "auth.login.succeeded" (clientIP r)) h3) as (_ & _ & E4). congruence. }
  assert (0 ≤ expiry < 10 ^ 20) as He' by (unfold maxInt64 in He; lia).
  pose proof (session_parts a r' u expiry id _ Hck Hu He' Hid (fingerprint_free _ _ _ _)) as Hp.
  assert (sessionID r' = id) as Hsid by (unfold sessionID; by rewrite Hp). rewrite Hsid. split.
  { intros reg st Hs Hd. rewrite Hreg, Hs in Hadd. destruct Hadd as (reg' & Ha & ->). destruct (Add_entry _ _ _ _ _ _ _ Ha Hd) as (st' & ? & ?). by exists reg', st'. }
  intros ms Hms Hpw Hgen Hlive Hsus.
  assert (fingerprint_generation a (es 10%nat, h') u = fingerprint_generation a (es 10%nat, h10) u) as Hge.
  { destruct (sessions h10); [destruct Hadd as (reg' & _ & ->)|subst h']; done. }
  assert (checkValidSession a ms r' = Ok true) as Hok.
  { unfold checkValidSession. rewrite Hp. destruct (sessions (ms 0%nat).2) as [reg0|]; [|done]. rewrite Hpw. destruct (passwordHashFor a (es 2%nat, h) u) as [hash' known]. cbn in Hk, Hh. subst known hash.
    rewrite !bool_decide_eq_true_2 by (done || (unfold credentialFingerprintFor; by rewrite Hgen, Hge)). cbn [negb orb]. rewrite ParseInt64_Itoa by done.
    destruct (entry_live_valid _ _ _ _ Hlive) as (reg & -> & ->). by rewrite Hsus. }
  split_and!; [done|by eapply session_name|]. unfold CSRFToken, sessionCSRFToken. rewrite Hp, ParseInt64_Itoa by done. done.
Qed.
End Sessions.

(** ** Generations *)
Section Generations.
Context `{AL : Accounts.AccountLib} `{A : Secretbox.AEAD} `{!AccountsProps.AccountLaws} `{!Secretbox.AEADLaws}.
Context (k : option (list ascii * Secretbox.Box)).
Import Accounts AccountsProps.

(** Requests that change the credentials of an account, and the one that removes it. *)
Definition rekeys (u : string) (q : AccountsProps.Request) : Prop :=
  match q with
  | QResetTOTP _ v | QGenerateRecoveryCodes _ v | QRecoverCredentials _ v | QSetPassword _ v _ | QSetTOTP v _ => v = u
  | _ => False
  end.
Definition removes (u : string) (l : Label) : Prop :=
  match l with Failed (QRemoveLogin v) | Done (QRemoveLogin v) => v = u | _ => False end.

Definition next_generation (a : HostingAccount) : Z := (SessionGeneration a + 1) mod 2 ^ 64.

Lemma request_generation q m u next a0 : writes (request q) m u next → m !! u = Some a0 →
  (next = None ∧ q = QRemoveLogin u ∨ ∃ n, next = Some n ∧ (SessionGeneration n = SessionGeneration a0 ∨ SessionGeneration n = next_generation a0)) ∧
  (∀ v, rekeys v q → v = u ∧ ∃ n, next = Some n ∧ SessionGeneration n = next_generation a0).
Proof.
  destruct q; intros Hwr%writes_forget Hau; unfold rekeys.
  - unfold SetSuspended in Hwr. revert Hwr. decided. split; [|done]. right. eexists. split; [done|]. by destruct (Bool.eqb _ _); [left|right].
  - unfold RemoveLogin in Hwr. revert Hwr. decided. split; [by left|done].
  - unfold Update in Hwr. revert Hwr. decided. destruct (negb _); [done|]. destruct (validateHostingAccount _ _); [done|].
    destruct (assigned_elsewhere _ _ _); [done|]. simplify_eq. split; [|done]. right. eexists. split; [done|]. by left.
  - unfold ensureSiteAssigned in Hwr. destruct (_ || _); [by apply writes_Early in Hwr|]. revert Hwr. decided.
    destruct (negb _); [done|]. destruct (Suspended _); [done|]. destruct (bool_decide _); [by destruct idempotent|].
    destruct (assigned_elsewhere _ _ _); [done|]. destruct (validateHostingAccount _ _); [done|]. simplify_eq. split; [|done]. right. eexists. split; [done|]. by left.
  - unfold UnassignSite in Hwr. destruct (_ || _); [by apply writes_Early in Hwr|]. revert Hwr. decided.
    destruct (negb _); [done|]. simplify_eq. split; [|done]. right. eexists. split; [done|]. by left.
  - unfold Create in Hwr. destruct (_ || _); [by apply writes_Early in Hwr|]. destruct (hashPassword _ _ _) as [h|]; [|by apply writes_Early in Hwr].
    destruct (validateHostingAccount _ _); [by apply writes_Early in Hwr|]. revert Hwr. decided.
    destruct (bool_decide _); [done|]. case_bool_decide as Hex; [done|]. destruct (existsb _ _); [done|]. simplify_eq. exfalso. apply Hex. by rewrite Hau.
  - unfold CreateMember in Hwr. destruct (_ || _); [by apply writes_Early in Hwr|]. destruct (_ || _); [by apply writes_Early in Hwr|].
    destruct (hashPassword _ _ _) as [h|]; [|by apply writes_Early in Hwr]. revert Hwr. decided. destruct (accounts s !! _); [|done].
    destruct (_ || _); [done|]. case_bool_decide as Hex; [done|]. destruct (validateHostingAccount _ _); [done|].
    destruct (bool_decide _); [done|]. simplify_eq. exfalso. apply Hex. by rewrite Hau.
  - apply UpdateMember_writes in Hwr as (a' & r & Ha & -> & _). rewrite Ha in Hau. simplify_eq. split; [|done]. right. eexists. split; [done|]. unfold member_next.
    destruct r, suspended as [su|]; try (by left); (destruct (Bool.eqb _ _); [by left|by right]).
  - unfold ListMembers in Hwr. destruct (bool_decide _); [by apply writes_Early in Hwr|]. by apply writes_Locked in Hwr as (s & b & _ & ?).
  - unfold ResetTOTP in Hwr. destruct (read_full e 0 20) as [tb|]; [|by apply writes_Early in Hwr]. revert Hwr. decided.
    split; [right; eexists; split; [done|by right]|]. intros v <-. eauto.
  - unfold GenerateRecoveryCodes in Hwr. destruct (recovery_codes e 0 10) as [[cs hs]|]; [|by apply writes_Early in Hwr]. revert Hwr. decided.
    split; [right; eexists; split; [done|by right]|]. intros v <-. eauto.
  - unfold ConsumeRecoveryCode in Hwr. destruct (_ || _); [by apply writes_Early in Hwr|]. revert Hwr. decided.
    destruct (accounts s !! username) as [a'|] eqn:Ha; [|done]. destruct (consume code _) as [hs|] eqn:Hc; [|done]. simplify_eq. split; [|done].
    right. eexists. split; [done|]. by left.
  - unfold RecoverCredentials in Hwr. destruct (read_full e 0 18) as [pb|]; [|by apply writes_Early in Hwr]. destruct (read_full e 1 20) as [tb|]; [|by apply writes_Early in Hwr].
    destruct (recovery_codes e 2 10) as [[cs hs]|]; [|by apply writes_Early in Hwr]. destruct (hashPassword _ _ _) as [h|]; [|by apply writes_Early in Hwr].
    revert Hwr. decided. split; [right; eexists; split; [done|by right]|]. intros v <-. eauto.
  - unfold SetPassword in Hwr. destruct (_ || _); [by apply writes_Early in Hwr|]. destruct (hashPassword _ _ _) as [h|]; [|by apply writes_Early in Hwr].
    revert Hwr. decided. split; [right; eexists; split; [done|by right]|]. intros v <-. eauto.
  - unfold SetTOTP in Hwr. destruct (decodeTOTPSecret secret) as [tb|]; [|by apply writes_Early in Hwr]. revert Hwr. decided.
    split; [right; eexists; split; [done|by right]|]. intros v <-. eauto.
Qed.

Lemma generation_range d u a0 : good k d → abs k d !! u = Some a0 → 0 ≤ SessionGeneration a0 < 2 ^ 64.
Proof. intros Hg Ha. destruct (good_abs k d u a0 Hg Ha) as [_ Hw]. apply (tx_generation a0 (wf_texts a0 Hw)). Qed.

Lemma finish_generation w i s q p e r s' d' u a0 : inv k w → procs w !! i = Some (mkProc s (Some (q, p))) → finish p e (db w) s = (r, s', d') →
  q ≠ QRemoveLogin u → abs k (db w) !! u = Some a0 → SessionGeneration a0 + 1 < 2 ^ 64 →
  ∃ n, abs k d' !! u = Some n ∧ SessionGeneration a0 ≤ SessionGeneration n ≤ SessionGeneration a0 + 1.
Proof.
  intros Hi Hp Hf Hq Ha Hb. pose proof (i_holds k w Hi _ _ _ _ Hp) as Hh. pose proof (generation_range _ _ _ (i_good k w Hi) Ha) as Hr.
  destruct (finish_spec k q p e (db w) s _ s' d' (i_good k w Hi) Hh Hf) as (_ & _ & Hcase).
  destruct Hcase as [[-> _]|[Hbe Haf _]]; [exists a0; split; [done|lia]|]. destruct Hh as [d0 Hg0 Hsn Hprev Hwr _].
  rewrite Haf. destruct (decide (p_username p = u)) as [<-|Hne].
  - rewrite lookup_partial_alter_eq. destruct (request_generation _ _ _ _ a0 Hwr) as [[[_ ?]|(n & -> & Hn)] _]; [congruence|done|].
    exists n. split; [done|]. unfold next_generation in Hn. rewrite Z.mod_small in Hn by lia. lia.
  - rewrite lookup_partial_alter_ne by done. exists a0. split; [done|lia].
Qed.

Lemma step_generation w l w' u a0 : inv k w → step k w l w' → ¬ removes u l → abs k (db w) !! u = Some a0 → SessionGeneration a0 + 1 < 2 ^ 64 →
  ∃ n, abs k (db w') !! u = Some n ∧ SessionGeneration a0 ≤ SessionGeneration n ≤ SessionGeneration a0 + 1.
Proof.
  intros Hi Hst Hre Ha Hb. destruct Hst; try (exists a0; split; [done|lia]); (eapply finish_generation; [done..| |done|done]);
    intros ->; by apply Hre.
Qed.

Lemma trace_generation w ls w' u a0 : inv k w → trace k w ls w' → Forall (λ l, ¬ removes u l) ls → abs k (db w) !! u = Some a0 →
  SessionGeneration a0 + Z.of_nat (length ls) < 2 ^ 64 → inv k w' ∧ ∃ n, abs k (db w') !! u = Some n ∧ SessionGeneration a0 ≤ SessionGeneration n < 2 ^ 64.
Proof.
  intros Hi Ht. revert a0. induction Ht as [w|w l w1 ls w2 Hst _ IH]; intros a0 Hls Ha Hb.
  - split; [done|]. exists a0. split; [done|]. pose proof (generation_range _ _ _ (i_good k w Hi) Ha). lia.
  - apply Forall_cons in Hls as [Hl Hls]. cbn in Hb. destruct (step_generation w l w1 u a0 Hi Hst Hl Ha ltac:(lia)) as (n & Hn & Hle).
    destruct (IH (accounts_inv_step k _ _ _ Hi Hst) n Hls Hn ltac:(lia)) as (Hi2 & n2 & Hn2 & Hle2). split; [done|]. exists n2. split; [done|lia].
Qed.

(** A change of credentials that is reported as done has raised the generation. *)
Lemma rekey_generation w q w' u a0 : inv k w → step k w (Done q) w' → rekeys u q → abs k (db w) !! u = Some a0 →
  ∃ n, abs k (db w') !! u = Some n ∧ SessionGeneration n = next_generation a0.
Proof.
  intros Hi Hst Hre Ha. inversion Hst as [| | |i s q' p e s' d' Hp Hf| | |]; subst. cbn. pose proof (i_holds k w Hi _ _ _ _ Hp) as Hh.
  destruct (finish_spec k q p e (db w) s _ s' d' (i_good k w Hi) Hh Hf) as (_ & _ & Hcase). destruct Hh as [d0 Hg0 Hsn Hprev Hwr Hok].
  assert (p_username p = u ∧ is_Some (abs k d0 !! u)) as [Hu [x Hx]].
  { clear -Hwr Hre. destruct q; try done; cbn in Hre; subst; apply writes_forget in Hwr;
      unfold ResetTOTP, GenerateRecoveryCodes, RecoverCredentials, SetPassword, SetTOTP in Hwr;
      repeat match type of Hwr with
        | writes (match ?x with _ => _ end) _ _ _ =>
            destruct x as [?y ?y] || (destruct x; [solve [by apply writes_Early in Hwr]|]) || (destruct x as [?y|?y]; [|solve [by apply writes_Early in Hwr]])
        end; revert Hwr; decided; eauto. }
  subst u. destruct (request_generation _ _ _ _ x Hwr Hx) as [_ Hk]. destruct (Hk _ Hre) as (_ & n & Hn & Hgen).
  destruct Hcase as [[-> Hsame]|[Hb Haf _]].
  - exfalso. specialize (Hsame tt eq_refl). rewrite Hprev, Hx, Hn in Hsame. injection Hsame as ->. unfold next_generation in Hgen.
    pose proof (generation_range _ _ _ Hg0 Hx). destruct (decide (SessionGeneration x + 1 = 2 ^ 64)) as [E|E]; [rewrite E, Z_mod_same_full in Hgen|rewrite Z.mod_small in Hgen]; lia.
  - rewrite Haf, lookup_partial_alter_eq. exists n. split; [done|]. rewrite Hprev, Hx, Ha in Hb. by injection Hb as ->.
Qed.

(** ** What [Get] reads *)

Definition mfa (a : HostingAccount) : HostingAccount := a <| MFAConfigured := MFAConfigured a || negb (bool_decide (TOTPSecret a = "")) |>.
Lemma fill_eq a : fill a = mkAccount (Username a) (if bool_decide (TenantID a = "") then Username a else TenantID a) (if bool_decide (Role a = "") then "owner" else Role a)
  (PasswordHash a) (TOTPSecret a) (TOTPEncrypted a) (RecoveryCodeHashes a) (SessionGeneration a) (PasswordResetRequired a) (MFAEnrollmentRequired a)
  (MFAConfigured a) (Plan a) (Sites a) (Suspended a) (CreatedAt a).
Proof. destruct a. unfold fill. cbn. repeat (case_bool_decide; cbn in *); done. Qed.
Lemma fill_fields a : TOTPEncrypted (fill a) = TOTPEncrypted a ∧ Username (fill a) = Username a ∧ TOTPSecret (fill a) = TOTPSecret a.
Proof. by rewrite fill_eq. Qed.

Lemma probe_bound u v r b : openTOTP (probe k) u v = Ok (r, b) → b = false.
Proof.
  unfold openTOTP. cbn [probe keys legacyTOTP empty_store negb]. destruct k as [[ky box]|]; [|done]. destruct (strip_prefix (bytes_of accountTOTPPrefix) (bytes_of v)); [|done].
  destruct (DecodeString32 _); [|done]. destruct (Secretbox.Open _ _ _); [|done]. by intros [= _ <-].
Qed.
Lemma Get_good e u d s : good k d → keys s = k → Get e u d s = if fault e 0 then None else mfa <$> abs k d !! u.
Proof.
  intros Hg Hk. unfold Get, abs. destruct (fault e 0); [done|]. rewrite lookup_omap. destruct (t_accounts d !! u) as [p|] eqn:Hp; [|done]. cbn.
  destruct (g_rows k d Hg u p Hp) as (x & Hd & Hu & Hw). rewrite Hd. unfold decode in Hd. destruct (json_unmarshal p) as [a|]; [|done].
  destruct (open_account (probe k) a) as [[y b]|] eqn:Ho; [|done]. injection Hd as <-. destruct (fill_fields a) as (F1 & F2 & F3). destruct (fill_fields y) as (_ & F4 & _).
  assert (Username y = Username a) as Eu.
  { unfold open_account in Ho. destruct (TOTPEncrypted a); [|by injection Ho as <-]. destruct (openTOTP _ _ _) as [[]|]; [|done]. by injection Ho as <-. }
  rewrite bool_decide_eq_true_2 by congruence. cbn [negb]. unfold open_account in Ho |- *. rewrite F1, F2, F3. destruct (TOTPEncrypted a).
  - destruct (openTOTP (probe k) _ _) as [[plain b0]|] eqn:Hot; [|done]. injection Ho as <- <-.
    pose proof (probe_bound _ _ _ _ Hot) as ->.
    rewrite (openTOTP_keys (probe k) s _ _ (eq_sym Hk) _ _ Hot eq_refl).  by rewrite !fill_eq.
  - injection Ho as <- <-. done.
Qed.
End Generations.

(** ** The end of a session *)
Section Ends.
Context `{AuthLib} `{AL : Accounts.AccountLib} `{A : Secretbox.AEAD} `{!AccountsProps.AccountLaws} `{!Secretbox.AEADLaws}.
Context (k : option (list ascii * Secretbox.Box)).
Implicit Type a : Auth.

(** A moment at which the tables are as the account operations have left them. *)
Definition tenancy (m : Moment) (w : AccountsProps.World) : Prop :=
  AccountsProps.db w = accounts_db m.2 ∧ ∃ s, accounts m.2 = Some s ∧ Accounts.keys s = k.

Lemma get_tenancy m w u : AccountsProps.inv k w → tenancy m w → get m u = if fault m.1 0 then None else mfa <$> AccountsProps.abs k (AccountsProps.db w) !! u.
Proof. intros Hi (Hd & s & Hs & Hk). unfold get. rewrite Hs, <- Hd. apply Get_good; [apply Hi|done]. Qed.

Lemma app_nul_inj (x y d1 d2 : list ascii) c : x ++ c :: d1 = y ++ c :: d2 → c ∉ d1 → c ∉ d2 → d1 = d2.
Proof.
  revert y. induction x as [|z x IH]; intros [|z' y] E Hd1 Hd2; cbn in E.
  - by injection E.
  - injection E as _ E. exfalso. apply Hd1. rewrite E. set_solver.
  - injection E as _ E. exfalso. apply Hd2. rewrite <- E. set_solver.
  - injection E as _ E. by eapply IH.
Qed.
Lemma Itoa_inj n m : 0 ≤ n < 10 ^ 20 → 0 ≤ m < 10 ^ 20 → Itoa n = Itoa m → n = m.
Proof. intros Hn Hm E. destruct (Itoa_digits n Hn) as (_ & _ & <-), (Itoa_digits m Hm) as (_ & _ & <-). by rewrite E. Qed.

(** No other text has the code of this one; 16 bytes of it already tell. *)
Definition unshared a (text : string) : Prop := ∀ text', take 16 (hmac_sha256 (bytes_of (Secret a)) (bytes_of text')) = take 16 (hmac_sha256 (bytes_of (Secret a)) (bytes_of text)) → text' = text.

Lemma fingerprint_generation_inj a u key g u' key' g' : unshared a (fingerprint_text u key g) → 0 ≤ g < 2 ^ 64 → 0 ≤ g' < 2 ^ 64 →
  fingerprint a u key g = fingerprint a u' key' g' → g = g'.
Proof.
  intros Hun Hg Hg' E. apply hex_inj, eq_sym, Hun, eq_sym in E. apply (f_equal bytes_of) in E. unfold fingerprint_text in E. rewrite !bytes_of_app in E. change (bytes_of nul) with [chr 0] in E.
  apply Itoa_inj; [lia..|]. rewrite <- (of_bytes_of (Itoa g)), <- (of_bytes_of (Itoa g')). f_equal.
  eapply (app_nul_inj (bytes_of "stepanel/credential-fingerprint/v1" ++ chr 0 :: bytes_of u ++ chr 0 :: bytes_of key)
                      (bytes_of "stepanel/credential-fingerprint/v1" ++ chr 0 :: bytes_of u' ++ chr 0 :: bytes_of key') _ _ (chr 0)).
  - rewrite <- !app_assoc. cbn [app]. rewrite <- !app_assoc. cbn [app]. exact E.
  - apply Itoa_free. lia.
  - apply Itoa_free. lia.
Qed.

(** C14: Changed credentials end the sessions. Once a request that changes the password,
    the authenticator or the recovery codes of a customer's account is reported as done,
    no session cookie of that account with a fingerprint of the generation before the
    change or of any earlier one, and of whatever password hash, is accepted again,
    however the accounts change afterwards by any process. Assumed are: the account is
    not removed; the generation, a 64-bit counter, does not wrap around; no other text
    has the same fingerprint; and the read of the account for the fingerprint succeeds,
    which only a cookie of generation 0 needs, because a failed read counts as
    generation 0. *)
Theorem credential_change_ends_sessions a w1 q w2 ls w3 u acc hash g expiry id ms r : AccountsProps.reachable k w1 →
  AccountsProps.abs k (AccountsProps.db w1) !! u = Some acc → AccountsProps.step k w1 (AccountsProps.Done q) w2 → rekeys u q →
  AccountsProps.trace k w2 ls w3 → Forall (λ l, ¬ removes u l) ls → Accounts.SessionGeneration acc + 1 + Z.of_nat (length ls) < 2 ^ 64 →
  u ≠ Username a → free "|" u → free "|" id → 0 ≤ expiry < 10 ^ 20 → 0 ≤ g ≤ Accounts.SessionGeneration acc →
  unshared a (fingerprint_text u hash g) → sessionCookie r = Some (session_token a u expiry id (fingerprint a u hash g)) →
  sessions (ms 0%nat).2 ≠ None → tenancy (ms 1%nat) w3 → g ≠ 0 ∨ fault (ms 1%nat).1 0 = false →
  checkValidSession a ms r ≠ Ok true.
Proof.
  intros Hre%AccountsProps.accounts_inv Ha Hst Hq Ht Hls Hb Hu Hfu Hid He Hg Hun Hck Hreg Hten Hf Hok.
  pose proof (generation_range _ _ _ _ (AccountsProps.i_good k w1 Hre) Ha) as Hr0.
  destruct (rekey_generation k w1 q w2 u acc Hre Hst Hq Ha) as (acc1 & Ha1 & Hg1). unfold next_generation in Hg1. rewrite Z.mod_small in Hg1 by lia.
  destruct (trace_generation k w2 ls w3 u acc1 (AccountsProps.accounts_inv_step k _ _ _ Hre Hst) Ht Hls Ha1 ltac:(lia)) as (Hi3 & acc3 & Ha3 & Hg3).
  apply accepted_session in Hok as (u' & exp & id' & ex & reg & Hp & _); [|done]. cbv zeta in Hp.
  rewrite (session_parts a r u expiry id _ Hck Hfu He Hid (fingerprint_free _ _ _ _)) in Hp. injection Hp as <- _ _ Hfp _.
  unfold credentialFingerprintFor in Hfp.
  assert (fingerprint_generation a (ms 1%nat) u = if fault (ms 1%nat).1 0 then 0 else Accounts.SessionGeneration acc3) as Hgen.
  { unfold fingerprint_generation. rewrite bool_decide_eq_false_2 by done. rewrite (get_tenancy _ _ _ Hi3 Hten), Ha3. by destruct (fault _ _). }
  apply fingerprint_generation_inj in Hfp; [|done|lia|rewrite Hgen; destruct (fault _ _); lia].
  rewrite Hgen in Hfp. destruct (fault (ms 1%nat).1 0); destruct Hf as [Hf|Hf]; try done; lia.
Qed.

(** ** Sites belong to their tenant *)

Lemma mfa_fields x : Accounts.Suspended (mfa x) = Accounts.Suspended x ∧ Accounts.accountTenantID (mfa x) = Accounts.accountTenantID x ∧
  Accounts.accountRole (mfa x) = Accounts.accountRole x ∧ Accounts.Username (mfa x) = Accounts.Username x.
Proof. by destruct x. Qed.

(** The account that owns the tenant of another. *)
Definition tenant_live (w : AccountsProps.World) (acc : Accounts.HostingAccount) : Prop :=
  Accounts.Suspended acc = false ∧ ∀ o, AccountsProps.abs k (AccountsProps.db w) !! Accounts.accountTenantID acc = Some o → Accounts.Suspended o = false.
Lemma suspended_tenancy m w u : AccountsProps.inv k w → tenancy m w → (∀ i, fault m.1 i = false) →
  tenantSuspended m u = false ↔ ∀ acc, AccountsProps.abs k (AccountsProps.db w) !! u = Some acc → tenant_live w acc.
Proof.
  intros Hi Ht Hf. pose proof Ht as (Hd & s & Hs & Hk). unfold tenantSuspended. rewrite Hs, <- Hd. unfold Accounts.TenantSuspended.
  rewrite !(Get_good k _ _ _ _ (AccountsProps.i_good k w Hi) Hk), Hf. destruct (AccountsProps.abs k (AccountsProps.db w) !! u) as [acc|] eqn:Ha; cbn [fmap option_fmap option_map]; [|split; [done|done]].
  destruct (mfa_fields acc) as (-> & -> & _). unfold tenant_live. rewrite (Get_good k _ _ _ _ (AccountsProps.i_good k w Hi) Hk).
  cbn [fault Accounts.later]. rewrite Hf. destruct (Accounts.Suspended acc) eqn:Hsu.
  - split; [done|]. intros Hall. destruct (Hall acc eq_refl) as [? _]. congruence.
  - destruct (AccountsProps.abs k (AccountsProps.db w) !! Accounts.accountTenantID acc) as [o|] eqn:Ho; cbn [fmap option_fmap option_map].
    + destruct (mfa_fields o) as (-> & _). split; [intros E ? [= <-]; split; [done|]; intros o'; rewrite Ho; by intros [= <-]|]. intros Hall. by apply (Hall acc eq_refl).
    + split; [|done]. intros _ ? [= <-]. split; [done|]. by rewrite Ho.
Qed.

(** The account named [u] belongs to the tenant that the site is assigned to. *)
Definition tenant_of (w : AccountsProps.World) (u site : string) (acc owner : Accounts.HostingAccount) : Prop :=
  AccountsProps.abs k (AccountsProps.db w) !! u = Some acc ∧ AccountsProps.abs k (AccountsProps.db w) !! Accounts.TenantID acc = Some owner ∧ site ∈ Accounts.sites owner.
Lemma owns_tenancy m w u site : AccountsProps.inv k w → tenancy m w →
  ownsSite m u site = true ↔ fault m.1 0 = false ∧ fault m.1 1 = false ∧ ∃ acc owner, tenant_of w u site acc owner.
Proof.
  intros Hi (Hd & s & Hs & Hk). unfold ownsSite. rewrite Hs, <- Hd. unfold Accounts.OwnsSite. rewrite (Get_good k _ _ _ _ (AccountsProps.i_good k w Hi) Hk).
  destruct (fault m.1 0); [naive_solver|]. unfold tenant_of. destruct (AccountsProps.abs k (AccountsProps.db w) !! u) as [acc|] eqn:Ha; cbn [fmap option_fmap option_map]; [|naive_solver].
  destruct (AccountsProps.good_abs k _ _ _ (AccountsProps.i_good k w Hi) Ha) as [_ Hw]. destruct (mfa_fields acc) as (_ & -> & _).
  rewrite (AccountsProps.wf_tenant acc Hw). destruct (fault m.1 1); [naive_solver|]. rewrite bool_decide_eq_true, (AccountsProps.g_sites k _ (AccountsProps.i_good k w Hi)). naive_solver.
Qed.

(** C12: Tenant isolation. A request that is not the administrator's is given access to a
    site only when the account it was authenticated as belongs to the tenant that the
    site is assigned to at the moment of the check; the tenant handed to the root broker
    with it is the owner in the table at the moment of the second read. *)
Theorem tenant_isolation a ms r s access w w' : AccountsProps.reachable k w → tenancy (ms 8%nat) w → AccountsProps.reachable k w' → tenancy (ms 9%nat) w' →
  IsAdministrator a ms r = false → authorizeSite a ms r s = Some access →
  site access = s ∧ (∃ acc owner, tenant_of w (UsernameForRequest a (λ i, ms (4 + i)%nat) r) s acc owner) ∧
  (tenantID access ≠ "" → ∃ owner, AccountsProps.abs k (AccountsProps.db w') !! tenantID access = Some owner ∧ s ∈ Accounts.sites owner).
Proof.
  intros Hi%AccountsProps.accounts_inv Ht Hi'%AccountsProps.accounts_inv Ht' Hadm. unfold authorizeSite, canAccessSite. rewrite Hadm. cbn [orb].
  destruct (ownsSite _ _ _) eqn:Ho; [|done]. apply (owns_tenancy _ w) in Ho as (_ & _ & Hof); [|done|done]. cbn [negb].
  pose proof Ht' as (Hd & st & Hs & _). rewrite Hs. unfold Accounts.OwnerOfSiteWithError. destruct (fault _ 0); [done|]. rewrite <- Hd.
  destruct (Accounts.tenant_sites (AccountsProps.db w') !! s) as [owner|] eqn:Hts; intros [= <-]; (split_and!; [done|done|]); cbn; [|done].
  intros _. by apply (AccountsProps.g_sites k _ (AccountsProps.i_good k w' Hi')) in Hts.
Qed.

(** A queued job runs for the tenant that still owns its site, and only for it: for an
    actor other than the administrator the check at execution accepts exactly when the
    account exists, neither it nor its tenant is suspended, and the site is assigned to
    that tenant. *)
Theorem durable_job_authorization_exact a m s who w : AccountsProps.reachable k w → tenancy m w → (∀ i, fault m.1 i = false) →
  Names.safeUser s ≠ "" → TrimSpace who ≠ "" → who ≠ Username a →
  authorizeDurableSiteJob a (λ _, m) s who false = Ok s ↔
  ∃ acc owner, tenant_of w who s acc owner ∧ Accounts.Suspended acc = false ∧ Accounts.Suspended owner = false.
Proof.
  intros Hi%AccountsProps.accounts_inv Ht Hf Hs Hw Ha. unfold authorizeDurableSiteJob. rewrite !bool_decide_eq_false_2 by done. cbn [orb].
  pose proof Ht as (Hd & st & Hst & Hk). rewrite Hst. rewrite (get_tenancy m w who Hi Ht), Hf.
  pose proof (suspended_tenancy m w who Hi Ht Hf) as Hsu. pose proof (owns_tenancy m w who s Hi Ht) as How.
  destruct (AccountsProps.abs k (AccountsProps.db w) !! who) as [acc|] eqn:Hacc; cbn [fmap option_fmap option_map].
  2:{ split; [done|]. intros (acc & owner & (? & _) & _). congruence. }
  destruct (AccountsProps.good_abs k _ _ _ (AccountsProps.i_good k w Hi) Hacc) as [_ Hwf]. split.
  - destruct (tenantSuspended m who); [done|]. destruct (ownsSite m who s); [|done]. intros _. apply proj1 in Hsu, How.
    destruct (How eq_refl) as (_ & _ & acc' & owner & Hten). exists acc', owner. pose proof Hten as (Ha' & Ho & _). assert (acc' = acc) as -> by congruence.
    destruct (Hsu eq_refl _ eq_refl) as [Hs1 Hs2]. split_and!; [done|done|]. apply Hs2. by rewrite AccountsProps.wf_tenant.
  - intros (acc' & owner & Hten & Hs1 & Hs2). pose proof Hten as (Ha' & Ho & _). assert (acc' = acc) as -> by congruence.
    rewrite (proj2 Hsu). 2:{ intros ? [= <-]. split; [done|]. intros o. rewrite AccountsProps.wf_tenant by done. congruence. }
    rewrite (proj2 How) by (split_and!; [done|done|eauto]). done.
Qed.

(** ** Scopes *)

Lemma viewer_reads scope : roleAllowsCustomerScope "viewer" scope = true → has_suffix scope ":read" = true.
Proof.
  unfold roleAllowsCustomerScope. change (ToLower (TrimSpace "viewer")) with "viewer". rewrite !bool_decide_eq_false_2 by (set_solver || done).
  rewrite bool_decide_eq_true_2 by done. rewrite bool_decide_eq_true. intros Hs. unfold viewer_scopes in Hs. set_unfold in Hs.
  repeat destruct Hs as [->|Hs]; try done; by vm_compute.
Qed.

(** A token never does more than it lists, nor more than its account may. When a request
    of a token passes the check of a scope, the token lists the scope, or its equivalent,
    or is one of the unscoped tokens of the migration window; and the role its account
    has at the moment allows the scope, with neither the account nor its tenant suspended.
    In particular a token of a viewer only reads, whatever it was issued with. *)
Theorem token_scope_bounded a ms r t scope w w' acc : AccountsProps.reachable k w → tenancy (ms 8%nat) w → AccountsProps.reachable k w' → tenancy (ms 9%nat) w' →
  fault (ms 8%nat).1 0 = false → (∀ i, fault (ms 9%nat).1 i = false) → ctxToken r = Some t →
  AccountsProps.abs k (AccountsProps.db w) !! ApiTokens.Username t = Some acc → HasRequiredCustomerScope a ms r scope = true →
  (ApiTokens.t_Scopes t = [] ∨ ∃ c, c ∈ ApiTokens.t_Scopes t ∧ covers c scope = true) ∧
  roleAllowsCustomerScope (Accounts.accountRole acc) scope = true ∧
  (∀ acc', AccountsProps.abs k (AccountsProps.db w') !! ApiTokens.Username t = Some acc' → tenant_live w' acc') ∧
  (Accounts.accountRole acc = "viewer" → has_suffix scope ":read" = true).
Proof.
  intros Hi%AccountsProps.accounts_inv Ht Hi'%AccountsProps.accounts_inv Ht' Hf Hf' Hr Hacc. unfold HasRequiredCustomerScope. rewrite Hr.
  pose proof Ht as (_ & s & Hs & _). rewrite Hs, (get_tenancy _ w _ Hi Ht), Hf, Hacc. cbn [fmap option_fmap option_map].
  destruct (mfa_fields acc) as (_ & _ & -> & ->). destruct (AccountsProps.good_abs k _ _ _ (AccountsProps.i_good k w Hi) Hacc) as [-> _].
  destruct (tenantSuspended _ _) eqn:Hsu; [done|]. cbn [orb]. destruct (roleAllowsCustomerScope _ scope) eqn:Hrole; [|done]. cbn [negb].
  intros Hl. split_and!.
  - apply orb_true_iff in Hl as [Hl%bool_decide_eq_true|Hl]; [by left|right]. apply existsb_exists in Hl as (c & Hc & ?). exists c. by rewrite list_elem_of_In.
  - done.
  - by apply (suspended_tenancy _ w' _ Hi' Ht' Hf').
  - intros E. rewrite E in Hrole. by apply viewer_reads.
Qed.

(** ** CSRF tokens *)

(** What identifies the session of a request, and the token it presents. *)
Definition csrf_identity (r : Request) : option string :=
  match cookie_parts r with Some [_; _; id; _; _] => Some id | Some [user; exp; _] => Some (user +:+ "|" +:+ exp) | _ => None end.
Definition presented (r : Request) : string := if bool_decide (csrfHeader r = "") then FormValue r "csrf" else csrfHeader r.

Lemma sign_inj a v v' : unshared a v → sign a v = sign a v' → v' = v.
Proof. intros Hun E%hex_inj. apply Hun. by rewrite E. Qed.
Lemma csrf_accepted a r : Enabled a = true → ctxToken r = None → ctxReplayed r = None → CSRF a r = true →
  ∃ id, csrf_identity r = Some id ∧ id ≠ "" ∧ presented r = sign a ("csrf" +:+ nul +:+ id).
Proof.
  intros He Ht Hr. unfold CSRF. rewrite He, Ht, Hr. cbn [negb]. case_bool_decide as Hne; [done|]. intros Hc.
  assert (CSRFToken a r = presented r) as Hp.
  { unfold presented. case_bool_decide; cbn [negb] in Hc; [|by apply bool_decide_eq_true in Hc]. destruct (has_prefix _ _); [done|]. by apply bool_decide_eq_true in Hc. }
  rewrite <- Hp. clear Hc Hp. unfold CSRFToken, sessionCSRFToken, csrf_identity in *. destruct (cookie_parts r) as [parts|]; [|done].
  destruct parts as [|x1 [|x2 [|x3 [|x4 [|x5 [|? ?]]]]]]; try done; destruct (ParseInt64 x2); try done; cbn [fst] in *;
    unfold csrfTokenFor in *; case_bool_decide; try done; eauto.
Qed.

(** A CSRF token belongs to one session. Two browser requests that are both accepted with
    the same token carry the cookie of the same session, unless another text has the
    same HMAC: a token obtained with one session is of no use with the cookie of another. *)
Theorem csrf_bound_to_session a r r' : Enabled a = true → ctxToken r = None → ctxReplayed r = None → ctxToken r' = None → ctxReplayed r' = None →
  (∀ id, csrf_identity r = Some id → unshared a ("csrf" +:+ nul +:+ id)) → CSRF a r = true → CSRF a r' = true → presented r = presented r' → csrf_identity r = csrf_identity r' ∧ is_Some (csrf_identity r).
Proof.
  intros He T1 R1 T2 R2 Hun (id & Hid & _ & Hp)%csrf_accepted (id' & Hid' & _ & Hp')%csrf_accepted E; try done. rewrite Hp, Hp' in E.
  apply sign_inj in E; [|by apply Hun]. rewrite Hid, Hid'. assert (id' = id) as ->; [|done]. cbn in E. by injection E.
Qed.

End Ends.

(** ** Served requests *)
Section Served.
Context `{AuthLib} `{AL : Accounts.AccountLib} `{A : Secretbox.AEAD} `{!AccountsProps.AccountLaws} `{!Secretbox.AEADLaws} `{ApiTokens.TokenLib}.
Context (k : option (list ascii * Secretbox.Box)).

Lemma cutoff_keeps e er ea h : same_host h (enforceLegacyTokenCutoff e er ea h).2.
Proof.
  unfold enforceLegacyTokenCutoff. destruct (legacyTokenDeprecation h); [|done]. destruct (apiTokens h) as [d|]; [|done]. destruct (negb _); [done|].
  destruct (ApiTokens.revokeLegacyUnscoped er d) as [[n|] d']; [|done]. cbn zeta. destruct (0 <? n)%nat; [|done]. cbn [snd].
  destruct (record_keeps ea (mkEvent "system" "auth.api_token.legacy_revoked" "legacy-tokens") (h <| apiTokens := Some d' |>)) as (E1 & E2 & E3). done.
Qed.
Lemma legacy_keeps e er ea v b h : same_host h (legacyTokenAllowed e er ea v b h).2.
Proof.
  unfold legacyTokenAllowed. destruct (legacyTokenDeprecation h); [|done]. destruct (apiTokens h) as [d|]; [|done].
  destruct (ApiTokens.IsLegacyTokenExpired _ _ _ _) as [[]|]; [apply cutoff_keeps| |done]. destruct (negb b); [done|].
  by destruct (ApiTokens.MarkLegacyTokenDeprecated _ _ _ _) as [[] d'].
Qed.

(** Who a served request acts for: the administrator, or an account that is live. *)
Definition acts_as (r : Request) : string :=
  match ctxToken r with Some t => ApiTokens.Username t | None => match cookie_parts r with Some (u :: _) => u | _ => "" end end.
Definition live_user (a : Auth) (w : AccountsProps.World) (u : string) : Prop :=
  u = Username a ∨ ∃ acc, AccountsProps.abs k (AccountsProps.db w) !! u = Some acc ∧ tenant_live k w acc.

Lemma tenancy_same e e' h h' w : same_host h h' → tenancy k (e, h) w → tenancy k (e', h') w.
Proof. unfold same_host, tenancy. cbn. by intros (-> & -> & _). Qed.
Lemma token_live a es limited r h t h' w : AccountsProps.inv k w → tenancy k (es 0%nat, h) w → (∀ i j, fault (es i) j = false) →
  validAPIToken a es limited r h = (t, h') → same_host h h' ∧ ∀ x, t = Some x → live_user a w (ApiTokens.Username x).
Proof.
  intros Hi Ht Hf. unfold validAPIToken. destruct (bearer r) as [v|]; [|by intros [= <- <-]]. destruct (apiTokens h) as [d|]; [|by intros [= <- <-]].
  destruct (ApiTokens.authenticateToken _ _ _) as [x|]; [|by intros [= <- <-]]. destruct limited; [by intros [= <- <-]|].
  set (lg := if ApiTokens.legacyUnscoped x then _ else _). assert (same_host h lg.2) as Hsame by (unfold lg; destruct (ApiTokens.legacyUnscoped x); [apply legacy_keeps|done]).
  destruct lg as [allowed h1]. cbn [snd] in Hsame. destruct allowed; [|by intros [= <- <-]]. cbn [negb]. case_bool_decide as Hu.
  { intros [= <- <-]. split; [done|]. intros ? [= <-]. by left. }
  pose proof (tenancy_same _ (es 4%nat) _ _ _ Hsame Ht) as H4. pose proof (tenancy_same _ (es 5%nat) _ _ _ Hsame Ht) as H5.
  destruct (get _ _) as [acc|] eqn:Hg; [|by intros [= <- <-]]. destruct (tenantSuspended _ _) eqn:Hs; intros [= <- <-]; (split; [done|]); [done|].
  intros ? [= <-]. rewrite (get_tenancy k _ w _ Hi H4) in Hg. cbn [fst] in Hg. rewrite Hf in Hg. destruct (AccountsProps.abs k (AccountsProps.db w) !! _) as [y|] eqn:Hy; [|done].
  right. exists y. split; [done|]. by apply (proj1 (suspended_tenancy k _ w _ Hi H5 (Hf 5%nat)) Hs).
Qed.

(** C13: Nobody who is suspended is served. With authentication enabled and the reads of the
    database succeeding, a request that [Require] passes on acts for the administrator,
    or for an account that exists and, like the owner of its tenant, is not suspended;
    this holds for sessions and for API tokens alike. *)
Theorem served_requests_are_live a es limited r h r' c h' w : AccountsProps.reachable k w → tenancy k (es 0%nat, h) w → (∀ i j, fault (es i) j = false) →
  Enabled a = true → sessions h ≠ None → ctxToken r = None → Require a es limited r h = (Next r' c, h') → live_user a w (acts_as r').
Proof.
  intros Hi%AccountsProps.accounts_inv Ht Hf He Hreg Hctx. unfold Require. rewrite He. cbn [negb].
  destruct (validAPIToken a es limited r h) as [t h1] eqn:Hv. destruct (token_live _ _ _ _ _ _ _ _ Hi Ht Hf Hv) as [Hsame Hlive].
  destruct t as [x|].
  - intros Hn. enough (r' = r <| ctxToken := Some x |>) as -> by (by apply Hlive).
    destruct (safe_method _); [by injection Hn|]. unfold record in Hn. rewrite Hf in Hn. by injection Hn.
  - destruct (has_prefix _ _); [done|]. destruct (checkValidSession a (λ i, (es (6 + i)%nat, h1)) r) as [[]|] eqn:Hc; [|done|done].
    intros Hn. enough (live_user a w (acts_as r)) by (destruct (safe_method r); [by injection Hn as <- _ _|]; unfold record in Hn; rewrite Hf in Hn; by injection Hn as <- _ _).
    clear Hn. apply accepted_session in Hc as (u & exp & id & ex & reg & Hp & Hk & _ & _ & _ & Hsu).
    2:{ cbn. destruct Hsame as (_ & _ & ->). done. }
    unfold acts_as. rewrite Hctx, Hp. unfold passwordHashFor in Hk. case_bool_decide; [by left|].
    pose proof (tenancy_same _ (es 6%nat) _ _ _ Hsame Ht) as H6. pose proof (tenancy_same _ (es 9%nat) _ _ _ Hsame Ht) as H9.
    change (get _ u) with (get (es 6%nat, h1) u) in Hk. rewrite (get_tenancy k _ w u Hi H6) in Hk. cbn in Hk. rewrite Hf in Hk. destruct (AccountsProps.abs k (AccountsProps.db w) !! u) as [y|] eqn:Hy; [|done].
    right. exists y. split; [done|]. by apply (proj1 (suspended_tenancy k _ w _ Hi H9 (Hf 9%nat)) Hsu).
Qed.
End Served.

(** ** Instances *)
Module Toy.
Import AccountsProps.AccountsProps.Toy ApiTokens.ApiTokens.Toy.

(** A code that singles out one text, and a digest whose code is the counter. *)
Definition marks (l : list string) : AuthLib := {|
  hmac_sha256 _ m := if decide (m ∈ bytes_of <$> l) then replicate 32 "y"%char else replicate 32 "n"%char;
  hmac_sha1 _ m := drop 4 m ++ replicate 16 (chr 0)
|}.
#[local] Existing Instance marks.

Definition auth : Auth := mkAuth "admin" "$administrator" (at_byte 32 "k") "" "" true true (replicate 20 "t"%char).
Definition at_sec (t : Z) : Env := mkEnv (λ _, t * Second) (λ _, false) (λ _, Some (at_byte 32 "r")).
Definition calls (t : Z) : nat → Env := λ _, at_sec t.
(** The call [n] of an operation fails. *)
Definition failing (t : Z) (n : nat) : nat → Env := λ i, if decide (i = n) then mkEnv (λ _, t * Second) (λ _, true) (λ _, None) else at_sec t.
Definition registry : Session.Registry := Session.mkRegistry "" ∅ (Some (Session.mkStore ∅ ∅)) ∅ None ∅.
Definition host (x : sit) : Host :=
  mkHost Durable ∅ (Some (RateLimit.NewLimiterWithPolicy 0 20 loginAttemptWindow)) (Some (RateLimit.NewLimiterWithPolicy 0 5 loginAttemptWindow)) None
    (Some registry) (Some x.1) x.2 (Some issued.2) None [].
Definition form (l : list (string * string)) : string → string := λ k, default "" (list_to_map (M := gmap string string) l !! k).
Definition login_request (totp : string) : Request :=
  mkRequest "POST" "/login" "192.0.2.7" None None "" "" "application/x-www-form-urlencoded" true
    (form [("username", "alice"); ("password", AccountsProps.AccountsProps.Toy.password); ("totp", totp)]) None None.
Definition browse (cookie csrf : string) : Request := mkRequest "POST" "/api/sites" "192.0.2.7" (Some cookie) None "" csrf "" true (form []) None None.

Section Code.
#[local] Existing Instance marks.
#[local] Instance no_marks : AuthLib := marks [].

Definition totp_host : Host := host sit1.
Definition first_use := consumeTOTPFor (at_sec 3000) "alice" (replicate 20 "x"%char) "000100" 3000 totp_host.
Definition second_use := consumeTOTPFor (at_sec 3030) "alice" (replicate 20 "x"%char) "000101" 3030 first_use.2.
Lemma totp_single_use_witness : first_use.1 = true ∧ second_use.1 = true ∧ (consumeTOTPFor (at_sec 3001) "alice" (replicate 20 "x"%char) "000100" 3001 first_use.2).1 = false ∧
  ∃ c c', matching_counter (replicate 20 "x"%char) "000100" (window 3000) = Some c ∧ matching_counter (replicate 20 "x"%char) "000101" (window 3030) = Some c' ∧ c < c'.
Proof.
  split; [vm_compute; reflexivity|]. split; [vm_compute; reflexivity|]. split; [vm_compute; reflexivity|].
  apply (totp_single_use (at_sec 3000) "alice" (replicate 20 "x"%char) "000100" 3000 totp_host first_use.2 (at_sec 3030) (replicate 20 "x"%char) "000101" 3030 first_use.2 second_use.2).
  - reflexivity.
  - vm_compute. reflexivity.
  - constructor.
  - vm_compute. reflexivity.
  - vm_compute. reflexivity.
Defined.

Definition login_out := Login auth (calls 3000) alone (login_request "000100") (host sit1).
Definition the_login : string * string * Z := match login_out.1 with LoggedIn c t x => (c, t, x) | _ => ("", "", 0) end.

Lemma login_needs_every_factor_witness : ∃ h2 h3 h4 hash, passwordHashFor auth (at_sec 3000, h2) "alice" = (hash, true) ∧
  Accounts.bcrypt_compare (if bool_decide (hash = "") then PasswordHash auth else hash) AccountsProps.AccountsProps.Toy.password = true ∧
  tenantSuspended (at_sec 3000, h3) "alice" = false ∧
  ((totpFor auth (at_sec 3000, h4) "alice").2 = true → factor_met auth (calls 3000) "alice" "000100" (totpFor auth (at_sec 3000, h4) "alice").1) ∧
  fault (at_sec 3000) 0 = false.
Proof.
  apply (login_needs_every_factor auth (calls 3000) alone (login_request "000100") (host sit1) the_login.1.1 the_login.1.2 the_login.2 login_out.2).
  vm_compute. reflexivity.
Defined.

Lemma login_runs : Login auth (calls 3000) alone (login_request "000100") (host sit1) = (LoggedIn the_login.1.1 the_login.1.2 the_login.2, login_out.2).
Proof. vm_compute. reflexivity. Qed.
Lemma alice_free : free "|" "alice".
Proof. unfold free. cbn. set_solver. Qed.
Lemma expiry_fits : 0 ≤ the_login.2 ≤ maxInt64.
Proof. vm_compute. split; discriminate. Qed.
Definition later_moment : Moment := (at_sec 4000, login_out.2).
Lemma hash_there : (passwordHashFor auth (at_sec 3000, host sit1) "alice").1 ≠ "".
Proof. vm_compute. discriminate. Qed.
Lemma registry_there : sessions later_moment.2 ≠ None.
Proof. vm_compute. discriminate. Qed.
Lemma alice_same_hash : passwordHashFor auth later_moment "alice" = passwordHashFor auth (at_sec 3000, host sit1) "alice".
Proof. vm_compute. reflexivity. Qed.
Lemma same_generation : fingerprint_generation auth later_moment "alice" = fingerprint_generation auth (at_sec 3000, login_out.2) "alice".
Proof. vm_compute. reflexivity. Qed.
Lemma entry_there : entry_live later_moment (sessionID (browse the_login.1.1 the_login.1.2)) "alice" the_login.2.
Proof. eexists _, _. split_and!; vm_compute; reflexivity. Qed.
Lemma not_suspended : tenantSuspended later_moment "alice" = false.
Proof. vm_compute. reflexivity. Qed.

(** A request that presents the cookie is served as the user who logged in. *)
Lemma login_session_works_witness : ∃ r', sessionCookie r' = Some the_login.1.1 ∧ UsernameForRequest auth (λ _, later_moment) r' = "alice".
Proof.
  pose proof (login_session_works auth (calls 3000) (login_request "000100") (host sit1) the_login.1.1 the_login.1.2 the_login.2 login_out.2 (browse the_login.1.1 the_login.1.2) login_runs) as Hw.
  change (FormValue (login_request "000100") "username") with "alice" in Hw. cbv zeta in Hw.
  specialize (Hw alice_free expiry_fits hash_there eq_refl eq_refl eq_refl). destruct Hw as [_ Hw]. specialize (Hw (λ _, later_moment)).
  specialize (Hw registry_there alice_same_hash same_generation entry_there not_suspended).
  exists (browse the_login.1.1 the_login.1.2). split; [reflexivity|]. apply Hw.
Defined.

(** ** Failing reads *)

(** When the read of the account's authenticator fails, a login needs no second factor:
    [totpFor] reports a failure as an account without one. *)
Theorem second_factor_skipped_on_failed_read :
  (∃ c t x h', Login auth (failing 3000 4) alone (login_request "") (host sit1) = (LoggedIn c t x, h')) ∧
  (Login auth (calls 3000) alone (login_request "") (host sit1)).1 = LoginPage 401 "Invalid credentials".
Proof. split; [do 4 eexists|]; vm_compute; reflexivity. Qed.

End Code.

(** ** Witnesses about accounts *)

Lemma marks_unshared x : @unshared (marks [x]) auth x.
Proof.
  intros y. unfold hmac_sha256, marks. cbn [fmap list_fmap]. destruct (decide (bytes_of x ∈ [bytes_of x])) as [_|Hx]; [|set_solver].
  destruct (decide (bytes_of y ∈ [bytes_of x])) as [Hy|_]; [|done]. apply list_elem_of_singleton in Hy. intros _. by rewrite <- (of_bytes_of y), Hy, of_bytes_of.
Qed.

Definition new_authenticator : AccountsProps.Request := AccountsProps.QSetTOTP "alice" seed.
Definition sit_after : sit := go sit1 new_authenticator.
Lemma authenticator_ok : AccountsProps.ok_request new_authenticator.
Proof. vm_compute. reflexivity. Qed.
Lemma authenticator_done : succeeds sit1 new_authenticator = true.
Proof. vm_compute. reflexivity. Qed.
Definition alice_before : Accounts.HostingAccount :=
  default (Accounts.mkAccount "" "" "" "" "" false [] 0 false false false "" None false 0) (AccountsProps.abs key sit1.2 !! "alice").
Lemma alice_there : AccountsProps.abs key sit1.2 !! "alice" = Some alice_before.
Proof. vm_compute. reflexivity. Qed.
Lemma tenancy_host e x : Accounts.keys x.1 = key → tenancy key (e, host x) (world x).
Proof. intros Hk. split; [done|]. by exists x.1. Qed.
Lemma sit1_keys : Accounts.keys sit1.1 = key.
Proof. vm_compute. reflexivity. Qed.
Lemma sit_after_keys : Accounts.keys sit_after.1 = key.
Proof. vm_compute. reflexivity. Qed.

Section Change.
#[local] Instance one_mark : AuthLib := marks [fingerprint_text "alice" (Accounts.PasswordHash alice_before) (Accounts.SessionGeneration alice_before)].
Definition old_cookie : string := session_token auth "alice" 50000 "s1" (fingerprint auth "alice" (Accounts.PasswordHash alice_before) (Accounts.SessionGeneration alice_before)).
Lemma credential_change_ends_sessions_witness : checkValidSession auth (λ _, (at_sec 4000, host sit_after)) (browse old_cookie "") ≠ Ok true.
Proof.
  apply (credential_change_ends_sessions key auth (before sit1 new_authenticator) new_authenticator (world sit_after) [] (world sit_after) "alice" alice_before
    (Accounts.PasswordHash alice_before) (Accounts.SessionGeneration alice_before) 50000 "s1" (λ _, (at_sec 4000, host sit_after)) (browse old_cookie "")).
  - apply (go_reachable sit1 new_authenticator authenticator_ok authenticator_done (proj2 reachable1)).
  - vm_compute. reflexivity.
  - apply (go_steps sit1 new_authenticator authenticator_ok authenticator_done).
  - reflexivity.
  - constructor.
  - constructor.
  - vm_compute. reflexivity.
  - vm_compute. discriminate.
  - apply alice_free.
  - unfold free. cbn. set_solver.
  - vm_compute. split; [discriminate|reflexivity].
  - vm_compute. split; discriminate.
  - apply marks_unshared.
  - reflexivity.
  - discriminate.
  - apply tenancy_host, sit_after_keys.
  - right. reflexivity.
Defined.

(** The cookie of an account whose generation was 0 is accepted again whenever the read
    of the account for the fingerprint fails, although the authenticator was replaced. *)
Definition host_with_session : Host := (host sit_after) <| sessions := Some (Session.Add (seconds (at_sec 3000)) "s1" "alice" 50000 registry).2 |>.
Theorem failed_read_revives_session :
  Accounts.SessionGeneration alice_before = 0 ∧
  checkValidSession auth (λ i, (at_sec 4000, host_with_session)) (browse old_cookie "") = Ok false ∧
  checkValidSession auth (λ i, (failing 4000 1 i, host_with_session)) (browse old_cookie "") = Ok true.
Proof. vm_compute. split_and!; reflexivity. Qed.
End Change.

Section Sites.
#[local] Instance plain : AuthLib := marks [].
Definition reader : ApiTokens.apiTokenIdentity := ApiTokens.mkIdentity "id" "alice" ["site:read"].
Definition token_request : Request := (browse "" "") <| ctxToken := Some reader |>.
Definition here : Moment := (at_sec 4000, host sit1).

Lemma tenant_isolation_witness : ∃ acc owner, tenant_of key (world sit1) "alice" "blog" acc owner.
Proof.
  apply (tenant_isolation key auth (λ _, here) token_request "blog" (mkAuthorizedSite "blog" "alice") (world sit1) (world sit1)).
  - apply reachable1.
  - apply tenancy_host, sit1_keys.
  - apply reachable1.
  - apply tenancy_host, sit1_keys.
  - vm_compute. reflexivity.
  - vm_compute. reflexivity.
Defined.

Lemma durable_job_authorization_exact_witness : authorizeDurableSiteJob auth (λ _, here) "blog" "alice" false = Ok "blog" ↔
  ∃ acc owner, tenant_of key (world sit1) "alice" "blog" acc owner ∧ Accounts.Suspended acc = false ∧ Accounts.Suspended owner = false.
Proof.
  apply (durable_job_authorization_exact key auth here "blog" "alice" (world sit1)).
  - apply reachable1.
  - apply tenancy_host, sit1_keys.
  - reflexivity.
  - vm_compute. discriminate.
  - vm_compute. discriminate.
  - vm_compute. discriminate.
Defined.

Lemma token_scope_bounded_witness : HasRequiredCustomerScope auth (λ _, here) token_request "site:read" = true ∧
  HasRequiredCustomerScope auth (λ _, here) token_request "site:deploy" = false ∧ roleAllowsCustomerScope (Accounts.accountRole alice_before) "site:read" = true.
Proof.
  split; [vm_compute; reflexivity|]. split; [vm_compute; reflexivity|].
  refine (proj1 (proj2 (token_scope_bounded key auth (λ _, here) token_request reader "site:read" (world sit1) (world sit1) alice_before
    (proj2 reachable1) (tenancy_host _ _ sit1_keys) (proj2 reachable1) (tenancy_host _ _ sit1_keys) eq_refl (λ _, eq_refl) eq_refl alice_there _))).
  vm_compute. reflexivity.
Defined.

Definition bearer_request : Request := (browse "" "") <| Authorization := "Bearer " +:+ the_item.2 |>.
Definition passed := Require auth (calls 6) false bearer_request (host sit1).
Lemma served_requests_are_live_witness : ∃ r', passed.1 = Next r' None ∧ live_user key auth (world sit1) (acts_as r') ∧ acts_as r' = "alice".
Proof.
  exists (bearer_request <| ctxToken := Some (ApiTokens.mkIdentity (ApiTokens.ID the_item.1) "alice" (ApiTokens.Scopes the_item.1)) |>).
  split; [vm_compute; reflexivity|]. split; [|reflexivity].
  apply (served_requests_are_live key auth (calls 6) false bearer_request (host sit1)
    (bearer_request <| ctxToken := Some (ApiTokens.mkIdentity (ApiTokens.ID the_item.1) "alice" (ApiTokens.Scopes the_item.1)) |>) None passed.2 (world sit1)).
  - apply reachable1.
  - apply tenancy_host, sit1_keys.
  - reflexivity.
  - reflexivity.
  - discriminate.
  - reflexivity.
  - vm_compute. reflexivity.
Defined.
End Sites.

Section Csrf.
#[local] Instance csrf_mark : AuthLib := marks ["csrf" +:+ nul +:+ "s1"].
Definition its_cookie : string := session_token auth "alice" 50000 "s1" "f".
Definition its_token : string := csrfTokenFor auth "s1".
Lemma csrf_bound_to_session_witness : CSRF auth (browse its_cookie its_token) = true ∧ CSRF auth (browse (session_token auth "alice" 50000 "s2" "f") its_token) = false ∧
  csrf_identity (browse its_cookie its_token) = csrf_identity (browse (session_token auth "alice" 60000 "s1" "g") its_token).
Proof.
  split; [vm_compute; reflexivity|]. split; [vm_compute; reflexivity|].
  apply (csrf_bound_to_session auth (browse its_cookie its_token) (browse (session_token auth "alice" 60000 "s1" "g") its_token));
    [reflexivity..| | | |].
  - intros id Hid. assert (csrf_identity (browse its_cookie its_token) = Some "s1") as E by (vm_compute; reflexivity). rewrite E in Hid. injection Hid as <-. apply marks_unshared.
  - vm_compute. reflexivity.
  - vm_compute. reflexivity.
  - reflexivity.
Defined.
End Csrf.

Section Suspended.
#[local] Instance plain2 : AuthLib := marks [].

(** When the read of the suspension fails, the requests of a suspended tenant are served:
    [TenantSuspended] reports a failure as an account that is not suspended. The session is
    one made after the suspension was recorded in the account. *)
Definition late_login := Login auth (failing 3000 3) alone (login_request "000100") (host (go sit1 (AccountsProps.QSetSuspended "alice" true))).
Definition late : string * string * Z := match late_login.1 with LoggedIn c t x => (c, t, x) | _ => ("", "", 0) end.
Theorem suspension_missed_on_failed_read :
  late_login.1 = LoggedIn late.1.1 late.1.2 late.2 ∧
  checkValidSession auth (λ i, (failing 4000 3 i, late_login.2)) (browse late.1.1 late.1.2) = Ok true ∧
  checkValidSession auth (λ i, (at_sec 4000, late_login.2)) (browse late.1.1 late.1.2) = Ok false ∧
  (Login auth (calls 3000) alone (login_request "000100") (host (go sit1 (AccountsProps.QSetSuspended "alice" true)))).1 = LoginPage 401 "Invalid credentials".
Proof. split_and!; vm_compute; reflexivity. Qed.
End Suspended.
End Toy.
End AuthProps.
