(* ===== verification/SiteLayout.v ===== *)
(** * SiteLayout: sites inside hosting-account homes

    Models [src/internal/sitelayout/layout.go] and [store.go]: the names a hosting
    account may take, the placement of a site in its account's home, and the two
    tables that record accounts and placements. The state is the database; each
    operation is one transaction. The theorems show that over any sequence of
    operations the document roots of two sites never coincide or nest, and that
    the Unix user of a retired account is never handed out again. *)
From S2P Require Import Prelude Regex GoPath.

Module SiteLayout.
Import Regex.

(** ** Names and placements *)

Definition KindMain : string := "main".
Definition KindAddon : string := "addon".
Definition KindSubdomain : string := "subdomain".
Definition MainDirectory : string := "public_html".

Record Placement := mkPlacement {
  Site : string; Account : string; UnixUser : string; Kind : string; Directory : string }.

#[export] Instance Placement_eq_dec : EqDecision Placement.
Proof. solve_decision. Defined.

Definition lower_digit : list (ascii * ascii) := [("a", "z"); ("0", "9")]%char.
Definition name_class : re := Cls (lower_digit ++ [("_", "_"); ("-", "-")]%char).
Definition ld_class : re := Cls lower_digit.
Definition ldh_class : re := Cls (lower_digit ++ [("-", "-")]%char).

Definition unixUserPattern : re := Cat (Cls [("a", "z"); ("_", "_")]%char) (upto 31 name_class).
Definition sitePattern : re := rep 1 32 name_class.
Definition label_tail : re := opt (Cat (upto 61 ldh_class) ld_class).
Definition domainPattern : re :=
  Cat (plus (Cat ld_class (Cat label_tail (byte "."%char))))
      (Cat (Cls [("a", "z")]%char) label_tail).

Definition reservedUsers : list string :=
  [ "adm"; "admin"; "administrator"; "apache"; "avahi";
    "backup"; "bin"; "caddy"; "chrony"; "clamav";
    "cpanel"; "daemon"; "dbus"; "dovecot"; "dovenull";
    "exim"; "fail2ban"; "ftp"; "games"; "gnats";
    "halt"; "irc"; "list"; "lp"; "lsadm"; "mail";
    "man"; "messagebus"; "mysql"; "named"; "news";
    "nginx"; "nobody"; "ntp"; "operator"; "polkitd";
    "postfix"; "postgres"; "proxy"; "redis"; "root";
    "rpc"; "rpcuser"; "shutdown"; "sshd"; "stepanel";
    "sync"; "sys"; "syslog"; "tcpdump"; "tss";
    "uucp"; "vsftpd"; "www"; "www-data" ].

Definition ValidUnixUser (name : string) : option error :=
  if negb (MatchString unixUserPattern name)
  then Some (EMsg "account name must start with a lowercase letter or underscore")
  else if bool_decide (name ∈ reservedUsers)
  then Some (EMsg "account name is reserved for a system or service account")
  else if has_prefix name "sp-" || has_prefix name "stepanel" || has_prefix name "systemd-"
  then Some (EMsg "account name uses a prefix reserved for StePanel or system accounts")
  else None.

Definition ValidDomain (domain : string) : bool :=
  (len domain <=? 253) && MatchString domainPattern domain.

(** [Placement.Validate]. *)
Definition Validate (p : Placement) : option error :=
  if negb (MatchString sitePattern (Site p)) then Some (EMsg "invalid site name") else
  match ValidUnixUser (UnixUser p) with
  | Some err => Some err
  | None =>
      if bool_decide (Account p = "") then Some (EMsg "placement requires an owning account") else
      if bool_decide (Kind p = KindMain) then
        if bool_decide (Directory p = MainDirectory) then None
        else Some (EMsg "a main site is served from public_html")
      else if bool_decide (Kind p = KindAddon) || bool_decide (Kind p = KindSubdomain) then
        if ValidDomain (Directory p) then None
        else Some (EMsg "site directory must be its domain name")
      else Some (EMsg "unknown site kind")
  end.

Definition Home (homeRoot unixUser : string) : string := GoPath.Join [homeRoot; unixUser].
Definition DocRoot (p : Placement) (homeRoot : string) : string :=
  GoPath.Join [homeRoot; UnixUser p; Directory p].
Definition StagingRoot (homeRoot : string) : string :=
  GoPath.Join [homeRoot; ".stepanel-manager-staging"].

(** ** The database *)

(** A row of [account_identities] (keyed by account) and of [site_placements]
    (keyed by site); [site_identities] is the table of the legacy layout, [None]
    when it does not exist. *)
Record AccountRow := mkAccount { unix_user : string; acc_created_at : Z; retired_at : option Z }.
Record PlacementRow := mkRow { account : string; p_unix_user : string; kind : string; directory : string; p_created_at : Z }.
Record DB := mkDB {
  account_identities : gmap string AccountRow;
  site_placements : gmap string PlacementRow;
  site_identities : option (gset string)
}.

Definition ErrNotPlaced : error := ESentinel "site has no account placement".

Definition of_row (site : string) (r : PlacementRow) : Placement :=
  mkPlacement site (account r) (p_unix_user r) (kind r) (directory r).

(** The account that holds a Unix user ([unix_user] is UNIQUE). *)
Definition user_taken (d : DB) (user : string) : bool :=
  existsb (λ x, bool_decide (unix_user x.2 = user)) (map_to_list (account_identities d)).

(** [AllocateAccount]; clock 0: the creation time; fault 0: begin, 1: reading the
    identity, 2: looking up the Unix user, 3: the insert, 4: commit. *)
Definition AllocateAccount (e : Env) (acc : string) (d : DB) : res string * DB :=
  match ValidUnixUser acc with
  | Some err => (Err err, d)
  | None =>
      if fault e 0 then (Err (EWrap "begin account identity transaction" io_err), d) else
      if fault e 1 then (Err (EWrap "read account identity" io_err), d) else
      match account_identities d !! acc with
      | Some row =>
          match retired_at row with
          | Some _ => (Err (EMsg "account was retired; its Unix user is not reused"), d)
          | None => if fault e 4 then (Err io_err, d) else (Ok (unix_user row), d)
          end
      | None =>
          if fault e 2 then (Err (EWrap "check Unix user ownership" io_err), d) else
          if user_taken d acc then (Err (EMsg "Unix user already belongs to another account"), d) else
          if fault e 3 then (Err (EWrap "record account identity" io_err), d) else
          if fault e 4 then (Err io_err, d) else
          (Ok acc, mkDB (<[acc := mkAccount acc (clock e 0) None]> (account_identities d))
                        (site_placements d) (site_identities d))
      end
  end.

(** [AccountUser]: the Unix user of an active account; fault 0: the query. *)
Definition AccountUser (e : Env) (acc : string) (d : DB) : res (string * bool) :=
  if fault e 0 then Err (EWrap "read account identity" io_err) else
  match account_identities d !! acc with
  | None => Ok ("", false)
  | Some row => match retired_at row with Some _ => Ok ("", false) | None => Ok (unix_user row, true) end
  end.

Definition sites_of (d : DB) (acc : string) : list (string * PlacementRow) :=
  filter (λ x, account x.2 = acc) (map_to_list (site_placements d)).

(** [RetireAccount]; fault 0: begin, 1: the count, 2: the update, 3: commit. *)
Definition RetireAccount (e : Env) (acc : string) (d : DB) : option error * DB :=
  if fault e 0 then (Some (EWrap "begin account retirement" io_err), d) else
  if fault e 1 then (Some (EWrap "count account sites" io_err), d) else
  if (0 <? Z.of_nat (length (sites_of d acc))) then (Some (EMsg "account still has sites"), d) else
  if fault e 2 then (Some (EWrap "retire account identity" io_err), d) else
  if fault e 3 then (Some io_err, d) else
  (None, mkDB (alter (λ r, match retired_at r with
                           | None => mkAccount (unix_user r) (acc_created_at r) (Some (clock e 0))
                           | Some _ => r end) acc (account_identities d))
              (site_placements d) (site_identities d)).

(** The constraints of [site_placements]: the primary key, [UNIQUE (unix_user,
    directory)] and one main site per account. *)
Definition directory_taken (d : DB) (p : Placement) : bool :=
  existsb (λ x, bool_decide (p_unix_user x.2 = UnixUser p ∧ directory x.2 = Directory p)) (map_to_list (site_placements d)).
Definition main_taken (d : DB) (p : Placement) : bool :=
  bool_decide (Kind p = KindMain) &&
  existsb (λ x, bool_decide (account x.2 = Account p ∧ kind x.2 = KindMain)) (map_to_list (site_placements d)).

Definition describePlacementConflict (e : Env) (d : DB) (p : Placement) : error :=
  if negb (fault e 5) && bool_decide (is_Some (site_placements d !! Site p)) then EMsg "site is already placed" else
  if negb (fault e 6) && directory_taken d p then EMsg "directory is already used by another site" else
  if negb (fault e 7) && main_taken d p then EMsg "account already has a main site" else
  EWrap "record site placement" io_err.

(** [Place]; clock 0: the creation time; fault 0: begin, 1: reading the account,
    2: the legacy check, 3: the insert, 4: commit, 5-7: describing a conflict. *)
Definition Place (e : Env) (p : Placement) (d : DB) : option error * DB :=
  match Validate p with
  | Some err => (Some err, d)
  | None =>
      if fault e 0 then (Some (EWrap "begin site placement" io_err), d) else
      if fault e 1 then (Some (EWrap "read account identity" io_err), d) else
      match account_identities d !! Account p with
      | None => (Some (EMsg "account has no active Unix user"), d)
      | Some row =>
          if bool_decide (is_Some (retired_at row)) then (Some (EMsg "account has no active Unix user"), d) else
          if negb (bool_decide (unix_user row = UnixUser p)) then (Some (EMsg "site must use its account's Unix user"), d) else
          if fault e 2 then (Some (EWrap "check legacy site identity" io_err), d) else
          if match site_identities d with Some l => bool_decide (Site p ∈ l) | None => false end
          then (Some (EMsg "site already uses the legacy per-site layout"), d) else
          if fault e 3 || bool_decide (is_Some (site_placements d !! Site p)) || directory_taken d p || main_taken d p
          then (Some (describePlacementConflict e d p), d) else
          if fault e 4 then (Some io_err, d) else
          (None, mkDB (account_identities d)
                      (<[Site p := mkRow (Account p) (UnixUser p) (Kind p) (Directory p) (clock e 0)]> (site_placements d))
                      (site_identities d))
      end
  end.

(** [Get]; fault 0: the query. *)
Definition Get (e : Env) (site : string) (d : DB) : res Placement :=
  if fault e 0 then Err (EWrap "read site placement" io_err) else
  match site_placements d !! site with
  | None => Err ErrNotPlaced
  | Some r => match Validate (of_row site r) with
              | Some err => Err (EWrap "stored placement is invalid" err)
              | None => Ok (of_row site r)
              end
  end.

(** [ORDER BY CASE kind WHEN 'main' THEN 0 ELSE 1 END, directory]. *)
Definition kind_rank (p : Placement) : Z := if bool_decide (Kind p = KindMain) then 0 else 1.
Definition account_order (a b : Placement) : Prop :=
  kind_rank a < kind_rank b ∨ (kind_rank a = kind_rank b ∧ (Directory a ≤ Directory b)%string).
#[export] Instance account_order_dec a b : Decision (account_order a b).
Proof. unfold account_order. apply _. Defined.

Definition ForAccount (e : Env) (acc : string) (d : DB) : res (list Placement) :=
  if fault e 0 then Err (EWrap "list account sites" io_err) else
  Ok (merge_sort account_order ((λ x, of_row x.1 x.2) <$> sites_of d acc)).

Definition Remove (e : Env) (site : string) (d : DB) : option error * DB :=
  if fault e 0 then (Some (EWrap "remove site placement" io_err), d) else
  (None, mkDB (account_identities d) (delete site (site_placements d)) (site_identities d)).

Definition site_order (a b : Placement) : Prop := (Site a ≤ Site b)%string.
#[export] Instance site_order_dec a b : Decision (site_order a b).
Proof. unfold site_order. apply _. Defined.
Definition AllSites (e : Env) (d : DB) : res (list Placement) :=
  if fault e 0 then Err (EWrap "list placed sites" io_err) else
  Ok (merge_sort site_order ((λ x, of_row x.1 x.2) <$> map_to_list (site_placements d))).

(** ** Executions *)

(** A change of the layout tables by any process. *)
Inductive step (d : DB) : DB → Prop :=
  | SAllocate e acc : step d (AllocateAccount e acc d).2
  | SRetire e acc : step d (RetireAccount e acc d).2
  | SPlace e p : step d (Place e p d).2
  | SRemove e site : step d (Remove e site d).2.

(** The tables are well formed. *)
Record layout_ok (d : DB) : Prop := {
  lo_user : ∀ a r, account_identities d !! a = Some r → unix_user r = a ∧ ValidUnixUser a = None;
  lo_valid : ∀ s r, site_placements d !! s = Some r → Validate (of_row s r) = None;
  lo_active : ∀ s r, site_placements d !! s = Some r →
    ∃ a, account_identities d !! account r = Some a ∧ retired_at a = None ∧ unix_user a = p_unix_user r;
  lo_directory : ∀ s1 s2 r1 r2, site_placements d !! s1 = Some r1 → site_placements d !! s2 = Some r2 →
    p_unix_user r1 = p_unix_user r2 → directory r1 = directory r2 → s1 = s2;
  lo_main : ∀ s1 s2 r1 r2, site_placements d !! s1 = Some r1 → site_placements d !! s2 = Some r2 →
    account r1 = account r2 → kind r1 = KindMain → kind r2 = KindMain → s1 = s2
}.

Definition empty_db : DB := mkDB ∅ ∅ None.

(** ** Invariant *)

Lemma existsb_map_false {V} (f : string * V → bool) (m : gmap string V) k v :
  existsb f (map_to_list m) = false → m !! k = Some v → f (k, v) = false.
Proof. rewrite existsb_false_elem. intros H E. apply H. by apply elem_of_map_to_list. Qed.

(** A successful placement checked everything the invariant needs. *)
Lemma Place_inv e p d :
  (Place e p d).2 = d ∨
  ∃ row, Validate p = None ∧ account_identities d !! Account p = Some row ∧ retired_at row = None ∧
    unix_user row = UnixUser p ∧ site_placements d !! Site p = None ∧ directory_taken d p = false ∧
    main_taken d p = false ∧ (Place e p d).1 = None ∧
    (Place e p d).2 = mkDB (account_identities d)
      (<[Site p := mkRow (Account p) (UnixUser p) (Kind p) (Directory p) (clock e 0)]> (site_placements d))
      (site_identities d).
Proof.
  unfold Place. destruct (Validate p) eqn:Hv; [by left|].
  do 2 (case_if; [by left|]). destruct (account_identities d !! Account p) as [row|] eqn:Ha; [|by left].
  do 6 (case_if; [by left|]). right. exists row.
  repeat match goal with H : _ || _ = false |- _ => apply orb_false_iff in H as [? ?] end.
  repeat match goal with
  | H : bool_decide _ = false |- _ => apply bool_decide_eq_false in H
  | H : negb _ = false |- _ => apply negb_false_iff, bool_decide_eq_true in H
  end.
  repeat split; try done; by apply eq_None_not_Some.
Qed.

Lemma of_row_mk p t :
  of_row (Site p) (mkRow (Account p) (UnixUser p) (Kind p) (Directory p) t) = p.
Proof. by destruct p. Qed.

Lemma Allocate_inv e acc d :
  (AllocateAccount e acc d).2 = d ∨
  (ValidUnixUser acc = None ∧ account_identities d !! acc = None ∧
   (AllocateAccount e acc d).2 =
     mkDB (<[acc := mkAccount acc (clock e 0) None]> (account_identities d)) (site_placements d) (site_identities d)).
Proof.
  unfold AllocateAccount. destruct (ValidUnixUser acc) eqn:Hv; [by left|].
  do 2 (case_if; [by left|]). destruct (account_identities d !! acc) as [row|] eqn:Ha.
  - left. destruct (retired_at row); [done|]. by case_if.
  - do 4 (case_if; [by left|]). by right.
Qed.

Lemma layout_allocate e acc d : layout_ok d → layout_ok (AllocateAccount e acc d).2.
Proof.
  intros [Hu Hv Ha Hd Hm].
  destruct (Allocate_inv e acc d) as [->|(Hva & Hn & ->)]; [by constructor|]. constructor; cbn; try done.
  - intros a r [[-> ->]|[? ?]]%insert_cases; auto.
  - intros s r Hs. destruct (Ha s r Hs) as (a & H1 & H2 & H3). exists a.
    rewrite lookup_insert_ne by (intros ->; congruence). done.
Qed.

Lemma sites_of_nil d acc s r : sites_of d acc = [] → site_placements d !! s = Some r → account r ≠ acc.
Proof.
  intros E Hs <-. assert ((s, r) ∈ sites_of d (account r)) as Hin; [|rewrite E in Hin; set_solver].
  apply list_elem_of_filter. split; [done | by apply elem_of_map_to_list].
Qed.

Lemma layout_retire e acc d : layout_ok d → layout_ok (RetireAccount e acc d).2.
Proof.
  intros [Hu Hv Ha Hd Hm]. unfold RetireAccount. do 5 (case_if; [by constructor|]). cbn.
  assert (sites_of d acc = []) as E.
  { by destruct (sites_of d acc). }
  constructor; cbn; try done.
  - intros a r. rewrite lookup_alter. case_decide; [|apply Hu].
    subst. intros (r' & H & ->)%fmap_Some. destruct (Hu _ _ H). by destruct (retired_at r').
  - intros s r Hs. destruct (Ha s r Hs) as (a & H1 & H2 & H3). exists a.
    rewrite lookup_alter_ne; [done|]. intros ->. by eapply sites_of_nil.
Qed.

Lemma directory_free d p s r :
  directory_taken d p = false → site_placements d !! s = Some r →
  p_unix_user r = UnixUser p → directory r = Directory p → False.
Proof.
  intros H Hs Hu Hdir. pose proof (existsb_map_false _ _ _ _ H Hs) as F.
  apply bool_decide_eq_false in F. by apply F.
Qed.

Lemma main_free d p s r :
  main_taken d p = false → site_placements d !! s = Some r →
  account r = Account p → kind r = KindMain → Kind p = KindMain → False.
Proof.
  intros H Hs Hacc Hk Hkp. unfold main_taken in H. rewrite bool_decide_true in H by done.
  pose proof (existsb_map_false _ _ _ _ H Hs) as F. apply bool_decide_eq_false in F. by apply F.
Qed.

Lemma layout_place e p d : layout_ok d → layout_ok (Place e p d).2.
Proof.
  intros [Hu Hv Ha Hd Hm].
  destruct (Place_inv e p d) as [->|(row & H1 & H2 & H3 & H4 & H5 & H6 & H7 & _ & ->)]; [by constructor|].
  pose proof (λ s r, directory_free d p s r H6) as Hdt. pose proof (λ s r, main_free d p s r H7) as Hmt.
  constructor; cbn; try done.
  - intros s r [[-> ->]|[? ?]]%insert_cases; [by rewrite of_row_mk | auto].
  - intros s r [[-> ->]|[? ?]]%insert_cases; [exists row; by cbn | eauto].
  - intros s1 s2 r1 r2 [[-> ->]|[? ?]]%insert_cases [[-> ->]|[? ?]]%insert_cases; cbn; intros; eauto;
      exfalso; eauto using eq_sym.
  - intros s1 s2 r1 r2 [[-> ->]|[? ?]]%insert_cases [[-> ->]|[? ?]]%insert_cases; cbn; intros; eauto;
      exfalso; eauto using eq_sym.
Qed.

Lemma layout_remove e site d : layout_ok d → layout_ok (Remove e site d).2.
Proof.
  intros [Hu Hv Ha Hd Hm]. unfold Remove. case_if; [by constructor|]. constructor; cbn; try done;
    intros *; repeat setoid_rewrite lookup_delete_Some; naive_solver.
Qed.

Lemma layout_step d d' : layout_ok d → step d d' → layout_ok d'.
Proof. intros H []; auto using layout_allocate, layout_retire, layout_place, layout_remove. Qed.

Lemma layout_reachable d : rtc step empty_db d → layout_ok d.
Proof.
  intros H. remember empty_db as d0 eqn:E. assert (layout_ok d0) as H0.
  { subst. constructor; cbn; intros *; rewrite lookup_empty; done. }
  clear E. induction H; eauto using layout_step.
Qed.

(** ** Document roots *)

(** A valid user name and directory are single path components. *)
Lemma not_slash_pattern r s : re_bytes (λ c, negb (bool_decide (c = GoPath.slash))) r = true →
  MatchString r s = true → GoPath.slash ∉ bytes_of s.
Proof.
  intros Hr Hm Hin. pose proof (MatchString_bytes _ _ _ Hr Hm) as Hb. unfold all_bytes in Hb.
  rewrite forallb_forall in Hb. specialize (Hb GoPath.slash). rewrite <- list_elem_of_In in Hb.
  specialize (Hb Hin). by rewrite bool_decide_true in Hb.
Qed.

Lemma plain_pattern r s :
  re_bytes (λ c, negb (bool_decide (c = GoPath.slash))) r = true →
  MatchString r "" = false → MatchString r "." = false → MatchString r ".." = false →
  MatchString r s = true → GoPath.plainb s = true.
Proof.
  intros Hr H1 H2 H3 Hm. apply bool_decide_eq_true. repeat split; try (intros ->; congruence).
  by eapply not_slash_pattern.
Qed.

Lemma ValidUnixUser_plain u : ValidUnixUser u = None → GoPath.plainb u = true.
Proof.
  unfold ValidUnixUser. case_if; [done|]. intros _. apply negb_false_iff in Heqb.
  by apply (plain_pattern unixUserPattern); [vm_compute | vm_compute | vm_compute | vm_compute |].
Qed.

Lemma Validate_plain p : Validate p = None → GoPath.plainb (UnixUser p) = true ∧ GoPath.plainb (Directory p) = true.
Proof.
  unfold Validate. case_if; [done|]. destruct (ValidUnixUser (UnixUser p)) eqn:Hu; [done|].
  intros H. split; [by apply ValidUnixUser_plain|]. revert H. case_if; [done|]. case_if.
  - case_if; [|done]. apply bool_decide_eq_true in Heqb2 as ->. by vm_compute.
  - case_if; [|done]. case_if; [|done]. intros _. unfold ValidDomain in *.
    apply andb_true_iff in Heqb3 as [_ Hm].
    by apply (plain_pattern domainPattern); [vm_compute | vm_compute | vm_compute | vm_compute |].
Qed.

Lemma DocRoot_abs p hs : hs ≠ [] → Forall GoPath.plain hs → Validate p = None →
  DocRoot p (GoPath.abs_path hs) = GoPath.abs_path (hs ++ [bytes_of (UnixUser p); bytes_of (Directory p)]).
Proof.
  intros Hn Hp [Hu%GoPath.plainb_plain Hd%GoPath.plainb_plain]%Validate_plain. unfold DocRoot.
  rewrite <- (GoPath.Join_abs hs [bytes_of (UnixUser p); bytes_of (Directory p)]) by (done || by rewrite !Forall_cons, Forall_nil).
  cbn [fmap list_fmap]. by rewrite !of_bytes_of.
Qed.

(** ** Properties *)

(** C39: Over any sequence of allocations, retirements, placements and removals by
    any processes, with any failures, the document roots of two placed sites
    neither coincide nor lie inside one another, whatever absolute directory the
    homes are in. *)
Theorem docroots_disjoint d hs e s1 s2 p1 p2 :
  rtc step empty_db d → hs ≠ [] → Forall GoPath.plain hs → s1 ≠ s2 →
  Get e s1 d = Ok p1 → Get e s2 d = Ok p2 →
  let home := GoPath.abs_path hs in
  DocRoot p1 home ≠ DocRoot p2 home ∧
  has_prefix (DocRoot p1 home) (DocRoot p2 home +:+ "/") = false.
Proof.
  intros [_ Hv _ Hd _]%layout_reachable Hn Hp Hne. unfold Get. case_if; [done|].
  destruct (site_placements d !! s1) as [r1|] eqn:E1; [|done].
  destruct (site_placements d !! s2) as [r2|] eqn:E2; [|done].
  pose proof (Hv _ _ E1) as V1. pose proof (Hv _ _ E2) as V2. rewrite V1, V2.
  intros H1 H2. apply (inj Ok) in H1 as <-, H2 as <-. cbn zeta. rewrite !DocRoot_abs by done.
  cbn [of_row UnixUser Directory].
  assert ([bytes_of (p_unix_user r1); bytes_of (directory r1)] ≠ [bytes_of (p_unix_user r2); bytes_of (directory r2)]) as Hdiff.
  { intros [= E3%(inj bytes_of) E4%(inj bytes_of)]. by apply Hne, (Hd _ _ _ _ E1 E2). }
  destruct (Validate_plain _ V1) as [Pu1%GoPath.plainb_plain Pd1%GoPath.plainb_plain].
  destruct (Validate_plain _ V2) as [Pu2%GoPath.plainb_plain Pd2%GoPath.plainb_plain].
  cbn [of_row UnixUser Directory] in *.
  assert (∀ a b, GoPath.plain a → GoPath.plain b → hs ++ [a; b] ≠ [] ∧ Forall GoPath.plain (hs ++ [a; b])) as Hw.
  { intros a b Ha Hb. split; [by intros [? ?]%app_nil|]. by rewrite Forall_app, !Forall_cons, Forall_nil. }
  destruct (Hw _ _ Pu1 Pd1) as [Hn1 Hf1], (Hw _ _ Pu2 Pd2) as [Hn2 Hf2]. split.
  - intros E%GoPath.abs_path_inj; [|done..]. by apply app_inv_head in E.
  - apply not_true_iff_false. intros [k E]%GoPath.abs_path_prefix; [|done..].
    rewrite <- app_assoc in E. apply app_inv_head in E. cbn [app] in E.
    injection E as E3 E4 _. apply Hdiff. by rewrite E3, E4.
Qed.

(** The Unix user of a retired account stays retired, and with it nothing is
    placed in its home. *)
Lemma retired_step d d' a r t :
  step d d' → account_identities d !! a = Some r → retired_at r = Some t →
  account_identities d' !! a = Some r.
Proof.
  intros [e acc|e acc|e p|e site] H Hr.
  - destruct (Allocate_inv e acc d) as [->|(_ & Hn & ->)]; [done|]. cbn.
    rewrite lookup_insert_ne; [done | intros ->; congruence].
  - unfold RetireAccount. do 5 (case_if; [done|]). cbn. rewrite lookup_alter. case_decide; [|done].
    subst. rewrite H. cbn. by rewrite Hr.
  - by destruct (Place_inv e p d) as [->|(row & _ & _ & _ & _ & _ & _ & _ & _ & ->)].
  - unfold Remove. by case_if.
Qed.

(** Once an account is retired, its Unix user is never handed out again: every
    later allocation of the name fails without effect, the account has no active
    user, and no site is placed in that home, whatever the processes do. *)
Theorem retired_user_never_reused d d' a r t e :
  rtc step empty_db d → account_identities d !! a = Some r → retired_at r = Some t →
  rtc step d d' →
  is_ok (AllocateAccount e a d').1 = false ∧ (AllocateAccount e a d').2 = d' ∧
  (fault e 0 = false → AccountUser e a d' = Ok ("", false)) ∧
  (∀ s p, Get e s d' = Ok p → UnixUser p ≠ a).
Proof.
  intros Hd Ha Hr Hs.
  assert (account_identities d' !! a = Some r) as Ha'.
  { clear Hd. induction Hs; eauto using retired_step. }
  assert (layout_ok d') as [Hu _ Hact _ _] by (apply layout_reachable; by trans d).
  repeat split.
  - unfold AllocateAccount. destruct (ValidUnixUser a); [done|]. do 2 (case_if; [done|]).
    by rewrite Ha', Hr.
  - unfold AllocateAccount. destruct (ValidUnixUser a); [done|]. do 2 (case_if; [done|]).
    by rewrite Ha', Hr.
  - unfold AccountUser. intros ->. by rewrite Ha', Hr.
  - intros s p. unfold Get. case_if; [done|]. destruct (site_placements d' !! s) as [row|] eqn:E; [|done].
    destruct (Validate _); [done|]. intros H. apply (inj Ok) in H as <-. cbn. intros <-.
    destruct (Hact _ _ E) as (ar & H1 & H2 & H3). destruct (Hu _ _ H1) as [Hx _]. congruence.
Qed.

(** ** Witnesses *)

Definition alice_main : Placement := mkPlacement "alice" "alice" "alice" KindMain MainDirectory.
Definition alice_shop : Placement := mkPlacement "shop" "alice" "alice" KindAddon "shop.example.org".
Definition demo_db : DB :=
  (Place (calm 3 "") alice_shop (Place (calm 2 "") alice_main (AllocateAccount (calm 1 "") "alice" empty_db).2).2).2.

Lemma demo_reachable : rtc step empty_db demo_db.
Proof.
  eapply rtc_l; [apply (SAllocate _ (calm 1 "") "alice")|].
  eapply rtc_l; [apply (SPlace _ (calm 2 "") alice_main)|].
  eapply rtc_l; [apply (SPlace _ (calm 3 "") alice_shop)|]. apply rtc_refl.
Qed.

Lemma home_plain : Forall GoPath.plain [bytes_of "home"].
Proof. rewrite Forall_cons, Forall_nil. split; [by apply GoPath.plainb_plain | done]. Qed.

Lemma docroots_disjoint_witness :
  DocRoot alice_main "/home" = "/home/alice/public_html" ∧
  DocRoot alice_shop "/home" = "/home/alice/shop.example.org" ∧
  DocRoot alice_main (GoPath.abs_path [bytes_of "home"]) ≠ DocRoot alice_shop (GoPath.abs_path [bytes_of "home"]).
Proof.
  split; [reflexivity|]. split; [reflexivity|].
  apply (docroots_disjoint demo_db [bytes_of "home"] (calm 4 "") "alice" "shop" alice_main alice_shop);
    [exact demo_reachable | done | exact home_plain | done | vm_compute; reflexivity | vm_compute; reflexivity].
Defined.

Definition bob_retired : DB := (RetireAccount (calm 2 "") "bob" (AllocateAccount (calm 1 "") "bob" empty_db).2).2.

Lemma retired_user_never_reused_witness :
  is_ok (AllocateAccount (calm 3 "") "bob" empty_db).1 = true ∧
  is_ok (AllocateAccount (calm 3 "") "bob" bob_retired).1 = false.
Proof.
  split; [vm_compute; reflexivity|].
  apply (retired_user_never_reused bob_retired bob_retired "bob" (mkAccount "bob" 1 (Some 2)) 2 (calm 3 ""));
    [ | vm_compute; reflexivity | reflexivity | apply rtc_refl].
  eapply rtc_l; [apply (SAllocate _ (calm 1 "") "bob")|].
  eapply rtc_l; [apply (SRetire _ (calm 2 "") "bob")|]. apply rtc_refl.
Defined.

End SiteLayout.
