(* ===== verification/Effects.v ===== *)
(** * Effects: programs that change the host

    A program that changes files is a function from the state to a result and a
    state: the world it acts on (a parameter), the number of calls made so far,
    which indexes the environment, and the number of effects left before the
    process is killed. Every call may fail and every effect may be the one before
    which the process is killed. The rules below give what holds at the end of a
    program whatever happens ([holds], [ensures]), and what a program that only reads
    returns ([reads]). *)
From S2P Require Import Prelude.

Module Effects.

(** The number of calls made, and the effects left before a kill ([None]: never). *)
Record St (W : Type) := mkSt { world : W; calls : nat; left : option nat }.
Arguments mkSt {W} _ _ _.
Arguments world {W} _.
Arguments calls {W} _.
Arguments left {W} _.
(** [None]: killed. *)
Definition M (W A : Type) : Type := St W → option A * St W.
Definition ret {W A} (a : A) : M W A := λ s, (Some a, s).
Definition bind {W A B} (m : M W A) (f : A → M W B) : M W B := λ s,
  match m s with (Some a, s') => f a s' | (None, s') => (None, s') end.
Declare Scope host_scope.
Delimit Scope host_scope with host.
Notation "x ← m ; k" := (bind m (fun x => k)) (at level 20, m at level 100, k at level 200) : host_scope.
Notation "m ;; k" := (bind m (fun _ => k)) (at level 100, k at level 200, right associativity) : host_scope.
#[local] Open Scope host_scope.
(** Continuing after a call that may return an error. *)
Definition rbind {W A B} (m : M W (res A)) (f : A → M W (res B)) : M W (res B) :=
  r ← m; match r with Ok a => f a | Err err => ret (Err err) end.
Notation "'let?' x ':=' m 'in' k" := (rbind m (fun x => k)) (at level 200, x pattern, k at level 200) : host_scope.
Definition ok {W A} (a : A) : M W (res A) := ret (Ok a).
Definition throw {W A} (msg : string) : M W (res A) := ret (Err (EMsg msg)).
(** Adding context to an error. *)
Definition wrap {W A} (what : string) (m : M W (res A)) : M W (res A) :=
  r ← m; ret (match r with Ok a => Ok a | Err err => Err (EWrap what err) end).

Definition look {W} : M W W := λ s, (Some (world s), s).
Definition effect {W} (f : W → W) : M W unit := λ s,
  match left s with
  | Some O => (None, s)
  | Some (S n) => (Some tt, mkSt (f (world s)) (calls s) (Some n))
  | None => (Some tt, mkSt (f (world s)) (calls s) None)
  end.

(** A context: that of the program, or that of a request, which each check may find
    cancelled. *)
Inductive Ctx := Background | Request.
Definition ErrNotExist : error := ESentinel "file does not exist".
Definition ErrCanceled : error := ESentinel "context canceled".

Section calls.
Context {W : Type} (e : Env).
(** One call and whether it fails; one reading of the clock. *)
Definition call : M W bool := λ s, (Some (fault e (calls s)), mkSt (world s) (S (calls s)) (left s)).
Definition now : M W Z := λ s, (Some (clock e (calls s)), mkSt (world s) (S (calls s)) (left s)).
Definition attempt : M W (res unit) := b ← call; ret (if b then Err io_err else Ok tt).
Definition ctx_err (c : Ctx) : M W (res unit) :=
  match c with Background => ok tt | Request => b ← call; ret (if b then Err ErrCanceled else Ok tt) end.
End calls.

(** ** Rules *)

Section rules.
Context {W : Type}.
(** [Q] holds of the result (none after a kill) and the state at the end. *)
Definition holds {A} (m : M W A) (s : St W) (Q : option A → St W → Prop) : Prop := Q (m s).1 (m s).2.

Lemma holds_bind {A B} (m : M W A) (f : A → M W B) s Q :
  holds m s (λ oa s', match oa with Some a => holds (f a) s' Q | None => Q None s' end) → holds (bind m f) s Q.
Proof. unfold holds, bind. by destruct (m s) as [[a|] s']. Qed.
Lemma holds_ret {A} (a : A) s Q : Q (Some a) s → holds (ret a) s Q.
Proof. done. Qed.
Lemma holds_mono {A} (m : M W A) s (P Q : option A → St W → Prop) : (∀ o s', P o s' → Q o s') → holds m s P → holds m s Q.
Proof. unfold holds. auto. Qed.
Lemma holds_effect f s Q :
  Q None s → (∀ l, Q (Some tt) (mkSt (f (world s)) (calls s) l)) → holds (effect f) s Q.
Proof. intros H1 H2. unfold holds, effect. destruct (left s) as [[|n]|]; [apply H1|apply H2..]. Qed.

(** The state with the same world after some calls. *)
Definition at_call (s : St W) (c : nat) : St W := mkSt (world s) c (left s).

(** [m] changes nothing and returns a value of [P]. *)
Definition reads {A} (m : M W A) (s : St W) (P : A → Prop) : Prop := ∃ a c, m s = (Some a, at_call s c) ∧ P a.

Lemma reads_ret {A} (a : A) s (P : A → Prop) : P a → reads (ret a) s P.
Proof. intros H. exists a, (calls s). split; [by destruct s|done]. Qed.
Lemma reads_mono {A} (m : M W A) s (P Q : A → Prop) : (∀ a, P a → Q a) → reads m s P → reads m s Q.
Proof. intros H (a & c & E & Ha). exists a, c. auto. Qed.
Lemma reads_bind {A B} (m : M W A) (f : A → M W B) s P Q :
  reads m s P → (∀ a c, P a → reads (f a) (at_call s c) Q) → reads (bind m f) s Q.
Proof.
  intros (a & c & E & Ha) H. destruct (H a c Ha) as (b & c' & E' & Hb).
  exists b, c'. unfold bind. by rewrite E, E'.
Qed.
Lemma reads_and {A} (m : M W A) s (P Q : A → Prop) : reads m s P → reads m s Q → reads m s (λ a, P a ∧ Q a).
Proof. intros (a & c & E & Ha) (b & d & E' & Hb). rewrite E in E'. injection E' as -> ->. exists b, d. auto. Qed.
Lemma holds_read {A B} (m : M W A) (f : A → M W B) s P Q :
  reads m s P → (∀ a c, P a → holds (f a) (at_call s c) Q) → holds (bind m f) s Q.
Proof. intros (a & c & E & Ha) H. unfold holds, bind. rewrite E. by apply H. Qed.

Lemma holds_reads {A} (m : M W A) s (P : A → Prop) Q : reads m s P → (∀ a c, P a → Q (Some a) (at_call s c)) → holds m s Q.
Proof. intros (a & c & E & Ha) H. unfold holds. rewrite E. by apply H. Qed.

(** The same for calls that may return an error; [H] treats the errors. *)
Lemma reads_rbind {A B} (m : M W (res A)) (f : A → M W (res B)) s (P : A → Prop) (Q : res B → Prop) :
  reads m s (λ r, ∀ a, r = Ok a → P a) → (∀ err, Q (Err err)) → (∀ a c, P a → reads (f a) (at_call s c) Q) → reads (rbind m f) s Q.
Proof.
  intros Hm He Hf. unfold rbind. eapply reads_bind; [exact Hm|]. intros [a|err] c Ha; [by apply Hf, Ha|]. by apply reads_ret.
Qed.
Lemma holds_rread {A B} (m : M W (res A)) (f : A → M W (res B)) s (P : A → Prop) Q :
  reads m s (λ r, ∀ a, r = Ok a → P a) → (∀ err c, Q (Some (Err err)) (at_call s c)) → (∀ a c, P a → holds (f a) (at_call s c) Q) →
  holds (rbind m f) s Q.
Proof.
  intros Hm He Hf. unfold rbind. eapply holds_read; [exact Hm|]. intros [a|err] c Ha; [by apply Hf, Ha|].
  apply holds_ret, He.
Qed.
(** And when no error is possible. *)
Lemma reads_rok {A B} (m : M W (res A)) (f : A → M W (res B)) s a Q :
  reads m s (eq (Ok a)) → (∀ c, reads (f a) (at_call s c) Q) → reads (rbind m f) s Q.
Proof. intros Hm Hf. unfold rbind. eapply reads_bind; [exact Hm|]. intros ? c <-. apply Hf. Qed.
Lemma holds_rok {A B} (m : M W (res A)) (f : A → M W (res B)) s a Q :
  reads m s (eq (Ok a)) → (∀ c, holds (f a) (at_call s c) Q) → holds (rbind m f) s Q.
Proof. intros Hm Hf. unfold rbind. eapply holds_read; [exact Hm|]. intros ? c <-. apply Hf. Qed.

Lemma reads_wrap {A} what (m : M W (res A)) s (P : A → Prop) :
  reads m s (λ r, ∀ a, r = Ok a → P a) → reads (wrap what m) s (λ r, ∀ a, r = Ok a → P a).
Proof.
  intros H. unfold wrap. eapply reads_bind; [exact H|]. intros [a|err] c Ha; apply reads_ret; [done|by intros].
Qed.
Lemma reads_wrap_ok {A} what (m : M W (res A)) s a : reads m s (eq (Ok a)) → reads (wrap what m) s (eq (Ok a)).
Proof. intros H. unfold wrap. eapply reads_bind; [exact H|]. intros ? c <-. by apply reads_ret. Qed.
Lemma holds_wrap {A} what (m : M W (res A)) s (Q : option (res A) → St W → Prop) :
  holds m s (λ o s', match o with Some (Err err) => Q (Some (Err (EWrap what err))) s' | _ => Q o s' end) → holds (wrap what m) s Q.
Proof. intros H. unfold wrap. apply holds_bind. eapply holds_mono; [|exact H]. by intros [[a|err]|] s'. Qed.

End rules.

(** ** Calls *)

Section calls.
Context {W : Type} (e : Env).
Implicit Types s : St W.
Lemma reads_call s : reads (call e) s (λ _, True).
Proof. by exists (fault e (calls s)), (S (calls s)). Qed.
Lemma reads_now s : reads (now e) s (λ t, ∃ n, t = clock e n).
Proof. exists (clock e (calls s)), (S (calls s)). eauto. Qed.
Lemma reads_look s : reads look s (eq (world s)).
Proof. exists (world s), (calls s). by destruct s. Qed.
Lemma reads_attempt s : reads (attempt e) s (λ _, True).
Proof. unfold attempt. eapply reads_bind; [apply reads_call|]. intros b c _. by apply reads_ret. Qed.
Lemma reads_ctx c s : reads (ctx_err e c) s (λ _, True).
Proof. destruct c; cbn; [by apply reads_ret|]. eapply reads_bind; [apply reads_call|]. intros b ? _. by apply reads_ret. Qed.

(** *** Without failures *)
Definition quiet : Prop := ∀ n, fault e n = false.
Context (Hq : quiet).
Lemma quiet_attempt s : reads (attempt e) s (eq (Ok tt)).
Proof. exists (Ok tt), (S (calls s)). unfold attempt, bind, call. by rewrite (Hq (calls s)). Qed.
Lemma quiet_ctx c s : reads (ctx_err e c) s (eq (Ok tt)).
Proof. destruct c; cbn; [by apply reads_ret|]. exists (Ok tt), (S (calls s)). unfold bind, call. by rewrite (Hq (calls s)). Qed.
End calls.

(** Never killed. *)
Definition alive {W} (s : St W) : Prop := left s = None.
Lemma alive_effect {W} f (s : St W) (Q : option unit → St W → Prop) : alive s → (∀ c, Q (Some tt) (mkSt (f (world s)) c None)) → holds (effect f) s Q.
Proof. unfold alive, holds, effect. intros -> H. apply H. Qed.

(** ** Triples *)

(** From [P], [I] holds at the end whatever happens, and [Q] of the value returned. *)
Definition ensures {W A} (P : W → Prop) (m : M W (res A)) (I : W → Prop) (Q : A → W → Prop) : Prop :=
  ∀ s, P (world s) → holds m s (λ o s', I (world s') ∧ ∀ a, o = Some (Ok a) → Q a (world s')).

Section triples.
Context {W A : Type} (I : W → Prop).
Lemma ens_ok P (a : A) Q : (∀ w, P w → I w ∧ Q a w) → ensures P (ok a) I Q.
Proof. intros H s Hs. apply holds_ret. destruct (H _ Hs). split; [done|]. by intros ? [= <-]. Qed.
Lemma ens_err P err (Q : A → W → Prop) : (∀ w, P w → I w) → ensures P (ret (Err err)) I Q.
Proof. intros H s Hs. apply holds_ret. split; [by apply H|done]. Qed.
Lemma ens_pre P P' (m : M W (res A)) Q : (∀ w, P w → P' w) → ensures P' m I Q → ensures P m I Q.
Proof. intros HP H s Hs. apply H, HP, Hs. Qed.
Lemma ens_post P (m : M W (res A)) (Q Q' : A → W → Prop) : (∀ a w, Q a w → Q' a w) → ensures P m I Q → ensures P m I Q'.
Proof. intros HQ H s Hs. eapply holds_mono; [|by apply H]. intros o s' [HI Ha]. split; [done|]. intros a E. by apply HQ, Ha. Qed.
Lemma ens_wrap P what (m : M W (res A)) Q : ensures P m I Q → ensures P (wrap what m) I Q.
Proof.
  intros H s Hs. apply holds_wrap. eapply holds_mono; [|by apply H]. intros o s' [HI Ha]. destruct o as [[a|err]|]; (split; [done|]); [|done..].
  intros a' E. by apply Ha.
Qed.
Lemma ens_rbind {B} P (m : M W (res B)) (f : B → M W (res A)) R Q :
  ensures P m I R → (∀ b, ensures (R b) (f b) I Q) → ensures P (rbind m f) I Q.
Proof.
  intros Hm Hf s Hs. unfold rbind. apply holds_bind. eapply holds_mono; [|by apply Hm]. intros [[b|err]|] s' [HI Ha]; [|by apply holds_ret|done].
  by apply Hf, Ha.
Qed.
(** A call that changes nothing. *)
(** A program that also goes on after an error. *)
Lemma ens_result {B} P (m : M W (res B)) (f : res B → M W (res A)) R Q :
  ensures P m I R → (∀ b, ensures (R b) (f (Ok b)) I Q) → (∀ err, ensures I (f (Err err)) I Q) → ensures P (bind m f) I Q.
Proof.
  intros Hm Hf He s Hs. apply holds_bind. eapply holds_mono; [|by apply Hm]. intros [[b|err]|] s' [HI Hb]; [by apply Hf, Hb|by apply He|done].
Qed.
Lemma ens_read P (m : M W (res A)) (R : A → W → Prop) : (∀ w, P w → I w) →
  (∀ s, reads m s (λ r, ∀ a, r = Ok a → R a (world s))) → ensures P m I (λ a w, P w ∧ R a w).
Proof.
  intros HP H s Hs. destruct (H s) as (r & c & E & Hr). unfold holds. rewrite E. cbn. split; [by apply HP|]. intros a [= ->]. auto.
Qed.
(** A pure bind: the rest runs in the same world. *)
Lemma ens_bind_read {B} P (m : M W B) (f : B → M W (res A)) (R : B → W → Prop) Q :
  (∀ s, reads m s (λ b, R b (world s))) → (∀ b, ensures (λ w, P w ∧ R b w) (f b) I Q) → ensures P (bind m f) I Q.
Proof. intros Hm Hf s Hs. eapply holds_read; [apply Hm|]. intros b c Hb. by apply (Hf b (at_call s c)). Qed.
Lemma ens_effect P f (m : M W (res A)) P' Q : (∀ w, P w → I w ∧ P' (f w)) → ensures P' m I Q → ensures P (effect f;; m) I Q.
Proof.
  intros H Hm s Hs. destruct (H _ Hs) as [HI HP']. apply holds_bind, holds_effect; [done|]. intros l. by apply Hm.
Qed.
(** Running something whose result is dropped. *)
Lemma ens_seq {B} P (m : M W (res B)) (k : M W (res A)) Q : ensures P m I (λ _, I) → ensures I k I Q → ensures P (m;; k) I Q.
Proof.
  intros Hm Hk s Hs. apply holds_bind. eapply holds_mono; [|by apply Hm]. intros [o|] s' [HI _]; [|done]. by apply Hk.
Qed.
Lemma ens_fact (φ : Prop) P (m : M W (res A)) Q : (∀ w, P w → φ) → (φ → ensures P m I Q) → ensures P m I Q.
Proof. intros H1 H2 s Hs. apply H2; [by eapply H1|done]. Qed.
Lemma ens_look P (f : W → M W (res A)) Q : (∀ w0, ensures (λ w, P w ∧ w0 = w) (f w0) I Q) → ensures P (bind look f) I Q.
Proof. intros H. apply (ens_bind_read _ _ _ eq); [|done]. intros s. by eapply reads_mono; [|apply reads_look]. Qed.
Lemma ens_now e P (f : Z → M W (res A)) Q : (∀ t, ensures P (f t) I Q) → ensures P (bind (now e) f) I Q.
Proof.
  intros H. apply (ens_bind_read _ _ _ (λ _ _, True)); [intros s; by eapply reads_mono; [|apply reads_now]|]. intros t.
  eapply ens_pre; [|apply H]. by intros w [].
Qed.
End triples.

Section steps.
Context {W : Type} (e : Env) (I : W → Prop).
Lemma ens_attempt P : (∀ w, P w → I w) → ensures P (attempt e) I (λ _, P).
Proof. intros H. eapply ens_post; [|apply (ens_read _ _ _ (λ _ _, True))]; [by intros ? ? []|done|]. intros s. by eapply reads_mono; [|apply reads_attempt]. Qed.
Lemma ens_ctx P c : (∀ w, P w → I w) → ensures P (ctx_err e c) I (λ _, P).
Proof. intros H. eapply ens_post; [|apply (ens_read _ _ _ (λ _ _, True))]; [by intros ? ? []|done|]. intros s. by eapply reads_mono; [|apply reads_ctx]. Qed.
End steps.

(** ** Triples with progress *)

(** As [ensures], and the program returns a value when [C] holds (say, no call fails) and it
    is never killed. *)
Definition completes {W A} (C : Prop) (P : W → Prop) (m : M W (res A)) (I : W → Prop) (Q : A → W → Prop) : Prop :=
  ∀ s, P (world s) → holds m s (λ o s', I (world s') ∧ (∀ a, o = Some (Ok a) → Q a (world s')) ∧
    (C → left s = None → left s' = None ∧ ∃ a, o = Some (Ok a))).

Section progress.
Context {W A : Type} (C : Prop) (I : W → Prop).
Lemma com_ok P (a : A) Q : (∀ w, P w → I w ∧ Q a w) → completes C P (ok a) I Q.
Proof. intros H s Hs. apply holds_ret. destruct (H _ Hs). split; [done|]. split; [by intros ? [= <-]|]. eauto. Qed.
Lemma com_err P err (Q : A → W → Prop) : (∀ w, P w → I w) → (C → ∀ w, ¬ P w) → completes C P (ret (Err err)) I Q.
Proof. intros H Hc s Hs. apply holds_ret. split; [by apply H|]. split; [done|]. intros c _. by destruct (Hc c _ Hs). Qed.
Lemma com_pre P P' (m : M W (res A)) Q : (∀ w, P w → P' w) → completes C P' m I Q → completes C P m I Q.
Proof. intros HP H s Hs. apply H, HP, Hs. Qed.
Lemma com_post P (m : M W (res A)) (Q Q' : A → W → Prop) : (∀ a w, Q a w → Q' a w) → completes C P m I Q → completes C P m I Q'.
Proof. intros HQ H s Hs. eapply holds_mono; [|by apply H]. intros o s' (HI & Ha & Hc). split; [done|]. split; [|done]. intros a E. by apply HQ, Ha. Qed.
Lemma com_wrap P what (m : M W (res A)) Q : completes C P m I Q → completes C P (wrap what m) I Q.
Proof.
  intros H s Hs. apply holds_wrap. eapply holds_mono; [|by apply H]. intros o s' (HI & Ha & Hc).
  destruct o as [[a|err]|]; (split; [done|]); (split; [|intros c Hl]); try done; destruct (Hc c Hl) as (_ & ? & [=]); eauto.
Qed.
Lemma com_rbind {B} P (m : M W (res B)) (f : B → M W (res A)) R Q :
  completes C P m I R → (∀ b, completes C (R b) (f b) I Q) → completes C P (rbind m f) I Q.
Proof.
  intros Hm Hf s Hs. unfold rbind. apply holds_bind. eapply holds_mono; [|by apply Hm]. intros [[b|err]|] s' (HI & Ha & Hc).
  - eapply holds_mono; [|by apply Hf, Ha]. intros o s2 (HI2 & Ha2 & Hc2). split; [done|]. split; [done|]. intros c Hl. destruct (Hc c Hl) as [Hl' _]. by apply Hc2.
  - apply holds_ret. split; [done|]. split; [done|]. intros c Hl. by destruct (Hc c Hl) as (_ & ? & [=]).
  - split; [done|]. split; [done|]. intros c Hl. by destruct (Hc c Hl) as (_ & ? & [=]).
Qed.
Lemma com_look P (f : W → M W (res A)) Q : (∀ w0, completes C (λ w, P w ∧ w0 = w) (f w0) I Q) → completes C P (bind look f) I Q.
Proof. intros H s Hs. eapply holds_read; [apply reads_look|]. intros w0 c <-. by apply (H (world s) (at_call s c)). Qed.
Lemma com_now e P (f : Z → M W (res A)) Q : (∀ t, completes C P (f t) I Q) → completes C P (bind (now e) f) I Q.
Proof. intros H s Hs. eapply holds_read; [apply reads_now|]. intros t c _. by apply (H t (at_call s c)). Qed.
Lemma com_effect P f (m : M W (res A)) P' Q : (∀ w, P w → I w ∧ P' (f w)) → completes C P' m I Q → completes C P (effect f;; m) I Q.
Proof.
  intros H Hm s Hs. destruct (H _ Hs) as [HI HP']. apply holds_bind. unfold holds at 1, effect. destruct (left s) as [[|n]|] eqn:E; cbn.
  - split; [done|]. split; [done|]. by intros _ [=].
  - eapply holds_mono; [|by apply Hm]. intros o s' (H1 & H2 & H3). split; [done|]. split; [done|]. by intros _ [=].
  - eapply holds_mono; [|by apply Hm]. intros o s' (H1 & H2 & H3). split; [done|]. split; [done|]. intros c _. by apply H3.
Qed.
Lemma com_fact (φ : Prop) P (m : M W (res A)) Q : (∀ w, P w → φ) → (φ → completes C P m I Q) → completes C P m I Q.
Proof. intros H1 H2 s Hs. apply H2; [by eapply H1|done]. Qed.
(** The outcome of a call that only reads and may fail. *)
Lemma com_read P (m : M W (res A)) (R : A → W → Prop) : (∀ w, P w → I w) →
  (∀ s, P (world s) → reads m s (λ r, (∀ a, r = Ok a → R a (world s)) ∧ (C → ∃ a, r = Ok a))) → completes C P m I (λ a w, P w ∧ R a w).
Proof.
  intros HP H s Hs. destruct (H s Hs) as (r & c & E & Hr & Hc). unfold holds. rewrite E. cbn. split; [by apply HP|]. split.
  - intros a [= ->]. auto.
  - intros HC Hl. split; [done|]. destruct (Hc HC) as [a ->]. eauto.
Qed.
End progress.
Lemma com_attempt {W} e (C : Prop) P (I : W → Prop) : (∀ w, P w → I w) → (C → quiet e) → completes C P (attempt e) I (λ _, P).
Proof.
  intros HP HC. eapply com_post; [|apply (com_read _ _ _ _ (λ _ _, True))]; [by intros ? ? []|done|]. intros s _.
  exists (if fault e (calls s) then Err io_err else Ok tt), (S (calls s)). split; [by unfold attempt, bind, call; cbn|]. split; [done|].
  intros c. rewrite (HC c (calls s)). eauto.
Qed.
End Effects.
