(* ===== verification/Sites.v ===== *)
(** * Sites: the manager of site trees

    Models [src/internal/sites/location.go] and, of
    [src/internal/sites/manager.go], the resolution of stages, the two
    activations, rollback, the discarding and the cleanup of stages and the
    deletion of a site; [SafePath] and [RejectSymlinkParents] of
    [src/internal/helper/helpers.go]; [siteLocationFor] of
    [src/site_location.go], which derives the same places for the panel, and
    [newSiteManagerForConfig] of [src/site_manager_bridge.go].

    A document root, a stage or a preserved release is one tree, an entry of a
    directory that holds such trees: a site root, an account home or a staging
    root. The host is a map from a directory and a name to the entry, the set of
    directories that hold trees, and the journal files of [Releases]. Operations are
    programs of [Effects], so that every call may fail, and the process may be killed
    before any effect, also in the middle of deleting a tree. *)
From S2P Require Import Prelude Effects GoPath GoText Regex Names SiteLayout.

Module Sites.
Export Effects.
Import GoPath GoText Regex Names SiteLayout.

(** ** The host *)

(** The contents of a tree: directories with their entries in the order of the names, which
    are different, regular files with their bytes, and what a clone refuses. [durable]: the
    file, or the list of entries, was synced since it changed last; only [copySiteTree] of
    [SiteCreate] writes files, so only it follows this. *)
Inductive Item :=
  | Folder (durable : bool) (entries : list (string * Item))
  | Regular (data : string) (durable : bool)
  | LinkItem
  | SpecialItem.
(** Items as trees of the standard library, for their decidable equality. *)
Fixpoint item_tree (i : Item) : gen_tree (string + bool) :=
  match i with
  | Folder b es => GenNode 0 (GenLeaf (inr b) :: map (λ '(n, j), GenNode 1 [GenLeaf (inl n); item_tree j]) es)
  | Regular d b => GenNode 2 [GenLeaf (inl d); GenLeaf (inr b)]
  | LinkItem => GenNode 3 []
  | SpecialItem => GenNode 4 []
  end.
Section item_ind.
Context (P : Item → Prop) (Hf : ∀ b es, Forall (λ e, P e.2) es → P (Folder b es)) (Hr : ∀ d b, P (Regular d b)) (Hl : P LinkItem) (Hs : P SpecialItem).
Fixpoint Item_nested_ind (i : Item) : P i :=
  match i with
  | Folder b es => Hf b es ((fix all es : Forall (λ e, P e.2) es :=
      match es with [] => Forall_nil_2 _ | e :: es => Forall_cons_2 _ e es (Item_nested_ind e.2) (all es) end) es)
  | Regular d b => Hr d b
  | LinkItem => Hl
  | SpecialItem => Hs
  end.
End item_ind.
#[export] Instance item_tree_inj : Inj (=) (=) item_tree.
Proof.
  intros i. induction i as [b es IH|d b| |] using Item_nested_ind; intros [b' es'|d' b'| |] [=]; try (by subst).
  subst b'. f_equal. revert es' H1. induction IH as [|[n i] es Hi _ IHes]; intros [|[n' i'] es'] [=]; [done|]. f_equal; [|by apply IHes].
  f_equal; [done|]. by apply Hi.
Qed.
#[export] Instance Item_eq_dec : EqDecision Item.
Proof. refine (λ i j, cast_if (decide (item_tree i = item_tree j))); [by apply (inj item_tree)|by intros ->]. Defined.

(** A tree: its contents, whether a deletion has started, and the time of change of
    its root directory. *)
Record Tree := mkTree { content : Item; whole : bool; modified : Z }.
(** An entry of a directory. A file may be locked by another process ([flock]). *)
Inductive Node := DirTree (t : Tree) | Symlink | File (locked : bool).
#[export] Instance Tree_eq_dec : EqDecision Tree.
Proof. solve_decision. Defined.
#[export] Instance Node_eq_dec : EqDecision Node.
Proof. solve_decision. Defined.

(** A journal of a release activation (see [Releases]). *)
Record releaseActivationJournal := mkJournal {
  Version : Z; ID : string; JSite : string; StagedRoot : string; Previous : string; State : string }.
#[export] Instance releaseActivationJournal_eq_dec : EqDecision releaseActivationJournal.
Proof. solve_decision. Defined.

Record World := mkWorld {
  ents : gmap (string * string) Node;
  parents : gset string;
  (** The files of the recovery directory by name; [None] does not decode. *)
  journals : gmap string (option releaseActivationJournal) }.

Definition key (p : string) : string * string := (Dir p, Base p).

(** What [os.Lstat] says of a path. *)
Inductive Info := IsDir | IsSymlink | IsRegular.
#[export] Instance Info_eq_dec : EqDecision Info.
Proof. solve_decision. Defined.
Definition node_info (n : Node) : Info :=
  match n with DirTree _ => IsDir | Symlink => IsSymlink | File _ => IsRegular end.
Definition info (w : World) (p : string) : option Info :=
  if decide (p ∈ parents w) then Some IsDir else node_info <$> ents w !! key p.

Definition set_ent (p : string) (n : Node) (w : World) : World := mkWorld (<[key p := n]> (ents w)) (parents w) (journals w).
Definition del_ent (p : string) (w : World) : World := mkWorld (delete (key p) (ents w)) (parents w) (journals w).
Definition move (a b : string) (w : World) : World :=
  match ents w !! key a with
  | Some n => mkWorld (<[key b := n]> (delete (key a) (ents w))) (parents w) (journals w)
  | None => w
  end.
(** [os.Rename] of an entry. Go refuses to rename onto a directory, the kernel a directory
    onto something else. *)
Definition can_move (a b : string) (w : World) : bool :=
  bool_decide (Dir b ∈ parents w) &&
  match ents w !! key a with
  | None => false
  | Some n => match info w b with
              | None => true
              | Some IsDir => false
              | Some _ => negb (bool_decide (node_info n = IsDir))
              end
  end.
(** A deletion has removed some of the files. *)
Definition gut (n : Node) : Node :=
  match n with DirTree t => DirTree (mkTree (content t) false (modified t)) | _ => n end.
Definition gut_ent (p : string) (w : World) : World := mkWorld (alter gut (key p) (ents w)) (parents w) (journals w).

(** The names in a directory, in order. *)
Definition names_of (w : World) (d : string) : list string :=
  merge_sort String.le (elements (
    set_map snd (filter (λ k, k.1 = d) (dom (ents w) : gset (string * string))) ∪
    set_map Base (filter (λ p, Dir p = d) (parents w)) : gset string)).

(** ** Effects *)

Notation St := (Effects.St World).
Notation M := (Effects.M World).
#[local] Open Scope host_scope.

Section host.
Context (e : Env) (cwd : string).

#[local] Notation call := (Effects.call e).
#[local] Notation now := (Effects.now e).
#[local] Notation attempt := (Effects.attempt e).
#[local] Notation ctx_err := (Effects.ctx_err e).

Definition Abs (p : string) : string := if IsAbs p then Clean p else Join [cwd; p].
Definition Lstat (p : string) : M (res (option Info)) :=
  let? _ := attempt in w ← look; ok (info w p).
Definition ReadDir (d : string) : M (res (option (list string))) :=
  let? _ := attempt in w ← look; ok (if decide (d ∈ parents w) then Some (names_of w d) else None).
Definition Rename (a b : string) : M (res unit) :=
  let? _ := attempt in w ← look;
  if can_move a b w then effect (move a b);; ok tt else ret (Err io_err).
Definition RemoveAll (p : string) : M (res unit) :=
  w ← look;
  if bool_decide (ents w !! key p = None) then ok tt else
  effect (gut_ent p);; let? _ := attempt in effect (del_ent p);; ok tt.
(** [os.Remove] of a file; a missing file is no error to any caller, and a tree is not
    empty. *)
Definition RemoveFile (p : string) : M (res unit) :=
  let? _ := attempt in w ← look;
  match ents w !! key p with
  | None => ok tt
  | Some (DirTree _) => ret (Err io_err)
  | Some _ => effect (del_ent p);; ok tt
  end.
Definition MkdirAll (d : string) : M (res unit) :=
  let? _ := attempt in w ← look;
  if decide (d ∈ parents w) then ok tt else effect (λ w, mkWorld (ents w) ({[d]} ∪ parents w) (journals w));; ok tt.
Definition syncDir (d : string) : M (res unit) := attempt.
Definition syncTree (d : string) : M (res unit) := attempt.

(** ** Safe paths *)

(** [filepath.Rel] of two clean absolute paths, as components. *)
Fixpoint strip_common (a b : list byteseq) : list byteseq * list byteseq :=
  match a, b with
  | x :: a', y :: b' => if decide (x = y) then strip_common a' b' else (a, b)
  | _, _ => (a, b)
  end.
Definition rel_comps (base targ : string) : list string :=
  let '(b, t) := strip_common (clean_comps (bytes_of base)) (clean_comps (bytes_of targ)) in
  replicate (length b) ".." ++ (of_bytes <$> t).

Fixpoint reject_parents (current : string) (parts : list string) : M (res unit) :=
  match parts with
  | [] => ok tt
  | part :: rest =>
      let current := Join [current; part] in
      let? i := Lstat current in
      if decide (i = Some IsSymlink) then throw "destination contains a symlinked parent" else reject_parents current rest
  end.
Definition RejectSymlinkParents (path root : string) : M (res unit) :=
  let root := Abs root in
  let path := Abs path in
  if negb (bool_decide (path = root)) && negb (has_prefix path (root +:+ "/")) then throw "path escapes configured root" else
  r ← Lstat root;
  if bool_decide (r = Ok (Some IsSymlink)) then throw "configured root is a symlink" else
  reject_parents root (rel_comps root (Dir path)).
Definition EnsureInside (root target : string) : M (res unit) :=
  let r := Abs root in
  let t := Abs target in
  if negb (bool_decide (t = r)) && negb (has_prefix t (r +:+ "/")) then throw "path escapes configured root" else
  RejectSymlinkParents t r.
Definition SafePath (root : string) (parts : list string) : M (res string) :=
  if bool_decide (root = "") then throw "path root is empty" else
  if existsb (λ p, bool_decide (p = "") || IsAbs p) parts then throw "path component is invalid" else
  let target := foldl (λ t p, Join [t; p]) root parts in
  let? _ := EnsureInside root target in
  let? i := Lstat target in
  if decide (i = Some IsSymlink) then throw "path component is a symlink" else ok target.

(** ** Locations *)

Record location := mkLocation {
  container : string; docName : string; docRoot : string; stageRoot : string; previousPrefix : string; placed : bool }.
Record Manager := mkManager { webRoot : string; homeRoot : string; placements : option DB }.

Definition validSiteName : re := rep 1 32 name_class.
Definition stage_class : re := Cls [("A", "Z"); ("a", "z"); ("0", "9"); (".", "."); ("_", "_"); ("-", "-")]%char.
Definition validStagedComponent : re :=
  Alt (Cat (Cls [("A", "Z"); ("a", "z"); ("0", "9")]%char) (upto 127 stage_class))
      (Cat (lit ".stepanel-") (rep 1 127 stage_class)).
Definition validStagingPrefix : re := Cat (rep 1 48 stage_class) (opt (byte "-"%char)).

Definition staging : string := ".stepanel-manager-staging".
Definition previous_ : string := ".stepanel-previous-".
Definition release_ : string := ".stepanel-release-".

Definition bad_root (root : string) : bool :=
  bool_decide (root = "") || bool_decide (root = ".") || negb (IsAbs root).
Definition NewDefaultManager (web : string) : res Manager :=
  let web := Clean web in
  if bad_root web then Err (EMsg "webRoot must be a non-empty absolute path") else Ok (mkManager web "" None).
Definition NewAccountManager (web home : string) (db : DB) : res Manager :=
  match NewDefaultManager web with
  | Err err => Err err
  | Ok m =>
      let home := Clean home in
      if bad_root home then Err (EMsg "homeRoot must be a non-empty absolute path") else
      Ok (mkManager (webRoot m) home (Some db))
  end.

Definition legacyStageRoot (m : Manager) : M (res string) := SafePath (webRoot m) ["sites"; staging].
Definition homeStageRoot (m : Manager) : M (res string) :=
  if bool_decide (homeRoot m = "") then ok "" else SafePath (homeRoot m) [staging].
Definition stageRoots (m : Manager) : M (res (list string)) :=
  let? legacy := legacyStageRoot m in
  let? home := homeStageRoot m in
  ok (if bool_decide (home = "") then [legacy] else [legacy; home]).
Definition isStageRoot (m : Manager) (dir : string) : M (res bool) :=
  let? roots := stageRoots m in ok (bool_decide (dir ∈ roots)).

(** [sitelayout.Get] as one call. *)
Definition get_placement (db : DB) (site : string) : M (res Placement) :=
  b ← call; ret (Get (mkEnv (clock e) (λ _, b) (rand e)) site db).

Definition placedLocation (m : Manager) (name : string) (p : Placement) : M (res location) :=
  if negb (bool_decide (Site p = name)) then throw "placement lookup returned another site" else
  match Validate p with
  | Some err => ret (Err (EWrap "invalid placement" err))
  | None =>
      let? home := SafePath (homeRoot m) [UnixUser p] in
      let? doc := SafePath home [Directory p] in
      let? stage := homeStageRoot m in
      ok (mkLocation home (Directory p) doc stage (previous_ +:+ Directory p +:+ "-") true)
  end.

(** The method [location]. *)
Definition locate (m : Manager) (name : string) : M (res location) :=
  if negb (MatchString validSiteName name) then throw "invalid site name" else
  let legacy :=
    let? site := SafePath (webRoot m) ["sites"; name] in
    let? stage := legacyStageRoot m in
    ok (mkLocation site "public" (Join [site; "public"]) stage previous_ false) in
  match placements m with
  | None => legacy
  | Some db =>
      r ← get_placement db name;
      match r with
      | Ok p => placedLocation m name p
      | Err err => if negb (errors_is err ErrNotPlaced) then ret (Err (EWrap "look up site placement" err)) else legacy
      end
  end.

Definition requireAccountHome (loc : location) : M (res unit) :=
  let? i := Lstat (container loc) in
  match i with
  | None => ret (Err (EWrap "account home is unavailable" ErrNotExist))
  | Some IsDir => ok tt
  | Some _ => throw "account home must be a real directory"
  end.

(** ** Stages *)

(** The trees a site may publish: the directory and the name of a stage. *)
Definition resolveStagedRoot (m : Manager) (name stagedRoot : string) : M (res (string * string)) :=
  let? sitesRoot := wrap "resolve sites root" (SafePath (webRoot m) ["sites"]) in
  let absStaged := Abs stagedRoot in
  let component := Base absStaged in
  if negb (MatchString validStagedComponent component) then throw "invalid staged path component" else
  let parent := Dir absStaged in
  let? loc := locate m name in
  if placed loc then
    if negb (bool_decide (parent = stageRoot loc)) then throw "a placed site accepts stages only from the account staging root" else
    let? _ := SafePath (stageRoot loc) [component] in
    ok (stageRoot loc, component)
  else
  let siteRoot := container loc in
  if bool_decide (parent = siteRoot) then
    if negb (has_prefix component previous_) && negb (has_prefix component release_) then throw "direct site path is not a manager-owned release" else
    let? _ := SafePath siteRoot [component] in
    ok (siteRoot, component)
  else if bool_decide (parent = sitesRoot) then
    if negb (has_prefix component ".stepanel-") then throw "direct staged path must be manager-owned" else
    let? _ := SafePath sitesRoot [component] in
    ok (sitesRoot, component)
  else
  let? importRoot := wrap "resolve importer staging root" (SafePath sitesRoot [".import-staging"]) in
  if bool_decide (parent = importRoot) then
    let? _ := SafePath importRoot [component] in
    ok (importRoot, component)
  else
  let? managerRoot := wrap "resolve manager staging root" (SafePath sitesRoot [staging]) in
  if bool_decide (parent = managerRoot) then
    let? _ := SafePath managerRoot [component] in
    ok (managerRoot, component)
  else
  r ← EnsureInside sitesRoot absStaged;
  match r with
  | Err _ => throw "staged path is outside site root"
  | Ok _ => throw "staged path is not in a manager-owned staging root"
  end.

(** [IsReleaseStagingName]: the prefix of the site, then digits. *)
Definition IsReleaseStagingName (site component : string) : bool :=
  match strip_prefix (bytes_of (release_ +:+ site +:+ "-")) (bytes_of component) with
  | None => false
  | Some suffix =>
      if bool_decide (suffix = []) || negb (MatchString validSiteName site) then false else forallb is_digit suffix
  end.

Definition stageOwnerLockPrefix : string := ".stepanel-stage-owner-".
Definition stageCoordinationLock : string := ".stepanel-release-coordination.lock".
Definition stageOwnerLockPath (stage : string) : string := Join [Dir stage; stageOwnerLockPrefix +:+ Base stage].

(** [acquireManagerStageCoordination]: opens or creates the lock file and waits for it. *)
Definition acquireManagerStageCoordination (root name : string) : M (res unit) :=
  let? _ := attempt in
  w ← look;
  if negb (bool_decide (root ∈ parents w)) then ret (Err ErrNotExist) else
  let? _ := match ents w !! key (Join [root; name]) with
            | None => effect (set_ent (Join [root; name]) (File false));; ok tt
            | Some (DirTree _) => ret (Err io_err)
            | Some _ => ok tt
            end in
  attempt.

(** [DiscardReleaseStaging]. *)
Definition DiscardReleaseStaging (c : Ctx) (m : Manager) (name stagedRoot : string) : M (res unit) :=
  let? _ := ctx_err c in
  let? (parent, component) := resolveStagedRoot m name stagedRoot in
  if bool_decide (parent = "") || negb (has_prefix component release_) then throw "path is not a release staging tree" else
  let? inStageRoot := isStageRoot m parent in
  if inStageRoot && negb (IsReleaseStagingName name component) then throw "release staging tree belongs to another site" else
  let? owned := SafePath parent [component] in
  let? i := wrap "inspect release staging tree" (Lstat owned) in
  let? _ := match i with
            | None => ok tt
            | Some IsSymlink => throw "refuse to remove symlinked release staging tree"
            | Some _ => wrap "discard release staging tree" (RemoveAll owned)
            end in
  if inStageRoot then
    let? _ := wrap "coordinate release discard" (acquireManagerStageCoordination parent stageCoordinationLock) in
    wrap "remove release staging lease" (RemoveFile (stageOwnerLockPath owned))
  else ok tt.

(** [DiscardStaging]. *)
Definition DiscardStaging (c : Ctx) (m : Manager) (stagedRoot : string) : M (res unit) :=
  let? _ := ctx_err c in
  let absStaged := Abs stagedRoot in
  let managerRoot := Dir absStaged in
  let? owned := isStageRoot m managerRoot in
  if negb owned then throw "staged path is not manager-owned" else
  let component := Base absStaged in
  if negb (has_prefix component ".stepanel-") || negb (MatchString validStagedComponent component) then throw "invalid staged path component" else
  let? path := SafePath managerRoot [component] in
  let? i := wrap "inspect staging tree" (Lstat path) in
  match i with
  | None => ok tt
  | Some IsSymlink => throw "refuse to remove symlinked staging tree"
  | Some _ => wrap "discard staging tree" (RemoveAll path)
  end.

(** ** Cleanup of abandoned stages *)

Inductive Lease := LeaseMissing | LeaseActive | LeaseTaken.
(** [tryLockStage]. *)
Definition tryLockStage (path : string) : M (res Lease) :=
  let? _ := attempt in
  w ← look;
  match ents w !! key (stageOwnerLockPath path) with
  | None => ok LeaseMissing
  | Some (File true) => ok LeaseActive
  | Some (File false) => let? _ := attempt in ok LeaseTaken
  | Some _ => ret (Err io_err)
  end.

(** The closure [abandoned]: the time of change of an entry that is a directory. *)
Definition abandoned (cutoff : Z) (path : string) : M bool :=
  b ← call;
  w ← look;
  ret (negb b && match ents w !! key path with Some (DirTree t) => modified t <=? cutoff | _ => false end).

(** The loop over the old stages in the root of a legacy site. *)
Fixpoint cleanup_site (c : Ctx) (m : Manager) (cutoff : Z) (site siteRoot : string) (releases : list string) (removed : Z)
    : M (Z * option error) :=
  match releases with
  | [] => ret (removed, None)
  | release :: rest =>
      r ← ctx_err c;
      match r with
      | Err err => ret (removed, Some err)
      | Ok _ =>
          let releasePath := Join [siteRoot; release] in
          old ← (if has_prefix release release_ then abandoned cutoff releasePath else ret false);
          if negb old then cleanup_site c m cutoff site siteRoot rest removed else
          l ← tryLockStage releasePath;
          match l with
          | Err err => ret (removed, Some (EWrap "inspect release ownership" err))
          | Ok LeaseMissing | Ok LeaseActive => cleanup_site c m cutoff site siteRoot rest removed
          | Ok LeaseTaken =>
              d ← DiscardReleaseStaging c m site releasePath;
              match d with
              | Err err => ret (removed, Some err)
              | Ok _ => cleanup_site c m cutoff site siteRoot rest (removed + 1)
              end
          end
      end
  end.
Fixpoint cleanup_sites (c : Ctx) (m : Manager) (cutoff : Z) (sitesRoot : string) (entries : list string) (removed : Z)
    : M (Z * option error) :=
  match entries with
  | [] => ret (removed, None)
  | name :: rest =>
      r ← ctx_err c;
      match r with
      | Err err => ret (removed, Some err)
      | Ok _ =>
          w ← look;
          if negb (bool_decide (info w (Join [sitesRoot; name]) = Some IsDir)) || negb (MatchString validSiteName name)
          then cleanup_sites c m cutoff sitesRoot rest removed else
          sr ← SafePath (webRoot m) ["sites"; name];
          match sr with
          | Err err => ret (removed, Some err)
          | Ok siteRoot =>
              rd ← ReadDir siteRoot;
              match rd with
              | Err err => ret (removed, Some (EWrap "read site" err))
              | Ok None => ret (removed, Some (EWrap "read site" ErrNotExist))
              | Ok (Some releases) =>
                  x ← cleanup_site c m cutoff name siteRoot releases removed;
                  match x with
                  | (n, Some err) => ret (n, Some err)
                  | (n, None) => cleanup_sites c m cutoff sitesRoot rest n
                  end
              end
          end
      end
  end.

(** The two loops of [cleanupStageRoot]: leases whose stage is gone, then stages. *)
Fixpoint cleanup_leases (stageParent : string) (staged : list string) : M (option error) :=
  match staged with
  | [] => ret None
  | name :: rest =>
      if negb (has_prefix name stageOwnerLockPrefix) then cleanup_leases stageParent rest else
      i ← Lstat (Join [stageParent; TrimPrefix name stageOwnerLockPrefix]);
      match i with
      | Ok None =>
          let lockPath := Join [stageParent; name] in
          o ← attempt;
          w ← look;
          match o, ents w !! key lockPath with
          | Err err, _ => ret (Some (EWrap "inspect stale release lease" err))
          | Ok _, None => cleanup_leases stageParent rest
          | Ok _, Some (File true) => cleanup_leases stageParent rest
          | Ok _, Some (File false) =>
              l ← attempt;
              match l with
              | Err err => ret (Some (EWrap "lock stale release lease" err))
              | Ok _ =>
                  r ← RemoveFile lockPath;
                  match r with
                  | Err err => ret (Some (EWrap "remove stale release lease" err))
                  | Ok _ => cleanup_leases stageParent rest
                  end
              end
          | Ok _, Some _ => ret (Some (EWrap "inspect stale release lease" io_err))
          end
      | _ => cleanup_leases stageParent rest
      end
  end.
Fixpoint cleanup_staged (c : Ctx) (m : Manager) (cutoff : Z) (coordinated : bool) (stageParent : string) (staged : list string) (removed : Z)
    : M (Z * option error) :=
  match staged with
  | [] => ret (removed, None)
  | name :: rest =>
      r ← ctx_err c;
      match r with
      | Err err => ret (removed, Some err)
      | Ok _ =>
          let stagePath := Join [stageParent; name] in
          old ← abandoned cutoff stagePath;
          if negb old then cleanup_staged c m cutoff coordinated stageParent rest removed else
          l ← tryLockStage stagePath;
          match l with
          | Err err => ret (removed, Some (EWrap "inspect staging ownership" err))
          | Ok LeaseMissing | Ok LeaseActive => cleanup_staged c m cutoff coordinated stageParent rest removed
          | Ok LeaseTaken =>
              d ← (if coordinated then
                     let? _ := attempt in
                     dr ← DiscardStaging c m stagePath;
                     let? _ := attempt in ret dr
                   else DiscardStaging c m stagePath);
              match d with
              | Err err => ret (removed, Some err)
              | Ok _ =>
                  rm ← RemoveFile (stageOwnerLockPath stagePath);
                  match rm with
                  | Err err => ret (removed, Some (EWrap "remove staging lease" err))
                  | Ok _ => cleanup_staged c m cutoff coordinated stageParent rest (removed + 1)
                  end
              end
          end
      end
  end.
Definition cleanupStageRoot (c : Ctx) (m : Manager) (cutoff : Z) (stageParent : string) : M (Z * option error) :=
  co ← acquireManagerStageCoordination stageParent stageCoordinationLock;
  match co with
  | Err err =>
      if negb (errors_is err ErrNotExist) then ret (0, Some (EWrap "coordinate staging cleanup" err)) else
      rd ← ReadDir stageParent;
      match rd with
      | Err err => ret (0, Some (EWrap "read staging root" err))
      | Ok staged =>
          x ← cleanup_leases stageParent (default [] staged);
          match x with
          | Some err => ret (0, Some err)
          | None => cleanup_staged c m cutoff false stageParent (default [] staged) 0
          end
      end
  | Ok _ =>
      rd ← ReadDir stageParent;
      match rd with
      | Err err => ret (0, Some (EWrap "read staging root" err))
      | Ok staged =>
          x ← cleanup_leases stageParent (default [] staged);
          match x with
          | Some err => ret (0, Some err)
          | None => cleanup_staged c m cutoff true stageParent (default [] staged) 0
          end
      end
  end.
Fixpoint cleanup_roots (c : Ctx) (m : Manager) (cutoff : Z) (roots : list string) (removed : Z) : M (Z * option error) :=
  match roots with
  | [] => ret (removed, None)
  | root :: rest =>
      x ← cleanupStageRoot c m cutoff root;
      match x with
      | (n, Some err) => ret (removed + n, Some err)
      | (n, None) => cleanup_roots c m cutoff rest (removed + n)
      end
  end.

(** [CleanupOrphanedStaging]: the number of trees removed, and the error. *)
Definition CleanupOrphanedStaging (c : Ctx) (m : Manager) (olderThan : Z) : M (Z * option error) :=
  sr ← SafePath (webRoot m) ["sites"];
  match sr with
  | Err err => ret (0, Some (EWrap "resolve sites root" err))
  | Ok sitesRoot =>
      rd ← ReadDir sitesRoot;
      match rd with
      | Err err => ret (0, Some (EWrap "read sites root" err))
      | Ok None => ret (0, None)
      | Ok (Some entries) =>
          t ← now;
          let cutoff := t - olderThan in
          x ← cleanup_sites c m cutoff sitesRoot entries 0;
          match x with
          | (n, Some err) => ret (n, Some err)
          | (n, None) =>
              rs ← stageRoots m;
              match rs with
              | Err err => ret (n, Some (EWrap "resolve staging roots" err))
              | Ok roots => cleanup_roots c m cutoff roots n
              end
          end
      end
  end.

(** ** Activation *)

(** [inspectStaged]: the location of the site and the path of the stage, read from the
    listing of its directory. *)
Definition inspectStaged (m : Manager) (name stagedRoot : string) : M (res (location * string)) :=
  let? loc := locate m name in
  let? (stagedParent, stagedName) := resolveStagedRoot m name stagedRoot in
  let? listing := wrap "inspect staging parent" (ReadDir stagedParent) in
  match listing with
  | None => ret (Err (EWrap "inspect staging parent" ErrNotExist))
  | Some entries =>
      if negb (bool_decide (stagedName ∈ entries)) then throw "staged site does not exist" else
      let stagedEntry := Join [stagedParent; stagedName] in
      let? i := wrap "inspect staged site" (Lstat stagedEntry) in
      if negb (bool_decide (i = Some IsDir)) then throw "staged site must be a directory" else
      ok (loc, stagedEntry)
  end.

Definition prepareActivationParent (loc : location) : M (res unit) :=
  if placed loc then requireAccountHome loc else wrap "prepare activation parent" (MkdirAll (container loc)).

(** [renameDurable]: the rename is undone when the directory cannot be synced. *)
Definition renameDurable (from to : string) : M (res unit) :=
  let? _ := Rename from to in
  y ← syncDir (Dir to);
  match y with
  | Ok _ => ok tt
  | Err _ =>
      r ← Rename to from;
      match r with
      | Err _ => throw "remains published; reverse rename failed"
      | Ok _ => throw "sync failed"
      end
  end.

(** [restorePreviousRelease]: always the cause, joined with a failure of its own. *)
Definition restorePreviousRelease {A} (previous destination : string) (cause : error) : M (res A) :=
  if bool_decide (previous = "") then ret (Err cause) else
  r ← Rename previous destination;
  match r with
  | Err _ => ret (Err (EWrap "restore previous release" cause))
  | Ok _ =>
      y ← syncDir (Dir destination);
      match y with
      | Err _ => ret (Err (EWrap "persist restored previous release" cause))
      | Ok _ => ret (Err cause)
      end
  end.

Definition ActivateStaged (c : Ctx) (m : Manager) (name stagedRoot : string) : M (res string) :=
  let? _ := ctx_err c in
  let? (loc, stagedEntry) := inspectStaged m name stagedRoot in
  let destination := docRoot loc in
  let? _ := ctx_err c in
  let? i := wrap "inspect activation destination" (Lstat destination) in
  if negb (bool_decide (i = None)) then throw "destination site already exists" else
  let? _ := prepareActivationParent loc in
  let? _ := ctx_err c in
  let? _ := wrap "persist staged site" (syncTree stagedEntry) in
  let? _ := wrap "activate staged site" (renameDurable stagedEntry destination) in
  ok destination.

(** [ActivateStagedReplacing]: the path at which the replaced release is kept. *)
Definition ActivateStagedReplacing (c : Ctx) (m : Manager) (name stagedRoot : string) : M (res string) :=
  let? _ := ctx_err c in
  let? (loc, stagedEntry) := inspectStaged m name stagedRoot in
  let siteRoot := container loc in
  let destination := docRoot loc in
  let? _ := wrap "persist staged release" (syncTree stagedEntry) in
  let? _ := ctx_err c in
  let? i := wrap "inspect activation destination" (Lstat destination) in
  let? previous :=
    match i with
    | None => ok ""
    | Some IsDir =>
        t ← now;
        let? previous := SafePath siteRoot [previousPrefix loc +:+ Itoa t] in
        let? _ := wrap "preserve current release" (Rename destination previous) in
        ok previous
    | Some _ => throw "activation destination must be a directory"
    end in
  x ← ctx_err c;
  match x with
  | Err err => restorePreviousRelease previous destination err
  | Ok _ =>
      p ← prepareActivationParent loc;
      match p with
      | Err err => restorePreviousRelease previous destination err
      | Ok _ =>
          r ← renameDurable stagedEntry destination;
          match r with
          | Err err => restorePreviousRelease previous destination (EWrap "activate staged release" err)
          | Ok _ => ok previous
          end
      end
  end.

Definition RollbackStagedActivation (c : Ctx) (m : Manager) (name previous : string) : M (res unit) :=
  let? loc := locate m name in
  let siteRoot := container loc in
  let destination := docRoot loc in
  let? _ := ctx_err c in
  let? i := wrap "inspect failed activation" (Lstat destination) in
  let? _ := match i with
            | None => ok tt
            | Some IsDir => wrap "remove failed activation" (RemoveAll destination)
            | Some _ => throw "refuse to remove non-directory activation"
            end in
  if bool_decide (previous = "") then ok tt else
  let absPrevious := Abs previous in
  if negb (bool_decide (Dir absPrevious = siteRoot)) || negb (has_prefix (Base absPrevious) (previousPrefix loc))
  then throw "invalid previous release path" else
  let? previous := SafePath siteRoot [Base absPrevious] in
  let? _ := wrap "restore previous release" (Rename previous destination) in
  wrap "persist restored release" (syncDir siteRoot).

(** ** Deletion *)

(** [removeEntryAtRoot]. *)
Definition removeEntryAtRoot (c : Ctx) (root name : string) : M (res unit) :=
  let? _ := ctx_err c in
  let? i := wrap "inspect entry" (Lstat (Join [root; name])) in
  match i with
  | None => ok tt
  | Some IsDir => wrap "remove entry" (RemoveAll (Join [root; name]))
  | Some _ => throw "refuse to delete: not a real directory"
  end.
Fixpoint remove_previous (c : Ctx) (root prefix : string) (entries : list string) : M (res unit) :=
  match entries with
  | [] => ok tt
  | name :: rest =>
      if has_prefix name prefix then
        let? _ := removeEntryAtRoot c root name in remove_previous c root prefix rest
      else remove_previous c root prefix rest
  end.
Definition deletePlaced (c : Ctx) (loc : location) : M (res unit) :=
  let? _ := wrap "open account home" attempt in
  w ← look;
  if negb (bool_decide (container loc ∈ parents w)) then ok tt else
  let? _ := removeEntryAtRoot c (container loc) (docName loc) in
  let? listing := wrap "list account home" (ReadDir (container loc)) in
  remove_previous c (container loc) (previousPrefix loc) (default [] listing).

(** Everything below a site root. *)
Definition gut_below (d : string) (w : World) : World :=
  mkWorld (map_imap (λ k n, Some (if decide (k.1 = d) then gut n else n)) (ents w)) (parents w) (journals w).
Definition del_below (d : string) (w : World) : World :=
  mkWorld (filter (λ kn, kn.1.1 ≠ d) (ents w)) (parents w ∖ {[d]}) (journals w).

(** [openSitesRoot], [removeSiteAtRoot] and the legacy half of [Delete]. *)
Definition removeSiteAtRoot (c : Ctx) (sitesRoot name : string) : M (res unit) :=
  if negb (MatchString validSiteName name) then throw "invalid site name" else
  let? _ := ctx_err c in
  let site := Join [sitesRoot; name] in
  let? i := wrap "inspect site" (Lstat site) in
  match i with
  | None => ok tt
  | Some IsSymlink => throw "refuse to delete site: path is a symlink"
  | Some IsRegular => throw "refuse to delete site: path is not a directory"
  | Some IsDir =>
      let? _ := ctx_err c in
      effect (gut_below site);; let? _ := wrap "remove site" attempt in effect (del_below site);; ok tt
  end.
Definition Delete (c : Ctx) (m : Manager) (name : string) : M (res unit) :=
  let? _ := ctx_err c in
  let? loc := locate m name in
  if placed loc then deletePlaced c loc else
  let? _ := wrap "open sites directory" attempt in
  let? _ := removeSiteAtRoot c (Join [webRoot m; "sites"]) name in
  wrap "close sites directory" attempt.

(** ** The panel's view *)

Record Config := mkConfig {
  WebRoot : string; HomeRoot : string; RecoveryRoot : string;
  GitReleaseRetention : Z; GitReleaseMaxAgeHours : Z; GitReleaseMaxBytes : Z;
  (** [sitePlacementDB]. *)
  placementDB : option DB }.

(** The fields of [siteLocation] that the release code reads. *)
Record siteLocation := mkSiteLocation {
  Placed : bool; LHome : string; Private : string; LDocRoot : string; PreviousPrefix : string }.
Definition siteNamePattern : re := rep 1 32 name_class.

Definition siteLocationFor (cfg : Config) (site : string) : M (res siteLocation) :=
  if negb (MatchString siteNamePattern site) then throw "invalid site" else
  let legacy :=
    let? home := SafePath (WebRoot cfg) ["sites"; site] in
    ok (mkSiteLocation false home home (Join [home; "public"]) previous_) in
  match placementDB cfg with
  | Some db =>
      if bool_decide (TrimSpace (HomeRoot cfg) = "") then legacy else
      r ← get_placement db site;
      match r with
      | Ok p =>
          let? home := SafePath (HomeRoot cfg) [UnixUser p] in
          let? doc := SafePath home [Directory p] in
          let? private := SafePath home [".stepanel"; "sites"; site] in
          ok (mkSiteLocation true home private doc (previous_ +:+ Directory p +:+ "-"))
      | Err err => if negb (errors_is err ErrNotPlaced) then ret (Err (EWrap "resolve site placement" err)) else legacy
      end
  | None => legacy
  end.
Definition siteDocRoot (cfg : Config) (site : string) : M (res string) :=
  let? l := siteLocationFor cfg site in ok (LDocRoot l).

Definition newSiteManagerForConfig (cfg : Config) : res Manager :=
  let web := Abs (WebRoot cfg) in
  match placementDB cfg with
  | Some db =>
      if bool_decide (TrimSpace (HomeRoot cfg) = "") then NewDefaultManager web else
      NewAccountManager web (Abs (HomeRoot cfg)) db
  | None => NewDefaultManager web
  end.
End host.
End Sites.
