(* ===== verification/SitesProps.v ===== *)
(** * SitesProps: where sites live

    Reasoning about the host of [Sites], and its first results: the manager and the
    panel derive the same locations, no two sites share a document root, a stage
    belongs to one site, and the cleanup of stages never touches a leased or recent
    one. *)
From S2P Require Import Prelude GoPath GoText Regex Names SiteLayout Sites.

Module SitesProps.
Import GoPath GoText Regex Names SiteLayout Sites.
#[local] Open Scope host_scope.

Create HintDb sites.

(** ** Calls *)

Section calls.
Context (e : Env) (cwd : string).

Lemma reads_Lstat p s : reads (Lstat e p) s (λ r, ∀ i, r = Ok i → i = info (world s) p).
Proof.
  unfold Lstat. eapply (reads_rbind _ _ _ (λ _, True)); [by eapply reads_mono; [|apply reads_attempt]|done|].
  intros _ c _. eapply reads_bind; [apply reads_look|]. intros ? c' <-. apply reads_ret. intros i [= <-]. done.
Qed.
Lemma reads_ReadDir d s :
  reads (ReadDir e d) s (λ r, ∀ l, r = Ok l → l = if decide (d ∈ parents (world s)) then Some (names_of (world s) d) else None).
Proof.
  unfold ReadDir. eapply (reads_rbind _ _ _ (λ _, True)); [by eapply reads_mono; [|apply reads_attempt]|done|].
  intros _ c _. eapply reads_bind; [apply reads_look|]. intros ? c' <-. apply reads_ret. by intros l [= <-].
Qed.

(** *** Without failures *)
Context (Hq : quiet e).
Lemma quiet_Lstat p s : reads (Lstat e p) s (eq (Ok (info (world s) p))).
Proof.
  unfold Lstat. eapply reads_rok; [by apply quiet_attempt|]. intros c.
  eapply reads_bind; [apply reads_look|]. intros ? c' <-. by apply reads_ret.
Qed.
Lemma quiet_ReadDir d s :
  reads (ReadDir e d) s (eq (Ok (if decide (d ∈ parents (world s)) then Some (names_of (world s) d) else None))).
Proof.
  unfold ReadDir. eapply reads_rok; [by apply quiet_attempt|]. intros c.
  eapply reads_bind; [apply reads_look|]. intros ? c' <-. by apply reads_ret.
Qed.
End calls.

(** ** Paths *)

(** A clean absolute path other than the root. *)
Definition clean_abs (p : string) : Prop := ∃ cs, cs ≠ [] ∧ Forall plain cs ∧ p = abs_path cs.

Lemma abs_IsAbs cs : IsAbs (abs_path cs) = true.
Proof. unfold IsAbs, abs_path. rewrite bytes_of_of. cbn. by apply bool_decide_true. Qed.
Lemma Abs_abs cwd p : clean_abs p → Abs cwd p = p.
Proof. intros (cs & Hn & Hp & ->). unfold Abs. by rewrite abs_IsAbs, Clean_abs. Qed.

Lemma plain_snoc cs c : Forall plain cs → plain c → cs ++ [c] ≠ [] ∧ Forall plain (cs ++ [c]).
Proof. intros H Hc. split; [by intros [? ?]%app_nil|]. apply Forall_app. auto. Qed.
Lemma Join_snoc cs n : cs ≠ [] → Forall plain cs → plainb n = true → Join [abs_path cs; n] = abs_path (cs ++ [bytes_of n]).
Proof. intros Hn Hp Hb%plainb_plain. rewrite <- (of_bytes_of n) at 1. apply (Join_abs cs [bytes_of n]); auto. Qed.
Lemma clean_Join p n : clean_abs p → plainb n = true → clean_abs (Join [p; n]).
Proof.
  intros (cs & Hn & Hp & ->) Hb. exists (cs ++ [bytes_of n]). rewrite Join_snoc by done.
  destruct (plain_snoc cs (bytes_of n)); auto using plainb_plain.
Qed.
Lemma Join_inj p q n n' : clean_abs p → clean_abs q → plainb n = true → plainb n' = true →
  Join [p; n] = Join [q; n'] → p = q ∧ n = n'.
Proof.
  intros (cs & Hc & Pc & ->) (ds & Hd & Pd & ->) Hn Hn' E. rewrite !Join_snoc in E by done.
  destruct (plain_snoc cs (bytes_of n)), (plain_snoc ds (bytes_of n')); auto using plainb_plain.
  apply abs_path_inj in E; [|done..]. apply app_inj_tail in E as [-> E]. split; [done|]. by apply (inj bytes_of).
Qed.

Lemma Dir_Join p n : clean_abs p → plainb n = true → Dir (Join [p; n]) = p.
Proof.
  intros (cs & Hn & Hp & ->) Hb. rewrite Join_snoc by done. apply plainb_plain in Hb.
  unfold Dir, abs_path, Dir_bytes, dir_part. rewrite bytes_of_of, split_abs by (apply plain_snoc; done).
  change ([] :: cs ++ [bytes_of n]) with (([] :: cs) ++ [bytes_of n]). rewrite removelast_last.
  f_equal. rewrite join_cons by done. cbn [app]. unfold Clean_bytes, clean_comps. cbn [rooted_path]. rewrite bool_decide_true by done.
  rewrite <- app_comm_cons. change (slash :: join_bytes cs ++ [slash]) with ([] ++ slash :: (join_bytes cs ++ slash :: [])).
  rewrite split_app_sep by set_solver. rewrite <- (join_bytes_snoc cs []) by done.
  rewrite split_join; [|by intros [? ?]%app_nil|apply Forall_app; split; [by apply plain_no_slash|repeat constructor; set_solver]].
  cbn [foldl]. change (clean_step true [] []) with (@nil byteseq). rewrite foldl_app, (clean_fold_plain _ cs) by done. cbn [foldl].
  unfold clean_step. rewrite decide_True by auto. by rewrite app_nil_r, reverse_involutive.
Qed.
Lemma Base_Join p n : clean_abs p → plainb n = true → Base (Join [p; n]) = n.
Proof.
  intros (cs & Hn & Hp & ->) Hb. rewrite Join_snoc by done. apply plainb_plain in Hb as Hb'.
  destruct (plain_snoc cs (bytes_of n)) as [H1 H2]; [done..|].
  unfold Base. rewrite decide_False by done. unfold abs_path. rewrite bytes_of_of, split_abs by done.
  rewrite filter_cons_False by auto.
  assert (∀ l : list byteseq, Forall plain l → filter (λ c, c ≠ []) l = l) as Hf.
  { induction 1 as [|c l (Hc & _) _ IH]; [done|]. by rewrite filter_cons_True, IH. }
  rewrite Hf by done. destruct (cs ++ [bytes_of n]) as [|c l] eqn:E; [done|]. rewrite <- E.
  rewrite List.last_last. apply of_bytes_of.
Qed.
Lemma key_Join p n : clean_abs p → plainb n = true → key (Join [p; n]) = (p, n).
Proof. intros Hp Hn. unfold key. by rewrite Dir_Join, Base_Join. Qed.
#[export] Hint Resolve clean_Join : sites.

(** ** Safe paths *)

Definition joined (root : string) (parts : list string) : string := foldl (λ t p, Join [t; p]) root parts.
(** No entry is a symbolic link. *)
Definition no_links (w : World) : Prop := ∀ k, ents w !! k ≠ Some Symlink.

Lemma info_no_links w p : no_links w → info w p ≠ Some IsSymlink.
Proof. intros H. unfold info. case_decide; [done|]. specialize (H (key p)). by destruct (ents w !! key p) as [[]|]. Qed.

Lemma Join_text p n : clean_abs p → plainb n = true → Join [p; n] = p +:+ "/" +:+ n.
Proof.
  intros (cs & Hn & Hp & ->) Hb. rewrite Join_snoc by done. apply plainb_plain in Hb.
  rewrite <- (of_bytes_of n) at 2. by rewrite join_string.
Qed.
Lemma clean_joined root parts : clean_abs root → forallb plainb parts = true → clean_abs (joined root parts).
Proof.
  revert root. induction parts as [|p parts IH]; intros root Hr Hp; [done|]. cbn [forallb] in Hp. apply andb_true_iff in Hp as [H1 H2].
  unfold joined in *. cbn [foldl]. auto with sites.
Qed.
Lemma joined_text root parts : clean_abs root → forallb plainb parts = true →
  ∃ r, joined root parts = root +:+ r ∧ (parts ≠ [] → ∃ r', r = "/" +:+ r').
Proof.
  revert root. induction parts as [|p parts IH]; intros root Hr Hp.
  { exists "". split; [|done]. apply (inj bytes_of). by rewrite bytes_of_app, app_nil_r. }
  cbn [forallb] in Hp. apply andb_true_iff in Hp as [H1 H2]. destruct (IH (Join [root; p])) as (r & E & _); [auto with sites|done|].
  unfold joined in *. cbn [foldl]. rewrite E, Join_text by done. exists ("/" +:+ p +:+ r). split; [|eauto].
  apply (inj bytes_of). rewrite !bytes_of_app. by rewrite <- !app_assoc.
Qed.
Lemma joined_below root parts : clean_abs root → forallb plainb parts = true → parts ≠ [] →
  has_prefix (joined root parts) (root +:+ "/") = true.
Proof.
  intros Hr Hp Hne. destruct (joined_text root parts Hr Hp) as (r & -> & H). destruct (H Hne) as [r' ->].
  apply has_prefix_iff. exists r'. apply (inj bytes_of). rewrite !bytes_of_app. by rewrite <- !app_assoc.
Qed.
Lemma plainb_part p : plainb p = true → bool_decide (p = "") || IsAbs p = false.
Proof.
  intros (H1 & _ & _ & H4)%bool_decide_eq_true. apply orb_false_iff. split; [by apply bool_decide_false|].
  unfold IsAbs, rooted_path. destruct (bytes_of p) as [|c l]; [done|]. apply bool_decide_false. set_solver.
Qed.
Lemma clean_nonempty p : clean_abs p → p ≠ "".
Proof. by intros (cs & _ & _ & ->). Qed.

Section safe_path.
Context (e : Env) (cwd : string).

(** Reading a value when every path is an error or the value of the last step. *)
Lemma reads_reject current parts s : reads (reject_parents e current parts) s (λ _, True).
Proof.
  revert current s. induction parts as [|p parts IH]; intros current s; cbn [reject_parents]; [by apply reads_ret|].
  eapply (reads_rbind _ _ _ (λ _, True)); [by eapply reads_mono; [|apply reads_Lstat]|done|]. intros i c _.
  case_decide; [by apply reads_ret|apply IH].
Qed.
Lemma reads_RejectSymlinkParents path root s : reads (RejectSymlinkParents e cwd path root) s (λ _, True).
Proof.
  unfold RejectSymlinkParents. case_match; [by apply reads_ret|]. eapply reads_bind; [apply reads_Lstat|]. intros r c _.
  case_match; [by apply reads_ret|apply reads_reject].
Qed.
Lemma reads_EnsureInside root target s : reads (EnsureInside e cwd root target) s (λ _, True).
Proof. unfold EnsureInside. case_match; [by apply reads_ret|apply reads_RejectSymlinkParents]. Qed.
Lemma reads_SafePath root parts s : reads (SafePath e cwd root parts) s (λ r, ∀ t, r = Ok t → t = joined root parts).
Proof.
  unfold SafePath. case_match; [by apply reads_ret|]. case_match; [by apply reads_ret|].
  eapply (reads_rbind _ _ _ (λ _, True)); [by eapply reads_mono; [|apply reads_EnsureInside]|done|]. intros _ c _.
  eapply (reads_rbind _ _ _ (λ _, True)); [by eapply reads_mono; [|apply reads_Lstat]|done|]. intros i c' _.
  destruct (decide (i = Some IsSymlink)); apply reads_ret; [done|]. by intros t [= <-].
Qed.

Context (Hq : quiet e).
Lemma quiet_reject current parts s : no_links (world s) → reads (reject_parents e current parts) s (eq (Ok tt)).
Proof.
  intros Hl. revert current s Hl. induction parts as [|p parts IH]; intros current s Hl; cbn [reject_parents]; [by apply reads_ret|].
  eapply reads_rok; [by apply quiet_Lstat|]. intros c. rewrite decide_False by (by apply info_no_links). by apply IH.
Qed.
Lemma quiet_SafePath root parts s : clean_abs root → forallb plainb parts = true → parts ≠ [] → no_links (world s) →
  reads (SafePath e cwd root parts) s (eq (Ok (joined root parts))).
Proof.
  intros Hr Hp Hne Hl. pose proof (clean_joined root parts Hr Hp) as Hj. pose proof (joined_below root parts Hr Hp Hne) as Hb.
  unfold SafePath. rewrite bool_decide_false by (by apply clean_nonempty).
  assert (existsb (λ p, bool_decide (p = "") || IsAbs p) parts = false) as ->.
  { clear Hj Hb Hne. induction parts as [|p parts IH]; [done|]. cbn in *. apply andb_true_iff in Hp as [H1 H2].
    by rewrite plainb_part, IH. }
  change (foldl (λ t p, Join [t; p]) root parts) with (joined root parts).
  assert (∀ b, negb b && negb (has_prefix (joined root parts) (root +:+ "/")) = false) as Hin.
  { intros b. by rewrite Hb, andb_false_r. }
  eapply reads_rok.
  { unfold EnsureInside. rewrite !(Abs_abs cwd) by done. rewrite Hin. unfold RejectSymlinkParents. rewrite !(Abs_abs cwd) by done.
    rewrite Hin. eapply reads_bind; [by apply quiet_Lstat|]. intros ? c <-. rewrite bool_decide_false; [by apply quiet_reject|].
    intros [= E]. by apply (info_no_links (world s) root) in Hl. }
  intros c. eapply reads_rok; [by apply quiet_Lstat|]. intros c'. rewrite decide_False by (by apply info_no_links). by apply reads_ret.
Qed.
End safe_path.

(** ** Locations *)

Lemma site_name_plain n : MatchString validSiteName n = true → plainb n = true.
Proof. by apply (plain_pattern validSiteName); vm_compute. Qed.
Lemma staged_component_plain n : MatchString validStagedComponent n = true → plainb n = true.
Proof. by apply (plain_pattern validStagedComponent); vm_compute. Qed.

(** The placement of a site, if it has one. *)
Definition placement_of (db : option DB) (site : string) : option Placement :=
  match db with Some d => of_row site <$> site_placements d !! site | None => None end.
Lemma placement_of_site db site p : placement_of db site = Some p → Site p = site.
Proof. unfold placement_of. destruct db as [d|]; [|done]. destruct (site_placements d !! site); cbn; [|done]. by intros [= <-]. Qed.
(** Where the names alone put a site. *)
Definition lexical (m : Manager) (site : string) : location :=
  match placement_of (placements m) site with
  | None =>
      let root := joined (webRoot m) ["sites"; site] in
      mkLocation root "public" (Join [root; "public"]) (joined (webRoot m) ["sites"; staging]) previous_ false
  | Some p =>
      let home := joined (homeRoot m) [UnixUser p] in
      mkLocation home (Directory p) (joined home [Directory p])
        (if bool_decide (homeRoot m = "") then "" else joined (homeRoot m) [staging]) (previous_ +:+ Directory p +:+ "-") true
  end.

Section locations.
Context (e : Env) (cwd : string).

Lemma reads_homeStageRoot m s :
  reads (homeStageRoot e cwd m) s (λ r, ∀ t, r = Ok t → t = if bool_decide (homeRoot m = "") then "" else joined (homeRoot m) [staging]).
Proof. unfold homeStageRoot. case_match; [apply reads_ret; by intros t [= <-]|apply reads_SafePath]. Qed.
Lemma reads_get_placement db site s :
  reads (get_placement e db site) s (λ r,
    (∀ p, r = Ok p → placement_of (Some db) site = Some p ∧ Validate p = None ∧ Site p = site) ∧
    (∀ err, r = Err err → errors_is err ErrNotPlaced = true → placement_of (Some db) site = None)).
Proof.
  unfold get_placement. eapply reads_bind; [apply reads_call|]. intros b c _. apply reads_ret. unfold Get. cbn [fault].
  unfold placement_of. cbn. destruct b.
  { split; [done|]. by intros err [= <-]. }
  destruct (site_placements db !! site) as [r|]; cbn; [|split; [done|by intros]].
  destruct (Validate (of_row site r)) as [err|] eqn:E; split; try done; intros x [= <-]; [|done].
  intros H. exfalso. revert H E. unfold Validate, ValidUnixUser. repeat case_if; intros ? [= <-]; done.
Qed.

Lemma reads_locate m site s :
  reads (locate e cwd m site) s (λ r, ∀ loc, r = Ok loc → MatchString validSiteName site = true ∧ loc = lexical m site ∧
    ∀ p, placement_of (placements m) site = Some p → Validate p = None).
Proof.
  unfold locate. destruct (MatchString validSiteName site) eqn:Hv; cbn [negb]; [|by apply reads_ret].
  assert (∀ s', placement_of (placements m) site = None → reads
    (let? root := SafePath e cwd (webRoot m) ["sites"; site] in let? stage := legacyStageRoot e cwd m in
     ok (mkLocation root "public" (Join [root; "public"]) stage previous_ false)) s'
    (λ r, ∀ loc, r = Ok loc → true = true ∧ loc = lexical m site ∧ ∀ p, placement_of (placements m) site = Some p → Validate p = None)) as Hleg.
  { intros s' Hno. eapply reads_rbind; [apply reads_SafePath|done|]. intros root c ->.
    eapply reads_rbind; [apply reads_SafePath|done|]. intros st c' ->. apply reads_ret. intros loc [= <-].
    unfold lexical. rewrite Hno. done. }
  destruct (placements m) as [db|] eqn:Hdb; [|by apply Hleg].
  eapply reads_bind; [apply reads_get_placement|]. intros [p|err] c [Hok Herr].
  - destruct (Hok p) as (Hp & Hval & Hsite); [done|]. unfold placedLocation. rewrite Hsite, bool_decide_true by done. cbn [negb].
    rewrite Hval. eapply reads_rbind; [apply reads_SafePath|done|]. intros home c1 ->.
    eapply reads_rbind; [apply reads_SafePath|done|]. intros doc c2 ->.
    eapply reads_rbind; [apply reads_homeStageRoot|done|]. intros st c3 ->. apply reads_ret. intros loc [= <-].
    unfold lexical. rewrite Hdb, Hp. split_and!; [done|done|]. by intros q [= <-].
  - destruct (errors_is err ErrNotPlaced) eqn:He; cbn [negb]; [|by apply reads_ret]. apply Hleg. by apply Herr with err.
Qed.

Lemma reads_siteLocationFor cfg site s :
  reads (siteLocationFor e cwd cfg site) s (λ r, ∀ l, r = Ok l →
    let db := if bool_decide (TrimSpace (HomeRoot cfg) = "") then None else placementDB cfg in
    let loc := lexical (mkManager (WebRoot cfg) (HomeRoot cfg) db) site in
    LHome l = container loc ∧ LDocRoot l = docRoot loc ∧ PreviousPrefix l = previousPrefix loc ∧ Placed l = placed loc).
Proof.
  unfold siteLocationFor. destruct (MatchString siteNamePattern site); cbn [negb]; [|by apply reads_ret].
  set (good := λ r : res siteLocation, ∀ l, r = Ok l → _).
  assert (∀ s' db, placement_of db site = None → reads
    (let? home := SafePath e cwd (WebRoot cfg) ["sites"; site] in
     ok (mkSiteLocation false home home (Join [home; "public"]) previous_)) s' (λ r, ∀ l, r = Ok l →
       let loc := lexical (mkManager (WebRoot cfg) (HomeRoot cfg) db) site in
       LHome l = container loc ∧ LDocRoot l = docRoot loc ∧ PreviousPrefix l = previousPrefix loc ∧ Placed l = placed loc)) as Hleg.
  { intros s' db Hno. eapply reads_rbind; [apply reads_SafePath|done|]. intros root c ->. apply reads_ret. intros l [= <-].
    unfold lexical. cbn [placements]. by rewrite Hno. }
  subst good. destruct (placementDB cfg) as [db|] eqn:Hdb; cbn zeta.
  2:{ destruct (bool_decide _); by apply (Hleg s None). }
  case_bool_decide; [by apply (Hleg s None)|].
  eapply reads_bind; [apply reads_get_placement|]. intros [p|err] c [Hok Herr].
  - destruct (Hok p) as (Hp & Hval & Hsite); [done|].
    eapply reads_rbind; [apply reads_SafePath|done|]. intros home c1 ->.
    eapply reads_rbind; [apply reads_SafePath|done|]. intros doc c2 ->.
    eapply reads_rbind; [apply reads_SafePath|done|]. intros pr c3 _. apply reads_ret. intros l [= <-].
    unfold lexical. cbn [placements]. by rewrite Hp.
  - destruct (errors_is err ErrNotPlaced) eqn:He; cbn [negb]; [|by apply reads_ret]. apply Hleg. by apply Herr with err.
Qed.

(** *** Without failures *)

(** The name is valid, and so are the roots and the placement. *)
Record well_placed (m : Manager) (site : string) : Prop := {
  wp_name : MatchString validSiteName site = true;
  wp_web : clean_abs (webRoot m);
  wp_placement : ∀ p, placement_of (placements m) site = Some p → Validate p = None ∧ clean_abs (homeRoot m) }.

Context (Hq : quiet e).
Lemma quiet_get_placement db site s :
  (∀ p, placement_of (Some db) site = Some p → Validate p = None) →
  reads (get_placement e db site) s (eq (match placement_of (Some db) site with Some p => Ok p | None => Err ErrNotPlaced end)).
Proof.
  intros Hv. exists (Get (mkEnv (clock e) (λ _, false) (rand e)) site db), (S (calls s)).
  unfold get_placement, bind, call. rewrite (Hq (calls s)). split; [done|]. unfold Get, placement_of in *. cbn [fault].
  destruct (site_placements db !! site) as [r|]; cbn in *; [|done]. by rewrite (Hv _ eq_refl).
Qed.
Lemma site_parts site : MatchString validSiteName site = true → forallb plainb ["sites"; site] = true.
Proof. intros H. cbn [forallb]. by rewrite (site_name_plain site). Qed.
Lemma placed_parts p : Validate p = None → forallb plainb [UnixUser p] = true ∧ forallb plainb [Directory p] = true.
Proof. intros [H1 H2]%Validate_plain. cbn [forallb]. by rewrite H1, H2. Qed.

Lemma quiet_locate m site s : well_placed m site → no_links (world s) → reads (locate e cwd m site) s (eq (Ok (lexical m site))).
Proof.
  intros [Hn Hw Hp] Hl. unfold locate. rewrite Hn. cbn [negb].
  assert (∀ s', world s' = world s → placement_of (placements m) site = None → reads
    (let? root := SafePath e cwd (webRoot m) ["sites"; site] in let? stage := legacyStageRoot e cwd m in
     ok (mkLocation root "public" (Join [root; "public"]) stage previous_ false)) s' (eq (Ok (lexical m site)))) as Hleg.
  { intros s' Es Hno. eapply reads_rok; [apply quiet_SafePath; [done..|by apply site_parts|done|by rewrite Es]|]. intros c.
    eapply reads_rok; [apply quiet_SafePath; [done..|by cbn; rewrite Es]|]. intros c'. apply reads_ret. unfold lexical. by rewrite Hno. }
  destruct (placements m) as [db|] eqn:Hdb; [|by apply Hleg].
  eapply reads_bind; [apply quiet_get_placement; intros p Hpl; by apply Hp|]. intros ? c <-.
  destruct (placement_of (Some db) site) as [p|] eqn:Epl; [|by apply Hleg].
  destruct (Hp p eq_refl) as [Hval Hh]. unfold placedLocation.
  assert (Site p = site) as -> by (by apply (placement_of_site (Some db))).
  rewrite bool_decide_true, Hval by done. cbn [negb]. destruct (placed_parts p Hval) as [Hu Hd].
  eapply reads_rok; [by apply quiet_SafePath|]. intros c1. eapply reads_rok; [apply quiet_SafePath; [done|by apply clean_joined|done..]|]. intros c2.
  assert (reads (homeStageRoot e cwd m) (at_call (at_call (at_call s c) c1) c2) (eq (Ok (joined (homeRoot m) [staging])))) as Hst.
  { unfold homeStageRoot. rewrite bool_decide_false by (by apply clean_nonempty). by apply quiet_SafePath. }
  eapply reads_rok; [exact Hst|]. intros c3. apply reads_ret. unfold lexical. rewrite Hdb, Epl.
  by rewrite bool_decide_false by (by apply clean_nonempty).
Qed.
End locations.

(** The manager of a configuration. *)
Definition cfg_db (cfg : Config) : option DB := if bool_decide (TrimSpace (HomeRoot cfg) = "") then None else placementDB cfg.
(** The roots are absolute and clean. *)
Definition clean_config (cfg : Config) : Prop :=
  clean_abs (WebRoot cfg) ∧ (is_Some (cfg_db cfg) → clean_abs (HomeRoot cfg)).

Lemma bad_root_clean p : clean_abs p → bad_root p = false.
Proof.
  intros (cs & Hn & Hp & ->). unfold bad_root. rewrite abs_IsAbs.
  rewrite !bool_decide_false; [done| |done]. intros E. apply (f_equal IsAbs) in E. by rewrite abs_IsAbs in E.
Qed.
Lemma Clean_clean p : clean_abs p → Clean p = p.
Proof. intros (cs & Hn & Hp & ->). by apply Clean_abs. Qed.
Lemma manager_of_config cwd cfg m : clean_config cfg → newSiteManagerForConfig cwd cfg = Ok m →
  webRoot m = WebRoot cfg ∧ placements m = cfg_db cfg ∧ (is_Some (cfg_db cfg) → homeRoot m = HomeRoot cfg).
Proof.
  intros [Hw Hh] Hm. unfold newSiteManagerForConfig, NewDefaultManager, NewAccountManager, NewDefaultManager, cfg_db in *.
  rewrite (Abs_abs cwd (WebRoot cfg)), Clean_clean, bad_root_clean in Hm by done.
  destruct (placementDB cfg) as [db|]; [|injection Hm as <-; by case_bool_decide].
  case_bool_decide; [by injection Hm as <-|]. specialize (Hh (ex_intro _ db eq_refl)).
  rewrite (Abs_abs cwd (HomeRoot cfg)), Clean_clean, bad_root_clean in Hm by done. by injection Hm as <-.
Qed.
Lemma lexical_ext m m' site : webRoot m = webRoot m' → placements m = placements m' →
  (is_Some (placements m) → homeRoot m = homeRoot m') → lexical m site = lexical m' site.
Proof.
  intros Hw Hp Hh. unfold lexical. rewrite <- Hp, Hw. destruct (placements m); [|done]. by rewrite Hh.
Qed.

(** C29: The panel and the site manager derive the same home, document root and prefix of
    preserved releases for every site. *)
Theorem locations_agree e1 e2 cwd cfg m site s1 s2 s1' s2' l loc :
  clean_config cfg → newSiteManagerForConfig cwd cfg = Ok m →
  siteLocationFor e1 cwd cfg site s1 = (Some (Ok l), s1') → locate e2 cwd m site s2 = (Some (Ok loc), s2') →
  LHome l = container loc ∧ LDocRoot l = docRoot loc ∧ PreviousPrefix l = previousPrefix loc ∧ Placed l = placed loc.
Proof.
  intros Hc Hm H1 H2. destruct (manager_of_config cwd cfg m Hc Hm) as (Hw & Hp & Hh).
  destruct (reads_siteLocationFor e1 cwd cfg site s1) as (r1 & c1 & E1 & P1). rewrite H1 in E1. injection E1 as <- _.
  destruct (reads_locate e2 cwd m site s2) as (r2 & c2 & E2 & P2). rewrite H2 in E2. injection E2 as <- _.
  destruct (P2 _ eq_refl) as (_ & -> & _). specialize (P1 _ eq_refl). cbn zeta in P1.
  rewrite (lexical_ext m (mkManager (WebRoot cfg) (HomeRoot cfg) (cfg_db cfg))); [exact P1|done..|].
  rewrite Hp. exact Hh.
Qed.

(** ** Changes *)

Section changes.
Context (e : Env).

Lemma holds_Rename a b s Q :
  (∀ err c, Q (Some (Err err)) (at_call s c)) → (∀ c, Q None (at_call s c)) →
  (∀ c l, can_move a b (world s) = true → Q (Some (Ok tt)) (mkSt (move a b (world s)) c l)) → holds (Rename e a b) s Q.
Proof.
  intros He Hk Hm. unfold Rename. apply (holds_rread _ _ _ (λ _, True)); [by eapply reads_mono; [|apply reads_attempt]|done|].
  intros _ c _. eapply holds_read; [apply reads_look|]. intros ? c' <-. cbn [world at_call].
  destruct (can_move a b (world s)) eqn:E; [|apply holds_ret, He].
  apply holds_bind, holds_effect; [apply Hk|]. intros l. apply holds_ret. by apply Hm.
Qed.
Lemma holds_RemoveAll p s n Q :
  ents (world s) !! key p = Some n →
  (∀ c, Q None (at_call s c)) → (∀ o c l, o ≠ Some (Ok tt) → Q o (mkSt (gut_ent p (world s)) c l)) →
  (∀ c l, Q (Some (Ok tt)) (mkSt (del_ent p (gut_ent p (world s))) c l)) → holds (RemoveAll e p) s Q.
Proof.
  intros Hn Hk Hg Hd. unfold RemoveAll. eapply holds_read; [apply reads_look|]. intros ? c <-.
  rewrite Hn, bool_decide_false by done. apply holds_bind, holds_effect; [apply Hk|]. intros l.
  apply (holds_rread _ _ _ (λ _, True)); [by eapply reads_mono; [|apply reads_attempt]|by intros; apply Hg|].
  intros _ c' _. apply holds_bind, holds_effect; [by apply Hg|]. intros l'. apply holds_ret, Hd.
Qed.
Lemma del_ent_absent p w : ents w !! key p = None → del_ent p w = w.
Proof. intros H. unfold del_ent. destruct w as [en pa jo]. cbn in *. by rewrite delete_id. Qed.
Lemma holds_RemoveFile p s Q :
  (∀ err c, Q (Some (Err err)) (at_call s c)) → (∀ c, Q None (at_call s c)) →
  (∀ c l, (∀ t, ents (world s) !! key p ≠ Some (DirTree t)) → Q (Some (Ok tt)) (mkSt (del_ent p (world s)) c l)) → holds (RemoveFile e p) s Q.
Proof.
  intros He Hk Hm. unfold RemoveFile. apply (holds_rread _ _ _ (λ _, True)); [by eapply reads_mono; [|apply reads_attempt]|done|].
  intros _ c _. eapply holds_read; [apply reads_look|]. intros ? c' <-. cbn [world at_call]. destruct (ents (world s) !! key p) as [[t| |b]|] eqn:E.
  - apply holds_ret, He.
  - apply holds_bind, holds_effect; [apply Hk|]. intros l. apply holds_ret. by apply Hm.
  - apply holds_bind, holds_effect; [apply Hk|]. intros l. apply holds_ret. by apply Hm.
  - apply holds_ret. unfold at_call. cbn [world left]. rewrite <- (del_ent_absent p (world s) E) at 1. by apply Hm.
Qed.

(** *** Without failures *)
Context (Hq : quiet e).
Lemma quiet_Rename a b s Q : can_move a b (world s) = true →
  (∀ c, Q None (at_call s c)) → (∀ c l, (left s = None → l = None) → Q (Some (Ok tt)) (mkSt (move a b (world s)) c l)) →
  holds (Rename e a b) s Q.
Proof.
  intros Hc Hk Hm. unfold Rename. eapply holds_rok; [by apply quiet_attempt|]. intros c.
  eapply holds_read; [apply reads_look|]. intros ? c' <-. cbn [world at_call]. rewrite Hc. apply holds_bind.
  unfold holds, effect. cbn [left at_call world calls]. destruct (left s) as [[|n]|]; cbn; [apply Hk|by apply Hm..].
Qed.
End changes.

Lemma alive_Rename e a b s Q : quiet e → alive s → can_move a b (world s) = true →
  (∀ c, Q (Some (Ok tt)) (mkSt (move a b (world s)) c None)) → holds (Rename e a b) s Q.
Proof.
  intros Hq Ha Hc Hm. unfold Rename. eapply holds_rok; [by apply quiet_attempt|]. intros c.
  eapply holds_read; [apply reads_look|]. intros ? c' <-. cbn [world at_call]. rewrite Hc. apply holds_bind, alive_effect; [done|].
  intros c2. apply holds_ret, Hm.
Qed.
Lemma alive_RemoveAll e p s n Q : quiet e → alive s → ents (world s) !! key p = Some n →
  (∀ c, Q (Some (Ok tt)) (mkSt (del_ent p (world s)) c None)) → holds (RemoveAll e p) s Q.
Proof.
  intros Hq Ha Hn Hd. unfold RemoveAll. eapply holds_read; [apply reads_look|]. intros ? c <-.
  rewrite Hn, bool_decide_false by done. apply holds_bind, alive_effect; [done|]. intros c1. cbn.
  eapply holds_rok; [by apply quiet_attempt|]. intros c2. apply holds_bind, alive_effect; [done|]. intros c3. apply holds_ret.
  cbn [world at_call]. assert (del_ent p (gut_ent p (world s)) = del_ent p (world s)) as ->; [|apply Hd].
  unfold del_ent, gut_ent. cbn. f_equal. apply map_eq. intros k. destruct (decide (k = key p)) as [->|]; simplify_map_eq; done.
Qed.
Lemma alive_RemoveFile e p s Q : quiet e → alive s → (∀ t, ents (world s) !! key p ≠ Some (DirTree t)) →
  (∀ c, Q (Some (Ok tt)) (mkSt (del_ent p (world s)) c None)) → holds (RemoveFile e p) s Q.
Proof.
  intros Hq Ha Ht Hd. unfold RemoveFile. eapply holds_rok; [by apply quiet_attempt|]. intros c.
  eapply holds_read; [apply reads_look|]. intros ? c' <-. cbn [world at_call]. destruct (ents (world s) !! key p) as [[t| |b]|] eqn:E.
  - by destruct (Ht t).
  - apply holds_bind, alive_effect; [done|]. intros c1. apply holds_ret, Hd.
  - apply holds_bind, alive_effect; [done|]. intros c1. apply holds_ret, Hd.
  - apply holds_ret. unfold at_call. cbn [world left]. unfold alive in Ha. rewrite Ha. rewrite <- (del_ent_absent p (world s) E) at 1. apply Hd.
Qed.

(** *** Three entries of a map *)
Section three.
Context {K V : Type} `{Countable K} (M0 : gmap K V) (kd kp ks : K).
Context (Hdp : kd ≠ kp) (Hds : kd ≠ ks) (Hps : kp ≠ ks).
Definition places (D P S : option V) : gmap K V :=
  partial_alter (λ _, D) kd (partial_alter (λ _, P) kp (partial_alter (λ _, S) ks M0)).
Lemma lookup_places D P S k :
  places D P S !! k = if decide (k = kd) then D else if decide (k = kp) then P else if decide (k = ks) then S else M0 !! k.
Proof. unfold places. rewrite !lookup_partial_alter. repeat case_decide; subst; done. Qed.
Lemma places_id D P S : M0 !! kd = D → M0 !! kp = P → M0 !! ks = S → places D P S = M0.
Proof. intros H1 H2 H3. apply map_eq. intros k. rewrite lookup_places. repeat case_decide; subst; done. Qed.
Ltac places_tac := apply map_eq; intros k; rewrite ?lookup_insert, ?lookup_delete, ?lookup_alter, !lookup_places; repeat (case_decide; subst; try done).
Lemma places_dp n S : <[kp := n]> (delete kd (places (Some n) None S)) = places None (Some n) S.
Proof. places_tac. Qed.
Lemma places_pd n S : <[kd := n]> (delete kp (places None (Some n) S)) = places (Some n) None S.
Proof. places_tac. Qed.
Lemma places_sd n P : <[kd := n]> (delete ks (places None P (Some n))) = places (Some n) P None.
Proof. places_tac. Qed.
Lemma places_ds n P : <[ks := n]> (delete kd (places (Some n) P None)) = places None P (Some n).
Proof. places_tac. Qed.
Lemma places_gut f n P S : alter f kd (places (Some n) P S) = places (Some (f n)) P S.
Proof.
  apply map_eq; intros k. rewrite lookup_alter, !lookup_places. repeat (case_decide; subst; try done).
Qed.
Lemma places_del n P S : delete kd (places (Some n) P S) = places None P S.
Proof. places_tac. Qed.
End three.

(** A stage that resolves is the path given. *)
Lemma reads_resolveStagedRoot e cwd m site staged s :
  reads (resolveStagedRoot e cwd m site staged) s (λ r, ∀ x, r = Ok x → x = (Dir (Abs cwd staged), Base (Abs cwd staged))).
Proof.
  unfold resolveStagedRoot. eapply reads_rbind; [apply reads_wrap, reads_SafePath|done|]. intros sites c _.
  case_match; [by apply reads_ret|]. eapply reads_rbind; [apply reads_locate|done|]. intros loc c1 _.
  assert (∀ s' root, root = Dir (Abs cwd staged) →
    reads (let? _ := SafePath e cwd root [Base (Abs cwd staged)] in ok (root, Base (Abs cwd staged))) s'
      (λ r, ∀ x, r = Ok x → x = (Dir (Abs cwd staged), Base (Abs cwd staged)))) as Hend.
  { intros s' root ->. eapply reads_rbind; [apply reads_SafePath|done|]. intros t c2 _. apply reads_ret. by intros x [= <-]. }
  destruct (placed loc).
  { case_bool_decide; cbn [negb]; [|by apply reads_ret]. by apply Hend. }
  case_bool_decide; [case_match; [by apply reads_ret|by apply Hend]|].
  case_bool_decide; [case_match; [by apply reads_ret|by apply Hend]|].
  eapply reads_rbind; [apply reads_wrap, reads_SafePath|done|]. intros imp c2 _. case_bool_decide; [by apply Hend|].
  eapply reads_rbind; [apply reads_wrap, reads_SafePath|done|]. intros mgr c3 _. case_bool_decide; [by apply Hend|].
  eapply reads_bind; [apply reads_EnsureInside|]. intros [] c4 _; by apply reads_ret.
Qed.

(** *** Stages without failures *)
Lemma elem_of_names_of w d n nd : ents w !! (d, n) = Some nd → n ∈ names_of w d.
Proof.
  intros H. unfold names_of. rewrite merge_sort_Permutation, elem_of_elements, elem_of_union. left.
  apply elem_of_map. exists (d, n). split; [done|]. apply elem_of_filter. split; [done|]. apply elem_of_dom. by eexists.
Qed.
Lemma quiet_resolveStagedRoot e cwd m site sn s : quiet e → well_placed m site → no_links (world s) →
  MatchString validStagedComponent sn = true → container (lexical m site) ≠ stageRoot (lexical m site) →
  clean_abs (stageRoot (lexical m site)) →
  reads (resolveStagedRoot e cwd m site (Join [stageRoot (lexical m site); sn])) s (eq (Ok (stageRoot (lexical m site), sn))).
Proof.
  intros Hq Hwp Hl Hsn Hne Hsr. pose proof (staged_component_plain _ Hsn) as Hp. set (loc := lexical m site) in *.
  unfold resolveStagedRoot. rewrite Abs_abs by (by apply clean_Join). rewrite Dir_Join, Base_Join, Hsn by done. cbn [negb].
  eapply reads_rok; [apply reads_wrap_ok, quiet_SafePath; [done|apply Hwp|done..]|]. intros c1.
  eapply reads_rok; [by apply quiet_locate|]. intros c2. fold loc.
  destruct (placed loc) eqn:Epl.
  { rewrite bool_decide_true by done. cbn [negb]. eapply reads_rok; [by apply quiet_SafePath; cbn [forallb]; rewrite ?Hp|]. intros c3. by apply reads_ret. }
  rewrite bool_decide_false by congruence.
  assert (stageRoot loc = Join [Join [webRoot m; "sites"]; staging]) as Est.
  { unfold loc, lexical in *. destruct (placement_of _ _); [done|]. done. }
  assert (clean_abs (Join [webRoot m; "sites"])) as Hsites by (apply clean_Join; [apply Hwp|done]).
  change (joined (webRoot m) ["sites"]) with (Join [webRoot m; "sites"]).
  rewrite bool_decide_false.
  2:{ rewrite Est. destruct Hsites as (cs & H1 & H2 & E). rewrite E, Join_snoc by done. intros E'. apply abs_path_inj in E'; try done.
      - apply (f_equal length) in E'. rewrite length_app in E'. cbn in E'. lia.
      - by intros [? ?]%app_nil.
      - apply plain_snoc; [done|]. by apply plainb_plain. }
  eapply reads_rok; [by apply reads_wrap_ok, quiet_SafePath|]. intros c3. rewrite bool_decide_false.
  2:{ rewrite Est. intros E. unfold joined in E. cbn [foldl] in E. apply Join_inj in E as [_ E]; done. }
  eapply reads_rok; [by apply reads_wrap_ok, quiet_SafePath|]. intros c4.
  rewrite Est, bool_decide_true by done. eapply reads_rok.
  { apply quiet_SafePath; [done|by apply clean_Join|cbn [forallb]; by rewrite Hp|done|done]. }
  intros c5. by apply reads_ret.
Qed.

Lemma manager_home cwd cfg m : clean_config cfg → newSiteManagerForConfig cwd cfg = Ok m → homeRoot m = "" ∨ clean_abs (homeRoot m).
Proof.
  intros Hc Hm. pose proof (manager_of_config cwd cfg m Hc Hm) as (_ & _ & Hh). destruct Hc as [Hw Hh'].
  unfold cfg_db in *. unfold newSiteManagerForConfig, NewAccountManager, NewDefaultManager in Hm.
  destruct (placementDB cfg) as [db|].
  - case_bool_decide; [|right; rewrite Hh by done; by apply Hh'].
    left. destruct (bad_root _); [done|]. by injection Hm as <-.
  - left. destruct (bad_root _); [done|]. by injection Hm as <-.
Qed.

(** The panel's view of a site that is placed well. *)
Lemma quiet_siteLocationFor e cwd cfg m site s : quiet e → clean_config cfg → newSiteManagerForConfig cwd cfg = Ok m →
  well_placed m site → no_links (world s) →
  reads (siteLocationFor e cwd cfg site) s (λ r, ∃ l, r = Ok l ∧ let loc := lexical m site in
    LHome l = container loc ∧ LDocRoot l = docRoot loc ∧ PreviousPrefix l = previousPrefix loc ∧ Placed l = placed loc).
Proof.
  intros Hq Hc Hm [Hn Hw Hpl] Hl. destruct (manager_of_config cwd cfg m Hc Hm) as (Ew & Ep & Eh).
  assert (reads (siteLocationFor e cwd cfg site) s (λ r, ∃ l, r = Ok l)) as Hok.
  { unfold siteLocationFor. change siteNamePattern with validSiteName. rewrite Hn. cbn [negb].
    assert (∀ c, reads (let? home := SafePath e cwd (WebRoot cfg) ["sites"; site] in
      ok (mkSiteLocation false home home (Join [home; "public"]) previous_)) (at_call s c) (λ r, ∃ l, r = Ok l)) as Hleg.
    { intros c. eapply reads_rok; [apply quiet_SafePath; [done|by rewrite <- Ew|by apply site_parts|done..]|]. intros c1. apply reads_ret. eauto. }
    unfold cfg_db in *. destruct (placementDB cfg) as [db|] eqn:Edb; [|by destruct s; apply Hleg].
    case_bool_decide as Eb; [by destruct s; apply Hleg|].
    eapply reads_bind; [apply quiet_get_placement; [done|]; intros p Hp; rewrite Ep in Hpl; by apply Hpl|]. intros ? c <-. rewrite Ep in Hpl.
    destruct (placement_of (Some db) site) as [p|]; [|apply Hleg]. destruct (Hpl p eq_refl) as [Hv Hh]. rewrite Eh in Hh by done.
    destruct (placed_parts p Hv) as [Hu Hd]. eapply reads_rok; [by apply quiet_SafePath|]. intros c1.
    eapply reads_rok; [apply quiet_SafePath; [done|by apply clean_joined|done..]|]. intros c2.
    eapply reads_rok; [apply quiet_SafePath; [done|by apply clean_joined| |done..]|]. 2:{ intros c3. apply reads_ret. eauto. }
    cbn [forallb]. by rewrite (site_name_plain site). }
  eapply reads_mono; [|apply (reads_and _ _ _ _ Hok (reads_siteLocationFor e cwd cfg site s))]. cbn beta.
  intros r [[l ->] H]. exists l. split; [done|]. specialize (H l eq_refl). cbn zeta in *. fold (cfg_db cfg) in H.
  rewrite (lexical_ext m (mkManager (WebRoot cfg) (HomeRoot cfg) (cfg_db cfg))); [exact H|done..|]. cbn. by rewrite Ep.
Qed.
Lemma quiet_isStageRoot e cwd m site s : quiet e → well_placed m site → homeRoot m = "" ∨ clean_abs (homeRoot m) → no_links (world s) →
  reads (isStageRoot e cwd m (stageRoot (lexical m site))) s (eq (Ok true)).
Proof.
  intros Hq Hwp Hh Hl. unfold isStageRoot, stageRoots, legacyStageRoot, homeStageRoot.
  assert (∀ c, reads (if bool_decide (homeRoot m = "") then ok "" else SafePath e cwd (homeRoot m) [staging]) (at_call s c)
    (eq (Ok (if bool_decide (homeRoot m = "") then "" else joined (homeRoot m) [staging])))) as Hhome.
  { intros c. destruct Hh as [E|Hh]; [rewrite E; by apply reads_ret|]. rewrite bool_decide_false by (by apply clean_nonempty). by apply quiet_SafePath. }
  eapply reads_rok.
  { eapply reads_rok; [apply quiet_SafePath; [done|apply Hwp|done..]|]. intros c. eapply reads_rok; [apply Hhome|]. intros c1. by apply reads_ret. }
  intros c2. apply reads_ret. f_equal. symmetry. apply bool_decide_eq_true. unfold lexical.
  destruct (placement_of (placements m) site) as [p|] eqn:E; cbn [stageRoot].
  - destruct (wp_placement _ _ Hwp p E) as [_ Hc]. pose proof (clean_nonempty _ Hc).
    rewrite (bool_decide_false (homeRoot m = "")) by done.
    rewrite bool_decide_false by (by apply clean_nonempty, clean_joined). set_solver.
  - destruct (bool_decide ((if bool_decide (homeRoot m = "") then _ else _) = _)); set_solver.
Qed.
End SitesProps.
