(* ===== verification/StageProps.v ===== *)
(** * StageProps: stages belong to one site, and cleanup spares the live ones *)
From S2P Require Import Prelude GoPath GoText Regex Names SiteLayout Sites SitesProps.

Module StageProps.
Import GoPath GoText Regex Names SiteLayout Sites SitesProps.
#[local] Open Scope host_scope.

(** ** Ownership *)

(** A release stage belongs to one site: the site [blog] cannot claim a stage of
    [blog-2]. *)
Theorem release_stage_one_site site1 site2 component :
  IsReleaseStagingName site1 component = true → IsReleaseStagingName site2 component = true → site1 = site2.
Proof.
  assert (∀ site, IsReleaseStagingName site component = true → ∃ ds, bytes_of component = bytes_of release_ ++ bytes_of site ++ "-"%char :: ds ∧ "-"%char ∉ ds) as H.
  { intros site H. unfold IsReleaseStagingName in H. destruct (strip_prefix _ _) as [ds|] eqn:E; [|done]. case_match; [done|].
    apply strip_prefix_Some in E. exists ds. split; [rewrite E, !bytes_of_app, <- !app_assoc; done|]. intros Hin. rewrite forallb_forall in H.
    apply list_elem_of_In in Hin. by apply H in Hin. }
  intros (d1 & E1 & N1)%H (d2 & E2 & N2)%H. rewrite E1 in E2. apply app_inv_head in E2. apply (inj bytes_of). by eapply app_sep_inj.
Qed.

(** ** Cleanup *)

(** Names are single components, and directories that hold trees have clean paths. *)
Record well_named (w : World) : Prop := {
  wn_ents : ∀ d x, is_Some (ents w !! (d, x)) → plainb x = true;
  wn_parents : ∀ p, p ∈ parents w → clean_abs p }.

Lemma clean_Base p : clean_abs p → plainb (Base p) = true.
Proof.
  intros (cs & Hn & Hp & ->). destruct (exists_last Hn) as (cs' & c & ->). apply Forall_app in Hp as [Hp Hc]. apply Forall_cons in Hc as [Hc _].
  destruct cs' as [|c0 cs']; cbn [app].
  - assert (Base (abs_path [c]) = of_bytes c) as ->.
    { unfold Base. rewrite decide_False by done. unfold abs_path. rewrite bytes_of_of, split_abs by (done || by constructor).
      rewrite filter_cons_False by auto. destruct Hc as (Hc & _). by rewrite filter_cons_True. }
    destruct Hc as (H1 & H2 & H3 & H4). apply bool_decide_eq_true. rewrite bytes_of_of. split_and!; [|..|done]; intros E; apply (f_equal bytes_of) in E; by rewrite bytes_of_of in E.
  - assert (plainb (of_bytes c) = true) as Hb.
    { destruct Hc as (H1 & H2 & H3 & H4). apply bool_decide_eq_true. rewrite bytes_of_of. split_and!; [|..|done]; intros E; apply (f_equal bytes_of) in E; by rewrite bytes_of_of in E. }
    change (c0 :: cs' ++ [c]) with ((c0 :: cs') ++ [c]). rewrite <- (bytes_of_of c), <- Join_snoc by done. by rewrite Base_Join by (done || by exists (c0 :: cs')).
Qed.
Lemma names_plain w d x : well_named w → x ∈ names_of w d → plainb x = true.
Proof.
  intros [H1 H2] Hx. unfold names_of in Hx. rewrite merge_sort_Permutation, elem_of_elements, elem_of_union in Hx. destruct Hx as [Hx|Hx].
  - apply elem_of_map in Hx as ([d' n] & -> & [_ Hd]%elem_of_filter). apply elem_of_dom in Hd. by eapply H1.
  - apply elem_of_map in Hx as (p & -> & [_ Hd]%elem_of_filter). by apply clean_Base, H2.
Qed.

Section cleanup.
Context (e : Env) (cwd : string) (m : Manager) (olderThan : Z) (d x : string) (t : Tree).
Context (Hweb : clean_abs (webRoot m)) (Hhome : homeRoot m = "" ∨ clean_abs (homeRoot m)).

Definition lease_key : string * string := (d, stageOwnerLockPrefix +:+ x).
(** The tree has changed since, or its lease is held or missing. *)
Definition spared (w : World) : Prop :=
  (∀ n, clock e n - olderThan < modified t) ∨ ents w !! lease_key ≠ Some (File false).
Record kept_stage (w : World) : Prop := {
  ks_tree : ents w !! (d, x) = Some (DirTree t);
  ks_spared : spared w;
  ks_named : well_named w }.

(** [m0] keeps the stage, whatever happens. *)
Definition keeps {A} (m0 : M A) : Prop := ∀ s, kept_stage (world s) → holds m0 s (λ _ s', kept_stage (world s')).

Lemma keeps_read {A} (m0 : M A) : (∀ s, reads m0 s (λ _, True)) → keeps m0.
Proof. intros H s Hs. destruct (H s) as (a & c & E & _). unfold holds. by rewrite E. Qed.
Lemma keeps_ret {A} (a : A) : keeps (ret a).
Proof. by intros s Hs. Qed.
Lemma keeps_bind {A B} (m0 : M A) (f : A → M B) : keeps m0 → (∀ a, keeps (f a)) → keeps (bind m0 f).
Proof. intros H1 H2 s Hs. apply holds_bind. eapply holds_mono; [|by apply H1]. intros [a|] s' Hs'; [by apply H2|done]. Qed.
Lemma keeps_rbind {A B} (m0 : M (res A)) (f : A → M (res B)) : keeps m0 → (∀ a, keeps (f a)) → keeps (rbind m0 f).
Proof. intros H1 H2. apply keeps_bind; [done|]. intros [a|err]; [apply H2|apply keeps_ret]. Qed.
Lemma keeps_wrap {A} what (m0 : M (res A)) : keeps m0 → keeps (wrap what m0).
Proof. intros H. apply keeps_bind; [done|]. intros r. apply keeps_ret. Qed.

(** *** Changes that keep the stage *)
Lemma named_delete k w : well_named w → well_named (mkWorld (delete k (ents w)) (parents w) (journals w)).
Proof. intros [H1 H2]. split; [|done]. intros d' x' [nd Hn]. cbn in Hn. apply lookup_delete_Some in Hn as [_ Hn]. eapply H1; eauto. Qed.
Lemma keep_del p w : kept_stage w → key p ≠ (d, x) → kept_stage (del_ent p w).
Proof.
  intros [H1 H2 H3] Hk. unfold del_ent. split; cbn; [by rewrite lookup_delete_ne| |by apply named_delete].
  destruct H2 as [H2|H2]; [by left|right]. cbn. rewrite lookup_delete. by case_decide.
Qed.
Lemma keep_gut p w : kept_stage w → key p ≠ (d, x) → kept_stage (gut_ent p w).
Proof.
  intros [H1 H2 [H3 H4]] Hk. unfold gut_ent. split; cbn; [by rewrite lookup_alter_ne| |].
  - destruct H2 as [H2|H2]; [by left|right]. cbn. rewrite lookup_alter. case_decide as E; [|done]. rewrite E.
    destruct (ents w !! lease_key) as [[]|]; cbn; congruence.
  - split; [|done]. intros d' x'. cbn. rewrite lookup_alter. case_decide as E; [|apply H3]. intros [nd Hn]. apply (H3 d').
    rewrite E in Hn. destruct (ents w !! (d', x')); [by eexists|done].
Qed.
Lemma keep_set p w : kept_stage w → ents w !! key p = None → plainb (Base p) = true → Base p ≠ stageOwnerLockPrefix +:+ x →
  kept_stage (set_ent p (File false) w).
Proof.
  intros [H1 H2 [H3 H4]] Hk Hp Hne. unfold set_ent. split; cbn.
  - rewrite lookup_insert_ne; [done|]. intros E. by rewrite E, H1 in Hk.
  - destruct H2 as [H2|H2]; [by left|right]. cbn. rewrite lookup_insert_ne; [done|]. unfold key, lease_key. intros [= _ E]. done.
  - split; [|done]. intros d' x'. cbn. rewrite lookup_insert. case_decide as E; [|apply H3]. intros _. injection E as _ <-. done.
Qed.

Lemma keeps_RemoveAll p : key p ≠ (d, x) → keeps (RemoveAll e p).
Proof.
  intros Hk s Hs. unfold holds. destruct (ents (world s) !! key p) as [n|] eqn:E.
  - apply (holds_RemoveAll e p s n (λ _ s', kept_stage (world s'))); [done|done|..].
    + intros o c l _. by apply keep_gut.
    + intros c l. apply keep_del; [by apply keep_gut|done].
  - unfold RemoveAll, bind, look. rewrite E, bool_decide_true by done. done.
Qed.
Lemma keeps_RemoveFile p : keeps (RemoveFile e p).
Proof.
  intros s Hs. apply holds_RemoveFile; [done|done|]. intros c l Hnd. apply keep_del; [done|]. intros E. by destruct (Hnd t); rewrite E; apply Hs.
Qed.
Lemma keeps_coordinate root : clean_abs root → keeps (acquireManagerStageCoordination e root stageCoordinationLock).
Proof.
  intros Hr. unfold acquireManagerStageCoordination. apply keeps_rbind; [by apply keeps_read; intros s; eapply reads_mono; [|apply reads_attempt]|].
  intros _ s Hs. eapply holds_read; [apply reads_look|]. intros ? c <-. case_match; [by apply holds_ret|].
  assert (keeps (attempt e)) as Ha by (apply keeps_read; intros s'; eapply reads_mono; [|apply reads_attempt]; done).
  destruct (ents (world s) !! key _) as [[]|] eqn:E; unfold rbind; try (apply holds_bind, holds_ret; by (apply holds_ret || apply Ha)).
  apply holds_bind, holds_bind, holds_effect; [done|]. intros l. apply holds_ret. apply Ha. cbn [world at_call].
  apply keep_set; [done|done|by rewrite Base_Join by done|]. rewrite Base_Join by done. intros E2. apply (f_equal bytes_of) in E2. rewrite bytes_of_app in E2. by vm_compute in E2.
Qed.

(** *** Reads *)
Lemma keeps_attempt : keeps (attempt e).
Proof. apply keeps_read. intros s. by eapply reads_mono; [|apply reads_attempt]. Qed.
Lemma keeps_ctx c : keeps (ctx_err e c).
Proof. apply keeps_read. intros s. by eapply reads_mono; [|apply reads_ctx]. Qed.
Lemma keeps_SafePath root parts : keeps (SafePath e cwd root parts).
Proof. apply keeps_read. intros s. by eapply reads_mono; [|apply reads_SafePath]. Qed.
Lemma keeps_Lstat p : keeps (Lstat e p).
Proof. apply keeps_read. intros s. by eapply reads_mono; [|apply reads_Lstat]. Qed.
Lemma keeps_ReadDir p : keeps (ReadDir e p).
Proof. apply keeps_read. intros s. by eapply reads_mono; [|apply reads_ReadDir]. Qed.
Lemma keeps_stageRoots : keeps (stageRoots e cwd m).
Proof.
  unfold stageRoots. apply keeps_rbind; [apply keeps_SafePath|]. intros l. apply keeps_rbind; [|intros; apply keeps_ret].
  unfold homeStageRoot. case_match; [apply keeps_ret|apply keeps_SafePath].
Qed.
Lemma keeps_isStageRoot p : keeps (isStageRoot e cwd m p).
Proof. unfold isStageRoot. apply keeps_rbind; [apply keeps_stageRoots|intros; apply keeps_ret]. Qed.

(** *** Discarding another stage *)
Lemma joined_one root n : joined root [n] = Join [root; n].
Proof. done. Qed.
Lemma keeps_removal {A} root n (f : res string → M A) : clean_abs root → plainb n = true → (root, n) ≠ (d, x) →
  (∀ owned, owned = Join [root; n] → keeps (f (Ok owned))) → (∀ err, keeps (f (Err err))) → keeps (bind (SafePath e cwd root [n]) f).
Proof.
  intros Hr Hn Hne Hok Herr s Hs. eapply holds_read; [apply reads_SafePath|]. intros [p|err] c Hp; [|by apply Herr].
  apply Hok; [by rewrite (Hp p)|done].
Qed.
Lemma keeps_discard_tree owned : key owned ≠ (d, x) → ∀ i msg what, keeps
  match i with None => ok tt | Some IsSymlink => throw msg | Some _ => wrap what (RemoveAll e owned) end.
Proof. intros Hk [[]|] msg what; try apply keeps_ret; by apply keeps_wrap, keeps_RemoveAll. Qed.

Lemma keeps_DiscardReleaseStaging c site path : clean_abs (Dir path) → clean_abs path → plainb (Base path) = true → key path ≠ (d, x) →
  keeps (DiscardReleaseStaging e cwd c m site path).
Proof.
  intros Hcd Hcp Hpb Hk. unfold DiscardReleaseStaging. apply keeps_rbind; [apply keeps_ctx|]. intros _ s Hs.
  eapply holds_rread; [apply reads_resolveStagedRoot|done|]. intros [pa na] c1 E. rewrite (Abs_abs cwd path) in E by done. injection E as -> ->.
  assert (kept_stage (world (at_call s c1))) as Hs1 by done. revert Hs1. generalize (at_call s c1). clear s c1 Hs. fold (@keeps (res unit)).
  case_match; [apply keeps_ret|]. apply keeps_rbind; [apply keeps_isStageRoot|]. intros inS. case_match; [apply keeps_ret|].
  unfold rbind at 1. apply keeps_removal; [done|done|done| |intros; apply keeps_ret]. intros owned ->.
  apply keeps_rbind; [apply keeps_wrap, keeps_Lstat|]. intros i.
  apply keeps_rbind; [apply keeps_discard_tree; by rewrite key_Join|]. intros _. destruct inS; [|apply keeps_ret].
  apply keeps_rbind; [by apply keeps_wrap, keeps_coordinate|]. intros _. apply keeps_wrap, keeps_RemoveFile.
Qed.
Lemma keeps_DiscardStaging c path : clean_abs (Dir path) → clean_abs path → plainb (Base path) = true → key path ≠ (d, x) →
  keeps (DiscardStaging e cwd c m path).
Proof.
  intros Hcd Hcp Hpb Hk. unfold DiscardStaging. rewrite (Abs_abs cwd path) by done. apply keeps_rbind; [apply keeps_ctx|]. intros _.
  apply keeps_rbind; [apply keeps_isStageRoot|]. intros owned. case_match; [apply keeps_ret|]. case_match; [apply keeps_ret|].
  unfold rbind at 1. apply keeps_removal; [done|done|done| |intros; apply keeps_ret]. intros p ->.
  apply keeps_rbind; [apply keeps_wrap, keeps_Lstat|]. intros i. apply keeps_discard_tree. by rewrite key_Join.
Qed.

(** *** The loops *)

(** A stage whose lease was taken, and which was found abandoned, is not ours. *)
Lemma taken_other n cutoff root name w : clean_abs root → plainb name = true → kept_stage w → cutoff = clock e n - olderThan →
  match ents w !! (root, name) with Some (DirTree t') => modified t' <=? cutoff | _ => false end = true →
  ents w !! (root, stageOwnerLockPrefix +:+ name) = Some (File false) → (root, name) ≠ (d, x).
Proof.
  intros Hr Hn [H1 H2 _] -> Hab Hl [= -> ->]. rewrite H1 in Hab. apply Z.leb_le in Hab.
  destruct H2 as [H2|H2]; [specialize (H2 n); lia|]. by apply H2.
Qed.
Lemma lock_key root name : clean_abs root → plainb name = true → key (stageOwnerLockPath (Join [root; name])) = (root, stageOwnerLockPrefix +:+ name).
Proof.
  intros Hr Hn. unfold stageOwnerLockPath. rewrite Dir_Join, Base_Join by done. apply key_Join; [done|].
  apply bool_decide_eq_true in Hn as (_ & _ & _ & Hs). apply bool_decide_eq_true. split_and!; [done..|].
  rewrite bytes_of_app, not_elem_of_app. split; [|done]. apply (bool_decide_eq_true_1 _). by vm_compute.
Qed.

(** One candidate: [k] continues, [take] discards it. *)
Lemma keeps_candidate {A} n cutoff root name (k : M A) (bad : error → M A) (take : M A) : clean_abs root → plainb name = true →
  cutoff = clock e n - olderThan → keeps k → (∀ err, keeps (bad err)) → ((root, name) ≠ (d, x) → keeps take) →
  keeps (old ← abandoned e cutoff (Join [root; name]);
    if negb old then k else
    l ← tryLockStage e (Join [root; name]);
    match l with Err err => bad err | Ok LeaseMissing | Ok LeaseActive => k | Ok LeaseTaken => take end).
Proof.
  intros Hr Hn Hcut Hk Hbad Htake s Hs.
  assert (reads (abandoned e cutoff (Join [root; name])) s (λ b, b = true →
    match ents (world s) !! (root, name) with Some (DirTree t') => modified t' <=? cutoff | _ => false end = true)) as Hab.
  { unfold abandoned. eapply reads_bind; [apply reads_call|]. intros b c _. eapply reads_bind; [apply reads_look|]. intros ? c1 <-. apply reads_ret.
    rewrite key_Join by done. cbn [world at_call]. by intros [_ H]%andb_true_iff. }
  eapply holds_read; [exact Hab|]. intros [] c Hold; cbn [negb]; [|by apply Hk]. specialize (Hold eq_refl).
  assert (reads (tryLockStage e (Join [root; name])) (at_call s c) (λ r, r = Ok LeaseTaken → ents (world s) !! (root, stageOwnerLockPrefix +:+ name) = Some (File false))) as Hlock.
  { unfold tryLockStage. eapply (reads_rbind _ _ _ (λ _, True)); [by eapply reads_mono; [|apply reads_attempt]|done|]. intros _ c1 _.
    eapply reads_bind; [apply reads_look|]. intros ? c2 <-. rewrite lock_key by done. cbn [world at_call].
    destruct (ents (world s) !! (root, stageOwnerLockPrefix +:+ name)) as [[ | |[]]|]; try by apply reads_ret.
    eapply (reads_rbind _ _ _ (λ _, True)); [by eapply reads_mono; [|apply reads_attempt]|done|]. intros _ c3 _. by apply reads_ret. }
  eapply holds_read; [exact Hlock|]. intros [[]|err] c1 Hl; [by apply Hk|by apply Hk| |by apply Hbad].
  apply Htake; [|done]. by eapply taken_other; [..|apply Hl].
Qed.

Lemma keeps_cleanup_site n cutoff c site root releases removed : cutoff = clock e n - olderThan → clean_abs root → Forall (λ y, plainb y = true) releases →
  keeps (cleanup_site e cwd c m cutoff site root releases removed).
Proof.
  intros Hcut Hr Hpl. revert removed. induction Hpl as [|name rest Hn _ IH]; intros removed; cbn [cleanup_site]; [apply keeps_ret|].
  apply keeps_bind; [apply keeps_ctx|]. intros [u|err]; [|apply keeps_ret]. destruct (has_prefix name release_).
  2:{ intros s Hs. apply holds_bind, holds_ret. cbn [negb]. by apply IH. }
  apply (keeps_candidate n); [done|done|done|apply IH|intros; apply keeps_ret|]. intros Hne.
  apply keeps_bind; [apply keeps_DiscardReleaseStaging; rewrite ?Dir_Join, ?Base_Join, ?key_Join by done; try done; by apply clean_Join|].
  intros [u'|err]; [apply IH|apply keeps_ret].
Qed.

(** A listing gives plain names. *)
Lemma keeps_listing {A} root (f : res (option (list string)) → M A) :
  (∀ l, Forall (λ y, plainb y = true) l → keeps (f (Ok (Some l)))) → keeps (f (Ok None)) → (∀ err, keeps (f (Err err))) →
  keeps (bind (ReadDir e root) f).
Proof.
  intros H1 H2 H3 s Hs. eapply holds_read; [apply reads_ReadDir|]. intros [o|err] c Ho; [|by apply H3]. specialize (Ho o eq_refl). subst o.
  case_match; [|by apply H2]. apply H1; [|done]. apply Forall_forall. intros y Hy. eapply names_plain; [apply Hs|exact Hy].
Qed.
Lemma keeps_cleanup_sites n cutoff c sitesRoot entries removed : cutoff = clock e n - olderThan →
  keeps (cleanup_sites e cwd c m cutoff sitesRoot entries removed).
Proof.
  intros Hcut. revert removed. induction entries as [|name rest IH]; intros removed; cbn [cleanup_sites]; [apply keeps_ret|].
  apply keeps_bind; [apply keeps_ctx|]. intros [u|err]; [|apply keeps_ret].
  intros s Hs. eapply holds_read; [apply reads_look|]. intros ? c1 <-. destruct (negb _ || negb _) eqn:Eg; [by apply IH|].
  apply orb_false_iff in Eg as [_ Hv%negb_false_iff]. eapply holds_read; [apply reads_SafePath|].
  intros [siteRoot|err] c2 Hroot; [|by apply holds_ret]. rewrite (Hroot _ eq_refl). clear Hroot.
  assert (clean_abs (joined (webRoot m) ["sites"; name])) as Hr by (apply clean_joined; [done|by apply site_parts]).
  apply keeps_listing; [|intros s' Hs'; by apply holds_ret|intros err s' Hs'; by apply holds_ret|done]. intros l Hl.
  apply keeps_bind; [by apply (keeps_cleanup_site n)|]. intros [k [err|]]; [apply keeps_ret|apply IH].
Qed.
Lemma keeps_cleanup_leases root staged : keeps (cleanup_leases e root staged).
Proof.
  induction staged as [|name rest IH]; cbn [cleanup_leases]; [apply keeps_ret|]. case_match; [done|].
  apply keeps_bind; [apply keeps_Lstat|]. intros [[i|]|err]; [apply IH| |apply IH]. apply keeps_bind; [apply keeps_attempt|]. intros o.
  intros s Hs. eapply holds_read; [apply reads_look|]. intros ? c <-. cbn [world at_call].
  destruct o as [u|err]; [|by apply holds_ret]. destruct (ents (world s) !! key _) as [[ | |[]]|]; try by apply holds_ret. 1,3: by apply IH.
  revert Hs. change (kept_stage (world s)) with (kept_stage (world (at_call s c))). revert c. intros c. generalize (at_call s c). clear s c.
  fold (@keeps (option error)). apply keeps_bind; [apply keeps_attempt|]. intros [u'|err]; [|apply keeps_ret].
  apply keeps_bind; [apply keeps_RemoveFile|]. intros [u2|err]; [apply IH|apply keeps_ret].
Qed.
Lemma keeps_cleanup_staged n cutoff c coordinated root staged removed : cutoff = clock e n - olderThan → clean_abs root → Forall (λ y, plainb y = true) staged →
  keeps (cleanup_staged e cwd c m cutoff coordinated root staged removed).
Proof.
  intros Hcut Hr Hpl. revert removed. induction Hpl as [|name rest Hn _ IH]; intros removed; cbn [cleanup_staged]; [apply keeps_ret|].
  apply keeps_bind; [apply keeps_ctx|]. intros [u|err]; [|apply keeps_ret].
  apply (keeps_candidate n); [done|done|done|apply IH|intros; apply keeps_ret|]. intros Hne.
  assert (keeps (DiscardStaging e cwd c m (Join [root; name]))) as Hd.
  { apply keeps_DiscardStaging; rewrite ?Dir_Join, ?Base_Join, ?key_Join by done; try done. by apply clean_Join. }
  apply keeps_bind.
  { destruct coordinated; [|done]. apply keeps_rbind; [apply keeps_attempt|]. intros _. apply keeps_bind; [done|]. intros dr.
    apply keeps_rbind; [apply keeps_attempt|]. intros _. apply keeps_ret. }
  intros [u'|err]; [|apply keeps_ret]. apply keeps_bind; [apply keeps_RemoveFile|]. intros [u2|err]; [apply IH|apply keeps_ret].
Qed.
Lemma keeps_cleanupStageRoot n cutoff c root : cutoff = clock e n - olderThan → clean_abs root → keeps (cleanupStageRoot e cwd c m cutoff root).
Proof.
  intros Hcut Hr. assert (∀ co, keeps (rd ← ReadDir e root; match rd with Err err => ret (0, Some (EWrap "read staging root" err))
    | Ok staged => y ← cleanup_leases e root (default [] staged); match y with Some err => ret (0, Some err)
        | None => cleanup_staged e cwd c m cutoff co root (default [] staged) 0 end end)) as Hend.
  { intros co. apply keeps_listing; [|apply keeps_bind; [apply keeps_ret|intros [err|]; apply keeps_ret]|intros; apply keeps_ret]. intros l Hl.
    apply keeps_bind; [apply keeps_cleanup_leases|]. intros [err|]; [apply keeps_ret|by apply (keeps_cleanup_staged n)]. }
  unfold cleanupStageRoot. apply keeps_bind; [by apply keeps_coordinate|]. intros [u|err]; [apply Hend|]. case_match; [apply keeps_ret|apply Hend].
Qed.
Lemma keeps_cleanup_roots n cutoff c roots removed : cutoff = clock e n - olderThan → Forall clean_abs roots →
  keeps (cleanup_roots e cwd c m cutoff roots removed).
Proof.
  intros Hcut Hr. revert removed. induction Hr as [|root rest Hroot _ IH]; intros removed; cbn [cleanup_roots]; [apply keeps_ret|].
  apply keeps_bind; [by apply (keeps_cleanupStageRoot n)|]. intros [k [err|]]; [apply keeps_ret|apply IH].
Qed.
Lemma keeps_CleanupOrphanedStaging c : keeps (CleanupOrphanedStaging e cwd c m olderThan).
Proof.
  unfold CleanupOrphanedStaging. apply keeps_bind; [apply keeps_SafePath|]. intros [sr|err]; [|apply keeps_ret].
  apply keeps_bind; [apply keeps_ReadDir|]. intros [[entries|]|err]; [|apply keeps_ret..].
  intros s Hs. eapply holds_read; [apply reads_now|]. intros ? c1 [n ->].
  assert (kept_stage (world (at_call s c1))) as Hs1 by done. revert Hs1. generalize (at_call s c1). clear s c1 Hs. fold (@keeps (Z * option error)).
  apply keeps_bind; [by apply (keeps_cleanup_sites n)|]. intros [k [err|]]; [apply keeps_ret|].
  intros s Hs. assert (reads (stageRoots e cwd m) s (λ r, ∀ l, r = Ok l → Forall clean_abs l)) as Hroots.
  { unfold stageRoots. eapply reads_rbind; [apply reads_SafePath|done|]. intros lg c2 ->. eapply reads_rbind; [apply reads_homeStageRoot|done|].
    intros hm c3 ->. apply reads_ret. intros l [= <-]. assert (clean_abs (joined (webRoot m) ["sites"; staging])) by (by apply clean_joined).
    destruct Hhome as [Eh|Hh].
    - rewrite Eh. by repeat constructor.
    - rewrite (bool_decide_false (homeRoot m = "")) by (by apply clean_nonempty).
      assert (clean_abs (joined (homeRoot m) [staging])) by (by apply clean_joined). case_match; by repeat constructor. }
  eapply holds_read; [exact Hroots|]. intros [roots|err] c2 Hl; [|by apply holds_ret]. apply (keeps_cleanup_roots n); [done|by apply Hl|done].
Qed.
End cleanup.

(** C28: The cleanup of abandoned stages removes no tree that another process holds the lease
    of, that has no lease (which includes every document root and every preserved
    release), or that changed within the age limit, whatever calls fail and wherever the
    process is killed. *)
Theorem cleanup_spares_live_stages e cwd c m olderThan s d x t :
  clean_abs (webRoot m) → homeRoot m = "" ∨ clean_abs (homeRoot m) → well_named (world s) →
  ents (world s) !! (d, x) = Some (DirTree t) →
  (∀ n, clock e n - olderThan < modified t) ∨ ents (world s) !! (d, stageOwnerLockPrefix +:+ x) ≠ Some (File false) →
  ents (world (CleanupOrphanedStaging e cwd c m olderThan s).2) !! (d, x) = Some (DirTree t).
Proof.
  intros Hw Hh Hn Ht Hs. destruct (keeps_CleanupOrphanedStaging e cwd m olderThan d x t Hw Hh c s) as [H _ _]; [by split|]. exact H.
Qed.
End StageProps.
