(* ===== verification/SiteCreate.v ===== *)
(** * SiteCreate: stages with leases, new sites and clones

    The rest of [src/internal/sites/manager.go], over the host of [Sites]: the
    allocation and release of staging leases, [Create] and [Clone]. A locked file
    is one whose lock some living holder has; [os.MkdirTemp] draws names until one
    is free, and the environment gives the last draw. [copySiteTree] walks the
    items of the source and makes each of them in the stage, a file by the buffers
    of [io.Copy], its [Sync] and its [Close], where every call can fail. *)
From S2P Require Import Prelude GoPath GoText Regex Names SiteLayout Sites SitesProps StageProps.

Module SiteCreate.
Import GoPath GoText Regex Names SiteLayout Sites SitesProps StageProps.
#[local] Open Scope host_scope.

Definition empty_tree (t : Z) : Tree := mkTree (Folder false []) true t.
(** A directory that holds trees is created; one that holds the single tree [x] is
    renamed. *)
Definition mkdir_root (p : string) (w : World) : World := mkWorld (ents w) ({[p]} ∪ parents w) (journals w).
Definition move_root (a b x : string) (w : World) : World :=
  mkWorld (match ents w !! (a, x) with Some n => <[(b, x) := n]> (delete (a, x) (ents w)) | None => ents w end)
    ({[b]} ∪ (parents w ∖ {[a]})) (journals w).
Definition can_move_root (a b : string) (w : World) : bool :=
  bool_decide (Dir b ∈ parents w) && bool_decide (a ∈ parents w) && bool_decide (info w b = None).

(** *** Items of a tree *)

(** The item at a path below a tree, given as the names on the way. *)
Fixpoint lookup_item (rel : list string) (i : Item) : option Item :=
  match rel, i with
  | [], _ => Some i
  | n :: rel, Folder _ es => match list_find (λ x, x.1 = n) es with Some (_, (_, j)) => lookup_item rel j | None => None end
  | _, _ => None
  end.
Definition alter_name (n : string) (f : Item → Item) (es : list (string * Item)) : list (string * Item) :=
  map (λ '(m, j), if bool_decide (m = n) then (m, f j) else (m, j)) es.
Fixpoint at_item (rel : list string) (f : Item → Item) (i : Item) : Item :=
  match rel, i with
  | [], _ => f i
  | n :: rel, Folder b es => Folder b (alter_name n (at_item rel f) es)
  | _, _ => i
  end.
(** A new entry; the list of entries is to be synced again. *)
Definition add_entry (n : string) (i : Item) (dir : Item) : Item :=
  match dir with Folder _ es => Folder false (es ++ [(n, i)]) | _ => dir end.
Definition append_data (d : string) (i : Item) : Item :=
  match i with Regular x _ => Regular (x +:+ d) false | _ => i end.
Definition sync_item (i : Item) : Item :=
  match i with Folder _ es => Folder true es | Regular d _ => Regular d true | _ => i end.

Definition item_of (p : string) (rel : list string) (w : World) : option Item :=
  match ents w !! key p with Some (DirTree t) => lookup_item rel (content t) | _ => None end.
Definition edit (p : string) (rel : list string) (f : Item → Item) (w : World) : World :=
  mkWorld (alter (λ n, match n with DirTree t => DirTree (mkTree (at_item rel f (content t)) (whole t) (modified t)) | _ => n end) (key p) (ents w))
    (parents w) (journals w).

(** The buffers in which [io.Copy] moves the bytes of a file. *)
Definition copy_buffer : nat := Z.to_nat (32 * 1024).
Fixpoint buffers (fuel : nat) (data : byteseq) : list byteseq :=
  match fuel, data with
  | S fuel, _ :: _ => take copy_buffer data :: buffers fuel (drop copy_buffer data)
  | _, _ => []
  end.
Definition buffers_of (data : string) : list string := of_bytes <$> buffers (length (bytes_of data)) (bytes_of data).

Section create.
Context (e : Env) (cwd : string).

(** [os.MkdirTemp]: the path of a new empty directory. *)
Definition draw : M string := λ s, (Some (default "" (rand e (calls s))), mkSt (world s) (S (calls s)) (left s)).
Definition temp_path (dir prefix : string) : M (res string) :=
  let? _ := attempt e in
  suffix ← draw;
  let path := Join [dir; prefix +:+ suffix] in
  w ← look;
  if negb (bool_decide (dir ∈ parents w)) || negb (bool_decide (info w path = None)) then ret (Err io_err) else ok path.
Definition MkdirTemp (dir prefix : string) : M (res string) :=
  let? path := temp_path dir prefix in
  t ← now e;
  effect (set_ent path (DirTree (empty_tree t)));; ok path.
(** The same for a stage in which trees are built, and the removal of such a stage. *)
Definition MkdirTempRoot (dir prefix : string) : M (res string) :=
  let? path := temp_path dir prefix in
  effect (mkdir_root path);; ok path.
Definition RemoveRoot (p : string) : M (res unit) :=
  w ← look;
  if negb (bool_decide (p ∈ parents w)) then ok tt else
  effect (gut_below p);; let? _ := attempt e in effect (del_below p);; ok tt.
(** [os.Stat]: what a link leads to is the environment's choice. *)
Definition Stat (p : string) : M (res (option Info)) :=
  let? i := Lstat e p in
  match i with
  | Some IsSymlink => b ← call e; ok (if b then None else Some IsDir)
  | _ => ok i
  end.

(** Creating the lease file with [O_EXCL] and locking it. *)
Definition take_lease (stage : string) : M (res unit) :=
  let lease := stageOwnerLockPath stage in
  let? _ := attempt e in
  w ← look;
  if negb (bool_decide (ents w !! key lease = None)) then ret (Err io_err) else
  effect (set_ent lease (File false));;
  let? _ := attempt e in
  effect (set_ent lease (File true));; ok tt.

(** [createStagingLeaseIn]: the stage; a failed lease removes it again. *)
Definition createStagingLeaseIn (stageParent prefix : string) : M (res string) :=
  let? _ := wrap "create staging root" (MkdirAll e stageParent) in
  let? _ := wrap "coordinate staging allocation" (acquireManagerStageCoordination e stageParent stageCoordinationLock) in
  let? stage := wrap "create staging tree" (MkdirTemp stageParent prefix) in
  l ← take_lease stage;
  match l with
  | Ok _ => ok stage
  | Err err =>
      RemoveAll e stage;; RemoveFile e (stageOwnerLockPath stage);;
      ret (Err (EWrap "acquire staging ownership" err))
  end.
Definition CreateStagingLease (c : Ctx) (m : Manager) (prefix : string) : M (res string) :=
  let? _ := ctx_err e c in
  if negb (MatchString validStagingPrefix prefix) then throw "invalid staging prefix" else
  let? stageParent := legacyStageRoot e cwd m in
  createStagingLeaseIn stageParent prefix.
Definition CreateSiteStagingLease (c : Ctx) (m : Manager) (name prefix : string) : M (res string) :=
  let? _ := ctx_err e c in
  if negb (MatchString validStagingPrefix prefix) then throw "invalid staging prefix" else
  let? loc := locate e cwd m name in
  createStagingLeaseIn (stageRoot loc) prefix.
Definition CreateReleaseStagingLease (c : Ctx) (m : Manager) (name prefix : string) : M (res string) :=
  let? _ := ctx_err e c in
  if negb (has_prefix prefix release_) || negb (MatchString validStagingPrefix prefix) then throw "invalid release staging prefix" else
  if negb (MatchString validSiteName name) then throw "invalid site name" else
  let? loc := locate e cwd m name in
  let? i := wrap "inspect release site root" (Stat (container loc)) in
  match i with
  | None => ret (Err (EWrap "inspect release site root" ErrNotExist))
  | Some IsDir =>
      let? _ := wrap "create release staging root" (MkdirAll e (stageRoot loc)) in
      let? _ := wrap "secure release staging root" (attempt e) in
      let? _ := wrap "coordinate release staging" (acquireManagerStageCoordination e (stageRoot loc) stageCoordinationLock) in
      let? stage := wrap "create release staging tree" (MkdirTemp (stageRoot loc) (release_ +:+ name +:+ "-")) in
      l ← take_lease stage;
      match l with
      | Ok _ => ok stage
      | Err err =>
          RemoveAll e stage;; RemoveFile e (stageOwnerLockPath stage);;
          ret (Err (EWrap "acquire release staging ownership" err))
      end
  | Some _ => throw "release site root is not a directory"
  end.

(** Unlocking, by [flock] or by closing the file. *)
Definition unlock (lease : string) : M unit :=
  w ← look;
  match ents w !! key lease with Some (File true) => effect (set_ent lease (File false)) | _ => ret tt end.
(** [ReleaseStagingLease] of a lease that is held. *)
Definition ReleaseStagingLease (m : Manager) (stagedRoot : string) : M (res unit) :=
  let absStage := Abs cwd stagedRoot in
  let managerRoot := Dir absStage in
  let lease := stageOwnerLockPath absStage in
  o ← isStageRoot e cwd m managerRoot;
  match o with
  | Err err => unlock lease;; ret (Err err)
  | Ok owned =>
      let component := Base absStage in
      if negb owned || negb (has_prefix component ".stepanel-") || negb (MatchString validStagedComponent component)
      then unlock lease;; throw "cannot release lease for unowned staging path" else
      co ← acquireManagerStageCoordination e managerRoot stageCoordinationLock;
      match co with
      | Err err => unlock lease;; ret (Err (EWrap "coordinate staging lease release" err))
      | Ok _ =>
          unlock lease;;
          let? _ := wrap "release staging owner lock" (attempt e) in
          let? i := wrap "inspect staging tree while releasing lease" (Lstat e absStage) in
          match i with
          | None => wrap "remove completed staging lease" (RemoveFile e lease)
          | Some _ => ok tt
          end
      end
  end.

(** ** New sites *)

(** The deferred removal of a stage: when it was not published, or always. *)
Definition discard_on_error {A} (remove : M (res unit)) (m0 : M (res A)) : M (res A) :=
  r ← m0;
  match r with
  | Ok a => ok a
  | Err err => remove;; ret (Err err)
  end.
Definition discard_always {A} (remove : M (res unit)) (m0 : M (res A)) : M (res A) :=
  r ← m0; remove;; ret r.

(** [renameDurable] of a stage that becomes a site root; [x] is what it holds. *)
Definition renameRootDurable (stage root x : string) : M (res unit) :=
  let? _ := attempt e in
  w ← look;
  if negb (can_move_root stage root w) then ret (Err io_err) else
  effect (move_root stage root x);;
  y ← syncDir e (Dir root);
  match y with
  | Ok _ => ok tt
  | Err _ =>
      r ← attempt e;
      match r with
      | Err _ => throw "remains published; reverse rename failed"
      | Ok _ => effect (move_root root stage x);; throw "sync failed"
      end
  end.

Definition createPlaced (c : Ctx) (loc : location) : M (res string) :=
  let? _ := requireAccountHome e loc in
  let? i := wrap "inspect target" (Lstat e (docRoot loc)) in
  if negb (bool_decide (i = None)) then throw "site already exists" else
  let? _ := ctx_err e c in
  let? _ := wrap "create account staging root" (MkdirAll e (stageRoot loc)) in
  let? stage := wrap "create site stage" (MkdirTemp (stageRoot loc) ".create-") in
  discard_on_error (RemoveAll e stage) (
    let? _ := wrap "set document root mode" (attempt e) in
    let? _ := ctx_err e c in
    let? _ := wrap "publish document root" (renameDurable e stage (docRoot loc)) in
    ok (docRoot loc)).

(** [os.Mkdir] of a tree in a new stage. *)
Definition Mkdir (p : string) : M (res unit) :=
  let? _ := attempt e in
  t ← now e;
  effect (set_ent p (DirTree (empty_tree t)));; ok tt.

(** [Create]: the document root of the new site. *)
Definition Create (c : Ctx) (m : Manager) (name : string) : M (res string) :=
  let? loc := locate e cwd m name in
  if placed loc then createPlaced c loc else
  let publicRoot := docRoot loc in
  let? i := wrap "inspect target" (Stat publicRoot) in
  if negb (bool_decide (i = None)) then throw "site already exists" else
  let? _ := ctx_err e c in
  let? sitesRoot := SafePath e cwd (webRoot m) ["sites"] in
  let? stageParent := SafePath e cwd sitesRoot [staging] in
  let? _ := wrap "create site staging root" (MkdirAll e stageParent) in
  let? stage := wrap "create site stage" (MkdirTempRoot stageParent ".create-") in
  discard_on_error (RemoveRoot stage) (
    let? _ := wrap "create staged public directory" (Mkdir (Join [stage; "public"])) in
    let? _ := ctx_err e c in
    let? _ := wrap "publish site directory" (renameRootDurable stage (Dir publicRoot) "public") in
    ok publicRoot).

(** ** Clones *)

(** *** [copySiteTree]

    The walk over the items of the source, which do not change meanwhile, into the tree
    [destination] of a stage, which changes with every call. Modes are not modelled. *)
Section copy.
Context (c : Ctx) (destination : string).
(** The loop of [io.Copy] over a [contextReader], which looks for a cancellation before every
    read. *)
Fixpoint copy_data (rel : list string) (bufs : list string) : M (res unit) :=
  let? _ := ctx_err e c in
  let? _ := attempt e in
  match bufs with
  | [] => ok tt
  | d :: rest => let? _ := attempt e in effect (edit destination rel (append_data d));; copy_data rel rest
  end.
Definition close_both (copyErr : res unit) : M (res unit) :=
  closeOutErr ← attempt e;
  closeInErr ← attempt e;
  match copyErr with
  | Err err => ret (Err err)
  | Ok _ => match closeOutErr with Err err => ret (Err err) | Ok _ => ret closeInErr end
  end.
(** One regular file: opened in the source, created with [O_EXCL], copied, synced and both
    closed, in the entry [n] of the directory [dir]. *)
Definition copy_file (dir : list string) (n data : string) : M (res unit) :=
  let? _ := attempt e in
  let? _ := attempt e in
  w ← look;
  if negb (bool_decide (item_of destination (dir ++ [n]) w = None)) then ret (Err io_err) else
  effect (edit destination dir (add_entry n (Regular "" false)));;
  copyErr ← copy_data (dir ++ [n]) (buffers_of data);
  copyErr ← match copyErr with
            | Ok _ => let? _ := attempt e in effect (edit destination (dir ++ [n]) sync_item);; ok tt
            | Err err => ret (Err err)
            end;
  close_both copyErr.
(** [os.MkdirAll] of a directory of the copy. *)
Definition make_dir (dir : list string) (n : string) : M (res unit) :=
  let? _ := attempt e in
  w ← look;
  match item_of destination (dir ++ [n]) w with
  | Some (Folder _ _) => ok tt
  | Some _ => ret (Err io_err)
  | None => effect (edit destination dir (add_entry n (Folder false [])));; ok tt
  end.
Fixpoint each {A} (f : A → M (res unit)) (l : list A) : M (res unit) :=
  match l with
  | [] => ok tt
  | x :: l => let? _ := f x in each f l
  end.
(** The entries [es] of a directory of the source, into the directory [dir] of the copy; [sub]
    copies a directory. *)
Definition copy_entries (sub : list string → string → Item → M (res unit)) (dir : list string) (es : list (string * Item)) : M (res unit) :=
  let? _ := attempt e in
  let? _ := each (λ '(n, i),
    let? _ := ctx_err e c in
    let? _ := attempt e in
    match i with
    | LinkItem => throw "refuse to clone symlink"
    | Folder _ _ => sub dir n i
    | SpecialItem => throw "refuse to clone special file"
    | Regular data _ => copy_file dir n data
    end) es in
  let? _ := syncDir e destination in
  effect (edit destination dir sync_item);; ok tt.
(** [copySiteTree] of a directory in the source to the entry [n] of [dir]. *)
Fixpoint copy_sub (dir : list string) (n : string) (i : Item) {struct i} : M (res unit) :=
  let? _ := attempt e in
  match i with
  | Folder _ es => let? _ := make_dir dir n in copy_entries copy_sub (dir ++ [n]) es
  | _ => throw "clone source contains a non-directory root"
  end.
End copy.
(** The first call: the source is a tree of the host. *)
Definition copySiteTree (c : Ctx) (source destination : string) : M (res unit) :=
  let? i := Lstat e source in
  w ← look;
  match i, ents w !! key source with
  | Some IsDir, Some (DirTree t) =>
      let? _ := attempt e in
      now_ ← now e;
      let? _ := match ents w !! key destination with
                | Some (DirTree _) => ok tt
                | Some _ => ret (Err io_err)
                | None => effect (set_ent destination (DirTree (mkTree (Folder false []) (whole t) now_)));; ok tt
                end in
      match content t with
      | Folder _ es => copy_entries c destination (copy_sub c destination) [] es
      | _ => throw "clone source contains a non-directory root"
      end
  | _, _ => throw "clone source contains a non-directory root"
  end.

Definition clonePlaced (c : Ctx) (source : string) (loc : location) : M (res string) :=
  let? i := wrap "inspect clone source" (Lstat e source) in
  if negb (bool_decide (i = Some IsDir)) then throw "clone source must be a directory" else
  let? _ := requireAccountHome e loc in
  let? d := wrap "inspect clone destination" (Lstat e (docRoot loc)) in
  if negb (bool_decide (d = None)) then throw "site already exists" else
  let? _ := wrap "create account staging root" (MkdirAll e (stageRoot loc)) in
  let? stage := wrap "create clone stage" (MkdirTempRoot (stageRoot loc) ".clone-") in
  discard_always (RemoveRoot stage) (
    let tree := Join [stage; "tree"] in
    let? _ := wrap "stage clone" (copySiteTree c source tree) in
    let? _ := ctx_err e c in
    let? _ := wrap "activate clone" (renameDurable e tree (docRoot loc)) in
    ok (docRoot loc)).

Definition Clone (c : Ctx) (m : Manager) (sourceName destName : string) : M (res string) :=
  if bool_decide (sourceName = destName) then throw "clone source and destination must differ" else
  let? sloc := locate e cwd m sourceName in
  let source := docRoot sloc in
  let? dloc := locate e cwd m destName in
  if placed dloc then clonePlaced c source dloc else
  let destination := container dloc in
  let? i := wrap "inspect clone source" (Lstat e source) in
  if negb (bool_decide (i = Some IsDir)) then throw "clone source must be a directory" else
  let? d := wrap "inspect clone destination" (Lstat e destination) in
  if negb (bool_decide (d = None)) then throw "site already exists" else
  let? _ := ctx_err e c in
  let? sitesRoot := SafePath e cwd (webRoot m) ["sites"] in
  let stageParent := Join [sitesRoot; staging] in
  let? _ := wrap "create clone staging root" (MkdirAll e stageParent) in
  let? stage := wrap "create clone stage" (MkdirTempRoot stageParent (destName +:+ "-")) in
  discard_on_error (RemoveRoot stage) (
    let? _ := wrap "stage clone" (copySiteTree c source (Join [stage; "public"])) in
    let? _ := ctx_err e c in
    let? _ := wrap "activate clone" (renameRootDurable stage destination "public") in
    ok (Join [destination; "public"])).
End create.
End SiteCreate.
