(* ===== verification/SiteCreateProps.v ===== *)
(** * SiteCreateProps: a site appears whole or not at all

    [Create] and [Clone] of [SiteCreate] never touch a tree that was there, and
    publish the new document root in one step; a stage with a fresh lease survives
    every cleanup. *)
From S2P Require Import Prelude GoPath GoText Regex Names SiteLayout Sites SitesProps StageProps SiteCreate.

Module SiteCreateProps.
Import GoPath GoText Regex Names SiteLayout Sites SitesProps StageProps SiteCreate.
#[local] Open Scope host_scope.

(** ** Calls *)

Section steps.
Context (e : Env) (cwd : string) (I : World → Prop).
Lemma ens_Lstat P p : (∀ w, P w → I w) → ensures P (Lstat e p) I (λ i w, P w ∧ i = info w p).
Proof. intros H. apply ens_read; [done|]. intros s. apply reads_Lstat. Qed.
Lemma ens_SafePath P root parts : (∀ w, P w → I w) → ensures P (SafePath e cwd root parts) I (λ p w, P w ∧ p = joined root parts).
Proof. intros H. apply (ens_read _ _ _ (λ p _, p = joined root parts)); [done|]. intros s. apply reads_SafePath. Qed.
Lemma ens_home P loc : (∀ w, P w → I w) → ensures P (requireAccountHome e loc) I (λ _, P).
Proof.
  intros H. unfold requireAccountHome. eapply ens_rbind; [by apply ens_Lstat|]. intros [[]|]; first [apply ens_ok|apply ens_err]; intros w []; auto.
Qed.
End steps.

(** ** Items *)

(** A finished copy of an item: the same files with the same bytes under the same names,
    all synced. *)
Fixpoint copied (i : Item) : Item :=
  match i with
  | Folder _ es => Folder true (map (λ '(n, j), (n, copied j)) es)
  | Regular d _ => Regular d true
  | _ => i
  end.
(** Directories and regular files only. *)
Fixpoint copyable (i : Item) : bool :=
  match i with
  | Folder _ es => forallb (λ '(_, j), copyable j) es
  | Regular _ _ => true
  | _ => false
  end.
(** The entries of a directory have different names. *)
Fixpoint distinct (i : Item) : bool :=
  match i with
  | Folder _ es => bool_decide (NoDup es.*1) && forallb (λ '(_, j), distinct j) es
  | _ => true
  end.

(** A tree under construction, from its root to the item that is built: the finished entries
    of each directory and the name of the one that follows. *)
Definition place := list (list (string * Item) * string).
Definition names (K : place) : list string := K.*2.
Definition fresh (K : place) : Prop := Forall (λ k, k.2 ∉ k.1.*1) K.
Fixpoint fill (K : place) (i : Item) : Item :=
  match K with [] => i | (es, n) :: K => Folder false (es ++ [(n, fill K i)]) end.
Lemma fill_snoc K es n i : fill (K ++ [(es, n)]) i = fill K (Folder false (es ++ [(n, i)])).
Proof. induction K as [|[es' n'] K IH]; cbn; [done|]. by rewrite IH. Qed.
Lemma fresh_snoc K es n : fresh K → n ∉ es.*1 → fresh (K ++ [(es, n)]).
Proof. intros HK Hn. apply Forall_app. by split; [|apply Forall_singleton]. Qed.
Lemma alter_name_fresh n f es i : n ∉ es.*1 → alter_name n f (es ++ [(n, i)]) = es ++ [(n, f i)].
Proof.
  unfold alter_name. intros Hn. rewrite map_app. cbn. rewrite bool_decide_true by done. f_equal. induction es as [|[m j] es IH]; cbn in *; [done|].
  rewrite bool_decide_false by set_solver. f_equal. apply IH. set_solver.
Qed.
Lemma at_fill K f i : fresh K → at_item (names K) f (fill K i) = fill K (f i).
Proof. unfold names. induction 1 as [|[es n] K Hn HK IH]; csimpl; [done|]. by rewrite alter_name_fresh, IH. Qed.
Lemma find_fresh n es i : n ∉ es.*1 → list_find (λ x : string * Item, x.1 = n) (es ++ [(n, i)]) = Some (length es, (n, i)).
Proof.
  intros Hn. apply list_find_Some. split_and!; [by apply list_lookup_middle|done|]. intros j y Hj Hlt. rewrite lookup_app_l in Hj by lia.
  intros <-. apply Hn, list_elem_of_fmap. exists y. split; [done|]. by eapply list_elem_of_lookup_2.
Qed.
Lemma lookup_fill K rel i : fresh K → lookup_item (names K ++ rel) (fill K i) = lookup_item rel i.
Proof. unfold names. induction 1 as [|[es n] K Hn HK IH]; csimpl; [done|]. by rewrite find_fresh. Qed.
Lemma lookup_absent n b es : n ∉ es.*1 → lookup_item [n] (Folder b es) = None.
Proof.
  intros Hn. cbn. destruct (list_find _ es) as [[k [m j]]|] eqn:E; [|done]. apply list_find_Some in E as (E & Em & _). cbn in Em. subst m.
  destruct Hn. apply list_elem_of_fmap. exists (n, j). split; [done|]. by eapply list_elem_of_lookup_2.
Qed.
(** The buffers are the file. *)
Lemma buffers_mjoin fuel data : (length data ≤ fuel)%nat → mjoin (buffers fuel data) = data.
Proof.
  revert data. induction fuel as [|fuel IH]; intros [|x data] H; try done; [cbn in H; lia|]. change (buffers (S fuel) (x :: data)) with (take copy_buffer (x :: data) :: buffers fuel (drop copy_buffer (x :: data))).
  cbn [mjoin list_join]. rewrite IH; [by apply take_drop|]. rewrite length_drop. cbn [length] in *.
  assert (1 ≤ copy_buffer)%nat by (apply (bool_decide_unpack _); by vm_compute). lia.
Qed.
Lemma foldl_append d bufs : foldl String.append d (of_bytes <$> bufs) = d +:+ of_bytes (mjoin bufs).
Proof.
  revert d. induction bufs as [|x bufs IH]; intros d; cbn.
  - apply (inj bytes_of). rewrite bytes_of_app. symmetry. apply app_nil_r.
  - rewrite IH. apply (inj bytes_of). rewrite !bytes_of_app, !bytes_of_of. by rewrite <- app_assoc.
Qed.
Lemma buffers_foldl data : foldl String.append "" (buffers_of data) = data.
Proof. unfold buffers_of. rewrite foldl_append, buffers_mjoin by done. apply (inj bytes_of). by rewrite bytes_of_app, bytes_of_of. Qed.

(** ** The host during a publication *)

(** Every tree is in a directory that holds trees. *)
Definition rooted (w : World) : Prop := ∀ k, is_Some (ents w !! k) → k.1 ∈ parents w.
(** Nothing of [W] has changed in [w]. *)
Record extends (W w : World) : Prop := {
  ext_ents : ∀ k n, ents W !! k = Some n → ents w !! k = Some n;
  ext_parents : parents W ⊆ parents w }.
(** Suffixes of temporary names. *)
Definition plain_suffixes (e : Env) : Prop := ∀ n, "/"%char ∉ bytes_of (default "" (rand e n)).

Lemma info_None w p : info w p = None → p ∉ parents w ∧ ents w !! key p = None.
Proof. unfold info. case_decide; [done|]. destruct (ents w !! key p); done. Qed.

Section publish.
Context (W : World) (dk : string * string) (wanted : Tree → Prop).
Context (Hroot : rooted W) (Hfree : ents W !! dk = None).

(** The invariant: nothing old has changed, and the new document root is whole or
    absent. *)
Definition shown (o : option Node) : Prop := match o with None => True | Some (DirTree t) => wanted t | Some _ => False end.
Record pub (w : World) : Prop := { pub_ext : extends W w; pub_doc : shown (ents w !! dk) }.
(** Not yet published. *)
Definition hidden (w : World) : Prop := extends W w ∧ ents w !! dk = None.
Definition published (w : World) : Prop := ∃ t, ents w !! dk = Some (DirTree t) ∧ wanted t.

Lemma hidden_pub w : hidden w → pub w.
Proof. intros [H1 H2]. split; [done|]. by rewrite H2. Qed.
Lemma pub_start : hidden W.
Proof. split; [by split|done]. Qed.

(** *** Changes *)
Lemma extends_set w k n : extends W w → ents W !! k = None → extends W (mkWorld (<[k := n]> (ents w)) (parents w) (journals w)).
Proof. intros [H1 H2] Hk. split; [|done]. intros k' n' H. cbn. rewrite lookup_insert_ne by congruence. by apply H1. Qed.
Lemma extends_del w k : extends W w → ents W !! k = None → extends W (mkWorld (delete k (ents w)) (parents w) (journals w)).
Proof. intros [H1 H2] Hk. split; [|done]. intros k' n' H. cbn. rewrite lookup_delete_ne by congruence. by apply H1. Qed.
Lemma extends_gut w p : extends W w → ents W !! key p = None → extends W (gut_ent p w).
Proof. intros [H1 H2] Hk. split; [|done]. intros k' n' H. cbn. rewrite lookup_alter_ne by congruence. by apply H1. Qed.
Lemma unrooted p x : p ∉ parents W → ents W !! (p, x) = None.
Proof. intros Hp. destruct (ents W !! (p, x)) eqn:E; [|done]. destruct Hp. apply (Hroot (p, x)). by eexists. Qed.

(** A stage that is an entry of a staging root. *)
Section entry.
Context (e : Env) (p : string) (Hp : ents W !! key p = None) (Hne : key p ≠ dk).
Lemma pub_set_stage n w : hidden w → hidden (set_ent p n w).
Proof. intros [H1 H2]. split; [by apply extends_set|]. cbn. by rewrite lookup_insert_ne. Qed.
Lemma pub_del_stage w : pub w → pub (del_ent p w).
Proof. intros [H1 H2]. split; [by apply extends_del|]. cbn. by rewrite lookup_delete_ne. Qed.
Lemma pub_gut_stage w : pub w → pub (gut_ent p w).
Proof. intros [H1 H2]. split; [by apply extends_gut|]. cbn. by rewrite lookup_alter_ne. Qed.
Lemma ens_RemoveAll : ensures pub (RemoveAll e p) pub (λ _, pub).
Proof.
  unfold RemoveAll. apply (ens_bind_read _ _ _ _ (λ b w, True)); [intros s; by eapply reads_mono; [|apply reads_look]|]. intros w0.
  case_bool_decide; [by apply ens_ok; intros w []|]. apply (ens_effect _ _ _ _ pub); [intros w [Hw _]; split; [done|by apply pub_gut_stage]|].
  eapply ens_rbind; [by apply ens_attempt|]. intros u. cbn beta. apply (ens_effect _ _ _ _ pub); [intros w Hw; split; [done|by apply pub_del_stage]|].
  by apply ens_ok.
Qed.
(** Renaming a finished tree to the document root. *)
Lemma ens_renameDurable q : key q = dk → p ≠ q →
  ensures (λ w, hidden w ∧ ∃ t, ents w !! key p = Some (DirTree t) ∧ wanted t) (renameDurable e p q) pub (λ _ w, pub w ∧ published w).
Proof.
  intros Hq Hpq s [[Hx Hn] (t & Ht & Hwt)]. unfold renameDurable, rbind. apply holds_bind, holds_Rename; cbn [world at_call].
  { intros err c. apply holds_ret. split; [by apply hidden_pub|done]. }
  { intros c. split; [by apply hidden_pub|done]. }
  intros c l _.
  assert (pub (move p q (world s)) ∧ published (move p q (world s))) as Hw1.
  { unfold move. rewrite Ht, Hq. assert (<[dk:=DirTree t]> (delete (key p) (ents (world s))) !! dk = Some (DirTree t)) as E by apply lookup_insert_eq.
    split; [split; cbn; [|by rewrite E]|exists t; by cbn].
    pose proof (extends_set _ dk (DirTree t) (extends_del _ (key p) Hx Hp) Hfree) as Hd. apply Hd. }
  eapply holds_read; [apply reads_attempt|]. intros [u|err] c1 _; [apply holds_ret; cbn [world at_call]; by split; [|intros ? _]; apply Hw1|].
  apply holds_bind, holds_Rename; cbn [world at_call]; intros; [apply holds_ret; by split; [apply Hw1|]|by split; [apply Hw1|]|].
  apply holds_ret. split; [|done]. cbn [world]. unfold move at 1. rewrite Hq. destruct Hw1 as [[Hx1 _] (t1 & Ht1 & _)]. rewrite Ht1.
  split; cbn; [|by rewrite lookup_insert_ne, lookup_delete_eq].
  pose proof (extends_set _ (key p) (DirTree t1) (extends_del _ dk Hx1 Hfree) Hp) as Hd. apply Hd.
Qed.
End entry.

(** A stage that is a directory of its own. *)
Section directory.
Context (e : Env) (p : string) (Hp : p ∉ parents W) (Hne : p ≠ dk.1).
Lemma gut_below_doc w : ents (gut_below p w) !! dk = ents w !! dk.
Proof. cbn. rewrite map_lookup_imap. destruct (ents w !! dk); cbn in *; [|done]. by rewrite decide_False by done. Qed.
Lemma del_below_doc w : ents (del_below p w) !! dk = ents w !! dk.
Proof. cbn. rewrite map_lookup_filter. destruct (ents w !! dk); cbn in *; [|done]. by case_guard. Qed.
Lemma extends_gut_below w : extends W w → extends W (gut_below p w).
Proof.
  intros [H1 H2]. split; [|done]. intros k n H. cbn. rewrite map_lookup_imap, (H1 _ _ H). cbn. rewrite decide_False; [done|].
  intros E. rewrite <- E in Hp. apply Hp, Hroot. by eexists.
Qed.
Lemma extends_del_below w : extends W w → extends W (del_below p w).
Proof.
  intros [H1 H2]. split; cbn.
  - intros k n H. apply map_lookup_filter_Some. split; [by apply H1|]. cbn. intros E. rewrite <- E in Hp. apply Hp, Hroot. by eexists.
  - intros d Hd. apply elem_of_difference. split; [by apply H2|]. rewrite elem_of_singleton. by intros ->.
Qed.
(** Removing the stage keeps what the document root is. *)
Lemma ens_RemoveRoot (J : option Node → Prop) (K := λ w, extends W w ∧ J (ents w !! dk)) : ensures K (RemoveRoot e p) K (λ _, K).
Proof.
  unfold RemoveRoot. apply (ens_bind_read _ _ _ _ (λ b w, True)); [intros s; by eapply reads_mono; [|apply reads_look]|]. intros w0.
  destruct (negb _); [by apply ens_ok; intros w []|].
  apply (ens_effect _ _ _ _ K); [intros w [[H1 H2] _]; split; [done|]; split; [by apply extends_gut_below|by rewrite gut_below_doc]|].
  eapply ens_rbind; [by apply ens_attempt|]. intros u. cbn beta.
  apply (ens_effect _ _ _ _ K); [intros w [H1 H2]; split; [done|]; split; [by apply extends_del_below|by rewrite del_below_doc]|].
  by apply ens_ok.
Qed.
(** Renaming the stage, with its finished tree, to the site root. *)
Lemma ens_renameRootDurable q x : dk = (q, x) →
  ensures (λ w, hidden w ∧ ∃ t, ents w !! (p, x) = Some (DirTree t) ∧ wanted t) (renameRootDurable e p q x) pub (λ _ w, pub w ∧ published w).
Proof.
  intros Hq. unfold renameRootDurable. eapply ens_rbind; [apply ens_attempt; intros w [? _]; by apply hidden_pub|]. intros u. cbn beta.
  apply (ens_bind_read _ _ _ _ eq); [intros s; by eapply reads_mono; [|apply reads_look]|]. intros w0.
  destruct (can_move_root p q w0) eqn:Ec; cbn [negb]; [|apply ens_err; intros w [[? _] _]; by apply hidden_pub].
  unfold can_move_root in Ec. apply andb_true_iff in Ec as [_ Ei%bool_decide_eq_true]. apply info_None in Ei as [Eq _].
  assert (∀ w, pub w ∧ published w ∧ q ∉ parents W → pub (move_root q p x w)) as Hback.
  { intros w ([[Hx1 Hx2] _] & (t & Ht & _) & HqW). unfold move_root. rewrite Hq in Ht. rewrite Ht. split; cbn.
    - split; cbn.
      + intros k n H. rewrite !lookup_insert_ne, lookup_delete_ne; [by apply Hx1|..]; intros <-; [by rewrite Hq in Hfree; rewrite Hfree in H|].
        by rewrite (unrooted p x Hp) in H.
      + intros d Hd. apply elem_of_union. right. apply elem_of_difference. split; [by apply Hx2|]. rewrite elem_of_singleton. by intros ->.
    - rewrite Hq. rewrite lookup_insert_ne by (rewrite Hq in Hne; cbn in Hne; congruence). by rewrite lookup_delete_eq. }
  apply (ens_effect _ _ _ _ (λ w, pub w ∧ published w ∧ q ∉ parents W)).
  { intros w [[[Hx Hn] (t & Ht & Hw)] ->]. split; [by apply hidden_pub|]. destruct Hx as [Hx1 Hx2].
    assert (q ∉ parents W) as HqW by (intros Hin; by apply Eq, Hx2). unfold move_root. rewrite Ht. split_and!; [|exists t; rewrite Hq; cbn; by rewrite lookup_insert_eq|done].
    split; cbn; [split; cbn|by rewrite Hq, lookup_insert_eq].
    - intros k n H. rewrite Hq in Hfree. rewrite lookup_insert_ne, lookup_delete_ne; [by apply Hx1|..]; intros <-; [by rewrite (unrooted p x Hp) in H|congruence].
    - intros d Hd. apply elem_of_union. right. apply elem_of_difference. split; [by apply Hx2|]. rewrite elem_of_singleton. by intros ->. }
  apply (ens_bind_read _ _ _ _ (λ _ _, True)); [intros s; by eapply reads_mono; [|apply reads_attempt]|]. intros [u1|err]; [apply ens_ok; naive_solver|].
  apply (ens_bind_read _ _ _ _ (λ _ _, True)); [intros s; by eapply reads_mono; [|apply reads_attempt]|]. intros [u1|err2]; [|apply ens_err; naive_solver].
  apply (ens_effect _ _ _ _ pub); [intros w [[Hw _] _]; split; [apply Hw|by apply Hback]|]. by apply ens_err.
Qed.
End directory.

(** *** Staging *)
Context (e : Env) (cwd : string).
(** No tree has changed. *)
Definition idle (w : World) : Prop := parents W ⊆ parents w ∧ ents w = ents W.
Lemma idle_hidden w : idle w → hidden w.
Proof. intros [H1 H2]. split; [split; [by rewrite H2|done]|by rewrite H2]. Qed.
Lemma idle_pub w : idle w → pub w.
Proof. intros H. by apply hidden_pub, idle_hidden. Qed.
Lemma idle_mkdir d w : idle w → idle (mkdir_root d w).
Proof. intros [H1 H2]. split; [|done]. cbn. intros d' Hd. apply elem_of_union. right. by apply H1. Qed.
Lemma ens_MkdirAll d : ensures idle (MkdirAll e d) pub (λ _, idle).
Proof.
  unfold MkdirAll. eapply ens_rbind; [apply ens_attempt, idle_pub|]. intros u. cbn beta.
  apply (ens_bind_read _ _ _ _ (λ _ _, True)); [intros s; by eapply reads_mono; [|apply reads_look]|]. intros w0.
  case_decide; [apply ens_ok; intros w [Hh _]; split; [by apply idle_pub|done]|].
  apply (ens_effect _ _ _ _ idle); [intros w [Hh _]; split; [by apply idle_pub|by apply (idle_mkdir d)]|].
  apply ens_ok. intros w Hh. split; [by apply idle_pub|done].
Qed.
Definition fresh_path (dir prefix path : string) : Prop :=
  (∃ suffix, "/"%char ∉ bytes_of suffix ∧ path = Join [dir; prefix +:+ suffix]) ∧ path ∉ parents W ∧ ents W !! key path = None.
Lemma ens_temp_path dir prefix : plain_suffixes e →
  ensures idle (temp_path e dir prefix) pub (λ path w, idle w ∧ fresh_path dir prefix path).
Proof.
  intros Hs. unfold temp_path. eapply ens_rbind; [apply ens_attempt, idle_pub|]. intros u. cbn beta.
  apply (ens_bind_read _ _ _ _ (λ x _, "/"%char ∉ bytes_of x)).
  { intros s. exists (default "" (rand e (calls s))), (S (calls s)). split; [done|apply Hs]. }
  intros x. apply (ens_bind_read _ _ _ _ eq); [intros s; by eapply reads_mono; [|apply reads_look]|]. intros w0.
  destruct (negb _ || negb _) eqn:E; [apply ens_err; intros w [[? _] _]; by apply idle_pub|].
  apply orb_false_iff in E as [_ [E1 E2]%negb_false_iff%bool_decide_eq_true%info_None].
  apply ens_ok. intros w [[Hh Hx] ->]. split; [by apply idle_pub|]. split; [done|]. destruct Hh as [H1 H2]. split_and!; [by exists x| |].
  - intros Hin. by apply E1, H1.
  - by rewrite <- H2.
Qed.
Lemma ens_MkdirTempRoot dir prefix : plain_suffixes e →
  ensures idle (MkdirTempRoot e dir prefix) pub (λ path w, idle w ∧ fresh_path dir prefix path).
Proof.
  intros Hs. unfold MkdirTempRoot. eapply ens_rbind; [by apply ens_temp_path|]. intros path. cbn beta.
  apply (ens_effect _ _ _ _ (λ w, idle w ∧ fresh_path dir prefix path)); [intros w [H Hf]; split; [by apply idle_pub|]; split; [by apply idle_mkdir|done]|].
  apply ens_ok. intros w [H Hf]. split; [by apply idle_pub|done].
Qed.
(** *** Copying *)
Section copying.
Context (c : Ctx) (path : string) (wh : bool) (Hpath : ents W !! key path = None) (Hnd : key path ≠ dk).
(** The stage holds [i]. *)
Definition built (i : Item) (w : World) : Prop := hidden w ∧ ∃ z, ents w !! key path = Some (DirTree (mkTree i wh z)).
Lemma built_pub i w : built i w → pub w.
Proof. intros [H _]. by apply hidden_pub. Qed.
Lemma built_item K i rel w : fresh K → built (fill K i) w → item_of path (names K ++ rel) w = lookup_item rel i.
Proof. intros HK [_ [z E]]. unfold item_of. rewrite E. by apply lookup_fill. Qed.
Lemma ens_edit {A} K f i (m0 : M (res A)) Q : fresh K →
  ensures (built (fill K (f i))) m0 pub Q → ensures (built (fill K i)) (effect (edit path (names K) f);; m0) pub Q.
Proof.
  intros HK H. eapply ens_effect; [|exact H]. intros w Hb. split; [by eapply built_pub|]. destruct Hb as [[Hx Hn] [z E]].
  assert (edit path (names K) f w = set_ent path (DirTree (mkTree (fill K (f i)) wh z)) w) as ->.
  { unfold edit, set_ent. f_equal. rewrite <- (at_fill K f i HK). apply map_eq. intros k. destruct (decide (k = key path)) as [->|Hk].
    - by rewrite lookup_alter_eq, E, lookup_insert_eq.
    - by rewrite lookup_alter_ne, lookup_insert_ne. }
  split; [by apply pub_set_stage|]. exists z. cbn. apply lookup_insert_eq.
Qed.
Lemma ens_close P copyErr : (∀ w, P w → pub w) → ensures P (close_both e copyErr) pub (λ _ w, P w ∧ ∃ u, copyErr = Ok u).
Proof.
  intros HP. unfold close_both. assert (∀ s : St, reads (attempt e) s (λ _, True)) as Ha by (intros s; by eapply reads_mono; [|apply reads_attempt]).
  do 2 (apply (ens_bind_read _ _ _ _ (λ _ _, True)); [done|]; intros ?; apply (ens_pre _ _ P); [by intros w []|]).
  destruct copyErr as [u|]; [|by apply ens_err]. destruct b as [u1|]; [|by apply ens_err]. destruct b0 as [u2|]; [|by apply ens_err]. apply ens_ok. eauto.
Qed.

Lemma ens_copy_data K bufs d : fresh K →
  ensures (built (fill K (Regular d false))) (copy_data e c path (names K) bufs) pub (λ _, built (fill K (Regular (foldl String.append d bufs) false))).
Proof.
  intros HK. revert d. induction bufs as [|x bufs IH]; intros d; cbn [copy_data foldl].
  all: eapply ens_rbind; [apply ens_ctx, built_pub|]; intros u; cbn beta; eapply ens_rbind; [apply ens_attempt, built_pub|]; intros u1; cbn beta.
  - apply ens_ok. intros w H. split; [by eapply built_pub|done].
  - eapply ens_rbind; [apply ens_attempt, built_pub|]. intros u2. cbn beta. apply ens_edit; [done|]. apply (IH (d +:+ x)).
Qed.
Lemma ens_copy_file K done n data : fresh K → n ∉ done.*1 →
  ensures (built (fill K (Folder false done))) (copy_file e c path (names K) n data) pub
    (λ _, built (fill K (Folder false (done ++ [(n, Regular data true)])))).
Proof.
  intros HK Hn. unfold copy_file. do 2 (eapply ens_rbind; [apply ens_attempt, built_pub|]; intros ?; cbn beta).
  apply ens_look. intros w0. destruct (negb _); [apply ens_err; intros w [? _]; by eapply built_pub|]. apply (ens_pre _ _ (built (fill K (Folder false done)))); [by intros w []|].
  apply ens_edit; [done|]. cbn [add_entry]. assert (fresh (K ++ [(done, n)])) as HK2 by (by apply fresh_snoc).
  assert (names K ++ [n] = names (K ++ [(done, n)])) as -> by (unfold names; by rewrite fmap_app). rewrite <- fill_snoc, <- (fill_snoc K done n (Regular data true)).
  set (K2 := K ++ [(done, n)]) in *.
  eapply ens_result; [by apply ens_copy_data|intros u1|intros err]; cbn beta iota.
  - rewrite buffers_foldl. eapply (ens_result _ _ _ _ (λ _, built (fill K2 (Regular data true)))); [|intros u2; eapply ens_post; [|apply ens_close, built_pub]; by intros ? w []|intros err].
    + eapply ens_rbind; [apply ens_attempt, built_pub|]. intros u2. cbn beta. apply ens_edit; [done|]. apply ens_ok. intros w H. split; [by eapply built_pub|done].
    + eapply ens_post; [|by apply ens_close]. by intros ? w (_ & ? & ?).
  - apply (ens_bind_read _ _ _ _ (λ r _, r = Err err)); [intros s; by apply reads_ret|]. intros r. apply (ens_fact _ (r = Err err)); [by intros w []|]. intros ->.
    eapply ens_pre; [|eapply ens_post; [|by apply ens_close]]; [by intros w []|]. by intros ? w (_ & ? & ?).
Qed.
Lemma ens_make_dir K done n : fresh K → n ∉ done.*1 →
  ensures (built (fill K (Folder false done))) (make_dir e path (names K) n) pub (λ _, built (fill (K ++ [(done, n)]) (Folder false []))).
Proof.
  intros HK Hn. unfold make_dir. eapply ens_rbind; [apply ens_attempt, built_pub|]. intros u. cbn beta. apply ens_look. intros w0.
  apply (ens_fact _ (item_of path (names K ++ [n]) w0 = None)).
  { intros w [Hb ->]. by rewrite (built_item K (Folder false done)), lookup_absent. }
  intros ->. apply (ens_pre _ _ (built (fill K (Folder false done)))); [by intros w []|].
  apply ens_edit; [done|]. apply ens_ok. rewrite fill_snoc. intros w H. split; [by eapply built_pub|done].
Qed.
(** What copying an item adds to a directory. *)
Definition copies (f : list string → string → Item → M (res unit)) (i : Item) : Prop :=
  ∀ K done n, fresh K → n ∉ done.*1 → distinct i = true →
  ensures (built (fill K (Folder false done))) (f (names K) n i) pub
    (λ _ w, built (fill K (Folder false (done ++ [(n, copied i)]))) w ∧ copyable i = true).
Lemma ens_each f K es done : (∀ x, x ∈ es → copies f x.2) → fresh K → NoDup (done.*1 ++ es.*1) → forallb (λ '(_, j), distinct j) es = true →
  ensures (built (fill K (Folder false done))) (each (λ '(n, i), f (names K) n i) es) pub
    (λ _ w, built (fill K (Folder false (done ++ map (λ '(n, j), (n, copied j)) es))) w ∧ forallb (λ '(_, j), copyable j) es = true).
Proof.
  intros Hf HK. revert done. induction es as [|[n i] es IH]; intros done Hd Hdi; cbn [each map forallb].
  { apply ens_ok. intros w H. rewrite app_nil_r. split; [by eapply built_pub|done]. }
  cbn in Hd, Hdi. apply andb_true_iff in Hdi as [Hi Hes]. assert (n ∉ done.*1) as Hn.
  { apply NoDup_app in Hd as (_ & Hd & _). intros H. apply (Hd _ H). set_solver. }
  eapply ens_rbind; [eapply (Hf (n, i)); [set_solver|done..]|]. intros u. cbn beta. apply (ens_fact _ (copyable i = true)); [by intros w []|]. intros Hc.
  apply (ens_pre _ _ (built (fill K (Folder false (done ++ [(n, copied i)]))))); [by intros w []|].
  eapply ens_post; [|apply IH; [intros x Hx; apply Hf; set_solver| |done]].
  - intros ? w [H1 H2]. rewrite <- app_assoc in H1. by rewrite Hc, H2.
  - rewrite fmap_app, <- app_assoc. exact Hd.
Qed.
Lemma ens_copy_entries sub K es : (∀ x, x ∈ es → copies sub x.2) → fresh K → distinct (Folder false es) = true →
  ensures (built (fill K (Folder false []))) (copy_entries e c path sub (names K) es) pub
    (λ _ w, built (fill K (copied (Folder false es))) w ∧ copyable (Folder false es) = true).
Proof.
  intros Hsub HK [Hd%bool_decide_eq_true Hdi]%andb_true_iff. unfold copy_entries. eapply ens_rbind; [apply ens_attempt, built_pub|]. intros u. cbn beta.
  eapply ens_rbind; [apply (ens_each (λ dir n i, let? _ := ctx_err e c in let? _ := attempt e in
    match i with LinkItem => throw "refuse to clone symlink" | Folder _ _ => sub dir n i | SpecialItem => throw "refuse to clone special file" | Regular data _ => copy_file e c path dir n data end)); [|done..]|].
  - intros [m i] Hx K' done n HK' Hn Hi. eapply ens_rbind; [apply ens_ctx, built_pub|]. intros u1. cbn beta. eapply ens_rbind; [apply ens_attempt, built_pub|]. intros u2. cbn beta.
    specialize (Hsub (m, i) Hx K' done n HK' Hn Hi). destruct i as [| | |]; cbn [snd] in *; [done| |apply ens_err, built_pub..].
    eapply ens_post; [|by apply ens_copy_file]. done.
  - intros u1. cbn beta. apply (ens_fact _ (copyable (Folder false es) = true)); [by intros w []|]. intros Hc.
    eapply ens_pre; [intros w [H _]; exact H|]. eapply ens_rbind; [apply ens_attempt, built_pub|]. intros u2. cbn beta.
    apply ens_edit; [done|]. apply ens_ok. intros w H. split; [by eapply built_pub|]. done.
Qed.
Lemma ens_copy_sub i : copies (copy_sub e c path) i.
Proof.
  induction i as [b es IH|d b| |] using Item_nested_ind; intros K done n HK Hn Hd; cbn [copy_sub]; (eapply ens_rbind; [apply ens_attempt, built_pub|]; intros u; cbn beta);
    [|apply ens_err, built_pub..].
  eapply ens_rbind; [by apply ens_make_dir|]. intros u1. cbn beta. assert (names K ++ [n] = names (K ++ [(done, n)])) as -> by (unfold names; by rewrite fmap_app).
  rewrite <- fill_snoc. apply ens_copy_entries; [|by apply fresh_snoc|done]. by apply Forall_forall.
Qed.
End copying.
Lemma ens_copySiteTree c source ts path : ents W !! key source = Some (DirTree ts) → distinct (content ts) = true →
  (copyable (content ts) = true → ∀ z, wanted (mkTree (copied (content ts)) (whole ts) z)) → ents W !! key path = None → key path ≠ dk →
  ensures (λ w, hidden w ∧ ents w !! key path = None) (copySiteTree e c source path) pub (λ _ w, hidden w ∧ ∃ t, ents w !! key path = Some (DirTree t) ∧ wanted t).
Proof.
  intros Hsrc Hdis Hw Hp Hne. assert (∀ w, hidden w ∧ ents w !! key path = None → pub w) as Hpub by (intros w []; by apply hidden_pub).
  unfold copySiteTree. eapply ens_rbind; [by apply ens_Lstat|]. intros i. cbn beta. apply ens_look. intros w0.
  apply (ens_fact _ (ents w0 !! key source = Some (DirTree ts) ∧ ents w0 !! key path = None)); [intros w [[[[[H1 _] _] E] _] ->]; split; [by apply H1|done]|].
  intros [-> ->]. apply (ens_pre _ _ (λ w, hidden w ∧ ents w !! key path = None)); [by intros w [[? _] _]|].
  destruct i as [[]|]; try (by apply ens_err). eapply ens_rbind; [by apply ens_attempt|]. intros u. cbn beta. apply ens_now. intros t.
  apply (ens_rbind _ _ _ _ (λ _, built path (whole ts) (fill [] (Folder false [])))).
  { apply (ens_effect _ _ _ _ (built path (whole ts) (Folder false []))).
    - intros w H. split; [by apply Hpub|]. split; [by destruct H; apply pub_set_stage|]. exists t. cbn. apply lookup_insert_eq.
    - apply ens_ok. intros w H. split; [by eapply built_pub|done]. }
  intros u1. cbn beta. destruct (content ts) as [b es| | |] eqn:Ec; [|apply ens_err, built_pub..].
  eapply ens_post; [|apply (ens_copy_entries c path (whole ts) Hp Hne (copy_sub e c path) [] es); [|by apply Forall_nil|done]].
  - intros _ w [[H [z E]] Hc]. split; [done|]. eexists. split; [exact E|]. by apply Hw.
  - intros x Hx. by apply ens_copy_sub.
Qed.
Lemma ens_Mkdir path : (∀ z, wanted (empty_tree z)) → ents W !! key path = None → key path ≠ dk →
  ensures hidden (Mkdir e path) pub (λ _ w, hidden w ∧ ∃ t, ents w !! key path = Some (DirTree t) ∧ wanted t).
Proof.
  intros Hw Hp Hne. unfold Mkdir. eapply ens_rbind; [apply ens_attempt, hidden_pub|]. intros u. cbn beta. apply ens_now. intros t.
  apply (ens_effect _ _ _ _ (λ w, hidden w ∧ ∃ t, ents w !! key path = Some (DirTree t) ∧ wanted t)).
  { intros w H. split; [by apply hidden_pub|]. split; [by apply pub_set_stage|]. eexists. cbn. rewrite lookup_insert_eq. by split; [|apply Hw]. }
  apply ens_ok. intros w [Hh ?]. split; [by apply hidden_pub|done].
Qed.

(** *** Discarding the stage *)
Definition finished {A} (φ : A → Prop) (a : A) (w : World) : Prop := φ a ∧ pub w ∧ published w.
Lemma ens_discard_on_error {A} P remove (m0 : M (res A)) φ :
  ensures P m0 pub (finished φ) → ensures pub remove pub (λ _, pub) → ensures P (discard_on_error remove m0) pub (finished φ).
Proof.
  intros Hm Hr s Hs. unfold discard_on_error. apply holds_bind. eapply holds_mono; [|by apply Hm]. intros [[a|err]|] s' [HI Ha]; [| |done].
  - apply holds_ret. split; [done|]. intros a' [= <-]. by apply Ha.
  - apply (ens_seq pub pub); [done|by apply ens_err|done].
Qed.
Lemma ens_discard_always {A} P remove (m0 : M (res A)) φ :
  ensures P m0 pub (finished φ) →
  (∀ J : option Node → Prop, ensures (λ w, extends W w ∧ J (ents w !! dk)) remove (λ w, extends W w ∧ J (ents w !! dk)) (λ _ _, True)) →
  ensures P (discard_always remove m0) pub (finished φ).
Proof.
  intros Hm Hr s Hs. unfold discard_always. apply holds_bind. eapply holds_mono; [|by apply Hm]. intros [r|] s' [HI Ha]; [|done].
  apply holds_bind. destruct r as [a|err].
  - destruct (Ha a eq_refl) as (Hφ & [Hx _] & Hpb). eapply holds_mono; [|apply (Hr (λ o, ∃ t, o = Some (DirTree t) ∧ wanted t)); done].
    intros o s2 [[Hx2 Hp2] _]. assert (pub (world s2)) as Hp by (split; [done|]; destruct Hp2 as (t & -> & ?); done).
    destruct o as [o|]; [|done]. apply holds_ret. split; [done|]. by intros a' [= <-].
  - eapply holds_mono; [|apply (Hr shown); by destruct HI]. intros o s2 [[Hx2 Hp2] _]. assert (pub (world s2)) by done.
    destruct o; [|done]. by apply holds_ret.
Qed.
End publish.

(** ** Places *)

Lemma plain_temp prefix suffix : "-"%char ∈ bytes_of prefix → "/"%char ∉ bytes_of prefix → "/"%char ∉ bytes_of suffix →
  plainb (prefix +:+ suffix) = true.
Proof.
  intros Hd Hp Hs. apply bool_decide_eq_true. rewrite bytes_of_app. split_and!; [..|by apply not_elem_of_app].
  all: intros E; apply (f_equal bytes_of) in E; rewrite bytes_of_app in E; assert ("-"%char ∈ bytes_of prefix ++ bytes_of suffix) as Hin by (by apply elem_of_app; left);
    rewrite E in Hin; revert Hin; apply (bool_decide_eq_true_1 _); by vm_compute.
Qed.
Lemma Join_longer p n : clean_abs p → plainb n = true → Join [p; n] ≠ p.
Proof.
  intros Hp Hn E. rewrite Join_text in E by done. apply (f_equal (λ x, length (bytes_of x))) in E. rewrite !bytes_of_app, !length_app in E. cbn in E. lia.
Qed.

Section places.
Context (m : Manager) (Hweb : clean_abs (webRoot m)) (Hhome : is_Some (placements m) → clean_abs (homeRoot m)).
Definition sites_dir : string := Join [webRoot m; "sites"].
Lemma sites_clean : clean_abs sites_dir.
Proof. by apply clean_Join. Qed.
(** Where the stages and the document root of a site are. *)
Record geometry (site : string) (loc : location) : Prop := {
  geo_dir : clean_abs (container loc);
  geo_stage : clean_abs (stageRoot loc);
  geo_doc : docRoot loc = Join [container loc; docName loc];
  geo_name : plainb (docName loc) = true;
  geo_apart : container loc ≠ stageRoot loc;
  geo_below : ∀ n, plainb n = true → Join [stageRoot loc; n] ≠ container loc;
  geo_legacy : placed loc = false → container loc = Join [sites_dir; site] ∧ stageRoot loc = Join [sites_dir; staging] ∧ docName loc = "public" }.
Lemma staging_not_site site : MatchString validSiteName site = true → site ≠ staging.
Proof. intros H ->. by vm_compute in H. Qed.
Lemma geometry_lexical site : MatchString validSiteName site = true →
  (∀ p, placement_of (placements m) site = Some p → Validate p = None) → geometry site (lexical m site).
Proof.
  intros Hv Hval. pose proof (site_name_plain _ Hv) as Hpl. pose proof sites_clean as Hs.
  assert (∀ root u n, clean_abs root → plainb u = true → plainb n = true → Join [Join [root; staging]; n] ≠ Join [root; u]) as Hb.
  { intros root u n Hr Hu Hn E. apply Join_inj in E as [E _]; [|by apply clean_Join|done..]. by apply Join_longer in E. }
  unfold lexical. destruct (placement_of (placements m) site) as [p|] eqn:Ep.
  - assert (clean_abs (homeRoot m)) as Hh by (apply Hhome; destruct (placements m); [by eexists|done]).
    destruct (Validate_plain p (Hval p eq_refl)) as [Hu Hd]. assert (UnixUser p ≠ staging) as Hne.
    { intros E. pose proof (Hval p eq_refl) as V. unfold Validate in V. case_if; [done|]. rewrite E in V.
      by assert (ValidUnixUser staging ≠ None) as HV by (by vm_compute); destruct (ValidUnixUser staging). }
    rewrite bool_decide_false by (by apply clean_nonempty). unfold joined. cbn [foldl].
    split; cbn [container docRoot docName stageRoot placed]; [by apply clean_Join..|done|done| |intros n Hn; by apply Hb|done].
    intros E. by apply Join_inj in E as [_ ?].
  - unfold joined. cbn [foldl]. fold sites_dir. split; cbn [container docRoot docName stageRoot placed]; [by apply clean_Join..|done|done| | |done].
    + intros E. apply Join_inj in E as [_ E]; [|done..]. by apply (staging_not_site site).
    + intros n Hn. by apply Hb.
Qed.

Context (e : Env) (cwd : string) (Hsuf : plain_suffixes e).
Lemma ens_locate I P site : (∀ w, P w → I w) →
  ensures P (locate e cwd m site) I (λ loc w, P w ∧ loc = lexical m site ∧ geometry site loc).
Proof.
  intros H. eapply ens_post; [|apply (ens_read _ _ _ (λ loc _, loc = lexical m site ∧ geometry site loc)); [done|]]; [done|]. intros s.
  eapply reads_mono; [|apply reads_locate]. intros r Hr loc E. destruct (Hr loc E) as (Hv & -> & Hval). split; [done|]. by apply geometry_lexical.
Qed.
End places.

(** ** Publication *)

Section new_site.
Context (e : Env) (cwd : string) (m : Manager) (W : World) (wanted : Tree → Prop).
Context (Hweb : clean_abs (webRoot m)) (Hhome : is_Some (placements m) → clean_abs (homeRoot m)) (Hsuf : plain_suffixes e) (Hroot : rooted W).
Context (site : string) (loc : location) (Hloc : loc = lexical m site) (G : geometry m site loc) (Hfree : ents W !! key (docRoot loc) = None).
Let dk := key (docRoot loc).
Let idle := idle W.
Let hidden := hidden W dk.
Let pub := pub W dk wanted.
Let finished := finished W dk wanted (λ p, p = docRoot loc).

Lemma dk_eq : dk = (container loc, docName loc).
Proof. unfold dk. destruct G as [H1 _ H3 H4]. by rewrite H3, key_Join. Qed.
Lemma hp w : idle w → pub w.
Proof. by apply idle_pub. Qed.

(** A stage in the staging root of the site. *)
Record staged_at (path : string) : Prop := {
  sa_clean : clean_abs path; sa_apart : path ≠ dk.1; sa_new : path ∉ parents W; sa_free : ents W !! key path = None; sa_key : key path ≠ dk }.
Lemma stage_place prefix path : "-"%char ∈ bytes_of prefix → "/"%char ∉ bytes_of prefix → fresh_path W (stageRoot loc) prefix path → staged_at path.
Proof.
  intros Hd Hp [(suffix & Hs & ->) [Hf1 Hf2]]. destruct G as [H1 H2 H3 H4 H5 H6 H7]. pose proof (plain_temp _ _ Hd Hp Hs) as Hn.
  split; [by apply clean_Join|rewrite dk_eq; by apply H6|done|done|]. rewrite dk_eq, key_Join by done. congruence.
Qed.
Lemma create_prefix path : fresh_path W (stageRoot loc) ".create-" path → staged_at path.
Proof. apply stage_place; apply (bool_decide_eq_true_1 _); by vm_compute. Qed.
Lemma clone_prefix path : fresh_path W (stageRoot loc) ".clone-" path → staged_at path.
Proof. apply stage_place; apply (bool_decide_eq_true_1 _); by vm_compute. Qed.
Lemma dest_prefix path : fresh_path W (stageRoot loc) (site +:+ "-") path → MatchString validSiteName site = true → staged_at path.
Proof.
  intros Hf Hv. eapply stage_place; [..|exact Hf]; rewrite bytes_of_app; [apply elem_of_app; right; apply (bool_decide_eq_true_1 _); by vm_compute|].
  apply not_elem_of_app. split; [|apply (bool_decide_eq_true_1 _); by vm_compute]. by apply site_name_plain, bool_decide_eq_true in Hv as (_ & _ & _ & Hv).
Qed.
Lemma sub_key path x : staged_at path → plainb x = true → key (Join [path; x]) = (path, x) ∧ ents W !! (path, x) = None ∧ (path, x) ≠ dk.
Proof.
  intros [H1 H2 H3 H4 H5] Hx. split_and!; [by apply key_Join|by apply unrooted|]. rewrite dk_eq in *. cbn in *. congruence.
Qed.

Definition ready (k : string * string) (w : World) : Prop := hidden w ∧ ∃ t, ents w !! k = Some (DirTree t) ∧ wanted t.
Lemma ready_pub k w : ready k w → pub w.
Proof. intros [? _]. by apply hidden_pub. Qed.
Lemma ens_finish P (m0 : M (res unit)) : ensures P m0 pub (λ _ w, pub w ∧ published dk wanted w) → ensures P (let? _ := m0 in ok (docRoot loc)) pub finished.
Proof. intros H. eapply ens_rbind; [exact H|]. intros u. cbn beta. apply ens_ok. by intros w []. Qed.
Lemma ens_staged {A} prefix path (m0 : M (res A)) Q :
  (fresh_path W (stageRoot loc) prefix path → ensures (λ w, hidden w ∧ ∀ x, ents w !! (path, x) = None) m0 pub Q) → ensures (λ w, idle w ∧ fresh_path W (stageRoot loc) prefix path) m0 pub Q.
Proof.
  intros H. apply (ens_fact _ (fresh_path W (stageRoot loc) prefix path)); [by intros w []|]. intros Hf. eapply ens_pre; [|by apply H].
  intros w [Hi _]. split; [by apply idle_hidden|]. destruct Hi as [_ ->], Hf as (_ & Hf & _). intros x. by apply unrooted.
Qed.

Lemma ens_drop_stage path : staged_at path → ensures pub (RemoveRoot e path) pub (λ _, pub).
Proof.
  intros Hst. intros s [Hx Hd]. eapply holds_mono; [|apply (ens_RemoveRoot W dk Hroot e path (sa_new _ Hst) (sa_apart _ Hst) (shown wanted)); done].
  intros o s' [[? ?] ?]. by split.
Qed.

(** *** Create *)
Lemma ens_createPlaced c : (∀ z, wanted (empty_tree z)) → ensures idle (createPlaced e c loc) pub finished.
Proof.
  intros Hw. unfold createPlaced. eapply ens_rbind; [apply ens_home, hp|]. intros u. cbn beta.
  eapply ens_rbind; [apply ens_wrap, ens_Lstat, hp|]. intros i. cbn beta. apply (ens_pre _ _ idle); [by intros w []|].
  case_match; [apply ens_err, hp|]. eapply ens_rbind; [apply ens_ctx, hp|]. intros u1. cbn beta.
  eapply ens_rbind; [by apply ens_wrap, (ens_MkdirAll W dk wanted)|]. intros u2. cbn beta.
  apply (ens_rbind _ _ _ _ (λ path w, ready (key path) w ∧ staged_at path)).
  { apply ens_wrap. unfold MkdirTemp. eapply ens_rbind; [by apply (ens_temp_path W dk wanted)|]. intros path. cbn beta. apply ens_now. intros t.
    apply ens_staged. intros Hf%create_prefix. apply (ens_effect _ _ _ _ (ready (key path))).
    - intros w [Hh _]. split; [by apply hidden_pub|]. split; [apply pub_set_stage; try apply Hf; done|]. eexists. cbn. by rewrite lookup_insert_eq.
    - apply ens_ok. intros w Hr. split; [by eapply ready_pub|done]. }
  intros path. cbn beta. apply (ens_fact _ (staged_at path)); [by intros w []|]. intros Hst.
  apply (ens_pre _ _ (ready (key path))); [by intros w []|]. apply ens_discard_on_error; [|apply ens_RemoveAll; try apply Hst; done].
  eapply ens_rbind; [apply ens_wrap, ens_attempt, ready_pub|]. intros u3. cbn beta. eapply ens_rbind; [apply ens_ctx, ready_pub|]. intros u4. cbn beta.
  apply ens_finish, ens_wrap, ens_renameDurable; try apply Hst; try done. intros E. apply (sa_key _ Hst). by rewrite E.
Qed.
Lemma ens_Stat P p : (∀ w, P w → pub w) → ensures P (Stat e p) pub (λ _, P).
Proof.
  intros HP. unfold Stat. eapply ens_rbind; [by apply ens_Lstat|]. intros i. cbn beta.
  assert (ensures (λ w, P w ∧ i = info w p) (ok i) pub (λ _, P)) by (apply ens_ok; intros w []; auto).
  destruct i as [[]|]; try done. apply (ens_bind_read _ _ _ _ (λ _ _, True)); [intros s; by eapply reads_mono; [|apply reads_call]|].
  intros b. apply ens_ok. intros w [[]]. auto.
Qed.
Lemma ens_Create c : (∀ z, wanted (empty_tree z)) → ensures idle (Create e cwd c m site) pub finished.
Proof.
  intros Hw. unfold Create. eapply ens_rbind; [apply ens_locate; [done|done|apply hp]|]. intros loc'. cbn beta.
  apply (ens_fact _ (loc' = loc)); [intros w (_ & -> & _); by rewrite Hloc|]. intros ->. apply (ens_pre _ _ idle); [by intros w []|].
  destruct (placed loc) eqn:Epl; [by apply ens_createPlaced|]. destruct (geo_legacy _ _ _ G Epl) as (Gc & Gs & Gn).
  eapply ens_rbind; [apply ens_wrap, ens_Stat, hp|]. intros i. cbn beta. case_match; [apply ens_err, hp|].
  eapply ens_rbind; [apply ens_ctx, hp|]. intros u1. cbn beta. eapply ens_rbind; [apply ens_SafePath, hp|]. intros sr. cbn beta.
  apply (ens_fact _ (sr = sites_dir m)); [by intros w []|]. intros ->. apply (ens_pre _ _ idle); [by intros w []|].
  eapply ens_rbind; [apply ens_SafePath, hp|]. intros sp. cbn beta.
  apply (ens_fact _ (sp = stageRoot loc)); [intros w []; by rewrite Gs|]. intros ->. apply (ens_pre _ _ idle); [by intros w []|].
  eapply ens_rbind; [by apply ens_wrap, (ens_MkdirAll W dk wanted)|]. intros u2. cbn beta.
  eapply ens_rbind; [by apply ens_wrap, (ens_MkdirTempRoot W dk wanted)|]. intros path. cbn beta. apply ens_staged. intros Hst%create_prefix.
  destruct (sub_key path "public" Hst eq_refl) as (Hk & Hk1 & Hk2).
  apply ens_discard_on_error.
  - eapply ens_rbind; [eapply ens_pre; [|apply ens_wrap, (ens_Mkdir W dk wanted); rewrite ?Hk; done]; by intros w []|]. intros u3. cbn beta.
    eapply ens_rbind; [apply ens_ctx, ready_pub|]. intros u4. cbn beta. rewrite Hk.
    apply ens_finish, ens_wrap, ens_renameRootDurable; try apply Hst; try done.
    rewrite dk_eq, Gn, (geo_doc _ _ _ G), Gn. by rewrite Dir_Join by (apply G || done).
  - by apply ens_drop_stage.
Qed.

(** *** Clone *)
Context (src : string) (ts : Tree) (Hsrc : ents W !! key (docRoot (lexical m src)) = Some (DirTree ts)) (Hdis : distinct (content ts) = true).
Context (Hw : copyable (content ts) = true → ∀ z, wanted (mkTree (copied (content ts)) (whole ts) z)).
Lemma ens_copy_stage c path x : staged_at path → plainb x = true →
  ensures (λ w, hidden w ∧ ∀ x, ents w !! (path, x) = None) (copySiteTree e c (docRoot (lexical m src)) (Join [path; x])) pub (λ _, ready (path, x)).
Proof.
  intros Hst Hx. destruct (sub_key path x Hst Hx) as (Hk & Hk1 & Hk2). unfold ready. rewrite <- Hk in *.
  eapply ens_pre; [|by eapply (ens_copySiteTree W dk wanted); [..|exact Hsrc|exact Hdis|exact Hw|exact Hk1|exact Hk2]]. intros w [H1 H2]. split; [done|]. by rewrite Hk.
Qed.
Lemma ens_clonePlaced c : ensures idle (clonePlaced e c (docRoot (lexical m src)) loc) pub finished.
Proof.
  unfold clonePlaced. eapply ens_rbind; [apply ens_wrap, ens_Lstat, hp|]. intros i. cbn beta. apply (ens_pre _ _ idle); [by intros w []|].
  case_match; [apply ens_err, hp|]. eapply ens_rbind; [apply ens_home, hp|]. intros u. cbn beta.
  eapply ens_rbind; [apply ens_wrap, ens_Lstat, hp|]. intros d. cbn beta. apply (ens_pre _ _ idle); [by intros w []|].
  case_match; [apply ens_err, hp|]. eapply ens_rbind; [by apply ens_wrap, (ens_MkdirAll W dk wanted)|]. intros u2. cbn beta.
  eapply ens_rbind; [by apply ens_wrap, (ens_MkdirTempRoot W dk wanted)|]. intros path. cbn beta. apply ens_staged. intros Hst%clone_prefix.
  destruct (sub_key path "tree" Hst eq_refl) as (Hk & Hk1 & Hk2).
  apply ens_discard_always; [|intros J; eapply ens_post; [|apply ens_RemoveRoot; try apply Hst; done]; done].
  cbn zeta. eapply ens_rbind; [by apply ens_wrap, ens_copy_stage|]. intros u3. cbn beta.
  eapply ens_rbind; [apply ens_ctx, ready_pub|]. intros u4. cbn beta.
  rewrite <- Hk. apply ens_finish, ens_wrap, ens_renameDurable; rewrite ?Hk; try done. intros E. apply Hk2. by rewrite <- Hk, E.
Qed.
Lemma ens_Clone c : ensures idle (Clone e cwd c m src site) pub finished.
Proof.
  unfold Clone. case_bool_decide; [apply ens_err, hp|]. eapply ens_rbind; [apply ens_locate; [done|done|apply hp]|]. intros sloc. cbn beta.
  apply (ens_fact _ (sloc = lexical m src)); [by intros w (_ & -> & _)|]. intros ->. apply (ens_pre _ _ idle); [by intros w []|].
  assert (ensures idle (locate e cwd m site) pub (λ l w, idle w ∧ l = loc ∧ MatchString validSiteName site = true)) as Hl.
  { apply (ens_read _ _ _ (λ l w, l = loc ∧ MatchString validSiteName site = true)); [apply hp|]. intros s.
    eapply reads_mono; [|apply reads_locate]. intros r Hr l E. destruct (Hr l E) as (Hv & -> & _). by rewrite Hloc. }
  eapply ens_rbind; [exact Hl|]. intros l. cbn beta. apply (ens_fact _ (l = loc ∧ MatchString validSiteName site = true)); [by intros w []|].
  intros [-> Hv]. apply (ens_pre _ _ idle); [by intros w []|]. destruct (placed loc) eqn:Epl; [by apply ens_clonePlaced|].
  destruct (geo_legacy _ _ _ G Epl) as (Gc & Gs & Gn).
  eapply ens_rbind; [apply ens_wrap, ens_Lstat, hp|]. intros i. cbn beta. apply (ens_pre _ _ idle); [by intros w []|]. case_match; [apply ens_err, hp|].
  eapply ens_rbind; [apply ens_wrap, ens_Lstat, hp|]. intros d. cbn beta. apply (ens_pre _ _ idle); [by intros w []|]. case_match; [apply ens_err, hp|].
  eapply ens_rbind; [apply ens_ctx, hp|]. intros u1. cbn beta. eapply ens_rbind; [apply ens_SafePath, hp|]. intros sr. cbn beta.
  apply (ens_fact _ (sr = sites_dir m)); [by intros w []|]. intros ->. apply (ens_pre _ _ idle); [by intros w []|]. rewrite <- Gs.
  eapply ens_rbind; [by apply ens_wrap, (ens_MkdirAll W dk wanted)|]. intros u2. cbn beta.
  eapply ens_rbind; [by apply ens_wrap, (ens_MkdirTempRoot W dk wanted)|]. intros path. cbn beta. apply ens_staged. intros Hf.
  pose proof (dest_prefix _ Hf Hv) as Hst.
  apply ens_discard_on_error; [|by apply ens_drop_stage].
  eapply ens_rbind; [by apply ens_wrap, ens_copy_stage|]. intros u3. cbn beta.
  eapply ens_rbind; [apply ens_ctx, ready_pub|]. intros u4. cbn beta.
  assert (Join [container loc; "public"] = docRoot loc) as -> by (by rewrite (geo_doc _ _ _ G), Gn).
  apply ens_finish, ens_wrap, ens_renameRootDurable; try apply Hst; try done. by rewrite dk_eq, Gn.
Qed.
End new_site.

(** A host whose layout the manager can use. *)
Record usable (e : Env) (m : Manager) (site : string) (w : World) : Prop := {
  us_name : MatchString validSiteName site = true;
  us_web : clean_abs (webRoot m);
  us_home : is_Some (placements m) → clean_abs (homeRoot m);
  us_suffixes : plain_suffixes e;
  us_rooted : rooted w;
  us_placement : ∀ p, placement_of (placements m) site = Some p → Validate p = None }.

(** Nothing that was on the host is touched, and the document root of the new site is
    absent or a finished tree. *)
Definition appears (w w' : World) (site_root : string) (wanted : Tree → Prop) : Prop :=
  (∀ k n, ents w !! k = Some n → ents w' !! k = Some n) ∧
  (ents w' !! key site_root = None ∨ ∃ t, ents w' !! key site_root = Some (DirTree t) ∧ wanted t).

Lemma pub_appears w w' root wanted : pub w (key root) wanted w' → appears w w' root wanted.
Proof. intros [[H1 _] H2]. split; [done|]. destruct (ents w' !! key root) as [[t| |]|]; [right; by exists t|done|done|by left]. Qed.

(** Creating a site touches nothing that was there; its document root is absent or an
    empty directory, whatever calls fail and wherever the process is killed, and it is
    the empty directory when [Create] returns its path. *)
Theorem create_all_or_nothing e cwd c m site s :
  usable e m site (world s) → ents (world s) !! key (docRoot (lexical m site)) = None →
  let '(o, s') := Create e cwd c m site s in
  let empty t := content t = Folder false [] ∧ whole t = true in
  appears (world s) (world s') (docRoot (lexical m site)) empty ∧
  ∀ p, o = Some (Ok p) → p = docRoot (lexical m site) ∧ ∃ t, ents (world s') !! key p = Some (DirTree t) ∧ empty t.
Proof.
  intros [Hn Hw Hh Hsf Hr Hp] Hfree. pose proof (geometry_lexical m Hw Hh site Hn Hp) as G.
  pose proof (ens_Create e cwd m (world s) (λ t, content t = Folder false [] ∧ whole t = true) Hw Hh Hsf Hr site _ eq_refl G Hfree c (λ _, conj eq_refl eq_refl) s
    (conj (reflexivity _) eq_refl)) as H.
  unfold holds in H. destruct (Create e cwd c m site s) as [o s']. cbn in H. destruct H as [H1 H2]. split; [by apply pub_appears|].
  intros p E. by destruct (H2 p E) as (-> & _ & Hpb).
Qed.

(** C27: Cloning a site touches nothing that was there, the source included. Whatever calls
    fail, whenever the request is cancelled and wherever the process is killed, also between
    two buffers of one file, the document root of the clone is absent or a finished copy of the
    source: every directory and file of it under the same name, every file with the same
    bytes, all of it synced, and the source had no symbolic link or special file in it. It is
    that copy when [Clone] returns its path. The source does not change meanwhile, and the
    entries of each directory have different names. *)
Theorem clone_all_or_nothing e cwd c m src dst s ts :
  usable e m dst (world s) → ents (world s) !! key (docRoot (lexical m src)) = Some (DirTree ts) → distinct (content ts) = true →
  ents (world s) !! key (docRoot (lexical m dst)) = None →
  let '(o, s') := Clone e cwd c m src dst s in
  let copy t := content t = copied (content ts) ∧ copyable (content ts) = true ∧ whole t = whole ts in
  appears (world s) (world s') (docRoot (lexical m dst)) copy ∧
  ∀ p, o = Some (Ok p) → p = docRoot (lexical m dst) ∧ ∃ t, ents (world s') !! key p = Some (DirTree t) ∧ copy t.
Proof.
  intros [Hn Hw Hh Hsf Hr Hp] Hsrc Hdis Hfree. pose proof (geometry_lexical m Hw Hh dst Hn Hp) as G.
  pose proof (ens_Clone e cwd m (world s) (λ t, content t = copied (content ts) ∧ copyable (content ts) = true ∧ whole t = whole ts) Hw Hh Hsf Hr dst _ eq_refl G Hfree
    src ts Hsrc Hdis (λ Hc _, conj eq_refl (conj Hc eq_refl)) c s (conj (reflexivity _) eq_refl)) as H.
  unfold holds in H. destruct (Clone e cwd c m src dst s) as [o s']. cbn in H. destruct H as [H1 H2]. split; [by apply pub_appears|].
  intros p E. by destruct (H2 p E) as (-> & _ & Hpb).
Qed.

(** ** Leases *)

Section leases.
Context (e : Env) (cwd : string).
Let any (w : World) : Prop := True.
Lemma ens_any {A} P (m : M (res A)) : ensures P m any (λ _, any).
Proof. intros s _. unfold holds. by split. Qed.
Lemma named_set p n w : well_named w → plainb (Base p) = true → well_named (set_ent p n w).
Proof.
  intros [H1 H2] Hp. split; [|done]. intros d x. cbn. rewrite lookup_insert. case_decide as E; [|apply H1]. intros _. injection E as _ <-. done.
Qed.
Lemma named_MkdirAll d : clean_abs d → ensures well_named (MkdirAll e d) any (λ _, well_named).
Proof.
  intros Hd. unfold MkdirAll. eapply ens_rbind; [by apply ens_attempt|]. intros u. cbn beta. apply ens_look. intros w0.
  case_decide; [apply ens_ok; by intros w []|]. apply (ens_effect _ _ _ _ well_named); [|by apply ens_ok]. intros w [[H1 H2] _]. split; [done|]. split; [done|].
  cbn. intros p. rewrite elem_of_union, elem_of_singleton. intros [->|Hp]; auto.
Qed.
Lemma named_coordinate root : clean_abs root → ensures well_named (acquireManagerStageCoordination e root stageCoordinationLock) any (λ _, well_named).
Proof.
  intros Hr. unfold acquireManagerStageCoordination. eapply ens_rbind; [by apply ens_attempt|]. intros u. cbn beta. apply ens_look. intros w0.
  case_match; [by apply ens_err|]. apply (ens_rbind _ _ _ _ (λ _, well_named)); [|intros _; by apply ens_attempt].
  destruct (ents w0 !! _) as [[]|]; [by apply ens_err|apply ens_ok; by intros w []..|].
  apply (ens_effect _ _ _ _ well_named); [|by apply ens_ok]. intros w [Hw _]. split; [done|]. apply named_set; [done|]. by rewrite Base_Join.
Qed.
(** What a lease gives: the stage, with its lease file locked. *)
Definition leased (dir name : string) (w : World) : Prop :=
  well_named w ∧ (∃ t, ents w !! (dir, name) = Some (DirTree t)) ∧ ents w !! (dir, stageOwnerLockPrefix +:+ name) = Some (File true).
Lemma lease_name name : plainb name = true → plainb (stageOwnerLockPrefix +:+ name) = true.
Proof.
  intros (_ & _ & _ & Hs)%bool_decide_eq_true. apply bool_decide_eq_true. split_and!; [done..|]. rewrite bytes_of_app, not_elem_of_app.
  split; [apply (bool_decide_eq_true_1 _); by vm_compute|done].
Qed.
Lemma ens_take_lease dir name : clean_abs dir → plainb name = true →
  ensures (λ w, well_named w ∧ ∃ t, ents w !! (dir, name) = Some (DirTree t)) (take_lease e (Join [dir; name])) any (λ _, leased dir name).
Proof.
  intros Hd Hn. pose proof (lease_name name Hn) as Hl. pose proof (lock_key dir name Hd Hn) as Hk.
  assert (Base (stageOwnerLockPath (Join [dir; name])) = stageOwnerLockPrefix +:+ name) as Hb by (unfold key in Hk; congruence).
  assert ((dir, name) ≠ (dir, stageOwnerLockPrefix +:+ name)) as Hne.
  { intros [= E]. apply (f_equal (λ x, length (bytes_of x))) in E. rewrite bytes_of_app, length_app in E. cbn in E. lia. }
  unfold take_lease. eapply ens_rbind; [by apply ens_attempt|]. intros u. cbn beta. apply ens_look. intros w0. case_match; [by apply ens_err|].
  assert (∀ b w, well_named w ∧ (∃ t, ents w !! (dir, name) = Some (DirTree t)) →
    let w' := set_ent (stageOwnerLockPath (Join [dir; name])) (File b) w in well_named w' ∧ (∃ t, ents w' !! (dir, name) = Some (DirTree t))) as Hset.
  { intros b w [H1 [t H2]]. split; [by apply named_set; [|rewrite Hb]|]. exists t. cbn. by rewrite Hk, lookup_insert_ne. }
  apply (ens_effect _ _ _ _ (λ w, well_named w ∧ ∃ t, ents w !! (dir, name) = Some (DirTree t))); [intros w [Hw _]; split; [done|]; exact (Hset false w Hw)|].
  eapply ens_rbind; [by apply ens_attempt|]. intros u1. cbn beta.
  apply (ens_effect _ _ _ _ (leased dir name)); [|by apply ens_ok]. intros w Hw. split; [done|]. destruct (Hset true w Hw) as [H1 H2].
  split_and!; [done|done|]. cbn. by rewrite Hk, lookup_insert_eq.
Qed.
Context (Hsuf : plain_suffixes e).
Lemma named_MkdirTemp dir prefix : clean_abs dir → "-"%char ∈ bytes_of prefix → "/"%char ∉ bytes_of prefix →
  ensures well_named (MkdirTemp e dir prefix) any (λ path w, (well_named w ∧ ∃ t, ents w !! key path = Some (DirTree t)) ∧
    ∃ x, plainb (prefix +:+ x) = true ∧ path = Join [dir; prefix +:+ x]).
Proof.
  intros Hd Hp1 Hp2. unfold MkdirTemp. eapply (ens_rbind _ _ _ _ (λ path w, well_named w ∧ ∃ x, plainb (prefix +:+ x) = true ∧ path = Join [dir; prefix +:+ x])).
  - unfold temp_path. eapply ens_rbind; [by apply ens_attempt|]. intros u. cbn beta.
    apply (ens_bind_read _ _ _ _ (λ x _, "/"%char ∉ bytes_of x)).
    { intros s. exists (default "" (rand e (calls s))), (S (calls s)). split; [done|apply Hsuf]. }
    intros x. apply ens_look. intros w0. case_match; [by apply ens_err|]. apply ens_ok. intros w [[Hww Hx] _]. split; [done|]. split; [done|].
    exists x. split; [by apply plain_temp|done].
  - intros path. cbn beta. apply ens_now. intros t.
    apply (ens_fact _ (∃ x, plainb (prefix +:+ x) = true ∧ path = Join [dir; prefix +:+ x])); [by intros w []|]. intros (x & Hx & ->).
    apply (ens_effect _ _ _ _ (λ w, well_named w ∧ ∃ t, ents w !! (dir, prefix +:+ x) = Some (DirTree t))); [|apply ens_ok; intros w Hw; split; [done|]; rewrite key_Join by done; eauto].
    intros w [Hw _]. split; [done|]. split; [apply named_set; [done|by rewrite Base_Join]|]. eexists. cbn. by rewrite key_Join, lookup_insert_eq.
Qed.
(** A release stage that is handed out is leased. *)
Lemma release_stage_leased c m site prefix : clean_abs (webRoot m) → (is_Some (placements m) → clean_abs (homeRoot m)) →
  ensures well_named (CreateReleaseStagingLease e cwd c m site prefix) any (λ stage w, ∃ dir name, stage = Join [dir; name] ∧ key stage = (dir, name) ∧ leased dir name w).
Proof.
  intros Hw Hh. unfold CreateReleaseStagingLease. eapply ens_rbind; [by apply ens_ctx|]. intros u. cbn beta. case_match; [by apply ens_err|].
  destruct (MatchString validSiteName site) eqn:Hv; cbn [negb]; [|by apply ens_err].
  eapply ens_rbind; [by apply ens_locate|]. intros loc. cbn beta. apply (ens_fact _ (geometry m site loc)); [by intros w (_ & _ & ?)|]. intros G.
  apply (ens_pre _ _ well_named); [by intros w []|].
  assert (ensures well_named (Stat e (container loc)) any (λ _, well_named)) as Hst.
  { unfold Stat. eapply ens_rbind; [by apply ens_Lstat|]. intros i. cbn beta. apply (ens_pre _ _ well_named); [by intros w []|].
    destruct i as [[]|]; try by apply ens_ok. apply (ens_bind_read _ _ _ _ (λ _ _, True)); [intros s; by eapply reads_mono; [|apply reads_call]|].
    intros b. apply ens_ok. by intros w []. }
  eapply ens_rbind; [by apply ens_wrap|]. intros [[]|]; cbn beta; try by apply ens_err.
  eapply ens_rbind; [apply ens_wrap, named_MkdirAll, G|]. intros u1. cbn beta. eapply ens_rbind; [by apply ens_wrap, ens_attempt|]. intros u2. cbn beta.
  eapply ens_rbind; [apply ens_wrap, named_coordinate, G|]. intros u3. cbn beta.
  assert ("-"%char ∈ bytes_of (release_ +:+ site +:+ "-") ∧ "/"%char ∉ bytes_of (release_ +:+ site +:+ "-")) as [Hp1 Hp2].
  { rewrite !bytes_of_app, !elem_of_app. split; [right; right; apply (bool_decide_eq_true_1 _); by vm_compute|].
    apply site_name_plain, bool_decide_eq_true in Hv as (_ & _ & _ & Hv). intros [Hin|[Hin|Hin]]; [|done|]; revert Hin; apply (bool_decide_eq_true_1 _); by vm_compute. }
  eapply ens_rbind; [apply ens_wrap, named_MkdirTemp; [apply G|done..]|]. intros stage. cbn beta.
  apply (ens_fact _ (∃ x, plainb ((release_ +:+ site +:+ "-") +:+ x) = true ∧ stage = Join [stageRoot loc; (release_ +:+ site +:+ "-") +:+ x])); [by intros w []|].
  intros (x & Hx & ->). rewrite key_Join by (apply G || done). intros s [Hs _]. apply holds_bind.
  eapply holds_mono; [|apply (ens_take_lease _ _ (geo_stage _ _ _ G) Hx s Hs)]. intros [[a|err]|] s' [_ Ha]; [| |done].
  2:{ eapply (holds_mono _ _ (λ o _, ∀ a, o ≠ Some (Ok a))); [intros o s2 Ho; split; [done|]; intros a E; by destruct (Ho a)|].
      apply holds_bind. eapply holds_mono; [|apply (ens_any any); done]. intros [r|] s1 _; [|done]. apply holds_bind.
      eapply holds_mono; [|apply (ens_any any); done]. intros [r1|] s2 _; [|done]. by apply holds_ret. }
  apply holds_ret. split; [done|]. intros ? [= <-]. do 2 eexists. split; [done|]. split; [by rewrite key_Join by (apply G || done)|by apply (Ha a)].
Qed.
End leases.

(** A release stage that the manager has handed out survives every cleanup of abandoned
    stages while its lease is held, however old it is, whatever calls of the cleanup fail
    and wherever it is killed. *)
Theorem leased_stage_survives e cwd c m site prefix s stage s' e' c' olderThan :
  clean_abs (webRoot m) → homeRoot m = "" ∨ clean_abs (homeRoot m) → (is_Some (placements m) → clean_abs (homeRoot m)) →
  plain_suffixes e → well_named (world s) →
  CreateReleaseStagingLease e cwd c m site prefix s = (Some (Ok stage), s') →
  ∃ t, ents (world s') !! key stage = Some (DirTree t) ∧
       ents (world (CleanupOrphanedStaging e' cwd c' m olderThan s').2) !! key stage = Some (DirTree t).
Proof.
  intros Hw Hh Hp Hs Hn E. destruct (release_stage_leased e cwd Hs c m site prefix Hw Hp s Hn) as [_ H]. rewrite E in H. cbn in H.
  destruct (H stage eq_refl) as (dir & name & -> & -> & Hn' & [t Ht] & Hl). exists t. split; [done|].
  destruct (keeps_CleanupOrphanedStaging e' cwd m olderThan dir name t Hw Hh c' s') as [H1 _ _]; [|exact H1].
  split; [done| |done]. right. unfold lease_key. by rewrite Hl.
Qed.

(** ** Examples *)

Module Demo.
Definition mgr : Manager := mkManager "/srv" "" None.
Definition old_site : Item := Folder false [("css", Folder true [("site.css", Regular "body{}" true)]); ("index.html", Regular "old" true)].
Definition old : Tree := mkTree old_site true 5.
Definition w0 : World := mkWorld {[ ("/srv/sites/blog", "public") := DirTree old ]} {[ "/srv/sites"; "/srv/sites/blog" ]} ∅.
Definition env : Env := calm 200 "17".
Definition s0 : St := mkSt w0 0 None.

Lemma srv_root : clean_abs "/srv".
Proof. exists [bytes_of "srv"]. split_and!; [done| |done]. constructor; [|constructor]. by apply plainb_plain. Qed.
Lemma mgr_home : is_Some (placements mgr) → clean_abs (homeRoot mgr).
Proof. by intros []. Qed.
Lemma env_suffixes : plain_suffixes env.
Proof. intros n. change (default "" (rand env n)) with "17". apply (bool_decide_eq_true_1 _). by vm_compute. Qed.
Lemma w0_rooted : rooted w0.
Proof. intros k [n H]. cbn [ents w0] in H. apply lookup_singleton_Some in H as [<- _]. apply (bool_decide_eq_true_1 _). by vm_compute. Qed.
Lemma w0_usable : usable env mgr "shop" w0.
Proof. split; [by vm_compute|exact srv_root|by intros []|exact env_suffixes|exact w0_rooted|done]. Qed.
Lemma w0_names : well_named w0.
Proof.
  split.
  - intros d x [n H]. cbn [ents w0] in H. apply lookup_singleton_Some in H as [[= <- <-] _]. by vm_compute.
  - intros p Hp. cbn [parents w0] in Hp. apply elem_of_union in Hp as [->%elem_of_singleton| ->%elem_of_singleton].
    + apply (clean_Join "/srv" "sites"); [exact srv_root|by vm_compute].
    + apply (clean_joined "/srv" ["sites"; "blog"]); [exact srv_root|by vm_compute].
Qed.

Lemma create_all_or_nothing_witness : ∃ s', Create env "/" Background mgr "shop" s0 = (Some (Ok "/srv/sites/shop/public"), s') ∧
  ∃ t, ents (world s') !! key "/srv/sites/shop/public" = Some (DirTree t) ∧ content t = Folder false [] ∧ whole t = true.
Proof.
  assert (ents (world s0) !! key (docRoot (lexical mgr "shop")) = None) as Hf by (vm_compute; reflexivity).
  pose proof (create_all_or_nothing env "/" Background mgr "shop" s0 w0_usable Hf) as H.
  assert ((Create env "/" Background mgr "shop" s0).1 = Some (Ok "/srv/sites/shop/public")) as E by (vm_compute; reflexivity).
  destruct (Create env "/" Background mgr "shop" s0) as [o s']. cbn in E. subst o. exists s'. split; [reflexivity|].
  destruct H as [_ H]. destruct (H _ eq_refl) as [_ Ht]. exact Ht.
Defined.
Lemma clone_all_or_nothing_witness : ∃ s', Clone env "/" Background mgr "blog" "shop" s0 = (Some (Ok "/srv/sites/shop/public"), s') ∧
  ∃ t, ents (world s') !! key "/srv/sites/shop/public" = Some (DirTree t) ∧ content t = copied old_site ∧ copyable old_site = true ∧ whole t = true.
Proof.
  assert (ents (world s0) !! key (docRoot (lexical mgr "shop")) = None) as Hf by (vm_compute; reflexivity).
  assert (ents (world s0) !! key (docRoot (lexical mgr "blog")) = Some (DirTree old)) as Hs by (vm_compute; reflexivity).
  pose proof (clone_all_or_nothing env "/" Background mgr "blog" "shop" s0 old w0_usable Hs eq_refl Hf) as H.
  assert ((Clone env "/" Background mgr "blog" "shop" s0).1 = Some (Ok "/srv/sites/shop/public")) as E by (vm_compute; reflexivity).
  destruct (Clone env "/" Background mgr "blog" "shop" s0) as [o s']. cbn in E. subst o. exists s'. split; [reflexivity|].
  destruct H as [_ H]. destruct (H _ eq_refl) as [_ Ht]. exact Ht.
Defined.
(** A clone that is killed in the middle leaves a part of the site in its stage, and a source
    with a link in it is refused and leaves nothing. *)
Example killed_clone : let w := world (Clone env "/" Background mgr "blog" "shop" (mkSt w0 0 (Some 5%nat))).2 in
  ents w !! key "/srv/sites/shop/public" = None ∧
  item_of "/srv/sites/.stepanel-manager-staging/shop-17/public" [] w = Some (Folder false [("css", Folder false [("site.css", Regular "" false)])]).
Proof. vm_compute. split; reflexivity. Qed.
Example linked_source_refused :
  let linked := mkTree (Folder true [("index.html", Regular "old" true); ("out", LinkItem)]) true 5 in
  let r := Clone env "/" Background mgr "blog" "shop" (mkSt (set_ent "/srv/sites/blog/public" (DirTree linked) w0) 0 None) in
  r.1 = Some (Err (EWrap "stage clone" (EMsg "refuse to clone symlink"))) ∧ ents (world r.2) = ents (set_ent "/srv/sites/blog/public" (DirTree linked) w0).
Proof. cbn zeta. split; apply (bool_decide_unpack _); vm_compute; exact I. Qed.
Lemma leased_stage_survives_witness : ∃ stage s' t,
  CreateReleaseStagingLease env "/" Background mgr "blog" ".stepanel-release-" s0 = (Some (Ok stage), s') ∧
  ents (world s') !! key stage = Some (DirTree t) ∧
  ents (world (CleanupOrphanedStaging env "/" Background mgr 0 s').2) !! key stage = Some (DirTree t).
Proof.
  assert ((CreateReleaseStagingLease env "/" Background mgr "blog" ".stepanel-release-" s0).1 =
    Some (Ok "/srv/sites/.stepanel-manager-staging/.stepanel-release-blog-17")) as E by (vm_compute; reflexivity).
  destruct (CreateReleaseStagingLease env "/" Background mgr "blog" ".stepanel-release-" s0) as [o s'] eqn:Er. cbn in E. subst o.
  destruct (leased_stage_survives env "/" Background mgr "blog" ".stepanel-release-" s0 _ s' env Background 0 srv_root (or_introl eq_refl)
    mgr_home env_suffixes w0_names Er) as (t & H1 & H2).
  exists "/srv/sites/.stepanel-manager-staging/.stepanel-release-blog-17", s', t. auto.
Defined.
End Demo.
End SiteCreateProps.
