(* ===== verification/Releases.v ===== *)
(** * Releases: activation of a release, its journal and its recovery

    Models [src/release_activation_journal.go], [activatePipelineRelease] of
    [src/release_pipeline.go], and the retention of replaced releases of
    [src/git_deploy.go], over the host and the site manager of [Sites]. *)
From S2P Require Import Prelude GoPath GoText Regex Names SiteLayout Sites.

Module Releases.
Import GoPath GoText Regex Names SiteLayout Sites.
#[local] Open Scope host_scope.

(** ** The journal *)

Definition releaseActivationJournalVersion : Z := 1.
Definition put_journal (n : string) (j : releaseActivationJournal) (w : World) : World :=
  mkWorld (ents w) (parents w) (<[n := Some j]> (journals w)).
Definition del_journal (n : string) (w : World) : World := mkWorld (ents w) (parents w) (delete n (journals w)).
Definition with_state (state previous : string) (j : releaseActivationJournal) : releaseActivationJournal :=
  mkJournal (Version j) (ID j) (JSite j) (StagedRoot j) previous state.

Section journal.
Context (e : Env) (cwd : string).

(** [newRequestID]: a random text, or the time when there is none (rendered here in
    nanoseconds). *)
Definition newRequestID : M string := λ s,
  (Some (match rand e (calls s) with Some id => id | None => Itoa (clock e (calls s)) end), mkSt (world s) (S (calls s)) (left s)).
Definition journal_file (id : string) : string := "release-activation-" +:+ id +:+ ".json".

(** The name of the file and the record. *)
Definition newReleaseActivationJournal (recoveryRoot site stagedRoot : string) : M (res (string * releaseActivationJournal)) :=
  if bool_decide (TrimSpace recoveryRoot = "") || bool_decide (safeUser site = "") || bool_decide (TrimSpace stagedRoot = "")
  then throw "release activation journal requires recovery root, site, and staging path" else
  let? _ := wrap "prepare release activation journal root" (attempt e) in
  id ← newRequestID;
  let? _ := attempt e in
  ok (journal_file id, mkJournal releaseActivationJournalVersion id site stagedRoot "" "prepared").

(** [persist]: an atomic replacement of the file; the last sync may fail after it. *)
Definition persist (n : string) (j : releaseActivationJournal) : M (res unit) :=
  let? _ := attempt e in effect (put_journal n j);; attempt e.
Definition markActivated (n : string) (j : releaseActivationJournal) (previous : string) : M (res unit) :=
  persist n (with_state "activated" previous j).
Definition markCommitted (n : string) (j : releaseActivationJournal) : M (res unit) :=
  persist n (with_state "committed" (Previous j) j).
(** [cleanup], by [state.RemoveDurable]. *)
Definition cleanup (n : string) : M (res unit) :=
  wrap "remove release activation journal" (let? _ := attempt e in effect (del_journal n);; attempt e).

(** ** Activation *)

Definition recovery_root (cfg : Config) : string :=
  if bool_decide (RecoveryRoot cfg = "") then Join [WebRoot cfg; "sites"; ".stepanel-recovery"] else RecoveryRoot cfg.

(** Ends with an error after removing the journal, whose failure is ignored. *)
Definition abandon {A} (n : string) (err : error) : M (res A) := cleanup n;; ret (Err err).

Definition activatePipelineRelease (c : Ctx) (cfg : Config) (m : Manager) (site release : string) : M (res string) :=
  let? _ := ctx_err e c in
  let? (n, journal) := newReleaseActivationJournal (recovery_root cfg) site release in
  let? _ := wrap "persist release activation journal" (persist n journal) in
  inj ← attempt e;
  match inj with
  | Err err => abandon n err
  | Ok _ =>
      r ← ActivateStagedReplacing e cwd c m site release;
      match r with
      | Err err => abandon n err
      | Ok previous =>
          a ← markActivated n journal previous;
          match a with
          | Err err =>
              rb ← RollbackStagedActivation e cwd c m site previous;
              match rb with
              | Err _ => ret (Err (EWrap "persist release activation state; rollback failed" err))
              | Ok _ => abandon n (EWrap "persist release activation state" err)
              end
          | Ok _ =>
              sealed ← attempt e;
              match sealed with
              | Err err =>
                  rb ← RollbackStagedActivation e cwd c m site previous;
                  match rb with
                  | Err _ => ret (Err (EWrap "seal site after release activation; rollback failed" err))
                  | Ok _ => abandon n err
                  end
              | Ok _ =>
                  let? _ := wrap "commit release activation journal" (markCommitted n (with_state "activated" previous journal)) in
                  let? _ := cleanup n in
                  ok previous
              end
          end
      end
  end.

(** ** Recovery *)

(** Whether the journaled stage exists; it must be one of the site. *)
Definition releaseStageExists (cfg : Config) (site stagedRoot : string) : M (res bool) :=
  let? l := siteLocationFor e cwd cfg site in
  let abs := Abs cwd stagedRoot in
  mr ← (if Placed l then ok (SiteLayout.StagingRoot (HomeRoot cfg)) else SafePath e cwd (WebRoot cfg) ["sites"; staging]);
  let base := Base abs in
  let legacySiteStage := negb (Placed l) && bool_decide (Dir abs = LHome l) && has_prefix base release_ in
  let managerStage := match mr with Ok root => bool_decide (Dir abs = root) && IsReleaseStagingName site base | Err _ => false end in
  if negb legacySiteStage && negb managerStage then throw "invalid release staging path" else
  let? i := Lstat e abs in
  ok (bool_decide (i ≠ None)).

(** The loop of [findPreviousRelease]: the greatest name with the prefix, [""] at first. *)
Fixpoint pick_previous (home prefix : string) (entries : list string) (previous : string) : M (res string) :=
  match entries with
  | [] => ok previous
  | name :: rest =>
      w ← look;
      if negb (bool_decide (info w (Join [home; name]) = Some IsDir)) || negb (has_prefix name prefix)
      then pick_previous home prefix rest previous else
      let? candidate := SafePath e cwd home [name] in
      pick_previous home prefix rest
        (if bool_decide (previous = "") || bool_decide (¬ String.le name (Base previous)) then candidate else previous)
  end.
Definition findPreviousRelease (cfg : Config) (site : string) : M (res string) :=
  if bool_decide (safeUser site = "") then throw "invalid site name" else
  let? l := siteLocationFor e cwd cfg site in
  let? listing := ReadDir e (LHome l) in
  pick_previous (LHome l) (PreviousPrefix l) (default [] listing) "".

(** The body of the loop for one journal that decodes and is to be recovered. *)
Definition recover_prepared (cfg : Config) (m : Manager) (j : releaseActivationJournal) : M (res unit) :=
  let? public := wrap "resolve prepared release activation" (siteDocRoot e cwd cfg (JSite j)) in
  let? stageExists := wrap "inspect prepared release activation" (releaseStageExists cfg (JSite j) (StagedRoot j)) in
  publicErr ← Lstat e public;
  let? previous := wrap "inspect prepared release activation" (findPreviousRelease cfg (JSite j)) in
  let public_ok := match publicErr with Ok (Some _) => true | _ => false end in
  let public_gone := match publicErr with Ok None => true | _ => false end in
  if stageExists && public_ok then
    wrap "discard prepared release activation" (DiscardReleaseStaging e cwd Background m (JSite j) (StagedRoot j))
  else if stageExists && public_gone && negb (bool_decide (previous = "")) then
    let? _ := wrap "restore previous release after interrupted activation" (RollbackStagedActivation e cwd Background m (JSite j) previous) in
    wrap "discard interrupted release stage" (DiscardReleaseStaging e cwd Background m (JSite j) (StagedRoot j))
  else if negb stageExists && negb (bool_decide (previous = "")) then
    wrap "rollback prepared release activation" (RollbackStagedActivation e cwd Background m (JSite j) previous)
  else throw "prepared release activation is in an ambiguous filesystem state".
Definition recover_journal (cfg : Config) (m : Manager) (n : string) (j : releaseActivationJournal) : M (res unit) :=
  if negb (Version j =? releaseActivationJournalVersion) || bool_decide (ID j = "") || bool_decide (safeUser (JSite j) = "")
     || bool_decide (StagedRoot j = "") then throw "release activation journal is invalid" else
  let? _ :=
    if bool_decide (State j = "prepared") then recover_prepared cfg m j
    else if bool_decide (State j = "activated") then
      wrap "rollback release activation" (RollbackStagedActivation e cwd Background m (JSite j) (Previous j))
    else if bool_decide (State j = "committed") then ok tt
    else throw "release activation journal has unknown state" in
  cleanup n.

Definition journal_name (n : string) : bool := has_prefix n "release-activation-" && has_suffix n ".json".
Fixpoint recover_all (cfg : Config) (m : Manager) (site : string) (names : list string) (recovered : list string)
    : M (list string * option error) :=
  match names with
  | [] => ret (recovered, None)
  | n :: rest =>
      if negb (journal_name n) then recover_all cfg m site rest recovered else
      r ← attempt e;
      w ← look;
      match r, journals w !! n with
      | Err err, _ => ret (recovered, Some (EWrap "read release activation journal" err))
      | Ok _, None => ret (recovered, Some (EWrap "read release activation journal" ErrNotExist))
      | Ok _, Some None =>
          if negb (bool_decide (site = "")) then recover_all cfg m site rest recovered
          else ret (recovered, Some (EMsg "decode release activation journal"))
      | Ok _, Some (Some j) =>
          if negb (bool_decide (site = "")) && negb (bool_decide (JSite j = site)) then recover_all cfg m site rest recovered else
          x ← recover_journal cfg m n j;
          match x with
          | Err err => ret (recovered, Some err)
          | Ok _ => recover_all cfg m site rest (recovered ++ [ID j])
          end
      end
  end.

(** [os.ReadDir] of the recovery directory lists its files in order; a missing directory
    holds none, and an empty path names none. *)
Definition journal_names (w : World) : list string := merge_sort String.le (elements (dom (journals w) : gset string)).
Definition recoverReleaseActivationJournalsFor (cfg : Config) (site : string) : M (list string * option error) :=
  if bool_decide (RecoveryRoot cfg = "") then ret ([], None) else
  r ← attempt e;
  match r with
  | Err err => ret ([], Some (EWrap "read release activation journals" err))
  | Ok _ =>
      w ← look;
      match newSiteManagerForConfig cwd cfg with
      | Err err => ret ([], Some err)
      | Ok m => recover_all cfg m site (journal_names w) []
      end
  end.
Definition recoverReleaseActivationJournals (cfg : Config) : M (list string * option error) :=
  recoverReleaseActivationJournalsFor cfg "".

(** ** Retention of replaced releases *)

(** A candidate for pruning: its path and the time of change of its directory. *)
Record candidate := mkCandidate { path : string; changed : Z }.
Fixpoint prune_items (siteRoot prefix : string) (entries : list string) (items : list candidate) : M (res (list candidate)) :=
  match entries with
  | [] => ok items
  | name :: rest =>
      w ← look;
      match ents w !! key (Join [siteRoot; name]) with
      | Some (DirTree t) =>
          if negb (has_prefix name prefix) then prune_items siteRoot prefix rest items else
          let? _ := attempt e in
          let? p := SafePath e cwd siteRoot [name] in
          prune_items siteRoot prefix rest (items ++ [mkCandidate p (modified t)])
      | _ => prune_items siteRoot prefix rest items
      end
  end.

(** The sort: newest first. [sort.Slice] may leave equal times in another order. *)
Definition newer (a b : candidate) : Prop := changed b ≤ changed a.
#[export] Instance newer_dec : RelDecision newer.
Proof. intros a b. unfold newer. apply _. Defined.

(** How many of the newest the count and age rules keep: at least one. *)
Fixpoint keep_count (fuel : nat) (items : list candidate) (retain maxAge t : Z) (keep : nat) : nat :=
  match fuel with
  | O => keep
  | S fuel =>
      match items !! keep with
      | Some c => if (Z.of_nat keep <? retain) && ((maxAge <=? 0) || (t - changed c <=? maxAge))
                  then keep_count fuel items retain maxAge t (S keep) else keep
      | None => keep
      end
  end.

(** The sizes of the kept trees; the size of a tree is a call that may fail. *)
Context (gitReleaseSize : Tree → Z).
Definition maxInt : Z := 2 ^ 63 - 1.
Fixpoint sizes_of (kept : list candidate) (sizes : list Z) (total : Z) : M (res (list Z * Z)) :=
  match kept with
  | [] => ok (sizes, total)
  | c :: rest =>
      let? _ := attempt e in
      w ← look;
      let size := match ents w !! key (path c) with Some (DirTree t) => gitReleaseSize t | _ => 0 end in
      if maxInt - size <? total then throw "Git release size overflow" else
      sizes_of rest (sizes ++ [size]) (total + size)
  end.
(** Trims the oldest of the kept while the total exceeds the limit. *)
Fixpoint trim (keep : nat) (sizes : list Z) (total maxBytes : Z) : nat :=
  match keep with
  | S ((S _) as keep') => if maxBytes <? total then trim keep' sizes (total - default 0 (sizes !! keep')) maxBytes else keep
  | _ => keep
  end.

(** Removing: a release that does not validate stops it. *)
Fixpoint prune_remove (items : list candidate) : M (res unit) :=
  match items with
  | [] => ok tt
  | c :: rest =>
      let? _ := wrap "refuse to prune invalid release" (attempt e) in
      let? _ := RemoveAll e (path c) in
      prune_remove rest
  end.

Definition pruneReleasesWithPrefix (siteRoot prefix : string) (retain maxAge maxBytes : Z) : M (res unit) :=
  if retain <? 1 then throw "release retention must preserve at least one rollback release" else
  let? listing := ReadDir e siteRoot in
  match listing with
  | None => ret (Err ErrNotExist)
  | Some entries =>
      let? items := prune_items siteRoot prefix entries [] in
      let items := merge_sort newer items in
      if bool_decide (items = []) then ok tt else
      t ← now e;
      let keep := keep_count (length items) items retain maxAge t 1 in
      let? keep :=
        if maxBytes <=? 0 then ok keep else
        let? (sizes, total) := sizes_of (take keep items) [] 0 in ok (trim keep sizes total maxBytes) in
      prune_remove (drop keep items)
  end.
Definition pruneSiteReleases (cfg : Config) (site : string) : M (res unit) :=
  let? l := siteLocationFor e cwd cfg site in
  pruneReleasesWithPrefix (LHome l) (PreviousPrefix l) (GitReleaseRetention cfg) (GitReleaseMaxAgeHours cfg * 3600000000000) (GitReleaseMaxBytes cfg).

(** [latestPreviousRelease], the target of a rollback: the latest time of change, then the
    greatest name. *)
Fixpoint latest (siteRoot prefix : string) (entries : list string) (best : option candidate) : M (option candidate) :=
  match entries with
  | [] => ret best
  | name :: rest =>
      b ← call e;
      w ← look;
      match ents w !! key (Join [siteRoot; name]) with
      | Some (DirTree t) =>
          if negb (has_prefix name prefix) || b then latest siteRoot prefix rest best else
          let better := match best with
                        | None => true
                        | Some l => (changed l <? modified t) || ((modified t =? changed l) && bool_decide (¬ String.le name (Base (path l))))
                        end in
          latest siteRoot prefix rest (if better then Some (mkCandidate (Join [siteRoot; name]) (modified t)) else best)
      | _ => latest siteRoot prefix rest best
      end
  end.
Definition latestPreviousRelease (siteRoot prefix : string) : M (res string) :=
  let? listing := ReadDir e siteRoot in
  match listing with
  | None => ret (Err ErrNotExist)
  | Some entries =>
      l ← latest siteRoot prefix entries None;
      match l with None => throw "no previous release" | Some c => ok (path c) end
  end.
End journal.
End Releases.
