(* ===== verification/ReleasesProps.v ===== *)
(** * ReleasesProps: no release is lost, and a crash is undone or completed *)
From S2P Require Import Prelude GoPath GoText Regex Names SiteLayout Sites SitesProps StageProps Releases.

Module ReleasesProps.
Import GoPath GoText Regex Names SiteLayout Sites SitesProps StageProps Releases.
#[local] Open Scope host_scope.

(** ** The three places of a swap *)

Section places.
Context (m : Manager) (site : string) (Hwp : well_placed m site).
Let loc := lexical m site.

Lemma lexical_cases (P : location → Prop) :
  (placement_of (placements m) site = None →
    P (mkLocation (joined (webRoot m) ["sites"; site]) "public" (Join [joined (webRoot m) ["sites"; site]; "public"])
         (joined (webRoot m) ["sites"; staging]) previous_ false)) →
  (∀ p, placement_of (placements m) site = Some p → Validate p = None → clean_abs (homeRoot m) →
    P (mkLocation (joined (homeRoot m) [UnixUser p]) (Directory p) (Join [joined (homeRoot m) [UnixUser p]; Directory p])
         (joined (homeRoot m) [staging]) (previous_ +:+ Directory p +:+ "-") true)) → P loc.
Proof.
  destruct Hwp as [_ _ Hp]. intros H1 H2. unfold loc, lexical. destruct (placement_of _ _) as [p|] eqn:E; [|by apply H1].
  destruct (Hp p eq_refl) as [Hv Hh]. rewrite bool_decide_false by (by apply clean_nonempty). by apply H2.
Qed.

Lemma container_clean : clean_abs (container loc).
Proof.
  destruct Hwp as [Hn Hw _]. apply lexical_cases; [intros _|intros p _ Hv Hh]; cbn [container]; apply clean_joined; try done.
  - by apply site_parts.
  - by apply placed_parts.
Qed.
Lemma stageRoot_clean : clean_abs (stageRoot loc).
Proof. destruct Hwp as [_ Hw _]. apply lexical_cases; [intros _|intros p _ _ Hh]; cbn [stageRoot]; by apply clean_joined. Qed.
Lemma docRoot_Join : docRoot loc = Join [container loc; docName loc].
Proof. by apply lexical_cases. Qed.
Lemma Validate_user p : Validate p = None → ValidUnixUser (UnixUser p) = None.
Proof. unfold Validate. case_if; [done|]. by destruct (ValidUnixUser (UnixUser p)). Qed.
Lemma container_not_stage : container loc ≠ stageRoot loc.
Proof.
  destruct Hwp as [Hn Hw _]. apply lexical_cases; [intros _|intros p _ Hv Hh]; cbn [container stageRoot]; unfold joined; cbn [foldl].
  - intros E. apply Join_inj in E as [_ E]; [|by apply clean_Join|by apply clean_Join|by apply site_name_plain|done].
    rewrite E in Hn. by vm_compute in Hn.
  - intros E. apply Join_inj in E as [_ E]; [|done|done|by apply Validate_plain|done].
    apply Validate_user in Hv. rewrite E in Hv. by vm_compute in Hv.
Qed.
Lemma Validate_directory p : Validate p = None → Directory p = MainDirectory ∨ MatchString domainPattern (Directory p) = true.
Proof.
  unfold Validate. case_if; [done|]. destruct (ValidUnixUser (UnixUser p)); [done|]. unfold ValidDomain. repeat case_if; try done; intros _;
    repeat match goal with H : _ && _ = true |- _ => apply andb_true_iff in H as [? ?] | H : negb _ = false |- _ => apply negb_false_iff in H | H : bool_decide _ = true |- _ => apply bool_decide_eq_true in H end; auto.
Qed.
Lemma docName_spec : plainb (docName loc) = true ∧ head (bytes_of (docName loc)) ≠ Some "."%char.
Proof.
  apply lexical_cases; [done|]. intros p _ Hv Hh; cbn [docName]. split; [by apply Validate_plain|].
  destruct (Validate_directory p Hv) as [->|H]; [done|]. by apply (MatchString_head domainPattern); [vm_compute|].
Qed.
Lemma prefix_spec : has_prefix (previousPrefix loc) previous_ = true ∧ slash ∉ bytes_of (previousPrefix loc).
Proof.
  apply lexical_cases; cbn [previousPrefix].
  - intros _. split; [done|]. apply (bool_decide_eq_true_1 _). by vm_compute.
  - intros p _ [_ Hd]%Validate_plain _. split; [apply has_prefix_iff; eauto|].
    rewrite !bytes_of_app, !not_elem_of_app. apply bool_decide_eq_true in Hd as (_ & _ & _ & Hd).
    split_and!; [|done|]; apply (bool_decide_eq_true_1 _); by vm_compute.
Qed.

(** The name of a preserved release. *)
Definition kept_name (t : Z) : string := previousPrefix loc +:+ Itoa t.
Lemma has_prefix_trans a b c : has_prefix a b = true → has_prefix b c = true → has_prefix a c = true.
Proof.
  rewrite !has_prefix_iff. intros [r ->] [r' ->]. exists (r' +:+ r). apply (inj bytes_of). by rewrite !bytes_of_app, <- app_assoc.
Qed.
Lemma kept_prefix t : has_prefix (kept_name t) (previousPrefix loc) = true ∧ has_prefix (kept_name t) previous_ = true.
Proof.
  assert (has_prefix (kept_name t) (previousPrefix loc) = true) by (apply has_prefix_iff; by exists (Itoa t)).
  split; [done|]. by eapply has_prefix_trans, prefix_spec.
Qed.
Lemma hidden_plain n : has_prefix n ".stepanel-" = true → slash ∉ bytes_of n → plainb n = true.
Proof.
  intros [r ->]%has_prefix_iff Hs. apply bool_decide_eq_true. split_and!; try done; intros E;
    apply (f_equal bytes_of) in E; rewrite bytes_of_app in E; by vm_compute in E.
Qed.
Lemma kept_plain t : 0 ≤ t < 10 ^ 20 → plainb (kept_name t) = true.
Proof.
  intros Ht. apply hidden_plain.
  - eapply has_prefix_trans; [apply kept_prefix|done].
  - unfold kept_name. rewrite bytes_of_app, not_elem_of_app. split; [apply prefix_spec|].
    destruct (Itoa_digits t Ht) as [Hd _]. intros Hin. unfold all_bytes in Hd. rewrite forallb_forall in Hd.
    apply list_elem_of_In in Hin. apply Hd in Hin. by vm_compute in Hin.
Qed.
End places.

(** ** The swap *)

(** The host before an activation of the stage [sn] of [site]: the site serves [old],
    the stage holds [new]; trees lie in their directories and nothing else does. *)
Record ready (m : Manager) (site sn : string) (w0 : World) (old new : Tree) : Prop := {
  rd_placed : well_placed m site;
  rd_stage_name : IsReleaseStagingName site sn = true;
  rd_component : MatchString validStagedComponent sn = true;
  rd_home : container (lexical m site) ∈ parents w0;
  rd_staging : stageRoot (lexical m site) ∈ parents w0;
  rd_flat : ∀ p, p ∈ parents w0 → Dir p ≠ container (lexical m site) ∧ Dir p ≠ stageRoot (lexical m site);
  rd_plain : ∀ n, is_Some (ents w0 !! (container (lexical m site), n)) → plainb n = true;
  rd_files : ∀ x t, x = stageCoordinationLock ∨ x = stageOwnerLockPrefix +:+ sn → ents w0 !! (stageRoot (lexical m site), x) ≠ Some (DirTree t);
  rd_links : no_links w0;
  rd_old : ents w0 !! (container (lexical m site), docName (lexical m site)) = Some (DirTree old);
  rd_new : ents w0 !! (stageRoot (lexical m site), sn) = Some (DirTree new) }.

(** The clock runs between 1970 and 2262, and every name it gives is greater than those
    of the releases kept so far. *)
Record fresh_clock (e : Env) (m : Manager) (site : string) (w0 : World) : Prop := {
  fc_range : ∀ n, 0 ≤ clock e n < 10 ^ 20;
  fc_newest : ∀ n name, is_Some (ents w0 !! (container (lexical m site), name)) →
    has_prefix name (previousPrefix (lexical m site)) = true →
    String.le name (kept_name m site (clock e n)) ∧ name ≠ kept_name m site (clock e n) }.

Lemma reads_new_journal e root site staged s : reads (newReleaseActivationJournal e root site staged) s (λ _, True).
Proof.
  unfold newReleaseActivationJournal. case_match; [by apply reads_ret|].
  eapply (reads_rbind _ _ _ (λ _, True)); [apply reads_wrap; by eapply reads_mono; [|apply reads_attempt]|done|]. intros _ c2 _.
  eapply (reads_bind _ _ _ (λ _, True)); [by eexists _, _|]. intros id c3 _.
  eapply (reads_rbind _ _ _ (λ _, True)); [by eapply reads_mono; [|apply reads_attempt]|done|]. intros _ c4 _. by apply reads_ret.
Qed.

Section swap.
Context (e : Env) (cwd : string) (m : Manager) (site sn : string) (w0 : World) (old new : Tree).
Context (Hr : ready m site sn w0 old new) (Hc : fresh_clock e m site w0).
Let loc := lexical m site.
Let release := Join [stageRoot loc; sn].
Let Hwp : well_placed m site := rd_placed _ _ _ _ _ _ Hr.

Definition kd : string * string := (container loc, docName loc).
Definition kp (t : Z) : string * string := (container loc, kept_name m site t).
Definition ks : string * string := (stageRoot loc, sn).

Lemma key_doc : key (docRoot loc) = kd.
Proof. unfold loc. rewrite docRoot_Join by done. apply key_Join; [by apply container_clean|by apply docName_spec]. Qed.
Lemma sn_plain : plainb sn = true.
Proof. apply staged_component_plain, (rd_component _ _ _ _ _ _ Hr). Qed.
Lemma key_stage : key release = ks.
Proof. apply key_Join; [by apply stageRoot_clean|apply sn_plain]. Qed.
Lemma release_clean : clean_abs release.
Proof. apply clean_Join; [by apply stageRoot_clean|apply sn_plain]. Qed.
(** The path of the preserved release at one reading of the clock. *)
Definition kept (t : Z) : string := Join [container loc; kept_name m site t].
Lemma key_kept t : 0 ≤ t < 10 ^ 20 → key (kept t) = kp t.
Proof. intros Ht. apply key_Join; [by apply container_clean|by apply kept_plain]. Qed.
Lemma kd_kp t : kd ≠ kp t.
Proof.
  intros [= E]. destruct (docName_spec m site Hwp) as [_ Hh]. fold loc in Hh. rewrite E in Hh.
  destruct (kept_prefix m site Hwp t) as [_ [r Er]%has_prefix_iff]. rewrite Er in Hh. by apply Hh.
Qed.
Lemma sn_release : has_prefix sn release_ = true.
Proof.
  pose proof (rd_stage_name _ _ _ _ _ _ Hr) as H. unfold IsReleaseStagingName in H.
  destruct (strip_prefix _ _) as [r|] eqn:E; [|done]. apply strip_prefix_Some in E. apply has_prefix_iff.
  exists (site +:+ "-" +:+ of_bytes r). apply (inj bytes_of). rewrite E, !bytes_of_app, bytes_of_of. by rewrite <- !app_assoc.
Qed.
Lemma kd_ks : kd ≠ ks.
Proof. intros [= E _]. by apply (container_not_stage m site Hwp). Qed.
Lemma kp_ks t : kp t ≠ ks.
Proof. intros [= E _]. by apply (container_not_stage m site Hwp). Qed.

(** The host with other entries at the three places. *)
Definition shaped (t : Z) (D P S : option Node) (w : World) : Prop :=
  ents w = places (ents w0) kd (kp t) ks D P S ∧ parents w = parents w0.
Lemma kept_free n : ents w0 !! kp (clock e n) = None.
Proof.
  destruct (ents w0 !! kp (clock e n)) eqn:E; [|done].
  destruct (fc_newest _ _ _ _ Hc n (kept_name m site (clock e n))) as [_ H]; [by eexists|by apply kept_prefix|]. by destruct H.
Qed.
Lemma shaped_start n : shaped (clock e n) (Some (DirTree old)) None (Some (DirTree new)) w0.
Proof.
  split; [|done]. symmetry. apply places_id; [apply kd_kp|apply kd_ks|apply kp_ks|apply (rd_old _ _ _ _ _ _ Hr)|apply kept_free|apply (rd_new _ _ _ _ _ _ Hr)].
Qed.
Lemma flat_info w p n : parents w = parents w0 → Dir p = container loc ∨ Dir p = stageRoot loc → ents w !! key p = n → info w p = node_info <$> n.
Proof.
  intros Hp Hd <-. unfold info. rewrite decide_False; [done|]. rewrite Hp. intros Hin.
  destruct (rd_flat _ _ _ _ _ _ Hr p Hin). by destruct Hd.
Qed.
Lemma lookup_shaped t D P S w k : shaped t D P S w →
  ents w !! k = if decide (k = kd) then D else if decide (k = kp t) then P else if decide (k = ks) then S else ents w0 !! k.
Proof. intros [-> _]. apply lookup_places; [apply kd_kp|apply kd_ks|apply kp_ks]. Qed.
Lemma shaped_doc t D P S w : shaped t D P S w → ents w !! kd = D.
Proof. intros H. rewrite (lookup_shaped _ _ _ _ _ _ H). by rewrite decide_True. Qed.
Lemma shaped_kept t D P S w : shaped t D P S w → ents w !! kp t = P.
Proof. intros H. rewrite (lookup_shaped _ _ _ _ _ _ H). rewrite decide_False by (intros E; by apply (kd_kp t)). by rewrite decide_True. Qed.
Lemma shaped_stage t D P S w : shaped t D P S w → ents w !! ks = S.
Proof.
  intros H. rewrite (lookup_shaped _ _ _ _ _ _ H). rewrite decide_False by (intros E; by apply kd_ks).
  rewrite decide_False by (intros E; by apply (kp_ks t)). by rewrite decide_True.
Qed.

(** *** Moves *)
Lemma move_keep t n S w : 0 ≤ t < 10 ^ 20 → shaped t (Some n) None S w →
  shaped t None (Some n) S (move (docRoot loc) (kept t) w) ∧ journals (move (docRoot loc) (kept t) w) = journals w.
Proof.
  intros Ht H. pose proof (shaped_doc _ _ _ _ _ H) as Hn. unfold move. rewrite key_doc, key_kept, Hn by done. split; [|done].
  destruct H as [He Hp]. split; cbn; [|done]. rewrite He. apply places_dp; [apply kd_kp|apply kd_ks|apply kp_ks].
Qed.
Lemma move_restore t n S w : 0 ≤ t < 10 ^ 20 → shaped t None (Some n) S w →
  shaped t (Some n) None S (move (kept t) (docRoot loc) w) ∧ journals (move (kept t) (docRoot loc) w) = journals w.
Proof.
  intros Ht H. pose proof (shaped_kept _ _ _ _ _ H) as Hn. unfold move. rewrite key_doc, key_kept, Hn by done. split; [|done].
  destruct H as [He Hp]. split; cbn; [|done]. rewrite He. apply places_pd; [apply kd_kp|apply kd_ks|apply kp_ks].
Qed.
Lemma move_publish t n P w : shaped t None P (Some n) w →
  shaped t (Some n) P None (move release (docRoot loc) w) ∧ journals (move release (docRoot loc) w) = journals w.
Proof.
  intros H. pose proof (shaped_stage _ _ _ _ _ H) as Hn. unfold move. rewrite key_doc, key_stage, Hn by done. split; [|done].
  destruct H as [He Hp]. split; cbn; [|done]. rewrite He. apply places_sd; [apply kd_kp|apply kd_ks|apply kp_ks].
Qed.
Lemma move_withdraw t n P w : shaped t (Some n) P None w →
  shaped t None P (Some n) (move (docRoot loc) release w) ∧ journals (move (docRoot loc) release w) = journals w.
Proof.
  intros H. pose proof (shaped_doc _ _ _ _ _ H) as Hn. unfold move. rewrite key_doc, key_stage, Hn by done. split; [|done].
  destruct H as [He Hp]. split; cbn; [|done]. rewrite He. apply places_ds; [apply kd_kp|apply kd_ks|apply kp_ks].
Qed.

(** *** Under any failures *)

(** What an activation that does not return a path may leave. *)
Inductive stuck (t : Z) (w : World) : Prop :=
  | stuck_before : shaped t (Some (DirTree old)) None (Some (DirTree new)) w → stuck t w
  | stuck_aside : shaped t None (Some (DirTree old)) (Some (DirTree new)) w → stuck t w
  | stuck_after : shaped t (Some (DirTree new)) (Some (DirTree old)) None w → stuck t w.

Lemma reads_inspectStaged s :
  reads (inspectStaged e cwd m site release) s (λ r, ∀ x, r = Ok x → x = (loc, release)).
Proof.
  unfold inspectStaged. eapply reads_rbind; [apply reads_locate|done|]. intros l c (_ & -> & _).
  eapply reads_rbind; [apply reads_resolveStagedRoot|done|]. intros [pa na] c1 E.
  rewrite (Abs_abs cwd release) in E by apply release_clean.
  assert (pa = stageRoot loc ∧ na = sn) as [-> ->].
  { unfold release in E. rewrite Dir_Join, Base_Join in E by (apply sn_plain || by apply stageRoot_clean). by injection E. }
  eapply (reads_rbind _ _ _ (λ _, True)); [apply reads_wrap; by eapply reads_mono; [|apply reads_ReadDir]|done|].
  intros [entries|] c2 _; [|by apply reads_ret]. case_match; [by apply reads_ret|].
  eapply (reads_rbind _ _ _ (λ _, True)); [apply reads_wrap; by eapply reads_mono; [|apply reads_Lstat]|done|].
  intros i c3 _. case_match; apply reads_ret; [done|]. by intros x [= <-].
Qed.

Lemma prepare_reads s : parents (world s) = parents w0 → reads (prepareActivationParent e loc) s (λ _, True).
Proof.
  intros Hp. unfold prepareActivationParent. destruct (placed loc).
  - unfold requireAccountHome. eapply (reads_rbind _ _ _ (λ _, True)); [by eapply reads_mono; [|apply reads_Lstat]|done|].
    intros [[]|] c _; by apply reads_ret.
  - eapply reads_mono; [|apply (reads_wrap _ _ _ (λ _, True))]; [done|]. unfold MkdirAll.
    eapply (reads_rbind _ _ _ (λ _, True)); [by eapply reads_mono; [|apply reads_attempt]|done|]. intros _ c _.
    eapply reads_bind; [apply reads_look|]. intros ? c1 <-. cbn [world at_call].
    rewrite decide_True by (rewrite Hp; apply (rd_home _ _ _ _ _ _ Hr)). by apply reads_ret.
Qed.

(** The outcome of a swap under any failures, with the journals [J]. *)
Definition swapped (J : gmap string (option releaseActivationJournal)) (o : option (res string)) (s : St) : Prop :=
  journals (world s) = J ∧ ∃ n, let t := clock e n in
  match o with
  | Some (Ok p) => p = kept t ∧ shaped t (Some (DirTree new)) (Some (DirTree old)) None (world s)
  | _ => stuck t (world s)
  end.

Lemma restore_swapped n s err : stuck (clock e n) (world s) →
  holds (@restorePreviousRelease e string (kept (clock e n)) (docRoot loc) err) s (swapped (journals (world s))).
Proof.
  intros H. pose proof (fc_range _ _ _ _ Hc n) as Hn. unfold restorePreviousRelease. case_bool_decide.
  { apply holds_ret. split; [done|]. by exists n. }
  apply holds_bind, holds_Rename.
  - intros err' c. apply holds_ret. split; [done|]. by exists n.
  - intros c. split; [done|]. by exists n.
  - intros c l Hm. assert (stuck (clock e n) (move (kept (clock e n)) (docRoot loc) (world s)) ∧
      journals (move (kept (clock e n)) (docRoot loc) (world s)) = journals (world s)) as [Hst Hj].
    { destruct H as [H|H|H].
      - unfold can_move in Hm. rewrite key_kept, (shaped_kept _ _ _ _ _ H), andb_false_r in Hm by done. done.
      - destruct (move_restore _ _ _ _ Hn H) as [H1 H2]. split; [by apply stuck_before|done].
      - exfalso. unfold can_move in Hm. rewrite key_kept, (shaped_kept _ _ _ _ _ H) in Hm by done.
        rewrite (flat_info _ _ (Some (DirTree new))) in Hm; [by rewrite andb_false_r in Hm|apply H| |by rewrite key_doc; apply (shaped_doc _ _ _ _ _ H)].
        left. unfold loc. rewrite docRoot_Join, Dir_Join; [done|by apply container_clean|by apply docName_spec|done]. }
    eapply holds_read; [apply reads_attempt|]. intros [] c' _; apply holds_ret; (split; [done|]); by exists n.
Qed.

Lemma doc_dir : Dir (docRoot loc) = container loc.
Proof. unfold loc. rewrite docRoot_Join by done. apply Dir_Join; [by apply container_clean|by apply docName_spec]. Qed.
Lemma doc_info t D P S w : shaped t D P S w → info w (docRoot loc) = node_info <$> D.
Proof. intros H. apply flat_info; [apply H|left; apply doc_dir|rewrite key_doc; by apply (shaped_doc _ _ _ _ _ H)]. Qed.

Lemma publish_swapped n s (k : res unit → M (res string)) :
  shaped (clock e n) None (Some (DirTree old)) (Some (DirTree new)) (world s) →
  (∀ err s', stuck (clock e n) (world s') → journals (world s') = journals (world s) → holds (k (Err err)) s' (swapped (journals (world s)))) →
  (∀ s', shaped (clock e n) (Some (DirTree new)) (Some (DirTree old)) None (world s') → journals (world s') = journals (world s) →
    holds (k (Ok tt)) s' (swapped (journals (world s)))) →
  holds (bind (renameDurable e release (docRoot loc)) k) s (swapped (journals (world s))).
Proof.
  intros H Herr Hok. apply holds_bind. unfold renameDurable. unfold rbind at 1. apply holds_bind, holds_Rename.
  - intros err c. apply Herr; [by apply stuck_aside|done].
  - intros c. split; [done|]. exists n. by apply stuck_aside.
  - intros c l _. destruct (move_publish _ _ _ _ H) as [H1 Hj1]. eapply holds_read; [apply reads_attempt|]. intros [u|err] c1 _.
    { apply holds_ret, Hok; [exact H1|exact Hj1]. }
    apply holds_bind, holds_Rename.
    + intros err' c2. apply holds_ret, Herr; [by apply stuck_after|done].
    + intros c2. split; [done|]. exists n. by apply stuck_after.
    + intros c2 l2 _. cbn [world at_call]. destruct (move_withdraw _ _ _ _ H1) as [H2 Hj2].
      apply holds_ret, Herr; cbn [world]; [by apply stuck_aside|congruence].
Qed.

Lemma activate_swapped c s : ents (world s) = ents w0 → parents (world s) = parents w0 →
  holds (ActivateStagedReplacing e cwd c m site release) s (swapped (journals (world s))).
Proof.
  intros He Hp. assert (∀ n, shaped (clock e n) (Some (DirTree old)) None (Some (DirTree new)) (world s)) as Hst.
  { intros n. destruct (shaped_start n) as [H1 H2]. split; [by rewrite He|done]. }
  assert (∀ o cc, (match o with Some (Ok _) => False | _ => True end) → swapped (journals (world s)) o (at_call s cc)) as Hbad.
  { intros o cc Ho. split; [done|]. exists O. destruct o as [[]|]; [done|..]; by apply stuck_before. }
  unfold ActivateStagedReplacing.
  apply (holds_rread _ _ _ (λ _, True)); [by eapply reads_mono; [|apply reads_ctx]|by intros; apply Hbad|]. intros _ c1 _.
  eapply holds_rread; [apply reads_inspectStaged|by intros; apply Hbad|]. intros x c2 ->.
  apply (holds_rread _ _ _ (λ _, True)); [apply reads_wrap; by eapply reads_mono; [|apply reads_attempt]|by intros; apply Hbad|]. intros _ c3 _.
  apply (holds_rread _ _ _ (λ _, True)); [by eapply reads_mono; [|apply reads_ctx]|by intros; apply Hbad|]. intros _ c4 _.
  eapply holds_rread; [apply reads_wrap, reads_Lstat|by intros; apply Hbad|]. intros i c5 ->. cbn [world at_call].
  rewrite (doc_info _ _ _ _ _ (Hst O)). cbn [fmap option_fmap option_map node_info].
  unfold rbind at 1. apply holds_bind. eapply holds_read; [apply reads_now|]. intros ? c6 [n ->].
  pose proof (fc_range _ _ _ _ Hc n) as Hn. specialize (Hst n).
  eapply holds_rread; [apply reads_SafePath|by intros; apply Hbad|]. intros ? c7 ->.
  change (joined (container loc) [previousPrefix loc +:+ Itoa (clock e n)]) with (kept (clock e n)).
  unfold rbind. apply holds_bind, holds_wrap, holds_Rename.
  - intros err c8. by apply Hbad.
  - intros c8. by apply Hbad.
  - intros c8 l _. cbn [world at_call]. destruct (move_keep _ _ _ _ Hn Hst) as [H1 Hj1]. apply holds_ret. rewrite <- Hj1.
    set (w1 := move _ _ _) in *. eapply holds_read; [apply reads_ctx|]. intros [u|err] c9 _.
    2:{ apply (restore_swapped n (at_call (mkSt w1 c8 l) c9)). by apply stuck_aside. }
    eapply holds_read; [apply prepare_reads; apply H1|]. intros [u'|err] c10 _.
    2:{ apply (restore_swapped n (mkSt w1 c10 l)). by apply stuck_aside. }
    apply (publish_swapped n (mkSt w1 c10 l)); [done| |].
    + intros err s' Hs' Hj. change (journals (world (mkSt w1 c10 l))) with (journals w1) in *. rewrite <- Hj. by apply restore_swapped.
    + intros s' Hs' Hj. apply holds_ret. split; [exact Hj|]. by exists n.
Qed.

(** *** Rollback under any failures *)

(** What a rollback of the swap may leave. *)
Inductive unwound (t : Z) (w : World) : Prop :=
  | unwound_not : stuck t w → unwound t w
  | unwound_part : shaped t (Some (gut (DirTree new))) (Some (DirTree old)) None w → unwound t w
  | unwound_gone : shaped t None (Some (DirTree old)) None w → unwound t w
  | unwound_done : shaped t (Some (DirTree old)) None None w → unwound t w.

Lemma gut_shape t n P S w : shaped t (Some n) P S w → shaped t (Some (gut n)) P S (gut_ent (docRoot loc) w) ∧
  shaped t None P S (del_ent (docRoot loc) (gut_ent (docRoot loc) w)).
Proof.
  intros [He Hp]. unfold gut_ent, del_ent. rewrite key_doc. cbn. unfold shaped. cbn. rewrite He.
  rewrite places_gut by (apply kd_kp || apply kd_ks || apply kp_ks). split; split; try done.
  apply places_del; [apply kd_kp|apply kd_ks|apply kp_ks].
Qed.

Lemma rollback_unwound c n s : shaped (clock e n) (Some (DirTree new)) (Some (DirTree old)) None (world s) →
  holds (RollbackStagedActivation e cwd c m site (kept (clock e n))) s (λ o s', journals (world s') = journals (world s) ∧
    unwound (clock e n) (world s') ∧ (o = Some (Ok tt) → shaped (clock e n) (Some (DirTree old)) None None (world s'))).
Proof.
  intros H. pose proof (fc_range _ _ _ _ Hc n) as Hn. set (Q := λ o s', journals (world s') = journals (world s) ∧ _).
  assert (∀ o cc, o ≠ Some (Ok tt) → Q o (at_call s cc)) as Hbad.
  { intros o cc Ho. split_and!; [done|by apply unwound_not, stuck_after|done]. }
  unfold RollbackStagedActivation. eapply holds_rread; [apply reads_locate|by intros; apply Hbad|]. intros l c1 (_ & -> & _). fold loc.
  apply (holds_rread _ _ _ (λ _, True)); [by eapply reads_mono; [|apply reads_ctx]|by intros; apply Hbad|]. intros _ c2 _.
  eapply holds_rread; [apply reads_wrap, reads_Lstat|by intros; apply Hbad|]. intros i c3 ->. cbn [world at_call].
  rewrite (doc_info _ _ _ _ _ H). cbn [fmap option_fmap option_map node_info]. destruct (gut_shape _ _ _ _ _ H) as [Hg Hd].
  unfold rbind at 1. apply holds_bind, holds_wrap, (holds_RemoveAll _ _ _ (DirTree new)); [by rewrite key_doc; apply (shaped_doc _ _ _ _ _ H)|..].
  { intros c4. by apply Hbad. }
  { intros o c4 l Ho. assert (∀ o', o' ≠ Some (Ok tt) → Q o' (mkSt (gut_ent (docRoot loc) (world s)) c4 l)) as Hgut.
    { intros o' Ho'. split_and!; [done|by apply unwound_part|done]. }
    destruct o as [[[]|err]|]; [done|by apply Hgut..]. }
  intros c4 l. set (w1 := del_ent _ _) in *. assert (∀ o cc, o ≠ Some (Ok tt) → Q o (mkSt w1 cc l)) as Hgone.
  { intros o cc Ho. split_and!; [done|by apply unwound_gone|done]. }
  assert (clean_abs (kept (clock e n))) as Hk by (apply clean_Join; [by apply container_clean|by apply kept_plain]).
  rewrite bool_decide_false by (by apply clean_nonempty). rewrite Abs_abs by done.
  assert (Dir (kept (clock e n)) = container loc ∧ Base (kept (clock e n)) = kept_name m site (clock e n)) as [-> ->].
  { unfold kept. rewrite Dir_Join, Base_Join by (by apply container_clean || by apply kept_plain). done. }
  case_match; [apply holds_ret; by apply Hgone|].
  eapply holds_rread; [apply reads_SafePath|by intros; apply Hgone|]. intros ? c5 ->.
  change (joined (container loc) [kept_name m site (clock e n)]) with (kept (clock e n)).
  unfold rbind. apply holds_bind, holds_wrap, holds_Rename; [by intros; apply Hgone|by intros; apply Hgone|].
  intros c6 l2 _. cbn [world at_call]. destruct (move_restore _ _ _ _ Hn Hd) as [H2 Hj]. fold w1 in H2, Hj.
  apply holds_wrap. unfold syncDir. destruct (reads_attempt e (mkSt (move (kept (clock e n)) (docRoot loc) w1) c6 l2)) as (r & c7 & E & _).
  unfold holds. rewrite E. cbn [fst snd]. destruct r as [[]|err]; (split; [exact Hj|]); (split; [by apply unwound_done|]); done.
Qed.

(** *** The journal *)
Lemma holds_persist n j s Q :
  (∀ o c l, o ≠ Some (Ok tt) → Q o (mkSt (world s) c l)) → (∀ o c l, Q o (mkSt (put_journal n j (world s)) c l)) →
  holds (persist e n j) s Q.
Proof.
  intros H1 H2. unfold persist. apply (holds_rread _ _ _ (λ _, True)); [by eapply reads_mono; [|apply reads_attempt]|by intros; apply H1|].
  intros _ c _. apply holds_bind, holds_effect; [by apply H1|]. intros l.
  destruct (reads_attempt e (mkSt (put_journal n j (world s)) c l)) as (r & c' & E & _). unfold holds, at_call. cbn [world calls].
  rewrite E. apply H2.
Qed.
Lemma holds_cleanup n s Q :
  (∀ o c l, o ≠ Some (Ok tt) → Q o (mkSt (world s) c l)) → (∀ o c l, Q o (mkSt (del_journal n (world s)) c l)) →
  holds (cleanup e n) s Q.
Proof.
  intros H1 H2. unfold cleanup. apply holds_wrap. apply (holds_rread _ _ _ (λ _, True)); [by eapply reads_mono; [|apply reads_attempt]|by intros; apply H1|].
  intros _ c _. apply holds_bind, holds_effect; [by apply H1|]. intros l.
  destruct (reads_attempt e (mkSt (del_journal n (world s)) c l)) as (r & c' & E & _). unfold holds, at_call. cbn [world calls].
  rewrite E. destruct r; apply H2.
Qed.

(** *** The whole activation under any failures *)
Lemma unwound_files t w w' : ents w' = ents w → parents w' = parents w → unwound t w → unwound t w'.
Proof.
  intros He Hp. assert (∀ D P S, shaped t D P S w → shaped t D P S w') as Hs by (intros D P S [? ?]; split; congruence).
  intros [[H|H|H]|H|H|H].
  - by apply unwound_not, stuck_before, Hs.
  - by apply unwound_not, stuck_aside, Hs.
  - by apply unwound_not, stuck_after, Hs.
  - by apply unwound_part, Hs.
  - by apply unwound_gone, Hs.
  - by apply unwound_done, Hs.
Qed.

(** Every outcome but success, and success with its journal removed. *)
Definition outcome (o : option (res string)) (s : St) : Prop := ∃ n, unwound (clock e n) (world s) ∧
  ∀ p, o = Some (Ok p) → p = kept (clock e n) ∧ shaped (clock e n) (Some (DirTree new)) (Some (DirTree old)) None (world s) ∧
    ∀ f j, journals (world s) !! f = Some j → journals w0 !! f = Some j.

Lemma outcome_bad n o s : unwound (clock e n) (world s) → (∀ p, o ≠ Some (Ok p)) → outcome o s.
Proof. intros H Ho. exists n. split; [done|]. intros p E. by apply Ho in E. Qed.
Lemma abandon_outcome f err n s : unwound (clock e n) (world s) → holds (@abandon e string f err) s outcome.
Proof.
  intros H. unfold abandon. apply holds_bind, holds_cleanup.
  - intros o c l _. destruct o; [apply holds_ret|]; by eapply outcome_bad.
  - intros o c l. destruct o; [apply holds_ret|]; (eapply (outcome_bad n); [|done]); by apply (unwound_files _ (world s)).
Qed.

Lemma activation_outcome c cfg s : world s = w0 → holds (activatePipelineRelease e cwd c cfg m site release) s outcome.
Proof.
  intros Hw. assert (∀ w, ents w = ents w0 → parents w = parents w0 → unwound (clock e O) w) as Hstart.
  { intros w He Hp. eapply (unwound_files _ w0); [done..|]. apply unwound_not, stuck_before, shaped_start. }
  assert (∀ o cc, (∀ p, o ≠ Some (Ok p)) → outcome o (at_call s cc)) as Hbad.
  { intros o cc Ho. eapply outcome_bad; [|done]. apply Hstart; cbn; by rewrite Hw. }
  unfold activatePipelineRelease.
  apply (holds_rread _ _ _ (λ _, True)); [by eapply reads_mono; [|apply reads_ctx]|by intros; apply Hbad|]. intros _ c1 _.
  apply (holds_rread _ _ _ (λ _, True)); [by eapply reads_mono; [|apply reads_new_journal]|by intros; apply Hbad|].
  intros [f j] c2 _. unfold rbind at 1. apply holds_bind, holds_wrap, holds_persist.
  { intros o c3 l Ho. assert (∀ o', (∀ p, o' ≠ Some (Ok p)) → outcome o' (mkSt (world s) c3 l)) as Hb.
    { intros o' Ho'. eapply outcome_bad; [|done]. apply Hstart; cbn; by rewrite Hw. }
    destruct o as [[[]|err]|]; [done|apply holds_ret|]; by apply Hb. }
  intros o c3 l. assert (∀ w, ents w = ents w0 → parents w = parents w0 → ∀ o' cc ll, (∀ p, o' ≠ Some (Ok p)) → outcome o' (mkSt w cc ll)) as Hb.
  { intros w He Hp o' cc ll Ho'. eapply outcome_bad; [|done]. by apply Hstart. }
  destruct o as [[[]|err]|]; [|apply holds_ret|]; try (apply Hb; cbn; by rewrite ?Hw).
  set (w1 := put_journal _ _ _). assert (ents w1 = ents w0 ∧ parents w1 = parents w0) as [He1 Hp1] by (cbn; by rewrite Hw).
  eapply holds_read; [apply reads_attempt|]. intros [u|err] c4 _; [|apply (abandon_outcome _ _ O); by apply Hstart].
  apply holds_bind. eapply holds_mono; [|apply (activate_swapped c (mkSt w1 c4 l)); done].
  intros o s2 [Hj2 (n & Ho)]. cbn [world] in Hj2. destruct o as [[p|err]|]; [|apply (abandon_outcome _ _ n); by apply unwound_not|by eapply outcome_bad; [apply unwound_not|]].
  destruct Ho as [-> H2]. assert (∀ w, ents w = ents (world s2) → parents w = parents (world s2) → shaped (clock e n) (Some (DirTree new)) (Some (DirTree old)) None w) as Hsame.
  { intros w E1 E2. destruct H2. split; congruence. }
  assert (∀ s3, shaped (clock e n) (Some (DirTree new)) (Some (DirTree old)) None (world s3) → ∀ (b1 b2 : error), holds
    (rb ← RollbackStagedActivation e cwd c m site (kept (clock e n)); match rb with Err _ => ret (Err b1) | Ok _ => abandon e f b2 end) s3 outcome) as Hrb.
  { intros s3 H3 b1 b2. apply holds_bind. eapply holds_mono; [|by apply rollback_unwound].
    intros o s4 (_ & Hu & _). destruct o as [[[]|err]|]; [by apply (abandon_outcome _ _ n)|apply holds_ret|]; by eapply outcome_bad. }
  apply holds_bind. unfold markActivated. apply holds_persist.
  { intros o c5 l5 Ho. destruct o as [[[]|err]|]; [done|by apply Hrb|]. by eapply outcome_bad; [apply unwound_not, stuck_after|]. }
  intros o c5 l5. destruct o as [[[]|err]|]; [|by apply Hrb; apply Hsame|by eapply outcome_bad; [apply unwound_not, stuck_after, Hsame|]].
  set (w3 := put_journal _ _ _). eapply holds_read; [apply reads_attempt|]. intros [u3|err] c6 _; [|by apply Hrb; apply Hsame].
  unfold rbind at 1. apply holds_bind, holds_wrap. unfold markCommitted. apply holds_persist.
  { intros o c7 l7 Ho. destruct o as [[[]|err]|]; [done|apply holds_ret|]; by eapply outcome_bad; [apply unwound_not, stuck_after, Hsame|]. }
  intros o c7 l7. destruct o as [[[]|err]|]; [|apply holds_ret|]; try by eapply outcome_bad; [apply unwound_not, stuck_after, Hsame|].
  set (w4 := put_journal _ _ _). unfold rbind. apply holds_bind, holds_cleanup.
  { intros o c8 l8 Ho. destruct o as [[[]|err]|]; [done|apply holds_ret|]; by eapply outcome_bad; [apply unwound_not, stuck_after, Hsame|]. }
  intros o c8 l8. destruct o as [[[]|err]|]; [|apply holds_ret|]; try by eapply outcome_bad; [apply unwound_not, stuck_after, Hsame|].
  apply holds_ret. exists n. split; [by apply unwound_not, stuck_after, Hsame|]. intros p [= <-]. split; [done|]. split; [by apply Hsame|].
  intros g j' Hg. cbn in Hg. rewrite Hj2 in Hg. cbn in Hg. rewrite Hw in Hg.
  destruct (decide (g = f)) as [->|]; simplify_map_eq. done.
Qed.

(** *** Without failures, killed at any point *)
Context (Hq : quiet e).

Lemma shaped_no_links t D P S w : shaped t D P S w → D ≠ Some Symlink → P ≠ Some Symlink → S ≠ Some Symlink → no_links w.
Proof.
  intros H HD HP HS k. rewrite (lookup_shaped _ _ _ _ _ k H). repeat case_decide; try done. apply (rd_links _ _ _ _ _ _ Hr).
Qed.
Lemma quiet_inspectStaged t s : shaped t (Some (DirTree old)) None (Some (DirTree new)) (world s) →
  reads (inspectStaged e cwd m site release) s (eq (Ok (loc, release))).
Proof.
  intros H. assert (no_links (world s)) as Hl by (by eapply shaped_no_links). unfold inspectStaged.
  eapply reads_rok; [by apply quiet_locate|]. intros c1. fold loc.
  eapply reads_rok; [apply quiet_resolveStagedRoot; try done; [apply (rd_component _ _ _ _ _ _ Hr)|by apply container_not_stage|by apply stageRoot_clean]|].
  intros c2. eapply reads_rok; [by apply reads_wrap_ok, quiet_ReadDir|]. intros c3. cbn [world at_call].
  rewrite decide_True by (destruct H as [_ ->]; apply (rd_staging _ _ _ _ _ _ Hr)).
  pose proof (shaped_stage _ _ _ _ _ H) as Hs. rewrite bool_decide_true by (by eapply elem_of_names_of). cbn [negb].
  eapply reads_rok; [by apply reads_wrap_ok, quiet_Lstat|]. intros c4. cbn [world at_call]. fold release.
  rewrite (flat_info _ _ (Some (DirTree new))); [|apply H| |rewrite <- Hs; f_equal; apply key_stage].
  2:{ right. unfold release. apply Dir_Join; [by apply stageRoot_clean|apply sn_plain]. }
  by apply reads_ret.
Qed.
Lemma quiet_prepare s : no_links (world s) → parents (world s) = parents w0 → reads (prepareActivationParent e loc) s (eq (Ok tt)).
Proof.
  intros Hl Hp. assert (container loc ∈ parents (world s)) as Hin by (rewrite Hp; apply (rd_home _ _ _ _ _ _ Hr)).
  unfold prepareActivationParent. destruct (placed loc).
  - unfold requireAccountHome. eapply reads_rok; [by apply quiet_Lstat|]. intros c. unfold info. rewrite decide_True by done. by apply reads_ret.
  - apply reads_wrap_ok. unfold MkdirAll. eapply reads_rok; [by apply quiet_attempt|]. intros c.
    eapply reads_bind; [apply reads_look|]. intros ? c1 <-. cbn [world at_call]. rewrite decide_True by done. by apply reads_ret.
Qed.
Lemma kept_dir t : 0 ≤ t < 10 ^ 20 → Dir (kept t) = container loc.
Proof. intros Ht. apply Dir_Join; [by apply container_clean|by apply kept_plain]. Qed.
Lemma can_keep t S w : 0 ≤ t < 10 ^ 20 → shaped t (Some (DirTree old)) None S w → can_move (docRoot loc) (kept t) w = true.
Proof.
  intros Ht H. unfold can_move. rewrite kept_dir, bool_decide_true, key_doc, (shaped_doc _ _ _ _ _ H) by (done || destruct H as [_ ->]; apply (rd_home _ _ _ _ _ _ Hr)).
  rewrite (flat_info _ _ None); [done|apply H|left; by apply kept_dir|rewrite key_kept by done; apply (shaped_kept _ _ _ _ _ H)].
Qed.
Lemma can_publish t P w : shaped t None P (Some (DirTree new)) w → can_move release (docRoot loc) w = true.
Proof.
  intros H. unfold can_move. rewrite doc_dir, bool_decide_true, key_stage, (shaped_stage _ _ _ _ _ H) by (done || destruct H as [_ ->]; apply (rd_home _ _ _ _ _ _ Hr)).
  by rewrite (doc_info _ _ _ _ _ H).
Qed.
Lemma can_restore t S w : 0 ≤ t < 10 ^ 20 → shaped t None (Some (DirTree old)) S w → can_move (kept t) (docRoot loc) w = true.
Proof.
  intros Ht H. unfold can_move. rewrite doc_dir, bool_decide_true, key_kept, (shaped_kept _ _ _ _ _ H) by (done || destruct H as [_ ->]; apply (rd_home _ _ _ _ _ _ Hr)).
  by rewrite (doc_info _ _ _ _ _ H).
Qed.

(** The swap: killed before it, between its two renames, or after it. *)
Lemma quiet_activate c s (Q : option (res string) → St → Prop) : ents (world s) = ents w0 → parents (world s) = parents w0 →
  (∀ w cc l n, journals w = journals (world s) → shaped (clock e n) (Some (DirTree old)) None (Some (DirTree new)) w ∨
    shaped (clock e n) None (Some (DirTree old)) (Some (DirTree new)) w → Q None (mkSt w cc l)) →
  (∀ w cc l n, journals w = journals (world s) → shaped (clock e n) (Some (DirTree new)) (Some (DirTree old)) None w →
    Q (Some (Ok (kept (clock e n)))) (mkSt w cc l)) →
  holds (ActivateStagedReplacing e cwd c m site release) s Q.
Proof.
  intros He Hp Hk Hok. assert (∀ n, shaped (clock e n) (Some (DirTree old)) None (Some (DirTree new)) (world s)) as Hst.
  { intros n. destruct (shaped_start n) as [H1 H2]. split; [by rewrite He|done]. }
  assert (no_links (world s)) as Hl by (by eapply shaped_no_links; [apply (Hst O)|..]).
  unfold ActivateStagedReplacing. eapply holds_rok; [by apply quiet_ctx|]. intros c1.
  eapply holds_rok; [by apply (quiet_inspectStaged (clock e O)), Hst|]. intros c2.
  eapply holds_rok; [by apply reads_wrap_ok, quiet_attempt|]. intros c3. eapply holds_rok; [by apply quiet_ctx|]. intros c4.
  eapply holds_rok; [by apply reads_wrap_ok, quiet_Lstat|]. intros c5. cbn [world at_call].
  rewrite (doc_info _ _ _ _ _ (Hst O)). cbn [fmap option_fmap option_map node_info].
  unfold rbind at 1. apply holds_bind. eapply holds_read; [apply reads_now|]. intros ? c6 [n ->].
  pose proof (fc_range _ _ _ _ Hc n) as Hn. specialize (Hst n).
  change (previousPrefix loc +:+ Itoa (clock e n)) with (kept_name m site (clock e n)).
  eapply holds_rok; [apply quiet_SafePath; try done; [by apply container_clean|cbn [forallb]; by rewrite (kept_plain m site Hwp)]|]. intros c7.
  change (joined (container loc) [kept_name m site (clock e n)]) with (kept (clock e n)).
  unfold rbind. apply holds_bind, holds_wrap, quiet_Rename; [done|by eapply can_keep|..].
  { intros c8. eapply Hk; [done|by left]. }
  intros c8 l _. cbn [world at_call]. destruct (move_keep _ _ _ _ Hn Hst) as [H1 Hj1]. set (w1 := move _ _ _) in *.
  apply holds_ret. eapply holds_read; [by apply quiet_ctx|]. intros ? c9 <-.
  eapply holds_read; [apply quiet_prepare; [by eapply shaped_no_links|apply H1]|]. intros ? c10 <-.
  apply holds_bind. unfold renameDurable, rbind. apply holds_bind, quiet_Rename; [done|by eapply can_publish|..].
  { intros c11. eapply Hk; [exact Hj1|by right]. }
  intros c11 l2 _. cbn [world at_call]. destruct (move_publish _ _ _ _ H1) as [H2 Hj2].
  eapply holds_read; [by apply quiet_attempt|]. intros ? c12 <-. apply holds_ret, holds_ret. eapply Hok; [|exact H2]. cbn. by rewrite Hj2.
Qed.

(** *** Where a kill can leave an activation *)
Definition journal_of (id previous state : string) : releaseActivationJournal := mkJournal 1 id site release previous state.
Definition only (id previous state : string) : gmap string (option releaseActivationJournal) :=
  {[ journal_file id := Some (journal_of id previous state) ]}.
Inductive crashed (w : World) : Prop :=
  | crash_idle : ents w = ents w0 → parents w = parents w0 → journals w = ∅ → crashed w
  | crash_prepared id n : id ≠ "" → journals w = only id "" "prepared" → stuck (clock e n) w → crashed w
  | crash_activated id n : id ≠ "" → journals w = only id (kept (clock e n)) "activated" →
      shaped (clock e n) (Some (DirTree new)) (Some (DirTree old)) None w → crashed w
  | crash_committed id n : id ≠ "" → journals w = only id (kept (clock e n)) "committed" →
      shaped (clock e n) (Some (DirTree new)) (Some (DirTree old)) None w → crashed w
  | crash_finished n : journals w = ∅ → shaped (clock e n) (Some (DirTree new)) (Some (DirTree old)) None w → crashed w.

Lemma quiet_persist f j s Q : (∀ c l, Q None (mkSt (world s) c l)) → (∀ c l, Q (Some (Ok tt)) (mkSt (put_journal f j (world s)) c l)) →
  holds (persist e f j) s Q.
Proof.
  intros H1 H2. unfold persist. eapply holds_rok; [by apply quiet_attempt|]. intros c. apply holds_bind, holds_effect; [apply H1|]. intros l.
  destruct (quiet_attempt e Hq (mkSt (put_journal f j (world s)) c l)) as (r & c' & E & <-). unfold holds, at_call. cbn [world calls]. rewrite E. apply H2.
Qed.
Lemma quiet_cleanup f s Q : (∀ c l, Q None (mkSt (world s) c l)) →
  (∀ c l, (left s = None → l = None) → Q (Some (Ok tt)) (mkSt (del_journal f (world s)) c l)) → holds (cleanup e f) s Q.
Proof.
  intros H1 H2. unfold cleanup. apply holds_wrap. eapply holds_rok; [by apply quiet_attempt|]. intros c.
  apply holds_bind. unfold holds at 1, effect. cbn [left at_call world calls].
  assert (∀ l, (left s = None → l = None) → holds (attempt e) (mkSt (del_journal f (world s)) c l) (λ o s', match o with
    | Some (Err err) => Q (Some (Err (EWrap "remove release activation journal" err))) s' | _ => Q o s' end)) as Hend.
  { intros l Hl. destruct (quiet_attempt e Hq (mkSt (del_journal f (world s)) c l)) as (r & c' & E & <-). unfold holds. rewrite E. by apply H2. }
  destruct (left s) as [[|n]|] eqn:El; cbn; [apply H1|by apply Hend..].
Qed.
Lemma site_safe : safeUser site ≠ "".
Proof.
  pose proof (wp_name _ _ Hwp) as H. assert (safe site) as Hs.
  { split_and!.
    - intros ->. by vm_compute in H.
    - eapply (MatchString_len validSiteName site 32); [by vm_compute|done].
    - apply (MatchString_bytes _ validSiteName); [by vm_compute|done]. }
  rewrite safeUser_fixed by done. apply Hs.
Qed.

Lemma quiet_pipeline c cfg s :
  TrimSpace (recovery_root cfg) ≠ "" → TrimSpace release ≠ "" → (∀ n, rand e n ≠ Some "") → journals w0 = ∅ → world s = w0 →
  holds (activatePipelineRelease e cwd c cfg m site release) s (λ o s', crashed (world s') ∧ ∀ r, o = Some r → ∃ n,
    r = Ok (kept (clock e n)) ∧ journals (world s') = ∅ ∧ shaped (clock e n) (Some (DirTree new)) (Some (DirTree old)) None (world s')).
Proof.
  intros Hrr Hrel Hrand HJ Hw. unfold activatePipelineRelease. eapply holds_rok; [by apply quiet_ctx|]. intros c1.
  assert (∃ id, id ≠ "" ∧ reads (newReleaseActivationJournal e (recovery_root cfg) site release) (at_call s c1)
    (eq (Ok (journal_file id, journal_of id "" "prepared")))) as (id & Hid & Hnew).
  { set (id := match rand e (S c1) with Some id => id | None => Itoa (clock e (S c1)) end). exists id. split.
    - unfold id. destruct (rand e (S c1)) as [i|] eqn:E; [intros ->; by apply (Hrand (S c1))|].
      apply Itoa_digits, (fc_range _ _ _ _ Hc).
    - unfold newReleaseActivationJournal. rewrite !bool_decide_false by (done || apply site_safe). cbn [orb].
      exists (Ok (journal_file id, journal_of id "" "prepared")), (S (S (S c1))). split; [|done].
      unfold rbind, wrap, bind, attempt, bind, call, ret, ok, newRequestID. cbn [at_call world calls left]. by rewrite !Hq. }
  eapply holds_rok; [exact Hnew|]. intros c2. unfold rbind at 1. apply holds_bind, holds_wrap, quiet_persist.
  { intros c3 l. split; [|done]. apply crash_idle; cbn; by rewrite Hw. }
  intros c3 l. set (w1 := put_journal _ _ _).
  assert (ents w1 = ents w0 ∧ parents w1 = parents w0 ∧ journals w1 = only id "" "prepared") as (He1 & Hp1 & Hj1).
  { subst w1. cbn. rewrite Hw. split_and!; [done..|]. by rewrite HJ. }
  eapply holds_read; [by apply quiet_attempt|]. intros ? c4 <-. apply holds_bind, (quiet_activate _ (mkSt w1 c4 l)); [done|done|..].
  { intros w cc ll n Hj Hs. split; [|done]. apply (crash_prepared _ id n); [done|exact (eq_trans Hj Hj1)|]. destruct Hs; [by apply stuck_before|by apply stuck_aside]. }
  intros w2 c5 l5 n Hj2 H2. cbn [world] in Hj2. apply holds_bind. unfold markActivated. apply quiet_persist.
  { intros c6 l6. split; [|done]. apply (crash_prepared _ id n); [done|exact (eq_trans Hj2 Hj1)|by apply stuck_after]. }
  intros c6 l6. set (w3 := put_journal _ _ _). assert (journals w3 = only id (kept (clock e n)) "activated") as Hj3.
  { subst w3. cbn. rewrite Hj2, Hj1. apply insert_singleton_eq. }
  eapply holds_read; [by apply quiet_attempt|]. intros ? c7 <-. unfold rbind at 1. apply holds_bind, holds_wrap.
  unfold markCommitted. apply quiet_persist.
  { intros c8 l8. split; [|done]. by apply (crash_activated _ id n). }
  intros c8 l8. set (w4 := put_journal _ _ _). assert (journals w4 = only id (kept (clock e n)) "committed") as Hj4.
  { subst w4. cbn [put_journal journals world at_call]. rewrite Hj3. apply insert_singleton_eq. }
  unfold rbind. apply holds_bind, quiet_cleanup.
  { intros c9 l9. split; [|done]. by apply (crash_committed _ id n). }
  intros c9 l9 _. apply holds_ret. assert (journals (del_journal (journal_file id) w4) = ∅) as Hj5.
  { cbn [del_journal journals]. rewrite Hj4. apply delete_singleton_eq. }
  split; [by apply (crash_finished _ n)|]. intros r [= <-]. by exists n.
Qed.

(** *** Recovery *)
Context (e2 : Env) (cfg : Config) (Hq2 : quiet e2) (Hcfg : clean_config cfg) (Hm : newSiteManagerForConfig cwd cfg = Ok m) (Hrec : RecoveryRoot cfg ≠ "").

(** The directory entries that may be a preserved release. *)
Definition preserved (w : World) (name : string) : Prop :=
  info w (Join [container loc; name]) = Some IsDir ∧ has_prefix name (previousPrefix loc) = true.
Lemma quiet_pick entries previous s : no_links (world s) →
  (∀ x, x ∈ entries → plainb x = true) → previous = "" ∨ (∃ q, plainb q = true ∧ previous = Join [container loc; q]) →
  reads (pick_previous e2 cwd (container loc) (previousPrefix loc) entries previous) s (λ r, ∃ p, r = Ok p ∧
    (p = previous ∨ ∃ q, q ∈ entries ∧ plainb q = true ∧ preserved (world s) q ∧ p = Join [container loc; q]) ∧
    (previous ≠ "" → p ≠ "" ∧ String.le (Base previous) (Base p)) ∧
    ∀ x, x ∈ entries → preserved (world s) x → p ≠ "" ∧ String.le x (Base p)).
Proof.
  intros Hl. pose proof (container_clean m site Hwp) as Hcc. fold loc in Hcc. revert previous s Hl.
  induction entries as [|name rest IH]; intros previous s Hl Hpl Hprev; cbn [pick_previous].
  { apply reads_ret. exists previous. split_and!; [done|by left|by intros|]. intros x Hx. by apply not_elem_of_nil in Hx. }
  eapply reads_bind; [apply reads_look|]. intros ? c <-. cbn [world at_call].
  assert (plainb name = true) as Hn by (apply Hpl, elem_of_cons; by left).
  destruct (negb _ || negb _) eqn:Ec.
  - eapply reads_mono; [|apply (IH previous (at_call s c)); [done| |done]; intros x Hx; apply Hpl, elem_of_cons; by right].
    intros r (p & -> & H1 & H2 & H3). exists p. split_and!; [done| |done|].
    + destruct H1 as [H1|(q & Hq1 & H1)]; [by left|right]. exists q. split; [apply elem_of_cons; by right|done].
    + intros x [->|Hx]%elem_of_cons Hp; [|by apply H3]. exfalso. destruct Hp as [Hi Hf]. unfold preserved in *.
      by rewrite Hi, Hf in Ec.
  - apply orb_false_iff in Ec as [Ei%negb_false_iff%bool_decide_eq_true Ef%negb_false_iff].
    eapply reads_rok; [apply quiet_SafePath; [done|done|cbn [forallb]; by rewrite Hn|done..]|]. intros c1.
    change (joined (container loc) [name]) with (Join [container loc; name]).
    pose proof (clean_nonempty _ (clean_Join _ _ Hcc Hn)) as Hne.
    set (next := if bool_decide (previous = "") || bool_decide (¬ String.le name (Base previous)) then Join [container loc; name] else previous).
    assert (next = "" ∨ ∃ q, plainb q = true ∧ next = Join [container loc; q]) as Hnext.
    { unfold next. case_match; [right; eauto|]. destruct Hprev as [->|Hp]; [done|by right]. }
    assert (next ≠ "" ∧ String.le name (Base next) ∧ (previous ≠ "" → String.le (Base previous) (Base next)) ∧
      (next = previous ∨ next = Join [container loc; name])) as (Hx1 & Hx2 & Hx3 & Hx4).
    { unfold next. destruct (bool_decide (previous = "")) eqn:E1; cbn [orb].
      - rewrite Base_Join by done. apply bool_decide_eq_true in E1. split_and!; [done|reflexivity|done|by right].
      - apply bool_decide_eq_false in E1. destruct (decide (String.le name (Base previous))) as [E3|E3].
        + rewrite bool_decide_false by tauto. split_and!; [done|done|reflexivity|by left].
        + rewrite bool_decide_true by done. rewrite Base_Join by done. split_and!; [done|reflexivity| |by right].
          intros _. by destruct (total String.le name (Base previous)). }
    eapply reads_mono; [|apply (IH next (at_call (at_call s c) c1)); [done| |done]; intros x Hx; apply Hpl, elem_of_cons; by right].
    intros r (p & -> & H1 & H2 & H3). destruct (H2 Hx1) as [Hp1 Hp2]. exists p. split_and!; [done| | |].
    + destruct H1 as [->|(q & Hq1 & H1)].
      * destruct Hx4 as [->| ->]; [by left|right]. exists name. split_and!; [apply elem_of_cons; by left|done|by split|done].
      * right. exists q. split; [apply elem_of_cons; by right|done].
    + intros Hpr. split; [done|]. etrans; [by apply Hx3|done].
    + intros x [->|Hx]%elem_of_cons Hp; [|by apply H3]. split; [done|]. by etrans.
Qed.

Lemma names_container w x t D P S : shaped t D P S w → 0 ≤ t < 10 ^ 20 → x ∈ names_of w (container loc) →
  is_Some (ents w !! (container loc, x)) ∧ plainb x = true.
Proof.
  intros H Ht Hx. assert (is_Some (ents w !! (container loc, x))) as Hs.
  { unfold names_of in Hx. rewrite merge_sort_Permutation, elem_of_elements, elem_of_union in Hx. destruct Hx as [Hx|Hx].
    - apply elem_of_map in Hx as ([d n] & -> & [E Hd]%elem_of_filter). cbn in E. subst d. by apply elem_of_dom in Hd.
    - apply elem_of_map in Hx as (p & -> & [E Hd]%elem_of_filter). destruct H as [_ Hp]. rewrite Hp in Hd.
      by destruct (rd_flat _ _ _ _ _ _ Hr p Hd). }
  split; [done|]. rewrite (lookup_shaped _ _ _ _ _ _ H) in Hs. case_decide as E1; [injection E1 as ->; by apply docName_spec|].
  case_decide as E2; [injection E2 as ->; by apply kept_plain|]. case_decide as E3.
  - injection E3 as E3 _. by destruct (container_not_stage m site Hwp).
  - by apply (rd_plain _ _ _ _ _ _ Hr).
Qed.

Lemma quiet_find n t D P S s : t = clock e n → shaped t D P S (world s) → no_links (world s) →
  reads (findPreviousRelease e2 cwd cfg site) s (λ r, ∃ p, r = Ok p ∧ (P = Some (DirTree old) → p = kept t)).
Proof.
  intros -> H Hl. pose proof (fc_range _ _ _ _ Hc n) as Ht. pose proof (container_clean m site Hwp) as Hcc. fold loc in Hcc.
  unfold findPreviousRelease. rewrite bool_decide_false by apply site_safe.
  unfold rbind at 1. eapply reads_bind; [by apply (quiet_siteLocationFor e2 cwd cfg m)|].
  intros r c (l & -> & Eh & _ & Ep & _). rewrite Eh, Ep. fold loc.
  eapply reads_rok; [by apply quiet_ReadDir|]. intros c1. cbn [world at_call].
  rewrite decide_True by (destruct H as [_ ->]; apply (rd_home _ _ _ _ _ _ Hr)). cbn [default].
  eapply reads_mono; [|apply (quiet_pick _ "" (at_call (at_call s c) c1)); [done| |by left]; intros x Hx; by eapply names_container].
  intros r (p & -> & H1 & _ & H3). cbn [world at_call] in *. exists p. split; [done|]. intros ->.
  pose proof (shaped_kept _ _ _ _ _ H) as Hk.
  assert (preserved (world s) (kept_name m site (clock e n))) as Hpk.
  { split; [|by apply kept_prefix]. change (Join [container loc; kept_name m site (clock e n)]) with (kept (clock e n)). rewrite (flat_info _ _ (Some (DirTree old))); [done|apply H|left; by apply kept_dir|by rewrite key_kept]. }
  destruct (H3 (kept_name m site (clock e n))) as [Hne Hle]; [by eapply elem_of_names_of|done|].
  destruct H1 as [->|(q & Hin & Hqp & [Hq3 Hq4] & ->)]; [done|]. rewrite Base_Join in Hle by done.
  assert (q = kept_name m site (clock e n)) as ->; [|done]. apply (anti_symm String.le); [|done].
  destruct (names_container _ _ _ _ _ _ H Ht Hin) as [Hs _]. rewrite (lookup_shaped _ _ _ _ _ _ H) in Hs.
  case_decide as E1.
  { exfalso. injection E1 as ->. apply (has_prefix_trans _ _ previous_) in Hq4; [|by apply prefix_spec].
    destruct (docName_spec m site Hwp) as [_ Hh]. fold loc in Hh. apply has_prefix_iff in Hq4 as [r Er]. rewrite Er in Hh. by apply Hh. }
  case_decide as E2; [by injection E2 as ->|]. case_decide as E3; [injection E3 as E3 _; by destruct (container_not_stage m site Hwp)|].
  by destruct (fc_newest _ _ _ _ Hc n q Hs Hq4).
Qed.

Lemma quiet_stageExists t D P S s : shaped t D P S (world s) → no_links (world s) →
  reads (releaseStageExists e2 cwd cfg site release) s (eq (Ok (bool_decide (S ≠ None)))).
Proof.
  intros H Hl. unfold releaseStageExists. unfold rbind at 1. eapply reads_bind; [by apply (quiet_siteLocationFor e2 cwd cfg m)|].
  intros r c (l & -> & Eh & _ & _ & Epl). rewrite (Abs_abs cwd release) by apply release_clean.
  assert (Dir release = stageRoot loc ∧ Base release = sn) as [-> ->].
  { unfold release. rewrite Dir_Join, Base_Join by (apply sn_plain || by apply stageRoot_clean). done. }
  assert (reads (if Placed l then ok (SiteLayout.StagingRoot (HomeRoot cfg)) else SafePath e2 cwd (WebRoot cfg) ["sites"; staging]) (at_call s c)
    (eq (Ok (stageRoot loc)))) as Hroot.
  { destruct (manager_of_config cwd cfg m Hcfg Hm) as (Ew & Edb & Eho). rewrite Epl. unfold loc, lexical.
    destruct (placement_of (placements m) site) as [p|] eqn:E; cbn [placed stageRoot].
    - destruct (wp_placement _ _ Hwp p E) as [_ Hh]. rewrite bool_decide_false by (by apply clean_nonempty).
      rewrite Eho; [by apply reads_ret|]. rewrite <- Edb. destruct (placements m); [by eexists|done].
    - rewrite Ew. apply quiet_SafePath; [done|apply Hcfg|done..]. }
  eapply reads_bind; [exact Hroot|]. intros ? c1 <-. rewrite (bool_decide_true (stageRoot loc = stageRoot loc)), (rd_stage_name _ _ _ _ _ _ Hr) by done.
  cbn [andb negb]. rewrite andb_false_r. eapply reads_rok; [by apply quiet_Lstat|]. intros c2. cbn [world at_call]. apply reads_ret. f_equal.
  rewrite (flat_info _ _ S); [by destruct S|apply H| |rewrite <- (shaped_stage _ _ _ _ _ H); f_equal; apply key_stage].
  right. unfold release. apply Dir_Join; [by apply stageRoot_clean|apply sn_plain].
Qed.

(** Restoring the kept release. *)
Lemma quiet_rollback n t D S s Q : t = clock e n → (D = None ∨ D = Some (DirTree new)) → S = None ∨ S = Some (DirTree new) →
  shaped t D (Some (DirTree old)) S (world s) → alive s →
  (∀ w cc, shaped t (Some (DirTree old)) None S w → journals w = journals (world s) → Q (Some (Ok tt)) (mkSt w cc None)) →
  holds (RollbackStagedActivation e2 cwd Background m site (kept t)) s Q.
Proof.
  intros -> HD HS H Ha HQ. pose proof (fc_range _ _ _ _ Hc n) as Ht.
  assert (no_links (world s)) as Hl by (eapply shaped_no_links; [exact H|by destruct HD as [-> | ->]|done|by destruct HS as [-> | ->]]).
  unfold RollbackStagedActivation. eapply holds_rok; [by apply quiet_locate|]. intros c1. fold loc.
  eapply holds_rok; [by apply quiet_ctx|]. intros c2. eapply holds_rok; [by apply reads_wrap_ok, quiet_Lstat|]. intros c3. cbn [world at_call].
  rewrite (doc_info _ _ _ _ _ H).
  assert (∀ (k : M (res unit)), (∀ w cc, shaped (clock e n) None (Some (DirTree old)) S w → journals w = journals (world s) → holds k (mkSt w cc None) Q) →
    holds (rbind match node_info <$> D with None => ok tt | Some IsDir => wrap "remove failed activation" (RemoveAll e2 (docRoot loc))
      | Some _ => throw "refuse to remove non-directory activation" end (λ _, k)) (at_call (at_call (at_call s c1) c2) c3) Q) as Hrm.
  { intros k Hk. destruct HD as [-> | ->]; cbn [fmap option_fmap option_map node_info].
    - unfold rbind. apply holds_bind, holds_ret. unfold at_call, alive in *. cbn [world left]. rewrite Ha. by apply Hk.
    - unfold rbind. apply holds_bind, holds_wrap, (alive_RemoveAll _ _ _ (DirTree new)); [done|done|by rewrite key_doc; apply (shaped_doc _ _ _ _ _ H)|].
      intros cc. apply Hk; [|done]. destruct H as [He Hp]. split; cbn; [|done]. rewrite key_doc, He.
      apply places_del; [apply kd_kp|apply kd_ks|apply kp_ks]. }
  apply Hrm. intros w cc Hw Hj. assert (clean_abs (kept (clock e n))) as Hk by (apply clean_Join; [by apply container_clean|by apply kept_plain]).
  assert (no_links w) as Hlw by (eapply shaped_no_links; [exact Hw|done|done|by destruct HS as [-> | ->]]).
  rewrite bool_decide_false by (by apply clean_nonempty). rewrite Abs_abs, kept_dir by done.
  assert (Base (kept (clock e n)) = kept_name m site (clock e n)) as ->.
  { unfold kept. by rewrite Base_Join by (by apply container_clean || by apply kept_plain). }
  rewrite bool_decide_true by done. destruct (kept_prefix m site Hwp (clock e n)) as [Hpre _]. fold loc in Hpre. rewrite Hpre. cbn [negb orb].
  eapply holds_rok; [apply quiet_SafePath; [done|by apply container_clean|cbn [forallb]; by rewrite (kept_plain m site Hwp)|done|done]|]. intros c4.
  change (joined (container loc) [kept_name m site (clock e n)]) with (kept (clock e n)).
  unfold rbind. apply holds_bind, holds_wrap, alive_Rename; [done|done|by eapply can_restore|]. intros c5. cbn [world at_call].
  destruct (move_restore _ _ _ _ Ht Hw) as [H2 Hj2].
  apply holds_wrap. unfold syncDir. destruct (quiet_attempt e2 Hq2 (mkSt (move (kept (clock e n)) (docRoot loc) w) c5 None)) as (r & c6 & E & <-).
  unfold holds. rewrite E. cbn [fst snd]. apply HQ; [exact H2|exact (eq_trans Hj2 Hj)].
Qed.

(** Discarding the stage touches only the staging directory. *)
Definition same_home (w w' : World) : Prop := ∀ x, ents w' !! (container loc, x) = ents w !! (container loc, x).
Lemma stage_key_ne (x y : string) : (container loc, x) ≠ (stageRoot loc, y).
Proof. intros [= E _]. by apply (container_not_stage m site Hwp). Qed.
Lemma same_home_del p y w : key p = (stageRoot loc, y) → same_home w (del_ent p w).
Proof. intros E x. unfold del_ent. cbn. rewrite E. apply lookup_delete_ne. intros E'. by apply (stage_key_ne x y). Qed.
Lemma same_home_set p y nd w : key p = (stageRoot loc, y) → same_home w (set_ent p nd w).
Proof. intros E x. unfold set_ent. cbn. rewrite E. apply lookup_insert_ne. intros E'. by apply (stage_key_ne x y). Qed.

(** The lock files of the stage are files. *)
Definition files_ok (w : World) : Prop :=
  ∀ x t, x = stageCoordinationLock ∨ x = stageOwnerLockPrefix +:+ sn → ents w !! (stageRoot loc, x) ≠ Some (DirTree t).
Lemma quiet_discard t s Q : shaped t (Some (DirTree old)) None (Some (DirTree new)) (world s) → alive s →
  (∀ w cc, same_home (world s) w → journals w = journals (world s) → Q (Some (Ok tt)) (mkSt w cc None)) →
  holds (DiscardReleaseStaging e2 cwd Background m site release) s Q.
Proof.
  intros H Ha HQ. assert (no_links (world s)) as Hl by (by eapply shaped_no_links).
  pose proof (stageRoot_clean m site Hwp) as Hsr. fold loc in Hsr. pose proof sn_plain as Hsp.
  unfold DiscardReleaseStaging. eapply holds_rok; [by apply quiet_ctx|]. intros c1.
  eapply holds_rok; [apply quiet_resolveStagedRoot; try done; [apply (rd_component _ _ _ _ _ _ Hr)|by apply container_not_stage]|].
  intros c2. fold loc. cbv beta iota. rewrite bool_decide_false by (by apply clean_nonempty). rewrite sn_release. cbn [negb orb].
  eapply holds_rok; [apply quiet_isStageRoot; try done; by apply (manager_home cwd cfg)|]. intros c3. rewrite (rd_stage_name _ _ _ _ _ _ Hr). cbn [negb andb].
  eapply holds_rok; [apply quiet_SafePath; [done|done|cbn [forallb]; by rewrite Hsp|done|done]|]. intros c4.
  change (joined (stageRoot loc) [sn]) with release.
  eapply holds_rok; [by apply reads_wrap_ok, quiet_Lstat|]. intros c5. cbn [world at_call].
  rewrite (flat_info _ _ (Some (DirTree new))); [|apply H| |rewrite <- (shaped_stage _ _ _ _ _ H); f_equal; apply key_stage].
  2:{ right. unfold release. apply Dir_Join; done. }
  cbn [fmap option_fmap option_map node_info]. unfold rbind at 1. apply holds_bind, holds_wrap, (alive_RemoveAll _ _ _ (DirTree new)); [done|done| |].
  { cbn [world at_call]. rewrite <- (shaped_stage _ _ _ _ _ H). f_equal. apply key_stage. }
  intros c6. cbn [world at_call]. set (w1 := del_ent release (world s)).
  assert (same_home (world s) w1) as H1 by apply (same_home_del release sn), key_stage.
  set (lock := Join [stageRoot loc; stageCoordinationLock]). assert (key lock = (stageRoot loc, stageCoordinationLock)) as Hlk by (by apply key_Join).
  set (lease := stageOwnerLockPath release).
  assert (key lease = (stageRoot loc, stageOwnerLockPrefix +:+ sn)) as Hle.
  { unfold lease, stageOwnerLockPath. unfold release at 1 2. rewrite Dir_Join, Base_Join by done. apply key_Join; [done|].
    apply hidden_plain; [apply has_prefix_iff; exists ("stage-owner-" +:+ sn); by apply (inj bytes_of)|].
    apply bool_decide_eq_true in Hsp as (_ & _ & _ & Hs). rewrite bytes_of_app, not_elem_of_app. split; [|done].
    apply (bool_decide_eq_true_1 _). by vm_compute. }
  assert (files_ok w1) as F1.
  { intros x t' Hx. unfold w1, del_ent. cbn. intros E. apply lookup_delete_Some in E as [E1 E2].
    rewrite (lookup_shaped _ _ _ _ _ _ H) in E2. rewrite decide_False in E2 by (intros E; by destruct (stage_key_ne (docName loc) x)).
    rewrite decide_False in E2 by (intros E; by destruct (stage_key_ne (kept_name m site t) x)).
    case_decide as E3; [by rewrite key_stage, E3 in E1|]. by destruct (rd_files _ _ _ _ _ _ Hr x t' Hx). }
  assert (∀ w cc, same_home (world s) w → files_ok w → journals w = journals (world s) →
    holds (wrap "remove release staging lease" (RemoveFile e2 lease)) (mkSt w cc None) Q) as Hend.
  { intros w cc Hw Hf Hj. apply holds_wrap, alive_RemoveFile; [done|done|intros t'; rewrite Hle; by apply Hf; right|]. intros c7. apply HQ; [|done].
    intros x. rewrite <- Hw. by apply (same_home_del lease (stageOwnerLockPrefix +:+ sn)). }
  apply holds_bind. unfold wrap at 1. apply holds_bind. unfold acquireManagerStageCoordination.
  eapply holds_rok; [by apply quiet_attempt|]. intros c7. eapply holds_read; [apply reads_look|]. intros ? c8 <-. cbn [world at_call].
  rewrite bool_decide_true by (destruct H as [_ Hp]; cbn; rewrite Hp; apply (rd_staging _ _ _ _ _ _ Hr)). cbn [negb]. fold lock.
  assert (∀ w cc, same_home (world s) w → files_ok w → journals w = journals (world s) → holds (attempt e2) (mkSt w cc None)
    (λ o s', match o with Some a => holds (ret match a with Ok a0 => Ok a0 | Err err => Err (EWrap "coordinate release discard" err) end) s'
       (λ oa s'0, match oa with Some a0 => holds match a0 with Ok _ => wrap "remove release staging lease" (RemoveFile e2 lease) | Err err => ret (Err err) end s'0 Q
         | None => Q None s'0 end) | None => Q None s' end)) as Hco.
  { intros w cc Hw Hf Hj. destruct (quiet_attempt e2 Hq2 (mkSt w cc None)) as (r & c9 & E & <-). unfold holds at 1. rewrite E. cbn [fst snd].
    apply holds_ret. by apply Hend. }
  destruct (ents w1 !! key lock) as [[t'| |b]|] eqn:El.
  - exfalso. rewrite Hlk in El. by apply (F1 stageCoordinationLock t'); [left|].
  - unfold rbind at 1. apply holds_bind, holds_ret. by apply Hco.
  - unfold rbind at 1. apply holds_bind, holds_ret. by apply Hco.
  - unfold rbind at 1. apply holds_bind, holds_bind, alive_effect; [done|]. intros c9. apply holds_ret. apply Hco; [| |done].
    + intros x. cbn [world at_call]. rewrite <- H1. by apply (same_home_set lock stageCoordinationLock).
    + intros x t' Hx. unfold set_ent. cbn. rewrite lookup_insert. case_decide; [done|]. by apply F1.
Qed.

(** *** Recovering *)
Lemma shaped_restored t S w : (∃ n, t = clock e n) → shaped t (Some (DirTree old)) None S w → same_home w0 w.
Proof.
  intros [n ->] H x. rewrite (lookup_shaped _ _ _ _ _ _ H). case_decide as E1; [rewrite E1; symmetry; apply (rd_old _ _ _ _ _ _ Hr)|].
  case_decide as E2; [rewrite E2; symmetry; apply kept_free|]. case_decide as E3; [|done]. by destruct (stage_key_ne x sn).
Qed.

(** One prepared journal. *)
Lemma quiet_prepared id n s Q : stuck (clock e n) (world s) → alive s →
  (∀ w cc, same_home w0 w → journals w = journals (world s) → Q (Some (Ok tt)) (mkSt w cc None)) →
  holds (recover_prepared e2 cwd cfg m (journal_of id "" "prepared")) s Q.
Proof.
  intros H Ha HQ. unfold recover_prepared. cbn [JSite StagedRoot journal_of].
  assert (∃ D P S, shaped (clock e n) D P S (world s) ∧ no_links (world s) ∧ ((D = Some (DirTree old) ∧ P = None ∧ S = Some (DirTree new)) ∨
    (P = Some (DirTree old) ∧ ((D = None ∧ S = Some (DirTree new)) ∨ (D = Some (DirTree new) ∧ S = None))))) as (D & P & S & Hs & Hl & Hcase).
  { destruct H as [H|H|H]; eexists _, _, _; (split; [exact H|]); (split; [by eapply shaped_no_links|]); naive_solver. }
  unfold siteDocRoot. unfold rbind at 1. eapply holds_read.
  { eapply (reads_wrap_ok _ _ _ (docRoot loc)). unfold rbind. eapply reads_bind; [by apply (quiet_siteLocationFor e2 cwd cfg m)|].
    intros r c (l & -> & _ & Ed & _). apply reads_ret. by rewrite Ed. }
  intros ? c1 <-. eapply holds_rok; [by eapply reads_wrap_ok, quiet_stageExists|]. intros c2.
  eapply holds_read; [by apply quiet_Lstat|]. intros ? c3 <-. cbn [world at_call]. rewrite (doc_info _ _ _ _ _ Hs).
  unfold rbind at 1. eapply holds_read.
  { unfold wrap. eapply reads_bind; [by eapply (quiet_find n)|]. intros r c (p & -> & Hp). eapply (reads_ret _ _ (λ r, ∃ p, r = Ok p ∧ (P = Some (DirTree old) → p = kept (clock e n)))). eauto. }
  intros r c4 (previous & -> & Hprev). destruct Hcase as [(-> & -> & ->)|(-> & [(-> & ->)|(-> & ->)])]; cbn.
  - apply holds_wrap, (quiet_discard (clock e n)); [done|done|]. intros w cc Hw Hj. apply HQ; [|done].
    intros x. rewrite Hw. by apply (shaped_restored (clock e n) (Some (DirTree new))); [eauto|].
  - rewrite (Hprev eq_refl). rewrite bool_decide_false by (apply clean_nonempty, clean_Join; [by apply container_clean|apply kept_plain; [done|apply (fc_range _ _ _ _ Hc)]]).
    cbn [negb]. unfold rbind. apply holds_bind, holds_wrap, (quiet_rollback n (clock e n) None (Some (DirTree new))); [done|by left|by right|done|done|].
    intros w cc Hw Hj. apply holds_wrap, (quiet_discard (clock e n)); [done|done|]. intros w' cc' Hw' Hj'. apply HQ; [|exact (eq_trans Hj' Hj)].
    intros x. rewrite Hw'. by apply (shaped_restored (clock e n) (Some (DirTree new))); [eauto|].
  - rewrite (Hprev eq_refl). rewrite bool_decide_false by (apply clean_nonempty, clean_Join; [by apply container_clean|apply kept_plain; [done|apply (fc_range _ _ _ _ Hc)]]).
    cbn [negb]. apply holds_wrap, (quiet_rollback n (clock e n) (Some (DirTree new)) None); [done|by right|by left|done|done|].
    intros w cc Hw Hj. apply HQ; [|done]. by apply (shaped_restored (clock e n) None); [eauto|].
Qed.

Lemma alive_cleanup f s Q : alive s → (∀ c, Q (Some (Ok tt)) (mkSt (del_journal f (world s)) c None)) → holds (cleanup e2 f) s Q.
Proof.
  intros Ha HQ. unfold cleanup. apply holds_wrap. eapply holds_rok; [by apply quiet_attempt|]. intros c. apply holds_bind, alive_effect; [done|]. intros c1.
  destruct (quiet_attempt e2 Hq2 (mkSt (del_journal f (world s)) c1 None)) as (r & c2 & E & <-). unfold holds. cbn [world at_call]. rewrite E. apply HQ.
Qed.

(** The document root and the kept release after a completed swap. *)
Definition switched (w : World) : Prop := ∃ n, shaped (clock e n) (Some (DirTree new)) (Some (DirTree old)) None w.

Lemma recover_only id previous state s (R : World → Prop) : id ≠ "" → alive s →
  journals (world s) = only id previous state →
  (∀ Q cc, (∀ w c2, R w → journals w = journals (world s) → Q (Some (Ok tt)) (mkSt w c2 None)) →
    holds (if bool_decide (state = "prepared") then recover_prepared e2 cwd cfg m (journal_of id previous state)
      else if bool_decide (state = "activated") then wrap "rollback release activation" (RollbackStagedActivation e2 cwd Background m site previous)
      else if bool_decide (state = "committed") then ok tt else throw "release activation journal has unknown state") (mkSt (world s) cc None) Q) →
  (∀ w w', ents w' = ents w → parents w' = parents w → R w → R w') →
  holds (recoverReleaseActivationJournals e2 cwd cfg) s (λ o s', o = Some ([id], None) ∧ journals (world s') = ∅ ∧ R (world s')).
Proof.
  intros Hid Ha Hj Hbody HR. unfold recoverReleaseActivationJournals, recoverReleaseActivationJournalsFor. rewrite bool_decide_false by done.
  eapply holds_read; [by apply quiet_attempt|]. intros ? c1 <-. eapply holds_read; [apply reads_look|]. intros ? c2 <-. rewrite Hm.
  cbn [world at_call]. unfold journal_names. rewrite Hj. unfold only. rewrite dom_singleton_L, elements_singleton. cbn [merge_sort].
  change (merge_sort String.le [journal_file id]) with [journal_file id]. cbn [recover_all].
  assert (journal_name (journal_file id) = true) as Hjn.
  { unfold journal_name, journal_file. apply andb_true_iff. split; [apply has_prefix_iff; eauto|].
    unfold has_suffix. rewrite !bytes_of_app, !reverse_app. destruct (strip_prefix _ _) eqn:E; [done|exfalso].
    assert (strip_prefix (reverse (bytes_of ".json")) ((reverse (bytes_of ".json") ++ reverse (bytes_of id)) ++ reverse (bytes_of "release-activation-")) =
      Some (reverse (bytes_of id) ++ reverse (bytes_of "release-activation-"))) as E2; [apply strip_prefix_Some; by rewrite <- app_assoc|]. by rewrite E2 in E. }
  rewrite Hjn. cbn [negb]. eapply holds_read; [by apply quiet_attempt|]. intros ? c3 <-. eapply holds_read; [apply reads_look|]. intros ? c4 <-.
  cbn [world at_call]. rewrite Hj. unfold only. rewrite lookup_singleton_eq. rewrite (bool_decide_true ("" = "")) by done. cbn [negb andb].
  apply holds_bind. unfold recover_journal. cbn [Version ID JSite StagedRoot State Previous journal_of].
  rewrite (bool_decide_false (id = "")), (bool_decide_false (safeUser site = "")) by (done || apply site_safe).
  rewrite (bool_decide_false (release = "")) by apply clean_nonempty, release_clean. cbn [negb orb Z.eqb Pos.eqb releaseActivationJournalVersion].
  unfold rbind at 1. apply holds_bind. unfold at_call. cbn [world left]. unfold alive in Ha. rewrite Ha. apply Hbody. intros w c5 Hw Hjw.
  apply alive_cleanup; [done|]. intros c6. apply holds_ret. cbn [world del_journal journals app ID journal_of].
  split_and!; [done| |by eapply HR; [..|exact Hw]]. rewrite Hjw, Hj. apply delete_singleton_eq.
Qed.

Lemma same_home_files w w' : ents w' = ents w → same_home w0 w → same_home w0 w'.
Proof. intros E H x. rewrite E. apply H. Qed.
Lemma switched_files w w' : ents w' = ents w → parents w' = parents w → switched w → switched w'.
Proof. intros E1 E2 [n [H1 H2]]. exists n. split; congruence. Qed.

Lemma recover_none s : journals (world s) = ∅ →
  holds (recoverReleaseActivationJournals e2 cwd cfg) s (λ o s', o = Some ([], None) ∧ world s' = world s).
Proof.
  intros Hj. unfold recoverReleaseActivationJournals, recoverReleaseActivationJournalsFor. rewrite bool_decide_false by done.
  eapply holds_read; [by apply quiet_attempt|]. intros ? c1 <-. eapply holds_read; [apply reads_look|]. intros ? c2 <-. rewrite Hm.
  unfold journal_names. cbn [world at_call]. rewrite Hj, dom_empty_L, elements_empty. by apply holds_ret.
Qed.

Lemma recover_crashed s : crashed (world s) → alive s →
  holds (recoverReleaseActivationJournals e2 cwd cfg) s (λ o s', (∃ ids, o = Some (ids, None)) ∧ journals (world s') = ∅ ∧
    (same_home w0 (world s') ∨ switched (world s'))).
Proof.
  intros H Ha.
  destruct H as [He Hp Hj|id n Hid Hj H|id n Hid Hj H|id n Hid Hj H|n Hj H].
  - eapply holds_mono; [|by apply recover_none]. intros o s' [-> Ew]. rewrite Ew. split_and!; [eauto|done|]. left. by apply (same_home_files w0).
  - eapply holds_mono; [|apply (recover_only id "" "prepared" s (same_home w0)); [done|done|done| |by intros; eapply same_home_files]].
    + intros o s' (-> & H1 & H2). split_and!; eauto.
    + intros Q cc HQ. rewrite bool_decide_true by done. by apply (quiet_prepared id n (mkSt (world s) cc None)).
  - eapply holds_mono; [|apply (recover_only id (kept (clock e n)) "activated" s (same_home w0)); [done|done|done| |by intros; eapply same_home_files]].
    + intros o s' (-> & H1 & H2). split_and!; eauto.
    + intros Q cc HQ. rewrite bool_decide_false, bool_decide_true by done. apply holds_wrap.
      apply (quiet_rollback n (clock e n) (Some (DirTree new)) None); [done|by right|by left|done|done|].
      intros w c2 Hw Hjw. apply HQ; [|done]. by apply (shaped_restored (clock e n) None); [eauto|].
  - eapply holds_mono; [|apply (recover_only id (kept (clock e n)) "committed" s switched); [done|done|done| |by intros; eapply switched_files]].
    + intros o s' (-> & H1 & H2). split_and!; eauto.
    + intros Q cc HQ. rewrite !bool_decide_false, bool_decide_true by done. apply holds_ret, HQ; [by exists n|done].
  - eapply holds_mono; [|by apply recover_none]. intros o s' [-> Ew]. rewrite Ew. split_and!; [eauto|done|]. right. by exists n.
Qed.
End swap.

(** ** Retention *)

Section prune.
Context (e : Env) (cwd : string) (size : Tree → Z) (root prefix : string) (Hr : clean_abs root).

(** The candidate an entry gives. *)
Definition cand (w : World) (name : string) : option candidate :=
  match ents w !! (root, name) with
  | Some (DirTree t) => if has_prefix name prefix then Some (mkCandidate (Join [root; name]) (modified t)) else None
  | _ => None
  end.
Lemma reads_prune_items entries items s : Forall (λ y, plainb y = true) entries →
  reads (prune_items e cwd root prefix entries items) s (λ r, ∀ l, r = Ok l → l = items ++ omap (cand (world s)) entries).
Proof.
  intros Hpl. revert items s. induction Hpl as [|name rest Hn _ IH]; intros items s; cbn [prune_items omap list_omap].
  { apply reads_ret. intros l [= <-]. by rewrite app_nil_r. }
  eapply reads_bind; [apply reads_look|]. intros ? c <-. cbn [world at_call]. rewrite key_Join by done. unfold cand at 1.
  destruct (ents (world s) !! (root, name)) as [[t| |b]|]; try apply (IH items (at_call s c)).
  destruct (has_prefix name prefix) eqn:Hp; cbn [negb]; [|apply (IH items (at_call s c))].
  eapply (reads_rbind _ _ _ (λ _, True)); [by eapply reads_mono; [|apply reads_attempt]|done|]. intros _ c1 _.
  eapply reads_rbind; [apply reads_SafePath|done|]. intros p c2 ->. eapply reads_mono; [|apply IH]. intros r H l Hl. rewrite (H l Hl).
  by rewrite <- app_assoc.
Qed.

(** Removing touches only its items. *)
Lemma prune_remove_frame items s k : (∀ c, c ∈ items → key (path c) ≠ k) →
  holds (prune_remove e items) s (λ _ s', ents (world s') !! k = ents (world s) !! k).
Proof.
  revert s. induction items as [|c items IH]; intros s Hk; cbn [prune_remove]; [by apply holds_ret|].
  apply (holds_rread _ _ _ (λ _, True)); [apply reads_wrap; by eapply reads_mono; [|apply reads_attempt]|done|]. intros _ c1 _.
  assert (key (path c) ≠ k) as Hc by (apply Hk, elem_of_cons; by left).
  assert (∀ (o : option (res unit)) s', ents (world s') !! k = ents (world s) !! k → match o with Some (Ok _) => holds (prune_remove e items) s' (λ _ s'', ents (world s'') !! k = ents (world s) !! k)
    | Some (Err err) => holds (ret (@Err unit err)) s' (λ _ s'', ents (world s'') !! k = ents (world s) !! k) | None => ents (world s') !! k = ents (world s) !! k end) as Hnext.
  { intros [[u|err]|] s' Es; [|by apply holds_ret|done]. rewrite <- Es. apply IH. intros c' Hc'. apply Hk, elem_of_cons. by right. }
  unfold rbind at 1. apply holds_bind. destruct (ents (world s) !! key (path c)) as [n|] eqn:E.
  - apply (holds_RemoveAll e _ _ n); [done|..].
    + intros c2. by apply (Hnext None).
    + intros [[u|err]|] c2 l _; [apply (Hnext (Some (Ok u)))|apply (Hnext (Some (Err err)))|apply (Hnext None)]; cbn; by rewrite lookup_alter_ne.
    + intros c2 l. apply (Hnext (Some (Ok tt))). cbn. by rewrite lookup_delete_ne, lookup_alter_ne.
  - unfold RemoveAll. eapply holds_read; [apply reads_look|]. intros ? c2 <-. cbn [world at_call]. rewrite E, bool_decide_true by done.
    apply holds_ret. by apply (Hnext (Some (Ok tt))).
Qed.

Lemma keep_count_pos fuel items retain maxAge t keep : (1 ≤ keep)%nat → (1 ≤ keep_count fuel items retain maxAge t keep)%nat.
Proof.
  revert keep. induction fuel as [|f IH]; intros keep Hk; cbn [keep_count]; [done|]. destruct (items !! keep); [|done]. case_match; [apply IH; lia|done].
Qed.
Lemma trim_pos keep sizes total maxBytes : (1 ≤ keep)%nat → (1 ≤ trim keep sizes total maxBytes)%nat.
Proof.
  revert total. induction keep as [|keep IH]; intros total Hk; [done|]. cbn [trim]. destruct keep as [|keep]; [done|]. case_match; [apply IH; lia|lia].
Qed.
Lemma reads_sizes kept sizes total s : reads (sizes_of e size kept sizes total) s (λ _, True).
Proof.
  revert sizes total s. induction kept as [|c kept IH]; intros sizes total s; cbn [sizes_of]; [by apply reads_ret|].
  eapply (reads_rbind _ _ _ (λ _, True)); [by eapply reads_mono; [|apply reads_attempt]|done|]. intros _ c1 _.
  eapply reads_bind; [apply reads_look|]. intros ? c2 <-. cbv zeta. case_match; [by apply reads_ret|apply IH].
Qed.

#[local] Instance newer_trans : Transitive newer.
Proof. intros a b c. unfold newer. lia. Qed.
#[local] Instance newer_total : Total newer.
Proof. intros a b. unfold newer. lia. Qed.

Lemma cand_Some w name c : cand w name = Some c → ∃ t, ents w !! (root, name) = Some (DirTree t) ∧ has_prefix name prefix = true ∧
  c = mkCandidate (Join [root; name]) (modified t).
Proof. unfold cand. destruct (ents w !! (root, name)) as [[t| |]|]; try done. case_match; [|done]. intros [= <-]. eauto. Qed.

(** Everything but the preserved releases is untouched, and the newest survives. *)
Lemma prune_post retain maxAge maxBytes s : well_named (world s) →
  holds (pruneReleasesWithPrefix e cwd size root prefix retain maxAge maxBytes) s (λ _ s',
    (∀ d x, d ≠ root ∨ has_prefix x prefix = false → ents (world s') !! (d, x) = ents (world s) !! (d, x)) ∧
    ∀ x0 t0, ents (world s) !! (root, x0) = Some (DirTree t0) → has_prefix x0 prefix = true →
      ∃ x t, ents (world s) !! (root, x) = Some (DirTree t) ∧ has_prefix x prefix = true ∧ ents (world s') !! (root, x) = Some (DirTree t) ∧
        ∀ y t', ents (world s) !! (root, y) = Some (DirTree t') → has_prefix y prefix = true → modified t' ≤ modified t).
Proof.
  intros Hn. set (items := omap (cand (world s)) (names_of (world s) root)). set (sorted := merge_sort newer items).
  assert (Forall (λ y, plainb y = true) (names_of (world s) root)) as Hpl by (apply Forall_forall; intros y Hy; by eapply names_plain).
  assert (sorted ≡ₚ items) as Hperm by apply merge_sort_Permutation.
  assert (∀ c, c ∈ sorted ↔ ∃ x, x ∈ names_of (world s) root ∧ cand (world s) x = Some c) as Hin by (intros c; by rewrite Hperm; apply list_elem_of_omap).
  assert (NoDup (path <$> sorted)) as Hnd.
  { rewrite Hperm. unfold items. assert (NoDup (names_of (world s) root)) as Hd by (unfold names_of; rewrite merge_sort_Permutation; apply NoDup_elements).
    clear Hin Hperm. induction Hpl as [|name rest Hpn _ IH]; cbn [omap list_omap]; [constructor|]. apply NoDup_cons in Hd as [Hd1 Hd2].
    specialize (IH Hd2). destruct (cand (world s) name) as [c|] eqn:Ec; [|done]. rewrite fmap_cons. constructor; [|done].
    intros (c' & E & (x & Hx & Ex)%list_elem_of_omap)%list_elem_of_fmap. apply cand_Some in Ec as (t & _ & _ & ->), Ex as (t' & Hx' & _ & ->).
    cbn in E. apply Join_inj in E as [_ ->]; [done|done|done|done|]. by eapply (wn_ents _ Hn). }
  assert (holds (pruneReleasesWithPrefix e cwd size root prefix retain maxAge maxBytes) s (λ _ s',
    ∀ k, (∀ c, c ∈ drop 1 sorted → key (path c) ≠ k) → ents (world s') !! k = ents (world s) !! k)) as Hmain.
  { unfold pruneReleasesWithPrefix. case_match; [by apply holds_ret|]. eapply holds_rread; [apply reads_ReadDir|done|]. intros ? c1 ->.
    destruct (decide (root ∈ parents (world s))); [|by apply holds_ret]. eapply holds_rread; [by apply reads_prune_items|done|]. intros ? c2 ->.
    cbn [app world at_call]. fold items. fold sorted. case_match; [by apply holds_ret|]. eapply holds_read; [apply reads_now|]. intros t c3 _.
    assert (∀ keep s1, (1 ≤ keep)%nat → world s1 = world s → holds (prune_remove e (drop keep sorted)) s1 (λ _ s',
      ∀ k, (∀ c, c ∈ drop 1 sorted → key (path c) ≠ k) → ents (world s') !! k = ents (world s) !! k)) as Hrem.
    { intros keep s1 Hk E1 k Hun. rewrite <- E1. apply prune_remove_frame. intros c Hc. apply Hun.
      replace keep with (1 + (keep - 1))%nat in Hc by lia. rewrite <- drop_drop in Hc. by apply subseteq_drop in Hc. }
    assert (∀ keep, (1 ≤ keep)%nat → reads (if maxBytes <=? 0 then ok keep else
      let? (sizes, total) := sizes_of e size (take keep sorted) [] 0 in ok (trim keep sizes total maxBytes)) (at_call (at_call (at_call s c1) c2) c3)
      (λ r, ∀ k, r = Ok k → (1 ≤ k)%nat)) as Hkeep.
    { intros keep Hk. case_match; [apply reads_ret; by intros k [= <-]|].
      eapply (reads_rbind _ _ _ (λ _, True)); [by eapply reads_mono; [|apply reads_sizes]|done|]. intros [sizes total] c4 _. apply reads_ret.
      intros k [= <-]. by apply trim_pos. }
    eapply holds_rread; [apply Hkeep, keep_count_pos; lia|done|]. intros keep c4 Hk. by apply Hrem. }
  assert (StronglySorted newer sorted) as Hss by (apply StronglySorted_merge_sort; apply _). clearbody sorted.
  eapply holds_mono; [|exact Hmain]. clear Hmain. intros o s' Hsame. split.
  - intros d x Hx. apply Hsame. intros c Hc%subseteq_drop%Hin. destruct Hc as (y & _ & (t & Hy & Hp & ->)%cand_Some). cbn [path].
    rewrite key_Join by (done || by eapply (wn_ents _ Hn)). intros [= -> ->]. destruct Hx; [done|congruence].
  - intros x0 t0 H0 Hp0. assert (∀ y t', ents (world s) !! (root, y) = Some (DirTree t') → has_prefix y prefix = true →
      mkCandidate (Join [root; y]) (modified t') ∈ sorted) as Hall.
    { intros y t' Hy Hp. apply Hin. exists y. split; [by eapply elem_of_names_of|]. unfold cand. by rewrite Hy, Hp. }
    destruct sorted as [|h rest]; [by apply Hall in H0; [apply not_elem_of_nil in H0|]|].
    assert (h ∈ h :: rest) as Hh by (apply elem_of_cons; by left). apply Hin in Hh as (x & _ & (t & Hx & Hp & Eh)%cand_Some).
    exists x, t. split_and!; [done|done| |].
    + rewrite Hsame; [done|]. intros c Hc E. cbn [drop] in Hc. rewrite fmap_cons in Hnd. apply NoDup_cons in Hnd as [Hnd _]. apply Hnd.
      apply list_elem_of_fmap. exists c. split; [|done]. assert (c ∈ h :: rest) as Hc' by (apply elem_of_cons; by right).
      apply Hin in Hc' as (y & _ & (t' & Hy & Hp' & ->)%cand_Some). cbn [path] in *. rewrite key_Join in E by (done || by eapply (wn_ents _ Hn)).
      injection E as ->. by rewrite Eh.
    + intros y t' Hy Hpy. pose proof (Hall y t' Hy Hpy) as Hm.
      apply StronglySorted_inv in Hss as [_ Hss]. apply elem_of_cons in Hm as [Hm|Hm]; [rewrite Eh in Hm; injection Hm as _ ->; lia|].
      rewrite Forall_forall in Hss. specialize (Hss _ Hm). unfold newer in Hss. rewrite Eh in Hss. exact Hss.
Qed.
End prune.

(** ** Properties *)

(** C26: Under any I/O failures, cancellations and a kill at any point, an activation never
    loses the release it replaces: the tree the site served is whole, at the document
    root or at the path where it is kept; nothing else of the host changes but the
    document root, that path and the stage; and an activation that succeeds serves the
    new tree, returns the path of the old one and leaves no journal of its own. *)
Theorem replaced_release_survives e cwd c cfg m site sn w0 old new calls0 k :
  ready m site sn w0 old new → fresh_clock e m site w0 →
  let loc := lexical m site in
  let r := activatePipelineRelease e cwd c cfg m site (Join [stageRoot loc; sn]) (mkSt w0 calls0 k) in
  let after := ents (world r.2) in
  ∃ n, let kept_at := kept_name m site (clock e n) in
  (after !! (container loc, docName loc) = Some (DirTree old) ∨ after !! (container loc, kept_at) = Some (DirTree old)) ∧
  (∀ d x, (d, x) ≠ (container loc, docName loc) → (d, x) ≠ (container loc, kept_at) → (d, x) ≠ (stageRoot loc, sn) →
    after !! (d, x) = ents w0 !! (d, x)) ∧
  (∀ p, r.1 = Some (Ok p) → p = Join [container loc; kept_at] ∧ after !! (container loc, docName loc) = Some (DirTree new) ∧
    after !! (container loc, kept_at) = Some (DirTree old) ∧ ∀ f j, journals (world r.2) !! f = Some j → journals w0 !! f = Some j).
Proof.
  intros Hr Hc loc r after. destruct (activation_outcome e cwd m site sn w0 old new Hr Hc c cfg (mkSt w0 calls0 k) eq_refl) as (n & Hu & Hok).
  fold loc r in Hu, Hok. exists n. cbn zeta.
  assert (∀ D P S, shaped m site sn w0 (clock e n) D P S (world r.2) → ∀ d x, (d, x) ≠ (container loc, docName loc) →
    (d, x) ≠ (container loc, kept_name m site (clock e n)) → (d, x) ≠ (stageRoot loc, sn) → after !! (d, x) = ents w0 !! (d, x)) as Hframe.
  { intros D P S H d x H1 H2 H3. unfold after. rewrite (lookup_shaped _ _ _ _ _ _ Hr _ _ _ _ _ _ H). by rewrite !decide_False. }
  assert (∀ D P S, shaped m site sn w0 (clock e n) D P S (world r.2) → after !! (container loc, docName loc) = D ∧
    after !! (container loc, kept_name m site (clock e n)) = P) as Hat.
  { intros D P S H. split; [apply (shaped_doc _ _ _ _ _ _ Hr _ _ _ _ _ H)|apply (shaped_kept _ _ _ _ _ _ Hr _ _ _ _ _ H)]. }
  split_and!.
  - destruct Hu as [[H|H|H]|H|H|H]; destruct (Hat _ _ _ H) as [H1 H2]; auto.
  - destruct Hu as [[H|H|H]|H|H|H]; by eapply Hframe.
  - intros p Hp. destruct (Hok p Hp) as (-> & H & Hj). destruct (Hat _ _ _ H) as [H1 H2]. done.
Qed.

(** C25: An activation that replaces a release, killed at any point or not, is settled by the
    recovery at the next start: the journals are gone, and either the site is exactly as it
    was, or it serves the new release and keeps the old one. If the activation returned, it
    returned the kept path and the new release stays. What is assumed: no call of the
    activation or of the recovery fails, and the recovery is not killed; the site has a document
    root to replace, the stage is a directory in the stage root of the site, and a directory and
    its contents do not overlap with these ([ready]); the host has no symbolic links; there is no
    journal before; the name of the release that is kept is new and sorts after those kept
    before, from a clock between 1970 and 5138; random names are not empty; the manager is the
    one of the configuration, whose paths are clean and not blank. The theorems
    [first_activation_unrecoverable], [killed_rollback_unrecoverable],
    [repeated_recovery_destroys_release] and their neighbours below show recoveries outside
    these assumptions that do not settle the site. *)
Theorem interrupted_activation_recovers e e2 cwd c cfg m site sn w0 old new calls0 k :
  ready m site sn w0 old new → fresh_clock e m site w0 → quiet e → quiet e2 →
  clean_config cfg → newSiteManagerForConfig cwd cfg = Ok m →
  TrimSpace (RecoveryRoot cfg) ≠ "" → TrimSpace (Join [stageRoot (lexical m site); sn]) ≠ "" → (∀ n, rand e n ≠ Some "") → journals w0 = ∅ →
  let loc := lexical m site in
  let r := activatePipelineRelease e cwd c cfg m site (Join [stageRoot loc; sn]) (mkSt w0 calls0 k) in
  let q := recoverReleaseActivationJournals e2 cwd cfg (mkSt (world r.2) 0 None) in
  let back := ∀ x, ents (world q.2) !! (container loc, x) = ents w0 !! (container loc, x) in
  let forth n := ents (world q.2) !! (container loc, docName loc) = Some (DirTree new) ∧
    ents (world q.2) !! (container loc, kept_name m site (clock e n)) = Some (DirTree old) ∧
    ∀ x, x ≠ docName loc → x ≠ kept_name m site (clock e n) → ents (world q.2) !! (container loc, x) = ents w0 !! (container loc, x) in
  (∃ ids, q.1 = Some (ids, None)) ∧ journals (world q.2) = ∅ ∧ (back ∨ ∃ n, forth n) ∧
  ∀ a, r.1 = Some a → ∃ n, a = Ok (Join [container loc; kept_name m site (clock e n)]) ∧ forth n.
Proof.
  intros Hr Hc Hq Hq2 Hcfg Hm Hrt Hrel Hrand HJ loc r q back forth.
  assert (RecoveryRoot cfg ≠ "") as Hrec by (intros E; by rewrite E in Hrt).
  assert (TrimSpace (recovery_root cfg) ≠ "") as Hrr by (unfold recovery_root; by rewrite bool_decide_false).
  destruct (quiet_pipeline e cwd m site sn w0 old new Hr Hc Hq c cfg (mkSt w0 calls0 k) Hrr Hrel Hrand HJ eq_refl) as [Hcr Hret].
  fold loc r in Hcr, Hret.
  assert (∀ n, shaped m site sn w0 (clock e n) (Some (DirTree new)) (Some (DirTree old)) None (world q.2) → forth n) as Hforth.
  { intros n H. split_and!; [apply (shaped_doc _ _ _ _ _ _ Hr _ _ _ _ _ H)|apply (shaped_kept _ _ _ _ _ _ Hr _ _ _ _ _ H)|].
    intros x H1 H2. rewrite (lookup_shaped _ _ _ _ _ _ Hr _ _ _ _ _ _ H). rewrite !decide_False; [done|..].
    - intros [= E _]. by apply (container_not_stage m site (rd_placed _ _ _ _ _ _ Hr)).
    - by intros [= E].
    - by intros [= E]. }
  destruct (recover_crashed e cwd m site sn w0 old new Hr Hc e2 cfg Hq2 Hcfg Hm Hrec (mkSt (world r.2) 0 None) Hcr eq_refl) as (H1 & H2 & H3).
  split_and!; [exact H1|exact H2| |].
  - destruct H3 as [H3|[n H3]]; [by left|right]. exists n. by apply Hforth.
  - intros a Ha. destruct (Hret a Ha) as (n & -> & Hj & H). exists n. split; [done|]. apply Hforth.
    destruct (recover_none cwd m e2 cfg Hq2 Hm Hrec (mkSt (world r.2) 0 None) Hj) as [_ Ew]. unfold q. by rewrite Ew.
Qed.

(** Pruning touches nothing but preserved releases of the prefix, and never the one that
    changed last, whatever limits are set, calls fail and wherever it is killed. *)
Theorem prune_keeps_newest e cwd size root prefix retain maxAge maxBytes s :
  clean_abs root → well_named (world s) →
  let after := ents (world (pruneReleasesWithPrefix e cwd size root prefix retain maxAge maxBytes s).2) in
  let before := ents (world s) in
  (∀ d x, d ≠ root ∨ has_prefix x prefix = false → after !! (d, x) = before !! (d, x)) ∧
  ∀ x0 t0, before !! (root, x0) = Some (DirTree t0) → has_prefix x0 prefix = true →
    ∃ x t, has_prefix x prefix = true ∧ before !! (root, x) = Some (DirTree t) ∧ after !! (root, x) = Some (DirTree t) ∧
      ∀ y t', before !! (root, y) = Some (DirTree t') → has_prefix y prefix = true → modified t' ≤ modified t.
Proof.
  intros Hr Hn after before. destruct (prune_post e cwd size root prefix Hr retain maxAge maxBytes s Hn) as [H1 H2].
  split; [exact H1|]. intros x0 t0 H0 Hp. destruct (H2 x0 t0 H0 Hp) as (x & t & ? & ? & ? & ?). by exists x, t.
Qed.

(** A site placed in a hosting account accepts no stage from its home, so that activating
    one of its own preserved releases, which is what [gitRollback] does, always fails. *)
Theorem placed_rollback_refused e cwd c cfg m site previous s :
  placed (lexical m site) = true → well_placed m site → Dir (Abs cwd previous) = container (lexical m site) →
  ∀ p, (activatePipelineRelease e cwd c cfg m site previous s).1 ≠ Some (Ok p).
Proof.
  intros Hpl Hwp Hd p. pose proof (container_not_stage m site Hwp) as Hne.
  assert (∀ s', reads (inspectStaged e cwd m site previous) s' (λ r, ∀ x, r ≠ Ok x)) as Hno.
  { intros s'. unfold inspectStaged. eapply reads_rbind; [apply reads_locate|done|]. intros l c1 (_ & -> & _).
    eapply (reads_rbind _ _ _ (λ _, False)); [|done|by intros]. unfold resolveStagedRoot.
    eapply reads_rbind; [apply reads_wrap, reads_SafePath|done|]. intros r c2 _. case_match; [by apply reads_ret|].
    eapply reads_rbind; [apply reads_locate|done|]. intros l c3 (_ & -> & _). rewrite Hpl, Hd, bool_decide_false by done. by apply reads_ret. }
  change (holds (activatePipelineRelease e cwd c cfg m site previous) s (λ o _, o ≠ Some (Ok p))).
  unfold activatePipelineRelease.
  apply (holds_rread _ _ _ (λ _, True)); [by eapply reads_mono; [|apply reads_ctx]|done|]. intros _ c1 _.
  apply (holds_rread _ _ _ (λ _, True)); [by eapply reads_mono; [|apply reads_new_journal]|done|]. intros [f j] c2 _.
  unfold rbind at 1. apply holds_bind, holds_wrap, holds_persist.
  { intros o c3 l Ho. destruct o as [[[]|err]|]; [done|by apply holds_ret|done]. }
  intros o c3 l. destruct o as [[[]|err]|]; [|by apply holds_ret|done].
  assert (∀ err s', holds (@abandon e string f err) s' (λ o _, o ≠ Some (Ok p))) as Hg.
  { intros err s'. unfold abandon. apply holds_bind, holds_cleanup; intros o c4 l4; [intros _|]; destruct o; [by apply holds_ret|done|by apply holds_ret|done]. }
  eapply holds_read; [apply reads_attempt|]. intros [u|err] c4 _; [|apply Hg]. apply holds_bind. unfold ActivateStagedReplacing.
  apply (holds_rread _ _ _ (λ _, True)); [by eapply reads_mono; [|apply reads_ctx]|by intros; apply Hg|]. intros _ c5 _.
  unfold rbind at 1. eapply holds_read; [apply Hno|]. intros [x|err] c6 Hx; [by destruct (Hx x)|]. apply holds_ret, Hg.
Qed.

(** ** A host *)
Module Toy.
Definition cfg : Config := mkConfig "/srv" "" "/var/recovery" 3 0 0 None.
Definition mgr : Manager := mkManager "/srv" "" None.
Definition stage : string := ".stepanel-release-blog-17".
Definition staged : string := "/srv/sites/.stepanel-manager-staging/.stepanel-release-blog-17".
(** A site of one file. *)
Definition site_of (data : string) : Item := Folder true [("index.html", Regular data true)].
Definition older : Tree := mkTree (site_of "older") true 4.
Definition old : Tree := mkTree (site_of "old") true 5.
Definition new : Tree := mkTree (site_of "new") true 7.
Definition w0 : World := mkWorld
  {[ ("/srv/sites/blog", "public") := DirTree old;
     ("/srv/sites/blog", ".stepanel-previous-100") := DirTree older;
     ("/srv/sites/.stepanel-manager-staging", stage) := DirTree new;
     ("/srv/sites/.stepanel-manager-staging", ".stepanel-stage-owner-.stepanel-release-blog-17") := File true ]}
  {[ "/srv/sites"; "/srv/sites/blog"; "/srv/sites/.stepanel-manager-staging" ]} ∅.
Definition env : Env := calm 200 "id".

Lemma srv_clean : clean_abs "/srv".
Proof. exists [bytes_of "srv"]. split_and!; [done| |done]. constructor; [|constructor]. by apply plainb_plain. Qed.
Lemma mgr_placed : well_placed mgr "blog".
Proof. split; [by vm_compute|exact srv_clean|done]. Qed.
Lemma cfg_clean : clean_config cfg.
Proof. split; [exact srv_clean|]. intros [x H]. by vm_compute in H. Qed.

Lemma entries_all (w : World) (P : string * string → Node → bool) : forallb (λ x, P x.1 x.2) (map_to_list (ents w)) = true →
  ∀ k n, ents w !! k = Some n → P k n = true.
Proof. rewrite forallb_forall. intros H k n Hk. apply (H (k, n)). by apply list_elem_of_In, elem_of_map_to_list. Qed.
Lemma lex_container : container (lexical mgr "blog") = "/srv/sites/blog".
Proof. by vm_compute. Qed.
Lemma lex_prefix : previousPrefix (lexical mgr "blog") = previous_.
Proof. by vm_compute. Qed.

Lemma w0_ready : ready mgr "blog" stage w0 old new.
Proof.
  split; [exact mgr_placed|by vm_compute|by vm_compute| | | | | | | |]; rewrite ?lex_container.
  - by vm_compute.
  - by vm_compute.
  - intros p Hp. assert (bool_decide (set_Forall (λ p, Dir p ≠ "/srv/sites/blog" ∧ Dir p ≠ stageRoot (lexical mgr "blog")) (parents w0)) = true) as H by (by vm_compute).
    apply bool_decide_eq_true in H. by apply H.
  - intros n [nd H]. by apply (entries_all w0 (λ k _, plainb k.2)) in H; [|vm_compute].
  - by intros x t [-> | ->]; vm_compute.
  - intros k H. by apply (entries_all w0 (λ _ n, negb (bool_decide (n = Symlink)))) in H; [|vm_compute].
  - by vm_compute.
  - by vm_compute.
Qed.
Lemma env_fresh : fresh_clock env mgr "blog" w0.
Proof.
  split; [intros n; vm_compute; split; [discriminate|reflexivity]|]. intros n name [nd H] Hp. rewrite lex_container in H. rewrite lex_prefix in Hp.
  apply (entries_all w0 (λ k _, negb (has_prefix k.2 previous_) || bool_decide (String.le k.2 (kept_name mgr "blog" 200) ∧ k.2 ≠ kept_name mgr "blog" 200))) in H; [|by vm_compute].
  cbn [fst snd] in H. rewrite Hp in H. by apply bool_decide_eq_true in H.
Qed.
Lemma env_quiet : quiet env.
Proof. done. Qed.
Lemma mgr_of_cfg : newSiteManagerForConfig "/" cfg = Ok mgr.
Proof. by vm_compute. Qed.
Lemma roots_nonblank : TrimSpace (recovery_root cfg) ≠ "" ∧ TrimSpace (Join [stageRoot (lexical mgr "blog"); stage]) ≠ "".
Proof. split; by vm_compute. Qed.

(** *** Witnesses *)
Definition run (k : option nat) : option (res string) * St :=
  activatePipelineRelease env "/" Request cfg mgr "blog" (Join [stageRoot (lexical mgr "blog"); stage]) (mkSt w0 0 k).
Definition recover (k : option nat) (w : World) : option (list string * option error) * St :=
  recoverReleaseActivationJournals env "/" cfg (mkSt w 0 k).

Lemma replaced_release_survives_witness : ∃ n,
  ents (world (run (Some 3%nat)).2) !! (container (lexical mgr "blog"), docName (lexical mgr "blog")) = Some (DirTree old) ∨
  ents (world (run (Some 3%nat)).2) !! (container (lexical mgr "blog"), kept_name mgr "blog" (clock env n)) = Some (DirTree old).
Proof.
  destruct (replaced_release_survives env "/" Request cfg mgr "blog" stage w0 old new 0 (Some 3%nat) w0_ready env_fresh) as (n & H & _).
  exists n. exact H.
Defined.
Lemma interrupted_activation_recovers_witness : journals (world (recover None (world (run (Some 3%nat)).2)).2) = ∅.
Proof.
  destruct roots_nonblank as [H1 H2].
  destruct (interrupted_activation_recovers env env "/" Request cfg mgr "blog" stage w0 old new 0 (Some 3%nat) w0_ready env_fresh env_quiet env_quiet
    cfg_clean mgr_of_cfg H1 H2 (λ n H, match H in _ = x return match x with Some "" => False | _ => True end with eq_refl => I end) eq_refl) as (_ & H & _).
  exact H.
Defined.

(** *** What goes wrong *)

(** The contents of the trees a world holds. *)
Definition contents (w : World) : list Item :=
  omap (λ x, match x.2 with DirTree t => if whole t then Some (content t) else None | _ => None end) (map_to_list (ents w)).

(** A recovery that is killed after it has restored the release and before it removes the
    journal is repeated at the next start: the second recovery deletes the restored
    release, which then exists nowhere. *)
Theorem repeated_recovery_destroys_release :
  let crashed := world (run (Some 4%nat)).2 in
  let interrupted := world (recover (Some 3%nat) crashed).2 in
  let r := recover None interrupted in
  ents interrupted !! ("/srv/sites/blog", "public") = Some (DirTree old) ∧
  ents (world r.2) !! ("/srv/sites/blog", "public") = None ∧ site_of "old" ∉ contents (world r.2) ∧
  r.1 = Some ([], Some (EWrap "rollback release activation" (EWrap "restore previous release" io_err))).
Proof. cbn zeta. split_and!; [vm_compute; reflexivity..|apply (bool_decide_eq_true_1 _); vm_compute; reflexivity|vm_compute; reflexivity]. Qed.

(** The same for a journal that is still prepared: the second recovery replaces the
    restored release by an older one. *)
Theorem repeated_recovery_goes_back_twice :
  let crashed := world (run (Some 3%nat)).2 in
  let interrupted := world (recover (Some 3%nat) crashed).2 in
  let r := recover None interrupted in
  ents interrupted !! ("/srv/sites/blog", "public") = Some (DirTree old) ∧
  ents (world r.2) !! ("/srv/sites/blog", "public") = Some (DirTree older) ∧ site_of "old" ∉ contents (world r.2) ∧
  r.1 = Some (["id"], None).
Proof. cbn zeta. split_and!; [vm_compute; reflexivity..|apply (bool_decide_eq_true_1 _); vm_compute; reflexivity|vm_compute; reflexivity]. Qed.

(** The first activation of a site, killed after the stage was published and before the
    journal says so, is never recovered. *)
Theorem first_activation_unrecoverable :
  let start := mkWorld (delete ("/srv/sites/blog", "public") (delete ("/srv/sites/blog", ".stepanel-previous-100") (ents w0))) (parents w0) ∅ in
  let crashed := world (activatePipelineRelease env "/" Request cfg mgr "blog" staged (mkSt start 0 (Some 2%nat))).2 in
  let r := recover None crashed in
  ents crashed !! ("/srv/sites/blog", "public") = Some (DirTree new) ∧
  r.1 = Some ([], Some (EMsg "prepared release activation is in an ambiguous filesystem state")) ∧ world r.2 = crashed.
Proof. cbn zeta. split_and!; vm_compute; reflexivity. Qed.

(** A rollback of a legacy site, which activates a preserved release, cannot be recovered
    either when it is killed: its stage is not one that recovery accepts. *)
Theorem killed_rollback_unrecoverable :
  let crashed := world (activatePipelineRelease env "/" Request cfg mgr "blog" "/srv/sites/blog/.stepanel-previous-100" (mkSt w0 0 (Some 2%nat))).2 in
  let r := recover None crashed in
  ents crashed !! ("/srv/sites/blog", "public") = None ∧
  r.1 = Some ([], Some (EWrap "inspect prepared release activation" (EMsg "invalid release staging path"))) ∧ world r.2 = crashed.
Proof. cbn zeta. split_and!; vm_compute; reflexivity. Qed.

(** *** Sites that share a home *)

(** Two addon domains of one account; the directory of the second begins with that of the
    first and a dash. *)
Definition shop : Placement := mkPlacement "shop" "alice" "alice" KindAddon "foo.co".
Definition other : Placement := mkPlacement "other" "alice" "alice" KindAddon "foo.co-op.com".
Definition homes : DB :=
  let d := (AllocateAccount (calm 1 "") "alice" empty_db).2 in
  (Place (calm 3 "") other (Place (calm 2 "") shop d).2).2.
Definition cfg2 : Config := mkConfig "/srv" "/home" "/var/recovery" 1 0 0 (Some homes).
Definition mgr2 : Manager := mkManager "/srv" "/home" (Some homes).
Definition foreign : Tree := mkTree (site_of "other's release") true 3.
Definition w2 : World := mkWorld
  {[ ("/home/alice", "foo.co") := DirTree old;
     ("/home/alice", "foo.co-op.com") := DirTree (mkTree (site_of "other") true 6);
     ("/home/alice", ".stepanel-previous-foo.co-op.com-90") := DirTree foreign;
     ("/home/.stepanel-manager-staging", ".stepanel-release-shop-17") := DirTree new ]}
  {[ "/home/alice"; "/home/.stepanel-manager-staging"; "/srv/sites" ]} ∅.

(** Deleting the first site deletes the preserved releases of the second. *)
Theorem deletion_takes_foreign_release :
  let r := Delete env "/" Request mgr2 "shop" (mkSt w2 0 None) in
  r.1 = Some (Ok tt) ∧ ents (world r.2) !! ("/home/alice", ".stepanel-previous-foo.co-op.com-90") = None.
Proof. cbn zeta. split; vm_compute; reflexivity. Qed.

(** A recovery of the first site restores a release of the second: the wrong site is
    served, and the release that was live stays aside. *)
Theorem recovery_serves_foreign_release :
  let crashed := world (activatePipelineRelease env "/" Request cfg2 mgr2 "shop" "/home/.stepanel-manager-staging/.stepanel-release-shop-17" (mkSt w2 0 (Some 3%nat))).2 in
  let r := recoverReleaseActivationJournals env "/" cfg2 (mkSt crashed 0 None) in
  r.1 = Some (["id"], None) ∧ ents (world r.2) !! ("/home/alice", "foo.co") = Some (DirTree foreign).
Proof. cbn zeta. split; vm_compute; reflexivity. Qed.

(** Pruning orders by the time of change of the directory, not by when it was replaced: a
    release whose root changed while it was live displaces the immediate rollback
    target. *)
Theorem prune_drops_latest_replaced :
  let w := mkWorld {[ ("/srv/sites/blog", "public") := DirTree new;
                      ("/srv/sites/blog", ".stepanel-previous-100") := DirTree (mkTree (site_of "first") true 9);
                      ("/srv/sites/blog", ".stepanel-previous-200") := DirTree (mkTree (site_of "second") true 5) ]} {[ "/srv/sites/blog" ]} ∅ in
  let r := pruneReleasesWithPrefix env "/" (λ _, 0) "/srv/sites/blog" previous_ 1 0 0 (mkSt w 0 None) in
  r.1 = Some (Ok tt) ∧ ents (world r.2) !! ("/srv/sites/blog", ".stepanel-previous-200") = None ∧
  is_Some (ents (world r.2) !! ("/srv/sites/blog", ".stepanel-previous-100")).
Proof. cbn zeta. split_and!; [vm_compute; reflexivity..|]. eexists. vm_compute. reflexivity. Qed.

Lemma w0_named : well_named w0.
Proof.
  split.
  - intros d x [nd H]. by apply (entries_all w0 (λ k _, plainb k.2)) in H; [|vm_compute].
  - intros p Hp. assert (p = "/srv/sites" ∨ p = "/srv/sites/blog" ∨ p = "/srv/sites/.stepanel-manager-staging") as Hc.
    { cbn [parents w0] in Hp. rewrite !elem_of_union, !elem_of_singleton in Hp. tauto. }
    pose proof (clean_joined "/srv" ["sites"; "blog"] srv_clean eq_refl) as H1.
    pose proof (clean_joined "/srv" ["sites"; staging] srv_clean eq_refl) as H2.
    pose proof (clean_joined "/srv" ["sites"] srv_clean eq_refl) as H3.
    destruct Hc as [-> |[-> | ->]]; [exact H3|exact H1|exact H2].
Qed.
Lemma prune_keeps_newest_witness :
  let r := pruneReleasesWithPrefix env "/" (λ _, 0) "/srv/sites/blog" previous_ 1 0 0 (mkSt w0 0 None) in
  ents (world r.2) !! ("/srv/sites/blog", "public") = ents w0 !! ("/srv/sites/blog", "public").
Proof.
  destruct (prune_keeps_newest env "/" (λ _, 0) "/srv/sites/blog" previous_ 1 0 0 (mkSt w0 0 None)
    (clean_joined "/srv" ["sites"; "blog"] srv_clean eq_refl) w0_named) as [H _].
  apply (H "/srv/sites/blog" "public"). right. reflexivity.
Defined.
Lemma cleanup_spares_live_stages_witness :
  ents (world (CleanupOrphanedStaging env "/" Background mgr 100 (mkSt w0 0 None)).2) !! ("/srv/sites/.stepanel-manager-staging", stage) = Some (DirTree new).
Proof.
  apply (cleanup_spares_live_stages env "/" Background mgr 100 (mkSt w0 0 None) "/srv/sites/.stepanel-manager-staging" stage new
    srv_clean (or_introl eq_refl) w0_named).
  - vm_compute. reflexivity.
  - right. vm_compute. discriminate.
Defined.
Lemma locations_agree_witness : ∃ l loc s1 s2,
  siteLocationFor env "/" cfg "blog" (mkSt w0 0 None) = (Some (Ok l), s1) ∧ locate env "/" mgr "blog" (mkSt w0 0 None) = (Some (Ok loc), s2) ∧
  LHome l = container loc ∧ LDocRoot l = docRoot loc ∧ PreviousPrefix l = previousPrefix loc ∧ Placed l = placed loc.
Proof.
  pose (r1 := siteLocationFor env "/" cfg "blog" (mkSt w0 0 None)). pose (r2 := locate env "/" mgr "blog" (mkSt w0 0 None)).
  assert (r1.1 = Some (Ok (mkSiteLocation false "/srv/sites/blog" "/srv/sites/blog" "/srv/sites/blog/public" previous_))) as E1 by (vm_compute; reflexivity).
  assert (r2.1 = Some (Ok (mkLocation "/srv/sites/blog" "public" "/srv/sites/blog/public" "/srv/sites/.stepanel-manager-staging" previous_ false))) as E2 by (vm_compute; reflexivity).
  subst r1 r2. destruct (siteLocationFor env "/" cfg "blog" (mkSt w0 0 None)) as [o1 s1] eqn:F1, (locate env "/" mgr "blog" (mkSt w0 0 None)) as [o2 s2] eqn:F2.
  cbn in E1, E2. subst o1 o2. do 4 eexists. split; [reflexivity|]. split; [reflexivity|].
  exact (locations_agree env env "/" cfg mgr "blog" _ _ s1 s2 _ _ cfg_clean eq_refl F1 F2).
Defined.
End Toy.
End ReleasesProps.
