(* ===== verification/SiteTx.v ===== *)
(** * SiteTx: site transactions and their recovery

    Models [src/recovery.go], [src/internal/recovery/site_transaction.go] and the
    snapshot renames of [src/internal/rootbroker/broker.go]. A restore, an import or
    the creation of a site runs inside a transaction: the live tree is moved aside,
    the journal of the transaction says how far it got, and a rollback, at once or
    at the next start, puts the old tree back. Routes and databases that the work
    published are in the journal too and are removed before the trees are touched.

    The host holds trees (document roots, mail trees and their snapshots) by path,
    the directories that hold them, the journal file of each transaction directory,
    the route files with the domain each serves, and the managed databases. A
    transaction in memory is passed along explicitly: it differs from its file when
    writing the file fails. *)
From S2P Require Import Prelude Effects GoPath GoText Regex Names SiteLayout Sites.

Module SiteTx.
Export Effects.
Import GoPath GoText Regex Names SiteLayout.
#[local] Open Scope host_scope.

(** ** Data *)

Inductive SiteTransactionState := Prepared | BackedUp | RollingBack | Committed | RolledBack | Unknown (text : string).
#[export] Instance SiteTransactionState_eq_dec : EqDecision SiteTransactionState.
Proof. solve_decision. Defined.
Record TrackedRoute := mkRoute { Name : string; Domain : string; Applied : bool }.
#[export] Instance TrackedRoute_eq_dec : EqDecision TrackedRoute.
Proof. solve_decision. Defined.
Record ManagedDatabase := mkDatabase { DName : string; User : string; DKind : string }.
#[export] Instance ManagedDatabase_eq_dec : EqDecision ManagedDatabase.
Proof. solve_decision. Defined.
(** The journal of a transaction, without the time of its creation, which the code only writes. *)
Record SiteTransaction := mkTx {
  Version : Z; ID : string; Kind : string; Site : string; Home : string; Backup : string; FailedSite : string;
  MailRoot : string; MailBackup : string; MailExisting : bool; HadExisting : bool; SnapshotDir : string;
  State : SiteTransactionState; RecoveryRequired : string; UpdatedAt : Z;
  Databases : list ManagedDatabase; Routes : list TrackedRoute }.
#[export] Instance SiteTransaction_eq_dec : EqDecision SiteTransaction.
Proof. solve_decision. Defined.

(** A tree or a symbolic link. *)
Inductive Entry := Tree (content : string) | Link.
#[export] Instance Entry_eq_dec : EqDecision Entry.
Proof. solve_decision. Defined.
Record World := mkWorld {
  trees : gmap string Entry;
  dirs : gset string;
  (** The file [transaction.json] of a directory; [None] does not decode. *)
  records : gmap string (option SiteTransaction);
  (** The route files and their text. *)
  vhosts : gmap string string;
  managed : list ManagedDatabase }.
Notation M := (Effects.M World).

Definition put_record (dir : string) (t : SiteTransaction) (w : World) : World := w <| records := <[dir := Some t]> (records w) |>.
Definition move (a b : string) (w : World) : World :=
  match trees w !! a with
  | Some n => w <| trees := <[b := n]> (delete a (trees w)) |>
  | None => w
  end.
Definition can_move (a b : string) (w : World) : bool :=
  bool_decide (Dir b ∈ dirs w) && bool_decide (is_Some (trees w !! a)) && bool_decide (trees w !! b = None) && bool_decide (b ∉ dirs w).
(** Everything in a directory, and its journal. *)
Definition drop_trees (d : string) (w : World) : World := w <| trees := filter (λ kn, Dir kn.1 ≠ d) (trees w) |>.
Definition drop_record (d : string) (w : World) : World := w <| records := delete d (records w) |>.
Definition drop_dir (d : string) (w : World) : World := drop_trees d (drop_record d w) <| dirs := dirs w ∖ {[d]} |>.
Definition add_dir (d : string) (w : World) : World := w <| dirs := {[d]} ∪ dirs w |>.
(** The names of the directories in a directory, in order. *)
Definition names_of (w : World) (d : string) : list string :=
  merge_sort String.le (elements (set_map Base (filter (λ p, Dir p = d) (dirs w)) : gset string)).

(** ** States *)

Definition ValidateSiteTransactionState (s : SiteTransactionState) : option error :=
  match s with Unknown _ => Some (EMsg "unknown site transaction state") | _ => None end.
Definition ValidateSiteTransactionTransition (current next : SiteTransactionState) : option error :=
  match ValidateSiteTransactionState current, ValidateSiteTransactionState next with
  | Some err, _ => Some err
  | None, Some err => Some err
  | None, None =>
      let valid :=
        match current, next with
        | Prepared, (BackedUp | RollingBack | Committed | RolledBack) => true
        | BackedUp, (RollingBack | Committed) => true
        | RollingBack, (RollingBack | RolledBack) => true
        | RolledBack, RolledBack => true
        | Committed, Committed => true
        | _, _ => false
        end in
      if valid then None else Some (EMsg "invalid site transaction transition")
  end.

(** ** Validation *)

Definition managedRouteDomain : re :=
  Cat (plus (Cat ld_class (Cat label_tail (byte "."%char)))) (Cat ld_class label_tail).
Definition trackedRouteServes (site name domain : string) : bool :=
  MatchString managedRouteDomain domain &&
  bool_decide (TrimSuffix (TrimSuffix name ".conf") ".caddy" = "site-" +:+ site +:+ "-" +:+ replace_byte "."%char "_"%char domain).
Definition validTrackedRouteName (site name : string) : bool :=
  let prefix := "site-" +:+ site +:+ "-" in
  if negb (has_prefix name prefix) then false else
  let good stem := negb (bool_decide (stem = "")) && all_bytes safe_byte stem in
  if has_suffix name ".conf" then good (TrimSuffix (TrimPrefix name prefix) ".conf")
  else if has_suffix name ".caddy" then good (TrimSuffix (TrimPrefix name prefix) ".caddy")
  else false.

Definition identifier_byte (c : ascii) : bool := one_of "_" c || is_lower c || is_digit c.
Definition validManagedDatabaseIdentifier (value : string) (max : Z) : bool :=
  negb (bool_decide (value = "")) && (len value <=? max) && all_bytes identifier_byte value.
Definition validateManagedDatabase (d : ManagedDatabase) : option error :=
  if negb (validManagedDatabaseIdentifier (DName d) 64) then Some (EMsg "invalid managed database name") else
  if bool_decide (DKind d = "cpmove") then
    if negb (bool_decide (User d = "")) then Some (EMsg "cpmove database must not specify a user") else None
  else if bool_decide (DKind d = "panel") || bool_decide (DKind d = "wordpress") then
    if negb (validManagedDatabaseIdentifier (User d) 32) then Some (EMsg "invalid managed database user") else None
  else Some (EMsg "invalid managed database kind").

Definition nul : ascii := chr 0.
Definition validatedRecoveryPath (path : string) : res string :=
  if bool_decide (path = "") || any_byte (λ c, bool_decide (c = nul)) path || negb (IsAbs path) then Err (EMsg "recovery path must be absolute") else
  let clean := Clean path in
  if negb (bool_decide (clean = path)) || Contains path "../" || has_suffix path "/.." then Err (EMsg "recovery path is not canonical") else
  Ok clean.

Definition validatePlacedRecoveryHome (home homeRoot : string) : option error :=
  match Sites.rel_comps (Clean homeRoot) (Clean home) with
  | [user; d] =>
      if negb (bool_decide (ValidUnixUser user = None)) || (negb (bool_decide (d = MainDirectory)) && negb (ValidDomain d))
      then Some (EMsg "recovery transaction site path is not a hosting-account document root") else None
  | _ => Some (EMsg "recovery transaction site path is not a hosting-account document root")
  end.

(** *** The domain of a route file *)

(** [strings.Fields]; [cur] is the field being read. *)
Fixpoint fields_bytes (fuel : nat) (cur l : list ascii) : list (list ascii) :=
  let flush := match cur with [] => [] | _ => [reverse cur] end in
  match fuel, l with
  | S n, c :: l' =>
      match strip_any space_encodings l with
      | Some r => flush ++ fields_bytes n [] r
      | None => fields_bytes n (c :: cur) l'
      end
  | _, _ => flush
  end.
Definition Fields (s : string) : list string := of_bytes <$> fields_bytes (String.length s) [] (bytes_of s).
Definition newline : ascii := chr 10.
(** The lines of a [bufio.Scanner]. *)
Definition scan_lines (l : list ascii) : list string := (λ x, TrimSuffix (of_bytes x) (of_bytes [chr 13])) <$> split_bytes newline l.

Definition maxManagedRouteBytes : Z := 1048576.
(** One line: the name it gives, and whether the address of a Caddy block was seen. *)
Definition route_candidate (line : string) (seen : bool) : option string * bool :=
  let line := TrimSpace line in
  match Fields line with
  | [] => (None, seen)
  | (f0 :: fs) as fields =>
      if EqualFold f0 "ServerName" && bool_decide (length fields = 2%nat) then (head fs, seen) else
      if bool_decide (f0 = "vhDomain") && bool_decide (length fields = 2%nat) then ((λ f, default "" (head (split ","%char f))) <$> head fs, seen) else
      if has_prefix line "# StePanel managed OpenLiteSpeed " && bool_decide (length fields = 7%nat) && bool_decide (fields !! 5%nat = Some "for")
      then (fields !! 6%nat, seen) else
      if has_prefix line "#" then (None, seen) else
      if negb seen && bool_decide (length fields = 2%nat) && bool_decide (head fs = Some "{") then (Some f0, true) else
      (None, true)
  end.
Fixpoint route_domain (lines : list string) (seen : bool) : res string :=
  match lines with
  | [] => Err (EMsg "managed route names no served domain")
  | line :: rest =>
      match route_candidate line seen with
      | (None, seen) => route_domain rest seen
      | (Some candidate, _) =>
          let domain := ToLower candidate in
          if negb (MatchString managedRouteDomain domain) then Err (EMsg "managed route serves an invalid domain") else Ok domain
      end
  end.
(** The first [maxManagedRouteBytes] of a file; a line that fills the buffer is too long. *)
Definition served_domain (text : string) : res string :=
  if len text <? maxManagedRouteBytes then route_domain (scan_lines (bytes_of text)) false else
  let l := take (Z.to_nat maxManagedRouteBytes) (bytes_of text) in
  if negb (bool_decide (newline ∈ l)) then Err (EMsg "read managed route") else route_domain (scan_lines l) false.

(** ** Transactions in memory *)

(** A method of a transaction: the object after the call, and the result. *)
Definition tx (A : Type) : Type := SiteTransaction → M (SiteTransaction * res A).
Definition tbind {A B} (m : tx A) (f : A → tx B) : tx B := λ t,
  r ← m t; match r with (t', Ok a) => f a t' | (t', Err err) => ret (t', Err err) end.
Notation "'let!' x ':=' m 'in' k" := (tbind m (fun x => k)) (at level 200, x pattern, k at level 200) : host_scope.
Definition tok {A} (a : A) : tx A := λ t, ret (t, Ok a).
Definition terr {A} (err : error) : tx A := λ t, ret (t, Err err).
Definition lift {A} (m : M (res A)) : tx A := λ t, r ← m; ret (t, r).
Definition twrap {A} (what : string) (m : tx A) : tx A := λ t,
  r ← m t; ret (match r with (t', Ok a) => (t', Ok a) | (t', Err err) => (t', Err (EWrap what err)) end).
Definition get : tx SiteTransaction := λ t, ret (t, Ok t).
Definition modify (f : SiteTransaction → SiteTransaction) : tx unit := λ t, ret (f t, Ok tt).

(** How trees are renamed: by the process itself, or by the root broker, which knows the
    document root of the site and the recovery root and whose answer may get lost. *)
Inductive Mover := Direct | Broker (public recovery : string).

Section transactions.
Context (e : Env) (cwd : string).
(** [time.Time.Format] with a layout. *)
Context (format : string → Z → string).
#[local] Notation attempt := (Effects.attempt e).
#[local] Notation now := (Effects.now e).
#[local] Notation Abs := (Sites.Abs cwd).

Definition Lstat (p : string) : M (res (option Entry)) := let? _ := attempt in w ← look; ok (trees w !! p).
Definition OpenRoot (d : string) : M (res unit) :=
  let? _ := attempt in w ← look; if bool_decide (d ∈ dirs w) then ok tt else ret (Err ErrNotExist).
Definition Rename (a b : string) : M (res unit) :=
  let? _ := attempt in w ← look; if can_move a b w then effect (move a b);; ok tt else ret (Err io_err).
Definition MkdirAll (d : string) : M (res unit) :=
  let? _ := attempt in w ← look; if bool_decide (d ∈ dirs w) then ok tt else effect (add_dir d);; ok tt.
Definition Mkdir (d : string) : M (res unit) :=
  let? _ := attempt in w ← look; if bool_decide (d ∈ dirs w) then ret (Err io_err) else effect (add_dir d);; ok tt.
(** [os.RemoveAll] of a transaction directory: its journal or its trees go first. *)
Definition RemoveAll (d : string) : M (res unit) :=
  b ← call e;
  effect (if b then drop_record d else drop_trees d);;
  let? _ := attempt in
  effect (drop_dir d);; ok tt.

(** [persist]: an atomic replacement; the last sync may fail after it. *)
Definition persist (dir : string) : tx unit := λ t,
  match ValidateSiteTransactionState (State t) with
  | Some err => ret (t, Err (EWrap "refuse to persist invalid site transaction phase" err))
  | None =>
      now_ ← now;
      let t := t <| UpdatedAt := now_ |> in
      r ← (let? _ := attempt in
           w ← look;
           if negb (bool_decide (dir ∈ dirs w)) then ret (Err io_err) else
           effect (put_record dir t);; attempt);
      ret (t, r)
  end.
Definition setState (dir : string) (next : SiteTransactionState) : tx unit := λ t,
  match ValidateSiteTransactionTransition (State t) next with
  | Some err => ret (t, Err err)
  | None =>
      r ← persist dir (t <| State := next |>);
      match r with
      | (t', Ok _) => ret (t', Ok tt)
      | (t', Err err) => ret (t' <| State := State t |>, Err err)
      end
  end.

Definition TrackRoute (dir name domain : string) : tx unit := λ t,
  let domain := ToLower domain in
  if negb (validTrackedRouteName (Site t) name) || negb (trackedRouteServes (Site t) name domain) then ret (t, Err (EMsg "invalid tracked route name")) else
  if existsb (λ r, bool_decide (Name r = name)) (Routes t) then ret (t, Ok tt) else
  r ← persist dir (t <| Routes := Routes t ++ [mkRoute name domain false] |>);
  match r with
  | (t', Ok _) => ret (t', Ok tt)
  | (t', Err err) => ret (t' <| Routes := Routes t |>, Err err)
  end.
Fixpoint mark_applied (name : string) (l : list TrackedRoute) : option (list TrackedRoute) :=
  match l with
  | [] => None
  | r :: l' => if bool_decide (Name r = name) then Some (mkRoute (Name r) (Domain r) true :: l') else (r ::.) <$> mark_applied name l'
  end.
Definition MarkRouteApplied (dir name : string) : tx unit := λ t,
  match mark_applied name (Routes t) with
  | None => ret (t, Err (EMsg "route is not tracked by this transaction"))
  | Some l => persist dir (t <| Routes := l |>)
  end.
Definition TrackDatabase (dir : string) (d : ManagedDatabase) : tx unit := λ t,
  match validateManagedDatabase d with
  | Some err => ret (t, Err err)
  | None =>
      if bool_decide (d ∈ Databases t) then ret (t, Ok tt) else
      r ← persist dir (t <| Databases := Databases t ++ [d] |>);
      match r with
      | (t', Ok _) => ret (t', Ok tt)
      | (t', Err err) => ret (t' <| Databases := Databases t |>, Err err)
      end
  end.
Definition MarkRecoveryRequired (dir cause : string) : tx unit := λ t,
  let detail := TrimSpace cause in
  if bool_decide (detail = "") then ret (t, Err (EMsg "recovery intervention cause is empty")) else
  let detail := if 4096 <? len detail then of_bytes (take 4096 (bytes_of detail)) else detail in
  r ← persist dir (t <| RecoveryRequired := detail |>);
  match r with
  | (t', Ok _) => ret (t', Ok tt)
  | (t', Err err) => ret (t' <| RecoveryRequired := RecoveryRequired t |>, Err (EWrap "persist recovery intervention" err))
  end.

(** *** Cleanup of routes and databases *)

(** The helper that removes a route, and those that drop a database; their answer may get
    lost. *)
Definition deleteSiteRoute (name site domain : string) : M (res unit) :=
  if xorb (bool_decide (site = "")) (bool_decide (domain = "")) then throw "a route deletion names both its site and domain, or neither" else
  let? _ := attempt in
  effect (λ w, w <| vhosts := delete name (vhosts w) |>);; attempt.
Definition drop_database (d : ManagedDatabase) : M (res unit) :=
  if negb (bool_decide (DKind d ∈ ["cpmove"; "panel"; "wordpress"])) then throw "unsupported managed database kind" else
  let? _ := attempt in
  effect (λ w, w <| managed := filter (λ x, x ≠ d) (managed w) |>);; attempt.
Definition managedRouteServedDomain (name : string) : M (res string) :=
  let? _ := attempt in
  w ← look; match vhosts w !! name with None => ret (Err ErrNotExist) | Some text => ret (served_domain text) end.

(** [cleanupRoutes]: [l] are the routes that are left. *)
Fixpoint cleanupRoutes (dir : string) (l : list TrackedRoute) : tx unit :=
  match l with
  | [] => tok tt
  | route :: rest =>
      let next :=
        let! _ := modify (λ t, t <| Routes := rest |>) in
        let! _ := twrap "record route cleanup" (persist dir) in
        cleanupRoutes dir rest in
      let! absent :=
        (if Applied route then tok false else
         let! _ := twrap "inspect pending route" (lift attempt) in
         let! _ := twrap "inspect pending route" (lift attempt) in
         lift (w ← look; ok (bool_decide (vhosts w !! Name route = None)))) in
      if (absent : bool) then next else
      let! domain :=
        (if negb (bool_decide (Domain route = "")) then tok (Some (Domain route)) else
         let! _ := twrap "inspect route" (lift attempt) in
         λ t, served ← managedRouteServedDomain (Name route);
              ret (t, match served with
                      | Err err => if errors_is err ErrNotExist then Ok None else Err (EWrap "identify route" err)
                      | Ok d => if trackedRouteServes (Site t) (Name route) d then Ok (Some d) else Err (EMsg "route is not the site's route")
                      end)) in
      match domain with
      | None => next
      | Some d =>
          let! t := get in
          let! _ := twrap "remove route" (lift (deleteSiteRoute (Name route) (Site t) d)) in
          next
      end
  end.
Fixpoint cleanupDatabases (dir : string) (l : list ManagedDatabase) : tx unit :=
  match l with
  | [] => tok tt
  | d :: rest =>
      let! _ := twrap "clean up managed database" (lift (drop_database d)) in
      let! _ := modify (λ t, t <| Databases := rest |>) in
      let! _ := twrap "record managed database cleanup" (persist dir) in
      cleanupDatabases dir rest
  end.

(** *** Renames across the boundary of the site *)

Definition pathWithin (root target : string) : bool := bool_decide (target = root) || has_prefix target (root +:+ "/").
Definition validateSnapshotPathsAt (public recoveryRoot sourcePath destinationPath : string) : M (res (string * string)) :=
  if bool_decide (TrimSpace sourcePath = "") then throw "invalid site recovery source path" else
  if bool_decide (TrimSpace destinationPath = "") then throw "invalid site recovery destination path" else
  let source := Abs sourcePath in
  let destination := Abs destinationPath in
  let public := Clean public in
  let recovery := Clean recoveryRoot in
  let sourceIsPublic := bool_decide (source = public) in
  let destinationIsPublic := bool_decide (destination = public) in
  if eqb sourceIsPublic destinationIsPublic || (sourceIsPublic && negb (pathWithin recovery destination))
     || (destinationIsPublic && negb (pathWithin recovery source)) then throw "site snapshot paths must cross the configured recovery boundary" else
  let? _ := wrap "unsafe site snapshot source" attempt in
  let? _ := wrap "unsafe site snapshot destination" attempt in
  ok (source, destination).
(** The broker's rename; nothing is renamed onto something that exists. *)
Definition renameSiteSnapshot (public recoveryRoot sourcePath destinationPath : string) : M (res unit) :=
  let? (source, destination) := validateSnapshotPathsAt public recoveryRoot sourcePath destinationPath in
  let? i := wrap "inspect site snapshot source" (Lstat source) in
  match i with
  | Some (Tree _) =>
      let? d := wrap "inspect site snapshot destination" (Lstat destination) in
      if negb (bool_decide (d = None)) then throw "site snapshot destination already exists" else
      wrap "snapshot existing site" (Rename source destination)
  | None => ret (Err (EWrap "inspect site snapshot source" ErrNotExist))
  | Some Link => throw "site snapshot source must be a directory"
  end.
Definition rename (mv : Mover) (a b : string) : M (res unit) :=
  match mv with
  | Direct => Rename a b
  | Broker public recovery => let? _ := attempt in let? _ := renameSiteSnapshot public recovery a b in attempt
  end.

(** *** Rollback *)

Definition snapshotDir (dir : string) (t : SiteTransaction) : string := if bool_decide (SnapshotDir t = "") then dir else SnapshotDir t.

(** Moving what is at the home aside. *)
Definition preserve_failed (mv : Mover) (dir home : string) : tx unit :=
  let! t := get in
  let! h := twrap "inspect failed site" (lift (Lstat home)) in
  match h with
  | None => tok tt
  | Some _ =>
      let first := Join [snapshotDir dir t; "failed-site"] in
      let! failed := (λ t, x ← Lstat first; n ← now;
        ret (t, Ok (match x with Ok (Some _) => Join [snapshotDir dir t; "failed-site-" +:+ format "150405.000000000" n] | _ => first end))) in
      let! _ := twrap "preserve failed site" (lift (rename mv home failed)) in
      let! _ := modify (λ t, t <| FailedSite := failed |>) in
      twrap "record failed site" (persist dir)
  end.
Definition restore_site (mv : Mover) (dir home : string) : tx unit :=
  let! t := get in
  if negb (HadExisting t) then tok tt else
  let backup := Join [snapshotDir dir t; "site-before"] in
  let! b := twrap "recovery backup is unavailable" (lift (Lstat backup)) in
  if bool_decide (b = None) then terr (EWrap "recovery backup is unavailable" ErrNotExist) else
  twrap "restore previous site" (lift (rename mv backup home)).
Definition restore_mail (dir mailRoot : string) : tx unit :=
  if bool_decide (mailRoot = "") then tok tt else
  let! t := get in
  let! h := twrap "inspect failed mail tree" (lift (Lstat mailRoot)) in
  let! _ := match h with
            | Some _ => twrap "preserve failed mail tree" (lift (Rename mailRoot (Join [dir; "failed-mail"])))
            | None => tok tt
            end in
  if negb (MailExisting t) then tok tt else
  let mailBackup := Join [dir; "mail-before"] in
  let! b := twrap "mail recovery backup is unavailable" (lift (Lstat mailBackup)) in
  if bool_decide (b = None) then terr (EWrap "mail recovery backup is unavailable" ErrNotExist) else
  let! _ := lift (MkdirAll (Dir mailRoot)) in
  twrap "restore previous mail tree" (lift (Rename mailBackup mailRoot)).

(** The part of [Rollback] after the home of the site is known to be readable. *)
Definition roll_back (mv : Mover) (dir home mailRoot : string) : tx unit :=
  let! t := get in
  let! finished :=
    (if bool_decide (State t = RollingBack) && HadExisting t then
       λ t, b ← Lstat (Join [snapshotDir dir t; "site-before"]);
            h ← Lstat home;
            ret (t, Ok (match b, h with Ok None, Ok (Some _) => true | _, _ => false end))
     else tok false) in
  if (finished : bool) then setState dir RolledBack else
  let! _ := twrap "record rollback start" (setState dir RollingBack) in
  let! _ := preserve_failed mv dir home in
  let! _ := restore_site mv dir home in
  let! _ := restore_mail dir mailRoot in
  setState dir RolledBack.
Definition Rollback (mv : Mover) (dir : string) : tx unit := λ t,
  match validatedRecoveryPath (Home t) with
  | Err err => ret (t, Err (EWrap "invalid recovery site path" err))
  | Ok home =>
      if bool_decide (State t = Committed) || bool_decide (State t = RolledBack) then ret (t, Ok tt) else
      o ← OpenRoot (Dir home);
      match o with
      | Err err =>
          if errors_is err ErrNotExist && negb (HadExisting t) && bool_decide (MailRoot t = "") then setState dir RolledBack t
          else ret (t, Err (EWrap "open recovery site parent" err))
      | Ok _ =>
          match (if bool_decide (MailRoot t = "") then Ok "" else validatedRecoveryPath (MailRoot t)) with
          | Err err => ret (t, Err (EWrap "invalid recovery mail path" err))
          | Ok mailRoot => roll_back mv dir home mailRoot t
          end
      end
  end.
Definition Commit (dir : string) : tx unit :=
  let! _ := lift attempt in setState dir Committed.

(** ** Beginning *)

(** [os.MkdirTemp]. *)
Definition MkdirTemp (root prefix : string) : M (res string) :=
  let? _ := attempt in
  suffix ← (λ s, (Some (default "" (rand e (calls s))), mkSt (world s) (S (calls s)) (left s)));
  let d := Join [root; prefix +:+ suffix] in
  w ← look;
  if negb (bool_decide (root ∈ dirs w)) || bool_decide (d ∈ dirs w) then ret (Err io_err) else
  effect (add_dir d);; ok d.

(** Giving up: the transaction directory is removed, whose failure is ignored. *)
Definition discard {A} (dir : string) (err : error) : M (res A) := RemoveAll dir;; ret (Err err).

(** Moving the live tree aside and recording it. *)
Definition move_aside (mv : Mover) (dir home backup : string) : tx unit := λ txn,
  m ← rename mv home backup;
  match m with
  | Err err => x ← discard dir (EWrap "snapshot existing site" err); ret (txn, x)
  | Ok _ =>
      st ← setState dir BackedUp txn;
      match st with
      | (txn, Ok _) => ret (txn, Ok tt)
      | (txn, Err err) =>
          r ← Rename backup home;
          match r with
          | Err _ => ret (txn, Err (EWrap "persist recovery transaction" err))
          | Ok _ => x ← discard dir err; ret (txn, x)
          end
      end
  end.
(** The directory and the transaction. *)
Definition beginSiteTransaction (root snapshotRoot home kind site : string) (mv : Mover) : M (res (string * SiteTransaction)) :=
  if bool_decide (safeUser site = "") then throw "invalid recovery site" else
  if bool_decide (TrimSpace root = "") then throw "site recovery root is not configured" else
  let root := Abs root in
  match validatedRecoveryPath home with
  | Err err => ret (Err err)
  | Ok home =>
      let? _ := wrap "create recovery root" (MkdirAll root) in
      t0 ← now;
      let? dir := wrap "create recovery transaction" (MkdirTemp root (format "20060102-150405-" t0 +:+ site +:+ "-")) in
      c ← attempt;
      match c with
      | Err err => discard dir err
      | Ok _ =>
          sd ← (if bool_decide (snapshotRoot = "") then ok "" else
                let? _ := MkdirAll (Abs snapshotRoot) in
                let d := Join [Abs snapshotRoot; Base dir] in
                let? _ := Mkdir d in ok d);
          match sd with
          | Err err => discard dir (EWrap "create home recovery snapshot directory" err)
          | Ok snap =>
              now_ ← now;
              let backup := Join [if bool_decide (snap = "") then dir else snap; "site-before"] in
              i ← Lstat home;
              match i with
              | Err err => discard dir (EWrap "inspect destination site" err)
              | Ok (Some Link) => discard dir (EMsg "destination site is a symlink")
              | Ok existing =>
                  let had := negb (bool_decide (existing = None)) in
                  let txn := mkTx 1 (Base dir) kind site home backup "" "" "" false had snap Prepared "" now_ [] [] in
                  p ← persist dir txn;
                  match p with
                  | (_, Err err) => discard dir err
                  | (txn, Ok _) =>
                      b ← (if negb had then ret (txn, Ok tt) else move_aside mv dir home backup txn);
                      match b with
                      | (_, Err err) => ret (Err err)
                      | (txn, Ok _) =>
                          inj ← attempt;
                          match inj with
                          | Ok _ => ok (dir, txn)
                          | Err err =>
                              rb ← Rollback mv dir txn;
                              match rb with
                              | (_, Err rerr) => ret (Err (EWrap "failure injection rollback" rerr))
                              | (_, Ok _) => ret (Err err)
                              end
                          end
                      end
                  end
              end
          end
      end
  end.

(** ** Loading *)

Definition recovery_name : string := ".stepanel-recovery".
(** The checks of a decoded journal: the transaction with its clean paths. *)
Definition check_loaded (dir : string) (t : SiteTransaction) : res SiteTransaction :=
  if negb (Version t =? 1) || negb (bool_decide (ID t = Base dir)) || bool_decide (safeUser (Site t) = "")
  then Err (EMsg "invalid recovery transaction") else
  match ValidateSiteTransactionState (State t) with
  | Some err => Err (EWrap "invalid recovery transaction" err)
  | None =>
      match validatedRecoveryPath (Home t) with
      | Err _ => Err (EMsg "invalid recovery transaction: unsafe site path")
      | Ok home =>
          let t := t <| Home := home |> in
          if existsb (λ d, negb (bool_decide (validateManagedDatabase d = None))) (Databases t)
          then Err (EMsg "recovery transaction contains an invalid managed database") else
          if existsb (λ r, negb (validTrackedRouteName (Site t) (Name r))) (Routes t)
          then Err (EMsg "recovery transaction contains an invalid route") else
          let clean := Clean (SnapshotDir t) in
          let placed := negb (bool_decide (SnapshotDir t = "")) in
          if placed && (negb (IsAbs clean) || negb (bool_decide (Base clean = ID t)) || negb (bool_decide (Base (Dir clean) = recovery_name))
             || negb (bool_decide (validatePlacedRecoveryHome (Home t) (Dir (Dir clean)) = None)))
          then Err (EMsg "recovery transaction contains an unsafe snapshot directory") else
          let snap := if placed then clean else dir in
          let t := if placed then t <| SnapshotDir := clean |> else t in
          if negb (bool_decide (Clean (Backup t) = Join [snap; "site-before"]))
             || (negb (bool_decide (FailedSite t = "")) && negb (has_prefix (Clean (FailedSite t)) (snap +:+ "/")))
          then Err (EMsg "recovery transaction contains unsafe paths") else
          if negb (bool_decide (MailRoot t = "")) &&
             (negb (IsAbs (MailRoot t)) || negb (bool_decide (Clean (MailBackup t) = Join [dir; "mail-before"])))
          then Err (EMsg "recovery transaction contains unsafe mail paths") else
          Ok t
      end
  end.
Definition loadSiteTransaction (dir : string) : M (res SiteTransaction) :=
  let? _ := wrap "read recovery transaction" attempt in
  w ← look;
  match records w !! dir with
  | None => ret (Err (EWrap "read recovery transaction" ErrNotExist))
  | Some None => throw "decode recovery transaction"
  | Some (Some t) => ret (check_loaded (Abs dir) t)
  end.

(** [safePath] of plain components: its result, or an error. *)
Definition safe_path (root : string) (parts : list string) : M (res string) :=
  let? _ := attempt in ok (foldl (λ p x, Join [p; x]) root parts).
Definition validateRecoveredSitePaths (t : SiteTransaction) (webRoot mailRoot homeRoot : string) : M (res unit) :=
  let? _ :=
    if negb (bool_decide (SnapshotDir t = "")) then
      if bool_decide (homeRoot = "") || negb (bool_decide (Dir (Dir (Clean (SnapshotDir t))) = Clean homeRoot))
      then throw "recovery transaction snapshot is outside the configured home root" else
      ret (match validatePlacedRecoveryHome (Home t) homeRoot with Some err => Err err | None => Ok tt end)
    else if bool_decide (webRoot = "") then ok tt else
      let? expected := wrap "validate recovery site root" (safe_path webRoot ["sites"; Site t; "public"]) in
      if negb (bool_decide (Clean (Home t) = Clean expected)) then throw "recovery transaction site path is outside the configured web root" else ok tt in
  if bool_decide (MailRoot t = "") then ok tt else
  if bool_decide (mailRoot = "") then throw "recovery transaction mail path has no configured mail root" else
  let? expected := wrap "validate recovery mail root" (safe_path mailRoot [Site t]) in
  if negb (bool_decide (Clean (MailRoot t) = Clean expected)) then throw "recovery transaction mail path is outside the configured mail root" else ok tt.

(** ** Recovery *)

(** A directory is renamed with all it holds. *)
Definition move_dir (a b : string) (w : World) : World :=
  mkWorld (list_to_map ((λ pn, (if bool_decide (Dir pn.1 = a) then Join [b; Base pn.1] else pn.1, pn.2)) <$> map_to_list (trees w)))
    ({[b]} ∪ (dirs w ∖ {[a]}))
    (match records w !! a with Some r => <[b := r]> (delete a (records w)) | None => records w end) (vhosts w) (managed w).
Definition quarantineRecoveryTransaction (root dir : string) : M (res unit) :=
  let quarantine := Join [root; "quarantine"] in
  let? _ := MkdirAll quarantine in
  n ← now;
  let target := Join [quarantine; Base dir +:+ "-" +:+ format "20060102-150405.000000000" n] in
  let? _ := attempt in
  w ← look;
  if bool_decide (target ∈ dirs w) || negb (bool_decide (dir ∈ dirs w)) then ret (Err io_err) else
  effect (move_dir dir target);; attempt.

Definition ReadDir (root : string) : M (res (option (list string))) :=
  let? _ := attempt in w ← look; ok (if bool_decide (root ∈ dirs w) then Some (names_of w root) else None).

(** A journal that cannot be trusted: it is moved away, and reported. *)
Definition reject (root dir : string) (err : error) : M error :=
  q ← quarantineRecoveryTransaction root dir;
  ret (match q with Err _ => EWrap "quarantine transaction" err | Ok _ => EWrap "quarantined transaction" err end).
(** Loading a journal of the scan: [None] when it is left to another pass or rejected. *)
Definition load_entry (root site webRoot mailRoot homeRoot name : string) : M (option SiteTransaction * list error) :=
  let dir := Join [root; name] in
  l ← loadSiteTransaction dir;
  match l with
  | Err err => if negb (bool_decide (site = "")) then ret (None, []) else x ← reject root dir err; ret (None, [x])
  | Ok t =>
      v ← validateRecoveredSitePaths t webRoot mailRoot homeRoot;
      match v with
      | Err err => x ← reject root dir err; ret (None, [x])
      | Ok _ => ret (Some t, [])
      end
  end.

(** One journal of [recoverSiteTransactionsWithRename]: its identifier when it was rolled
    back, and the failures. [mover] is the rename for a site. *)
Definition recover_one (mover : string → Mover) (root site webRoot mailRoot homeRoot name : string) : M (list string * list error) :=
  if bool_decide (name = "quarantine") then ret ([], []) else
  l ← load_entry root site webRoot mailRoot homeRoot name;
  match l with
  | (None, fs) => ret ([], fs)
  | (Some t, _) =>
      if negb (bool_decide (site = "")) && negb (bool_decide (Site t = site)) then ret ([], []) else
      if negb (bool_decide (RecoveryRequired t = "")) then ret ([], [EMsg "transaction requires operator intervention"]) else
      if bool_decide (State t = Committed) || bool_decide (State t = RolledBack) then ret ([], []) else
      if negb (bool_decide (Databases t = [])) then ret ([], [EMsg "database cleanup is incomplete"]) else
      if negb (bool_decide (Routes t = [])) then ret ([], [EMsg "route cleanup is incomplete"]) else
      k ← attempt;
      match k with
      | Err err => ret ([], [EWrap "lock site" err])
      | Ok _ =>
          r ← Rollback (mover (Site t)) (Abs (Join [root; name])) t;
          match r with
          | (_, Err err) => ret ([], [EWrap "recover transaction" err])
          | (t, Ok _) => ret ([ID t], [])
          end
      end
  end.
Fixpoint scan (one : string → M (list string * list error)) (names : list string) : M (list string * list error) :=
  match names with
  | [] => ret ([], [])
  | name :: rest =>
      x ← one name;
      y ← scan one rest;
      ret (x.1 ++ y.1, x.2 ++ y.2)
  end.
Definition scan_root (root : string) (one : string → M (list string * list error)) : M (list string * list error) :=
  l ← ReadDir root;
  match l with
  | Err err => ret ([], [err])
  | Ok None => ret ([], [])
  | Ok (Some names) => x ← scan one names; ret (merge_sort String.le x.1, x.2)
  end.
Definition recoverSiteTransactionsWithRename (mover : string → Mover) (root site webRoot mailRoot homeRoot : string) : M (list string * list error) :=
  scan_root root (recover_one mover root site webRoot mailRoot homeRoot).

(** One journal of [recoverTransactionDatabases]. *)
Definition recover_databases_one (root site webRoot mailRoot homeRoot name : string) : M (list string * list error) :=
  if bool_decide (name = "quarantine") then ret ([], []) else
  l ← load_entry root site webRoot mailRoot homeRoot name;
  match l with
  | (None, fs) => ret ([], fs)
  | (Some t, _) =>
      if negb (bool_decide (RecoveryRequired t = "")) || bool_decide (State t = Committed) || bool_decide (State t = RolledBack)
         || (bool_decide (Databases t = []) && bool_decide (Routes t = [])) || (negb (bool_decide (site = "")) && negb (bool_decide (Site t = site)))
      then ret ([], []) else
      k ← attempt;
      match k with
      | Err err => ret ([], [EWrap "lock transaction site" err])
      | Ok _ =>
          let dir := Abs (Join [root; name]) in
          r ← (let! _ := cleanupRoutes dir (Routes t) in cleanupDatabases dir (Databases t)) t;
          match r with
          | (_, Err err) => ret ([], [EWrap "recover transaction databases" err])
          | (t, Ok _) => ret ([ID t], [])
          end
      end
  end.
Definition recoverTransactionDatabases (root site webRoot mailRoot homeRoot : string) : M (list string * list error) :=
  scan_root root (recover_databases_one root site webRoot mailRoot homeRoot).

(** ** Interventions and cleanup *)

Definition id_byte (c : ascii) : bool := is_lower c || is_upper c || is_digit c || one_of "-_" c.
Definition loadRecoveryIntervention (root id : string) : M (res (string * SiteTransaction)) :=
  if bool_decide (id = "") || negb (bool_decide (Base id = id)) || negb (all_bytes id_byte id) then throw "invalid recovery transaction ID" else
  let dir := Join [Abs root; id] in
  let? _ := wrap "inspect recovery transaction" attempt in
  w ← look;
  if negb (bool_decide (dir ∈ dirs w)) then ret (Err (EWrap "inspect recovery transaction" ErrNotExist)) else
  let? t := loadSiteTransaction dir in
  if bool_decide (RecoveryRequired t = "") then throw "recovery transaction has no pending operator intervention" else ok (dir, t).
Definition resolveRecoveryIntervention (root id : string) : M (res unit) :=
  let? (dir, t) := loadRecoveryIntervention root id in
  r ← persist dir (t <| RecoveryRequired := "" |>);
  ret (match r.2 with Ok _ => Ok tt | Err err => Err (EWrap "clear recovery intervention" err) end).

Fixpoint cleanup_entries (root webRoot mailRoot homeRoot : string) (cutoff : Z) (names : list string) : M (res unit) :=
  match names with
  | [] => ok tt
  | name :: rest =>
      if bool_decide (name = "quarantine") then cleanup_entries root webRoot mailRoot homeRoot cutoff rest else
      let dir := Join [root; name] in
      let? t := loadSiteTransaction dir in
      let? _ := validateRecoveredSitePaths t webRoot mailRoot homeRoot in
      if bool_decide (RecoveryRequired t = "") && (bool_decide (State t = Committed) || bool_decide (State t = RolledBack)) && (UpdatedAt t <? cutoff) then
        let? _ := if bool_decide (SnapshotDir t = "") then ok tt else RemoveAll (SnapshotDir t) in
        let? _ := RemoveAll dir in
        cleanup_entries root webRoot mailRoot homeRoot cutoff rest
      else cleanup_entries root webRoot mailRoot homeRoot cutoff rest
  end.
Definition CleanupSiteTransactions (root : string) (maxAge : Z) (webRoot mailRoot homeRoot : string) : M (res unit) :=
  let? l := ReadDir root in
  match l with
  | None => ok tt
  | Some names => t ← now; cleanup_entries root webRoot mailRoot homeRoot (t - maxAge) names
  end.
End transactions.
End SiteTx.
