(* ===== verification/SiteTxProps.v ===== *)
(** * SiteTxProps: a killed restore is undone

    Theorems about [SiteTx]: a transaction that began, and whose work and recoveries
    are killed anywhere and any number of times, ends with the old tree at its place;
    and the sequences of kills and failures for which this does not hold. *)
From S2P Require Import Prelude Effects GoPath GoText Regex Names SiteLayout Sites SitesProps SiteTx.

Module SiteTxProps.
Import GoPath GoText Regex Names SiteLayout SitesProps SiteTx.
#[local] Open Scope host_scope.

(** ** Rules *)

Lemma holds_tbind {A B} (m : tx A) (f : A → tx B) t s Q :
  holds (m t) s (λ o s', match o with
    | Some (t', Ok a) => holds (f a t') s' Q
    | Some (t', Err err) => Q (Some (t', Err err)) s'
    | None => Q None s' end) → holds (tbind m f t) s Q.
Proof. intros H. unfold tbind. apply holds_bind. eapply holds_mono; [|exact H]. by intros [[t' [a|err]]|] s' H'. Qed.
Lemma holds_twrap {A} what (m : tx A) t s Q :
  holds (m t) s (λ o s', match o with Some (t', Err err) => Q (Some (t', Err (EWrap what err))) s' | _ => Q o s' end) → holds (twrap what m t) s Q.
Proof. intros H. unfold twrap. apply holds_bind. eapply holds_mono; [|exact H]. by intros [[t' [a|err]]|] s' H'. Qed.
Lemma holds_lift {A} (m : M (res A)) t s Q :
  holds m s (λ o s', match o with Some r => Q (Some (t, r)) s' | None => Q None s' end) → holds (lift m t) s Q.
Proof. intros H. unfold lift. apply holds_bind. eapply holds_mono; [|exact H]. by intros [r|] s' H'. Qed.

(** The effects left after [s], when [s] is never killed. *)
Definition later (s : St World) (l : option nat) : Prop := left s = None → l = None.
(** A killed run, only when it can be. *)
Definition killable (s : St World) : Prop := left s ≠ None.

Section quiet.
Context (e : Env) (Hq : quiet e) (cwd : string) (format : string → Z → string).

Lemma quiet_effect f s (Q : option unit → St World → Prop) :
  (killable s → Q None s) → (∀ l, later s l → Q (Some tt) (mkSt (f (world s)) (calls s) l)) → holds (effect f) s Q.
Proof. unfold holds, effect, later, killable. destruct (left s) as [[|n]|]; intros H1 H2; [by apply H1|by apply H2|by apply H2]. Qed.
Lemma quiet_tx_Lstat p s : reads (Lstat e p) s (eq (Ok (trees (world s) !! p))).
Proof.
  unfold Lstat. eapply reads_rok; [by apply quiet_attempt|]. intros c. eapply reads_bind; [apply reads_look|]. intros ? c' <-. by apply reads_ret.
Qed.
Lemma quiet_tx_Rename a b s Q : can_move a b (world s) = true →
  (killable s → ∀ c, Q None (at_call s c)) → (∀ c l, later s l → Q (Some (Ok tt)) (mkSt (move a b (world s)) c l)) → holds (Rename e a b) s Q.
Proof.
  intros Hm Hk HQ. unfold Rename. eapply holds_rok; [by apply quiet_attempt|]. intros c. eapply holds_read; [apply reads_look|]. intros ? c' <-.
  cbn [world at_call]. rewrite Hm. apply holds_bind, quiet_effect; [intros K; by apply Hk|]. intros l Hl. apply holds_ret. by apply HQ.
Qed.
Lemma quiet_tx_persist dir t s Q : ValidateSiteTransactionState (State t) = None → dir ∈ dirs (world s) →
  (killable s → ∀ c, Q None (at_call s c)) →
  (∀ z c l, later s l → Q (Some (t <| UpdatedAt := z |>, Ok tt)) (mkSt (put_record dir (t <| UpdatedAt := z |>) (world s)) c l)) →
  holds (persist e dir t) s Q.
Proof.
  intros Hv Hd Hk HQ. unfold persist. rewrite Hv. eapply holds_read; [apply reads_now|]. intros z c _.
  apply holds_bind. unfold rbind. apply holds_bind. destruct (quiet_attempt e Hq (at_call s c)) as (r & c1 & E & <-). unfold holds at 1. rewrite E. cbn [fst snd].
  eapply holds_read; [apply reads_look|]. intros ? c2 <-. cbn [world at_call]. rewrite bool_decide_true by done. cbn [negb].
  apply holds_bind, quiet_effect; [intros K; by apply (Hk K)|]. intros l Hl. cbn [world at_call calls].
  destruct (quiet_attempt e Hq (mkSt (put_record dir (t <| UpdatedAt := z |>) (world s)) c2 l)) as (r & c3 & E3 & <-). unfold holds at 1. rewrite E3. cbn [fst snd].
  apply holds_ret. by apply HQ.
Qed.
Lemma quiet_setState dir next t s Q : ValidateSiteTransactionTransition (State t) next = None → dir ∈ dirs (world s) →
  (killable s → ∀ c, Q None (at_call s c)) →
  (∀ z c l, later s l → Q (Some (t <| State := next |> <| UpdatedAt := z |>, Ok tt)) (mkSt (put_record dir (t <| State := next |> <| UpdatedAt := z |>) (world s)) c l)) →
  holds (setState e dir next t) s Q.
Proof.
  intros Hv Hd Hk HQ. unfold setState. rewrite Hv. apply holds_bind, quiet_tx_persist; [|done|done|].
  - unfold ValidateSiteTransactionTransition in Hv. cbn. destruct (ValidateSiteTransactionState (State t)); [done|]. by destruct (ValidateSiteTransactionState next).
  - intros z c l Hl. apply holds_ret. by apply HQ.
Qed.
End quiet.

Lemma validated_same p h : validatedRecoveryPath p = Ok h → h = p.
Proof.
  unfold validatedRecoveryPath. destruct (_ || _); [done|]. cbn zeta. destruct (negb (bool_decide (Clean p = p))) eqn:E; [done|].
  apply negb_false_iff, bool_decide_eq_true in E. destruct (_ || _); [done|]. intros [= <-]. exact E.
Qed.

Lemma validated_fixed cwd p h : validatedRecoveryPath p = Ok h → Sites.Abs cwd p = p ∧ Clean p = p ∧ IsAbs p = true.
Proof.
  intros H. pose proof (validated_same _ _ H) as ->. unfold validatedRecoveryPath in H. destruct (_ || _) eqn:E; [done|]. cbn zeta in H.
  destruct (_ || _) in H; [done|]. injection H as H. apply orb_false_iff in E as [_ E%negb_false_iff]. unfold Sites.Abs. by rewrite E, H.
Qed.

(** Trimming an absolute path leaves something. *)
Lemma strip_any_keeps c ps l r : Forall (λ p, c ∉ p) ps → strip_any ps l = Some r → c ∈ l → c ∈ r.
Proof.
  induction 1 as [|p ps Hp _ IH]; [done|]. cbn. destruct (strip_prefix p l) as [x|] eqn:E; [|by apply IH].
  intros [= ->]. apply strip_prefix_Some in E as ->. intros [|]%elem_of_app; done.
Qed.
Lemma strip_leading_keeps c n ps l : Forall (λ p, c ∉ p) ps → c ∈ l → c ∈ strip_leading n ps l.
Proof.
  intros Hps. revert l. induction n as [|n IH]; intros l Hl; [done|]. cbn. destruct (strip_any ps l) as [r|] eqn:E; [|done].
  apply IH. by eapply strip_any_keeps.
Qed.
Lemma TrimSpace_abs p : IsAbs p = true → TrimSpace p ≠ "".
Proof.
  intros Hp E. assert (slash ∈ bytes_of (TrimSpace p)) as H; [|rewrite E in H; by apply elem_of_nil in H].
  unfold TrimSpace. rewrite bytes_of_of. apply elem_of_reverse, strip_leading_keeps.
  { apply (bool_decide_unpack _). by vm_compute. }
  apply elem_of_reverse, strip_leading_keeps; [apply (bool_decide_unpack _); by vm_compute|]. unfold IsAbs, rooted_path in Hp. destruct (bytes_of p) as [|c l]; [done|].
  apply bool_decide_eq_true in Hp. set_solver.
Qed.

(** What loading checks does not depend on the phase. *)
Lemma load_set dir t st f z : check_loaded dir t = Ok t → ValidateSiteTransactionState st = None →
  f = "" ∨ has_prefix (Clean f) (snapshotDir dir t +:+ "/") = true →
  check_loaded dir (t <| State := st |> <| FailedSite := f |> <| UpdatedAt := z |>) = Ok (t <| State := st |> <| FailedSite := f |> <| UpdatedAt := z |>).
Proof.
  destruct t as [v i k si h b fs mr mb me he sn s0 rr u db ro]. unfold check_loaded, snapshotDir.
  cbn -[validatedRecoveryPath Clean Join safeUser validatePlacedRecoveryHome Dir Base IsAbs has_prefix]. intros H Hst Hf. rewrite Hst.
  destruct (negb (v =? 1) || _ || _); [done|]. destruct (ValidateSiteTransactionState s0); [done|]. destruct (validatedRecoveryPath h) as [h'|]; [|done].
  cbn -[Clean Join safeUser validatePlacedRecoveryHome Dir Base IsAbs has_prefix] in *.
  destruct (existsb _ db); [done|]. destruct (existsb _ ro); [done|]. destruct (negb (bool_decide (sn = "")) && _) eqn:E1; [done|].
  assert (negb (bool_decide (f = "")) && negb (has_prefix (Clean f) (if bool_decide (sn = "") then dir +:+ "/" else sn +:+ "/")) = false) as Hg.
  { destruct Hf as [->|Hf]; [done|]. destruct (bool_decide (sn = "")); rewrite Hf; apply andb_false_r. }
  destruct (bool_decide (sn = "")) eqn:E2; cbn -[Clean Join has_prefix IsAbs] in *.
  all: destruct (negb (bool_decide (Clean b = _))); [done|]; cbn -[Clean Join has_prefix IsAbs] in *.
  all: destruct (negb (bool_decide (fs = "")) && _); [done|]; destruct (negb (bool_decide (mr = "")) && _); [done|]; injection H; intros; subst.
  - by rewrite Hg.
  - match goal with E : Clean _ = _ |- _ => rewrite E in * end. by rewrite Hg.
Qed.

(** ** Loading *)

(** The configured roots, and the journaled paths agree with them. *)
Definition roots_agree (t : SiteTransaction) (webRoot mailRoot homeRoot : string) : Prop :=
  (if bool_decide (SnapshotDir t = "")
   then webRoot = "" ∨ Clean (Home t) = Clean (joined webRoot ["sites"; Site t; "public"])
   else homeRoot ≠ "" ∧ Dir (Dir (Clean (SnapshotDir t))) = Clean homeRoot ∧ validatePlacedRecoveryHome (Home t) homeRoot = None) ∧
  (MailRoot t = "" ∨ mailRoot ≠ "" ∧ Clean (MailRoot t) = Clean (joined mailRoot [Site t])).

Section loading.
Context (e : Env) (Hq : quiet e) (cwd : string) (format : string → Z → string) (webRoot mailRoot homeRoot : string).
Lemma quiet_safe_path r l what s : reads (wrap what (safe_path e r l)) s (eq (Ok (joined r l))).
Proof. eapply reads_wrap_ok, reads_rok; [by apply quiet_attempt|]. intros c. by apply reads_ret. Qed.
Lemma quiet_paths t s : roots_agree t webRoot mailRoot homeRoot → reads (validateRecoveredSitePaths e t webRoot mailRoot homeRoot) s (eq (Ok tt)).
Proof.
  intros [Hh Hm]. unfold validateRecoveredSitePaths. eapply reads_rok.
  - destruct (bool_decide (SnapshotDir t = "")); cbn [negb].
    + case_bool_decide; [by apply reads_ret|]. destruct Hh as [|Hr]; [done|]. eapply reads_rok; [apply quiet_safe_path|].
      intros c. rewrite Hr, bool_decide_true by done. by apply reads_ret.
    + destruct Hh as (H1 & H2 & H3). rewrite bool_decide_false, bool_decide_true, H3 by done. by apply reads_ret.
  - intros c. destruct (bool_decide_reflect (MailRoot t = "")) as [E|E]; [by apply reads_ret|]. destruct Hm as [|[Hm Hr]]; [done|].
    rewrite bool_decide_false by done.
    eapply reads_rok; [apply quiet_safe_path|]. intros c'. rewrite Hr, bool_decide_true by done. by apply reads_ret.
Qed.
Lemma quiet_load root name t s : clean_abs root → plainb name = true → records (world s) !! Join [root; name] = Some (Some t) →
  check_loaded (Join [root; name]) t = Ok t → roots_agree t webRoot mailRoot homeRoot →
  reads (load_entry e cwd format root "" webRoot mailRoot homeRoot name) s (eq (Some t, [])).
Proof.
  intros Hroot Hn Hr Hc Ha. unfold load_entry. apply (reads_bind _ _ _ (eq (Ok t))).
  { unfold loadSiteTransaction. eapply reads_rok; [by apply reads_wrap_ok, quiet_attempt|]. intros c. eapply reads_bind; [apply reads_look|]. intros ? c' <-.
    cbn [world at_call]. rewrite Hr. rewrite Abs_abs by (by apply clean_Join). rewrite Hc. by apply reads_ret. }
  intros ? c <-. eapply reads_bind; [by apply quiet_paths|]. intros ? c' <-. by apply reads_ret.
Qed.

(** A name of the recovery root with nothing to do: the quarantine, or a finished
    transaction. *)
Definition idle (rs : gmap string (option SiteTransaction)) (root name : string) : Prop :=
  name = "quarantine" ∨ plainb name = true ∧ ∃ t, rs !! Join [root; name] = Some (Some t) ∧ check_loaded (Join [root; name]) t = Ok t ∧
    roots_agree t webRoot mailRoot homeRoot ∧ RecoveryRequired t = "" ∧ (State t = Committed ∨ State t = RolledBack).
Lemma quiet_idle mover root name s : clean_abs root → idle (records (world s)) root name →
  reads (recover_one e cwd format mover root "" webRoot mailRoot homeRoot name) s (eq ([], [])).
Proof.
  intros Hroot Hi. unfold recover_one. case_bool_decide as E; [by apply reads_ret|]. destruct Hi as [|(Hn & t & Hr & Hc & Ha & H1 & H2)]; [done|].
  eapply reads_bind; [by apply (quiet_load root name t)|]. intros ? c <-. rewrite H1. cbn.
  destruct H2 as [-> | ->]; by apply reads_ret.
Qed.
End loading.

(** ** One transaction *)

(** A transaction that moved a site aside: its journal is well formed and nothing is where
    its trees go. [D] are the directories. *)
Record begun (root id : string) (t : SiteTransaction) (D : gset string) : Prop := {
  bg_root : clean_abs root;
  bg_id : plainb id = true;
  bg_active : id ≠ "quarantine";
  bg_load : check_loaded (Join [root; id]) t = Ok t;
  bg_had : HadExisting t = true;
  bg_plain : MailRoot t = "" ∧ Databases t = [] ∧ Routes t = [] ∧ RecoveryRequired t = "" ∧ FailedSite t = "";
  bg_snap : clean_abs (snapshotDir (Join [root; id]) t);
  bg_apart : Dir (Home t) ≠ snapshotDir (Join [root; id]) t;
  bg_only : ∀ w, dirs w = D → id ∈ names_of w root;
  bg_dirs : root ∈ D ∧ Join [root; id] ∈ D ∧ snapshotDir (Join [root; id]) t ∈ D ∧ Dir (Home t) ∈ D;
  bg_free : Home t ∉ D ∧ Join [snapshotDir (Join [root; id]) t; "site-before"] ∉ D ∧ Join [snapshotDir (Join [root; id]) t; "failed-site"] ∉ D }.

Section one.
Context (root id : string) (t0 : SiteTransaction) (D : gset string) (old : string) (B : begun root id t0 D).
Let dir := Join [root; id].
Let sd := snapshotDir dir t0.
Let home := Home t0.
Let backup := Join [sd; "site-before"].
Let failed := Join [sd; "failed-site"].

Definition variant (st : SiteTransactionState) (f : string) (z : Z) : SiteTransaction :=
  t0 <| State := st |> <| FailedSite := f |> <| UpdatedAt := z |>.

Lemma backup_failed : backup ≠ failed.
Proof. intros E. destruct (Join_inj sd sd "site-before" "failed-site" (bg_snap _ _ _ _ B) (bg_snap _ _ _ _ B) eq_refl eq_refl E) as [_ ?]. done. Qed.
Lemma home_backup : home ≠ backup.
Proof. intros E. apply (bg_apart _ _ _ _ B). fold home dir sd. rewrite E. unfold backup. by rewrite Dir_Join by (apply B || done). Qed.
Lemma home_failed : home ≠ failed.
Proof. intros E. apply (bg_apart _ _ _ _ B). fold home dir sd. rewrite E. unfold failed. by rewrite Dir_Join by (apply B || done). Qed.
Lemma Dir_sub x : plainb x = true → Dir (Join [sd; x]) = sd.
Proof. intros Hx. apply Dir_Join; [apply B|done]. Qed.
Lemma home_valid : validatedRecoveryPath home = Ok home.
Proof.
  pose proof (bg_load _ _ _ _ B) as H. unfold check_loaded in H. destruct (_ || _); [done|]. destruct (ValidateSiteTransactionState (State t0)); [done|].
  fold home in H. destruct (validatedRecoveryPath home) as [h|] eqn:E; [|done]. by rewrite (validated_same _ _ E).
Qed.

(** The mover of the site. The broker refuses to move a symbolic link; a rename of the process
    moves anything. *)
Context (mv : Mover).
Definition movable (o : option Entry) : Prop := mv = Direct ∨ o ≠ Some Link.

(** Where the trees and the journal can be. *)
Inductive phase (w : World) : Prop :=
  | ph_aside st f z : records w !! dir = Some (Some (variant st f z)) → st = BackedUp ∨ st = RollingBack → f = "" ∨ f = failed →
      trees w !! backup = Some (Tree old) → movable (trees w !! home) → trees w !! failed = None ∨ trees w !! home = None → phase w
  | ph_back st f z : records w !! dir = Some (Some (variant st f z)) → st = RollingBack ∨ st = RolledBack → f = "" ∨ f = failed →
      trees w !! home = Some (Tree old) → trees w !! backup = None → phase w.
Definition settled (w : World) : Prop :=
  trees w !! home = Some (Tree old) ∧ ∃ f z, records w !! dir = Some (Some (variant RolledBack f z)).

Lemma load_variant st f z : ValidateSiteTransactionState st = None → f = "" ∨ f = failed → check_loaded dir (variant st f z) = Ok (variant st f z).
Proof.
  intros Hst Hf. unfold variant. apply load_set; [apply B|done|]. destruct Hf as [->| ->]; [by left|right]. fold sd.
  pose proof (bg_snap _ _ _ _ B) as Hsd. fold dir sd in Hsd. rewrite Clean_clean by (by apply clean_Join). unfold failed. rewrite Join_text by done.
  apply has_prefix_iff. exists "failed-site". apply (inj bytes_of). rewrite !bytes_of_app. by rewrite <- !app_assoc.
Qed.

(** *** Without failures *)
Context (e : Env) (Hq : quiet e) (cwd : string) (format : string → Z → string).
(** The process renames, or a broker that knows the site and its recovery root. *)
Definition crosses : Prop :=
  mv = Direct ∨ ∃ rec, mv = Broker home rec ∧ Clean rec = rec ∧ pathWithin rec sd = true ∧ Forall (λ p, TrimSpace p ≠ "") [home; backup; failed].

Lemma home_fixed : Sites.Abs cwd home = home ∧ Clean home = home.
Proof. destruct (validated_fixed cwd _ _ home_valid) as (? & ? & _). done. Qed.
Lemma sub_fixed x : plainb x = true → Sites.Abs cwd (Join [sd; x]) = Join [sd; x].
Proof. intros Hx. apply Abs_abs, clean_Join; [apply B|done]. Qed.
Lemma sub_within rec x : plainb x = true → pathWithin rec sd = true → pathWithin rec (Join [sd; x]) = true.
Proof.
  intros Hx H. pose proof (bg_snap _ _ _ _ B) as Hsd. fold dir sd in Hsd. unfold pathWithin in *. apply orb_true_iff. right. rewrite Join_text by done.
  apply has_prefix_iff. apply orb_true_iff in H as [<-%bool_decide_eq_true|[r Hr]%has_prefix_iff].
  - exists x. apply (inj bytes_of). rewrite !bytes_of_app. by rewrite <- !app_assoc.
  - exists (r +:+ "/" +:+ x). rewrite Hr. apply (inj bytes_of). rewrite !bytes_of_app. by rewrite <- !app_assoc.
Qed.

(** A rename between the home and a snapshot. *)
Lemma quiet_rename a b c s Q : crosses →
  (a = home ∧ b = failed) ∨ (a = backup ∧ b = home) → trees (world s) !! a = Some c → movable (Some c) → can_move a b (world s) = true →
  (killable s → ∀ cc, Q None (at_call s cc)) → (∀ cc l, later s l → Q (Some (Ok tt)) (mkSt (move a b (world s)) cc l)) →
  holds (rename e cwd mv a b) s Q.
Proof.
  intros Hmv Hab Ha Hlk Hcan Hk HQ. destruct Hmv as [Hmv|(rec & Hmv & Hrec & Hw & Htrim)]; rewrite Hmv; [by apply quiet_tx_Rename|].
  destruct Hlk as [|Hlk]; [congruence|]. destruct c as [c|]; [|done].
  destruct home_fixed as [Hh1 Hh2]. apply Forall_cons in Htrim as [T1 [T2 T3]%Forall_cons]. apply Forall_cons in T3 as [T3 _].
  assert (Sites.Abs cwd a = a ∧ Sites.Abs cwd b = b ∧ TrimSpace a ≠ "" ∧ TrimSpace b ≠ "" ∧
    (bool_decide (a = home) = true ∧ bool_decide (b = home) = false ∧ pathWithin rec b = true ∨
     bool_decide (a = home) = false ∧ bool_decide (b = home) = true ∧ pathWithin rec a = true)) as (Ea & Eb & Ta & Tb & Hcross).
  { pose proof home_failed as Hhf. pose proof home_backup as Hhb.
    destruct Hab as [[-> ->]|[-> ->]]; split_and!; try done; try (by apply sub_fixed).
    - left. rewrite bool_decide_true, bool_decide_false by done. by split_and!; [..|apply sub_within].
    - right. rewrite (bool_decide_false (backup = home)), bool_decide_true by done. by split_and!; [..|apply sub_within]. }
  unfold rename. eapply holds_rok; [by apply quiet_attempt|]. intros c1. unfold rbind at 1. apply holds_bind. unfold renameSiteSnapshot.
  eapply holds_rok.
  { unfold validateSnapshotPathsAt. rewrite Ea, Eb, Hh2, Hrec. rewrite !(bool_decide_false (TrimSpace _ = "")) by done.
    assert (eqb (bool_decide (a = home)) (bool_decide (b = home)) || bool_decide (a = home) && negb (pathWithin rec b)
      || bool_decide (b = home) && negb (pathWithin rec a) = false) as ->.
    { destruct Hcross as [(-> & -> & ->)|(-> & -> & ->)]; done. }
    eapply reads_rok; [by apply reads_wrap_ok, quiet_attempt|]. intros c2. eapply reads_rok; [by apply reads_wrap_ok, quiet_attempt|]. intros c3.
    by apply reads_ret. }
  intros c2. cbn beta iota. eapply holds_rok; [by apply reads_wrap_ok, quiet_tx_Lstat|]. intros c3. cbn [world at_call]. rewrite Ha.
  eapply holds_rok; [by apply reads_wrap_ok, quiet_tx_Lstat|]. intros c4. cbn [world at_call].
  assert (trees (world s) !! b = None) as Hb.
  { unfold can_move in Hcan. rewrite !andb_true_iff in Hcan. destruct Hcan as [[_ Hcan%bool_decide_eq_true] _]. done. }
  rewrite Hb, bool_decide_true by done. cbn [negb]. apply holds_wrap, quiet_tx_Rename; [done|done|intros K cc; by apply (Hk K)|].
  intros cc l Hl. destruct (quiet_attempt e Hq (mkSt (move a b (world s)) cc l)) as (r & c5 & E5 & <-). cbn [world at_call]. unfold holds. rewrite E5. by apply HQ.
Qed.

(** *** The steps of a rollback *)
Context (Hmv : crosses).

(** [s0] is where the recovery starts. *)
Section steps.
Context (s0 : St World) (Hs0 : dirs (world s0) = D).
(** The rest of the host: the directories and the other journals. *)
Definition rest (w : World) : gset string * gmap string (option SiteTransaction) := (dirs w, delete dir (records w)).
Lemma rest_move a b w : rest (move a b w) = rest w.
Proof. unfold move. by destruct (trees w !! a). Qed.
Lemma rest_put t w : rest (put_record dir t w) = rest w.
Proof. unfold rest. cbn. by rewrite delete_insert_eq. Qed.
Definition done_ (o : option (SiteTransaction * res unit)) (s : St World) : Prop :=
  rest (world s) = rest (world s0) ∧ phase (world s) ∧ (left s0 = None → (∃ f z, o = Some (variant RolledBack f z, Ok tt)) ∧ settled (world s) ∧ left s = None).
(** On the way from [s0]. *)
Definition on_way (s : St World) : Prop := rest (world s) = rest (world s0) ∧ (left s0 = None → left s = None).
Lemma on_way_dirs s : on_way s → dirs (world s) = D.
Proof. intros [[= E _] _]. by rewrite E. Qed.
Lemma killed_done s c : on_way s → phase (world s) → killable s → done_ None (at_call s c).
Proof. intros [Hd Hl] Hp Hk. split; [done|]. split; [done|]. intros E. by destruct (Hk (Hl E)). Qed.
Lemma on_way_later s w c l : on_way s → rest w = rest (world s) → later s l → on_way (mkSt w c l).
Proof. intros [Hd Hl] Hw Hla. split; cbn; [congruence|]. intros E. by apply Hla, Hl. Qed.
Lemma dir_in s : on_way s → dir ∈ dirs (world s).
Proof. intros Hw. rewrite (on_way_dirs s Hw). apply B. Qed.

(** The site is back: only the journal is left to write. *)
Lemma finish_back f z s : on_way s → f = "" ∨ f = failed → records (world s) !! dir = Some (Some (variant RollingBack f z)) →
  trees (world s) !! home = Some (Tree old) → trees (world s) !! backup = None →
  holds (setState e dir RolledBack (variant RollingBack f z)) s done_.
Proof.
  intros Hw Hf Hr Hh Hb. apply quiet_setState; [done|done|by apply dir_in|intros K c; apply killed_done; [done| |done]; by eapply ph_back; eauto|].
  intros z' c l Hl. assert (records (put_record dir (variant RolledBack f z') (world s)) !! dir = Some (Some (variant RolledBack f z'))) as Hr' by (cbn; apply lookup_insert_eq).
  split; [cbn [world]; rewrite rest_put; apply Hw|]. split; [by eapply ph_back; [exact Hr'|auto..]|]. intros K. split; [by exists f, z'|]. split; [|by apply Hl, Hw]. split; [exact Hh|]. by exists f, z'.
Qed.

(** Putting the old site back. *)
Lemma can_put_back w : dirs w = D → trees w !! backup = Some (Tree old) → trees w !! home = None → can_move backup home w = true.
Proof.
  intros Hd Hb Hh. unfold can_move. rewrite Hd, Hb, Hh. destruct (bg_dirs _ _ _ _ B) as (_ & _ & _ & D4). destruct (bg_free _ _ _ _ B) as (F1 & _).
  rewrite !bool_decide_true; [done|done|done|by eexists|done].
Qed.
Lemma restore_done f z s : on_way s → f = "" ∨ f = failed → records (world s) !! dir = Some (Some (variant RollingBack f z)) →
  trees (world s) !! backup = Some (Tree old) → trees (world s) !! home = None →
  holds ((let! _ := restore_site e cwd mv dir home in let! _ := restore_mail e dir "" in setState e dir RolledBack) (variant RollingBack f z)) s done_.
Proof.
  intros Hw Hf Hr Hb Hh. apply holds_tbind. unfold restore_site. apply holds_tbind. apply holds_ret.
  change (HadExisting (variant RollingBack f z)) with (HadExisting t0). rewrite (bg_had _ _ _ _ B). cbn [negb].
  change (Join [snapshotDir dir (variant RollingBack f z); "site-before"]) with backup.
  apply holds_tbind, holds_twrap, holds_lift. eapply holds_reads; [by apply quiet_tx_Lstat|]. intros ? c1 <-. cbn beta iota. rewrite Hb, bool_decide_false by done.
  apply holds_twrap, holds_lift. apply (quiet_rename backup home (Tree old)); [done|by right|done|by right|by apply can_put_back; [by apply on_way_dirs|..]| |].
  { intros K c2. apply (killed_done s); [done| |done]. eapply ph_aside; eauto. rewrite Hh. by right. }
  intros c2 l Hl. cbn [world at_call] in *. assert (on_way (mkSt (move backup home (world s)) c2 l)) as Hw2.
  { apply (on_way_later s); [done|apply rest_move|done]. }
  apply holds_tbind, holds_ret. apply (finish_back f z); [done|done|..]; cbn [world]; unfold move; rewrite Hb; cbn.
  - done.
  - apply lookup_insert_eq.
  - rewrite lookup_insert_ne by apply home_backup. apply lookup_delete_eq.
Qed.

(** Moving aside what is at the home, then putting the old site back. *)
Lemma can_preserve w c : dirs w = D → trees w !! home = Some c → trees w !! failed = None → can_move home failed w = true.
Proof.
  intros Hd Hh Hfl. unfold can_move. rewrite Hd, Hh, Hfl. assert (Dir failed = sd) as -> by (by apply Dir_sub).
  destruct (bg_dirs _ _ _ _ B) as (_ & _ & D3 & _). destruct (bg_free _ _ _ _ B) as (_ & _ & F3).
  rewrite !bool_decide_true; [done|done|done|by eexists|done].
Qed.
Lemma preserve_done f z s : on_way s → f = "" ∨ f = failed → records (world s) !! dir = Some (Some (variant RollingBack f z)) →
  trees (world s) !! backup = Some (Tree old) → movable (trees (world s) !! home) → trees (world s) !! failed = None ∨ trees (world s) !! home = None →
  holds ((let! _ := preserve_failed e cwd format mv dir home in
          let! _ := restore_site e cwd mv dir home in let! _ := restore_mail e dir "" in setState e dir RolledBack) (variant RollingBack f z)) s done_.
Proof.
  intros Hw Hf Hr Hb Hlk Hfl. apply holds_tbind. unfold preserve_failed. apply holds_tbind, holds_ret.
  apply holds_tbind, holds_twrap, holds_lift. eapply holds_reads; [by apply quiet_tx_Lstat|]. intros ? c1 <-. cbn beta iota. cbn [world at_call].
  destruct (trees (world s) !! home) as [c|] eqn:Hh.
  2:{ apply holds_ret. by apply (restore_done f z (at_call s c1)). }
  destruct Hfl as [Hfl|]; [|done]. apply holds_tbind. eapply holds_read; [by apply quiet_tx_Lstat|]. intros ? c2 <-. cbn [world at_call].
  change (Join [snapshotDir dir (variant RollingBack f z); "failed-site"]) with failed. rewrite Hfl.
  eapply holds_read; [apply reads_now|]. intros zz c3 _. apply holds_ret. cbn beta iota.
  assert (phase (world s)) as Hph by (eapply ph_aside; eauto; by rewrite Hh).
  apply holds_tbind, holds_twrap, holds_lift. apply (quiet_rename home failed c); [done|by left|done|done|by eapply can_preserve; [by apply on_way_dirs|..]| |].
  { intros K c4. by apply (killed_done s). }
  intros c4 l Hl. cbn [world at_call] in *. set (w1 := move home failed (world s)).
  assert (on_way (mkSt w1 c4 l)) as Hw1 by (apply (on_way_later s); [done|apply rest_move|done]).
  assert (trees w1 !! home = None ∧ trees w1 !! backup = Some (Tree old) ∧ records w1 = records (world s)) as (T1 & T2 & T3).
  { pose proof home_failed. pose proof home_backup. pose proof backup_failed. unfold w1, move. rewrite Hh. cbn. split_and!; [|..|done].
    - by rewrite lookup_insert_ne, lookup_delete_eq.
    - by rewrite lookup_insert_ne, lookup_delete_ne. }
  apply holds_tbind, holds_ret. apply holds_twrap.
  apply quiet_tx_persist; [done|done|by apply (dir_in (mkSt w1 c4 l))| |].
  { intros K c5. apply (killed_done (mkSt w1 c4 l)); [done| |done]. apply (ph_aside w1 RollingBack f z); [by rewrite T3|by right|done|done|rewrite T1; by right|by right]. }
  intros z' c5 l' Hl'. apply (restore_done failed z'); [apply (on_way_later (mkSt w1 c4 l)); [done|apply rest_put|done]|by right|..]; cbn [world put_record records trees].
  - apply lookup_insert_eq.
  - exact T2.
  - exact T1.
Qed.

(** A rollback of the journal that was read. *)
Lemma rollback_done st f z s : on_way s → phase (world s) → records (world s) !! dir = Some (Some (variant st f z)) → st ≠ RolledBack →
  holds (Rollback e cwd format mv dir (variant st f z)) s done_.
Proof.
  intros Hw Hph Hr Hst. unfold Rollback. change (Home (variant st f z)) with home. rewrite home_valid.
  assert ((st = BackedUp ∨ st = RollingBack) ∧ (f = "" ∨ f = failed)) as [Hst2 Hf].
  { destruct Hph as [st' f' z' Hr' Hs' Hf'|st' f' z' Hr' Hs' Hf']; rewrite Hr in Hr'; injection Hr'; intros; subst; naive_solver. }
  change (State (variant st f z)) with st. rewrite (bool_decide_false (st = Committed)), (bool_decide_false (st = RolledBack)) by (destruct Hst2; congruence). cbn [orb].
  unfold OpenRoot. apply (holds_read _ _ _ (eq (Ok tt))).
  { eapply reads_rok; [by apply quiet_attempt|]. intros c. eapply reads_bind; [apply reads_look|]. intros ? c' <-. cbn [world at_call].
    rewrite (on_way_dirs s Hw), bool_decide_true by apply B. by apply reads_ret. }
  intros ? c1 <-. change (MailRoot (variant st f z)) with (MailRoot t0). destruct (bg_plain _ _ _ _ B) as (-> & _). rewrite bool_decide_true by done.
  unfold roll_back. apply holds_tbind, holds_ret. change (State (variant st f z)) with st. change (HadExisting (variant st f z)) with (HadExisting t0).
  rewrite (bg_had _ _ _ _ B), andb_true_r.
  change (Join [snapshotDir dir (variant st f z); "site-before"]) with backup.
  apply holds_tbind. case_bool_decide as E.
  - subst st. eapply holds_read; [by apply quiet_tx_Lstat|]. intros ? c2 <-. eapply holds_read; [by apply quiet_tx_Lstat|]. intros ? c3 <-. apply holds_ret. cbn [world at_call].
    destruct Hph as [st' f' z' Hr' Hs' Hf' Hb Hl Hfl|st' f' z' Hr' Hs' Hf' Hh Hb].
    + change (Join [snapshotDir dir (variant RollingBack f z); "site-before"]) with backup. rewrite Hb. cbn beta iota.
      apply holds_tbind, holds_twrap, quiet_setState; [done|done|by apply (dir_in s)|intros K c; apply (killed_done s); [done|by eapply ph_aside; eauto|done]|].
      intros z2 c4 l Hl2. apply (preserve_done f z2); [apply (on_way_later s); [done|apply rest_put|done]|done|cbn; apply lookup_insert_eq|done|done|done].
    + change (Join [snapshotDir dir (variant RollingBack f z); "site-before"]) with backup. rewrite Hb, Hh. cbn beta iota. by apply (finish_back f z).
  - destruct Hst2 as [->|]; [|done]. apply holds_ret. cbn beta iota.
    destruct Hph as [st' f' z' Hr' Hs' Hf' Hb Hl Hfl|st' f' z' Hr' Hs' Hf' Hh Hb]; [|rewrite Hr in Hr'; injection Hr'; intros; subst; naive_solver].
    apply holds_tbind, holds_twrap, quiet_setState; [done|done|by apply (dir_in s)|intros K c; apply (killed_done s); [done|by eapply ph_aside; eauto|done]|].
    intros z2 c4 l Hl2. apply (preserve_done f z2); [apply (on_way_later s); [done|apply rest_put|done]|done|cbn; apply lookup_insert_eq|done|done|done].
Qed.
End steps.

(** *** A recovery *)
Context (webRoot mailRoot homeRoot : string) (Hroots : roots_agree t0 webRoot mailRoot homeRoot).
Context (mover : string → Mover) (Hmover : mover (Site t0) = mv).

(** Nothing to do for the other names of the recovery root. *)
Definition alone (w : World) : Prop :=
  ∀ name, name ∈ names_of w root → name ≠ id → idle webRoot mailRoot homeRoot (delete dir (records w)) root name.
Lemma alone_rest w w' : rest w' = rest w → alone w → alone w'.
Proof. unfold rest, alone, names_of. intros [= -> ->]. done. Qed.
Lemma idle_delete d rs name : idle webRoot mailRoot homeRoot (delete d rs) root name → idle webRoot mailRoot homeRoot rs root name.
Proof. intros [|(Hn & t & Hr & ?)]; [by left|]. apply lookup_delete_Some in Hr as [_ Hr]. right. split; [done|]. by exists t. Qed.

Lemma quiet_one s : dirs (world s) = D → phase (world s) →
  holds (recover_one e cwd format mover root "" webRoot mailRoot homeRoot id) s (λ o s',
    rest (world s') = rest (world s) ∧ phase (world s') ∧ (left s = None → settled (world s') ∧ left s' = None ∧ ∃ ids, o = Some (ids, []))).
Proof.
  intros Hd Hph. unfold recover_one. rewrite bool_decide_false by apply B.
  assert (∃ st f z, records (world s) !! dir = Some (Some (variant st f z)) ∧ ValidateSiteTransactionState st = None ∧ (f = "" ∨ f = failed) ∧ st ≠ Committed ∧
    (st = RolledBack → settled (world s))) as (st & f & z & Hr & Hv & Hf & Hnc & Hset).
  { destruct Hph as [st f z Hr [->| ->]|st f z Hr [->| ->]]; eexists _, f, z; (split_and!; [exact Hr|..]); try done. intros _. split; [done|]. by exists f, z. }
  eapply holds_read. { apply (quiet_load e Hq cwd format webRoot mailRoot homeRoot root id (variant st f z)); [apply B|apply B|done|by apply load_variant|done]. }
  intros ? c2 <-. cbn beta iota. change (Site (variant st f z)) with (Site t0). change (RecoveryRequired (variant st f z)) with (RecoveryRequired t0).
  change (State (variant st f z)) with st. change (Databases (variant st f z)) with (Databases t0). change (Routes (variant st f z)) with (Routes t0).
  destruct (bg_plain _ _ _ _ B) as (_ & -> & -> & -> & _). rewrite !(bool_decide_true ("" = "")) by done. cbn [negb andb].
  rewrite (bool_decide_false (st = Committed)) by done. cbn [orb]. case_bool_decide as Est.
  { apply holds_ret. split; [done|]. split; [done|]. intros K. split; [by apply Hset|]. split; [done|]. by eexists. }
  eapply holds_read; [by apply quiet_attempt|]. intros ? c3 <-. apply holds_bind.
  rewrite Abs_abs by (apply clean_Join; apply B). rewrite Hmover. eapply holds_mono; [|by apply (rollback_done s Hd st f z)].
  intros [[t [u|err]]|] s' (Hd' & Hp' & Hl'); [apply holds_ret..|].
  all: split; [done|]; split; [done|]; intros K; destruct (Hl' K) as [(f' & z' & [=]) [Hs Hk]]; (split; [done|]; split; [done|]; by eexists).
Qed.

(** What the scan of some names does: [p] of them settle the transaction. *)
Definition scanned (p : Prop) (s : St World) (o : option (list string * list error)) (s' : St World) : Prop :=
  rest (world s') = rest (world s) ∧ phase (world s') ∧
  (left s = None → left s' = None ∧ (∃ ids, o = Some (ids, [])) ∧ (p ∨ settled (world s) → settled (world s'))).
Lemma quiet_name name s : name ∈ names_of (world s) root → dirs (world s) = D → alone (world s) → phase (world s) →
  holds (recover_one e cwd format mover root "" webRoot mailRoot homeRoot name) s (scanned (name = id) s).
Proof.
  intros Hn Hd Ha Hph. destruct (decide (name = id)) as [->|Hne].
  - eapply holds_mono; [|by apply quiet_one]. intros o s' (H1 & H2 & H3). split; [done|]. split; [done|]. intros K. destruct (H3 K) as (? & ? & ?). auto.
  - eapply holds_reads; [apply quiet_idle; [done|apply B|by eapply idle_delete, Ha]|]. intros ? c <-.
    split; [done|]. split; [done|]. intros K. split; [done|]. split; [by eexists|]. intros [|]; done.
Qed.
Lemma quiet_scan names s : (∀ name, name ∈ names → name ∈ names_of (world s) root) → dirs (world s) = D → alone (world s) → phase (world s) →
  holds (scan (recover_one e cwd format mover root "" webRoot mailRoot homeRoot) names) s (scanned (id ∈ names) s).
Proof.
  revert s. induction names as [|name names IH]; intros s Hn Hd Ha Hph; cbn [scan].
  { apply holds_ret. split; [done|]. split; [done|]. intros K. split; [done|]. split; [by eexists|]. intros [[]%elem_of_nil|]; done. }
  apply holds_bind. eapply holds_mono; [|apply quiet_name; [apply Hn; set_solver|done..]]. intros o s1 (H1 & H2 & H3).
  assert (dirs (world s1) = D ∧ alone (world s1)) as [Hd1 Ha1].
  { split; [|by eapply alone_rest]. by injection H1 as -> _. }
  destruct o as [x|]; [|split; [done|]; split; [done|]; intros K; by destruct (H3 K) as (_ & (? & [=]) & _)].
  apply holds_bind. eapply holds_mono; [|apply IH; [|done..]].
  2:{ intros y Hy. injection H1 as E _. unfold names_of. rewrite E. apply Hn. set_solver. }
  intros o2 s2 (G1 & G2 & G3). rewrite H1 in G1. destruct o2 as [y|].
  - apply holds_ret. split; [done|]. split; [done|]. intros K. destruct (H3 K) as (K1 & (ids1 & [= ->]) & T1). destruct (G3 K1) as (K2 & (ids2 & [= ->]) & T2).
    split; [done|]. split; [by eexists|]. intros [[E|E]%elem_of_cons|E]; apply T2; auto.
  - split; [done|]. split; [done|]. intros K. destruct (H3 K) as (K1 & _). by destruct (G3 K1) as (_ & (? & [=]) & _).
Qed.
(** A recovery leaves the transaction in a known phase when it is killed, and settles it
    when it is not. *)
Lemma quiet_recovery s : dirs (world s) = D → alone (world s) → phase (world s) →
  holds (recoverSiteTransactionsWithRename e cwd format mover root "" webRoot mailRoot homeRoot) s (scanned True s).
Proof.
  intros Hd Ha Hph. unfold recoverSiteTransactionsWithRename, scan_root. apply (holds_read _ _ _ (eq (Ok (Some (names_of (world s) root))))).
  { unfold ReadDir. eapply reads_rok; [by apply quiet_attempt|]. intros c. eapply reads_bind; [apply reads_look|]. intros ? c' <-. cbn [world at_call].
    rewrite Hd, bool_decide_true by apply B. by apply reads_ret. }
  intros ? c1 <-. apply holds_bind. eapply holds_mono; [|by apply quiet_scan]. intros o s' (H1 & H2 & H3). destruct o as [x|].
  - apply holds_ret. split; [done|]. split; [done|]. intros K. destruct (H3 K) as (K1 & (ids & [= ->]) & T). split; [done|]. split; [by eexists|].
    intros _. apply T. left. by apply (bg_only _ _ _ _ B).
  - split; [done|]. split; [done|]. intros K. by destruct (H3 K) as (_ & (? & [=]) & _).
Qed.
End one.
(** ** Beginning *)

(** [P] holds if the program succeeds. *)
Definition yields {A} (m : M (res A)) (s : St World) (P : A → World → Prop) : Prop := ∀ a s', m s = (Some (Ok a), s') → P a (world s').
Definition tyields {A} (m : M (SiteTransaction * res A)) (s : St World) (P : SiteTransaction → World → Prop) : Prop :=
  ∀ t a s', m s = (Some (t, Ok a), s') → P t (world s').
Lemma yields_bind {A B} (m : M A) (f : A → M (res B)) s P : (∀ a s', m s = (Some a, s') → yields (f a) s' P) → yields (bind m f) s P.
Proof. unfold yields, bind. intros H b s'. destruct (m s) as [[a|] s1]; [|done]. by apply H. Qed.
Lemma yields_rbind {A B} (m : M (res A)) (f : A → M (res B)) s P R :
  yields m s R → (∀ a s', R a (world s') → yields (f a) s' P) → yields (rbind m f) s P.
Proof. intros Hm H. apply yields_bind. intros [a|err] s' E; [by apply H, Hm|]. by intros ? ?. Qed.
Lemma yields_ret {A} (a : A) s (P : A → World → Prop) : P a (world s) → yields (ok a) s P.
Proof. by intros H ? ? [= <- <-]. Qed.
Lemma yields_read {A B} (m : M A) (f : A → M (res B)) s P R : reads m s R → (∀ a c, R a → yields (f a) (at_call s c) P) → yields (bind m f) s P.
Proof. intros (a & c & E & Ha) H. apply yields_bind. intros ? ? E'. rewrite E in E'. injection E' as <- <-. by apply H. Qed.
Lemma yields_wrap {A} what (m : M (res A)) s P : yields m s P → yields (wrap what m) s P.
Proof. intros H. apply yields_bind. intros [a|err] s' E; intros ? ? [=]. subst. by eapply H. Qed.
Lemma yields_tbind {A} (m : M (SiteTransaction * res unit)) (f : SiteTransaction * res unit → M (res A)) s P R :
  tyields m s R → (∀ t s', R t (world s') → yields (f (t, Ok tt)) s' P) → (∀ t err s', yields (f (t, Err err)) s' P) → yields (bind m f) s P.
Proof. intros Hm H He. apply yields_bind. intros [t [[]|err]] s' E; [by eapply H, Hm|by apply He]. Qed.

Section begin.
Context (e : Env) (cwd : string) (format : string → Z → string).
Lemma never_discard {A} dir err s (P : A → World → Prop) : yields (discard e dir err) s P.
Proof. apply yields_bind. by intros ? ? _ ? ?. Qed.
Lemma MkdirAll_ok d s : yields (MkdirAll e d) s (λ _ w, w = add_dir d (world s)).
Proof.
  intros a s' H. unfold MkdirAll, rbind, Effects.attempt, bind, call, look, ok, ret, effect in H. repeat case_match; simplify_eq/=; auto.
  destruct s as [w c l]. cbn in *. unfold add_dir. destruct w; cbn in *. f_equal. apply bool_decide_eq_true in H1. set_solver.
Qed.
Lemma MkdirTemp_ok root prefix s : yields (MkdirTemp e root prefix) s (λ d w, ∃ n, d = Join [root; prefix +:+ default "" (rand e n)] ∧
  root ∈ dirs (world s) ∧ d ∉ dirs (world s) ∧ w = add_dir d (world s)).
Proof.
  intros a s' H. unfold MkdirTemp, rbind, Effects.attempt, bind, call, look, ok, ret, effect in H. repeat case_match; simplify_eq/=.
  all: match goal with E : _ || _ = false |- _ => apply orb_false_iff in E as [?%negb_false_iff%bool_decide_eq_true ?%bool_decide_eq_false] end; eauto 10.
Qed.
Lemma persist_ok dir t s : tyields (persist e dir t) s (λ t' w, (∃ z, t' = t <| UpdatedAt := z |>) ∧ w = put_record dir t' (world s)).
Proof.
  intros t' [] s' H. unfold persist, rbind, Effects.attempt, Effects.now, bind, call, look, ok, ret, effect in H. repeat case_match; simplify_eq/=; eauto.
Qed.
Lemma setState_ok dir next t s : tyields (setState e dir next t) s (λ t' w, (∃ z, t' = t <| State := next |> <| UpdatedAt := z |>) ∧ w = put_record dir t' (world s)).
Proof.
  intros t' [] s' H. unfold setState, bind in H. destruct (ValidateSiteTransactionTransition _ _); [done|].
  destruct (persist e dir _ s) as [[[t1 [u|err]]|] s1] eqn:E; [|done..]. unfold ret in H. injection H as <- <-.
  by apply (persist_ok dir _ s t1 u s1).
Qed.
Lemma Rename_ok a b s : yields (Rename e a b) s (λ _ w, can_move a b (world s) = true ∧ w = move a b (world s)).
Proof.
  intros ? s' H. unfold Rename, rbind, Effects.attempt, bind, call, look, ok, ret, effect in H. repeat case_match; simplify_eq/=; eauto.
Qed.
Lemma Lstat_reads p s : reads (Lstat e p) s (λ r, ∀ x, r = Ok x → x = trees (world s) !! p).
Proof.
  unfold Lstat. apply (reads_rbind _ _ _ (λ _, True)); [by eapply reads_mono; [|apply reads_attempt]|done|]. intros _ c _. eapply reads_bind; [apply reads_look|]. intros ? c' <-.
  apply reads_ret. by intros ? [= <-].
Qed.
Lemma yields_attempt s : yields (Effects.attempt e) s (λ _ w, w = world s).
Proof. intros a s' H. destruct (reads_attempt e s) as (r & c & E & _). rewrite E in H. by injection H as _ <-. Qed.
Lemma paths_reads public rec a b s : reads (validateSnapshotPathsAt e cwd public rec a b) s (λ r, ∀ x, r = Ok x → x = (Sites.Abs cwd a, Sites.Abs cwd b)).
Proof.
  unfold validateSnapshotPathsAt. destruct (bool_decide _); [by apply reads_ret|]. destruct (bool_decide _); [by apply reads_ret|].
  destruct (_ || _); [by apply reads_ret|].
  apply (reads_rbind _ _ _ (λ _, True)); [apply reads_wrap; by eapply reads_mono; [|apply reads_attempt]|done|]. intros _ c _.
  apply (reads_rbind _ _ _ (λ _, True)); [apply reads_wrap; by eapply reads_mono; [|apply reads_attempt]|done|]. intros _ c' _. apply reads_ret. by intros ? [= <-].
Qed.
Lemma rename_ok mv a b s : Sites.Abs cwd a = a → Sites.Abs cwd b = b → yields (rename e cwd mv a b) s (λ _ w, can_move a b (world s) = true ∧ w = move a b (world s)).
Proof.
  intros Ea Eb. destruct mv as [|public rec]; [apply Rename_ok|]. unfold rename. eapply yields_rbind; [apply yields_attempt|]. intros u1 s1 E1.
  apply (yields_rbind _ _ _ _ (λ _ w, can_move a b (world s) = true ∧ w = move a b (world s))); [|intros ? s2 E2 ? ? H; by rewrite (yields_attempt _ _ _ H)]. unfold renameSiteSnapshot.
  eapply yields_read; [apply paths_reads|]. intros [[x y]|err] c Hxy; [|by intros ? ?]. injection (Hxy _ eq_refl) as Ex Ey; subst x y.
  unfold rbind at 1. eapply yields_read; [by eapply reads_mono; [|apply reads_wrap, Lstat_reads]|].
  intros [[[t|]|]|err] c1 _; try (by intros ? ?). unfold rbind. eapply yields_read; [by eapply reads_mono; [|apply reads_wrap, Lstat_reads]|].
  intros [d|err] c2 _; [|by intros ? ?]. destruct (negb _); [by intros ? ?|]. apply yields_wrap. rewrite Ea, Eb, <- E1. exact (Rename_ok a b (at_call (at_call (at_call s1 c) c1) c2)).
Qed.
Lemma move_aside_ok mv dir home backup t s : Sites.Abs cwd home = home → Sites.Abs cwd backup = backup →
  tyields (move_aside e cwd mv dir home backup t) s (λ t' w, (∃ z, t' = t <| State := BackedUp |> <| UpdatedAt := z |>) ∧
    can_move home backup (world s) = true ∧ w = put_record dir t' (move home backup (world s))).
Proof.
  intros Eh Eb t' a s' H. unfold move_aside, bind in H. destruct (rename e cwd mv home backup s) as [[[u|err]|] s1] eqn:E1; [|unfold discard, bind, ret in H; by repeat case_match; simplify_eq|done].
  destruct (rename_ok mv home backup s Eh Eb _ _ E1) as [Hc E1w]. destruct (setState e dir BackedUp t s1) as [[[t2 [u2|err]]|] s2] eqn:E2; [| |done].
  - injection H as <- _ <-. destruct (setState_ok dir BackedUp t s1 _ _ _ E2) as [Hz E2w]. by rewrite E2w, E1w.
  - unfold discard, bind, ret in H. by repeat case_match; simplify_eq.
Qed.

(** The identifier of a transaction, made at a time with a random suffix. *)
Definition tx_id (site : string) (z : Z) (n : nat) : string := (format "20060102-150405-" z +:+ site +:+ "-") +:+ default "" (rand e n).
(** The world after a site was moved aside. *)
Definition moved_aside (dir root home : string) (t1 t : SiteTransaction) (w : World) : World :=
  put_record dir t (move home (Join [dir; "site-before"]) (put_record dir t1 (add_dir dir (add_dir root w)))).
Lemma begin_ok root home kind site mv s old : clean_abs root → trees (world s) !! home = Some (Tree old) →
  (∀ z n, plainb (tx_id site z n) = true) →
  yields (beginSiteTransaction e cwd format root "" home kind site mv) s (λ r w, ∃ z0 n z z1,
    let id := tx_id site z0 n in
    let dir := Join [root; id] in
    let t := mkTx 1 id kind site home (Join [dir; "site-before"]) "" "" "" false true "" BackedUp "" z [] [] in
    r = (dir, t) ∧ safeUser site ≠ "" ∧ validatedRecoveryPath home = Ok home ∧ dir ∉ {[root]} ∪ dirs (world s) ∧
    can_move home (Join [dir; "site-before"]) (put_record dir (t <| State := Prepared |> <| UpdatedAt := z1 |>) (add_dir dir (add_dir root (world s)))) = true ∧
    w = moved_aside dir root home (t <| State := Prepared |> <| UpdatedAt := z1 |>) t (world s)).
Proof.
  intros Hroot Hold Hid. unfold beginSiteTransaction. destruct (bool_decide_reflect (safeUser site = "")) as [|Hsite]; [by intros ? ?|].
  destruct (bool_decide _); [by intros ? ?|]. cbn zeta. destruct (validatedRecoveryPath home) as [h|] eqn:Hv; [|by intros ? ?].
  pose proof (validated_same _ _ Hv) as ->. destruct (validated_fixed cwd _ _ Hv) as (Hhome & _). rewrite (Abs_abs cwd root) by done.
  eapply yields_rbind; [apply yields_wrap, MkdirAll_ok|]. intros u1 s1 E1. eapply yields_read; [apply reads_now|]. intros z0 c0 _.
  eapply yields_rbind; [apply yields_wrap, MkdirTemp_ok|]. intros dir s2 (n & Edir & Hr & Hfresh & E2). cbn [world at_call] in Hr, Hfresh, E2. rewrite E1 in Hr, Hfresh, E2.
  eapply yields_read; [apply reads_attempt|]. intros [u|err] c1 _; [|apply never_discard].
  eapply yields_read; [by apply (reads_ret _ _ (eq (Ok "")))|]. intros ? c2 <-. eapply yields_read; [apply reads_now|]. intros z1 c3 _. cbn zeta.
  eapply yields_read; [apply Lstat_reads|]. intros [i|err] c4 Hi; [|apply never_discard]. specialize (Hi _ eq_refl). cbn [world at_call] in Hi. rewrite E2 in Hi. change (i = trees (world s) !! home) in Hi.
  rewrite Hold in Hi. subst i. rewrite (bool_decide_false (Some _ = None)) by done. cbn [negb].
  change (dir = Join [root; tx_id site z0 n]) in Edir. assert (Base dir = tx_id site z0 n) as -> by (rewrite Edir; by apply Base_Join).
  assert (clean_abs dir) as Hdir by (rewrite Edir; by apply clean_Join).
  eapply yields_tbind; [apply persist_ok| |intros; apply never_discard]. intros t3 s3 [[z2 ->] E3]. cbn [world at_call] in E3. rewrite E2 in E3.
  rewrite (bool_decide_true ("" = "")) in E3 |- * by done. cbn [negb].
  eapply yields_tbind; [apply move_aside_ok; [done|apply Abs_abs; by apply clean_Join]| |by intros ? ? ? ? ?]. intros t4 s4 ([z3 ->] & Hcan & E4).
  eapply yields_read; [apply reads_attempt|]. intros [u'|err] c5 _.
  - apply yields_ret. rewrite E3 in Hcan, E4. cbn [world at_call]. exists z0, n, z3, z2. rewrite <- Edir. auto 10.
  - apply yields_bind. by intros [t5 [u5|err5]] s5 _ ? ?.
Qed.
End begin.

(** *** The host a transaction begins in *)

(** Every tree and every directory is in a directory; the site [home] is outside the
    recovery root, and all the transactions there are finished. *)
Record ready (w : World) (root home site old webRoot mailRoot homeRoot : string) : Prop := {
  rd_root : clean_abs root;
  rd_home : trees w !! home = Some (Tree old);
  rd_parent : ∀ p, p ∈ dirs w ∨ is_Some (trees w !! p) → Dir p ∈ dirs w;
  rd_kinds : ∀ p, p ∈ dirs w → trees w !! p = None;
  rd_outside : home ≠ root ∧ Dir home ≠ root;
  rd_web : webRoot = "" ∨ Clean home = Clean (joined webRoot ["sites"; site; "public"]);
  rd_idle : ∀ name, name ∈ names_of w root → idle webRoot mailRoot homeRoot (records w) root name }.

Lemma elem_of_names w d x : x ∈ names_of w d ↔ ∃ p, p ∈ dirs w ∧ Dir p = d ∧ x = Base p.
Proof. unfold names_of. rewrite merge_sort_Permutation, elem_of_elements, elem_of_map. set_solver. Qed.
Lemma Join_len p n : clean_abs p → plainb n = true → len p < len (Join [p; n]).
Proof.
  intros Hp Hn. rewrite Join_text, !len_app by done. pose proof (len_nonneg n). change (len "/") with 1. lia.
Qed.
Lemma Dir_other p : clean_abs p → Dir p ≠ p.
Proof.
  intros (cs & Hn & Hp & ->). destruct cs as [|x cs _] using rev_ind; [done|]. apply Forall_app in Hp as [Hp [Hx _]%Forall_cons].
  destruct (decide (cs = [])) as [->|Hcs].
  - unfold Dir, Dir_bytes, dir_part, abs_path. rewrite bytes_of_of, split_abs by (done || by constructor). intros E%(f_equal bytes_of).
    rewrite !bytes_of_of in E. vm_compute in E. destruct x; [|done]. by destruct Hx.
  - assert (plainb (of_bytes x) = true) as Hb.
    { destruct Hx as (H1 & H2 & H3 & H4). apply bool_decide_eq_true. rewrite bytes_of_of.
      split_and!; [..|done]; intros E%(f_equal bytes_of); rewrite bytes_of_of in E; done. }
    assert (abs_path (cs ++ [x]) = Join [abs_path cs; of_bytes x]) as ->.
    { rewrite Join_snoc by done. by rewrite bytes_of_of. }
    assert (clean_abs (abs_path cs)) as Hc by (by exists cs). rewrite Dir_Join by done. intros E. pose proof (Join_len _ _ Hc Hb). rewrite <- E in H. lia.
Qed.

(** What a restore does between the snapshot and its end: anything with the trees outside the
    directory of the transaction. *)
Definition worked (mv : Mover) (dir home : string) (w1 w2 : World) : Prop :=
  dirs w2 = dirs w1 ∧ records w2 = records w1 ∧ (∀ p, Dir p = dir → trees w2 !! p = trees w1 !! p) ∧ movable mv (trees w2 !! home).
Section began.
Context (w : World) (root home site old webRoot mailRoot homeRoot : string) (R : ready w root home site old webRoot mailRoot homeRoot).
Context (id kind : string) (z z1 : Z).
Let dir := Join [root; id].
Let backup := Join [dir; "site-before"].
Let t := mkTx 1 id kind site home backup "" "" "" false true "" BackedUp "" z [] [].
Let t1 := t <| State := Prepared |> <| UpdatedAt := z1 |>.
Let w1 := moved_aside dir root home t1 t w.
Context (Hid : plainb id = true) (Hq : id ≠ "quarantine") (Hsite : safeUser site ≠ "") (Hv : validatedRecoveryPath home = Ok home) (Hfresh : dir ∉ {[root]} ∪ dirs w).

Lemma began_clean : clean_abs dir.
Proof. apply clean_Join; [apply R|done]. Qed.
Lemma began_world : dirs w1 = {[dir]} ∪ ({[root]} ∪ dirs w) ∧ records w1 = <[dir := Some t]> (records w) ∧ trees w1 = <[backup := Tree old]> (delete home (trees w)).
Proof.
  unfold w1, moved_aside. fold backup. assert (move home backup (put_record dir t1 (add_dir dir (add_dir root w))) =
    put_record dir t1 (add_dir dir (add_dir root w)) <| trees := <[backup := Tree old]> (delete home (trees w)) |>) as ->.
  { unfold move. change (trees (put_record dir t1 (add_dir dir (add_dir root w)))) with (trees w). by rewrite (rd_home _ _ _ _ _ _ _ _ R). }
  cbn. by rewrite insert_insert_eq.
Qed.
Lemma sub_fresh x : plainb x = true → Join [dir; x] ∉ dirs w1 ∧ trees w !! Join [dir; x] = None.
Proof.
  intros Hx. pose proof began_clean as Hd. pose proof (Join_len dir x Hd Hx) as L1. pose proof (Join_len root id (rd_root _ _ _ _ _ _ _ _ R) Hid) as L2.
  fold dir in L2. assert (Dir (Join [dir; x]) = dir) as Ed by (by apply Dir_Join). destruct began_world as (-> & _). split.
  - rewrite !elem_of_union, !elem_of_singleton. intros [E|[E|E]]; [by rewrite E in L1; lia|rewrite E in L1; lia|].
    apply Hfresh. apply elem_of_union_r. rewrite <- Ed. apply (rd_parent _ _ _ _ _ _ _ _ R). by left.
  - destruct (trees w !! Join [dir; x]) eqn:E; [|done]. destruct Hfresh. apply elem_of_union_r. rewrite <- Ed. apply (rd_parent _ _ _ _ _ _ _ _ R). by right; rewrite E.
Qed.
Lemma began : begun root id t (dirs w1).
Proof.
  pose proof began_clean as Hd. destruct began_world as (Ew & _). destruct (rd_outside _ _ _ _ _ _ _ _ R) as [O1 O2].
  assert (Dir home ∈ dirs w) as Hparent by (apply (rd_parent _ _ _ _ _ _ _ _ R); right; by rewrite (rd_home _ _ _ _ _ _ _ _ R)).
  assert (snapshotDir dir t = dir) as Esd by done. split; fold dir; rewrite ?Esd; try done; try (apply R).
  - assert (Base dir = id) as Eb by (apply Base_Join; [apply R|done]). unfold check_loaded, t.
    cbn -[validatedRecoveryPath Clean Join Base has_prefix]. rewrite Eb.
    rewrite bool_decide_true, (bool_decide_false (safeUser _ = "")), Hv by done. cbn -[Clean Join has_prefix].
    rewrite (bool_decide_true ("" = "")) by done. cbn -[Clean Join has_prefix]. fold backup.
    rewrite (Clean_clean backup) by (by apply clean_Join). by rewrite (bool_decide_true (backup = _)) by done.
  - intros E. apply Hfresh, elem_of_union_r. fold dir in E. by rewrite <- E.
  - intros w' Hw'. apply elem_of_names. exists dir. rewrite Hw', Ew. split; [set_solver|]. unfold dir. by rewrite Dir_Join, Base_Join by (apply R || done).
  - rewrite Ew. set_solver.
  - split_and!; [|by apply sub_fresh..]. rewrite Ew, !elem_of_union, !elem_of_singleton. cbn [Home t]. intros [E|[E|E]]; [|done|].
    + apply O2. rewrite E. unfold dir. apply Dir_Join; [apply R|done].
    + apply (rd_kinds _ _ _ _ _ _ _ _ R) in E. by rewrite (rd_home _ _ _ _ _ _ _ _ R) in E.
Qed.
Lemma began_roots : roots_agree t webRoot mailRoot homeRoot.
Proof. split; [|by left]. cbn. apply R. Qed.

Lemma began_phase mv w2 : worked mv dir home w1 w2 → phase root id t old mv w2 ∧ alone root id webRoot mailRoot homeRoot w2.
Proof.
  intros (E1 & E2 & E3 & E4). destruct began_world as (D1 & D2 & D3). pose proof began_clean as Hd. split.
  - apply (ph_aside _ _ _ _ _ _ BackedUp "" z); [|by left|by left| |done|left]; fold dir.
    + rewrite E2, D2. apply lookup_insert_eq.
    + change (snapshotDir dir t) with dir. fold backup. rewrite E3, D3 by (by apply Dir_Join). apply lookup_insert_eq.
    + change (snapshotDir dir t) with dir. rewrite E3, D3 by (by apply Dir_Join). destruct (sub_fresh "failed-site" eq_refl) as [_ F].
      rewrite lookup_insert_ne by (intros [_ ?]%Join_inj; done). apply lookup_delete_None. by right.
  - intros name Hn Hne. fold dir. rewrite E2, D2, delete_insert_eq. apply elem_of_names in Hn as (p & Hp & Ep & ->). rewrite E1, D1 in Hp.
    assert (idle webRoot mailRoot homeRoot (records w) root (Base p)) as Hi.
    { apply (rd_idle _ _ _ _ _ _ _ _ R), elem_of_names. exists p. split; [|done]. rewrite !elem_of_union, !elem_of_singleton in Hp. destruct Hp as [->|[->|]]; [|by destruct (Dir_other root (rd_root _ _ _ _ _ _ _ _ R))|done].
      destruct Hne. unfold dir. by rewrite Base_Join by (apply R || done). }
    destruct Hi as [|(Hpl & t' & Hr & Hi)]; [by left|]. right. split; [done|]. exists t'. split; [|done]. rewrite lookup_delete_ne; [done|].
    intros E. apply Hne. symmetry. by apply (Join_inj root root id (Base p)) in E as [_ E]; try apply R.
Qed.
End began.

(** ** A killed restore *)

(** The bytes of an identifier: the time, the site and the random suffix have no slash. *)
Definition plain_names (e : Env) (format : string → Z → string) (site : string) : Prop :=
  (∀ z, slash ∉ bytes_of (format "20060102-150405-" z)) ∧ slash ∉ bytes_of site ∧ ∀ n, slash ∉ bytes_of (default "" (rand e n)).
Lemma tx_id_plain e format site z n : plain_names e format site → plainb (tx_id e format site z n) = true ∧ tx_id e format site z n ≠ "quarantine".
Proof.
  intros (H1 & H2 & H3). assert ("-"%char ∈ bytes_of (tx_id e format site z n)) as Hd.
  { unfold tx_id. rewrite !bytes_of_app. set_solver. }
  assert (∀ x, "-"%char ∉ bytes_of x → tx_id e format site z n ≠ x) as Hne by (intros x Hx E; by rewrite E in Hd).
  assert (∀ x, bool_decide ("-"%char ∈ bytes_of x) = false → tx_id e format site z n ≠ x) as Hnb by (intros x Hx%bool_decide_eq_false; by apply Hne).
  split; [|by apply Hnb]. apply bool_decide_eq_true. split_and!; [by apply Hnb..|]. unfold tx_id. rewrite !bytes_of_app.
  rewrite !not_elem_of_app. split_and!; [by apply H1|done| |by apply H3]. apply (bool_decide_unpack _). by vm_compute.
Qed.

Section runs.
Context (cwd : string) (format : string → Z → string) (mover : string → Mover) (root webRoot mailRoot homeRoot : string).
(** Starts of the panel, one after the other: each scans the recovery root and may be
    killed after some of its effects. *)
Definition recover (e : Env) : M (list string * list error) := recoverSiteTransactionsWithRename e cwd format mover root "" webRoot mailRoot homeRoot.
Fixpoint recoveries (runs : list (Env * option nat)) (w : World) : World :=
  match runs with
  | [] => w
  | (e, left) :: rest => recoveries rest (world (recover e (mkSt w 0 left)).2)
  end.

Context (id old : string) (t : SiteTransaction) (D : gset string) (B : begun root id t D) (Hroots : roots_agree t webRoot mailRoot homeRoot).
Context (Hmv : crosses root id t (mover (Site t))).
Lemma recoveries_phase runs w : Forall (λ r, quiet r.1) runs → dirs w = D → alone root id webRoot mailRoot homeRoot w → phase root id t old (mover (Site t)) w →
  let w' := recoveries runs w in dirs w' = D ∧ alone root id webRoot mailRoot homeRoot w' ∧ phase root id t old (mover (Site t)) w'.
Proof.
  intros Hruns. revert w. induction Hruns as [|[e l] runs Hq _ IH]; intros w Hd Ha Hp; [done|]. cbn.
  destruct (quiet_recovery root id t D old B _ e Hq cwd format Hmv webRoot mailRoot homeRoot Hroots mover eq_refl (mkSt w 0 l) Hd Ha Hp) as (H1 & H2 & _).
  apply IH; [|by eapply alone_rest|done]. injection H1 as E _. unfold recover. by rewrite E.
Qed.
End runs.

Lemma mover_crosses root id t D mv : begun root id t D → SnapshotDir t = "" → mv = Direct ∨ mv = Broker (Home t) root → crosses root id t mv.
Proof.
  intros B Hsd [->| ->]; [by left|]. right. exists root. split; [done|]. pose proof (bg_snap _ _ _ _ B) as Hc.
  assert (snapshotDir (Join [root; id]) t = Join [root; id]) as Es by (unfold snapshotDir; by rewrite Hsd). rewrite Es in *.
  split; [apply Clean_clean, B|]. split.
  - unfold pathWithin. apply orb_true_iff. right. rewrite Join_text by apply B. apply has_prefix_iff. exists id. apply (inj bytes_of).
    rewrite !bytes_of_app. by rewrite <- !app_assoc.
  - assert (∀ x, plainb x = true → TrimSpace (Join [Join [root; id]; x]) ≠ "") as Hx.
    { intros x Hx. apply TrimSpace_abs. destruct (clean_Join _ x Hc Hx) as (cs & _ & _ & ->). apply abs_IsAbs. }
    repeat constructor; [|by apply Hx..]. apply TrimSpace_abs. by destruct (validated_fixed "" _ _ (home_valid _ _ _ _ B)) as (_ & _ & ?).
Qed.

(** C23: A killed restore is undone. A transaction of a site that exists began, whatever calls
    failed on the way, and moved the site aside; its work left anything or nothing at the home
    of the site and changed nothing in the directory of the transaction or in a journal; the
    panel was killed, and so were any number of recoveries after it, each before any of its
    changes. The next recovery puts the old tree back, records the rollback and reports no
    failure. What is assumed: the home is a plain tree that does not lie in the recovery root,
    and is the place of its site under the web root (or no web root is configured); the
    directories above it exist; every other transaction in the recovery root is finished;
    identifiers have no slash; the snapshot is in the recovery root; the journal names no mail,
    databases or routes; the recoveries rename themselves or through the broker of this home
    and this root, and with the broker the work left no symbolic link at the home, which the
    broker refuses to move; no call of a recovery fails. The examples [killed_before_snapshot],
    [mail_not_restored] and [unread_journal_quarantined] below show recoveries outside these
    assumptions that do not put the site back. *)
Theorem killed_restore_recovers e cwd format root home kind site old webRoot mailRoot homeRoot snapshot mover s dir t s1 w runs e' :
  ready (world s) root home site old webRoot mailRoot homeRoot → plain_names e format site →
  mover site = Direct ∨ mover site = Broker home root →
  beginSiteTransaction e cwd format root "" home kind site snapshot s = (Some (Ok (dir, t)), s1) →
  worked (mover site) dir home (world s1) w → Forall (λ r, quiet r.1) runs → quiet e' →
  ∃ ids s2, recover cwd format mover root webRoot mailRoot homeRoot e' (mkSt (recoveries cwd format mover root webRoot mailRoot homeRoot runs w) 0 None) = (Some (ids, []), s2) ∧
    trees (world s2) !! home = Some (Tree old) ∧ ∃ t', records (world s2) !! dir = Some (Some t') ∧ State t' = RolledBack.
Proof.
  intros R Hn Hmv Hb Hw Hruns Hq. apply begin_ok with (old := old) in Hb; [|apply R|apply R|by intros; apply tx_id_plain].
  destruct Hb as (z0 & n & z & z1 & [= -> ->] & Hsite & Hv & Hfresh & _ & E1). rewrite E1 in Hw.
  destruct (tx_id_plain e format site z0 n Hn) as [Hid Hnq]. set (id := tx_id e format site z0 n) in *.
  pose proof (began _ _ _ _ _ _ _ _ R id kind z z1 Hid Hnq Hsite Hv Hfresh) as B.
  destruct (began_phase _ _ _ _ _ _ _ _ R id kind z z1 Hid Hfresh _ w Hw) as [Hph Ha].
  assert (crosses root id _ (mover site)) as Hc by (by eapply mover_crosses).
  destruct (recoveries_phase cwd format mover root webRoot mailRoot homeRoot id old _ _ B (began_roots _ _ _ _ _ _ _ _ R id kind z) Hc runs w Hruns (proj1 Hw) Ha Hph) as (D2 & A2 & P2).
  set (s' := mkSt (recoveries cwd format mover root webRoot mailRoot homeRoot runs w) 0 None).
  destruct (quiet_recovery _ _ _ _ _ B _ e' Hq cwd format Hc webRoot mailRoot homeRoot (began_roots _ _ _ _ _ _ _ _ R id kind z) mover eq_refl s' D2 A2 P2) as (_ & _ & H3).
  destruct (H3 eq_refl) as (_ & (ids & Eids) & Hs). destruct Hs as [Hs (f & z2 & Hr)]; [by left|].
  exists ids, (recover cwd format mover root webRoot mailRoot homeRoot e' s').2. split; [|split; [exact Hs|by eexists]].
  unfold recover in *. rewrite <- Eids. by destruct (recoverSiteTransactionsWithRename _ _ _ _ _ _ _ _ _ _).
Qed.

(** ** Examples *)

Module Demo.
Definition root : string := "/var/rec".
Definition home : string := "/srv/sites/blog/public".
Definition format (layout : string) (z : Z) : string := "20240102-".
Definition e0 : Env := calm 100 "17".
(** The site [blog], and no recovery root yet. *)
Definition w0 : World := mkWorld {[ home := Tree "old" ]} {[ "/"; "/srv"; "/srv/sites"; "/srv/sites/blog"; "/var" ]} ∅ ∅ [].
Definition s0 : St World := mkSt w0 0 None.
Definition begin_ (e : Env) (mv : Mover) := beginSiteTransaction e "/" format root "" home "restore" "blog" mv.
Definition dir : string := "/var/rec/20240102-blog-17".
Definition half (w : World) : World := w <| trees := <[home := Tree "half"]> (trees w) |>.
Definition linked (w : World) : World := w <| trees := <[home := Link]> (trees w) |>.
Definition scan_ (e : Env) : M (list string * list error) := recover "/" format (λ _, Direct) root "/srv" "" "" e.

Lemma demo_ready : ready w0 root home "blog" "old" "/srv" "" "".
Proof.
  split.
  - exists (bytes_of <$> ["var"; "rec"]). split; [done|]. split; [|by vm_compute]. by repeat constructor; apply plainb_plain.
  - by vm_compute.
  - assert (set_Forall (λ p, Dir p ∈ dirs w0) (dirs w0)) as H by (apply (bool_decide_unpack _); by vm_compute). intros p [Hp|[x Hp]]; [by apply H|].
    change (({[home := Tree "old"]} : gmap string Entry) !! p = Some x) in Hp. apply lookup_singleton_Some in Hp as [<- _]. apply (bool_decide_unpack _). by vm_compute.
  - assert (set_Forall (λ p, trees w0 !! p = None) (dirs w0)) as H by (apply (bool_decide_unpack _); by vm_compute). exact H.
  - by vm_compute.
  - right. by vm_compute.
  - intros name (p & Hp & Hd & _)%elem_of_names. assert (set_Forall (λ p, Dir p ≠ root) (dirs w0)) as H by (apply (bool_decide_unpack _); by vm_compute).
    by destruct (H p Hp).
Qed.

Lemma killed_restore_recovers_witness :
  let w := recoveries "/" format (λ _, Direct) root "/srv" "" "" [(e0, Some 1%nat); (e0, Some 2%nat); (e0, Some 3%nat)] (linked (world (begin_ e0 Direct s0).2)) in
  ∃ ids s2, scan_ e0 (mkSt w 0 None) = (Some (ids, []), s2) ∧ trees (world s2) !! home = Some (Tree "old") ∧ ∃ t', records (world s2) !! dir = Some (Some t') ∧ State t' = RolledBack.
Proof.
  apply (killed_restore_recovers e0 "/" format root home "restore" "blog" "old" "/srv" "" "" Direct (λ _, Direct) s0 dir
    (mkTx 1 "20240102-blog-17" "restore" "blog" home "/var/rec/20240102-blog-17/site-before" "" "" "" false true "" BackedUp "" 100 [] []) (begin_ e0 Direct s0).2).
  - exact demo_ready.
  - split; [|split]; intros; apply (bool_decide_unpack _); by vm_compute.
  - by left.
  - assert ((begin_ e0 Direct s0).1 = Some (Ok (dir, mkTx 1 "20240102-blog-17" "restore" "blog" home "/var/rec/20240102-blog-17/site-before" "" "" "" false true "" BackedUp "" 100 [] []))) as <- by (by vm_compute).
    apply surjective_pairing.
  - split; [done|]. split; [done|]. split; [|by left]. intros p Hp. cbn. rewrite lookup_insert_ne; [done|]. intros <-. by vm_compute in Hp.
  - by repeat constructor.
  - by intros ?.
Defined.

Definition backup : string := dir +:+ "/site-before".
Definition failed : string := dir +:+ "/failed-site".
(** What is at a path at the end, and the number of failures reported. *)
Definition outcome (ps : list string) (r : option (list string * list error) * St World) : list (option Entry) * option nat :=
  ((λ p, trees (world r.2) !! p) <$> ps, (λ x, length x.2) <$> r.1).
Definition after (r : World) : St World := mkSt r 0 None.

(** Killed after the journal is written and before the site is moved aside: the next start
    takes the site, which nothing had touched, away from its home, and neither that recovery
    nor a later one puts it back. *)
Example killed_before_snapshot :
  let w1 := world (begin_ e0 Direct (mkSt w0 0 (Some 3%nat))).2 in
  let r2 := scan_ e0 (after w1) in
  let r3 := scan_ e0 (after (world r2.2)) in
  trees w1 !! home = Some (Tree "old") ∧ outcome [home; backup; failed] r2 = ([None; None; Some (Tree "old")], Some 1%nat) ∧
  outcome [home; backup; failed] r3 = ([None; None; Some (Tree "old")], Some 1%nat).
Proof. by vm_compute. Qed.

(** The broker renamed the site and its answer got lost: giving up removes the directory of
    the transaction, and with it the only copy of the site. *)
Definition lost_answer : Env := mkEnv (λ _, 100) (λ n, bool_decide (n = 16%nat)) (λ _, Some "17").
Example lost_answer_deletes_site :
  let r := begin_ lost_answer (Broker home root) s0 in
  (∃ err, r.1 = Some (Err err)) ∧ trees (world r.2) = ∅.
Proof. vm_compute. split; [by eexists|done]. Qed.

(** An import that moved the mail of the site aside too. *)
Definition mail : string := "/var/mail/blog".
Definition w_mail : World :=
  mkWorld {[ home := Tree "half"; backup := Tree "old"; mail := Tree "half mail"; dir +:+ "/mail-before" := Tree "old mail" ]}
    {[ "/"; "/srv"; "/srv/sites"; "/srv/sites/blog"; "/var"; root; dir; "/var/mail" ]}
    {[ dir := Some (mkTx 1 "20240102-blog-17" "cpmove" "blog" home backup "" mail (dir +:+ "/mail-before") true true "" BackedUp "" 100 [] []) ]} ∅ [].
Definition scan_mail (e : Env) : M (list string * list error) := recover "/" format (λ _, Direct) root "/srv" "/var/mail" "" e.
(** An undisturbed recovery restores both. A recovery that is killed between the two leaves the
    mail aside, and the next one takes the transaction for finished. *)
Example mail_not_restored :
  let places := [home; mail; dir +:+ "/mail-before"] in
  let r := scan_mail e0 (mkSt w_mail 0 (Some 4%nat)) in
  let r2 := scan_mail e0 (after (world r.2)) in
  outcome places (scan_mail e0 (after w_mail)) = ([Some (Tree "old"); Some (Tree "old mail"); None], Some 0%nat) ∧
  outcome places r2 = ([Some (Tree "old"); Some (Tree "half mail"); Some (Tree "old mail")], Some 0%nat) ∧
  (State <$> mjoin (records (world r2.2) !! dir)) = Some RolledBack.
Proof. by vm_compute. Qed.

(** A read of the journal that fails once: the transaction is taken out of the recovery root
    and its site is left as the restore left it. *)
Definition unreadable_once : Env := mkEnv (λ _, 100) (λ n, bool_decide (n = 1%nat)) (λ _, Some "17").
Example unread_journal_quarantined :
  let w := half (world (begin_ e0 Direct s0).2) in
  let r := scan_ unreadable_once (after w) in
  let r2 := scan_ e0 (after (world r.2)) in
  outcome [home] r = ([Some (Tree "half")], Some 1%nat) ∧ outcome [home] r2 = ([Some (Tree "half")], Some 0%nat).
Proof. by vm_compute. Qed.

(** The forms of a route file. *)
Definition text (lines : list string) : string := join (of_bytes [newline]) lines.
Example served_domains :
  (served_domain <$> [text ["<VirtualHost *:80>"; "  servername Blog.Example.org"]; text ["# a comment"; "blog.example.org {"; "root * /srv"];
    text ["# StePanel managed OpenLiteSpeed vhost for blog.example.org"]; text ["docRoot /srv"; "vhDomain blog.example.org,www.example.org"]; text ["blog_example {"]]) =
  [Ok "blog.example.org"; Ok "blog.example.org"; Ok "blog.example.org"; Ok "blog.example.org"; Err (EMsg "managed route serves an invalid domain")].
Proof. by vm_compute. Qed.
(** A route of an old journal, which records no domain, is removed when its file serves the
    domain its name stands for; the file of another site is left alone. *)
Definition w_route (served : string) : World := w_mail <| vhosts := {[ "site-blog-w_ex.conf" := "ServerName " +:+ served ]} |>.
Definition old_route : SiteTransaction :=
  mkTx 1 "20240102-blog-17" "restore" "blog" home backup "" "" "" false true "" BackedUp "" 100 [] [mkRoute "site-blog-w_ex.conf" "" true].
Example old_route_cleanup :
  let run served := cleanupRoutes e0 dir (Routes old_route) old_route (after (w_route served)) in
  vhosts (world (run "w.ex").2) = ∅ ∧ vhosts (world (run "b-w.ex").2) = vhosts (w_route "b-w.ex").
Proof. by vm_compute. Qed.
End Demo.
End SiteTxProps.
