(* ===== verification/SiteIdentity.v ===== *)
(** * SiteIdentity: the Unix accounts of sites

    Models [src/internal/siteidentity] ([identity.go], [store.go], [repair.go]). Every site outside the hosting accounts has a Unix
    account of its own, recorded in the table [site_identities] and never given to
    another site. Old installations used a truncated digest of the name; starting
    the panel records those accounts and refuses to start when two sites would share
    one, and an offline repair, with a journal it can resume from, moves such sites
    to accounts of their own.

    SHA-256 is a parameter. The host, which creates accounts and changes the owner
    of files, is the class [RepairHost]; what the repair relies on is the class
    [RepairHostLaws]. *)
From S2P Require Import Prelude Effects GoPath GoText Regex Names SiteLayout Sites.

Module SiteIdentity.
Export Effects.
Import GoPath GoText Regex Names.
#[local] Open Scope host_scope.

(** ** Data *)

Record RepairAssignment := mkAssignment {
  Site : string; PreviousUser : string; LegacyUser : string; Username : string; Completed : bool }.
#[export] Instance RepairAssignment_eq_dec : EqDecision RepairAssignment.
Proof. solve_decision. Defined.
Record RepairJournal := mkJournal {
  Version : Z; ID : string; WebRoot : string; State : string; Assignments : list RepairAssignment; Finalized : bool; UpdatedAt : Z }.
#[export] Instance RepairJournal_eq_dec : EqDecision RepairJournal.
Proof. solve_decision. Defined.
Record identityIndex := mkIndex { bySite : gmap string string; byUser : gmap string string }.
Record legacyCollision := mkCollision { Live : list string; PersistedOwner : string }.

(** The host of a repair: a step may be interrupted ([partly]), and is repeated. *)
Class RepairHost (H : Type) := {
  preflight : list RepairAssignment → H → bool;
  before_commit : RepairJournal → H → H;
  partly : RepairAssignment → H → H;
  reconcile : RepairAssignment → H → H;
  verify : RepairAssignment → H → bool;
  finalize : list RepairAssignment → H → H }.

(** The table of identities, the placed sites, the directory of the sites with its entries
    (whether they are directories), the journal ([Some None] does not decode), the archived
    journals and the host. *)
Record World (H : Type) := mkWorld {
  identities : gmap string string;
  placements : gset string;
  entries : option (gmap string bool);
  journal : option (option RepairJournal);
  archive : gmap string RepairJournal;
  host : H }.
Arguments mkWorld {H} _ _ _ _ _ _.
Arguments identities {H} _.
Arguments placements {H} _.
Arguments entries {H} _.
Arguments journal {H} _.
Arguments archive {H} _.
Arguments host {H} _.
Definition set_identities {H} (m : gmap string string) (w : World H) : World H :=
  mkWorld m (placements w) (entries w) (journal w) (archive w) (host w).
Definition set_journal {H} (j : RepairJournal) (w : World H) : World H :=
  mkWorld (identities w) (placements w) (entries w) (Some (Some j)) (archive w) (host w).
Definition set_host {H} (f : H → H) (w : World H) : World H :=
  mkWorld (identities w) (placements w) (entries w) (journal w) (archive w) (f (host w)).
Definition archive_journal {H} (id : string) (w : World H) : World H :=
  match journal w with
  | Some (Some j) => mkWorld (identities w) (placements w) (entries w) None (<[id := j]> (archive w)) (host w)
  | _ => w
  end.

(** ** Names *)

Definition site_byte (c : ascii) : bool := is_lower c || is_digit c || one_of "_-" c.
Definition validSite (site : string) : bool := (1 <=? len site) && (len site <=? 32) && all_bytes site_byte site.
Definition user_first : re := Cls [("a", "z"); ("0", "9")]%char.
Definition user_rest : re := Cls [("a", "z"); ("0", "9"); ("-", "-")]%char.
Definition persistedUserPattern : re := Cat (lit "sp-") (Cat user_first (rep 1 28 user_rest)).
Definition validPersistedUser (user : string) : bool := MatchString persistedUserPattern (TrimSpace user) && (len user <=? 32).
Definition hex_byte (c : ascii) : bool := is_digit c || bool_decide (97 ≤ code c ≤ 102) || bool_decide (65 ≤ code c ≤ 70).
(** [hex.DecodeString] gives sixteen bytes. *)
Definition validRepairJournalID (id : string) : bool := (len id =? 32) && all_bytes hex_byte id.

(** *** The group of the web server *)

Definition quote : ascii := chr 34.
Definition group_first : re := Cls [("a", "z"); ("_", "_")]%char.
Definition group_rest : re := Cls [("a", "z"); ("0", "9"); ("_", "_"); ("-", "-")]%char.
Definition group_key : string := "STEPANEL_WEB_GROUP=" +:+ of_bytes [quote].
(** The line as a pattern, and the group it captures. *)
Definition webGroupLine : re := Cat (lit group_key) (Cat (Cat group_first (Star group_rest)) (byte quote)).
Definition captured (line : string) : option string :=
  if MatchString webGroupLine line then Some (TrimSuffix (TrimPrefix line group_key) (of_bytes [quote])) else None.
Fixpoint web_group (lines : list string) (group : string) : res string :=
  match lines with
  | [] => Ok group
  | line :: rest =>
      match captured (TrimSuffix line (of_bytes [chr 13])) with
      | None => web_group rest group
      | Some g =>
          if negb (bool_decide (group = "")) && negb (bool_decide (group = g)) then Err (EMsg "web group configuration contains conflicting values")
          else web_group rest g
      end
  end.
(** The environment file: what is at its path. *)
Record EnvFile := mkEnvFile { regular : bool; trusted : bool; private : bool; text : string }.
Definition webGroupFromEnv (path : string) (groupExists : string → bool) (file : option EnvFile) : res string :=
  if bool_decide (path = "") then Err (EMsg "web group configuration path is empty") else
  match file with
  | None => Err (EWrap "inspect web group configuration" ErrNotExist)
  | Some f =>
      if negb (regular f) then Err (EMsg "web group configuration must be a regular file") else
      if negb (trusted f) then Err (EMsg "web group configuration must be owned by root") else
      if negb (private f) then Err (EMsg "web group configuration must not be group or world accessible") else
      match web_group (split (chr 10) (text f)) "" with
      | Err err => Err err
      | Ok group =>
          if bool_decide (group = "") then Err (EMsg "web group configuration does not define STEPANEL_WEB_GROUP") else
          if negb (groupExists group) then Err (EMsg "configured web group does not exist") else Ok group
      end
  end.

Definition prefix_of (n : nat) (s : string) : string := of_bytes (take n (bytes_of s)).

Section identity.
(** SHA-256 in hexadecimal. *)
Context (sha256_hex : string → string).
Definition UnixUser (site : string) : string :=
  "sp-" +:+ replace_byte "_"%char "-"%char (prefix_of 18 site) +:+ "-" +:+ prefix_of 8 (sha256_hex site).
Definition allocatedUser (site : string) (attempt : nat) : string :=
  let payload := if bool_decide (attempt = 0%nat) then site else site +:+ "#" +:+ Itoa (Z.of_nat attempt) in
  "sp-" +:+ prefix_of 24 (sha256_hex payload).

(** ** The table *)

Definition owner_of (ids : gmap string string) (user : string) : option string :=
  (λ x, x.2.1) <$> list_find (λ x, x.2 = user) (map_to_list ids).
Definition loadIndex (ids : gmap string string) : identityIndex :=
  mkIndex ids (list_to_map ((λ x, (x.2, x.1)) <$> map_to_list ids)).

(** The loop over the candidate names: the name to insert, or the error. [n] attempts are
    left; each makes one call, and one more when the name is taken. *)
Context {H : Type} (e : Env).
#[local] Notation M := (Effects.M (World H)).
#[local] Notation attempt := (Effects.attempt e).
#[local] Notation call := (Effects.call e).
#[local] Notation now := (Effects.now e).

Fixpoint allocate (site : string) (k n : nat) : M (res string) :=
  match n with
  | O => throw "exhausted collision retries"
  | S n' =>
      let username := allocatedUser site k in
      failed ← call;
      w ← look;
      let taken := negb (bool_decide (owner_of (identities w) username = None)) in
      if negb failed && negb taken then ok username else
      q ← call;
      if taken && negb q then allocate site (S k) n' else ret (Err (EWrap "allocate Unix account" io_err))
  end.
Definition ResolveOrAllocate (site : string) : M (res string) :=
  if negb (validSite site) then throw "site identity database or site is invalid" else
  let? _ := wrap "begin site identity transaction" attempt in
  let? _ := wrap "check site placement" attempt in
  w ← look;
  if bool_decide (site ∈ placements w) then throw "site is placed in a hosting account and has no per-site Unix account" else
  let? _ := wrap "read site identity" attempt in
  match identities w !! site with
  | Some username =>
      if negb (validPersistedUser username) then throw "site has invalid persisted Unix account" else
      let? _ := attempt in ok username
  | None =>
      let? username := allocate site 0 32 in
      let? _ := wrap "confirm site identity allocation" attempt in
      let? _ := attempt in
      effect (set_identities (<[site := username]> (identities w)));; ok username
  end.

(** ** The gate at startup *)

Definition liveSites (es : gmap string bool) : list string :=
  merge_sort String.le (filter (λ n, validSite n = true) (fst <$> filter (λ x, x.2 = true) (map_to_list es))).

Definition groups_of (sites : list string) : gmap string (list string) :=
  foldl (λ m site, <[UnixUser site := default [] (m !! UnixUser site) ++ [site]]> m) ∅ sites.
(** The loop over the sites of one account: whether one is unresolved, and the owner. *)
Definition scan_group (index : identityIndex) (legacy : string) (group : list string) : bool * string :=
  foldl (λ acc site,
    match bySite index !! site with
    | Some assigned => if negb (bool_decide (assigned = legacy)) then acc else
        (true, match byUser index !! legacy with Some p => if negb (bool_decide (p = site)) then p else acc.2 | None => acc.2 end)
    | None => (true, match byUser index !! legacy with Some p => if negb (bool_decide (p = site)) then p else acc.2 | None => acc.2 end)
    end) (false, "") group.
Definition collision_of (index : identityIndex) (legacy : string) (group : list string) : option legacyCollision :=
  let '(unresolved, owner) := scan_group index legacy group in
  if unresolved && (bool_decide (1 < length group)%nat || negb (bool_decide (owner = ""))) then Some (mkCollision group owner) else None.
Definition unresolvedLegacyCollisions (sites : list string) (index : identityIndex) : gmap string legacyCollision :=
  map_imap (collision_of index) (groups_of sites).
Definition legacyCollisionError (sites : list string) (index : identityIndex) : option error :=
  if bool_decide (unresolvedLegacyCollisions sites index = ∅) then None
  else Some (EMsg "legacy site identity collisions block startup; offline recovery is required").

(** The loop of [MigrateExisting] inside its transaction. *)
Fixpoint migrate_sites (sites : list string) (index : identityIndex) : M (res identityIndex) :=
  match sites with
  | [] => ok index
  | site :: rest =>
      if negb (bool_decide (bySite index !! site = None)) then migrate_sites rest index else
      let legacy := UnixUser site in
      if negb (bool_decide (byUser index !! legacy = None)) then throw "site identity collision" else
      let? _ := wrap "migrate site identity" attempt in
      migrate_sites rest (mkIndex (<[site := legacy]> (bySite index)) (<[legacy := site]> (byUser index)))
  end.
Definition MigrateExisting (webRoot : string) : M (res unit) :=
  if bool_decide (webRoot = "") then throw "site identity migration requires database and web root" else
  let? _ := wrap "scan existing site roots" attempt in
  w ← look;
  match entries w with
  | None => ok tt
  | Some es =>
      let sites := liveSites es in
      let? _ := wrap "open site identity migration connection" attempt in
      let? _ := wrap "begin site identity migration" attempt in
      let? _ := wrap "read site identity assignments" attempt in
      let index := loadIndex (identities w) in
      match legacyCollisionError sites index with
      | Some err => ret (Err err)
      | None =>
          _ ← now;
          let? index := migrate_sites sites index in
          let? _ := wrap "commit site identity migration" attempt in
          effect (set_identities (bySite index));; ok tt
      end
  end.

(** ** The plan of a repair *)

Definition ErrNoLegacyIdentityCollisions : error := ESentinel "no unresolved legacy site identity collisions were found".

(** The first free candidate. *)
Fixpoint free_user (site : string) (reserved : gmap string string) (k n : nat) : option string :=
  match n with
  | O => None
  | S n' =>
      let candidate := allocatedUser site k in
      if bool_decide (default "" (reserved !! candidate) = "") then Some candidate else free_user site reserved (S k) n'
  end.
Fixpoint plan_sites (index : identityIndex) (reserved : gmap string string) (l : list (string * string)) : option (list RepairAssignment) :=
  match l with
  | [] => Some []
  | (legacy, site) :: rest =>
      match free_user site reserved 0 1024 with
      | None => None
      | Some username =>
          (mkAssignment site (default "" (bySite index !! site)) legacy username false ::.) <$> plan_sites index (<[username := site]> reserved) rest
      end
  end.
(** The sites to move, by account in order. *)
Definition to_repair (collisions : gmap string legacyCollision) : list (string * string) :=
  merge_sort String.le (fst <$> map_to_list collisions) ≫= λ legacy,
  match collisions !! legacy with Some c => (λ site, (legacy, site)) <$> Live c | None => [] end.
Definition plan (sites : list string) (ids : gmap string string) : option (list RepairAssignment) :=
  let index := loadIndex ids in
  plan_sites index (byUser index) (to_repair (unresolvedLegacyCollisions sites index)).

(** [rand.Read] of the identity. *)
Definition random_id : M (res string) := λ s,
  (Some (match rand e (calls s) with Some id => Ok id | None => Err (EWrap "create repair journal identity" io_err) end),
   mkSt (world s) (S (calls s)) (left s)).
Definition PlanCollisionRepair (webRoot : string) : M (res RepairJournal) :=
  if bool_decide (webRoot = "") then throw "site identity repair requires database and web root" else
  let? _ := wrap "inspect existing site roots" attempt in
  w ← look;
  match entries w with
  | None => ret (Err (EWrap "inspect existing site roots" ErrNotExist))
  | Some es =>
      let? _ := wrap "scan existing site roots" attempt in
      let? _ := wrap "read site identity assignments" attempt in
      match plan (liveSites es) (identities w) with
      | None => throw "could not allocate a unique account"
      | Some l =>
          if bool_decide (l = []) then ret (Err ErrNoLegacyIdentityCollisions) else
          let? id := random_id in
          t ← now;
          ok (mkJournal 1 id (Clean webRoot) "planned" l false t)
      end
  end.

(** ** The journal *)

Fixpoint distinct (l : list RepairAssignment) (sites users : list string) : bool :=
  match l with
  | [] => true
  | a :: rest => negb (bool_decide (Site a ∈ sites)) && negb (bool_decide (Username a ∈ users)) && distinct rest (Site a :: sites) (Username a :: users)
  end.
Definition valid_assignment (a : RepairAssignment) : bool :=
  validSite (Site a) && validPersistedUser (Username a) && validPersistedUser (LegacyUser a) && bool_decide (LegacyUser a = UnixUser (Site a))
  && negb (bool_decide (Username a = LegacyUser a)) && (bool_decide (PreviousUser a = "") || validPersistedUser (PreviousUser a)).
Definition readRepairJournal : M (res (option RepairJournal)) :=
  let? _ := attempt in
  w ← look;
  match journal w with
  | None => ok None
  | Some None => throw "decode repair journal"
  | Some (Some j) =>
      if negb (forallb valid_assignment (Assignments j)) then throw "repair journal contains an invalid site assignment" else
      if negb (distinct (Assignments j) [] []) then throw "repair journal contains duplicate site or account assignments" else
      ok (Some j)
  end.
(** An atomic replacement, whose last sync may fail after it. *)
Definition writeRepairJournal (j : RepairJournal) : M (res unit) :=
  let? _ := attempt in effect (set_journal j);; attempt.
Definition archiveCompletedRepairJournal (id : string) : M (res unit) :=
  if negb (validRepairJournalID id) then throw "completed repair journal has an invalid identity" else
  let? _ := attempt in
  w ← look;
  if negb (bool_decide (archive w !! id = None)) then throw "completed journal archive already exists" else
  let? _ := attempt in
  effect (archive_journal id);; attempt.

(** ** The mappings *)

(** One assignment in the transaction, on the rows as the transaction sees them. *)
Definition applyRepairMapping (a : RepairAssignment) (ids : gmap string string) : res (gmap string string) :=
  let free := bool_decide (owner_of ids (Username a) = None) in
  match ids !! Site a with
  | None =>
      if negb (bool_decide (PreviousUser a = "")) then Err (EMsg "site identity disappeared before repair") else
      if free then Ok (<[Site a := Username a]> ids) else Err (EWrap "assign repaired identity" io_err)
  | Some current =>
      if bool_decide (current = Username a) then Ok ids else
      if negb (bool_decide (current = PreviousUser a)) then Err (EMsg "site identity changed from its plan") else
      if free then Ok (<[Site a := Username a]> ids) else Err (EWrap "reassign site identity" io_err)
  end.
Fixpoint apply_mappings (l : list RepairAssignment) (ids : gmap string string) : M (res (gmap string string)) :=
  match l with
  | [] => ok ids
  | a :: rest =>
      let? _ := wrap "read current identity" attempt in
      let? _ := attempt in
      match applyRepairMapping a ids with
      | Err err => ret (Err err)
      | Ok ids => apply_mappings rest ids
      end
  end.
Definition applyRepairMappings (l : list RepairAssignment) : M (res unit) :=
  let? _ := wrap "begin site identity repair transaction" attempt in
  w ← look;
  let? ids := apply_mappings l (identities w) in
  let? _ := wrap "commit site identity repair mappings" attempt in
  effect (set_identities ids);; ok tt.
Definition ensureRepairMapping (a : RepairAssignment) : M (res unit) :=
  let? _ := wrap "verify repaired identity" attempt in
  w ← look;
  if bool_decide (identities w !! Site a = Some (Username a)) then ok tt else throw "site is mapped to another account".

(** ** The repair *)

Context `{!RepairHost H}.
(** The calls of the host, each of which may be refused. *)
Definition Preflight (l : list RepairAssignment) : M (res unit) :=
  let? _ := attempt in w ← look; if preflight l (host w) then ok tt else throw "preflight refused".
Definition BeforeCommit (j : RepairJournal) : M (res unit) :=
  let? _ := attempt in effect (set_host (before_commit j));; ok tt.
Definition Reconcile (a : RepairAssignment) : M (res unit) :=
  effect (set_host (partly a));; let? _ := attempt in effect (set_host (reconcile a));; ok tt.
Definition Verify (a : RepairAssignment) : M (res unit) :=
  let? _ := attempt in w ← look; if verify a (host w) then ok tt else throw "verification failed".
Definition Finalize (l : list RepairAssignment) : M (res unit) :=
  let? _ := attempt in effect (set_host (finalize l));; ok tt.

Definition completed (a : RepairAssignment) : RepairAssignment := mkAssignment (Site a) (PreviousUser a) (LegacyUser a) (Username a) true.
Definition complete_at (i : nat) (j : RepairJournal) (t : Z) : RepairJournal :=
  mkJournal (Version j) (ID j) (WebRoot j) (State j) (alter completed i (Assignments j))
    (Finalized j) t.
Definition with_state (st : string) (fin : bool) (j : RepairJournal) (t : Z) : RepairJournal :=
  mkJournal (Version j) (ID j) (WebRoot j) st (Assignments j) fin t.

(** The loop over the assignments: [i] is the next, [n] are left. *)
Fixpoint reconcile_all (i n : nat) (j : RepairJournal) : M (res RepairJournal) :=
  match n with
  | O => ok j
  | S n' =>
      match Assignments j !! i with
      | None => ok j
      | Some a =>
          if Completed a then reconcile_all (S i) n' j else
          let? _ := ensureRepairMapping a in
          let? _ := wrap "reconcile site" (Reconcile a) in
          let? _ := wrap "verify site" (Verify a) in
          t ← now;
          let j := complete_at i j t in
          let? _ := wrap "record reconciled site" (writeRepairJournal j) in
          reconcile_all (S i) n' j
      end
  end.
(** From a planned journal to committed mappings; [planned] when the journal is new. *)
Definition commit_plan (planned : bool) (j : RepairJournal) : M (res RepairJournal) :=
  let? _ := (if planned then writeRepairJournal j else ok tt) in
  let? _ := wrap "prepare site identity mapping commit" (BeforeCommit j) in
  let? _ := applyRepairMappings (Assignments j) in
  t ← now;
  let j := with_state "mappings-committed" (Finalized j) j t in
  let? _ := wrap "record committed identity mappings" (writeRepairJournal j) in
  ok j.
(** The rest of a repair, once the journal to work on is known. *)
Definition carry_out (webRoot : string) (planned : bool) (j : RepairJournal) : M (res RepairJournal) :=
  if negb (bool_decide (State j = "planned")) && negb (bool_decide (State j = "mappings-committed")) then throw "unsupported repair journal state" else
  let? _ := wrap "site identity repair preflight" (Preflight (Assignments j)) in
  let? j := (if bool_decide (State j = "planned") then commit_plan planned j else ok j) in
  let? j := reconcile_all 0 (length (Assignments j)) j in
  let? j := (if Finalized j then ok j else
             let? _ := wrap "finalize old site identities" (Finalize (Assignments j)) in
             t ← now;
             let j := with_state (State j) true j t in
             let? _ := wrap "record identity repair finalization" (writeRepairJournal j) in
             ok j) in
  let? _ := wrap "verify startup identity migration after repair" (MigrateExisting webRoot) in
  t ← now;
  let j := with_state "completed" (Finalized j) j t in
  let? _ := wrap "record completed site identity repair" (writeRepairJournal j) in
  ok j.
Definition ExecuteCollisionRepair (webRoot : string) : M (res RepairJournal) :=
  let? _ := wrap "inspect repair journal directory" attempt in
  let? _ := wrap "lock site identity repair" attempt in
  let? found := readRepairJournal in
  let? (planned, j) := (match found with
    | None => let? j := PlanCollisionRepair webRoot in ok (true, j)
    | Some j => ok (false, j)
    end) in
  if negb (Version j =? 1) || negb (bool_decide (WebRoot j = Clean webRoot)) || bool_decide (Assignments j = []) || negb (validRepairJournalID (ID j))
  then throw "repair journal version, web root, or assignments are invalid" else
  if negb (IsAbs (WebRoot j)) then throw "repair journal web root must be absolute" else
  if bool_decide (State j = "completed") then
    next ← PlanCollisionRepair webRoot;
    match next with
    | Err err => if errors_is err ErrNoLegacyIdentityCollisions then ok j else ret (Err (EWrap "plan subsequent site identity repair" err))
    | Ok next =>
        let? _ := wrap "preserve completed site identity repair journal" (archiveCompletedRepairJournal (ID j)) in
        carry_out webRoot true next
    end
  else carry_out webRoot planned j.
End identity.

(** What a repair relies on: reconciling a site, also after an interruption, makes it pass
    the verification, and nothing else of the repair makes a verified site fail. *)
Class RepairHostLaws (H : Type) `{!RepairHost H} := {
  verify_completed : ∀ a h, verify (completed a) h = verify a h;
  reconcile_verifies : ∀ a h, verify a (reconcile a h) = true;
  partly_keeps : ∀ a b h, Site a ≠ Site b → verify a (partly b h) = verify a h;
  reconcile_keeps : ∀ a b h, Site a ≠ Site b → verify a (reconcile b h) = verify a h;
  before_commit_keeps : ∀ a j h, verify a (before_commit j h) = verify a h;
  finalize_keeps : ∀ a l h, a ∈ l → verify a h = true → verify a (finalize l h) = true }.
End SiteIdentity.
