(* ===== verification/SiteIdentityProps.v ===== *)
(** * SiteIdentityProps: sites never share an account

    Theorems about [SiteIdentity]: the gate at startup lets a panel start only when every
    live site has an account of its own, and a repair that is interrupted anywhere ends,
    once it is left alone, in a state that the gate accepts. *)
From S2P Require Import Prelude Effects GoPath GoText Regex Names SiteLayout Sites SiteIdentity.

Module SiteIdentityProps.
Import GoPath GoText Regex Names SiteIdentity.
#[local] Open Scope host_scope.

(** ** The table *)

(** The rows: users are unique, and no row is about the empty name. *)
Definition table_ok (ids : gmap string string) : Prop :=
  (∀ s1 s2 u, ids !! s1 = Some u → ids !! s2 = Some u → s1 = s2) ∧ ids !! "" = None.

Lemma owner_None ids u : owner_of ids u = None ↔ ∀ s, ids !! s ≠ Some u.
Proof.
  unfold owner_of. rewrite fmap_None, list_find_None, Forall_forall. split.
  - intros H s Hs%elem_of_map_to_list. by apply (H _ Hs).
  - intros H [s x] Hs%elem_of_map_to_list E. cbn in E. subst. by apply (H s).
Qed.
(** An index agrees with the rows it was read from. *)
Definition index_ok (i : identityIndex) : Prop := table_ok (bySite i) ∧ ∀ u s, byUser i !! u = Some s ↔ bySite i !! s = Some u.
Lemma loadIndex_ok ids : table_ok ids → index_ok (loadIndex ids).
Proof.
  intros [Hu He]. split; [done|]. intros u s. cbn. rewrite <- elem_of_list_to_map.
  - rewrite list_elem_of_fmap. setoid_rewrite elem_of_map_to_list'. split; [intros ([? ?] & [= -> ->] & ?); done|]. intros H. by exists (s, u).
  - rewrite <- list_fmap_compose. apply NoDup_fmap_2_strong; [|apply NoDup_map_to_list].
    intros [s1 u1] [s2 u2] H1%elem_of_map_to_list H2%elem_of_map_to_list. cbn. intros ->. f_equal. by eapply Hu.
Qed.
Lemma index_None i u : index_ok i → byUser i !! u = None ↔ ∀ s, bySite i !! s ≠ Some u.
Proof.
  intros [_ H]. rewrite eq_None_not_Some. split; [intros Hn s Hs; by apply Hn; exists s; apply H|]. intros Hn [s Hs]. by apply (Hn s), H.
Qed.

Section pure.
Context (sha : string → string).
#[local] Notation UnixUser := (UnixUser sha).
#[local] Notation allocatedUser := (allocatedUser sha).

(** ** The gate *)

Definition unresolved (ids : gmap string string) (s : string) : Prop := ids !! s = None ∨ ids !! s = Some (UnixUser s).
(** Nobody else has, or would get, the old account of [s]. *)
Definition clear_of (ids : gmap string string) (L : list string) (s : string) : Prop :=
  (∀ s', s' ∈ L → UnixUser s' = UnixUser s → s' = s) ∧ ∀ s', ids !! s' = Some (UnixUser s) → s' = s.
Definition gate_clear (ids : gmap string string) (L : list string) : Prop := ∀ s, s ∈ L → unresolved ids s → clear_of ids L s.

Lemma groups_lookup L l : groups_of sha L !! l = match filter (λ s, UnixUser s = l) L with [] => None | g => Some g end.
Proof.
  induction L as [|s L IH] using rev_ind; [apply lookup_empty|]. unfold groups_of in *. rewrite foldl_app, filter_app. cbn [foldl].
  destruct (decide (UnixUser s = l)) as [<-|Hne].
  - rewrite lookup_insert_eq, IH, filter_cons_True by done. change (filter _ []) with (@nil string). destruct (filter _ L); done.
  - rewrite lookup_insert_ne, IH, filter_cons_False by done. change (filter _ []) with (@nil string). by rewrite app_nil_r.
Qed.

Lemma scan_group_spec i l g : (∀ s, s ∈ g → UnixUser s = l) → index_ok i →
  ((scan_group i l g).1 = true ↔ ∃ s, s ∈ g ∧ unresolved (bySite i) s) ∧
  ((scan_group i l g).2 = "" ↔ ∀ s, s ∈ g → unresolved (bySite i) s → ∀ p, bySite i !! p = Some l → p = s).
Proof.
  intros Hg Hi. unfold scan_group. induction g as [|s g IH] using rev_ind.
  { cbn. split; [split; [done|]; intros (? & []%elem_of_nil & _)|split; [|done]; intros _ ? []%elem_of_nil]. }
  rewrite foldl_app. cbn [foldl]. destruct IH as [IH1 IH2]; [intros; apply Hg; set_solver|]. set (acc := foldl _ _ g) in *.
  assert (UnixUser s = l) as El by (apply Hg; set_solver).
  assert (∀ p, byUser i !! l = Some p → p ≠ "") as Hne.
  { intros p Hp ->. apply (proj2 Hi) in Hp. by rewrite (proj2 (proj1 Hi)) in Hp. }
  assert (unresolved (bySite i) s →
    (true = true ↔ ∃ x, x ∈ g ++ [s] ∧ unresolved (bySite i) x) ∧
    (match byUser i !! l with Some p => if negb (bool_decide (p = s)) then p else acc.2 | None => acc.2 end = "" ↔
      ∀ x, x ∈ g ++ [s] → unresolved (bySite i) x → ∀ p, bySite i !! p = Some l → p = x)) as Hun.
  { intros Hs. split; [split; [|done]; intros _; exists s; set_solver|]. destruct (byUser i !! l) as [p|] eqn:Ep.
    - case_bool_decide as E; cbn [negb].
      + subst p. rewrite IH2. split; [|intros H x Hx; apply H; set_solver]. intros H x [Hx|Hx]%elem_of_app; [by apply H|].
        apply list_elem_of_singleton in Hx as ->. intros _ p Hp. apply (proj2 Hi) in Hp. congruence.
      + split; [intros ->; by destruct (Hne "")|]. intros H. destruct E. apply (H s); [set_solver|done|]. by apply (proj2 Hi).
    - rewrite IH2. pose proof (proj1 (index_None i l Hi) Ep) as Hn. split; intros _ x _ _ p Hp; by destruct (Hn p). }
  destruct (bySite i !! s) as [u|] eqn:Es; [|by apply Hun; left]. case_bool_decide as E; cbn [negb]; [apply Hun; right; rewrite Es; congruence|].
  rewrite IH1, IH2. assert (¬ unresolved (bySite i) s) as Hnu by (unfold unresolved; rewrite Es, El; intros [|[=]]; done).
  split; [split; intros (x & Hx & Hu)|split; intros H x Hx Hu].
  - exists x. set_solver.
  - exists x. split; [|done]. apply elem_of_app in Hx as [|Hx%list_elem_of_singleton]; [done|congruence].
  - apply H; [|done]. apply elem_of_app in Hx as [|Hx%list_elem_of_singleton]; [done|congruence].
  - apply H; [set_solver|done].
Qed.

(** The old account of an unresolved site is in no collision exactly when it is clear. *)
Lemma collision_clear i L s : index_ok i → NoDup L → s ∈ L → unresolved (bySite i) s →
  unresolvedLegacyCollisions sha L i !! UnixUser s = None ↔ clear_of (bySite i) L s.
Proof.
  intros Hi Hnd Hs Hu. unfold unresolvedLegacyCollisions. rewrite map_lookup_imap, groups_lookup.
  set (g := filter (λ x, UnixUser x = UnixUser s) L). assert (s ∈ g) as Hsg by (apply list_elem_of_filter; done).
  destruct (scan_group_spec i (UnixUser s) g) as [H1 H2]; [by intros x [? _]%list_elem_of_filter|done|].
  destruct g as [|x g'] eqn:Eg; [by apply elem_of_nil in Hsg|]. cbn [mbind option_bind]. unfold collision_of.
  destruct (scan_group i (UnixUser s) (x :: g')) as [un owner]. cbn [fst snd] in *. rewrite (proj2 H1) by eauto. cbn [andb].
  assert (NoDup (x :: g')) as Hg by (rewrite <- Eg; by apply NoDup_filter).
  assert (∀ y, y ∈ x :: g' ↔ UnixUser y = UnixUser s ∧ y ∈ L) as Hin by (intros y; rewrite <- Eg; unfold g; by rewrite list_elem_of_filter).
  split.
  - case_bool_decide as El; [done|]. destruct (bool_decide_reflect (owner = "")) as [Eo|]; [|done]. intros _. destruct g'; [|cbn in El; lia].
    apply list_elem_of_singleton in Hsg as ->. split; [intros s' Hs' E; by apply list_elem_of_singleton, Hin|].
    intros s' Hs'. apply (proj1 H2 Eo x); [set_solver|done|done].
  - intros [C1 C2]. assert (g' = []) as ->.
    { destruct g' as [|y g']; [done|]. apply NoDup_cons in Hg as [Hx _]. destruct Hx.
      assert (x = s) as -> by (apply C1; apply Hin; set_solver). assert (y = s) as -> by (apply C1; apply Hin; set_solver). set_solver. }
    rewrite bool_decide_false by (cbn; lia). rewrite bool_decide_true; [done|]. apply H2. intros y Hy _ p Hp.
    assert (y = s) as -> by (apply C1; by apply Hin). by apply C2.
Qed.
Lemma gate_iff i L : index_ok i → NoDup L → unresolvedLegacyCollisions sha L i = ∅ ↔ gate_clear (bySite i) L.
Proof.
  intros Hi Hnd. split.
  - intros E s Hs Hu. apply collision_clear; [done..|]. by rewrite E, lookup_empty.
  - intros Hc. apply map_empty. intros l. unfold unresolvedLegacyCollisions. rewrite map_lookup_imap, groups_lookup.
    set (g := filter (λ x, UnixUser x = l) L). destruct (scan_group_spec i l g) as [H1 H2]; [by intros x [? _]%list_elem_of_filter|done|].
    destruct g as [|x g'] eqn:Eg; [done|]. cbn [mbind option_bind]. unfold collision_of.
    destruct (scan_group i l (x :: g')) as [[] owner] eqn:E; [|done]. destruct (proj1 H1 eq_refl) as (s & Hs & Hu).
    rewrite <- Eg in Hs. apply list_elem_of_filter in Hs as [El Hs]. pose proof (proj2 (collision_clear i L s Hi Hnd Hs Hu) (Hc s Hs Hu)) as Hn.
    unfold unresolvedLegacyCollisions in Hn. rewrite map_lookup_imap, groups_lookup, El in Hn. fold g in Hn. rewrite Eg in Hn. cbn [mbind option_bind] in Hn.
    unfold collision_of in Hn. by rewrite E in Hn.
Qed.

(** ** The plan *)

(** Lower-case hexadecimal digits of SHA-256. *)
Definition lower_hex (c : ascii) : bool := is_digit c || bool_decide (97 ≤ code c ≤ 102).
Definition digest_ok : Prop := ∀ x, len (sha x) = 64 ∧ all_bytes lower_hex (sha x) = true.
Context (Hsha : digest_ok).

Lemma prefix_bytes n x c : c ∈ bytes_of (prefix_of n (sha x)) → lower_hex c = true.
Proof.
  unfold prefix_of. rewrite bytes_of_of. intros Hc%elem_of_take. destruct Hc as (k & Hc & _). destruct (Hsha x) as [_ H]. unfold all_bytes in H.
  rewrite forallb_forall in H. apply H. apply list_elem_of_In, list_elem_of_lookup. eauto.
Qed.
Lemma alloc_not_legacy s k s' : allocatedUser s k ≠ UnixUser s'.
Proof.
  unfold SiteIdentity.allocatedUser, SiteIdentity.UnixUser. intros E%(f_equal bytes_of). rewrite !bytes_of_app in E. apply app_inv_head in E.
  assert ("-"%char ∈ bytes_of (prefix_of 24 (sha (if bool_decide (k = 0%nat) then s else s +:+ "#" +:+ Itoa (Z.of_nat k))))) as Hd.
  { rewrite E. set_solver. }
  by apply prefix_bytes in Hd.
Qed.

(** What a plan assigns: to each site of the list, an account that nobody has. *)
Definition planned_ok (i : identityIndex) (l : list (string * string)) (A : list RepairAssignment) : Prop :=
  Site <$> A = l.*2 ∧ LegacyUser <$> A = l.*1 ∧ NoDup (Username <$> A) ∧
  ∀ a, a ∈ A → PreviousUser a = default "" (bySite i !! Site a) ∧ Completed a = false ∧ (∃ k, Username a = allocatedUser (Site a) k).
Lemma free_user_spec site r k n u : free_user sha site r k n = Some u → (∃ k', u = allocatedUser site k') ∧ default "" (r !! u) = "".
Proof.
  revert k. induction n as [|n IH]; intros k; cbn; [done|]. case_bool_decide as E; [|apply IH]. intros [= <-]. eauto.
Qed.
Lemma plan_sites_ok i r l A : (∀ u s, r !! u = Some s → s ≠ "") → (∀ x, x ∈ l → x.2 ≠ "") → plan_sites sha i r l = Some A →
  planned_ok i l A ∧ ∀ a, a ∈ A → r !! Username a = None.
Proof.
  revert r A. induction l as [|[lg s] l IH]; intros r A Hr Hl; cbn [plan_sites].
  { intros [= <-]. split; [split_and!; [done..|constructor|]|]; intros ? []%elem_of_nil. }
  destruct (free_user sha s r 0 1024) as [u|] eqn:Eu; [|done]. apply free_user_spec in Eu as [[k ->] Hfree].
  destruct (plan_sites sha i (<[allocatedUser s k := s]> r) l) as [A'|] eqn:E; [|done]. intros [= <-].
  assert (s ≠ "") as Hs by (by apply (Hl (lg, s)); set_solver).
  apply IH in E as [(H1 & H2 & H3 & H4) H5]; cycle 1.
  { intros u x Hx. destruct (decide (u = allocatedUser s k)) as [->|]; [rewrite lookup_insert_eq in Hx; congruence|].
    rewrite lookup_insert_ne in Hx by done. by eapply Hr. }
  { intros x Hx. apply Hl. set_solver. }
  assert (r !! allocatedUser s k = None) as Hn by (destruct (r !! allocatedUser s k) eqn:E0; [|done]; cbn in Hfree; by apply Hr in E0).
  split; [split_and!|].
  - cbn. by rewrite H1.
  - cbn. by rewrite H2.
  - cbn. constructor; [|done]. intros (a & Ea & Ha)%list_elem_of_fmap. apply H5 in Ha. rewrite <- Ea in Ha. by rewrite lookup_insert_eq in Ha.
  - intros a [->|Ha]%elem_of_cons; [by cbn; eauto|by apply H4].
  - intros a [->|Ha]%elem_of_cons; [done|]. apply H5 in Ha. by apply lookup_insert_None in Ha as [? _].
Qed.

Lemma elem_to_repair C l s : (l, s) ∈ to_repair C ↔ ∃ c, C !! l = Some c ∧ s ∈ Live c.
Proof.
  unfold to_repair. rewrite list_elem_of_bind. setoid_rewrite merge_sort_Permutation. split.
  - intros (l' & Hin & _). destruct (C !! l') as [c|] eqn:E; [|by apply elem_of_nil in Hin].
    apply list_elem_of_fmap in Hin as (s' & [= -> ->] & Hs). eauto.
  - intros (c & E & Hs). exists l. rewrite E. split; [apply list_elem_of_fmap; eauto|]. apply list_elem_of_fmap. exists (l, c). split; [done|]. by apply elem_of_map_to_list.
Qed.
Lemma collision_live i L l c : unresolvedLegacyCollisions sha L i !! l = Some c → Live c = filter (λ s, UnixUser s = l) L.
Proof.
  unfold unresolvedLegacyCollisions. rewrite map_lookup_imap, groups_lookup. destruct (filter _ L) as [|x g]; [done|]. cbn [mbind option_bind]. unfold collision_of.
  destruct (scan_group _ _ _) as [un o]. destruct (_ && _); [|done]. by intros [= <-].
Qed.
Lemma repair_elem i L l s : (l, s) ∈ to_repair (unresolvedLegacyCollisions sha L i) ↔ l = UnixUser s ∧ s ∈ L ∧ is_Some (unresolvedLegacyCollisions sha L i !! UnixUser s).
Proof.
  rewrite elem_to_repair. split.
  - intros (c & E & Hs). rewrite (collision_live _ _ _ _ E) in Hs. apply list_elem_of_filter in Hs as [<- Hs]. eauto.
  - intros (-> & Hs & [c E]). exists c. split; [done|]. rewrite (collision_live _ _ _ _ E). by apply list_elem_of_filter.
Qed.
Lemma repair_NoDup i L : NoDup L → NoDup (to_repair (unresolvedLegacyCollisions sha L i)).*2.
Proof.
  intros Hnd. apply NoDup_fmap_2_strong.
  - intros [l1 s1] [l2 s2] [H1 _]%repair_elem [H2 _]%repair_elem. cbn. intros ->. by rewrite H1, H2.
  - unfold to_repair. apply NoDup_bind.
    + intros l1 l2 x _ _ H1 H2. destruct (_ !! l1); [|by apply elem_of_nil in H1]. destruct (_ !! l2); [|by apply elem_of_nil in H2].
      apply list_elem_of_fmap in H1 as (? & -> & _). by apply list_elem_of_fmap in H2 as (? & [= -> _] & _).
    + intros l _. destruct (_ !! l) as [c|] eqn:E; [|constructor]. rewrite (collision_live _ _ _ _ E). apply NoDup_fmap_2; [by intros ? ? [=]|]. by apply NoDup_filter.
    + rewrite merge_sort_Permutation. apply NoDup_fst_map_to_list.
Qed.

(** ** The mappings *)

Fixpoint assigned (A : list RepairAssignment) (ids : gmap string string) : gmap string string :=
  match A with [] => ids | a :: rest => assigned rest (<[Site a := Username a]> ids) end.
Fixpoint apply_all (A : list RepairAssignment) (ids : gmap string string) : res (gmap string string) :=
  match A with
  | [] => Ok ids
  | a :: rest => match applyRepairMapping a ids with Ok ids' => apply_all rest ids' | Err err => Err err end
  end.
Lemma assigned_other A ids s : s ∉ Site <$> A → assigned A ids !! s = ids !! s.
Proof.
  revert ids. induction A as [|a A IH]; intros ids; cbn; [done|]. intros [H1 H2]%not_elem_of_cons. rewrite IH by done. by rewrite lookup_insert_ne.
Qed.
Lemma assigned_in A ids a : NoDup (Site <$> A) → a ∈ A → assigned A ids !! Site a = Some (Username a).
Proof.
  revert ids. induction A as [|b A IH]; intros ids; cbn; [by intros _ ?%elem_of_nil|]. intros [Hb Hnd]%NoDup_cons [->|Ha]%elem_of_cons; [|by apply IH].
  rewrite assigned_other by done. apply lookup_insert_eq.
Qed.
(** The users of a plan are free and its previous users those of the rows. *)
Definition fits (A : list RepairAssignment) (ids : gmap string string) : Prop :=
  ∀ a, a ∈ A → Site a ≠ "" ∧ PreviousUser a = default "" (ids !! Site a) ∧ ∀ s, ids !! s ≠ Some (Username a).
Lemma table_insert ids s u : table_ok ids → s ≠ "" → (∀ x, ids !! x ≠ Some u) → table_ok (<[s := u]> ids).
Proof.
  intros [Hu He] Hs Hn. split; [|by rewrite lookup_insert_ne]. intros s1 s2 v. rewrite !lookup_insert_Some. naive_solver.
Qed.
Lemma apply_fresh A ids : table_ok ids → NoDup (Site <$> A) → NoDup (Username <$> A) → fits A ids →
  apply_all A ids = Ok (assigned A ids) ∧ table_ok (assigned A ids).
Proof.
  revert ids. induction A as [|a A IH]; intros ids Ht; cbn; [done|]. intros [Hs Hns]%NoDup_cons [Hu Hnu]%NoDup_cons Hf.
  destruct (Hf a) as (Ha1 & Ha2 & Ha3); [set_solver|]. assert (applyRepairMapping a ids = Ok (<[Site a := Username a]> ids)) as ->.
  { unfold applyRepairMapping. rewrite (bool_decide_true (owner_of ids (Username a) = None)) by (by apply owner_None).
    destruct (ids !! Site a) as [c|] eqn:Ec; cbn in Ha2; rewrite Ha2; [|done]. rewrite bool_decide_false by (intros ->; by apply (Ha3 (Site a))). by rewrite bool_decide_true. }
  apply IH; [by apply table_insert|done|done|]. intros b Hb. destruct (Hf b) as (Hb1 & Hb2 & Hb3); [set_solver|].
  assert (Site a ≠ Site b) as Hne by (intros E; apply Hs; rewrite E; by apply list_elem_of_fmap_2).
  assert (Username a ≠ Username b) as Hnu' by (intros E; apply Hu; rewrite E; by apply list_elem_of_fmap_2).
  rewrite lookup_insert_ne by done. split_and!; [done|done|]. intros s. rewrite lookup_insert_Some. naive_solver.
Qed.
Lemma apply_again A ids : (∀ a, a ∈ A → ids !! Site a = Some (Username a)) → apply_all A ids = Ok ids.
Proof.
  induction A as [|a A IH]; cbn; [done|]. intros H. unfold applyRepairMapping. rewrite H, bool_decide_true by set_solver. apply IH. intros b Hb. apply H. set_solver.
Qed.

(** A plan that is applied satisfies the gate. *)
Section planned.
Context (L : list string) (ids : gmap string string) (A : list RepairAssignment).
Context (Ht : table_ok ids) (HL : NoDup L) (Hne : "" ∉ L) (Hplan : plan sha L ids = Some A).

Lemma plan_facts : planned_ok (loadIndex ids) (to_repair (unresolvedLegacyCollisions sha L (loadIndex ids))) A ∧ ∀ a, a ∈ A → byUser (loadIndex ids) !! Username a = None.
Proof.
  apply (plan_sites_ok _ _ _ _); [| |exact Hplan].
  - intros u s Hs ->. apply (loadIndex_ok ids Ht) in Hs. cbn in Hs. by rewrite (proj2 Ht) in Hs.
  - intros [l s] (_ & Hs & _)%repair_elem. cbn. by intros ->.
Qed.
Lemma plan_site a : a ∈ A → Site a ∈ L ∧ LegacyUser a = UnixUser (Site a).
Proof.
  destruct plan_facts as [(H1 & H2 & _) _]. intros [k Hk]%list_elem_of_lookup.
  assert (∃ l, to_repair (unresolvedLegacyCollisions sha L (loadIndex ids)) !! k = Some (l, Site a) ∧ LegacyUser a = l) as (l & Hl & El).
  { assert (((Site <$> A) !! k) = Some (Site a)) as E1 by (by rewrite list_lookup_fmap, Hk). assert (((LegacyUser <$> A) !! k) = Some (LegacyUser a)) as E2 by (by rewrite list_lookup_fmap, Hk).
    rewrite H1 in E1. rewrite H2 in E2. rewrite list_lookup_fmap in E1, E2.
    destruct (to_repair _ !! k) as [[l s]|]; [|done]. injection E1 as E1. injection E2 as E2. exists l. by rewrite <- E1, <- E2. }
  apply list_elem_of_lookup_2, repair_elem in Hl as (-> & Hs & _). done.
Qed.
Lemma plan_distinct : NoDup (Site <$> A) ∧ NoDup (Username <$> A).
Proof. destruct plan_facts as [(-> & _ & H & _) _]. split; [by apply repair_NoDup|done]. Qed.
Lemma plan_fits : fits A ids.
Proof.
  intros a Ha. destruct plan_facts as [(_ & _ & _ & H) Hfree]. destruct (H a Ha) as (Hp & _ & _). split_and!; [|done|].
  - intros E. apply Hne. rewrite <- E. by apply plan_site.
  - apply (index_None (loadIndex ids)); [by apply loadIndex_ok|]. by apply Hfree.
Qed.
Lemma plan_applied : apply_all A ids = Ok (assigned A ids) ∧ table_ok (assigned A ids).
Proof. destruct plan_distinct. apply apply_fresh; [done..|apply plan_fits]. Qed.
Lemma plan_gate : gate_clear (assigned A ids) L.
Proof.
  destruct plan_distinct as [Hnd _]. destruct plan_facts as [(Hsites & _ & _ & Halloc) _].
  assert (∀ a s, a ∈ A → Username a ≠ UnixUser s) as Hno.
  { intros a s Ha. destruct (Halloc a Ha) as (_ & _ & k & ->). apply alloc_not_legacy. }
  intros s Hs Hu. assert (s ∉ Site <$> A) as Hout.
  { intros (a & -> & Ha)%list_elem_of_fmap. destruct Hu as [E|E]; rewrite (assigned_in A ids a Hnd Ha) in E; [done|]. injection E as E. by eapply Hno. }
  unfold unresolved in Hu. rewrite assigned_other in Hu by done.
  assert (clear_of ids L s) as [C1 C2].
  { apply (collision_clear (loadIndex ids)); [by apply loadIndex_ok|done..|]. destruct (unresolvedLegacyCollisions sha L (loadIndex ids) !! UnixUser s) as [c|] eqn:E; [|done].
    destruct Hout. rewrite Hsites. apply list_elem_of_fmap. exists (UnixUser s, s). split; [done|]. by apply repair_elem; rewrite E. }
  split; [done|]. intros s' Hs'. destruct (decide (s' ∈ Site <$> A)) as [(a & -> & Ha)%list_elem_of_fmap|Hn].
  - rewrite (assigned_in A ids a Hnd Ha) in Hs'. injection Hs' as Hs'. by apply Hno in Hs'.
  - rewrite assigned_other in Hs' by done. by apply C2.
Qed.
End planned.

(** ** Names *)

Lemma rep_class rs m n l : Forall (λ c, in_class rs c = true) l → (m ≤ length l ≤ n)%nat → Matches (rep m n (Cls rs)) l.
Proof.
  unfold rep. intros Hl. revert m n. induction Hl as [|c l Hc _ IH]; intros m n Hlen; cbn in Hlen.
  - destruct m; [|lia]. cbn. destruct (n - 0)%nat; cbn; [constructor|]. apply MAltL. constructor.
  - destruct m as [|m]; cbn.
    + destruct n as [|n]; [lia|]. cbn. apply MAltR, (MCat _ _ [c] l); [by constructor|]. rewrite <- (Nat.sub_0_r n). apply (IH 0%nat). lia.
    + destruct n as [|n]; [lia|]. cbn. apply (MCat _ _ [c] l); [by constructor|]. apply (IH m n). lia.
Qed.
Definition first_byte (c : ascii) : bool := in_class [("a", "z"); ("0", "9")]%char c.
Definition rest_byte (c : ascii) : bool := in_class [("a", "z"); ("0", "9"); ("-", "-")]%char c.
Lemma by_ascii (p q : ascii → bool) c : forallb (λ c, implb (p c) (q c)) all_ascii = true → p c = true → q c = true.
Proof.
  intros H Hc. rewrite forallb_forall in H. pose proof (H c (proj1 (list_elem_of_In _ _) (elem_of_all_ascii c))) as Hi. by rewrite Hc in Hi.
Qed.
Lemma user_ok c l : first_byte c = true → Forall (λ c, rest_byte c = true) l → (1 ≤ length l ≤ 28)%nat → validPersistedUser ("sp-" +:+ of_bytes (c :: l)) = true.
Proof.
  intros Hc Hl Hn. set (u := "sp-" +:+ of_bytes (c :: l)). assert (bytes_of u = bytes_of "sp-" ++ [c] ++ l) as Eu by (unfold u; by rewrite bytes_of_app, bytes_of_of).
  assert (all_bytes rest_byte u = true) as Hall.
  { unfold all_bytes. rewrite Eu, !forallb_app. apply andb_true_iff. split; [done|]. apply andb_true_iff. split; [apply andb_true_iff; split; [|done]; by apply (by_ascii first_byte)|].
    apply forallb_forall. intros x Hx%list_elem_of_In. rewrite Forall_forall in Hl. by apply Hl. }
  unfold validPersistedUser. rewrite (TrimSpace_solid rest_byte) by (done || by vm_compute). apply andb_true_iff. split.
  - apply MatchString_spec. rewrite Eu. unfold persistedUserPattern. constructor; [by apply Matches_lit|]. constructor; [by constructor|]. by apply rep_class.
  - apply Z.leb_le. unfold len. rewrite <- length_bytes_of, Eu, !length_app. cbn. lia.
Qed.

Lemma alloc_valid s k : validPersistedUser (allocatedUser s k) = true.
Proof.
  unfold SiteIdentity.allocatedUser. cbn zeta. set (x := if bool_decide _ then s else _). destruct (Hsha x) as [Hlen _]. unfold len in Hlen. rewrite <- length_bytes_of in Hlen.
  unfold prefix_of. destruct (take 24 (bytes_of (sha x))) as [|c l] eqn:E.
  { apply (f_equal length) in E. rewrite length_take in E. cbn [length] in E. lia. }
  assert (∀ y, y ∈ c :: l → lower_hex y = true) as Hy.
  { intros y Hy. apply (prefix_bytes 24 x). unfold prefix_of. by rewrite bytes_of_of, E. }
  apply user_ok.
  - apply (by_ascii lower_hex); [by vm_compute|]. apply Hy. set_solver.
  - apply Forall_forall. intros y Hin. apply (by_ascii lower_hex); [by vm_compute|]. apply Hy. set_solver.
  - apply (f_equal length) in E. rewrite length_take in E. cbn [length] in E. lia.
Qed.

(** The name of a site that starts with a letter or a digit. *)
Definition plain_start (s : string) : bool := match bytes_of s with c :: _ => first_byte c | [] => false end.
Lemma legacy_valid s : validSite s = true → plain_start s = true → validPersistedUser (UnixUser s) = true.
Proof.
  unfold validSite, plain_start, all_bytes. rewrite !andb_true_iff. intros [_ Hb] Hp. unfold SiteIdentity.UnixUser, prefix_of, replace_byte. rewrite !bytes_of_of.
  destruct (Hsha s) as [Hlen _]. unfold len in Hlen. rewrite <- length_bytes_of in Hlen. destruct (bytes_of s) as [|c l] eqn:E; [done|]. cbn [take fmap list_fmap].
  rewrite decide_False by (intros ->; by vm_compute in Hp).
  match goal with |- context [of_bytes (c :: ?x)] => set (t := x) end. set (h := take 8 (bytes_of (sha s))).
  assert ("sp-" +:+ of_bytes (c :: t) +:+ "-" +:+ of_bytes h = "sp-" +:+ of_bytes (c :: t ++ "-"%char :: h)) as ->.
  { apply (inj bytes_of). rewrite !bytes_of_app, !bytes_of_of. done. }
  assert (length h = 8%nat) as Hh by (unfold h; rewrite length_take; lia).
  apply user_ok; [done| |rewrite length_app; cbn [length]; unfold t; rewrite length_fmap, length_take; lia].
  cbn in Hb. apply andb_true_iff in Hb as [_ Hb]. rewrite forallb_forall in Hb. apply Forall_app. split.
  - apply Forall_fmap, Forall_forall. intros y (k & Hy & _)%elem_of_take. unfold compose. case_decide; [done|].
    assert (site_byte y = true) as Hs by (apply Hb, list_elem_of_In, list_elem_of_lookup; eauto).
    apply (by_ascii (λ y, site_byte y && negb (bool_decide (y = "_"%char))) rest_byte); [by vm_compute|]. rewrite Hs. by rewrite bool_decide_false.
  - constructor; [done|]. apply Forall_forall. intros y Hy. apply (by_ascii lower_hex); [by vm_compute|]. apply (prefix_bytes 8 s). unfold prefix_of. by rewrite bytes_of_of.
Qed.

(** ** Migration *)

Lemma liveSites_spec es : NoDup (liveSites es) ∧ ∀ s, s ∈ liveSites es → validSite s = true.
Proof.
  unfold liveSites. split.
  - rewrite merge_sort_Permutation. apply NoDup_filter. apply NoDup_fmap_2_strong; [|apply NoDup_filter, NoDup_map_to_list].
    intros [s1 b1] [s2 b2] [_ H1%elem_of_map_to_list]%list_elem_of_filter [_ H2%elem_of_map_to_list]%list_elem_of_filter. cbn. intros ->. congruence.
  - intros s. rewrite merge_sort_Permutation, list_elem_of_filter. by intros [? _].
Qed.
Lemma empty_invalid : validSite "" = false.
Proof. done. Qed.

(** Every site of [L] gets its old account, and the gate stays clear. *)
Lemma migrate_insert ids L s : table_ok ids → gate_clear ids L → s ∈ L → s ≠ "" → ids !! s = None →
  (∀ x, ids !! x ≠ Some (UnixUser s)) ∧ table_ok (<[s := UnixUser s]> ids) ∧ gate_clear (<[s := UnixUser s]> ids) L.
Proof.
  intros Ht Hg Hs Hne Hn. destruct (Hg s Hs (or_introl Hn)) as [C1 C2].
  assert (∀ x, ids !! x ≠ Some (UnixUser s)) as Hfree by (intros x Hx; rewrite (C2 x Hx) in Hx; congruence).
  split; [done|]. split; [by apply table_insert|]. intros s2 Hs2 Hu. destruct (decide (s2 = s)) as [->|Hd].
  - split; [done|]. intros x Hx. destruct (decide (x = s)); [done|]. rewrite lookup_insert_ne in Hx by done. by apply Hfree in Hx.
  - unfold unresolved in Hu. rewrite lookup_insert_ne in Hu by done. destruct (Hg s2 Hs2 Hu) as [D1 D2]. split; [done|]. intros x Hx.
    destruct (decide (x = s)) as [->|Hx']; [|rewrite lookup_insert_ne in Hx by done; by apply D2]. rewrite lookup_insert_eq in Hx. apply Some_inj in Hx. by apply D1.
Qed.

Section programs.
Context {H : Type} (e : Env) (C : Prop) (HC : C → quiet e).
#[local] Notation World := (World H).
Definition grown (L : list string) (ids ids' : gmap string string) : Prop := ids ⊆ ids' ∧ table_ok ids' ∧ gate_clear ids' L.
Lemma com_migrate_sites L l i (I : World → Prop) P : (∀ w, P w → I w) → index_ok i → gate_clear (bySite i) L → (∀ s, s ∈ l → s ∈ L ∧ s ≠ "") →
  completes C P (migrate_sites sha e l i) I (λ i' w, P w ∧ grown L (bySite i) (bySite i') ∧ ∀ s, s ∈ l → is_Some (bySite i' !! s)).
Proof.
  intros HP. revert i. induction l as [|s l IH]; intros i Hi Hg Hl; cbn [migrate_sites].
  { apply com_ok. intros w Hw. split; [by apply HP|]. split; [done|]. split; [|by intros ? ?%elem_of_nil]. split; [done|]. split; [apply Hi|done]. }
  destruct (Hl s) as [Hs Hne]; [set_solver|]. case_bool_decide as E; cbn [negb].
  - destruct (migrate_insert (bySite i) L s (proj1 Hi) Hg Hs Hne E) as (Hfree & Ht & Hg').
    rewrite bool_decide_true by (by apply index_None). cbn [negb]. eapply com_rbind; [apply com_wrap, (com_attempt e); [exact HP|exact HC]|]. intros [].
    eapply com_post; [|apply IH]; cbn [bySite byUser].
    + intros i' w (Hw & (G1 & G2 & G3) & G4). split; [done|]. split; [split; [|done]; etrans; [by apply insert_subseteq|done]|].
      intros x [->|Hx]%elem_of_cons; [|by apply G4]. exists (UnixUser s). eapply lookup_weaken; [apply lookup_insert_eq|done].
    + split; [done|]. intros u x. cbn. rewrite !lookup_insert_Some. rewrite (proj2 Hi). split.
      * intros [[E1 E2]|[Hu Hx]]; [by left|]. right. split; [|done]. intros E2. rewrite <- E2 in Hx. congruence.
      * intros [[E1 E2]|[Hx Hu]]; [by left|]. right. split; [|done]. intros E2. rewrite <- E2 in Hu. by apply Hfree in Hu.
    + done.
    + intros x Hx. apply Hl. set_solver.
  - eapply com_post; [|apply IH; [done..|intros x Hx; apply Hl; set_solver]]. intros i' w (Hw & G & G4). split; [done|]. split; [done|].
    intros x [->|Hx]%elem_of_cons; [|by apply G4]. destruct (bySite i !! s) as [u|] eqn:Eu; [|done]. exists u. by eapply lookup_weaken; [|apply G].
Qed.

Lemma com_migrate webRoot es (I P : World → Prop) :
  webRoot ≠ "" → (∀ w, P w → I w) → (∀ w, P w → entries w = Some es ∧ table_ok (identities w) ∧ gate_clear (identities w) (liveSites es)) →
  (∀ w ids', P w → grown (liveSites es) (identities w) ids' → P (set_identities ids' w)) →
  completes C P (MigrateExisting sha e webRoot) I (λ _ w, P w ∧ ∀ s, s ∈ liveSites es → is_Some (identities w !! s)).
Proof.
  intros Hweb HP HPe Hset. unfold MigrateExisting. rewrite bool_decide_false by done. eapply com_rbind; [apply com_wrap, (com_attempt e); [exact HP|exact HC]|]. intros [].
  apply com_look. intros w0. apply (com_fact _ _ (P w0)); [by intros w [Hw ->]|]. intros Hw0. destruct (HPe w0 Hw0) as (-> & Ht & Hg).
  assert (∀ w, P w ∧ w0 = w → I w) as HP' by (by intros w [Hw _]; apply HP).
  do 3 (eapply com_rbind; [apply com_wrap, (com_attempt e); [exact HP'|exact HC]|]; intros []).
  destruct (liveSites_spec es) as [Hnd Hval]. unfold legacyCollisionError. rewrite bool_decide_true by (by apply gate_iff; [apply loadIndex_ok|..]).
  apply com_now. intros t. eapply com_rbind.
  { apply com_migrate_sites with (L := liveSites es); [exact HP'|by apply loadIndex_ok|done|]. intros s Hs. split; [done|]. intros ->. by apply Hval in Hs. }
  intros i'. eapply com_rbind; [apply com_wrap, (com_attempt e); [by intros w [[Hw _] _]; apply HP|exact HC]|]. intros [].
  eapply (com_effect _ _ _ _ _ (λ w, P w ∧ ∀ s, s ∈ liveSites es → is_Some (identities w !! s))).
  - intros w ([Hw <-] & Hgr & Hall). split; [by apply HP|]. split; [by apply Hset|]. done.
  - apply com_ok. intros w [Hw Hall]. split; [by apply HP|done].
Qed.
End programs.

(** ** The repair *)

(** What is repaired: the live sites, the rows at the start, and the plan for them. *)
Record repairable (es : gmap string bool) (ids : gmap string string) (A : list RepairAssignment) : Prop := {
  rp_table : table_ok ids;
  rp_users : ∀ s u, ids !! s = Some u → validPersistedUser u = true;
  rp_plain : ∀ s, s ∈ liveSites es → plain_start s = true;
  rp_plan : plan sha (liveSites es) ids = Some A;
  rp_some : A ≠ [] }.

Section repair.
Context {H : Type} `{HL : RepairHostLaws H} (Hpre : ∀ l (h : H), preflight l h = true).
#[local] Notation World := (World H).
Context (webRoot : string) (Hweb : webRoot ≠ "" ∧ IsAbs (Clean webRoot) = true).
Context (es : gmap string bool) (ids0 : gmap string string) (A : list RepairAssignment) (R : repairable es ids0 A).
Let L := liveSites es.
Let ids1 := assigned A ids0.

Definition pending (a : RepairAssignment) : RepairAssignment := mkAssignment (Site a) (PreviousUser a) (LegacyUser a) (Username a) false.
Definition shape (j : RepairJournal) : Prop :=
  Version j = 1 ∧ WebRoot j = Clean webRoot ∧ validRepairJournalID (ID j) = true ∧ pending <$> Assignments j = A.
Definition flags (j : RepairJournal) (h : H) : Prop := ∀ a, a ∈ Assignments j → Completed a = true → verify a h = true.
Definition whole (j : RepairJournal) : Prop := ∀ a, a ∈ Assignments j → Completed a = true.
Definition settled (ids : gmap string string) : Prop := grown L ids1 ids.

(** The states between two runs. *)
Inductive stage (w : World) : Prop :=
  | st_none : journal w = None → identities w = ids0 → stage w
  | st_planned j : journal w = Some (Some j) → shape j → State j = "planned" → Assignments j = A → identities w = ids0 ∨ identities w = ids1 → stage w
  | st_committed j : journal w = Some (Some j) → shape j → State j = "mappings-committed" → settled (identities w) → flags j (host w) → stage w
  | st_completed j : journal w = Some (Some j) → shape j → State j = "completed" → settled (identities w) → flags j (host w) → whole j →
      (∀ s, s ∈ L → is_Some (identities w !! s)) → stage w.
Definition inv (w : World) : Prop := entries w = Some es ∧ stage w.

Lemma L_ok : NoDup L ∧ "" ∉ L.
Proof. destruct (liveSites_spec es) as [H1 H2]. split; [done|]. by intros ?%H2. Qed.
Lemma A_facts : NoDup (Site <$> A) ∧ NoDup (Username <$> A) ∧ fits A ids0 ∧ table_ok ids1 ∧ gate_clear ids1 L ∧ ∀ a, a ∈ A → Completed a = false.
Proof.
  destruct L_ok as [H1 H2]. pose proof (rp_plan _ _ _ R) as Hp. pose proof (rp_table _ _ _ R) as Ht.
  destruct (plan_distinct L ids0 A Ht H1 H2 Hp) as [D1 D2]. destruct (plan_applied L ids0 A Ht H1 H2 Hp) as [_ T].
  split; [done|]. split; [done|]. split; [by eapply plan_fits|]. split; [done|]. split; [by apply plan_gate|].
  intros a Ha. destruct (plan_facts L ids0 A Ht H2 Hp) as [(_ & _ & _ & F) _]. by apply F.
Qed.
Lemma pending_A : pending <$> A = A.
Proof.
  destruct A_facts as (_ & _ & _ & _ & _ & Hc). rewrite <- (list_fmap_id A) at 2. apply list_fmap_ext. intros i a Ha%list_elem_of_lookup_2. destruct a. apply Hc in Ha. cbn in Ha. by rewrite Ha.
Qed.
Lemma A_settled : settled ids1.
Proof. destruct A_facts as (_ & _ & _ & ? & ? & _). by split_and!. Qed.

(** A journal of the right shape passes the checks of reading. *)
Lemma distinct_ok l S U : NoDup (Site <$> l) → NoDup (Username <$> l) → (∀ a, a ∈ l → Site a ∉ S ∧ Username a ∉ U) → distinct l S U = true.
Proof.
  revert S U. induction l as [|a l IH]; intros S U; cbn; [done|]. intros [Hs Hns]%NoDup_cons [Hu Hnu]%NoDup_cons Hf.
  destruct (Hf a) as [F1 F2]; [set_solver|]. rewrite !bool_decide_false by done. cbn. apply IH; [done..|]. intros b Hb. destruct (Hf b) as [G1 G2]; [set_solver|].
  split; (intros [E|]%elem_of_cons; [|done]); [apply Hs|apply Hu]; rewrite <- E; by apply list_elem_of_fmap_2.
Qed.
Lemma A_valid a : a ∈ A → valid_assignment sha a = true.
Proof.
  intros Ha. destruct L_ok as [H1 H2]. pose proof (rp_plan _ _ _ R) as Hp. pose proof (rp_table _ _ _ R) as Ht.
  destruct (plan_site L ids0 A Ht H2 Hp a Ha) as [Hs Hl]. destruct (plan_facts L ids0 A Ht H2 Hp) as [(_ & _ & _ & F) _]. destruct (F a Ha) as (Hprev & _ & k & Hk).
  unfold valid_assignment. rewrite Hl, Hk, Hprev. pose proof (proj2 (liveSites_spec es) _ Hs) as Hv. rewrite Hv, alloc_valid, legacy_valid by (done || by apply R).
  rewrite bool_decide_true, (bool_decide_false (_ = UnixUser _)) by (done || apply alloc_not_legacy). cbn. destruct (ids0 !! Site a) as [u|] eqn:E; [|done]. cbn.
  rewrite (rp_users _ _ _ R _ _ E). apply orb_true_r.
Qed.
Lemma shape_reads j : shape j → forallb (valid_assignment sha) (Assignments j) = true ∧ distinct (Assignments j) [] [] = true.
Proof.
  intros (_ & _ & _ & E). destruct A_facts as (D1 & D2 & _). split.
  - apply forallb_forall. intros a Ha%list_elem_of_In. assert (pending a ∈ A) as Hp by (rewrite <- E; by apply list_elem_of_fmap_2). apply A_valid in Hp. by destruct a.
  - apply distinct_ok; [| |by intros; split; apply not_elem_of_nil].
    + rewrite <- E, <- list_fmap_compose in D1. exact D1.
    + rewrite <- E, <- list_fmap_compose in D2. exact D2.
Qed.
Lemma shape_in j a : shape j → a ∈ Assignments j → pending a ∈ A.
Proof. intros (_ & _ & _ & <-). apply list_elem_of_fmap_2. Qed.
Lemma settled_in ids j a : settled ids → shape j → a ∈ Assignments j → ids !! Site a = Some (Username a).
Proof.
  intros (Hs & _) Hj Ha. apply (shape_in j) in Ha; [|done]. destruct A_facts as (D1 & _). eapply lookup_weaken; [|exact Hs]. by apply (assigned_in A ids0 (pending a)).
Qed.
Lemma settled_plan ids : settled ids → plan sha L ids = Some [].
Proof.
  intros (_ & Ht & Hg). unfold plan. destruct L_ok as [H1 _]. rewrite (proj2 (gate_iff (loadIndex ids) L (loadIndex_ok ids Ht) H1) Hg). by vm_compute.
Qed.

(** *** One run *)

Context (e : Env).
(** No call fails, and the random identities are well formed. *)
Definition undisturbed : Prop := quiet e ∧ ∀ n, ∃ id, rand e n = Some id ∧ validRepairJournalID id = true.
#[local] Notation goes := (completes undisturbed).
Lemma Hquiet : undisturbed → quiet e.
Proof. by intros []. Qed.
Lemma goes_attempt P (I : World → Prop) : (∀ w, P w → I w) → goes P (Effects.attempt e) I (λ _, P).
Proof. intros HP. by apply com_attempt; [|apply Hquiet]. Qed.
Lemma goes_write j (P P' I : World → Prop) : (∀ w, P w → I w ∧ P' (set_journal j w)) → (∀ w, P' w → I w) → goes P (writeRepairJournal e j) I (λ _, P').
Proof.
  intros HP HP'. unfold writeRepairJournal. eapply com_rbind; [by apply goes_attempt; intros w Hw; apply HP|]. intros []. cbn beta.
  eapply com_effect; [exact HP|]. by apply goes_attempt.
Qed.

Definition at_committed (j : RepairJournal) (w : World) : Prop :=
  entries w = Some es ∧ journal w = Some (Some j) ∧ shape j ∧ State j = "mappings-committed" ∧ settled (identities w) ∧ flags j (host w).
Lemma at_committed_inv j w : at_committed j w → inv w.
Proof. intros (? & ? & ? & ? & ? & ?). split; [done|]. by eapply st_committed. Qed.
Lemma same_site j a b : shape j → a ∈ Assignments j → b ∈ Assignments j → Site a = Site b → a = b.
Proof.
  intros (_ & _ & _ & E) [k Hk]%list_elem_of_lookup [k' Hk']%list_elem_of_lookup Es. destruct A_facts as (D & _). rewrite <- E, <- list_fmap_compose in D.
  assert (k = k') as ->; [|congruence]. eapply (NoDup_lookup _ _ _ (Site a) D); rewrite list_lookup_fmap; [by rewrite Hk|]. rewrite Hk'. cbn. by rewrite Es.
Qed.
(** Work on a site that is not completed leaves the verified sites alone. *)
Lemma work_flags j a f h : shape j → a ∈ Assignments j → Completed a = false → (∀ b, Site b ≠ Site a → verify b (f h) = verify b h) → flags j h → flags j (f h).
Proof.
  intros Hj Ha Hc Hf Hfl b Hb Hcb. rewrite Hf; [by apply Hfl|]. intros E. assert (b = a) as -> by (by eapply same_site). congruence.
Qed.
Lemma complete_shape i j t : shape j → shape (complete_at i j t).
Proof.
  intros (H1 & H2 & H3 & E). split_and!; [done..|]. cbn [Assignments complete_at]. rewrite <- E. apply list_eq. intros k. rewrite !list_lookup_fmap.
  destruct (decide (i = k)) as [->|].
  - rewrite list_lookup_alter_eq. by destruct (Assignments j !! k).
  - by rewrite list_lookup_alter_ne.
Qed.
Lemma complete_elem i j t b : b ∈ Assignments (complete_at i j t) → b ∈ Assignments j ∨ ∃ a, Assignments j !! i = Some a ∧ b = completed a.
Proof.
  intros [k Hk]%list_elem_of_lookup. cbn in Hk. destruct (decide (i = k)) as [->|].
  - rewrite list_lookup_alter_eq in Hk. destruct (Assignments j !! k) as [a|]; [|done]. injection Hk as <-. eauto.
  - rewrite list_lookup_alter_ne in Hk by done. left. by eapply list_elem_of_lookup_2.
Qed.

Lemma goes_reconcile {B} a j (k : Effects.M World (res B)) Q : a ∈ Assignments j → Completed a = false →
  goes (λ w, at_committed j w ∧ verify a (host w) = true) k inv Q →
  goes (at_committed j) (let? _ := ensureRepairMapping e a in let? _ := wrap "reconcile site" (Reconcile e a) in let? _ := wrap "verify site" (Verify e a) in k) inv Q.
Proof.
  intros Ha Hc Hk. pose proof (at_committed_inv j) as HI. eapply (com_rbind _ _ _ _ _ (λ _, at_committed j)).
  { unfold ensureRepairMapping. eapply com_rbind; [apply com_wrap, goes_attempt, HI|]. intros []. apply com_look. intros w0.
    apply (com_fact _ _ (identities w0 !! Site a = Some (Username a))); [intros w [(_ & _ & Hj & _ & Hs & _) ->]; by eapply settled_in|]. intros E.
    rewrite bool_decide_true by done. apply com_ok. intros w [Hw _]. split; [by apply HI|done]. }
  intros []. eapply com_rbind; [apply com_wrap|].
  - unfold Reconcile. eapply (com_effect _ _ _ _ _ (at_committed j)).
    { intros w Hw. split; [by apply HI|]. destruct Hw as (? & ? & Hj & ? & ? & Hf). split_and!; [done..|]. cbn. apply (work_flags j a (partly a)); [done..| |done].
      intros b Hb. by apply partly_keeps. }
    eapply com_rbind; [apply goes_attempt, HI|]. intros []. eapply (com_effect _ _ _ _ _ (λ w, at_committed j w ∧ verify a (host w) = true)).
    { intros w Hw. split; [by apply HI|]. destruct Hw as (? & ? & Hj & ? & ? & Hf). split; [|apply reconcile_verifies].
      split_and!; [done..|]. cbn. apply (work_flags j a (reconcile a)); [done..| |done]. intros b Hb. by apply reconcile_keeps. }
    apply (com_ok _ _ _ _ (λ _ w, at_committed j w ∧ verify a (host w) = true)). intros w [Hw Hv]. split; [by apply HI|done].
  - intros []. cbn beta. apply (com_rbind _ _ _ _ _ (λ _ w, at_committed j w ∧ verify a (host w) = true)); [apply com_wrap|intros []; exact Hk]. unfold Verify. eapply com_rbind; [apply goes_attempt; intros w [Hw _]; by apply HI|]. intros []. apply com_look. intros w0.
    apply (com_fact _ _ (verify a (host w0) = true)); [by intros w [[_ Hv] ->]|]. intros ->.
    apply (com_ok _ _ _ _ (λ _ w, at_committed j w ∧ verify a (host w) = true)). intros w [[Hw Hv] _]. split; [by apply HI|done].
Qed.
Lemma goes_reconcile_all i n j : (∀ k a, (k < i)%nat → Assignments j !! k = Some a → Completed a = true) → (length (Assignments j) ≤ i + n)%nat →
  goes (at_committed j) (reconcile_all e i n j) inv (λ j' w, at_committed j' w ∧ whole j').
Proof.
  revert i j. induction n as [|n IH]; intros i j Hdone Hlen; cbn [reconcile_all].
  { apply com_ok. intros w Hw. split; [by eapply at_committed_inv|]. split; [done|]. intros a [k Hk]%list_elem_of_lookup. apply (Hdone k); [|done].
    apply lookup_lt_Some in Hk. lia. }
  destruct (Assignments j !! i) as [a|] eqn:Ei.
  2:{ apply com_ok. intros w Hw. split; [by eapply at_committed_inv|]. split; [done|]. intros a [k Hk]%list_elem_of_lookup. apply (Hdone k); [|done].
      apply lookup_ge_None in Ei. apply lookup_lt_Some in Hk. lia. }
  destruct (Completed a) eqn:Ec.
  { apply IH; [|lia]. intros k b Hk Hb. destruct (decide (k = i)) as [->|]; [congruence|]. apply (Hdone k); [lia|done]. }
  apply goes_reconcile; [by eapply list_elem_of_lookup_2|done|]. apply com_now. intros t.
  assert (∀ w, at_committed j w ∧ verify a (host w) = true → at_committed (complete_at i j t) (set_journal (complete_at i j t) w)) as Hnext.
  { intros w [(? & ? & Hj & ? & ? & Hf) Hv]. split_and!; [done|done|by apply complete_shape|done|done|]. cbn. intros b [Hb|(a' & Ea & ->)]%complete_elem Hcb; [by apply Hf|].
    rewrite verify_completed. rewrite Ei in Ea. by injection Ea as <-. }
  eapply com_rbind; [apply com_wrap, (goes_write _ _ (at_committed (complete_at i j t)))|].
  - intros w Hw. split; [eapply at_committed_inv, Hw|by apply Hnext].
  - apply at_committed_inv.
  - intros []. apply IH; [|cbn; rewrite length_alter; lia]. intros k b Hk Hb. cbn in Hb. destruct (decide (k = i)) as [->|].
    + rewrite list_lookup_alter_eq, Ei in Hb. by injection Hb as <-.
    + rewrite list_lookup_alter_ne in Hb by done. apply (Hdone k); [lia|done].
Qed.

Lemma goes_apply l ids ids' (P I : World → Prop) : (∀ w, P w → I w) → apply_all l ids = Ok ids' → goes P (apply_mappings e l ids) I (λ r w, P w ∧ r = ids').
Proof.
  intros HP. revert ids. induction l as [|a l IH]; intros ids; cbn [apply_mappings apply_all]. { intros [= ->]. apply com_ok. intros w Hw. split; [by apply HP|done]. }
  destruct (applyRepairMapping a ids) as [x|err] eqn:E; [|done]. intros Hx. eapply com_rbind; [apply com_wrap, goes_attempt, HP|]. intros [].
  eapply com_rbind; [apply goes_attempt, HP|]. intros []. by apply IH.
Qed.

Definition at_planned (j : RepairJournal) (ok : gmap string string → Prop) (w : World) : Prop :=
  entries w = Some es ∧ journal w = Some (Some j) ∧ shape j ∧ State j = "planned" ∧ Assignments j = A ∧ ok (identities w).
Definition either (ids : gmap string string) : Prop := ids = ids0 ∨ ids = ids1.
Lemma at_planned_inv j (ok : gmap string string → Prop) w : (∀ ids, ok ids → either ids) → at_planned j ok w → inv w.
Proof. intros Hok (? & ? & ? & ? & ? & ?). split; [done|]. eapply st_planned; [done..|]. by apply Hok. Qed.
Lemma goes_mappings j : goes (at_planned j either) (applyRepairMappings e A) inv (λ _, at_planned j (eq ids1)).
Proof.
  assert (∀ w, at_planned j either w → inv w) as HI by (intros w; by apply at_planned_inv). unfold applyRepairMappings.
  eapply com_rbind; [apply com_wrap, goes_attempt, HI|]. intros []. apply com_look. intros w0.
  apply (com_fact _ _ (apply_all A (identities w0) = Ok ids1)).
  { intros w [(_ & _ & _ & _ & _ & Hw) ->]. destruct A_facts as (D1 & D2 & Hf & _). destruct Hw as [->| ->].
    - by apply apply_fresh; [apply R|..].
    - apply apply_again. intros a Ha. by apply assigned_in. }
  intros Happly. eapply com_rbind; [apply goes_apply; [by intros w [Hw _]; apply HI|exact Happly]|]. intros ids'.
  eapply com_rbind; [apply com_wrap, goes_attempt; intros w [[Hw _] _]; by apply HI|]. intros []. eapply (com_effect _ _ _ _ _ (at_planned j (eq ids1))).
  - intros w [[Hw _] ->]. split; [by apply HI|]. destruct Hw as (? & ? & ? & ? & ? & _). by split_and!.
  - apply (com_ok _ _ _ _ (λ _, at_planned j (eq ids1))). intros w Hw. split; [|done]. eapply at_planned_inv; [|exact Hw]. intros ? <-. by right.
Qed.
(** The journal to carry out: a new plan, or one that was read. *)
Definition fresh (w : World) : Prop := entries w = Some es ∧ journal w = None ∧ identities w = ids0.
Definition held (planned : bool) (j : RepairJournal) (w : World) : Prop := if planned then fresh w else at_planned j either w.
Lemma held_inv p j w : held p j w → inv w.
Proof. destruct p; [intros (? & ? & ?); split; [done|by apply st_none]|]. by apply at_planned_inv. Qed.
Lemma goes_commit planned j : shape j → State j = "planned" → Assignments j = A →
  goes (held planned j) (commit_plan e planned j) inv (λ j', at_committed j').
Proof.
  intros Hj Hst HA. unfold commit_plan. assert (∀ w, at_planned j either w → inv w) as HI by (intros w; by apply at_planned_inv).
  apply (com_rbind _ _ _ _ _ (λ _, at_planned j either)).
  { destruct planned; [|by apply com_ok; intros w Hw; split; [apply HI|]]. apply goes_write; [|done]. intros w Hw. split; [by eapply (held_inv true j)|].
    destruct Hw as (? & ? & ?). split_and!; [done..|by left]. }
  intros []. apply (com_rbind _ _ _ _ _ (λ _, at_planned j either)).
  { apply com_wrap. unfold BeforeCommit. eapply com_rbind; [apply goes_attempt, HI|]. intros []. eapply (com_effect _ _ _ _ _ (at_planned j either)); [by intros w Hw; split; [apply HI|]|].
    apply (com_ok _ _ _ _ (λ _, at_planned j either)). intros w Hw. split; [by apply HI|done]. }
  intros []. rewrite HA. eapply com_rbind; [apply goes_mappings|]. intros []. apply com_now. intros t. set (j' := with_state _ _ _ _).
  assert (∀ w, at_planned j (eq ids1) w → inv w ∧ at_committed j' (set_journal j' w)) as Hnext.
  { intros w Hw. split; [by eapply at_planned_inv; [|exact Hw]; intros ? <-; right|]. destruct Hw as (? & ? & ? & ? & ? & Hw). split_and!; [done..| |]; cbn.
    - rewrite <- Hw. apply A_settled.
    - intros a Ha Hc. cbn in Ha. rewrite HA in Ha. apply A_facts in Ha. congruence. }
  eapply com_rbind; [apply com_wrap, (goes_write _ _ (at_committed j')); [exact Hnext|apply at_committed_inv]|]. intros [].
  apply (com_ok _ _ _ _ at_committed). intros w Hw. split; [by eapply at_committed_inv|done].
Qed.

Definition at_completed (j : RepairJournal) (w : World) : Prop :=
  entries w = Some es ∧ journal w = Some (Some j) ∧ shape j ∧ State j = "completed" ∧ settled (identities w) ∧ flags j (host w) ∧ whole j ∧
  ∀ s, s ∈ L → is_Some (identities w !! s).
Lemma at_completed_inv j w : at_completed j w → inv w.
Proof. intros (? & ? & ? & ? & ? & ? & ? & ?). split; [done|]. by eapply st_completed. Qed.
Definition at_verified (j : RepairJournal) (w : World) : Prop := at_committed j w ∧ whole j.
Lemma at_verified_inv j w : at_verified j w → inv w.
Proof. intros [Hw _]. by eapply at_committed_inv. Qed.

(** The rest of the repair, from [carry_out]. *)
Definition finish (j : RepairJournal) : Effects.M World (res RepairJournal) :=
  let? j := (if Finalized j then ok j else
             let? _ := wrap "finalize old site identities" (Finalize e (Assignments j)) in
             t ← now e;
             let j := with_state (State j) true j t in
             let? _ := wrap "record identity repair finalization" (writeRepairJournal e j) in
             ok j) in
  let? _ := wrap "verify startup identity migration after repair" (MigrateExisting sha e webRoot) in
  t ← now e;
  let j := with_state "completed" (Finalized j) j t in
  let? _ := wrap "record completed site identity repair" (writeRepairJournal e j) in
  ok j.
Lemma goes_finish j : goes (at_verified j) (finish j) inv at_completed.
Proof.
  unfold finish. apply (com_rbind _ _ _ _ _ at_verified).
  { destruct (Finalized j); [by apply com_ok; intros w Hw; split; [eapply at_verified_inv|]|]. eapply (com_rbind _ _ _ _ _ (λ _, at_verified j)).
    { apply com_wrap. unfold Finalize. eapply com_rbind; [apply goes_attempt, at_verified_inv|]. intros []. eapply (com_effect _ _ _ _ _ (at_verified j)).
      - intros w Hw. split; [by eapply at_verified_inv|]. destruct Hw as [(? & ? & ? & ? & ? & Hf) Ho]. split; [|done]. split_and!; [done..|]. cbn. intros a Ha Hc.
        apply finalize_keeps; [done|]. by apply Hf.
      - apply (com_ok _ _ _ _ (λ _, at_verified j)). intros w Hw. split; [by eapply at_verified_inv|done]. }
    intros []. apply com_now. intros t. set (j' := with_state _ _ _ _). eapply com_rbind; [apply com_wrap, (goes_write _ _ (at_verified j'))|].
    - intros w Hw. split; [by eapply at_verified_inv|]. destruct Hw as [(? & ? & ? & ? & ? & ?) ?]. split; [|done]. by split_and!.
    - apply at_verified_inv.
    - intros []. apply (com_ok _ _ _ _ at_verified). intros w Hw. split; [by eapply at_verified_inv|done]. }
  clear j. intros j. eapply com_rbind.
  { apply com_wrap, com_migrate with (es := es); [apply Hquiet|apply Hweb|apply at_verified_inv| |].
    - by intros w [(? & _ & _ & _ & (_ & ? & ?) & _) _].
    - intros w ids' [(? & ? & ? & ? & (S1 & _) & ?) ?] (G1 & G2 & G3). split; [|done]. split_and!; [done..| |done]. split; [by etrans|done]. }
  intros []. apply com_now. intros t. set (j' := with_state _ _ _ _). eapply com_rbind; [apply com_wrap, (goes_write _ _ (at_completed j'))|].
  - intros w [Hw Hall]. split; [by eapply at_verified_inv|]. destruct Hw as [(? & ? & ? & ? & ? & ?) ?]. by split_and!.
  - apply at_completed_inv.
  - intros []. apply (com_ok _ _ _ _ at_completed). intros w Hw. split; [by eapply at_completed_inv|done].
Qed.
Lemma goes_committed j : goes (at_committed j) (let? j := reconcile_all e 0 (length (Assignments j)) j in finish j) inv at_completed.
Proof. eapply com_rbind; [apply goes_reconcile_all; [lia|lia]|]. intros j'. apply goes_finish. Qed.

Lemma goes_carry planned j (P : World → Prop) : (∀ w, P w → (shape j ∧ State j = "planned" ∧ Assignments j = A ∧ held planned j w) ∨ (planned = false ∧ at_committed j w)) →
  goes P (carry_out sha e webRoot planned j) inv at_completed.
Proof.
  intros HP. assert (∀ w, P w → inv w) as HI. { intros w Hw. destruct (HP w Hw) as [(_ & _ & _ & Hh)|[_ Hc]]; [by eapply held_inv|by eapply at_committed_inv]. }
  unfold carry_out. apply (com_fact _ _ (State j = "planned" ∨ State j = "mappings-committed")).
  { intros w Hw. destruct (HP w Hw) as [(_ & ? & _)|[_ (_ & _ & _ & ? & _)]]; auto. }
  intros Hst. assert (negb (bool_decide (State j = "planned")) && negb (bool_decide (State j = "mappings-committed")) = false) as ->.
  { destruct Hst as [->| ->]; done. }
  eapply com_rbind.
  { apply com_wrap. unfold Preflight. eapply com_rbind; [apply goes_attempt, HI|]. intros []. apply com_look. intros w0. rewrite Hpre.
    apply (com_ok _ _ _ _ (λ _, P)). intros w [Hw _]. split; [by apply HI|done]. }
  intros []. eapply (com_rbind _ _ _ _ _ at_committed); [|apply goes_committed]. case_bool_decide as Es.
  - apply (com_fact _ _ (shape j ∧ Assignments j = A)). { intros w Hw. destruct (HP w Hw) as [(? & _ & ? & _)|[_ (_ & _ & _ & E & _)]]; [done|congruence]. }
    intros [Hj HA]. eapply com_pre; [|by apply (goes_commit planned)]. intros w Hw. destruct (HP w Hw) as [(_ & _ & _ & ?)|[_ (_ & _ & _ & E & _)]]; [done|congruence].
  - apply com_ok. intros w Hw. destruct (HP w Hw) as [(_ & E & _)|[_ Hc]]; [congruence|]. split; [by eapply at_committed_inv|done].
Qed.

Lemma fresh_inv w : fresh w → inv w.
Proof. apply (held_inv true (mkJournal 0 "" "" "" [] false 0)). Qed.
(** A new plan. *)
Definition drafted (j : RepairJournal) : Prop :=
  Version j = 1 ∧ WebRoot j = Clean webRoot ∧ State j = "planned" ∧ Assignments j = A ∧ (undisturbed → validRepairJournalID (ID j) = true).
Lemma goes_plan : goes fresh (PlanCollisionRepair sha e webRoot) inv (λ j w, fresh w ∧ drafted j).
Proof.
  unfold PlanCollisionRepair. rewrite bool_decide_false by apply Hweb. eapply com_rbind; [apply com_wrap, goes_attempt, fresh_inv|]. intros []. apply com_look. intros w0.
  apply (com_fact _ _ (fresh w0)); [by intros w [Hw ->]|]. intros (Ee & _ & Ei). rewrite Ee, Ei. pose proof (rp_plan _ _ _ R) as Hp. rewrite Hp.
  assert (∀ w, fresh w ∧ w0 = w → inv w) as HI by (by intros w [Hw _]; apply fresh_inv).
  do 2 (eapply com_rbind; [apply com_wrap, goes_attempt, HI|]; intros []). rewrite bool_decide_false by apply R.
  eapply com_rbind.
  { apply (com_read _ _ _ _ (λ id _, undisturbed → validRepairJournalID id = true)); [exact HI|]. intros s _. unfold random_id.
    eexists _, (S (calls s)). split; [done|]. split.
    - intros id Hr [_ Hu]. destruct (Hu (calls s)) as (id' & E & Hv). rewrite E in Hr. by injection Hr as <-.
    - intros [_ Hu]. destruct (Hu (calls s)) as (id' & -> & Hv). eauto. }
  intros id. apply com_now. intros t. apply com_ok. intros w [[Hw _] Hid]. split; [by apply fresh_inv|]. split; [done|]. by split_and!.
Qed.
(** Nothing is left to plan. *)
Lemma plan_settled (s : St World) : entries (world s) = Some es → settled (identities (world s)) →
  reads (PlanCollisionRepair sha e webRoot) s (λ r, ∃ err, r = Err err ∧ (undisturbed → err = ErrNoLegacyIdentityCollisions)).
Proof.
  intros Ee Hs. unfold PlanCollisionRepair. rewrite bool_decide_false by apply Hweb.
  assert (∀ what (s' : St World), reads (wrap what (Effects.attempt e)) s' (λ r, (∃ err, r = Err err ∧ ¬ undisturbed) ∨ r = Ok tt)) as Hatt.
  { intros what s'. unfold wrap. eapply reads_bind; [by exists (if fault e (calls s') then Err io_err else Ok tt), (S (calls s')); split; [unfold Effects.attempt, bind, call; by cbn|apply eq_refl]|].
    intros ? c <-. apply reads_ret. destruct (fault e (calls s')) eqn:E; [left|by right]. eexists. split; [done|]. intros [Hq _]. by rewrite Hq in E. }
  unfold rbind at 1. eapply reads_bind; [apply Hatt|]. intros ? c [(err & -> & Hn)| ->]; [apply reads_ret; by exists err|].
  eapply reads_bind; [apply reads_look|]. intros ? c1 <-. cbn [world at_call]. rewrite Ee.
  unfold rbind at 1. eapply reads_bind; [apply Hatt|]. intros ? c2 [(err & -> & Hn)| ->]; [apply reads_ret; by exists err|].
  unfold rbind at 1. eapply reads_bind; [apply Hatt|]. intros ? c3 [(err & -> & Hn)| ->]; [apply reads_ret; by exists err|].
  fold L. rewrite settled_plan by done. apply reads_ret. by eexists.
Qed.

Definition found_ok (o : option RepairJournal) (w : World) : Prop :=
  match o with None => fresh w | Some j => at_planned j either w ∨ at_committed j w ∨ at_completed j w end.
Lemma found_inv o w : found_ok o w → inv w.
Proof. destruct o as [j|]; [|apply fresh_inv]. intros [Hw|[Hw|Hw]]; [by eapply at_planned_inv|by eapply at_committed_inv|by eapply at_completed_inv]. Qed.
Lemma goes_read : goes inv (readRepairJournal sha e) inv found_ok.
Proof.
  unfold readRepairJournal. eapply com_rbind; [by apply goes_attempt|]. intros []. apply com_look. intros w0. apply (com_fact _ _ (inv w0)); [by intros w [Hw ->]|].
  intros [Ee [Ej Ei|j Ej Hj Hst HA Hi|j Ej Hj Hst Hs Hf|j Ej Hj Hst Hs Hf Hw Hall]]; rewrite Ej; [|destruct (shape_reads j Hj) as [-> ->]; cbn [negb]..]; apply com_ok; intros w [Hinv <-].
  - done.
  - split; [done|]. left. by split_and!.
  - split; [done|]. right. left. by split_and!.
  - split; [done|]. do 2 right. by split_and!.
Qed.

Lemma goes_repair : goes inv (ExecuteCollisionRepair sha e webRoot) inv at_completed.
Proof.
  unfold ExecuteCollisionRepair. do 2 (eapply com_rbind; [by apply com_wrap, goes_attempt|]; intros []). eapply com_rbind; [apply goes_read|]. intros found.
  apply (com_rbind _ _ _ _ _ (λ pj w, if pj.1 : bool then fresh w ∧ drafted pj.2 else found_ok (Some pj.2) w)).
  { destruct found as [j|]; [by apply com_ok; intros w Hw; split; [eapply found_inv|]|]. eapply com_rbind; [apply goes_plan|]. intros j.
    apply com_ok. intros w [Hw Hd]. split; [by apply fresh_inv|done]. }
  intros [planned j]. cbn [fst snd]. set (P := λ w, if planned then _ else _).
  assert (∀ w, P w → inv w) as HI by (intros w; unfold P; destruct planned; [by intros [Hw _]; apply fresh_inv|apply found_inv]).
  apply (com_fact _ _ (Version j = 1 ∧ WebRoot j = Clean webRoot ∧ Assignments j ≠ [] ∧ (undisturbed → validRepairJournalID (ID j) = true))).
  { intros w Hw. assert (shape j ∨ drafted j) as Hs. { unfold P in Hw. destruct planned; [by right; apply Hw|left]. by destruct Hw as [Hw|[Hw|Hw]]; apply Hw. }
    destruct Hs as [(? & ? & ? & HA)|(? & ? & _ & HA & ?)]; split_and!; try done; intros E; rewrite E in HA; by apply (rp_some _ _ _ R). }
  intros (Ev & Ew & Ea & Hid). rewrite Ev, bool_decide_true, bool_decide_false by done. cbn [Z.eqb Pos.eqb negb orb]. destruct (validRepairJournalID (ID j)) eqn:Eid; cbn [negb].
  2:{ apply com_err; [exact HI|]. intros HC. pose proof (Hid HC). congruence. }
  rewrite Ew. rewrite (proj2 Hweb). cbn [negb]. case_bool_decide as Es.
  - assert (∀ w, P w → at_completed j w) as Hdone.
    { intros w Hw. unfold P in Hw. destruct planned; [destruct Hw as [_ (_ & _ & E & _)]; congruence|]. destruct Hw as [(_ & _ & _ & E & _)|[(_ & _ & _ & E & _)|Hw]]; [congruence..|done]. }
    intros s Hs. apply Hdone in Hs as Hc. eapply holds_read; [apply plan_settled; apply Hc|]. intros ? c (err & -> & Herr). destruct (errors_is err ErrNoLegacyIdentityCollisions) eqn:Ee.
    + apply holds_ret. split; [by apply HI|]. split; [by intros ? [= <-]|]. eauto.
    + apply holds_ret. split; [by apply HI|]. split; [done|]. intros HC. by rewrite (Herr HC) in Ee.
  - apply goes_carry. intros w Hw. unfold P in Hw. destruct planned.
    + left. destruct Hw as [Hw (D1 & D2 & D3 & D4 & _)]. split_and!; [|done..]. split_and!; [done..|]. rewrite D4. apply pending_A.
    + destruct Hw as [Hw|[Hw|(_ & _ & _ & E & _)]]; [left|by right|done]. pose proof Hw as (_ & _ & ? & ? & ? & _). by split_and!.
Qed.
End repair.
End pure.

(** ** Interrupted repairs *)

(** Runs of the repair, one after the other, each in its environment and killed after some of
    its effects. *)
Fixpoint repairs {H} `{!RepairHost H} (sha : string → string) (webRoot : string) (runs : list (Env * option nat)) (w : World H) : World H :=
  match runs with
  | [] => w
  | (e, left) :: rest => repairs sha webRoot rest (world (ExecuteCollisionRepair sha e webRoot (mkSt w 0 left)).2)
  end.
Lemma repairs_inv {H} `{HL : RepairHostLaws H} sha webRoot es ids A runs (w : World H) : digest_ok sha → (∀ l (h : H), preflight l h = true) →
  webRoot ≠ "" ∧ IsAbs (Clean webRoot) = true → repairable sha es ids A → inv sha webRoot es ids A w → inv sha webRoot es ids A (repairs sha webRoot runs w).
Proof.
  intros Hsha Hpre Hweb R. revert w. induction runs as [|[e l] runs IH]; intros w Hw; [done|]. cbn. apply IH.
  by apply (goes_repair sha Hsha Hpre webRoot Hweb es ids A R e (mkSt w 0 l)).
Qed.

(** C24: An interrupted repair completes. Whatever failed in earlier runs, and wherever they were
    killed, the next undisturbed run completes: every site of the plan has its new account in
    the table and on the host, every live site has an account, no two sites share one, the
    sites outside the plan keep theirs, and the next start of the panel is let through. The
    names of the live sites start with a letter or a digit. *)
Theorem interrupted_repair_completes {H} `{HL : RepairHostLaws H} sha webRoot es A runs e (w : World H) :
  digest_ok sha → (∀ l (h : H), preflight l h = true) → webRoot ≠ "" ∧ IsAbs (Clean webRoot) = true →
  repairable sha es (identities w) A → entries w = Some es → journal w = None → undisturbed e →
  ∃ j s', ExecuteCollisionRepair sha e webRoot (mkSt (repairs sha webRoot runs w) 0 None) = (Some (Ok j), s') ∧ State j = "completed" ∧
    (∀ a, a ∈ A → identities (world s') !! Site a = Some (Username a) ∧ verify a (host (world s')) = true) ∧
    (∀ s, s ∈ liveSites es → is_Some (identities (world s') !! s)) ∧
    (∀ s1 s2 u, identities (world s') !! s1 = Some u → identities (world s') !! s2 = Some u → s1 = s2) ∧
    (∀ s u, s ∉ Site <$> A → identities w !! s = Some u → identities (world s') !! s = Some u) ∧
    ∀ e' s, quiet e' → world s = world s' → left s = None → (MigrateExisting sha e' webRoot s).1 = Some (Ok tt).
Proof.
  intros Hsha Hpre Hweb R Ee Ej He. set (ids := identities w) in *.
  assert (inv sha webRoot es ids A (repairs sha webRoot runs w)) as Hinv.
  { apply repairs_inv; [done..|]. split; [done|]. by apply st_none. }
  set (s0 := mkSt (repairs sha webRoot runs w) 0 None). pose proof (goes_repair sha Hsha Hpre webRoot Hweb es ids A R e s0 Hinv) as Hrun. unfold holds in Hrun.
  destruct (ExecuteCollisionRepair sha e webRoot s0) as [o s'].
  cbn [fst snd] in Hrun. destruct Hrun as (_ & Hq & Hc). destruct (Hc He eq_refl) as (_ & j & ->).
  destruct (Hq j eq_refl) as (Ee' & _ & Hj & Hst & Hs & Hf & Hw & Hall). exists j, s'. pose proof Hj as (_ & _ & _ & HA).
  destruct (A_facts sha Hsha es ids A R) as (D1 & _). pose proof Hs as (S1 & [S2 S3] & S4). split_and!; [done..| |done|done| |].
  - intros a Ha. split; [eapply lookup_weaken; [by apply assigned_in|done]|]. rewrite <- HA in Ha. apply list_elem_of_fmap in Ha as (b & -> & Hb).
    rewrite <- (verify_completed (pending b)). pose proof (Hw b Hb) as Eb. replace (completed (pending b)) with b; [by apply Hf|]. destruct b. cbn in *. by subst.
  - intros s u Hn Hu. eapply lookup_weaken; [|exact S1]. by rewrite assigned_other.
  - intros e' s Hq' Ews Hl.
    assert (holds (MigrateExisting sha e' webRoot) s (λ o _, ∃ u, o = Some (Ok u))) as Hm.
    { eapply holds_mono; [|apply (com_migrate sha Hsha e' True (λ _, Hq') webRoot es (λ _, True)
        (λ w, entries w = Some es ∧ table_ok (identities w) ∧ gate_clear sha (identities w) (liveSites es)) (proj1 Hweb))]; cbn beta.
      - intros o s2 (_ & _ & Hok). by apply Hok.
      - done.
      - done.
      - by intros w2 ids' (? & _) (_ & ? & ?).
      - rewrite Ews. by split_and!. }
    destruct Hm as [[] Hm]. exact Hm.
Qed.

(** ** Examples *)

Module Demo.
(** A host that records the owner of each site. *)
#[export] Instance toy_host : RepairHost (gmap string string) := {|
  preflight _ _ := true; before_commit _ h := h; partly a h := <[Site a := ""]> h; reconcile a h := <[Site a := Username a]> h;
  verify a h := bool_decide (h !! Site a = Some (Username a)); finalize _ h := h |}.
#[export] Instance toy_laws : RepairHostLaws (gmap string string).
Proof.
  split; cbn; [done| | | |done|done].
  - intros a h. rewrite lookup_insert_eq. by apply bool_decide_true.
  - intros a b h Hn. by rewrite lookup_insert_ne.
  - intros a b h Hn. by rewrite lookup_insert_ne.
Qed.
(** A digest whose first bytes say nothing and whose next are the end of the text. *)
Definition nibble (c : ascii) : ascii := let n := code c mod 16 in chr (if n <? 10 then 48 + n else 87 + n).
Definition toy_sha (x : string) : string := of_bytes (take 64 (replicate 8 "0"%char ++ (nibble <$> reverse (bytes_of x)) ++ replicate 64 "0"%char)).
Lemma toy_digest : digest_ok toy_sha.
Proof.
  intros x. unfold toy_sha. split.
  - unfold len. rewrite <- length_bytes_of, bytes_of_of, length_take, !length_app, !length_replicate. lia.
  - unfold all_bytes. rewrite bytes_of_of. apply forallb_forall. intros c Hc%list_elem_of_In. apply elem_of_take in Hc as (k & Hc%list_elem_of_lookup_2 & _).
    rewrite !elem_of_app in Hc. destruct Hc as [Hc|[Hc|Hc]]; [|apply list_elem_of_fmap in Hc as (d & -> & _); by apply (by_ascii (λ _, true) (λ d, lower_hex (nibble d))); [vm_compute|]|].
    all: apply elem_of_replicate in Hc as [-> _]; done.
Qed.

Definition one : string := "shop-of-alice-and-bob1".
Definition two : string := "shop-of-alice-and-bob2".
Definition live (sites : list string) : gmap string bool := list_to_map ((λ s, (s, true)) <$> sites).
Definition e0 : Env := calm 100 "0123456789abcdef0123456789abcdef".
(** Two sites with one old account, the first of which is recorded. *)
Definition w0 : World (gmap string string) := mkWorld {[ one := UnixUser toy_sha one ]} ∅ (Some (live [one; two; "blog"])) None ∅ ∅.
Definition the_plan : list RepairAssignment :=
  [mkAssignment one (UnixUser toy_sha one) (UnixUser toy_sha one) (allocatedUser toy_sha one 0) false;
   mkAssignment two "" (UnixUser toy_sha two) (allocatedUser toy_sha two 0) false].

Lemma interrupted_repair_completes_witness :
  ∃ j s', ExecuteCollisionRepair toy_sha e0 "/srv" (mkSt (repairs toy_sha "/srv" [(e0, Some 2%nat); (e0, Some 4%nat); (e0, Some 3%nat)] w0) 0 None) = (Some (Ok j), s') ∧ State j = "completed" ∧
    (∀ a, a ∈ the_plan → identities (world s') !! Site a = Some (Username a) ∧ verify a (host (world s')) = true) ∧
    (∀ s, s ∈ liveSites (live [one; two; "blog"]) → is_Some (identities (world s') !! s)) ∧
    (∀ s1 s2 u, identities (world s') !! s1 = Some u → identities (world s') !! s2 = Some u → s1 = s2) ∧
    (∀ s u, s ∉ Site <$> the_plan → identities w0 !! s = Some u → identities (world s') !! s = Some u) ∧
    ∀ e' s, quiet e' → world s = world s' → left s = None → (MigrateExisting toy_sha e' "/srv" s).1 = Some (Ok tt).
Proof.
  apply interrupted_repair_completes.
  - exact toy_digest.
  - done.
  - by vm_compute.
  - split.
    + split; [|by vm_compute]. intros s1 s2 u H1 H2. change (({[one := UnixUser toy_sha one]} : gmap string string) !! s1 = Some u) in H1.
      change (({[one := UnixUser toy_sha one]} : gmap string string) !! s2 = Some u) in H2. apply lookup_singleton_Some in H1 as [<- _]. by apply lookup_singleton_Some in H2 as [<- _].
    + intros s u H1. change (({[one := UnixUser toy_sha one]} : gmap string string) !! s = Some u) in H1. apply lookup_singleton_Some in H1 as [_ <-]. by vm_compute.
    + assert (Forall (λ s, plain_start s = true) (liveSites (live [one; two; "blog"]))) as Hf by (apply (bool_decide_unpack _); by vm_compute).
      rewrite Forall_forall in Hf. exact Hf.
    + by vm_compute.
    + done.
  - done.
  - done.
  - split; [by intros ?|]. intros n. exists "0123456789abcdef0123456789abcdef". by vm_compute.
Defined.

Definition message {A} (r : option (res A)) : option string := r ≫= λ x, match x with Err (EMsg m) => Some m | _ => None end.
(** Sites whose names start with an underscore, which all the validators of names accept: the
    journal of their repair is refused when it is read, so a repair that is killed once its
    plan is written never continues. *)
Definition u_one : string := "_shop-of-alice-and-bob1".
Definition u_two : string := "_shop-of-alice-and-bob2".
Definition w_under : World (gmap string string) := mkWorld ∅ ∅ (Some (live [u_one; u_two])) None ∅ ∅.
Example underscore_repair_stuck :
  let run l w := ExecuteCollisionRepair toy_sha e0 "/srv" (mkSt w 0 l) in
  message (run None (world (run (Some 1%nat) w_under).2)).1 = Some "repair journal contains an invalid site assignment".
Proof. by vm_compute. Qed.
(** The account that the start of the panel records for such a site is refused afterwards. *)
Example underscore_identity_refused :
  let w := mkWorld ∅ ∅ (Some (live [u_one])) None ∅ (∅ : gmap string string) in
  let s := (MigrateExisting toy_sha e0 "/srv" (mkSt w 0 None)).2 in
  is_Some (identities (world s) !! u_one) ∧ message (ResolveOrAllocate toy_sha e0 u_one s).1 = Some "site has invalid persisted Unix account".
Proof. vm_compute. split; [by eexists|done]. Qed.
(** The gate: two sites with one old account stop the start, and nothing is recorded. *)
Example gate_refuses :
  let r := MigrateExisting toy_sha e0 "/srv" (mkSt w0 0 None) in
  message r.1 = Some "legacy site identity collisions block startup; offline recovery is required" ∧ identities (world r.2) = identities w0.
Proof. by vm_compute. Qed.

(** The web group: the last assignment that counts must agree with the others. *)
Definition env_file (values : list string) : EnvFile :=
  mkEnvFile true true true (join (of_bytes [chr 10]) ("# installed" :: ((λ v, group_key +:+ v +:+ of_bytes [quote]) <$> values))).
Example web_groups :
  (webGroupFromEnv "/etc/stepanel.env" (λ g, bool_decide (g = "www-data")) ∘ Some <$> [env_file ["www-data"; "www-data"]; env_file ["www-data"; "nginx"]; env_file ["nginx"]; env_file []]) =
  [Ok "www-data"; Err (EMsg "web group configuration contains conflicting values"); Err (EMsg "configured web group does not exist");
   Err (EMsg "web group configuration does not define STEPANEL_WEB_GROUP")].
Proof. by vm_compute. Qed.
End Demo.
End SiteIdentityProps.
