(* ===== verification/SafeHTTP.v ===== *)
(** * SafeHTTP: the outbound request policy

    Models [src/internal/safehttp/safehttp.go]: which addresses the panel may
    connect to on behalf of a customer (webhooks, archive imports). [Addr] and
    [Prefix] follow Go's [net/netip]; the text parsers of [net/url] and
    [net/netip] are the class [NetText]. The theorems show that no address that is
    private, local or carries such an IPv4 address inside an IPv6 one is ever
    dialled, whatever name resolution answers. *)
From S2P Require Import Prelude GoText.

Module SafeHTTP.
Import GoText.

(** ** Addresses ([net/netip]) *)

(** An address is invalid, 32 bits, or 128 bits with a zone. *)
Inductive Addr := NoAddr | V4 (n : Z) | V6 (n : Z) (zone : string).

#[export] Instance Addr_eq_dec : EqDecision Addr.
Proof. solve_decision. Defined.

(** The values a parsed address holds. *)
Definition wf (a : Addr) : bool :=
  match a with
  | NoAddr => true
  | V4 n => (0 <=? n) && (n <? 2 ^ 32)
  | V6 n _ => (0 <=? n) && (n <? 2 ^ 128)
  end.

(** An IPv4-mapped address [::ffff:a.b.c.d] becomes [a.b.c.d]. *)
Definition Unmap (a : Addr) : Addr :=
  match a with
  | V6 n _ => if Z.shiftr n 32 =? 65535 then V4 (n mod 2 ^ 32) else a
  | _ => a
  end.
Definition IsValid (a : Addr) : bool := match a with NoAddr => false | _ => true end.
Definition Zone (a : Addr) : string := match a with V6 _ z => z | _ => "" end.
Definition Is6 (a : Addr) : bool := match a with V6 _ _ => true | _ => false end.

(** A prefix: an address of its family and the number of leading bits. *)
Inductive Prefix := P4 (n bits : Z) | P6 (n bits : Z).

#[export] Instance Prefix_eq_dec : EqDecision Prefix.
Proof. solve_decision. Defined.

(** [Prefix.Contains]; an address with a zone is in no prefix. *)
Definition Contains (p : Prefix) (a : Addr) : bool :=
  match p, a with
  | P4 n b, V4 m => Z.shiftr m (32 - b) =? Z.shiftr n (32 - b)
  | P6 n b, V6 m z => bool_decide (z = "") && (Z.shiftr m (128 - b) =? Z.shiftr n (128 - b))
  | _, _ => false
  end.

(** Four bytes, and eight groups of 16 bits. *)
Definition ip4 (a b c d : Z) : Z := ((a * 256 + b) * 256 + c) * 256 + d.
Definition ip6 (groups : list Z) : Z := foldl (λ acc g, acc * 65536 + g) 0 groups.

(** ** The policy *)

Definition nonPublicPrefixes : list Prefix := [
  P4 (ip4 0 0 0 0) 8; P4 (ip4 10 0 0 0) 8; P4 (ip4 100 64 0 0) 10; P4 (ip4 127 0 0 0) 8;
  P4 (ip4 169 254 0 0) 16; P4 (ip4 172 16 0 0) 12; P4 (ip4 192 0 0 0) 24; P4 (ip4 192 0 2 0) 24;
  P4 (ip4 192 88 99 0) 24; P4 (ip4 192 168 0 0) 16; P4 (ip4 198 18 0 0) 15; P4 (ip4 198 51 100 0) 24;
  P4 (ip4 203 0 113 0) 24; P4 (ip4 224 0 0 0) 4; P4 (ip4 240 0 0 0) 4;
  P6 (ip6 [0; 0; 0; 0; 0; 0; 0; 0]) 128;
  P6 (ip6 [0; 0; 0; 0; 0; 0; 0; 1]) 128;
  P6 (ip6 [0x64; 0xff9b; 0; 0; 0; 0; 0; 0]) 96;
  P6 (ip6 [0x64; 0xff9b; 1; 0; 0; 0; 0; 0]) 48;
  P6 (ip6 [0x100; 0; 0; 0; 0; 0; 0; 0]) 64;
  P6 (ip6 [0x2001; 0; 0; 0; 0; 0; 0; 0]) 23;
  P6 (ip6 [0x2001; 0xdb8; 0; 0; 0; 0; 0; 0]) 32;
  P6 (ip6 [0x2002; 0; 0; 0; 0; 0; 0; 0]) 16;
  P6 (ip6 [0x3fff; 0; 0; 0; 0; 0; 0; 0]) 20;
  P6 (ip6 [0xfc00; 0; 0; 0; 0; 0; 0; 0]) 7;
  P6 (ip6 [0xfe80; 0; 0; 0; 0; 0; 0; 0]) 10;
  P6 (ip6 [0xfec0; 0; 0; 0; 0; 0; 0; 0]) 10;
  P6 (ip6 [0xff00; 0; 0; 0; 0; 0; 0; 0]) 8 ].

Definition globalUnicastIPv6 : Prefix := P6 (ip6 [0x2000; 0; 0; 0; 0; 0; 0; 0]) 3.

Definition IsPublic (addr : Addr) : bool :=
  let addr := Unmap addr in
  if negb (IsValid addr) || negb (bool_decide (Zone addr = "")) then false else
  if Is6 addr && negb (Contains globalUnicastIPv6 addr) then false else
  negb (existsb (λ p, Contains p addr) nonPublicPrefixes).

Record Policy := mkPolicy { AllowPrefixes : list Prefix }.

Definition Allows (p : Policy) (addr : Addr) : bool :=
  let addr := Unmap addr in
  IsPublic addr || existsb (λ q, Contains q addr) (AllowPrefixes p).

(** ** URLs and connections *)

Record URL := mkURL { u_Scheme : string; u_Host : string; u_Hostname : string; u_Port : string;
  u_User : bool; u_Path : string; u_RawQuery : string; u_Fragment : string; u_Opaque : string }.

(** The text parsers of [net/url], [net/mail], [encoding/json], [net] and
    [net/netip]; [None] is an error. *)
Class NetText := {
  url_Parse : string → option URL;
  url_ParseRequestURI : string → option URL;
  mail_ParseAddress : string → option string;
  json_strings : string → option (list string);
  ParseAddr : string → option Addr;
  ParseAddrPort : string → option Addr;
  net_ParseIP : string → option Addr
}.

Definition ErrDisallowedDestination : error := ESentinel "destination is not a public internet address".

(** [ValidateURL]. Lower-casing the host acts on ASCII letters: no other letter
    becomes one of [localhost] or of a literal address. *)
Definition ValidateURL `{NetText} (p : Policy) (raw : string) : option error :=
  if 2048 <? len raw then Some (EMsg "URL is too long") else
  match url_Parse raw with
  | None => Some (EWrap "invalid URL" io_err)
  | Some u =>
      if negb (bool_decide (u_Scheme u = "https")) then Some (EMsg "URL must use https") else
      if u_User u then Some (EMsg "URL must not contain credentials") else
      if negb (bool_decide (u_Fragment u = "")) || negb (bool_decide (u_Opaque u = ""))
      then Some (EMsg "URL must not contain a fragment") else
      let host := TrimSuffix (lower_ascii (u_Hostname u)) "." in
      if bool_decide (host = "") then Some (EMsg "URL must include a host") else
      if bool_decide (host = "localhost") || has_suffix host ".localhost"
      then Some (EWrap host ErrDisallowedDestination) else
      match ParseAddr host with
      | Some addr => if negb (Allows p addr) then Some (EWrap host ErrDisallowedDestination) else None
      | None => None
      end
  end.

(** [control], the dialer's hook on the address a socket is about to connect to. *)
Definition control `{NetText} (p : Policy) (address : string) : option error :=
  match ParseAddrPort address with
  | None => Some (EWrap "unparseable address" ErrDisallowedDestination)
  | Some a => if negb (Allows p a) then Some (EWrap "address" ErrDisallowedDestination) else None
  end.

(** [CheckRedirect]: [via] requests were made before this one. *)
Definition CheckRedirect `{NetText} (p : Policy) (maxRedirects : Z) (url : string) (via : Z) : option error :=
  if maxRedirects <? via then Some (EMsg "redirect limit exceeded") else
  match ValidateURL p url with Some e => Some (EWrap "redirect rejected" e) | None => None end.

(** A request of a client bound to the policy: the URL, then the hops the server
    asks for, each with the addresses the resolver returns for it, in the order
    the dialer tries them. The result is the list of addresses it connected to and
    the error that ended it, if any. The first URL is checked by the caller; every
    connection goes through [control], and the first allowed address of a hop
    answers. *)
Fixpoint dial `{NetText} (p : Policy) (addresses : list string) : option string :=
  match addresses with
  | [] => None
  | a :: rest => match control p a with None => Some a | Some _ => dial p rest end
  end.

Fixpoint follow `{NetText} (p : Policy) (maxRedirects via : Z) (hops : list (string * list string))
    : list string * option error :=
  match hops with
  | [] => ([], None)
  | (url, addresses) :: rest =>
      match (if via =? 0 then None else CheckRedirect p maxRedirects url via) with
      | Some e => ([], Some e)
      | None =>
          match dial p addresses with
          | None => ([], Some ErrDisallowedDestination)
          | Some a => let '(cs, e) := follow p maxRedirects (via + 1) rest in (a :: cs, e)
          end
      end
  end.

(** ** Properties of addresses *)

Lemma Contains_spec4 n b m : 0 ≤ b ≤ 32 → 0 ≤ m →
  Contains (P4 n b) (V4 m) = true ↔ m / 2 ^ (32 - b) = n / 2 ^ (32 - b).
Proof. intros Hb Hm. cbn. rewrite Z.eqb_eq, !Z.shiftr_div_pow2 by lia. done. Qed.

Lemma IsPublic_spec a :
  IsPublic a = true ↔
  IsValid (Unmap a) = true ∧ Zone (Unmap a) = "" ∧
  (Is6 (Unmap a) = true → Contains globalUnicastIPv6 (Unmap a) = true) ∧
  (∀ p, p ∈ nonPublicPrefixes → Contains p (Unmap a) = false).
Proof.
  unfold IsPublic. set (b := Unmap a). clearbody b. destruct (IsValid b) eqn:E1; cbn [negb orb].
  2: { split; [done | by intros (? & _)]. }
  case_bool_decide as E2; cbn [negb]; [|split; [done | by intros (_ & ? & _)]].
  destruct (Is6 b && negb (Contains globalUnicastIPv6 b)) eqn:E3.
  - apply andb_true_iff in E3 as [E3 E4]. apply negb_true_iff in E4. split; [done|].
    intros (_ & _ & H & _). rewrite H in E4; done.
  - rewrite negb_true_iff, existsb_false_elem. split; [|by intros (_ & _ & _ & ?)].
    intros H. repeat split; try done. intros E. rewrite E in E3. by apply negb_false_iff in E3.
Qed.

Lemma Unmap_idem a : Unmap (Unmap a) = Unmap a.
Proof. destruct a as [|n|n z]; try done. cbn. case_if; [done|]. cbn. by rewrite Heqb. Qed.

Lemma IsPublic_Unmap a : IsPublic (Unmap a) = IsPublic a.
Proof. unfold IsPublic. by rewrite Unmap_idem. Qed.

(** The IPv4 addresses of the host, its networks and reserved ranges, by their
    leading bytes. *)
Definition private4 (n : Z) : Prop :=
  n / 2 ^ 24 ∈ [0; 10; 127] ∨ 224 ≤ n / 2 ^ 24 < 256 ∨
  n / 2 ^ 16 ∈ [169 * 256 + 254; 192 * 256 + 168] ∨
  n / 2 ^ 20 = 172 * 16 + 1 ∨ n / 2 ^ 22 = 100 * 4 + 1.

(** What it means for an address to lead to a public host: an IPv4 address, bare
    or mapped, is not private; any other IPv6 address has no zone, is global
    unicast, and is no 6to4 or Teredo address (which carry an IPv4 one). *)
Definition public_host (a : Addr) : Prop :=
  match Unmap a with
  | NoAddr => False
  | V4 n => ¬ private4 n
  | V6 m z => z = "" ∧ m / 2 ^ 125 = 1 ∧ m / 2 ^ 112 ≠ 0x2002 ∧ m / 2 ^ 96 ≠ 0x20010000
  end.

Lemma not_in_prefix4 n b m : P4 n b ∈ nonPublicPrefixes → 0 ≤ b ≤ 32 →
  (∀ p, p ∈ nonPublicPrefixes → Contains p (V4 m) = false) → m / 2 ^ (32 - b) ≠ n / 2 ^ (32 - b).
Proof.
  intros Hin Hb H E. specialize (H _ Hin). cbn in H. apply Z.eqb_neq in H. apply H.
  by rewrite !Z.shiftr_div_pow2 by lia.
Qed.

Lemma not_in_prefix6 n b m z : P6 n b ∈ nonPublicPrefixes → 0 ≤ b ≤ 128 → z = "" →
  (∀ p, p ∈ nonPublicPrefixes → Contains p (V6 m z) = false) → m / 2 ^ (128 - b) ≠ n / 2 ^ (128 - b).
Proof.
  intros Hin Hb -> H E. specialize (H _ Hin). cbn in H. apply Z.eqb_neq in H. apply H.
  by rewrite !Z.shiftr_div_pow2 by lia.
Qed.

Lemma div_div_pow m a b k : 0 ≤ a → 0 ≤ b → m / 2 ^ a = k → m / 2 ^ (a + b) = k / 2 ^ b.
Proof. intros Ha Hb <-. rewrite Z.pow_add_r by done. by rewrite Z.div_div by lia. Qed.

Local Ltac listed := refine (bool_decide_eq_true_1 _ _); vm_compute; reflexivity.

(** The prefix list excludes every private IPv4 address. *)
Lemma not_private4 m :
  (∀ p, p ∈ nonPublicPrefixes → Contains p (V4 m) = false) → ¬ private4 m.
Proof.
  intros H. pose proof (λ n b H1 H2, not_in_prefix4 n b m H1 H2 H) as N.
  unfold private4. rewrite !elem_of_cons, !elem_of_nil.
  intros [[E|[E|[E|[]]]]|[E|[[E|[E|[]]]|[E|E]]]].
  - by apply (N (ip4 0 0 0 0) 8); [listed | lia |].
  - by apply (N (ip4 10 0 0 0) 8); [listed | lia |].
  - by apply (N (ip4 127 0 0 0) 8); [listed | lia |].
  - assert (m / 2 ^ 28 = 14 ∨ m / 2 ^ 28 = 15) as [E'|E'].
    { change (2 ^ 28) with (2 ^ 24 * 2 ^ 4). rewrite <- Z.div_div by lia.
      change (2 ^ 4) with 16. Z.to_euclidean_division_equations. lia. }
    + by apply (N (ip4 224 0 0 0) 4); [listed | lia |].
    + by apply (N (ip4 240 0 0 0) 4); [listed | lia |].
  - by apply (N (ip4 169 254 0 0) 16); [listed | lia |].
  - by apply (N (ip4 192 168 0 0) 16); [listed | lia |].
  - by apply (N (ip4 172 16 0 0) 12); [listed | lia |].
  - by apply (N (ip4 100 64 0 0) 10); [listed | lia |].
Qed.

Lemma IsPublic_host a : IsPublic a = true → public_host a.
Proof.
  rewrite IsPublic_spec. unfold public_host. destruct (Unmap a) as [|n|m z]; [by intros (? & _)| |].
  - intros (_ & _ & _ & H). by apply not_private4.
  - cbn [Zone Is6]. intros (_ & -> & Hg & H). specialize (Hg eq_refl). cbn [Contains globalUnicastIPv6] in Hg.
    apply andb_true_iff in Hg as [_ Hg]. apply Z.eqb_eq in Hg. rewrite !Z.shiftr_div_pow2 in Hg by lia.
    pose proof (λ n b H1 H2, not_in_prefix6 n b m "" H1 H2 eq_refl H) as N.
    repeat split; [exact Hg| |]; intros E.
    + by apply (N (ip6 [0x2002; 0; 0; 0; 0; 0; 0; 0]) 16); [listed | lia |].
    + apply (N (ip6 [0x2001; 0; 0; 0; 0; 0; 0; 0]) 23); [listed | lia |].
      change (128 - 23) with (96 + 9). by rewrite (div_div_pow m 96 9 0x20010000).
Qed.

(** ** Executions *)

Lemma dial_allowed `{NetText} p addresses a :
  dial p addresses = Some a → a ∈ addresses ∧ ∃ addr, ParseAddrPort a = Some addr ∧ Allows p addr = true.
Proof.
  induction addresses as [|b l IH]; cbn; [done|]. destruct (control p b) as [e|] eqn:E.
  - intros H1. destruct (IH H1) as [? ?]. split; [set_solver | done].
  - intros [= ->]. split; [set_solver|]. unfold control in E.
    destruct (ParseAddrPort a) as [addr|]; [|done]. exists addr. split; [done|]. by destruct (Allows p addr).
Qed.

Lemma follow_bounds `{NetText} maxRedirects hops via :
  0 ≤ maxRedirects → 0 ≤ via ≤ maxRedirects + 1 →
  let cs := (follow (mkPolicy []) maxRedirects via hops).1 in
  Forall (λ c, ∃ a, ParseAddrPort c = Some a ∧ public_host a) cs ∧
  Z.of_nat (length cs) ≤ maxRedirects + 1 - via.
Proof.
  intros Hmax. revert via.
  induction hops as [|[url addresses] rest IH]; intros via Hvia; cbn zeta; [cbn [follow fst length]; split; [done|lia]|].
  cbn [follow].
  destruct (if via =? 0 then None else CheckRedirect (mkPolicy []) maxRedirects url via) as [e|] eqn:E;
    [cbn [follow fst length]; split; [done|lia]|].
  assert (via ≤ maxRedirects) as Hle.
  { destruct (via =? 0) eqn:E0; [apply Z.eqb_eq in E0; lia|]. unfold CheckRedirect in E.
    destruct (maxRedirects <? via) eqn:E1; [done|]. apply Z.ltb_ge in E1. lia. }
  destruct (dial _ addresses) as [a|] eqn:Ed; [|cbn [follow fst length]; split; [done|lia]].
  specialize (IH (via + 1) ltac:(lia)). cbn zeta in IH.
  destruct (follow _ _ (via + 1) rest) as [cs err]. cbn [fst length] in IH |- *. destruct IH as [IH1 IH2].
  split; [|lia]. constructor; [|done]. apply dial_allowed in Ed as (_ & addr & Hp & Ha).
  exists addr. split; [done|]. apply IsPublic_host. unfold Allows in Ha. cbn [AllowPrefixes existsb] in Ha.
  by rewrite orb_false_r, IsPublic_Unmap in Ha.
Qed.

(** Whatever names resolve to and wherever a server redirects, a client of the
    default policy connects only to addresses of public hosts, and after at most
    [maxRedirects] redirects. *)
Theorem follow_public `{NetText} maxRedirects hops :
  0 ≤ maxRedirects →
  let cs := (follow (mkPolicy []) maxRedirects 0 hops).1 in
  Forall (λ c, ∃ a, ParseAddrPort c = Some a ∧ public_host a) cs ∧
  Z.of_nat (length cs) ≤ maxRedirects + 1.
Proof.
  intros Hmax. cbn zeta. destruct (follow_bounds maxRedirects hops 0) as [H1 H2]; [lia..|].
  split; [done | lia].
Qed.

(** A toy parser of addresses: a few literals. *)
Definition toy_net : NetText := {|
  url_Parse s := Some (mkURL "https" s s "" false "" "" "" "");
  url_ParseRequestURI s := Some (mkURL "https" s s "" false "" "" "" "");
  mail_ParseAddress := Some;
  json_strings _ := None;
  ParseAddr _ := None;
  ParseAddrPort s :=
    if bool_decide (s = "93.184.216.34:443") then Some (V4 (ip4 93 184 216 34)) else
    if bool_decide (s = "[::ffff:127.0.0.1]:443") then Some (V6 (65535 * 2 ^ 32 + ip4 127 0 0 1) "") else None;
  net_ParseIP _ := None |}.

(** A name that resolves to a mapped loopback address and a public one: only the
    second is dialled, also after a redirect. *)
Lemma follow_public_witness :
  let hops := [("example.org", ["[::ffff:127.0.0.1]:443"; "93.184.216.34:443"]); ("x.example.org", ["[::ffff:127.0.0.1]:443"])] in
  (@follow toy_net (mkPolicy []) 3 0 hops).1 = ["93.184.216.34:443"] ∧
  Z.of_nat (length (@follow toy_net (mkPolicy []) 3 0 hops).1) ≤ 4.
Proof.
  intros hops. split; [vm_compute; reflexivity|]. apply (@follow_public toy_net 3 hops). lia.
Defined.

End SafeHTTP.
