(* ===== verification/BrokerTypes.v ===== *)
(** * BrokerTypes: requests to the root broker

    The request types of [src/internal/rootbroker/types.go], [account.go] and
    [files.go], and the timeout classes of [timeouts.go]. A pointer field of
    [Request] is an [option]; the fields of a request struct carry a two-letter
    prefix of their struct. [zeroX] is the zero value of struct [X], the value
    JSON decoding starts from. A reader handed to the broker is only tested for
    [nil] before dispatch, so [fi_ContentReader] says whether there is one. *)
From S2P Require Import Prelude DBLocks.

Module BrokerTypes.

Record EnvironmentRequest := mkEnvironmentRequest {
  en_Action : string; en_Site : string; en_Content : string }.
Definition zeroEnvironmentRequest : EnvironmentRequest := mkEnvironmentRequest "" "" "".

Record ResourceRequest := mkResourceRequest {
  re_Action : string; re_Site : string; re_Account : string; re_CPUPercent : Z;
  re_CPUWeight : Z; re_MemoryHighMB : Z; re_MemoryMB : Z; re_IOWeight : Z; re_TasksMax : Z }.
Definition zeroResourceRequest : ResourceRequest := mkResourceRequest "" "" "" 0 0 0 0 0 0.

Record CertificateRequest := mkCertificateRequest {
  ce_Action : string; ce_Domain : string; ce_Email : string }.
Definition zeroCertificateRequest : CertificateRequest := mkCertificateRequest "" "" "".

Record TaskRequest := mkTaskRequest {
  ta_Action : string; ta_Site : string; ta_Name : string; ta_Runtime : string;
  ta_Command : string; ta_OnCalendar : string; ta_TimeoutSec : Z; ta_Enabled : bool;
  ta_MinIntervalSeconds : Z; ta_MissedRunPolicy : string; ta_CPUPercent : Z; ta_MemoryMB : Z;
  ta_TasksMax : Z; ta_NotifyWebhook : string }.
Definition zeroTaskRequest : TaskRequest := mkTaskRequest "" "" "" "" "" "" 0 false 0 "" 0 0 0 "".

Record WordPressRequest := mkWordPressRequest {
  wp_Action : string; wp_Site : string; wp_Name : string; wp_Value : string; wp_Search : string;
  wp_Replace : string; wp_DBName : string; wp_DBUser : string; wp_DBHost : string;
  wp_DBPrefix : string; wp_URL : string; wp_Title : string; wp_AdminUser : string;
  wp_AdminEmail : string; wp_Secret : string }.
Definition zeroWordPressRequest : WordPressRequest := mkWordPressRequest "" "" "" "" "" "" "" "" "" "" "" "" "" "" "".

Record SiteRequest := mkSiteRequest {
  st_Action : string; st_Site : string; st_SiteUser : string; st_SnapshotSource : string;
  st_SnapshotDestination : string; st_SSHKeys : string; st_SFTPEnabled : option bool;
  st_ShellEnabled : option bool; st_FTPEnabled : option bool; st_FTPPassword : string;
  st_PHPWorkers : Z; st_CountersOnly : bool; st_DiskMB : Z; st_Inodes : Z;
  st_PHPVersion : string; st_MemoryLimit : string; st_UploadMaxFilesize : string;
  st_PostMaxSize : string; st_MaxInputVars : Z; st_OPcache : bool; st_ErrorReporting : string;
  st_MemoryMB : Z; st_ExecTimeout : Z; st_UploadSize : Z; st_PostSize : Z; st_InputTimeout : Z;
  st_OpcacheSize : Z; st_DisplayErrors : bool; st_ErrorLogging : bool; st_Domain : string }.
Definition zeroSiteRequest : SiteRequest := mkSiteRequest "" "" "" "" "" "" None None None "" 0 false 0 0 "" "" "" "" 0 false "" 0 0 0 0 0 0 false false "".

Record AppRequest := mkAppRequest {
  ap_Action : string; ap_Site : string; ap_SiteUser : string; ap_Version : string; ap_Port : Z;
  ap_Root : string; ap_ToolAction : string; ap_PackageManager : string; ap_Development : bool;
  ap_OptimizeAutoloader : bool; ap_EntryPoint : string; ap_Workers : Z }.
Definition zeroAppRequest : AppRequest := mkAppRequest "" "" "" "" 0 "" "" "" false false "" 0.

Record WorkerRequest := mkWorkerRequest {
  wk_Action : string; wk_Site : string; wk_Name : string; wk_Type : string; wk_Root : string;
  wk_Processes : Z; wk_MemoryMB : Z; wk_Retries : Z }.
Definition zeroWorkerRequest : WorkerRequest := mkWorkerRequest "" "" "" "" "" 0 0 0.

Record RunnerRequest := mkRunnerRequest {
  ru_Action : string; ru_Site : string; ru_SiteUser : string; ru_Image : string;
  ru_Root : string; ru_Script : string; ru_CPUPercent : Z; ru_MemoryMB : Z; ru_TasksMax : Z;
  ru_NetworkMode : string; ru_MaxImageBytes : Z }.
Definition zeroRunnerRequest : RunnerRequest := mkRunnerRequest "" "" "" "" "" "" 0 0 0 "" 0.

Record DBRequest := mkDBRequest {
  db_Action : string; db_Database : string; db_SessionID : string; db_Username : string;
  db_Password : string; db_Site : string; db_Encoding : string; db_DumpData : string;
  db_DumpPath : string; db_DumpCapacityReservation : string; db_DumpCapacityStage : string;
  db_DumpExpectedBytes : Z; db_DumpMinFreeBytes : Z }.
Definition zeroDBRequest : DBRequest := mkDBRequest "" "" "" "" "" "" "" "" "" "" "" 0 0.

Record VhostRequest := mkVhostRequest {
  vh_Action : string; vh_Site : string; vh_Domain : string; vh_Name : string;
  vh_SSLCertPath : string; vh_SSLKeyPath : string; vh_WebServer : string;
  vh_BasicAuthUser : string; vh_BasicAuthHash : string; vh_UpstreamPort : Z;
  vh_Directives : string }.
Definition zeroVhostRequest : VhostRequest := mkVhostRequest "" "" "" "" "" "" "" "" "" 0 "".

Record ProxyRequest := mkProxyRequest {
  px_Action : string; px_Site : string; px_Domain : string; px_Backend : string;
  px_Name : string; px_WebServer : string; px_Upstreams : gmap string string;
  px_CertPath : string; px_KeyPath : string }.
Definition zeroProxyRequest : ProxyRequest := mkProxyRequest "" "" "" "" "" "" ∅ "" "".

Record GitRequest := mkGitRequest {
  gi_Action : string; gi_Site : string; gi_Repository : string; gi_Ref : string;
  gi_Destination : string; gi_MaxFileBytes : Z; gi_MaxStageBytes : Z; gi_ProjectID : Z;
  gi_PrivateKey : string; gi_KnownHosts : string; gi_AllowedHosts : list string }.
Definition zeroGitRequest : GitRequest := mkGitRequest "" "" "" "" "" 0 0 0 "" "" [].

Record AccountRequest := mkAccountRequest {
  ac_Action : string; ac_Account : string; ac_Site : string; ac_Kind : string;
  ac_Directory : string; ac_DiskMB : Z; ac_Inodes : Z }.
Definition zeroAccountRequest : AccountRequest := mkAccountRequest "" "" "" "" "" 0 0.

Record FilesRequest := mkFilesRequest {
  fi_Action : string; fi_Site : string; fi_TenantID : string; fi_Path : string;
  fi_Destination : string; fi_StreamContent : bool; fi_ContentReader : bool }.
Definition zeroFilesRequest : FilesRequest := mkFilesRequest "" "" "" "" "" false false.

Record Request := mkRequest {
  RequestType : string; Fencing : list DBLocks.FencingToken;
  rq_Site : option SiteRequest; rq_App : option AppRequest; rq_Worker : option WorkerRequest;
  rq_Runner : option RunnerRequest; rq_DB : option DBRequest; rq_Vhost : option VhostRequest;
  rq_Proxy : option ProxyRequest; rq_Git : option GitRequest; rq_Account : option AccountRequest;
  rq_Files : option FilesRequest; rq_Certificate : option CertificateRequest;
  rq_Task : option TaskRequest; rq_Environment : option EnvironmentRequest;
  rq_Resource : option ResourceRequest; rq_WordPress : option WordPressRequest }.

(** A request of the given type with no payload. *)
Definition bare (type : string) (tokens : list DBLocks.FencingToken) : Request :=
  mkRequest type tokens None None None None None None None None None None None None None None None.

Record Response := mkResponse { OK : bool; Error : string; Details : string }.

(** ** Timeouts *)

Definition ConfigMutationTimeout : Z := 30 * Second.
Definition ServiceLifecycleTimeout : Z := 60 * Second.
Definition PackageBuildTimeout : Z := 15 * Minute.
Definition DatabaseOperationTimeout : Z := 60 * Minute.
Definition ContainerOperationTimeout : Z := 30 * Minute.
Definition BackupRestoreTimeout : Z := 120 * Minute.

Definition defaultRequestTimeout : Z := ConfigMutationTimeout.
Definition timeoutListing : Z := 10 * Second.
Definition timeoutConfig : Z := ConfigMutationTimeout.
Definition timeoutLifecycle : Z := ServiceLifecycleTimeout.
Definition timeoutBuild : Z := PackageBuildTimeout.
Definition timeoutDatabase : Z := DatabaseOperationTimeout.
Definition timeoutContainer : Z := ContainerOperationTimeout.
Definition timeoutBulk : Z := BackupRestoreTimeout.

(** The actions of each class, by request type. *)
Definition typedTimeouts : list (string * list (string * Z)) := [
  ("site", [("create", timeoutBulk); ("prepare", timeoutBulk); ("snapshot", timeoutBulk);
    ("snapshot-restore", timeoutBulk); ("seal", timeoutBulk); ("delete", timeoutBulk);
    ("access", timeoutConfig); ("ftp", timeoutConfig); ("resources", timeoutConfig);
    ("quota", timeoutConfig); ("quota-clear", timeoutConfig); ("runtime", timeoutConfig);
    ("fpm-status", timeoutConfig); ("certificate-status", timeoutConfig)]);
  ("app", [("apply", timeoutLifecycle); ("delete", timeoutLifecycle); ("start", timeoutLifecycle);
    ("stop", timeoutLifecycle); ("restart", timeoutLifecycle); ("rollback", timeoutLifecycle);
    ("composer-install", timeoutBuild); ("node-tool", timeoutBuild);
    ("python-apply", timeoutBuild); ("python-start", timeoutLifecycle);
    ("python-stop", timeoutLifecycle); ("python-restart", timeoutLifecycle)]);
  ("worker", [("apply", timeoutLifecycle); ("delete", timeoutLifecycle); ("start", timeoutLifecycle);
    ("stop", timeoutLifecycle); ("restart", timeoutLifecycle)]);
  ("runner", [("build", timeoutContainer); ("artifact-cleanup", 3 * Minute)]);
  ("task", [("apply", timeoutLifecycle); ("delete", timeoutLifecycle); ("kill", timeoutLifecycle);
    ("history", timeoutConfig)]);
  ("environment", [("apply", timeoutLifecycle)]);
  ("resource", [("apply-account", timeoutConfig); ("apply-site", timeoutConfig); ("status", timeoutConfig)]);
  ("wordpress", [("status", timeoutLifecycle); ("db-check", timeoutLifecycle);
    ("maintenance-status", timeoutLifecycle); ("maintenance-activate", timeoutLifecycle);
    ("maintenance-deactivate", timeoutLifecycle); ("option-get", timeoutLifecycle);
    ("option-update", timeoutLifecycle); ("config-get", timeoutLifecycle);
    ("config-create", timeoutLifecycle); ("config-set", timeoutLifecycle);
    ("config-set-password", timeoutLifecycle); ("core-install", timeoutLifecycle);
    ("recovery-probe-write", timeoutLifecycle); ("recovery-probe-read", timeoutLifecycle);
    ("rewrite-flush", timeoutLifecycle); ("cache-flush", timeoutLifecycle);
    ("core-download", timeoutBuild); ("core-update", timeoutBuild);
    ("plugin-update-all", timeoutBuild); ("theme-update-all", timeoutBuild);
    ("cron-run-due", timeoutBuild); ("search-replace", timeoutDatabase)]);
  ("db", [("inventory", timeoutConfig); ("reconcile", timeoutDatabase);
    ("diagnostics", timeoutConfig); ("sessions", timeoutConfig); ("settings", timeoutConfig);
    ("terminate", timeoutConfig); ("dump", timeoutBulk); ("restore", timeoutBulk);
    ("restore-dump", timeoutBulk); ("restore-wordpress", timeoutBulk);
    ("provision", timeoutDatabase); ("rotate", timeoutDatabase); ("drop", timeoutDatabase);
    ("drop-managed", timeoutDatabase); ("cleanup-wordpress", timeoutDatabase)]);
  ("account", [("ensure", timeoutLifecycle); ("delete", timeoutLifecycle); ("quota", timeoutConfig);
    ("quota-clear", timeoutConfig); ("place", timeoutConfig); ("unplace", timeoutLifecycle)]);
  ("files", [("list", timeoutListing); ("read", timeoutConfig); ("write", timeoutConfig);
    ("mkdir", timeoutConfig); ("rename", timeoutConfig); ("delete", timeoutLifecycle)]);
  ("git", [("generate", timeoutConfig); ("public", timeoutConfig); ("delete", timeoutLifecycle);
    ("clone", timeoutContainer); ("verify-key", timeoutConfig); ("stage-limit", timeoutConfig);
    ("stage-clear", timeoutConfig)]);
  ("vhost", [("apply", timeoutLifecycle); ("apply-auth", timeoutLifecycle);
    ("delete", timeoutLifecycle); ("import-htaccess", timeoutLifecycle)]);
  ("proxy", [("apply", timeoutLifecycle); ("reload", timeoutLifecycle); ("delete", timeoutLifecycle)]);
  ("certificate", [("issue", 15 * Minute)])
].

Fixpoint assoc {A} (k : string) (l : list (string * A)) : option A :=
  match l with
  | [] => None
  | (k', a) :: l' => if decide (k = k') then Some a else assoc k l'
  end.

(** The action of the payload that belongs to the request's type, [None] when the
    payload is missing or the type is unknown. *)
Definition request_action (r : Request) : option string :=
  let ty t := bool_decide (RequestType r = t) in
  if ty "site" then st_Action <$> rq_Site r else
  if ty "app" then ap_Action <$> rq_App r else
  if ty "worker" then wk_Action <$> rq_Worker r else
  if ty "runner" then ru_Action <$> rq_Runner r else
  if ty "task" then ta_Action <$> rq_Task r else
  if ty "environment" then en_Action <$> rq_Environment r else
  if ty "resource" then re_Action <$> rq_Resource r else
  if ty "wordpress" then wp_Action <$> rq_WordPress r else
  if ty "db" then db_Action <$> rq_DB r else
  if ty "git" then gi_Action <$> rq_Git r else
  if ty "files" then fi_Action <$> rq_Files r else
  if ty "account" then ac_Action <$> rq_Account r else
  if ty "vhost" then vh_Action <$> rq_Vhost r else
  if ty "proxy" then px_Action <$> rq_Proxy r else
  if ty "certificate" then ce_Action <$> rq_Certificate r else None.

(** [RequestTimeout]; [None] is a nil request. *)
Definition RequestTimeout (req : option Request) : Z :=
  match req with
  | None => defaultRequestTimeout
  | Some r =>
      match request_action r with
      | None => defaultRequestTimeout
      | Some action =>
          match assoc (RequestType r) typedTimeouts ≫= assoc action with
          | Some t => t
          | None => defaultRequestTimeout
          end
      end
  end.

End BrokerTypes.
