(* ===== verification/BrokerValidate.v ===== *)
(** * BrokerValidate: validation at the root boundary

    Models [src/internal/rootbroker/validator.go], [helper_schema.go], the
    validators of [account.go], [files.go] and [wordpress.go], the builder of
    wp-cli arguments [WordPressArgs], and the path policy of
    [src/internal/sitefiles/sitefiles.go]. A validator returns the first error, or
    [None]. What the validator sees of the host (the kind of a file, the working
    directory, the recorded placements) are fields of [Validator]; the text
    parsers of packages [net], [net/url], [net/mail] and [encoding/json] are the
    class [NetText] of [SafeHTTP], and what is used of them the class
    [NetTextLaws]. *)
From S2P Require Import Prelude Regex GoText GoPath DBLocks DomainName SiteLayout SafeHTTP BrokerTypes.

Module BrokerValidate.
Import Regex GoText BrokerTypes.
Import SafeHTTP(URL, NetText, url_Parse, url_ParseRequestURI, mail_ParseAddress, json_strings, net_ParseIP,
  u_Scheme, u_Host, u_Hostname, u_Port, u_User, u_Path, u_RawQuery, u_Fragment).

#[local] Existing Instance SafeHTTP.Addr_eq_dec.

(** ** Sequences of checks *)

Definition reject (cond : bool) (msg : string) : option error := if cond then Some (EMsg msg) else None.
Definition andthen (a b : option error) : option error := match a with Some e => Some e | None => b end.
Definition wrap (ctx : string) (a : option error) : option error := EWrap ctx <$> a.
Definition check_res {A} (r : res A) (k : A → option error) : option error :=
  match r with Ok a => k a | Err e => Some e end.
Infix ">>>" := andthen (at level 62, right associativity) : go_scope.
Open Scope go_scope.

Lemma andthen_None a b : (a >>> b) = None ↔ a = None ∧ b = None.
Proof. destruct a; cbn; naive_solver. Qed.
Lemma reject_None c m : reject c m = None ↔ c = false.
Proof. by destruct c. Qed.
Lemma wrap_None c a : wrap c a = None ↔ a = None.
Proof. by destruct a. Qed.

(** [s == t], and membership in a [case] list or a set of strings. *)
Definition eqs (s t : string) : bool := bool_decide (s = t).
Definition in_set (s : string) (l : list string) : bool := bool_decide (s ∈ l).
(** [v < lo || v > hi]. *)
Definition out_of (v lo hi : Z) : bool := (v <? lo) || (hi <? v).

(** ** Text parsers of the standard library *)

(** What the argument builder relies on: a parsed scheme is the lower-cased text
    before the first colon, and a JSON array of strings (or [null]) does not start
    with a minus sign. *)
Class NetTextLaws `{NetText} := {
  url_Parse_scheme s u : url_Parse s = Some u → u_Scheme u ≠ "" →
    ∃ rest, lower_ascii s = u_Scheme u +:+ ":" +:+ rest;
  json_strings_head s l : json_strings s = Some l → has_prefix s "-" = false
}.

(** ** The validator *)

Inductive Stat := NotExist | StatFails | Regular | Symlink | OtherFile.

Record Validator := mkValidator {
  webRoot : string;
  homeRoot : string;
  placements : option (string → res SiteLayout.Placement);
  lstat : string → Stat;
  cwd : option string
}.

Definition alnum : list (ascii * ascii) := [("A", "Z"); ("a", "z"); ("0", "9")]%char.
Definition digit_class : re := Cls [("0", "9")]%char.
Definition one (c : ascii) : ascii * ascii := (c, c).
Definition cls (base : list (ascii * ascii)) (extra : string) : re := Cls (base ++ (one <$> bytes_of extra)).

Definition taskNamePattern : re := rep 1 32 (cls alnum "_-").
Definition workerNamePattern : re := rep 1 32 (cls alnum "_-").
Definition gitCloneRepoPattern : re :=
  Cat (lit "git@") (Cat (plus (cls alnum ".-")) (Cat (lit ":") (Cat (plus (cls alnum "._/-")) (lit ".git")))).
Definition gitPublicCloneRepoPattern : re :=
  Cat (lit "https://") (Cat (plus (cls alnum ".-")) (Cat (lit "/") (Cat (plus (cls alnum "._~/-")) (lit ".git")))).
Definition gitCloneRefPattern : re := Cat (Cls alnum) (upto 127 (cls alnum "._/@+-")).
Definition phpVersionPattern : re := Cat (plus digit_class) (Cat (lit ".") (plus digit_class)).
Definition phpSizePattern : re := Cat (Cls [("1", "9")]%char) (Cat (upto 4 digit_class) (lit "M")).
Definition phpErrorPattern : re := rep 1 80 (cls [("A", "Z"); ("0", "9")]%char "_~& |").
Definition siteNamePattern : re := plus (cls SiteLayout.lower_digit "_-").
Definition usernamePattern : re := plus (cls SiteLayout.lower_digit "_-").
Definition databaseNamePattern : re := plus (cls SiteLayout.lower_digit "_").
Definition gitRefPattern : re := plus (cls alnum "._/-").
Definition phpReleasePattern : re :=
  Cat (Cls [("5", "9")]%char) (Cat (lit ".") (Cat digit_class (opt (Cat (lit ".") (plus digit_class))))).
Definition nodeVersionPattern : re :=
  Cat (plus digit_class) (Cat (lit ".") (Cat (plus digit_class) (Cat (lit ".") (plus digit_class)))).
Definition persistedSiteUser : re :=
  Cat (lit "sp-") (Cat (Cls SiteLayout.lower_digit) (rep 1 28 (cls SiteLayout.lower_digit "-"))).
Definition white : re := Cls (one <$> [chr 9; chr 10; chr 12; chr 13; chr 32]).
Definition not_newline : re := Cls [(chr 0, chr 9); (chr 11, chr 255)].
Definition sshPublicKeyPattern : re :=
  Cat (foldr Alt Never (lit <$> [ "ssh-ed25519"; "ecdsa-sha2-nistp256"; "ecdsa-sha2-nistp384"; "ecdsa-sha2-nistp521";
                                  "sk-ssh-ed25519@openssh.com"; "sk-ecdsa-sha2-nistp256@openssh.com"; "ssh-rsa" ]))
      (Cat (lit " ") (Cat (plus (cls alnum "+/")) (Cat (upto 3 (lit "=")) (opt (Cat white (Star not_newline)))))).

Section Validate.
Context `{NetText} (v : Validator).

(** [sitePlacement]: [None] is a legacy site. *)
Definition sitePlacement (site : string) : res (option SiteLayout.Placement) :=
  match placements v with
  | None => Ok None
  | Some look =>
      match look site with
      | Ok p => if eqs (SiteLayout.Site p) site then Ok (Some p)
                else Err (EMsg "placement lookup returned another site")
      | Err e => if errors_is e SiteLayout.ErrNotPlaced || Contains (error_text e) "no such table" then Ok None
                 else Err (EWrap "look up placement of site" e)
      end
  end.

Definition siteDocRoot (site : string) : res string :=
  match sitePlacement site with
  | Err e => Err e
  | Ok (Some p) => Ok (SiteLayout.DocRoot p (homeRoot v))
  | Ok None => Ok (GoPath.Join [webRoot v; "sites"; site; "public"])
  end.

Definition siteStageRoot (site : string) : res string :=
  match sitePlacement site with
  | Err e => Err e
  | Ok (Some _) => Ok (SiteLayout.StagingRoot (homeRoot v))
  | Ok None => Ok (GoPath.Join [webRoot v; "sites"; ".stepanel-manager-staging"])
  end.

Definition ValidateSiteName (site : string) : option error :=
  reject (eqs site "") "site name is required" >>>
  reject (32 <? len site) "site name too long (max 32 characters)" >>>
  reject (negb (MatchString siteNamePattern site)) "site name must contain only lowercase alphanumeric, dash, underscore".

Definition ValidateDomain (domain : string) : option error := DomainName.Validate domain.

(** [filepath.Abs]; the working directory is needed for a relative path. *)
Definition Abs (p : string) : res string :=
  if GoPath.IsAbs p then Ok (GoPath.Clean p) else
  match cwd v with Some d => Ok (GoPath.Join [d; p]) | None => Err (EMsg "getwd") end.

(** [filepath.Rel] of two cleaned absolute paths: the components after the common
    ones, one [..] for each remaining component of the base. *)
Fixpoint rel_comps (base target : list (list ascii)) : list (list ascii) :=
  match base, target with
  | b :: bs, t :: ts => if decide (b = t) then rel_comps bs ts else ((λ _, GoPath.dotdot) <$> base) ++ target
  | _, _ => ((λ _, GoPath.dotdot) <$> base) ++ target
  end.
Definition Rel (base target : string) : string :=
  match rel_comps (GoPath.clean_comps (bytes_of base)) (GoPath.clean_comps (bytes_of target)) with
  | [] => "."
  | cs => GoPath.path_of cs
  end.

(** [rejectSymlinkComponents]: the components of the path below the root, each
    looked up in turn until one does not exist. *)
Fixpoint reject_symlinks (current : string) (components : list string) : option error :=
  match components with
  | [] => None
  | c :: rest =>
      if eqs c "" || eqs c "." then reject_symlinks current rest else
      let current := GoPath.Join [current; c] in
      match lstat v current with
      | NotExist => None
      | StatFails => Some (EWrap "inspect dump path component" io_err)
      | Symlink => Some (EMsg "dump path contains a symlinked parent")
      | _ => reject_symlinks current rest
      end
  end.
Definition rejectSymlinkComponents (root target : string) : option error :=
  match lstat v root with
  | NotExist => None
  | StatFails => Some (EWrap "inspect path root" io_err)
  | Symlink => Some (EMsg "path root is a symlink")
  | _ => reject_symlinks (GoPath.Clean root) (split "/" (Rel root target))
  end.

Definition ValidateFilePath (root path : string) : option error :=
  reject (eqs path "") "path is required" >>>
  reject (GoPath.IsAbs path) "absolute paths not allowed" >>>
  reject (Contains path "..") "path traversal not allowed" >>>
  check_res (Abs root) (λ rootAbs,
  check_res (Abs (GoPath.Join [root; path])) (λ fullPath,
  let rootClean := GoPath.Clean rootAbs in
  let fullClean := GoPath.Clean fullPath in
  reject (negb (has_prefix fullClean (rootClean +:+ "/")) && negb (eqs fullClean rootClean)) "path escapes root directory" >>>
  rejectSymlinkComponents rootClean fullClean)).

Definition ValidateSiteRoot (site : string) : res string :=
  match ValidateSiteName site >>> ValidateFilePath (webRoot v) (GoPath.Join ["sites"; site]) with
  | Some e => Err e
  | None => Ok (GoPath.Join [webRoot v; "sites"; site])
  end.

Definition ValidatePort (port : Z) : option error :=
  reject (out_of port 1024 65535) "port must be between 1024 and 65535".
Definition ValidateNumericRange (val min max : Z) : option error :=
  reject (out_of val min max) "value is out of range".

Definition ValidateSSHKey (key : string) : option error :=
  reject (eqs key "") "SSH key is required" >>>
  reject (8192 <? len key) "SSH key too long" >>>
  reject (ContainsAny key [13]) "SSH key contains CR (carriage return)" >>>
  reject (negb (MatchString sshPublicKeyPattern (TrimSpace key))) "invalid SSH key format".

Definition ValidateBcryptHash (hash : string) : option error :=
  reject (eqs hash "") "hash is required" >>>
  reject (negb (len hash =? 60)) "invalid bcrypt hash length" >>>
  reject (negb (has_prefix hash "$2a$") && negb (has_prefix hash "$2b$") && negb (has_prefix hash "$2y$")) "invalid bcrypt hash prefix".

Definition ValidateUsername (username : string) : option error :=
  reject (eqs username "") "username is required" >>>
  reject (32 <? len username) "username too long (max 32)" >>>
  reject (negb (MatchString usernamePattern username)) "username must be lowercase alphanumeric, dash, or underscore".

Definition ValidateDatabaseName (db : string) : option error :=
  reject (eqs db "") "database name is required" >>>
  reject (64 <? len db) "database name too long (max 64)" >>>
  reject (negb (MatchString databaseNamePattern db)) "database name must be lowercase alphanumeric or underscore".

Definition ValidateGitRepository (repoURL : string) : option error :=
  reject (eqs repoURL "") "repository URL is required" >>>
  reject (2048 <? len repoURL) "repository URL too long" >>>
  reject (negb (has_prefix repoURL "git@" || has_prefix repoURL "https://" || has_prefix repoURL "ssh://")) "repository URL must be SSH (git@...) or HTTPS (https://...)" >>>
  reject (Contains repoURL ".." || ContainsAny repoURL [10] || ContainsAny repoURL [13]) "repository URL contains invalid characters".

Definition ValidateGitRef (ref : string) : option error :=
  reject (eqs ref "") "git ref is required" >>>
  reject (256 <? len ref) "git ref too long" >>>
  reject (negb (MatchString gitRefPattern ref)) "git ref contains invalid characters".

Definition ValidateGitDestination (destination : string) : option error :=
  if GoPath.IsAbs destination then
    check_res (Abs (webRoot v)) (λ rootAbs,
    let clean := GoPath.Clean destination in
    if eqs (GoPath.Dir clean) (SiteLayout.StagingRoot (homeRoot v)) then None else
    let rel := Rel (GoPath.Clean rootAbs) clean in
    reject (eqs rel ".." || has_prefix rel "../") "git destination is outside the web root")
  else wrap "invalid git destination" (ValidateFilePath (webRoot v) destination).

Definition ValidatePHPVersion (version : string) : option error :=
  reject (eqs version "") "PHP version is required" >>>
  reject (negb (MatchString phpReleasePattern version)) "invalid PHP version format".
Definition ValidateNodeVersion (version : string) : option error :=
  reject (eqs version "") "Node version is required" >>>
  reject (negb (MatchString nodeVersionPattern (TrimPrefix version "v"))) "invalid Node version format (expected X.Y.Z)".
Definition ValidateWebServer (ws : string) : option error :=
  reject (negb (in_set ws ["caddy"; "apache"; "nginx"; "ols"; "openlitespeed"])) "unsupported webserver".
Definition ValidateEncoding (enc : string) : option error :=
  reject (negb (in_set enc ["utf8mb4"; "utf8"; "UTF8"; "latin1"])) "unsupported encoding".
Definition validateDBSecret (secret : string) (minimum : Z) : option error :=
  reject ((len secret <? minimum) || (128 <? len secret)) "database password has a wrong length" >>>
  reject (ContainsAny secret [13; 10]) "database password may not contain newlines".

(** ** Fixed helper arguments ([helper_schema.go]) *)

Definition schemaSitePattern : re := rep 1 32 (cls SiteLayout.lower_digit "_-").
Definition schemaSessionPattern : re := Cat (Cls [("1", "9")]%char) (upto 18 digit_class).
Definition route_tail : re :=
  Cat (rep 1 32 (cls SiteLayout.lower_digit "_-")) (Cat (lit "-") (Cat (plus (cls SiteLayout.lower_digit "_-"))
      (Cat (lit ".") (Alt (lit "conf") (lit "caddy"))))).
Definition schemaProxyNamePattern : re := route_tail.
Definition schemaRouteNamePattern : re := Cat (lit "site-") route_tail.
Definition schemaAuthUserPattern : re := rep 1 64 (cls alnum "._-").
Definition schemaBcryptPattern : re :=
  Cat (lit "$2") (Cat (cls [] "aby") (Cat (lit "$") (Cat (exactly 2 digit_class) (Cat (lit "$") (exactly 53 (cls alnum "./")))))).
Definition schemaPythonVersion : re := Cat (lit "3.") (Alt (lit "12") (lit "13")).
Definition schemaEntrypointPattern : re := rep 1 160 (cls alnum "_./:-").
Definition schemaImagePattern : re :=
  Cat (Cls SiteLayout.lower_digit) (Cat (upto 180 (cls SiteLayout.lower_digit "._/-"))
  (Cat (opt (Cat (lit ":") (Cat (cls alnum "_") (upto 127 (cls alnum "_.-")))))
  (Cat (lit "@sha256:") (exactly 64 (Cls [("0", "9"); ("a", "f")]%char))))).
Definition schemaRunnerScript : re :=
  Cat (Alt (lit "runner") (lit "pipeline")) (Cat (lit "-") (Cat (plus digit_class) (lit ".sh"))).

(** One positional argument, checked with the full argument list. *)
Definition helperArg : Type := string → list string → option error.
Record fixedCommandAction := mkAction { ca_args : list helperArg; ca_optional : list helperArg }.

Definition matches (pattern : re) (what : string) : helperArg :=
  λ value _, reject (negb (MatchString pattern value)) ("invalid " +:+ what).
Definition oneOf (what : string) (allowed : list string) : helperArg :=
  λ value _, reject (negb (in_set value allowed)) ("invalid " +:+ what).
Definition intRange (what : string) (min max : Z) : helperArg := λ value _,
  reject (eqs value "" || (19 <? len value) || negb (all_bytes is_digit value)) ("invalid " +:+ what) >>>
  reject (match ParseInt value with Ok n => out_of n min max | Err _ => true end) (what +:+ " out of range").

Definition argSite : helperArg := matches schemaSitePattern "site".
Definition argAccount : helperArg := matches schemaSitePattern "account".
Definition argOptionalAccount : helperArg := λ value args, if eqs value "" then None else argAccount value args.
Definition argCount : helperArg := intRange "limit" 0 (2 ^ 40).

(** The argument at a position; the schemas give every action its site argument. *)
Definition arg_at (args : list string) (pos : nat) : string := default "" (args !! pos).

Definition argSitePath (sitePos : nat) (suffix : string) : helperArg := λ value args,
  let site := arg_at args sitePos in
  check_res (if eqs suffix "public" then siteDocRoot site
             else Ok (GoPath.Join [webRoot v; "sites"; site; suffix])) (λ want,
  reject (negb (eqs value want)) "path must be the site's directory").

(** [^\.stepanel-release-<site>-[0-9]+$], the site quoted. *)
Definition release_pattern (site : string) : re :=
  Cat (lit ".stepanel-release-") (Cat (lit site) (Cat (lit "-") (plus digit_class))).
Definition argReleasePath (sitePos : nat) : helperArg := λ value args,
  let site := arg_at args sitePos in
  check_res (siteStageRoot site) (λ stageRoot,
  reject (negb (eqs (GoPath.Clean value) value) || negb (eqs (GoPath.Dir value) stageRoot) ||
          negb (MatchString (release_pattern site) (GoPath.Base value)))
    "path must be a release staging directory of the site").

Definition argRunnerRoot (sitePos : nat) : helperArg := λ value args,
  match argSitePath sitePos "public" value args, argReleasePath sitePos value args with
  | None, _ | _, None => None
  | _, _ => Some (EMsg "invalid build root")
  end.

Definition appRoot : string := "/var/lib/ste-panel/apps".
Definition argRunnerScript : helperArg := λ value _,
  reject (negb (GoPath.IsAbs value) || negb (eqs (GoPath.Clean value) value) || negb (eqs (GoPath.Dir value) appRoot) ||
          negb (MatchString schemaRunnerScript (GoPath.Base value))) "invalid build script path".

Definition resourceLimits : list helperArg := [argCount; argCount; argCount; argCount; argCount; argCount].

Definition fixedCommandSchemas (name action : string) : option fixedCommandAction :=
  if eqs name "appctl" then
    if eqs action "resource-apply" then Some (mkAction (argSite :: resourceLimits) [argOptionalAccount]) else
    if eqs action "account-resource-apply" then Some (mkAction (argAccount :: resourceLimits) []) else
    if eqs action "resource-status" then Some (mkAction [argSite] []) else None
  else if eqs name "runnerctl" && eqs action "build" then
    Some (mkAction [ argSite; matches schemaImagePattern "container image"; argRunnerRoot 0; argRunnerScript;
                     intRange "CPU percent" 25 6400; intRange "memory MB" 64 1048576; intRange "tasks max" 16 100000;
                     oneOf "network mode" ["none"; "egress"]; intRange "max image bytes" 1 (2 ^ 50) ] [])
  else None.

(** The loop over the arguments: each within the size limit, free of NUL and line
    ends, and accepted by its checker. *)
Fixpoint check_args (checks : list helperArg) (rest args : list string) : option error :=
  match rest, checks with
  | arg :: rest', check :: checks' =>
      reject ((4096 <? len arg) || ContainsAny arg nul_cr_lf) "invalid helper argument" >>>
      wrap "helper argument" (check arg args) >>>
      check_args checks' rest' args
  | _, _ => None
  end.

Definition validateFixedCommandArgs (name action : string) (args : list string) : option error :=
  match fixedCommandSchemas name action with
  | None => Some (EMsg "helper action is not allow-listed")
  | Some spec =>
      reject (Nat.ltb (length args) (length (ca_args spec)) ||
              Nat.ltb (length (ca_args spec) + length (ca_optional spec)) (length args)) "wrong number of helper arguments" >>>
      check_args (ca_args spec ++ ca_optional spec) args args
  end.

(** ** Requests *)

Definition nilp {A} (o : option A) (msg : string) (k : A → option error) : option error :=
  match o with None => Some (EMsg msg) | Some a => k a end.

Definition resource_numbers (req : ResourceRequest) : list string :=
  Itoa <$> [re_CPUPercent req; re_CPUWeight req; re_MemoryHighMB req; re_MemoryMB req; re_IOWeight req; re_TasksMax req].

Definition validateResourceRequest (o : option ResourceRequest) : option error :=
  nilp o "resource request is nil" (λ req,
  if eqs (re_Action req) "apply-account" then
    (if eqs (re_Site req) "" then None else ValidateSiteName (re_Site req)) >>>
    validateFixedCommandArgs "appctl" "account-resource-apply" (re_Account req :: resource_numbers req)
  else if eqs (re_Action req) "apply-site" then
    validateFixedCommandArgs "appctl" "resource-apply" (re_Site req :: resource_numbers req ++ [re_Account req])
  else if eqs (re_Action req) "status" then validateFixedCommandArgs "appctl" "resource-status" [re_Site req]
  else Some (EMsg "unsupported resource action")).

Definition validateEnvironmentRequest (o : option EnvironmentRequest) : option error :=
  nilp o "environment request must specify the apply action" (λ req,
  reject (negb (eqs (en_Action req) "apply")) "environment request must specify the apply action" >>>
  ValidateSiteName (en_Site req) >>>
  reject ((2 ^ 20 <? len (en_Content req)) || ContainsAny (en_Content req) [0]) "environment content is invalid or too large").

Definition validateRunnerRequest (o : option RunnerRequest) : option error :=
  nilp o "runner request must specify build" (λ req,
  if eqs (ru_Action req) "artifact-cleanup" then
    reject (negb (eqs (ru_SiteUser req) "" && eqs (ru_Image req) "" && eqs (ru_Root req) "" && eqs (ru_Script req) "" &&
            (ru_CPUPercent req =? 0) && (ru_MemoryMB req =? 0) && (ru_TasksMax req =? 0) &&
            eqs (ru_NetworkMode req) "" && (ru_MaxImageBytes req =? 0))) "artifact cleanup accepts only a site" >>>
    ValidateSiteName (ru_Site req)
  else
    reject (negb (eqs (ru_Action req) "build")) "runner request must specify build" >>>
    validateFixedCommandArgs "runnerctl" "build"
      [ ru_Site req; ru_Image req; ru_Root req; ru_Script req; Itoa (ru_CPUPercent req); Itoa (ru_MemoryMB req);
        Itoa (ru_TasksMax req); ru_NetworkMode req; Itoa (ru_MaxImageBytes req) ]).

Definition validateWorkerRequest (o : option WorkerRequest) : option error :=
  nilp o "worker request must specify a supported action" (λ req,
  reject (negb (in_set (wk_Action req) ["apply"; "delete"; "start"; "stop"; "restart"])) "worker request must specify a supported action" >>>
  ValidateSiteName (wk_Site req) >>>
  reject (negb (MatchString workerNamePattern (wk_Name req))) "invalid worker name" >>>
  if negb (eqs (wk_Action req) "apply") then None else
  reject (negb (in_set (wk_Type req) ["laravel"; "horizon"; "node"; "celery"; "rq"])) "invalid worker type" >>>
  check_res (siteDocRoot (wk_Site req)) (λ docRoot,
  reject (negb (eqs (wk_Root req) docRoot)) "worker root must be the site's document root" >>>
  reject (out_of (wk_Processes req) 1 64 || out_of (wk_MemoryMB req) 64 65536 || out_of (wk_Retries req) 0 20) "worker limits are out of range")).

Definition validateTaskRequest (o : option TaskRequest) : option error :=
  nilp o "task request must specify a supported action" (λ req,
  reject (negb (in_set (ta_Action req) ["kill"; "apply"; "delete"; "history"])) "task request must specify a supported action" >>>
  wrap "invalid task site" (ValidateSiteName (ta_Site req)) >>>
  reject (negb (MatchString taskNamePattern (ta_Name req))) "invalid task name" >>>
  if negb (eqs (ta_Action req) "apply") then None else
  reject (negb (in_set (ta_Runtime req) ["php"; "node"; "python"; "shell"])) "invalid task runtime" >>>
  reject ((len (ta_Command req) =? 0) || (1024 <? len (ta_Command req)) || ContainsAny (ta_Command req) nul_cr_lf) "invalid task command" >>>
  reject ((len (ta_OnCalendar req) =? 0) || (128 <? len (ta_OnCalendar req)) || ContainsAny (ta_OnCalendar req) nul_cr_lf) "invalid task calendar" >>>
  reject (out_of (ta_TimeoutSec req) 1 86400 || out_of (ta_MinIntervalSeconds req) 60 31536000) "task timeout or minimum interval is out of range" >>>
  reject (negb (in_set (ta_MissedRunPolicy req) ["run_once"; "skip"])) "invalid task missed-run policy" >>>
  reject (out_of (ta_CPUPercent req) 25 6400 || out_of (ta_MemoryMB req) 64 1048576 || out_of (ta_TasksMax req) 16 100000) "task resource limits are out of range" >>>
  if eqs (ta_NotifyWebhook req) "" then None else
  reject (match url_ParseRequestURI (ta_NotifyWebhook req) with
          | None => true
          | Some u => negb (eqs (u_Scheme u) "https") || eqs (u_Host u) "" || u_User u || negb (eqs (u_Fragment u) "")
          end || (2048 <? len (ta_NotifyWebhook req)) || ContainsAny (ta_NotifyWebhook req) [92; 34; 39; 32; 9; 13; 10; 0])
    "invalid task notification webhook" >>>
  wrap "invalid task notification webhook" (SafeHTTP.ValidateURL (SafeHTTP.mkPolicy []) (ta_NotifyWebhook req))).

Definition validateCertificateRequest (o : option CertificateRequest) : option error :=
  nilp o "certificate request must specify the issue action" (λ req,
  reject (negb (eqs (ce_Action req) "issue")) "certificate request must specify the issue action" >>>
  reject (negb (DomainName.Valid (ce_Domain req))) "invalid certificate domain" >>>
  reject ((254 <? len (ce_Email req)) || ContainsAny (ce_Email req) nul_cr_lf) "invalid certificate email" >>>
  reject (negb (bool_decide (mail_ParseAddress (ce_Email req) = Some (ce_Email req)))) "invalid certificate email").

(** The fields that the status actions of a site request do not accept are all
    zero. *)
Definition site_extra_zero (req : SiteRequest) : bool :=
  eqs (st_SiteUser req) "" && eqs (st_SnapshotSource req) "" && eqs (st_SnapshotDestination req) "" && eqs (st_SSHKeys req) "" &&
  bool_decide (st_SFTPEnabled req = None) && bool_decide (st_ShellEnabled req = None) && bool_decide (st_FTPEnabled req = None) &&
  eqs (st_FTPPassword req) "" && (st_PHPWorkers req =? 0) && (st_DiskMB req =? 0) && (st_Inodes req =? 0) &&
  eqs (st_PHPVersion req) "" && eqs (st_MemoryLimit req) "" && eqs (st_UploadMaxFilesize req) "" && eqs (st_PostMaxSize req) "" &&
  (st_MaxInputVars req =? 0) && negb (st_OPcache req) && eqs (st_ErrorReporting req) "" && (st_MemoryMB req =? 0) &&
  (st_ExecTimeout req =? 0) && (st_UploadSize req =? 0) && (st_PostSize req =? 0) && (st_InputTimeout req =? 0) &&
  (st_OpcacheSize req =? 0) && negb (st_DisplayErrors req) && negb (st_ErrorLogging req).

Definition validateSiteRequest (o : option SiteRequest) : option error :=
  nilp o "site request is nil" (λ req,
  let act := eqs (st_Action req) in
  wrap "invalid site name" (ValidateSiteName (st_Site req)) >>>
  reject (st_CountersOnly req && negb (act "fpm-status")) "counters_only is accepted only for PHP-FPM status" >>>
  reject (negb (eqs (st_SiteUser req) "") && negb (MatchString persistedSiteUser (st_SiteUser req)) &&
          bool_decide (SiteLayout.ValidUnixUser (st_SiteUser req) ≠ None)) "invalid persisted site Unix account" >>>
  (if 0 <? st_PHPWorkers req then ValidateNumericRange (st_PHPWorkers req) 1 512 else None) >>>
  (if 0 <? st_DiskMB req then ValidateNumericRange (st_DiskMB req) 1 1048576 else None) >>>
  reject (negb (eqs (st_Domain req) "") && negb (act "certificate-status")) "domain is accepted only for certificate status" >>>
  if act "access" then
    reject (bool_decide (st_SFTPEnabled req = None) || bool_decide (st_ShellEnabled req = None) ||
            (2 ^ 20 <? len (st_SSHKeys req)) || ContainsAny (st_SSHKeys req) [0; 13]) "invalid SSH access request"
  else if act "ftp" then
    reject (match st_FTPEnabled req with
            | None => true
            | Some on => ContainsAny (st_FTPPassword req) nul_cr_lf || (128 <? len (st_FTPPassword req)) ||
                         (on && (len (st_FTPPassword req) <? 12)) || (negb on && negb (eqs (st_FTPPassword req) ""))
            end) "invalid FTPS request"
  else if act "resources" then reject (out_of (st_PHPWorkers req) 1 512) "php_workers must be between 1 and 512"
  else if act "quota" then
    reject (out_of (st_DiskMB req) 1 1048576 || out_of (st_Inodes req) 1 1000000000) "quota is out of range"
  else if act "quota-clear" then None
  else if act "fpm-status" then
    reject (negb (site_extra_zero req)) "PHP-FPM status request contains unsupported fields"
  else if act "certificate-status" then
    reject (negb (DomainName.Valid (st_Domain req)) || negb (site_extra_zero req))
      "certificate status request is invalid or contains unsupported fields"
  else if act "runtime" then
    reject (negb (MatchString phpVersionPattern (st_PHPVersion req)) || negb (MatchString phpSizePattern (st_MemoryLimit req)) ||
            negb (MatchString phpSizePattern (st_UploadMaxFilesize req)) || negb (MatchString phpSizePattern (st_PostMaxSize req)) ||
            out_of (st_ExecTimeout req) 1 3600 || out_of (st_MaxInputVars req) 1 1000000 ||
            negb (MatchString phpErrorPattern (st_ErrorReporting req))) "invalid PHP runtime profile"
  else None).

Definition app_actions : list string :=
  ["apply"; "delete"; "start"; "stop"; "restart"; "rollback"; "composer-install"; "node-tool";
   "python-apply"; "python-start"; "python-stop"; "python-restart"].

Definition validateAppRequest (o : option AppRequest) : option error :=
  nilp o "app request is nil" (λ req,
  let act := eqs (ap_Action req) in
  reject (negb (in_set (ap_Action req) app_actions)) "unsupported app action" >>>
  wrap "invalid site" (ValidateSiteName (ap_Site req)) >>>
  (if act "apply" then
     ValidateNodeVersion (ap_Version req) >>>
     ValidatePort (ap_Port req) >>>
     check_res (siteDocRoot (ap_Site req)) (λ docRoot,
     reject (negb (eqs (GoPath.Clean (ap_Root req)) docRoot)) "app root must be the site's document root")
   else None) >>>
  check_res (siteDocRoot (ap_Site req)) (λ publicRoot,
  let in_root msg := reject (negb (eqs (GoPath.Clean (ap_Root req)) publicRoot)) msg in
  if act "composer-install" then in_root "composer root must be the site's public directory"
  else if act "node-tool" then
    reject (negb (in_set (ap_ToolAction req) ["install"; "build"])) "unsupported Node tool action" >>>
    reject (negb (in_set (ap_PackageManager req) ["npm"; "yarn"; "pnpm"])) "unsupported Node package manager" >>>
    in_root "Node tool root must be the site's public directory"
  else if act "python-apply" then
    reject (negb (MatchString schemaPythonVersion (ap_Version req)) || negb (MatchString schemaEntrypointPattern (ap_EntryPoint req)) ||
            out_of (ap_Workers req) 1 64) "invalid Python application" >>>
    ValidatePort (ap_Port req) >>>
    in_root "Python root must be the site's public directory"
  else None)).

(** [validateDumpPath]: inside an approved root, no symbolic link on the way, and
    a regular file. *)
Fixpoint dump_allowed (cleaned : string) (roots : list string) : option error :=
  match roots with
  | [] => Some (EMsg "dump path is outside an approved staging root")
  | root :: rest =>
      match Abs root with
      | Ok rootAbs =>
          if eqs cleaned rootAbs || has_prefix cleaned (rootAbs +:+ "/")
          then rejectSymlinkComponents rootAbs cleaned else dump_allowed cleaned rest
      | Err _ => dump_allowed cleaned rest
      end
  end.
Definition validateDumpPath (path : string) : option error :=
  reject (negb (GoPath.IsAbs path)) "dump path must be absolute" >>>
  check_res (Abs path) (λ cleaned,
  dump_allowed cleaned [webRoot v; "/var/lib/ste-panel"; "/var/backups/stepanel"] >>>
  match lstat v cleaned with
  | NotExist | StatFails => Some (EWrap "inspect dump path" io_err)
  | Regular => None
  | _ => Some (EMsg "dump path must be a regular non-symlink file")
  end).

Definition validateDBRequest (o : option DBRequest) : option error :=
  nilp o "db request is nil" (λ req,
  if in_set (db_Action req) ["reconcile"; "inventory"; "diagnostics"; "sessions"; "settings"] then None
  else if eqs (db_Action req) "terminate" then
    reject (negb (MatchString schemaSessionPattern (db_SessionID req))) "invalid session ID"
  else
    (if in_set (db_Action req) ["drop"; "dump"] then ValidateDatabaseName (db_Database req)
     else ValidateDatabaseName (db_Database req) >>> ValidateUsername (db_Username req)) >>>
    if eqs (db_DumpPath req) "" then None else validateDumpPath (db_DumpPath req)).

Definition routeExtension (webserver : string) : string := if eqs webserver "caddy" then ".caddy" else ".conf".
Definition route_domain (domain : string) : string := replace_byte "."%char "_"%char (lower_ascii domain).
Definition SiteRouteName (webserver site domain : string) : string :=
  "site-" +:+ site +:+ "-" +:+ route_domain domain +:+ routeExtension webserver.
Definition ProxyRouteName (webserver site domain : string) : string :=
  site +:+ "-" +:+ route_domain domain +:+ routeExtension webserver.

Definition validateRouteOwner (site domain name canonical : string) : option error :=
  if eqs site "" && eqs domain "" then None else
  ValidateSiteName site >>> ValidateDomain domain >>>
  reject (negb (eqs name canonical)) "route is not the route of the site for the domain".

Definition validateVhostRequest (o : option VhostRequest) : option error :=
  nilp o "vhost request is nil" (λ req,
  ValidateWebServer (vh_WebServer req) >>>
  if eqs (vh_Action req) "delete" then
    let extension := if eqs (vh_WebServer req) "caddy" then ".caddy" else ".conf" in
    reject (negb (MatchString schemaRouteNamePattern (vh_Name req)) || negb (has_suffix (vh_Name req) extension)) "invalid site route name" >>>
    validateRouteOwner (vh_Site req) (vh_Domain req) (vh_Name req) (SiteRouteName (vh_WebServer req) (vh_Site req) (vh_Domain req))
  else
    ValidateSiteName (vh_Site req) >>>
    ValidateDomain (vh_Domain req) >>>
    if eqs (vh_Action req) "import-htaccess" then
      reject ((len (vh_Directives req) =? 0) || (2 ^ 20 <? len (vh_Directives req)) || ContainsAny (vh_Directives req) [0])
        "invalid translated htaccess directives"
    else if eqs (vh_Action req) "apply-auth" then
      reject (negb (MatchString schemaAuthUserPattern (vh_BasicAuthUser req)) || negb (MatchString schemaBcryptPattern (vh_BasicAuthHash req)))
        "invalid Basic Auth credentials"
    else None).

(** The predicates of [net.IP] on a parsed address. *)
Definition ip_unspecified (a : SafeHTTP.Addr) : bool :=
  match SafeHTTP.Unmap a with SafeHTTP.V4 n => n =? 0 | SafeHTTP.V6 n _ => n =? 0 | _ => false end.
Definition ip_in (ps : list SafeHTTP.Prefix) (a : SafeHTTP.Addr) : bool :=
  existsb (λ p, SafeHTTP.Contains p (SafeHTTP.Unmap a)) ps.
Definition ip_loopback : SafeHTTP.Addr → bool :=
  ip_in [SafeHTTP.P4 (SafeHTTP.ip4 127 0 0 0) 8; SafeHTTP.P6 1 128].
Definition ip_private : SafeHTTP.Addr → bool :=
  ip_in [SafeHTTP.P4 (SafeHTTP.ip4 10 0 0 0) 8; SafeHTTP.P4 (SafeHTTP.ip4 172 16 0 0) 12;
         SafeHTTP.P4 (SafeHTTP.ip4 192 168 0 0) 16; SafeHTTP.P6 (SafeHTTP.ip6 [0xfc00; 0; 0; 0; 0; 0; 0; 0]) 7].
Definition ip_link_local : SafeHTTP.Addr → bool :=
  ip_in [SafeHTTP.P4 (SafeHTTP.ip4 169 254 0 0) 16; SafeHTTP.P6 (SafeHTTP.ip6 [0xfe80; 0; 0; 0; 0; 0; 0; 0]) 10].
Definition metadata_ips : list SafeHTTP.Addr :=
  [SafeHTTP.V4 (SafeHTTP.ip4 169 254 169 254); SafeHTTP.V4 (SafeHTTP.ip4 100 100 100 200);
   SafeHTTP.V6 (SafeHTTP.ip6 [0xfd00; 0xec2; 0; 0; 0; 0; 0; 0x254]) ""].

(** [strconv.Atoi] of a port, which may carry a sign. *)
Definition Atoi (s : string) : res Z :=
  match bytes_of s with
  | "-"%char :: rest => match ParseInt (of_bytes rest) with Ok n => Ok (- n) | Err e => Err e end
  | "+"%char :: rest => ParseInt (of_bytes rest)
  | _ => ParseInt s
  end.

Definition validateProxyBackend (backend : string) : option error :=
  reject (eqs backend "" || (256 <? len backend) || ContainsAny backend [0; 13; 10; 32; 9]) "invalid proxy backend" >>>
  match url_Parse ("http://" +:+ backend) with
  | None => Some (EMsg "invalid proxy backend port")
  | Some u =>
      reject (u_User u || negb (eqs (u_Path u) "") || negb (eqs (u_RawQuery u) "") || negb (eqs (u_Fragment u) "") || eqs (u_Hostname u) "")
        "invalid proxy backend port" >>>
      reject (match Atoi (u_Port u) with Ok n => out_of n 1 65535 | Err _ => true end) "invalid proxy backend port" >>>
      if EqualFold (u_Hostname u) "localhost" then None else
      match net_ParseIP (u_Hostname u) with
      | None => Some (EMsg "proxy backend must target localhost or a private IP")
      | Some ip =>
          reject (ip_unspecified ip || ip_link_local ip || negb (ip_loopback ip || ip_private ip) ||
                  bool_decide (SafeHTTP.Unmap ip ∈ metadata_ips)) "proxy backend must target localhost or a private IP"
      end
  end.

Definition validateProxyRequest (o : option ProxyRequest) : option error :=
  nilp o "proxy request is nil" (λ req,
  ValidateWebServer (px_WebServer req) >>>
  if eqs (px_Action req) "apply" then
    ValidateSiteName (px_Site req) >>> ValidateDomain (px_Domain req) >>> validateProxyBackend (px_Backend req)
  else if eqs (px_Action req) "delete" then
    reject (negb (MatchString schemaProxyNamePattern (px_Name req)) || negb (has_suffix (px_Name req) (routeExtension (px_WebServer req)))) "invalid proxy name" >>>
    validateRouteOwner (px_Site req) (px_Domain req) (px_Name req) (ProxyRouteName (px_WebServer req) (px_Site req) (px_Domain req))
  else reject (negb (eqs (px_Action req) "reload")) "unsupported proxy action").

(** The host of a public clone URL: the text up to the first slash after the
    scheme, which the pattern's class excludes. *)
Definition public_host_of (repository : string) : option string :=
  if MatchString gitPublicCloneRepoPattern repository
  then let '(host, _, _) := Cut "/"%char (TrimPrefix repository "https://") in Some host else None.

Definition validateGitRequest (o : option GitRequest) : option error :=
  nilp o "git request is nil" (λ req,
  let act := eqs (gi_Action req) in
  if in_set (gi_Action req) ["delete"; "public"; "generate"] then ValidateSiteName (gi_Site req)
  else if act "verify-key" then None
  else if act "stage-limit" || act "stage-clear" then
    wrap "Git staging site" (ValidateSiteName (gi_Site req)) >>>
    ValidateGitDestination (gi_Destination req) >>>
    wrap "Git staging destination" (argReleasePath 0 (gi_Destination req) [gi_Site req]) >>>
    if act "stage-limit" then
      reject (out_of (gi_MaxStageBytes req) 1 (2 ^ 40)) "Git aggregate staging byte limit is out of range" >>>
      reject (negb (gi_ProjectID req =? 0)) "Git stage-limit must not include a project ID"
    else
      reject (out_of (gi_ProjectID req) 1000000000 1999999999 || negb (gi_MaxStageBytes req =? 0))
        "Git stage-clear requires a valid root-allocated project ID"
  else
    reject (negb (act "clone")) "unsupported Git action" >>>
    ValidateGitRepository (gi_Repository req) >>>
    ValidateGitRef (gi_Ref req) >>>
    ValidateGitDestination (gi_Destination req) >>>
    reject (out_of (gi_MaxFileBytes req) 1 (2 ^ 50)) "Git clone per-file byte limit is out of range" >>>
    reject (out_of (gi_ProjectID req) 1000000000 1999999999 || negb (gi_MaxStageBytes req =? 0))
      "private Git clone requires an active root-allocated project quota ID" >>>
    wrap "clone site" (ValidateSiteName (gi_Site req)) >>>
    wrap "clone destination" (argReleasePath 0 (gi_Destination req) [gi_Site req]) >>>
    let public := public_host_of (gi_Repository req) in
    reject ((negb (MatchString gitCloneRepoPattern (gi_Repository req)) &&
             (bool_decide (public = None) || Contains (gi_Repository req) "..")) ||
            negb (MatchString gitCloneRefPattern (gi_Ref req))) "Git clone requires an SSH or HTTPS .git repository and a plain ref" >>>
    reject (bool_decide (gi_AllowedHosts req = [])) "Git host allowlist is required" >>>
    match public with
    | None => None
    | Some h => reject (negb (existsb (λ host, EqualFold (TrimSpace host) h) (gi_AllowedHosts req)))
                  "repository host is not in the Git host allowlist"
    end).

Definition validateAccountRequest (o : option AccountRequest) : option error :=
  nilp o "account request is required" (λ req,
  let act := eqs (ac_Action req) in
  let no_dir := eqs (ac_Kind req) "" && eqs (ac_Directory req) "" in
  let no_limits := (ac_DiskMB req =? 0) && (ac_Inodes req =? 0) in
  let optional_site := if eqs (ac_Site req) "" then None else ValidateSiteName (ac_Site req) in
  SiteLayout.ValidUnixUser (ac_Account req) >>>
  if act "ensure" then
    optional_site >>> reject (negb (no_dir && no_limits)) "account ensure accepts only an account and the site it is for"
  else if act "delete" || act "quota-clear" then
    reject (negb (eqs (ac_Site req) "" && no_dir && no_limits)) "account action accepts only an account"
  else if act "quota" then
    optional_site >>> reject (negb no_dir) "account quota accepts only an account, the site it is for, and limits" >>>
    reject (out_of (ac_DiskMB req) 64 1048576 || out_of (ac_Inodes req) 1000 1000000000) "account quota is out of range"
  else if act "place" then
    SiteLayout.Validate (SiteLayout.mkPlacement (ac_Site req) (ac_Account req) (ac_Account req) (ac_Kind req) (ac_Directory req)) >>>
    reject (negb no_limits) "site placement does not take quota limits"
  else if act "unplace" then
    ValidateSiteName (ac_Site req) >>> reject (negb (no_dir && no_limits)) "site unplacement accepts only an account and site"
  else Some (EMsg "unsupported account action")).

(** ** Paths of the file manager ([sitefiles.go]) *)

Definition maxPathBytes : Z := 4096.
Definition maxNameBytes : Z := 255.

(** [unicode.IsControl] of some rune: a byte below 0x20, 0x7f, or the encoding of
    U+0080 to U+009F. *)
Fixpoint has_control (l : list ascii) : bool :=
  match l with
  | [] => false
  | c :: l' =>
      (code c <? 32) || (code c =? 127) ||
      ((code c =? 194) && match l' with d :: _ => (128 <=? code d) && (code d <=? 159) | [] => false end) ||
      has_control l'
  end.

Fixpoint check_components (cs : list (list ascii)) : option error :=
  match cs with
  | [] => None
  | c :: rest =>
      reject (bool_decide (c = [] ∨ c = GoPath.dot ∨ c = GoPath.dotdot)) "invalid path" >>>
      reject (maxNameBytes <? Z.of_nat (length c)) "a path component is too long" >>>
      check_components rest
  end.

Definition sitefiles_Clean (path : string) : res string :=
  if eqs path "" || eqs path "." || eqs path "/" then Ok "" else
  let path := TrimPrefix path "/" in
  match reject (maxPathBytes <? len path) "path is too long" >>>
        reject (has_control (bytes_of path)) "path contains a control character" >>>
        check_components (split_bytes GoPath.slash (bytes_of path)) with
  | Some e => Err e
  | None => Ok path
  end.

Definition sitefiles_CleanTarget (path : string) : res string :=
  match sitefiles_Clean path with
  | Err e => Err e
  | Ok c => if eqs c "" then Err (EMsg "the document root itself cannot be changed") else Ok c
  end.

Definition filesReadOnlyActions : list string := ["list"; "read"].

Definition canonical (clean : string → res string) (path msg : string) : option error :=
  check_res (clean path) (λ cleaned, reject (negb (eqs cleaned path)) msg).

Definition validateFilesRequest (o : option FilesRequest) : option error :=
  nilp o "files request is required" (λ req,
  let act := eqs (fi_Action req) in
  ValidateSiteName (fi_Site req) >>>
  wrap "invalid file-operation tenant" (SiteLayout.ValidUnixUser (fi_TenantID req)) >>>
  reject (negb (in_set (fi_Action req) ["list"; "read"; "write"; "mkdir"; "rename"; "delete"])) "unsupported files action" >>>
  canonical (if in_set (fi_Action req) filesReadOnlyActions then sitefiles_Clean else sitefiles_CleanTarget)
    (fi_Path req) "file path is not in canonical form" >>>
  (if act "rename" then canonical sitefiles_CleanTarget (fi_Destination req) "destination path is not in canonical form"
   else reject (negb (eqs (fi_Destination req) "")) "files action does not take a destination") >>>
  (if act "write" then reject (negb (fi_StreamContent req) || negb (fi_ContentReader req)) "file writes require a streamed content body"
   else reject (fi_StreamContent req || fi_ContentReader req) "files action does not take content")).

(** ** wp-cli arguments ([wordpress.go]) *)

Definition maxWordPressValue : Z := 4096.
Definition wordPressThemePattern : re := Cat (Cls alnum) (upto 99 (cls alnum "._-")).
Definition wordPressPluginPattern : re :=
  Cat (Cls alnum) (Cat (upto 99 (cls alnum "._-"))
      (Cat (opt (Cat (lit "/") (Cat (Cls alnum) (upto 99 (cls alnum "._-"))))) (lit ".php"))).
Definition wordPressDBNamePattern : re := rep 1 64 (cls alnum "_").
Definition wordPressDBHostPattern : re := Cat (cls alnum "_.") (upto 254 (cls alnum "_.:/-")).
Definition wordPressDBPrefixPattern : re := rep 1 32 (cls alnum "_").
Definition wordPressAdminUserPattern : re := rep 1 60 (cls alnum "_.-").
Definition wordPressRecoveryNonce : re := exactly 32 (Cls [("a", "f"); ("0", "9")]%char).

Definition wordPressReadOnlyActions : list string :=
  ["status"; "db-check"; "maintenance-status"; "option-get"; "recovery-probe-read"; "config-get"].

Definition validateWordPressURL (value : string) : option error :=
  reject (match url_Parse value with
          | None => true
          | Some u => (maxWordPressValue <? len value) || negb (in_set (u_Scheme u) ["http"; "https"]) ||
                      eqs (u_Host u) "" || ContainsAny value nul_cr_lf
          end) "WordPress URL must be an http or https URL".

Definition validateWordPressSecret (secret : string) : option error :=
  reject (eqs secret "" || (256 <? len secret) || ContainsAny secret nul_cr_lf) "invalid WordPress database password".

(** The arguments, unless a check failed. *)
Definition args_if (e : option error) (args : list string) : res (list string) :=
  match e with Some err => Err err | None => Ok args end.
Definition skip : list string := ["--skip-plugins"; "--skip-themes"].

Definition core_install_error (req : WordPressRequest) : option error :=
  reject (match url_Parse (wp_URL req) with
          | None => true
          | Some u => negb (eqs (u_Scheme u) "https") || negb (DomainName.Valid (u_Hostname u)) || negb (eqs (u_Port u) "") ||
                      u_User u || (negb (eqs (u_Path u) "") && negb (eqs (u_Path u) "/")) ||
                      negb (eqs (u_RawQuery u) "") || negb (eqs (u_Fragment u) "")
          end || ContainsAny (wp_Title req) nul_cr_lf || eqs (TrimSpace (wp_Title req)) "" || (150 <? len (wp_Title req)))
    "invalid WordPress installation URL or title" >>>
  reject (negb (MatchString wordPressAdminUserPattern (wp_AdminUser req))) "invalid WordPress administrator username" >>>
  reject (negb (bool_decide (mail_ParseAddress (wp_AdminEmail req) = Some (wp_AdminEmail req))) || (254 <? len (wp_AdminEmail req)))
    "invalid WordPress administrator email" >>>
  reject ((len (wp_Secret req) <? 20) || (128 <? len (wp_Secret req)) || ContainsAny (wp_Secret req) nul_cr_lf)
    "invalid WordPress administrator password".

Definition option_update (req : WordPressRequest) : res (list string) :=
  let name := eqs (wp_Name req) in
  let plain_args := skip ++ ["option"; "update"; wp_Name req; wp_Value req] in
  if name "home" || name "siteurl" then args_if (validateWordPressURL (wp_Value req)) plain_args
  else if name "template" || name "stylesheet" then
    args_if (reject (negb (MatchString wordPressThemePattern (wp_Value req))) "invalid WordPress theme") plain_args
  else if name "active_plugins" then
    match (if maxWordPressValue <? len (wp_Value req) then None else json_strings (wp_Value req)) with
    | None => Err (EMsg "active plugins must be a JSON array of strings")
    | Some plugins =>
        args_if (reject (existsb (λ p, negb (MatchString wordPressPluginPattern p) || Contains p "..") plugins) "invalid WordPress plugin path")
          (plain_args ++ ["--format=json"])
    end
  else Err (EMsg "unsupported WordPress option").

Definition config_set (req : WordPressRequest) : res (list string) :=
  let name := eqs (wp_Name req) in
  let args := ["config"; "set"; wp_Name req; wp_Value req; "--type=constant"] in
  if name "DB_NAME" || name "DB_USER" then
    args_if (reject (negb (MatchString wordPressDBNamePattern (wp_Value req))) "invalid WordPress database identity") args
  else if name "DB_HOST" then
    args_if (reject (negb (MatchString wordPressDBHostPattern (wp_Value req))) "invalid WordPress database host") args
  else if in_set (wp_Name req) ["DISALLOW_FILE_EDIT"; "FORCE_SSL_ADMIN"; "WP_AUTO_UPDATE_CORE"; "WP_DEBUG"; "WP_DEBUG_DISPLAY"] then
    let want := if name "WP_DEBUG" || name "WP_DEBUG_DISPLAY" then "false" else "true" in
    args_if (reject (negb (eqs (wp_Value req) want)) "WordPress security constant has a fixed value") (args ++ ["--raw"])
  else if name "WP_ENVIRONMENT_TYPE" then
    args_if (reject (negb (eqs (wp_Value req) "production")) "new WordPress sites must use the production environment type") args
  else Err (EMsg "unsupported WordPress configuration constant").

Definition WordPressArgs (o : option WordPressRequest) : res (list string) :=
  match o with
  | None => Err (EMsg "wordpress request is nil")
  | Some req =>
      let act := eqs (wp_Action req) in
      if act "status" then Ok ["core"; "version"; "--format=json"] else
      if act "db-check" then Ok (skip ++ ["db"; "check"]) else
      if act "core-download" then Ok ["core"; "download"] else
      if act "core-install" then
        args_if (core_install_error req)
          [ "core"; "install"; "--url=" +:+ wp_URL req; "--title=" +:+ wp_Title req; "--admin_user=" +:+ wp_AdminUser req;
            "--admin_email=" +:+ wp_AdminEmail req; "--prompt=admin_password"; "--skip-email" ] else
      if act "core-update" then Ok ["core"; "update"] else
      if act "plugin-update-all" then Ok ["plugin"; "update"; "--all"] else
      if act "theme-update-all" then Ok ["theme"; "update"; "--all"] else
      if act "cron-run-due" then Ok ["cron"; "event"; "run"; "--due-now"] else
      if act "maintenance-activate" then Ok (skip ++ ["maintenance-mode"; "activate"]) else
      if act "maintenance-deactivate" then Ok (skip ++ ["maintenance-mode"; "deactivate"]) else
      if act "maintenance-status" then Ok (skip ++ ["maintenance-mode"; "is-active"]) else
      if act "option-get" then
        args_if (reject (negb (in_set (wp_Name req) ["siteurl"; "home"])) "unsupported WordPress option")
          (skip ++ ["option"; "get"; wp_Name req]) else
      if act "recovery-probe-write" then
        args_if (reject (negb (MatchString wordPressRecoveryNonce (wp_Value req))) "invalid recovery transaction nonce")
          (skip ++ ["option"; "update"; "stepanel_recovery_probe"; wp_Value req]) else
      if act "recovery-probe-read" then Ok (skip ++ ["option"; "get"; "stepanel_recovery_probe"]) else
      if act "config-get" then
        args_if (reject (negb (in_set (wp_Name req) ["DB_NAME"; "DB_USER"; "DB_HOST"])) "unsupported WordPress configuration value")
          ["config"; "get"; wp_Name req] else
      if act "option-update" then option_update req else
      if act "search-replace" then
        args_if (validateWordPressURL (wp_Search req) >>> validateWordPressURL (wp_Replace req))
          (skip ++ [ "search-replace"; wp_Search req; wp_Replace req; "--all-tables-with-prefix"; "--precise";
                     "--recurse-objects"; "--skip-columns=guid"; "--quiet" ]) else
      if act "rewrite-flush" then Ok (skip ++ ["rewrite"; "flush"]) else
      if act "cache-flush" then Ok (skip ++ ["cache"; "flush"]) else
      if act "config-create" then
        args_if (reject (negb (MatchString wordPressDBNamePattern (wp_DBName req)) || negb (MatchString wordPressDBNamePattern (wp_DBUser req)) ||
                         (32 <? len (wp_DBUser req))) "invalid WordPress database identity" >>>
                 reject (negb (MatchString wordPressDBHostPattern (wp_DBHost req)) || negb (MatchString wordPressDBPrefixPattern (wp_DBPrefix req)))
                   "invalid WordPress database host or prefix" >>>
                 validateWordPressSecret (wp_Secret req))
          [ "config"; "create"; "--dbname=" +:+ wp_DBName req; "--dbuser=" +:+ wp_DBUser req; "--dbhost=" +:+ wp_DBHost req;
            "--dbprefix=" +:+ wp_DBPrefix req; "--prompt=dbpass"; "--skip-check"; "--skip-salts" ] else
      if act "config-set" then config_set req else
      if act "config-set-password" then
        args_if (validateWordPressSecret (wp_Secret req)) ["config"; "set"; "DB_PASSWORD"; "--type=constant"; "--prompt=value"] else
      Err (EMsg "unsupported WordPress action")
  end.

Definition validateWordPressRequest (o : option WordPressRequest) : option error :=
  nilp o "wordpress request is nil" (λ req,
  wrap "invalid site" (ValidateSiteName (wp_Site req)) >>>
  match WordPressArgs (Some req) with Err e => Some e | Ok _ => None end).

(** ** The whole request *)

Definition ValidateRequest (o : option Request) : option error :=
  nilp o "request is nil" (λ r,
  let ty t := eqs (RequestType r) t in
  if ty "health" then None else
  if ty "site" then validateSiteRequest (rq_Site r) else
  if ty "app" then validateAppRequest (rq_App r) else
  if ty "worker" then validateWorkerRequest (rq_Worker r) else
  if ty "runner" then validateRunnerRequest (rq_Runner r) else
  if ty "db" then validateDBRequest (rq_DB r) else
  if ty "vhost" then validateVhostRequest (rq_Vhost r) else
  if ty "proxy" then validateProxyRequest (rq_Proxy r) else
  if ty "git" then validateGitRequest (rq_Git r) else
  if ty "account" then validateAccountRequest (rq_Account r) else
  if ty "files" then validateFilesRequest (rq_Files r) else
  if ty "certificate" then validateCertificateRequest (rq_Certificate r) else
  if ty "task" then validateTaskRequest (rq_Task r) else
  if ty "environment" then validateEnvironmentRequest (rq_Environment r) else
  if ty "resource" then validateResourceRequest (rq_Resource r) else
  if ty "wordpress" then validateWordPressRequest (rq_WordPress r) else
  Some (EMsg "unknown request type")).

End Validate.

End BrokerValidate.
