(* ===== verification/BrokerValidateProps.v ===== *)
(** * BrokerValidateProps: what a validated request can carry

    Properties of [BrokerValidate]: numeric limits are checked exactly although
    they pass through decimal text; a staging directory belongs to one site; the
    paths of the file manager stay below the document root; and no text of a
    request can become an option of wp-cli. *)
From S2P Require Import Prelude Regex GoText GoPath DBLocks DomainName SiteLayout SafeHTTP BrokerTypes BrokerValidate.

Module BrokerValidateProps.
Import Regex GoText BrokerTypes BrokerValidate.

(** ** Numeric arguments *)

Lemma eqs_false s t : eqs s t = false ↔ s ≠ t.
Proof. apply bool_decide_eq_false. Qed.
Lemma out_of_false v lo hi : out_of v lo hi = false ↔ lo ≤ v ≤ hi.
Proof. unfold out_of. rewrite orb_false_iff, !Z.ltb_ge. lia. Qed.

Lemma len_Itoa n : 0 ≤ n ≤ maxInt64 → len (Itoa n) ≤ 19.
Proof.
  intros Hn. unfold len, Itoa. rewrite (proj2 (Z.ltb_ge n 0)) by lia. rewrite <- length_bytes_of, bytes_of_of.
  pose proof (digits_length 20 n 19). unfold maxInt64 in Hn.
  assert (10 ^ Z.of_nat 19 = 10000000000000000000) by reflexivity. lia.
Qed.

(** An integer printed and checked is accepted exactly in its range. *)
Lemma intRange_Itoa what min max n args :
  0 ≤ min → max ≤ maxInt64 → Z.abs n < 10 ^ 20 →
  intRange what min max (Itoa n) args = None ↔ min ≤ n ≤ max.
Proof.
  intros Hmin Hmax Hn. unfold intRange. rewrite andthen_None, !reject_None, !orb_false_iff, negb_false_iff.
  destruct (decide (0 ≤ n)) as [H0|H0].
  - destruct (Itoa_digits n) as (Hd & Hne & _); [lia|]. rewrite Hd, eqs_false. split.
    + intros [((_ & Hlen) & _) Hp]. destruct (ParseInt (Itoa n)) as [m|] eqn:E; [|done]. apply out_of_false in Hp.
      unfold ParseInt in E. rewrite bool_decide_false, Hd in E by done. cbn in E.
      destruct (Itoa_digits n) as (_ & _ & Hv); [lia|]. rewrite Hv in E. case_if; [done|]. apply (inj Ok) in E as <-. done.
    + intros Hr. rewrite ParseInt_Itoa by lia. rewrite out_of_false. pose proof (len_Itoa n ltac:(lia)).
      repeat split; try done; lia.
  - rewrite Itoa_negative by lia. split; [by intros [(_ & ?) _] | lia].
Qed.

(** The checks on one argument that are not its own. *)
Definition plain_text (arg : string) : Prop := len arg ≤ 4096 ∧ ContainsAny arg nul_cr_lf = false.

Lemma check_args_cons check checks arg rest args :
  check_args (check :: checks) (arg :: rest) args = None ↔
  plain_text arg ∧ check arg args = None ∧ check_args checks rest args = None.
Proof.
  cbn [check_args]. rewrite !andthen_None, reject_None, wrap_None, orb_false_iff, Z.ltb_ge. unfold plain_text. tauto.
Qed.

Lemma not_any (codes : list Z) l : Forall (λ c, code c ∉ codes) l → existsb (λ c, bool_decide (code c ∈ codes)) l = false.
Proof.
  intros H. apply existsb_false_elem. intros c Hc. rewrite Forall_forall in H. by apply bool_decide_eq_false, H.
Qed.

Lemma digits_plain s : all_bytes is_digit s = true → ContainsAny s nul_cr_lf = false.
Proof.
  intros H. apply not_any, Forall_forall. intros c Hc Hin. unfold all_bytes in H. rewrite forallb_forall in H.
  specialize (H c (proj1 (list_elem_of_In _ _) Hc)). unfold is_digit, in_range in H.
  apply andb_true_iff in H as [H _]. apply Z.leb_le in H. change (code "0") with 48 in H.
  unfold nul_cr_lf in Hin. rewrite !elem_of_cons in Hin. destruct Hin as [?|[?|[?|?%not_elem_of_nil]]]; lia || done.
Qed.

Lemma argCount_Itoa n args : Z.abs n < 10 ^ 19 → (plain_text (Itoa n) ∧ argCount (Itoa n) args = None) ↔ 0 ≤ n ≤ 2 ^ 40.
Proof.
  intros Hn. unfold argCount. rewrite intRange_Itoa; [|lia | unfold maxInt64; lia | lia].
  split; [tauto|]. intros Hr. split; [|done]. destruct (Itoa_digits n) as (Hd & _ & _); [lia|].
  split; [pose proof (len_Itoa n); unfold maxInt64 in *; lia | by apply digits_plain].
Qed.

(** The six limits of a resource request. *)
Definition limits (q : ResourceRequest) : list Z :=
  [re_CPUPercent q; re_CPUWeight q; re_MemoryHighMB q; re_MemoryMB q; re_IOWeight q; re_TasksMax q].
Definition fits_int64 (n : Z) : Prop := - 2 ^ 63 ≤ n < 2 ^ 63.

Lemma check_limits ns args :
  Forall fits_int64 ns → check_args (replicate (length ns) argCount) (Itoa <$> ns) args = None ↔ Forall (λ n, 0 ≤ n ≤ 2 ^ 40) ns.
Proof.
  induction 1 as [|n ns Hn Hns IH]; [by split; [constructor|]|].
  cbn [length replicate fmap list_fmap]. rewrite check_args_cons, IH, Forall_cons.
  unfold fits_int64 in Hn. rewrite <- (argCount_Itoa n args) by lia. tauto.
Qed.

Lemma name_plain r s : re_bytes (λ c, negb (bool_decide (code c ∈ nul_cr_lf))) r = true →
  MatchString r s = true → ContainsAny s nul_cr_lf = false.
Proof.
  intros Hr Hm. pose proof (MatchString_bytes _ _ _ Hr Hm) as H. unfold all_bytes in H. rewrite forallb_forall in H.
  apply not_any, Forall_forall. intros c Hc Hin. specialize (H c (proj1 (list_elem_of_In _ _) Hc)).
  by rewrite bool_decide_true in H.
Qed.

Lemma argAccount_plain s args : plain_text s ∧ argAccount s args = None ↔ MatchString schemaSitePattern s = true.
Proof.
  unfold argAccount, matches. rewrite reject_None, negb_false_iff. split; [tauto|]. intros Hm. split; [|done]. split.
  - pose proof (MatchString_len schemaSitePattern s 32 eq_refl Hm). lia.
  - by apply (name_plain schemaSitePattern); [vm_compute|].
Qed.

(** The account-wide limits of a resource request reach the helper exactly when
    the account name is well formed, an accompanying site name is valid, and all
    six limits lie between 0 and 2^40, although the check runs on their decimal
    text. *)
Theorem resource_limits_exact v q :
  re_Action q = "apply-account" → Forall fits_int64 (limits q) →
  validateResourceRequest v (Some q) = None ↔
  (re_Site q = "" ∨ ValidateSiteName (re_Site q) = None) ∧
  MatchString schemaSitePattern (re_Account q) = true ∧ Forall (λ n, 0 ≤ n ≤ 2 ^ 40) (limits q).
Proof.
  intros Ha Hf. unfold validateResourceRequest, nilp. rewrite Ha. change (eqs "apply-account" "apply-account") with true.
  cbn iota. rewrite andthen_None.
  assert ((if eqs (re_Site q) "" then None else ValidateSiteName (re_Site q)) = None ↔
          (re_Site q = "" ∨ ValidateSiteName (re_Site q) = None)) as ->.
  { unfold eqs. case_bool_decide; tauto. }
  apply and_iff_compat_l.
  change (validateFixedCommandArgs v "appctl" "account-resource-apply" (re_Account q :: resource_numbers q)) with
    (check_args (argAccount :: replicate (length (limits q)) argCount) (re_Account q :: (Itoa <$> limits q))
       (re_Account q :: resource_numbers q)).
  rewrite check_args_cons, (check_limits (limits q)) by done.
  rewrite <- (argAccount_plain (re_Account q) (re_Account q :: resource_numbers q)). tauto.
Qed.

(** ** Staging directories *)

Lemma release_pattern_spec site base :
  MatchString (release_pattern site) base = true →
  ∃ ds, bytes_of base = bytes_of ".stepanel-release-" ++ bytes_of site ++ "-"%char :: ds ∧ forallb is_digit ds = true.
Proof.
  rewrite MatchString_spec. unfold release_pattern, lit.
  intros (s1 & t1 & E1 & H1%Matches_lit & (s2 & t2 & E2 & H2%Matches_lit & (s3 & t3 & E3 & H3%Matches_lit & H4)%Matches_cat)%Matches_cat)%Matches_cat.
  subst. exists t3. split; [done|]. assert (re_bytes is_digit (plus digit_class) = true) as Hr by (by vm_compute).
  pose proof (re_bytes_spec _ _ _ Hr H4) as HF. rewrite Forall_forall in HF.
  apply forallb_forall. intros c Hc. apply HF. by apply list_elem_of_In.
Qed.

(** A release staging directory is bound to one site: no path is accepted as a
    staging directory of two different sites, in particular not the one of site
    [blog-2] for site [blog]. *)
Theorem release_path_one_site v value site1 site2 :
  argReleasePath v 0 value [site1] = None → argReleasePath v 0 value [site2] = None → site1 = site2.
Proof.
  assert (∀ site, argReleasePath v 0 value [site] = None → MatchString (release_pattern site) (GoPath.Base value) = true) as Hr.
  { intros site. unfold argReleasePath. cbn [arg_at lookup list_lookup default from_option id].
    unfold check_res. destruct (siteStageRoot v site); [|done].
    rewrite reject_None, !orb_false_iff, !negb_false_iff. tauto. }
  intros (d1 & E1 & D1)%Hr%release_pattern_spec (d2 & E2 & D2)%Hr%release_pattern_spec.
  rewrite E1 in E2. apply app_inv_head in E2. apply (inj bytes_of).
  assert (∀ ds, forallb is_digit ds = true → "-"%char ∉ ds) as Hno.
  { intros ds Hd Hin. rewrite forallb_forall in Hd. by specialize (Hd _ (proj1 (list_elem_of_In _ _) Hin)). }
  by eapply app_sep_inj; [exact E2 | apply Hno | apply Hno].
Qed.

(** ** Paths of the file manager *)

Lemma check_components_plain cs :
  check_components cs = None → Forall (λ c, GoPath.slash ∉ c) cs → Forall GoPath.plain cs.
Proof.
  induction cs as [|c cs IH]; [constructor|]. cbn [check_components]. rewrite !andthen_None, !reject_None.
  intros (Hc & _ & Hcs) [Hs Hss]%Forall_cons. apply bool_decide_eq_false in Hc. constructor; [|auto].
  unfold GoPath.plain. tauto.
Qed.

(** A canonical path is empty or a sequence of plain names. *)
Lemma Clean_canonical path :
  sitefiles_Clean path = Ok path → path = "" ∨ ∃ cs, cs ≠ [] ∧ Forall GoPath.plain cs ∧ path = GoPath.path_of cs.
Proof.
  intros Hp. destruct (decide (path = "")) as [->|Hne]; [by left|right]. unfold sitefiles_Clean in Hp.
  case_if; [apply (inj Ok) in Hp; congruence|].
  destruct (reject _ _ >>> _) eqn:E; [done|]. apply (inj Ok) in Hp. rewrite Hp in E.
  apply andthen_None in E as [_ [_ E]%andthen_None].
  exists (split_bytes GoPath.slash (bytes_of path)). split; [apply GoPath.split_bytes_nonempty|].
  split; [apply check_components_plain; [done | apply GoPath.split_bytes_no_sep]|].
  unfold GoPath.path_of. by rewrite GoPath.join_split, of_bytes_of.
Qed.

(** A path of a file request names a file strictly below the document root: joined to
    the root it is that root followed by one or more plain names. *)
Definition below (root : list (list ascii)) (path : string) : Prop :=
  ∃ cs, cs ≠ [] ∧ Forall GoPath.plain cs ∧ GoPath.Join [GoPath.abs_path root; path] = GoPath.abs_path (root ++ cs).

Lemma canonical_Clean path msg : canonical sitefiles_Clean path msg = None → sitefiles_Clean path = Ok path.
Proof.
  unfold canonical, check_res. destruct (sitefiles_Clean path) as [c|] eqn:E; [|done].
  by intros ->%reject_None%negb_false_iff%bool_decide_eq_true.
Qed.
Lemma canonical_CleanTarget path msg :
  canonical sitefiles_CleanTarget path msg = None → sitefiles_Clean path = Ok path ∧ path ≠ "".
Proof.
  unfold canonical, check_res, sitefiles_CleanTarget. destruct (sitefiles_Clean path) as [c|] eqn:E; [|done].
  destruct (eqs c "") eqn:Ec; [done|]. intros ->%reject_None%negb_false_iff%bool_decide_eq_true.
  split; [done|]. by apply bool_decide_eq_false in Ec.
Qed.
Lemma clean_below root path : root ≠ [] → Forall GoPath.plain root → sitefiles_Clean path = Ok path → path ≠ "" → below root path.
Proof.
  intros Hn Hr Hc Hp. destruct (Clean_canonical _ Hc) as [E|(cs & Hcs & Hpl & Hpath)]; [done|].
  exists cs. split; [done|]. split; [done|]. rewrite Hpath. by apply GoPath.Join_path.
Qed.

(** C22: file operations stay below the document root. Every path of a validated file
    request, joined to any absolute document root, is that root followed by plain
    names, so no [..], no empty name and no absolute path survives validation: the path
    of an operation that changes something and the destination of a rename are strictly
    below the root, a listing or a read may also name the root itself, and no other
    action takes a destination. *)
Theorem files_mutation_confined q root :
  validateFilesRequest (Some q) = None → root ≠ [] → Forall GoPath.plain root →
  (if bool_decide (fi_Action q ∈ filesReadOnlyActions) then fi_Path q = "" ∨ below root (fi_Path q) else below root (fi_Path q)) ∧
  (if bool_decide (fi_Action q = "rename") then below root (fi_Destination q) else fi_Destination q = "").
Proof.
  unfold validateFilesRequest, nilp. rewrite !andthen_None. intros (_ & _ & _ & Hp & Hd & _) Hn Hr. split.
  - unfold in_set in Hp. case_bool_decide.
    + apply canonical_Clean in Hp. destruct (decide (fi_Path q = "")); [by left|right]. by apply clean_below.
    + apply canonical_CleanTarget in Hp as [Hc Hne]. by apply clean_below.
  - unfold eqs in Hd. case_bool_decide.
    + apply canonical_CleanTarget in Hd as [Hc Hne]. by apply clean_below.
    + by apply reject_None, negb_false_iff, bool_decide_eq_true in Hd.
Qed.

(** ** wp-cli options *)

(** The options the broker itself passes, and the fixed names whose values come
    from the request. *)
Definition fixed_options : list string :=
  [ "--skip-plugins"; "--skip-themes"; "--format=json"; "--prompt=admin_password"; "--skip-email"; "--all"; "--due-now";
    "--all-tables-with-prefix"; "--precise"; "--recurse-objects"; "--skip-columns=guid"; "--quiet"; "--prompt=dbpass";
    "--skip-check"; "--skip-salts"; "--type=constant"; "--raw"; "--prompt=value" ].
Definition valued_options : list string :=
  ["--url="; "--title="; "--admin_user="; "--admin_email="; "--dbname="; "--dbuser="; "--dbhost="; "--dbprefix="].

(** An argument that cannot be an option of the caller's choosing. *)
Definition harmless (arg : string) : bool :=
  in_set arg fixed_options || existsb (has_prefix arg) valued_options || negb (has_prefix arg "-").

Lemma head_harmless arg : head (bytes_of arg) ≠ Some "-"%char → harmless arg = true.
Proof.
  intros Hh. unfold harmless. assert (has_prefix arg "-" = false) as ->; [|by rewrite orb_true_r].
  unfold has_prefix. destruct (bytes_of arg) as [|c l]; [done|]. cbn. case_decide; [|done]. by subst.
Qed.

Lemma pattern_harmless r s : deriv "-"%char r = Never → MatchString r s = true → harmless s = true.
Proof. intros Hd Hm. apply head_harmless. by apply (MatchString_head r). Qed.

Lemma lower_minus c : lower_byte c = "-"%char → c = "-"%char.
Proof. destruct c as [[][][][][][][][]]; vm_compute; congruence. Qed.

Lemma url_harmless `{NetTextLaws} s : validateWordPressURL s = None → harmless s = true.
Proof.
  unfold validateWordPressURL. rewrite reject_None. destruct (SafeHTTP.url_Parse s) as [u|] eqn:E; [|done].
  rewrite !orb_false_iff, negb_false_iff. intros [[[_ Hs] _] _]. apply bool_decide_eq_true in Hs.
  apply head_harmless. intros Hh.
  destruct (url_Parse_scheme _ _ E) as [rest Hr].
  { intros Es. rewrite Es in Hs. set_solver. }
  apply (f_equal bytes_of) in Hr. unfold lower_ascii in Hr. rewrite bytes_of_of, !bytes_of_app in Hr.
  destruct (bytes_of s) as [|c l]; [done|]. injection Hh as ->. cbn in Hr.
  rewrite !elem_of_cons in Hs. destruct Hs as [Hs|[Hs|Hs%not_elem_of_nil]]; [rewrite Hs in Hr..|done]; by vm_compute in Hr.
Qed.

Lemma args_if_Ok e l args : args_if e l = Ok args → e = None ∧ args = l.
Proof. destruct e; cbn; [done|]. intros E. by apply (inj Ok) in E as <-. Qed.

Lemma valued_harmless p x : in_set p valued_options = true → harmless (p +:+ x) = true.
Proof.
  intros Hp%bool_decide_eq_true. unfold harmless. apply orb_true_iff. left. apply orb_true_iff. right.
  apply existsb_exists_elem. exists p. split; [done|]. apply has_prefix_iff. by exists x.
Qed.

Lemma set_harmless s l : forallb harmless l = true → in_set s l = true → harmless s = true.
Proof.
  intros Hl Hs%bool_decide_eq_true. rewrite forallb_forall in Hl. apply Hl. by apply list_elem_of_In.
Qed.

Lemma eqs_harmless s t : harmless t = true → eqs s t = true → harmless s = true.
Proof. by intros Ht ->%bool_decide_eq_true. Qed.

(** Decides the elements of a concrete argument list. *)
Ltac wp_arg :=
  first [ reflexivity
        | apply valued_harmless; reflexivity
        | eassumption ].
Ltac wp_args := repeat (first [apply Forall_nil_2 | apply Forall_cons_2; [wp_arg|]]).

Lemma config_set_harmless req args : config_set req = Ok args → Forall (λ a, harmless a = true) args.
Proof.
  unfold config_set. cbn zeta. case_if; [|case_if; [|case_if; [|case_if; [|done]]]];
    intros [Hv ->]%args_if_Ok; apply reject_None, negb_false_iff in Hv.
  - assert (harmless (wp_Name req) = true) by (apply orb_true_iff in Heqb as [E|E]; by eapply eqs_harmless; [|exact E]).
    assert (harmless (wp_Value req) = true) by (by apply (pattern_harmless wordPressDBNamePattern)). wp_args.
  - assert (harmless (wp_Name req) = true) by (by eapply eqs_harmless; [|exact Heqb0]).
    assert (harmless (wp_Value req) = true) by (by apply (pattern_harmless wordPressDBHostPattern)). wp_args.
  - assert (harmless (wp_Name req) = true) by (by eapply set_harmless; [|exact Heqb1]).
    assert (harmless (wp_Value req) = true) by (eapply eqs_harmless; [|exact Hv]; by case_if). wp_args.
  - assert (harmless (wp_Name req) = true) by (by eapply eqs_harmless; [|exact Heqb2]).
    assert (harmless (wp_Value req) = true) by (by eapply eqs_harmless; [|exact Hv]). wp_args.
Qed.

Lemma option_update_harmless `{NetTextLaws} req args : option_update req = Ok args → Forall (λ a, harmless a = true) args.
Proof.
  unfold option_update. cbn zeta. case_if; [|case_if; [|case_if; [|done]]].
  - intros [Hv%url_harmless ->]%args_if_Ok.
    assert (harmless (wp_Name req) = true) by (apply orb_true_iff in Heqb as [E|E]; by eapply eqs_harmless; [|exact E]). wp_args.
  - intros [Hv ->]%args_if_Ok. apply reject_None, negb_false_iff in Hv.
    assert (harmless (wp_Name req) = true) by (apply orb_true_iff in Heqb0 as [E|E]; by eapply eqs_harmless; [|exact E]).
    assert (harmless (wp_Value req) = true) by (by apply (pattern_harmless wordPressThemePattern)). wp_args.
  - case_if; [done|]. destruct (SafeHTTP.json_strings (wp_Value req)) as [plugins|] eqn:E; [|done]. intros [Hv ->]%args_if_Ok.
    assert (harmless (wp_Name req) = true) by (by eapply eqs_harmless; [|exact Heqb1]).
    assert (harmless (wp_Value req) = true).
    { unfold harmless. rewrite (json_strings_head _ _ E). by rewrite orb_true_r. }
    wp_args.
Qed.

(** No option injection: whatever a WordPress request carries, every argument
    built for wp-cli that begins with a dash is one of the broker's own options or
    carries the request's text as the value of one of eight named ones. *)
Theorem wordpress_args_harmless `{NetTextLaws} req args :
  WordPressArgs (Some req) = Ok args → Forall (λ a, harmless a = true) args.
Proof.
  unfold WordPressArgs. cbn zeta.
  repeat match goal with |- (if eqs _ _ then _ else _) = _ → _ => case_if end;
    try (by apply option_update_harmless); try (by apply config_set_harmless); try done;
    try (intros E; apply (inj Ok) in E as <-; by wp_args);
    intros [Hv ->]%args_if_Ok; rewrite ?andthen_None, ?reject_None, ?negb_false_iff in Hv; try (by wp_args).
  - assert (harmless (wp_Name req) = true) by (by eapply set_harmless; [|exact Hv]). wp_args.
  - assert (harmless (wp_Value req) = true) by (by apply (pattern_harmless wordPressRecoveryNonce)). wp_args.
  - assert (harmless (wp_Name req) = true) by (by eapply set_harmless; [|exact Hv]). wp_args.
  - destruct Hv as [H1%url_harmless H2%url_harmless]. wp_args.
Qed.

(** ** Witnesses *)

(** A parser that knows [https] URLs only, and no JSON. *)
#[export] Instance https_net : SafeHTTP.NetText := {|
  SafeHTTP.url_Parse s := if has_prefix s "https://" then Some (SafeHTTP.mkURL "https" s s "" false "" "" "" "") else None;
  SafeHTTP.url_ParseRequestURI _ := None;
  SafeHTTP.mail_ParseAddress := Some;
  SafeHTTP.json_strings _ := None;
  SafeHTTP.ParseAddr _ := None;
  SafeHTTP.ParseAddrPort _ := None;
  SafeHTTP.net_ParseIP _ := None |}.

#[export] Instance https_laws : NetTextLaws.
Proof.
  split; [|done]. intros s u. cbn. destruct (has_prefix s "https://") eqn:E; [|done]. intros [= <-] _.
  apply has_prefix_iff in E as [r ->]. exists ("//" +:+ lower_ascii r). cbn. apply (inj bytes_of).
  unfold lower_ascii. rewrite bytes_of_of, !bytes_of_app, bytes_of_of, fmap_app. done.
Qed.

Definition bare_validator : Validator := mkValidator "/srv/stepanel" "/home" None (λ _, NotExist) (Some "/").

Lemma resource_limits_exact_witness :
  let q := mkResourceRequest "apply-account" "" "alice" 200 100 512 1024 50 400 in
  validateResourceRequest bare_validator (Some q) = None ∧
  validateResourceRequest bare_validator (Some (mkResourceRequest "apply-account" "" "alice" (-1) 100 512 1024 50 400)) ≠ None.
Proof.
  intros q. split; [|vm_compute; discriminate].
  apply (resource_limits_exact bare_validator q); [reflexivity | repeat constructor; vm_compute; (discriminate || reflexivity) |].
  split; [by left|]. split; [vm_compute; reflexivity|]. repeat constructor; vm_compute; discriminate.
Defined.

Lemma release_path_one_site_witness :
  let path := "/srv/stepanel/sites/.stepanel-manager-staging/.stepanel-release-blog-2-171" in
  argReleasePath bare_validator 0 path ["blog-2"] = None ∧ argReleasePath bare_validator 0 path ["blog"] ≠ None ∧ "blog-2" = "blog-2".
Proof.
  intros path. assert (argReleasePath bare_validator 0 path ["blog-2"] = None) as E by (vm_compute; reflexivity).
  split; [exact E|]. split; [vm_compute; discriminate|].
  apply (release_path_one_site bare_validator path "blog-2" "blog-2"); exact E.
Defined.

Lemma files_mutation_confined_witness :
  below [bytes_of "srv"] "css/site.css" ∧ below [bytes_of "srv"] "css/old.css".
Proof.
  apply (files_mutation_confined (mkFilesRequest "rename" "blog" "alice" "css/site.css" "css/old.css" false false) [bytes_of "srv"]);
    [vm_compute; reflexivity | done |].
  rewrite Forall_cons, Forall_nil. split; [by apply GoPath.plainb_plain | done].
Defined.

Lemma wordpress_args_harmless_witness :
  Forall (λ a, harmless a = true) (skip ++ ["option"; "update"; "home"; "https://example.org"]).
Proof.
  apply (wordpress_args_harmless
    (mkWordPressRequest "option-update" "blog" "home" "https://example.org" "" "" "" "" "" "" "" "" "" "" "")).
  vm_compute. reflexivity.
Defined.

End BrokerValidateProps.
