(* ===== verification/BrokerFenceProps.v ===== *)
(** * BrokerFenceProps: what a lease can admit

    Properties of [BrokerFence]: the lease keys that admit a request, read off the
    placements and the database registry alone; that admission never dereferences
    a missing payload; the records of the registry; and the watchdog. *)
From S2P Require Import Prelude Regex GoText GoPath DBLocks DomainName SiteLayout SafeHTTP BrokerTypes BrokerValidate BrokerFence.

Module BrokerFenceProps.
Import Regex GoText BrokerTypes BrokerValidate BrokerFence.

(** [case_if] with a name for the test. *)
Tactic Notation "case_if_as" ident(E) :=
  match goal with
  | |- context [if ?b then _ else _] => lazymatch type of b with bool => destruct b eqn:E end
  | H : context [if ?b then _ else _] |- _ => lazymatch type of b with bool => destruct b eqn:E end
  end.

(** ** The policy, without the code *)

(** The recorded placement of a site. *)
Definition placed (b : Broker) (site : string) (p : SiteLayout.Placement) : Prop :=
  ∃ d t row, b_fencingDB b = Some (d, t) ∧ SiteLayout.site_placements d !! site = Some row ∧
             p = SiteLayout.of_row site row.

(** The lease keys of a site: its own name, and the two names of its account. *)
Definition site_key (b : Broker) (site k : string) : Prop :=
  k = site ∨ ∃ p, placed b site p ∧ k ∈ ["account:" +:+ SiteLayout.Account p; SiteLayout.Account p].

(** The site a request works on, for the requests that always name one. *)
Definition target_site (r : Request) : option string :=
  let ty t := eqs (RequestType r) t in
  if ty "site" then st_Site <$> rq_Site r else
  if ty "app" then ap_Site <$> rq_App r else
  if ty "worker" then wk_Site <$> rq_Worker r else
  if ty "runner" then ru_Site <$> rq_Runner r else
  if ty "environment" then en_Site <$> rq_Environment r else
  if ty "task" then ta_Site <$> rq_Task r else
  if ty "wordpress" then wp_Site <$> rq_WordPress r else
  if ty "files" then fi_Site <$> rq_Files r else
  if ty "git" then gi_Site <$> rq_Git r else None.

(** The row of a token is in the lease table, with the broker's margin left. *)
Definition live (b : Broker) (now : Z) (tok : DBLocks.FencingToken) : Prop :=
  ∃ d t row, b_fencingDB b = Some (d, t) ∧ t !! DBLocks.TokenKey tok = Some row ∧
    DBLocks.owner_id row = DBLocks.TokenOwner tok ∧ DBLocks.generation row = DBLocks.TokenGeneration tok ∧
    now + b_margin b < DBLocks.lease_until row.

(** ** Scopes *)

Lemma keys_add ks s k : k ∈ keys (add ks s) ↔ k ∈ keys s ∨ (k ∈ ks ∧ k ≠ "").
Proof.
  unfold add. cbn. rewrite elem_of_union, elem_of_list_to_set, list_elem_of_filter. tauto.
Qed.
Lemma keys_target d s : keys (target d s) = keys s.
Proof. done. Qed.

Lemma Get_placed e d t b site p :
  b_fencingDB b = Some (d, t) → SiteLayout.Get e site d = Ok p → placed b site p.
Proof.
  intros Hb. unfold SiteLayout.Get. case_if; [done|].
  destruct (SiteLayout.site_placements d !! site) as [row|] eqn:E; [|done].
  destruct (SiteLayout.Validate _); [done|]. intros H. apply (inj Ok) in H as <-. by exists d, t, row.
Qed.

Lemma sitePlacement_placed e n b site p : b_sitePlacement e n b site = Ok p → placed b site p.
Proof.
  unfold b_sitePlacement. destruct (b_fencingDB b) as [[d t]|] eqn:Hb; [|done].
  destruct (SiteLayout.Get (after e n) site d) as [p'|err] eqn:Hg.
  - intros H. apply (inj Ok) in H as <-. by eapply Get_placed.
  - by case_if.
Qed.

Lemma addSiteScope_keys e n b site s s' k :
  addSiteScope e n b site s = Ok s' → k ∈ keys s' → k ∈ keys s ∨ (k ≠ "" ∧ site_key b site k).
Proof.
  unfold addSiteScope. destruct (b_sitePlacement e n b site) as [p|err] eqn:Hp.
  - intros H. apply (inj Ok) in H as <-. rewrite keys_add, keys_target, keys_add.
    intros [[?|[Hk Hne]]|[Hk Hne]]; [by left|right|right]; split; try done.
    + left. set_solver.
    + right. exists p. split; [by eapply sitePlacement_placed | done].
  - case_if; [|done]. intros H. apply (inj Ok) in H as <-. rewrite keys_target, keys_add.
    intros [?|[Hk Hne]]; [by left|right]. split; [done|]. left. set_solver.
Qed.

Lemma addSite_keys e b site s s' k :
  addSite e b site s = Ok s' → k ∈ keys s' → k ∈ keys s ∨ (k ≠ "" ∧ site_key b site k).
Proof.
  unfold addSite. case_if; [intros H; apply (inj Ok) in H as <-; auto | apply addSiteScope_keys].
Qed.

Lemma fmap_Some_inv {A B} (f : A → B) (o : option A) y :
  f <$> o = Some y → ∃ x, o = Some x ∧ f x = y.
Proof. destruct o; cbn; [intros [= <-]; eauto | done]. Qed.

(** A request that always names a site has exactly that site's scope. *)
Lemma target_site_scope e b r s :
  target_site r = Some s → fencingScopeFor e b r = Some (addSite e b s no_scope).
Proof.
  unfold target_site, fencingScopeFor.
  repeat (case_if; [intros (q & -> & <-)%fmap_Some_inv; done|]). done.
Qed.

Lemma covers_spec s tokens :
  covers s tokens = true → ∃ i tok, tokens !! i = Some tok ∧ DBLocks.TokenKey tok ∈ keys s.
Proof.
  intros (tok & [i Hi]%list_elem_of_lookup & Hk%bool_decide_eq_true)%existsb_exists_elem. eauto.
Qed.

(** ** Verification of the tokens *)

Lemma verify_live e d t b tok :
  b_fencingDB b = Some (d, t) →
  DBLocks.VerifyFencingTokenWithin e tok (b_margin b) t = None → live b (clock e 0) tok.
Proof.
  intros Hb. unfold DBLocks.VerifyFencingTokenWithin. do 2 (case_if; [done|]).
  destruct (t !! DBLocks.TokenKey tok) as [row|] eqn:E; [|done]. case_if; [|done]. intros _.
  unfold DBLocks.matches in Heqb2. apply andb_true_iff in Heqb2 as [[H1 H2]%andb_true_iff H3].
  exists d, t, row. apply bool_decide_eq_true in H1. apply Z.eqb_eq in H2. apply Z.ltb_lt in H3. done.
Qed.

Lemma verify_all_live es d t b tokens i tok :
  b_fencingDB b = Some (d, t) → verify_all es b t tokens = None → tokens !! i = Some tok →
  live b (clock (default (calm 0 "") (es !! i)) 0) tok.
Proof.
  intros Hb. revert es i. induction tokens as [|x l IH]; intros es i; [done|].
  cbn [verify_all]. rewrite andthen_None. intros [H1 H2] Hi. destruct i as [|i].
  - injection Hi as ->. rewrite <- head_lookup. by eapply verify_live.
  - specialize (IH (tail es) i H2 Hi). destruct es; [by rewrite lookup_nil in IH |- * | done].
Qed.

(** Everything a dispatched mutation went through. *)
Lemma Execute_dispatched `{SafeHTTP.NetText} es e b r :
  Execute es e b (Some r) = Dispatched true →
  ValidateRequest (b_validator b) (Some r) = None ∧
  conflicting ∅ (Fencing r) = false ∧
  ∃ d t scope, b_fencingDB b = Some (d, t) ∧ verify_all es b t (Fencing r) = None ∧
    fencingScopeFor e b r = Some (Ok scope) ∧ covers scope (Fencing r) = true.
Proof.
  unfold Execute. destruct (ValidateRequest (b_validator b) (Some r)); [done|].
  destruct (b_fencingDB b) as [[d t]|]; [|done]. do 2 (case_if; [done|]).
  destruct (verify_all es b t (Fencing r)) eqn:Hv; [done|]. unfold checkFencingScope.
  destruct (conflicting ∅ (Fencing r)) eqn:Hc; [done|].
  destruct (fencingScopeFor e b r) as [[scope|err]|] eqn:Hs; [|done|done].
  destruct (reject _ _ >>> _) eqn:Hk; [done|]. intros _. apply andthen_None in Hk as [_ Hk%reject_None].
  apply negb_false_iff in Hk. split; [done|]. split; [done|]. by exists d, t, scope.
Qed.

(** The covering token of a dispatched mutation is live. *)
Lemma Execute_token es b r scope d t :
  b_fencingDB b = Some (d, t) → verify_all es b t (Fencing r) = None → covers scope (Fencing r) = true →
  ∃ i tok, Fencing r !! i = Some tok ∧ DBLocks.TokenKey tok ∈ keys scope ∧
    live b (clock (default (calm 0 "") (es !! i)) 0) tok.
Proof.
  intros Hb Hv (i & tok & Hi & Hk)%covers_spec. exists i, tok. split; [done|]. split; [done|].
  by eapply verify_all_live.
Qed.

(** ** No panic *)

(** A validated request carries the payload of its type. *)
Lemma eqs_true s t : eqs s t = true ↔ s = t.
Proof. apply bool_decide_eq_true. Qed.

Ltac by_type Hv :=
  match goal with
  | E : eqs (RequestType ?r) _ = true |- _ =>
      apply eqs_true in E; unfold ValidateRequest, nilp in Hv; cbn zeta in Hv; rewrite E in Hv;
      repeat match type of Hv with
             | context [if eqs ?a ?b then _ else _] =>
                 let x := eval vm_compute in (eqs a b) in change (eqs a b) with x in Hv; cbn iota in Hv
             end
  end.

Lemma validated_scope `{SafeHTTP.NetText} e b v r :
  ValidateRequest v (Some r) = None → fencingScopeFor e b r ≠ None.
Proof.
  intros Hv. unfold fencingScopeFor.
  repeat (case_if; [by_type Hv; match goal with |- context [_ <$> ?o] => by destruct o end |]). done.
Qed.

(** ** Properties of admission *)

(** C21: the broker never dereferences a missing payload on its way to dispatch:
    whatever request arrives, with whatever tokens, table and failures, the verdict
    is a refusal or a dispatch. *)
Theorem Execute_never_panics `{SafeHTTP.NetText} es e b o : Execute es e b o ≠ Panic.
Proof.
  unfold Execute. destruct (ValidateRequest (b_validator b) o) eqn:Hv; [done|].
  destruct (b_fencingDB b) as [[d t]|]; [|done]. destruct o as [r|]; [|done].
  do 2 (case_if; [done|]). destruct (verify_all _ _ _ _); [done|]. unfold checkFencingScope. case_if; [done|].
  pose proof (validated_scope e b _ _ Hv). destruct (fencingScopeFor e b r) as [[scope|err]|]; try done.
  by destruct (reject _ _ >>> _).
Qed.

(** The lease keys that may admit an operation on a named database: the database's
    own, those of the site the registry records as its owner, and, for a database
    without an owner, those of the site named by an action that creates it or
    compensates its creation. *)
Definition database_key (b : Broker) (db : DBRequest) (k : string) : Prop :=
  k = "database:" +:+ db_Database db ∨
  (∃ owner, databaseRegistrySite b (db_Database db) = Ok owner ∧ owner ≠ "" ∧
     (db_Site db = "" ∨ db_Site db = owner) ∧ site_key b owner k) ∨
  (databaseRegistrySite b (db_Database db) = Ok "" ∧
     db_Action db ∈ "drop-managed" :: databaseCreatingActions ∧ site_key b (db_Site db) k).

Lemma db_scope_keys e b db scope k :
  db_scope e b db = Ok scope → db_Action db ≠ "reconcile" → db_SessionID db = "" → db_Database db ≠ "" →
  k ∈ keys scope → database_key b db k.
Proof.
  unfold db_scope, database_key. intros Hs Ha Hi Hd Hk. revert Hs.
  unfold eqs at 1 2 3. rewrite (bool_decide_false _ Ha), (bool_decide_true _ Hi), (bool_decide_false _ Hd). cbn [negb].
  set (s0 := target _ _). assert (Hs0 : k ∈ keys s0 → k = "database:" +:+ db_Database db).
  { unfold s0. rewrite keys_target, keys_add. cbn. set_solver. }
  destruct (databaseRegistrySite b (db_Database db)) as [owner|err]; [|done].
  destruct (eqs owner "") eqn:Eo; cbn [negb andb].
  - apply eqs_true in Eo as ->. case_if; [|case_if].
    + intros Hs. destruct (addSite_keys _ _ _ _ _ _ Hs Hk) as [?|[_ ?]]; [auto|].
      right; right. apply bool_decide_eq_true in Heqb0. split; [done|]. split; [set_solver | done].
    + intros Hs. destruct (addSite_keys _ _ _ _ _ _ Hs Hk) as [?|[_ ?]]; [auto|].
      right; right. apply andb_true_iff in Heqb1 as [->%eqs_true _]. split; [done|]. split; [set_solver | done].
    + intros Hok. apply (inj Ok) in Hok as <-. auto.
  - case_if; [done|]. intros Hs. destruct (addSite_keys _ _ _ _ _ _ Hs Hk) as [?|[_ ?]]; [auto|].
    right; left. exists owner. apply bool_decide_eq_false in Eo. split; [done|]. split; [done|]. split; [|done].
    apply andb_false_iff in Heqb0 as [Es|Es]; apply negb_false_iff, eqs_true in Es; auto.
Qed.

(** A mutation of a named database is dispatched only under a live lease on the
    database or on its recorded owner site; the request's own site field admits it
    only when it agrees with the registry, or when no owner is recorded and the
    action is one that creates the database for that site (or undoes this). *)
Theorem database_mutation_fenced `{SafeHTTP.NetText} es e b r db :
  Execute es e b (Some r) = Dispatched true → RequestType r = "db" → rq_DB r = Some db →
  db_Action db ≠ "reconcile" → db_SessionID db = "" → db_Database db ≠ "" →
  ∃ i tok, Fencing r !! i = Some tok ∧ database_key b db (DBLocks.TokenKey tok) ∧
    live b (clock (default (calm 0 "") (es !! i)) 0) tok.
Proof.
  intros (_ & _ & d & t & scope & Hb & Hv & Hs & Hc)%Execute_dispatched Ht Hdb Ha Hi Hd.
  unfold fencingScopeFor in Hs. rewrite Ht, Hdb in Hs. injection Hs as Hs.
  destruct (Execute_token _ _ _ _ _ _ Hb Hv Hc) as (i & tok & Htok & Hk & Hl).
  exists i, tok. split; [done|]. split; [by eapply db_scope_keys | done].
Qed.

(** ** Every mutation is fenced *)

(** The requests that change nothing. *)
Definition read_only : list (string * list string) := [
  ("site", ["fpm-status"; "certificate-status"]);
  ("db", ["inventory"; "dump"; "diagnostics"; "sessions"; "settings"]);
  ("git", ["verify-key"]); ("task", ["history"]); ("resource", ["status"]);
  ("wordpress", ["status"; "db-check"; "maintenance-status"; "option-get"; "recovery-probe-read"; "config-get"]);
  ("files", ["list"; "read"])].
Definition only_reads (r : Request) : Prop :=
  RequestType r = "health" ∨
  ∃ actions action, assoc (RequestType r) read_only = Some actions ∧ request_action r = Some action ∧ action ∈ actions.

(** The lease keys of a request about an account: the two names of the account, and
    those of the named site if it is placed in that account, or, where this is allowed,
    is not placed anywhere. *)
Definition unplaced (b : Broker) (site : string) : Prop :=
  ∃ d t, b_fencingDB b = Some (d, t) ∧ SiteLayout.site_placements d !! site = None.
Definition account_key (b : Broker) (account site : string) (allowUnplaced : bool) (k : string) : Prop :=
  k = "account:" +:+ account ∨ k = account ∨
  site_key b site k ∧ ((∃ p, placed b site p ∧ SiteLayout.Account p = account) ∨ allowUnplaced = true ∧ unplaced b site).

Definition db_key (b : Broker) (q : DBRequest) (k : string) : Prop :=
  if eqs (db_Action q) "reconcile" then k = "database:reconcile"
  else if negb (eqs (db_SessionID q) "") then k = "database:session:" +:+ db_SessionID q
  else if negb (eqs (db_Database q) "") then database_key b q k
  else site_key b (db_Site q) k.

(** The lease keys that may admit a request, for every type. *)
Definition lease_key (b : Broker) (r : Request) (k : string) : Prop :=
  (∃ s, target_site r = Some s ∧ site_key b s k) ∨
  (∃ q, RequestType r = "db" ∧ rq_DB r = Some q ∧ db_key b q k) ∨
  (∃ q, RequestType r = "vhost" ∧ rq_Vhost r = Some q ∧
     (site_key b (vh_Site q) k ∨ vh_Action q = "delete" ∧ k = "vhost:" +:+ vh_Name q)) ∨
  (∃ q, RequestType r = "proxy" ∧ rq_Proxy r = Some q ∧
     (site_key b (px_Site q) k ∨ px_Action q = "delete" ∧ k = "proxy:" +:+ px_Name q ∨ px_Action q = "reload" ∧ k = "proxy:reload")) ∨
  (∃ q, RequestType r = "account" ∧ rq_Account r = Some q ∧ account_key b (ac_Account q) (ac_Site q) (eqs (ac_Action q) "ensure") k) ∨
  (∃ q, RequestType r = "resource" ∧ rq_Resource r = Some q ∧
     (re_Action q = "apply-account" ∧ account_key b (re_Account q) (re_Site q) false k ∨
      re_Action q ≠ "apply-account" ∧ site_key b (re_Site q) k)) ∨
  (∃ q, RequestType r = "certificate" ∧ rq_Certificate r = Some q ∧ k = "certificate:" +:+ lower_ascii (ce_Domain q)).

Lemma add_key k ks s : k ∈ keys (add ks s) → keys s = ∅ → k ∈ ks.
Proof. rewrite keys_add. intros [Hk|[? _]] Hs; [rewrite Hs in Hk; set_solver|done]. Qed.

Lemma Validate_not_sentinel p err : SiteLayout.Validate p = Some err → errors_is err SiteLayout.ErrNotPlaced = false.
Proof.
  unfold SiteLayout.Validate, SiteLayout.ValidUnixUser. intros H.
  repeat (case_if || case_match); simplify_eq; by vm_compute.
Qed.

Lemma sitePlacement_unplaced e n b site err :
  b_fencingDB b ≠ None → b_sitePlacement e n b site = Err err → errors_is err SiteLayout.ErrNotPlaced = true → unplaced b site.
Proof.
  unfold b_sitePlacement, unplaced. destruct (b_fencingDB b) as [[d t]|]; [|done]. intros _. unfold SiteLayout.Get.
  destruct (fault _ _); [cbn; by intros [= <-]|]. destruct (SiteLayout.site_placements d !! site) as [row|] eqn:E; [|eauto].
  destruct (SiteLayout.Validate _) as [er|] eqn:Hv; [|done]. apply Validate_not_sentinel in Hv.
  case_if_as Hw; [cbn in Hw; rewrite Hv, orb_false_r in Hw; by apply bool_decide_eq_true in Hw|].
  intros [= <-]. cbn. by rewrite Hv.
Qed.

Lemma addAccountSiteScope_keys e b account site allow s s' k :
  b_fencingDB b ≠ None → addAccountSiteScope e b account site allow s = Ok s' → k ∈ keys s' →
  k ∈ keys s ∨ site_key b site k ∧ ((∃ p, placed b site p ∧ SiteLayout.Account p = account) ∨ allow = true ∧ unplaced b site).
Proof.
  intros Hdb. unfold addAccountSiteScope. case_if; [intros [= <-]; auto|].
  destruct (b_sitePlacement e 0 b site) as [p|err] eqn:Hp.
  - destruct (eqs (SiteLayout.Account p) account) eqn:Ea; [|intros [= <-]; auto]. intros Hs Hk.
    destruct (addSiteScope_keys _ _ _ _ _ _ _ Hs Hk) as [?|[_ ?]]; [by left|right]. split; [done|]. left.
    exists p. split; [by eapply sitePlacement_placed|by apply eqs_true].
  - destruct (errors_is err _) eqn:Hn; [|done]. destruct allow; [|intros [= <-]; auto]. intros Hs Hk.
    destruct (addSiteScope_keys _ _ _ _ _ _ _ Hs Hk) as [?|[_ ?]]; [by left|right]. split; [done|]. right.
    split; [done|]. by eapply sitePlacement_unplaced.
Qed.

Lemma account_scope_keys e b account site allow s' k :
  b_fencingDB b ≠ None →
  addAccountSiteScope e b account site allow (target ("account " +:+ account) (add ["account:" +:+ account; account] no_scope)) = Ok s' →
  k ∈ keys s' → account_key b account site allow k.
Proof.
  intros Hdb Hs Hk. destruct (addAccountSiteScope_keys _ _ _ _ _ _ _ _ Hdb Hs Hk) as [Hk'|?]; [|by right; right].
  rewrite keys_target in Hk'. apply add_key in Hk'; [|done]. unfold account_key. set_solver.
Qed.

Lemma site_scope_keys e b site s' k : addSite e b site no_scope = Ok s' → k ∈ keys s' → site_key b site k.
Proof. intros Hs Hk. destruct (addSite_keys _ _ _ _ _ _ Hs Hk) as [H|[_ ?]]; [cbn in H; set_solver|done]. Qed.

Lemma db_scope_lease e b q scope k : db_scope e b q = Ok scope → k ∈ keys scope → db_key b q k.
Proof.
  intros Hs Hk. unfold db_key. destruct (eqs (db_Action q) "reconcile") eqn:Ea.
  { unfold db_scope in Hs. rewrite Ea in Hs. injection Hs as <-. rewrite keys_target in Hk. apply add_key in Hk; [set_solver|done]. }
  destruct (eqs (db_SessionID q) "") eqn:Ei; cbn [negb].
  2: { unfold db_scope in Hs. rewrite Ea, Ei in Hs. injection Hs as <-. rewrite keys_target in Hk. apply add_key in Hk; [set_solver|done]. }
  destruct (eqs (db_Database q) "") eqn:Ed; cbn [negb].
  - unfold db_scope in Hs. rewrite Ea, Ei, Ed in Hs. exact (site_scope_keys _ _ _ _ _ Hs Hk).
  - eapply db_scope_keys; [exact Hs| | | |exact Hk]; [by apply bool_decide_eq_false in Ea|by apply eqs_true|by apply bool_decide_eq_false in Ed].
Qed.

(** The scope the code derives holds no other key. *)
Lemma scope_lease_key e b r scope k :
  b_fencingDB b ≠ None → fencingScopeFor e b r = Some (Ok scope) → k ∈ keys scope → lease_key b r k.
Proof.
  intros Hdb Hs Hk. unfold lease_key. destruct (target_site r) as [s|] eqn:Ht.
  { rewrite (target_site_scope _ _ _ _ Ht) in Hs. injection Hs as Hs. left. exists s. split; [done|]. by eapply site_scope_keys. }
  right. revert Ht Hs. unfold target_site, fencingScopeFor.
  do 9 (case_if; [match goal with |- ?f <$> ?o = None → _ => by destruct o end|]). intros _ Hs.
  case_if_as Edb; [apply eqs_true in Edb; apply fmap_Some_inv in Hs as (q & Hq & Hsc); left; exists q; split_and!; [done..|exact (db_scope_lease _ _ _ _ _ Hsc Hk)]|right].
  case_if_as Evh; [apply eqs_true in Evh; apply fmap_Some_inv in Hs as (q & Hq & Hsc); left; exists q; split_and!; [done..|]|right].
  { case_if_as Ea; [apply eqs_true in Ea|left; exact (site_scope_keys _ _ _ _ _ Hsc Hk)].
    destruct (addSite_keys _ _ _ _ _ _ Hsc Hk) as [H|[_ ?]]; [right|by left]. rewrite keys_target in H. apply add_key in H; [set_solver|done]. }
  case_if_as Epx; [apply eqs_true in Epx; apply fmap_Some_inv in Hs as (q & Hq & Hsc); left; exists q; split_and!; [done..|]|right].
  { case_if_as Ea; [apply eqs_true in Ea|case_if_as Er; [apply eqs_true in Er|left; exact (site_scope_keys _ _ _ _ _ Hsc Hk)]].
    - destruct (addSite_keys _ _ _ _ _ _ Hsc Hk) as [H|[_ ?]]; [right; left|by left]. rewrite keys_target in H. apply add_key in H; [set_solver|done].
    - destruct (addSite e b (px_Site q) no_scope) as [s0|] eqn:H0; [|done]. injection Hsc as <-. rewrite keys_target, keys_add in Hk.
      destruct Hk as [H|[H _]]; [left; by eapply site_scope_keys|right; right; set_solver]. }
  case_if_as Eac; [apply eqs_true in Eac; apply fmap_Some_inv in Hs as (q & Hq & Hsc); left; exists q; split_and!; [done..|exact (account_scope_keys _ _ _ _ _ _ _ Hdb Hsc Hk)]|right].
  case_if_as Ere; [apply eqs_true in Ere; apply fmap_Some_inv in Hs as (q & Hq & Hsc); left; exists q; split_and!; [done..|]|right].
  { destruct (eqs (re_Action q) "apply-account") eqn:Ea; [left|right].
    - apply eqs_true in Ea. split; [done|]. exact (account_scope_keys _ _ _ _ _ _ _ Hdb Hsc Hk).
    - apply bool_decide_eq_false in Ea. split; [done|]. exact (site_scope_keys _ _ _ _ _ Hsc Hk). }
  case_if_as Ece; [apply eqs_true in Ece; apply fmap_Some_inv in Hs as (q & Hq & [= <-]); exists q; split_and!; [done..|]|done].
  rewrite keys_target in Hk. apply add_key in Hk; [set_solver|done].
Qed.

(** What is not fenced only reads. *)
Lemma unfenced_reads `{SafeHTTP.NetText} v r :
  ValidateRequest v (Some r) = None → requestRequiresFencing (Some r) = false → only_reads r.
Proof.
  intros Hv. unfold requestRequiresFencing, only_reads, request_action.
  case_if_as E; [left; by apply eqs_true|]. intros Hq. right. revert Hq.
  repeat (case_if; [by_type Hv;
    match goal with |- unless ?o _ = false → _ => destruct o as [q|]; [|done] end;
    match goal with E1 : RequestType _ = _ |- _ => rewrite E1 end;
    cbn [unless]; intros Hq%negb_false_iff; eexists _, _; split_and!; [by vm_compute|by vm_compute|]|]); [..|done].
  all: unfold in_set, eqs in Hq; try apply bool_decide_eq_true in Hq; set_solver.
Qed.


(** ** The watchdog *)

(** The checks of all rounds, in order: the rounds only set the pauses. *)
Definition survives (grace : Z) (checks : list (string * Check)) (es0 es : gmap string Z) : Prop :=
  ∃ h h', watch_round grace checks es0 h = Watching es h'.

Lemma watch_check_had grace key c es h h' es1 h1 :
  watch_check grace key c es h = Watching es1 h1 → ∃ h2, watch_check grace key c es h' = Watching es1 h2.
Proof.
  unfold watch_check. case_if; [done|]. destruct (ck_result c).
  - case_if; [done|]. case_if; [done|]. intros [= <- <-]. eauto.
  - intros [= <- <-]. eauto.
Qed.

Lemma watch_round_had grace checks es h h' es1 h1 :
  watch_round grace checks es h = Watching es1 h1 → ∃ h2, watch_round grace checks es h' = Watching es1 h2.
Proof.
  revert es h h'. induction checks as [|[k c] l IH]; intros es h h'; cbn.
  - intros [= <- <-]. eauto.
  - destruct (watch_check grace k c es h) as [|es2 h2] eqn:E; [done|].
    destruct (watch_check_had _ _ _ _ _ h' _ _ E) as [h3 ->]. apply IH.
Qed.

Lemma watch_survives grace rounds es0 es h :
  watch grace rounds es0 = Watching es h → survives grace (concat rounds) es0 es.
Proof.
  revert es0. induction rounds as [|r rounds IH]; intros es0; cbn [watch concat].
  - intros [= <- <-]. by exists false, false.
  - destruct (watch_round grace r es0 false) as [|es1 h1] eqn:E; [done|]. intros Hw.
    destruct (IH _ Hw) as (h2 & h3 & Hr). exists false.
    assert (∀ l1 l2 e0 g e1 g1, watch_round grace l1 e0 g = Watching e1 g1 →
              watch_round grace (l1 ++ l2) e0 g = watch_round grace l2 e1 g1) as Happ.
    { clear. induction l1 as [|[k c] l1 IH1]; intros l2 e0 g e1 g1; cbn; [by intros [= <- <-]|].
      destruct (watch_check grace k c e0 g); [done | apply IH1]. }
    rewrite (Happ _ _ _ _ _ _ E). destruct (watch_round_had _ _ _ _ h1 _ _ Hr) as [h4 ->]. eauto.
Qed.

Lemma survives_cons grace k c l es0 es :
  survives grace ((k, c) :: l) es0 es ↔
  ∃ es1, (∃ h h', watch_check grace k c es0 h = Watching es1 h') ∧ survives grace l es1 es.
Proof.
  unfold survives. cbn. split.
  - intros (h & h' & H). destruct (watch_check grace k c es0 h) as [|es1 h1] eqn:E; [done|]. eauto 8.
  - intros (es1 & (h & h1 & E) & h2 & h3 & H). exists h. rewrite E.
    destruct (watch_round_had _ _ _ _ h1 _ _ H) as [h4 ->]. eauto.
Qed.

Lemma survives_app grace l1 l2 es0 es :
  survives grace (l1 ++ l2) es0 es ↔ ∃ es1, survives grace l1 es0 es1 ∧ survives grace l2 es1 es.
Proof.
  revert es0. induction l1 as [|[k c] l1 IH]; intros es0; cbn.
  - split; [intros H; exists es0; split; [by exists false, false | done]|].
    intros (es1 & (h & h' & E) & Hs). by injection E as <- <-.
  - setoid_rewrite survives_cons. setoid_rewrite IH. naive_solver.
Qed.

(** A surviving failed check leaves its key with a start no later than its own, and
    within the grace period at its end. *)
Lemma check_error grace k c es h es1 h1 err :
  watch_check grace k c es h = Watching es1 h1 → ck_result c = Some err →
  errors_is err DBLocks.ErrLeaseLost = false ∧
  es1 !! k = Some (default (ck_started c) (es !! k)) ∧
  ck_ended c - default (ck_started c) (es !! k) < grace.
Proof.
  unfold watch_check. case_if; [done|]. intros H Hr. rewrite Hr in H. case_if; [done|]. case_if; [done|].
  injection H as <- _. set (es2 := match es !! k with Some _ => es | None => <[k := ck_started c]> es end) in *.
  assert (es2 !! k = Some (default (ck_started c) (es !! k))) as Hk.
  { unfold es2. destruct (es !! k) eqn:E; cbn; [done | by rewrite lookup_insert_eq]. }
  split; [done|]. split; [done|]. unfold expired in Heqb1. rewrite existsb_false_elem in Heqb1.
  specialize (Heqb1 (k, default (ck_started c) (es !! k))). rewrite elem_of_map_to_list in Heqb1.
  apply Heqb1 in Hk. cbn in Hk. lia.
Qed.

(** Other keys, and failures of the key itself, keep the start. *)
Lemma check_keeps grace k k' c es h es1 h1 t :
  watch_check grace k' c es h = Watching es1 h1 → es !! k = Some t →
  (k' = k → ck_result c ≠ None) → es1 !! k = Some t.
Proof.
  unfold watch_check. case_if; [done|]. intros H Hk Hc. destruct (ck_result c) as [err|].
  - case_if; [done|]. case_if; [done|]. injection H as <- _.
    destruct (es !! k') eqn:E; [done|]. rewrite lookup_insert_ne; [done | intros ->; congruence].
  - injection H as <- _. rewrite lookup_delete_ne; [done|]. intros <-. by apply Hc.
Qed.

Lemma survives_keeps grace k l es es1 t :
  survives grace l es es1 → es !! k = Some t → Forall (λ x, x.1 = k → ck_result x.2 ≠ None) l →
  es1 !! k = Some t.
Proof.
  revert es. induction l as [|[k' c] l IH]; intros es Hs Hk Hl.
  - destruct Hs as (h & h' & [= <- <-]). done.
  - apply survives_cons in Hs as (es2 & (h & h' & Hc) & Hs). inversion Hl; subst.
    eapply IH; [done| |done]. by eapply check_keeps.
Qed.

Lemma survives_origin grace k l es0 es1 t :
  survives grace l es0 es1 → es1 !! k = Some t →
  es0 !! k = Some t ∨ ∃ c, (k, c) ∈ l ∧ t = ck_started c.
Proof.
  revert es0. induction l as [|[k' c] l IH]; intros es0 Hs Hk.
  - destruct Hs as (h & h' & E). injection E as <- <-. by left.
  - apply survives_cons in Hs as (es2 & (h & h' & Hc) & Hs).
    destruct (IH _ Hs Hk) as [Hk2|(c' & Hc' & ->)]; [|right; exists c'; split; [by right | done]].
    unfold watch_check in Hc. case_if; [done|].
    destruct (ck_result c); [case_if; [done|]; case_if; [done|]|]; injection Hc as <- _.
    + destruct (es0 !! k') eqn:E; [by left|]. rewrite lookup_insert in Hk2. case_decide; [|by left].
      simplify_eq. right. exists c. split; [by left | done].
    + apply lookup_delete_Some in Hk2 as [_ ?]. by left.
Qed.

Lemma survives_not_lost grace l es0 es k c err :
  survives grace l es0 es → (k, c) ∈ l → ck_result c = Some err → errors_is err DBLocks.ErrLeaseLost = false.
Proof.
  revert es0. induction l as [|[k' c'] l IH]; intros es0 Hs Hin Hr; [by apply not_elem_of_nil in Hin|].
  apply survives_cons in Hs as (es2 & (h & h' & Hc) & Hs). apply elem_of_cons in Hin as [[= <- <-]|Hin]; [|eauto].
  by eapply check_error in Hr as [? _].
Qed.

(** A key that fails from one check to a later one without a success in between
    has been failing for less than the grace period. *)
Lemma survives_outage grace pre k ci mid cj post es :
  survives grace (pre ++ (k, ci) :: mid ++ (k, cj) :: post) ∅ es →
  ck_result ci ≠ None → ck_result cj ≠ None →
  Forall (λ x, x.1 = k → ck_result x.2 ≠ None) mid →
  (∀ c, (k, c) ∈ pre → ck_started c ≤ ck_started ci) →
  ck_ended cj - ck_started ci < grace.
Proof.
  intros Hs Hi Hj Hmid Hpre. destruct (ck_result ci) as [erri|] eqn:Ri; [|done].
  destruct (ck_result cj) as [errj|] eqn:Rj; [|done].
  apply survives_app in Hs as (es1 & H1 & (es2 & (h & h' & Hci) & Hs)%survives_cons).
  apply survives_app in Hs as (es3 & H3 & (es4 & (g & g' & Hcj) & _)%survives_cons).
  destruct (check_error _ _ _ _ _ _ _ _ Hci Ri) as (_ & Hk2 & _).
  pose proof (survives_keeps _ _ _ _ _ _ H3 Hk2 Hmid) as Hk3.
  destruct (check_error _ _ _ _ _ _ _ _ Hcj Rj) as (_ & _ & Hlt). rewrite Hk3 in Hlt. cbn in Hlt.
  assert (default (ck_started ci) (es1 !! k) ≤ ck_started ci); [|lia].
  destruct (es1 !! k) as [t|] eqn:Hk1; cbn; [|lia].
  destruct (survives_origin _ _ _ _ _ _ H1 Hk1) as [?|(c & Hc & ->)]; [by rewrite lookup_empty in * | eauto].
Qed.

(** An operation that the watchdog has let run so far had no check that found a
    lease lost, and on no token did the checks fail, without a success in between,
    for the grace period or longer. *)
Theorem watch_outage_bounded grace rounds es h pre k ci mid cj post :
  watch grace rounds ∅ = Watching es h →
  concat rounds = pre ++ (k, ci) :: mid ++ (k, cj) :: post →
  ck_result ci ≠ None → ck_result cj ≠ None →
  Forall (λ x, x.1 = k → ck_result x.2 ≠ None) mid →
  (∀ c, (k, c) ∈ pre → ck_started c ≤ ck_started ci) →
  ck_ended cj - ck_started ci < grace ∧
  ∀ key c err, (key, c) ∈ concat rounds → ck_result c = Some err → errors_is err DBLocks.ErrLeaseLost = false.
Proof.
  intros Hw%watch_survives Hc Hi Hj Hmid Hpre. split; [|intros key c err; by apply (survives_not_lost _ _ _ _ _ _ _ Hw)].
  rewrite Hc in Hw. by eapply survives_outage.
Qed.

(** ** The watchdog against a takeover *)

(** The pace of the watchdog of one token after a successful check that ended at
    [ended]: the first check follows after the interval, and every check after a
    failed one follows after the retry interval, each late by at most [slack]. *)
Fixpoint paced (interval grace slack ended : Z) (failed : bool) (cs : list Check) : Prop :=
  match cs with
  | [] => True
  | c :: rest => ck_started c ≤ ended + watch_delay interval grace failed + slack ∧ paced interval grace slack (ck_ended c) true rest
  end.

(** When the next check is due. *)
Definition next_start (interval grace ended : Z) (cs : list Check) : Z :=
  match last cs with
  | None => ended + watch_delay interval grace false
  | Some c => ck_ended c + watch_delay interval grace true
  end.

(** The latest instant at which the operation can still run before the watchdog has
    acted again: the end of the next check, which starts at [s], its timeout and what
    the driver may take beyond it ([slack]). *)
Definition run_limit (interval grace slack s : Z) (es : gmap string Z) : Z :=
  s + Z.max 0 (check_timeout interval grace s es) + slack.

Lemma check_timeout_le interval grace s es k t :
  es !! k = Some t → check_timeout interval grace s es ≤ grace - (s - t).
Proof.
  intros H%elem_of_map_to_list. unfold check_timeout. induction (map_to_list es) as [|x l IH]; [by apply not_elem_of_nil in H|].
  cbn. apply elem_of_cons in H as [<-|H]; cbn; [lia|]. specialize (IH H). lia.
Qed.

Lemma concat_singletons (key : string) (l : list Check) :
  concat ((λ c, [(key, c)]) <$> l) = (λ c, (key, c)) <$> l.
Proof. induction l as [|x l IH]; [done|]. cbn. by f_equal. Qed.

(** A failing run of checks ends within the grace period of its first one, which
    stays recorded. *)
Lemma failing_run grace key c0 cs es :
  survives grace ((λ c, (key, c)) <$> (c0 :: cs)) ∅ es → Forall (λ c, ck_result c ≠ None) (c0 :: cs) →
  es !! key = Some (ck_started c0) ∧ ck_ended (default c0 (last cs)) - ck_started c0 < grace.
Proof.
  rewrite fmap_cons, Forall_cons. intros Hw [He0 Hes].
  destruct (ck_result c0) as [err|] eqn:Hr; [|done].
  pose proof Hw as (es1 & (g & g' & Hc) & Hs)%survives_cons.
  destruct (check_error _ _ _ _ _ _ _ _ Hc Hr) as (_ & Hk & Hlt). rewrite lookup_empty in Hk, Hlt. cbn in Hk, Hlt.
  assert (Forall (λ x : string * Check, x.1 = key → ck_result x.2 ≠ None) ((λ c, (key, c)) <$> cs)) as Hf.
  { apply Forall_fmap. eapply Forall_impl; [exact Hes|]. by cbn. }
  split; [by eapply survives_keeps|].
  destruct cs as [|c1 cs _] using rev_ind; [done|]. rewrite last_snoc. cbn [default from_option].
  rewrite fmap_app in Hw, Hf. apply Forall_app in Hf as [Hmid Hlast]. apply Forall_app in Hes as [_ Hl].
  apply Forall_cons in Hl as [Hl _].
  eapply (survives_outage grace [] key c0 ((λ c, (key, c)) <$> cs) c1 []); [exact Hw | congruence | done | done |].
  by intros ? ?%not_elem_of_nil.
Qed.

Lemma check_timeout_interval interval grace s es : check_timeout interval grace s es ≤ interval.
Proof. unfold check_timeout. induction (map_to_list es) as [|x l IH]; cbn; lia. Qed.

Lemma run_limit_bound interval grace slack ended cs key es h s :
  paced interval grace slack ended false cs → Forall (λ c, ck_result c ≠ None) cs →
  watch grace ((λ c, [(key, c)]) <$> cs) ∅ = Watching es h →
  0 ≤ interval ≤ grace → 0 ≤ slack → s ≤ next_start interval grace ended cs + slack →
  run_limit interval grace slack s es ≤ ended + interval + grace + retryInterval interval grace + 3 * slack.
Proof.
  intros Hp He Hw%watch_survives Hg Hsl Hs. rewrite concat_singletons in Hw.
  assert (0 ≤ retryInterval interval grace) as Hr.
  { unfold retryInterval, Second. destruct (0 <? grace / 4) eqn:E4; [apply Z.ltb_lt in E4; lia | lia]. }
  unfold run_limit. pose proof (check_timeout_interval interval grace s es) as Hti. unfold next_start in Hs. destruct cs as [|c0 cs].
  - cbn [last watch_delay] in Hs. lia.
  - destruct Hp as [Hc _]. cbn [watch_delay] in Hc. destruct (failing_run _ _ _ _ _ Hw He) as [Hk Hlt].
    rewrite last_cons in Hs. set (x := default _ _) in *.
    assert (match match last cs with Some y => Some y | None => Some c0 end with
            | Some c => ck_ended c + watch_delay interval grace true
            | None => ended + watch_delay interval grace false end
            = ck_ended x + retryInterval interval grace) as E.
    { unfold x. by destruct (last cs). }
    rewrite E in Hs. pose proof (check_timeout_le interval grace s _ _ _ Hk). lia.
Qed.

(** C20: an operation that still runs is not overtaken. An operation is watched under
    one token. Let the last successful verification of its lease have taken at most
    [q] from its start, and let every later check have failed for lack of a database,
    each started at most [slack] late and ending at most [slack] after its timeout.
    As long as the watchdog has not cancelled the operation, no process can acquire the
    resource, whatever acquisitions, releases of other leases and renewals the
    processes interleave, provided the verification margin covers [q], the interval,
    the grace period, one retry and three times the slack; the lease is not released
    meanwhile; and the processes that renew it use a lease time above the margin and a
    clock not behind the verification. *)
Theorem running_excludes_takeover interval grace slack q e token margin t ops e' dl s0 ended cs key es h s :
  DBLocks.VerifyFencingTokenWithin e token margin t = None →
  s0 ≤ clock e 0 → ended ≤ s0 + q →
  paced interval grace slack ended false cs → Forall (λ c, ck_result c ≠ None) cs →
  watch grace ((λ c, [(key, c)]) <$> cs) ∅ = Watching es h →
  0 ≤ interval ≤ grace → 0 ≤ slack → q + interval + grace + retryInterval interval grace + 3 * slack ≤ margin →
  Forall (DBLocks.within (clock e 0) margin token) ops →
  s ≤ next_start interval grace ended cs + slack → clock e' 0 ≤ run_limit interval grace slack s es →
  ∃ err, DBLocks.TryAcquire e' dl (DBLocks.TokenKey token) (DBLocks.run ops t) = (Err err, DBLocks.run ops t).
Proof.
  intros Hv Hs0 Hq Hp He Hw Hg Hsl Hm Hops Hs Hnow. apply (DBLocks.verified_excludes e _ margin); [done|done|].
  pose proof (run_limit_bound _ _ _ _ _ _ _ _ _ Hp He Hw Hg Hsl Hs). lia.
Qed.

(** With the program's constants the condition leaves a successful verification and
    three times the slack four seconds together; a verification that takes the five
    seconds its timeout allows can be followed by a cancellation a second after the
    margin. *)
Lemma watch_constants :
  4 * Second + LeaseWatchInterval + FencingDBErrorGrace + retryInterval LeaseWatchInterval FencingDBErrorGrace = LeaseWatchMargin.
Proof. reflexivity. Qed.

(** ** Witnesses *)

Definition demo_validator : Validator := mkValidator "/srv/stepanel" "/home" None (λ _, NotExist) (Some "/").
Definition demo_locks : DBLocks.Locks := {["alice" := DBLocks.mkLock "panel-1" (100 * Second) 7 0]}.
Definition demo_broker : Broker :=
  mkBroker demo_validator (Some (SiteLayout.demo_db, demo_locks)) (λ _, RNotExist) LeaseWatchMargin.
Definition alice_token : DBLocks.FencingToken := DBLocks.mkToken "alice" "panel-1" 7.

(** Sealing alice's second site under the lease of her account's main site. *)
Definition seal_shop : SiteRequest :=
  mkSiteRequest "seal" "shop" "" "" "" "" None None None "" 0 false 0 0 "" "" "" "" 0 false "" 0 0 0 0 0 0 false false "".
Definition seal_request (site : SiteRequest) (tokens : list DBLocks.FencingToken) : Request :=
  mkRequest "site" tokens (Some site) None None None None None None None None None None None None None None.


(** Dropping a database that the registry records for site [alice]. *)
Definition drop_request (tokens : list DBLocks.FencingToken) : Request :=
  mkRequest "db" tokens None None None None
    (Some (mkDBRequest "drop" "shopdb" "" "" "" "alice" "" "" "" "" "" 0 0)) None None None None None None None None None None.
Definition registry_broker : Broker :=
  mkBroker demo_validator (Some (SiteLayout.demo_db, demo_locks)) (λ _, RData "panel:alice:shop_user") LeaseWatchMargin.

Lemma database_mutation_fenced_witness :
  ∃ i tok, Fencing (drop_request [alice_token]) !! i = Some tok ∧
    database_key registry_broker (mkDBRequest "drop" "shopdb" "" "" "" "alice" "" "" "" "" "" 0 0) (DBLocks.TokenKey tok) ∧
    live registry_broker (clock (default (calm 0 "") ([calm 0 ""] !! i)) 0) tok.
Proof.
  apply (@database_mutation_fenced SafeHTTP.toy_net [calm 0 ""] (calm 0 "") registry_broker (drop_request [alice_token]));
    [vm_compute; reflexivity | reflexivity | reflexivity | discriminate | reflexivity | discriminate].
Defined.

(** Two failed checks of a lease that survive, six seconds apart. *)
Definition failing (s t : Z) : Check := mkCheck (s * Second) (Some io_err) (t * Second).

Lemma watch_outage_bounded_witness : 9 * Second - 5 * Second < FencingDBErrorGrace.
Proof.
  pose (rounds := [[("a", failing 5 6)]; [("a", failing 7 9)]]).
  assert (ck_ended (failing 7 9) - ck_started (failing 5 6) < FencingDBErrorGrace ∧
          ∀ key c err, (key, c) ∈ concat rounds → ck_result c = Some err → errors_is err DBLocks.ErrLeaseLost = false) as [E _].
  { apply (watch_outage_bounded FencingDBErrorGrace rounds {["a" := 5 * Second]} false [] "a" (failing 5 6) [] (failing 7 9) []);
      [vm_compute; reflexivity | reflexivity | discriminate | discriminate | constructor | intros c Hc; inversion Hc]. }
  exact E.
Defined.

(** The lease [alice] verifies at time 0; the database then fails from 7 s on. At
    13 s nobody can take the lock. *)
Lemma running_excludes_takeover_witness :
  ∃ err, DBLocks.TryAcquire (calm (13 * Second) "") (DBLocks.mkLocks "panel-2" (60 * Second)) "alice" demo_locks =
         (Err err, demo_locks).
Proof.
  pose (cs := [failing 7 8; failing 9 10]).
  apply (running_excludes_takeover LeaseWatchInterval FencingDBErrorGrace (Second / 2) (2 * Second) (calm 0 "") alice_token LeaseWatchMargin
           demo_locks [] (calm (13 * Second) "") (DBLocks.mkLocks "panel-2" (60 * Second)) 0 (2 * Second) cs "a"
           {["a" := 7 * Second]} false (11 * Second));
    [ vm_compute; reflexivity | vm_compute; discriminate | vm_compute; discriminate | | repeat constructor; discriminate
    | vm_compute; reflexivity | vm_compute; split; discriminate | vm_compute; discriminate | vm_compute; discriminate | constructor
    | vm_compute; discriminate | vm_compute; discriminate ].
  vm_compute. repeat split; discriminate.
Defined.

(** A verification that takes its full timeout of five seconds before an outage:
    at 20.2 s the operation has not been cancelled, and another process takes the
    lock. *)
Theorem slow_check_overrun :
  let t : DBLocks.Locks := {["alice" := DBLocks.mkLock "panel-1" (20 * Second + 1) 7 0]} in
  let cs := [failing 10 15; mkCheck (16 * Second) (Some io_err) (19 * Second + Second / 2)] in
  let es := {["a" := 10 * Second]} in
  let now := 20 * Second + Second / 5 in
  DBLocks.VerifyFencingTokenWithin (calm 0 "") alice_token LeaseWatchMargin t = None ∧
  paced LeaseWatchInterval FencingDBErrorGrace 0 (5 * Second) false cs ∧
  watch FencingDBErrorGrace ((λ c, [("a", c)]) <$> cs) ∅ = Watching es false ∧
  now < run_limit LeaseWatchInterval FencingDBErrorGrace 0 (next_start LeaseWatchInterval FencingDBErrorGrace (5 * Second) cs) es ∧
  is_ok (DBLocks.TryAcquire (calm now "") (DBLocks.mkLocks "panel-2" (60 * Second)) "alice" t).1 = true.
Proof. repeat split; vm_compute; (reflexivity || discriminate). Qed.

End BrokerFenceProps.
