(* ===== verification/Scheduler.v ===== *)
(** * Scheduler: admission of requests to the root broker

    Models [src/internal/rootbroker/scheduler.go]: the resources a request locks
    ([requestLockKeys]), the keyed locks with their reference counts, the
    admission gate, and [Scheduler.Execute] run by any number of concurrent
    requests. Every critical section (under [mu]) and every channel operation is
    one step; a wait may time out at any point. A lock is an object on a heap, as
    the code hands out pointers to it, and the broadcast channel of the gate is a
    generation number: a waiter sleeps on the generation it saw. *)
From S2P Require Import Prelude Regex GoText DBLocks SafeHTTP BrokerTypes BrokerValidate.

Module Scheduler.
Import BrokerTypes BrokerValidate.

(** ** The resources of a request *)

Definition key (kind name : string) : list string := if eqs name "" then [] else [kind +:+ ":" +:+ name].

(** [requestLockKeys]; a missing payload would be a nil dereference, [None]. *)
Definition requestLockKeys (r : Request) : option (list string) :=
  let ty t := eqs (RequestType r) t in
  if ty "site" then (λ q, key "site" (st_Site q)) <$> rq_Site r else
  if ty "app" then (λ q, key "site" (ap_Site q)) <$> rq_App r else
  if ty "worker" then (λ q, key "site" (wk_Site q)) <$> rq_Worker r else
  if ty "runner" then (λ q, key "site" (ru_Site q)) <$> rq_Runner r else
  if ty "task" then (λ q, key "site" (ta_Site q)) <$> rq_Task r else
  if ty "environment" then (λ q, key "site" (en_Site q)) <$> rq_Environment r else
  if ty "wordpress" then (λ q, key "site" (wp_Site q)) <$> rq_WordPress r else
  if ty "resource" then
    (λ q, if eqs (re_Action q) "apply-account" then key "account" (re_Account q) else key "site" (re_Site q)) <$> rq_Resource r else
  if ty "vhost" then
    (λ q, if eqs (vh_Action q) "delete" then key "vhostctl" "host" else key "site" (vh_Site q)) <$> rq_Vhost r else
  if ty "proxy" then
    (λ q, if eqs (px_Action q) "apply" then key "site" (px_Site q) else
          if eqs (px_Action q) "delete" then key "proxyctl" "host" else []) <$> rq_Proxy r else
  if ty "db" then
    (λ q, let ks := if in_set (db_Action q) ["reconcile"; "inventory"; "diagnostics"; "sessions"; "settings"; "terminate"] then []
                    else if eqs (db_Action q) "dump" then key "database" (db_Database q)
                    else key "site" (db_Site q) ++ key "database" (db_Database q) in
          if bool_decide (ks = []) then key "dbctl" "engine" else ks) <$> rq_DB r else
  if ty "files" then
    (λ q, if in_set (fi_Action q) filesReadOnlyActions then key "files-read-tenant" (fi_TenantID q)
          else key "site" (fi_Site q)) <$> rq_Files r else
  if ty "account" then (λ q, key "account" (ac_Account q) ++ key "site" (ac_Site q)) <$> rq_Account r else
  if ty "git" then
    (λ q, if eqs (gi_Site q) "" then key "git" (gi_Destination q) else key "site" (gi_Site q)) <$> rq_Git r else
  if ty "certificate" then (λ q, key "certificate" (ce_Domain q)) <$> rq_Certificate r
  else Some [].

(** The loop of [keyedLocks.acquire] that drops repeated keys: it compacts the
    sorted slice in place, [j] being the length of [unique], which shares the
    array it reads from. *)
Fixpoint compact (n : nat) (arr : list string) (i j : nat) : list string :=
  match n with
  | O => take j arr
  | S n' =>
      let k := default "" (arr !! i) in
      if bool_decide (i = 0%nat) || negb (bool_decide (arr !! (i - 1)%nat = Some k))
      then compact n' (<[j := k]> arr) (S i) (S j)
      else compact n' arr (S i) j
  end.
Definition unique_sorted (keys : list string) : list string :=
  let sorted := merge_sort String.le keys in compact (length sorted) sorted 0 0.

(** ** Keyed locks *)

(** The lock objects on the heap (is the channel full, how many references), and
    the map from keys to objects. *)
Record KeyedLocks := mkKL { k_map : gmap string nat; k_heap : gmap nat (bool * Z); k_next : nat }.
Definition newKeyedLocks : KeyedLocks := mkKL ∅ ∅ 0.

Definition ref (k : string) (s : KeyedLocks) : nat * KeyedLocks :=
  match k_map s !! k with
  | Some o => (o, mkKL (k_map s) (alter (λ x, (x.1, x.2 + 1)) o (k_heap s)) (k_next s))
  | None => (k_next s, mkKL (<[k := k_next s]> (k_map s)) (<[k_next s := (false, 1)]> (k_heap s)) (S (k_next s)))
  end.

(** [unref]; [None] is the nil dereference of a key that has no lock. *)
Definition unref (k : string) (s : KeyedLocks) : option KeyedLocks :=
  o ← k_map s !! k;
  x ← k_heap s !! o;
  let heap := <[o := (x.1, x.2 - 1)]> (k_heap s) in
  Some (mkKL (if x.2 - 1 =? 0 then delete k (k_map s) else k_map s) heap (k_next s)).

Definition set_full (o : nat) (b : bool) (s : KeyedLocks) : KeyedLocks :=
  mkKL (k_map s) (alter (λ x, (b, x.2)) o (k_heap s)) (k_next s).
Definition full (o : nat) (s : KeyedLocks) : option bool := fst <$> k_heap s !! o.

(** ** The admission gate *)

Record Gate := mkGate { limit : Z; active : Z; exclusive : bool; waitingExclusive : Z; gen : nat }.
Definition newAdmissionGate (lim : Z) : Gate := mkGate lim 0 false 0 0.

Definition broadcastLocked (g : Gate) : Gate :=
  mkGate (limit g) (active g) (exclusive g) (waitingExclusive g) (S (gen g)).

(** The head of [acquire], the tests of its loop, and the end of a wait that timed
    out. *)
Definition announce (excl : bool) (g : Gate) : Gate :=
  if excl then mkGate (limit g) (active g) (exclusive g) (waitingExclusive g + 1) (gen g) else g.
Definition try_enter (excl : bool) (g : Gate) : option Gate :=
  if excl then
    if negb (exclusive g) && (active g =? 0)
    then Some (mkGate (limit g) (active g) true (waitingExclusive g - 1) (gen g)) else None
  else
    if negb (exclusive g) && (waitingExclusive g =? 0) && (active g <? limit g)
    then Some (mkGate (limit g) (active g + 1) (exclusive g) (waitingExclusive g) (gen g)) else None.
Definition give_up_wait (excl : bool) (g : Gate) : Gate :=
  if excl then broadcastLocked (mkGate (limit g) (active g) (exclusive g) (waitingExclusive g - 1) (gen g)) else g.
Definition gate_release (excl : bool) (g : Gate) : Gate :=
  broadcastLocked (if excl then mkGate (limit g) (active g) false (waitingExclusive g) (gen g)
                   else mkGate (limit g) (active g - 1) (exclusive g) (waitingExclusive g) (gen g)).

(** ** One request *)

(** Where a call of [Scheduler.Execute] is. [held] are the keys it holds, in the
    order of acquisition; [ran] says whether the operation ran. *)
Inductive Phase :=
  | Bypass                                                        (* health or invalid: no admission *)
  | Acquiring (todo held : list string)                           (* before [ref] of the next key *)
  | Waiting (k : string) (o : nat) (todo held : list string)      (* sending on [lock.held] *)
  | TimedOut (k : string) (held : list string)                    (* before [unref] of the key not obtained *)
  | GateEnter (excl : bool) (held : list string)
  | GateWaiting (excl : bool) (seen : nat) (held : list string)   (* sleeping on the channel seen *)
  | Running (excl : bool) (held : list string)
  | Releasing (held : list string) (ran : bool)
  | Draining (k : string) (o : nat) (held : list string) (ran : bool)   (* receiving from [lock.held] *)
  | Unrefing (k : string) (held : list string) (ran : bool)
  | Done (ran : bool).

(** The start of [Execute]. *)
Definition start `{SafeHTTP.NetText} (v : Validator) (req : option Request) : option Phase :=
  match req with
  | None => Some Bypass
  | Some r =>
      if eqs (RequestType r) "health" then Some Bypass else
      match ValidateRequest v req with
      | Some _ => Some Bypass
      | None => (λ ks, Acquiring (unique_sorted ks) []) <$> requestLockKeys r
      end
  end.

Record State := mkState { kl : KeyedLocks; gate : Gate; pool : list Phase }.
Definition init (lim : Z) (ps : list Phase) : State := mkState newKeyedLocks (newAdmissionGate lim) ps.

(** One step of a request, with the shared structures before and after. The steps
    of the waits that time out are marked. *)
Inductive move (s : KeyedLocks) (g : Gate) : Phase → KeyedLocks → Gate → Phase → bool → Prop :=
  | MBypass : move s g Bypass s g (Done true) false
  | MRef k todo held o s' : ref k s = (o, s') →
      move s g (Acquiring (k :: todo) held) s' g (Waiting k o todo held) false
  | MSend k o todo held : full o s = Some false →
      move s g (Waiting k o todo held) (set_full o true s) g (Acquiring todo (held ++ [k])) false
  | MKeyTimeout k o todo held : move s g (Waiting k o todo held) s g (TimedOut k held) true
  | MUnrefTimeout k held s' : unref k s = Some s' →
      move s g (TimedOut k held) s' g (Releasing held false) false
  | MKeysHeld held : move s g (Acquiring [] held) s g (GateEnter (bool_decide (held = [])) held) false
  | MEnter excl held g' : try_enter excl (announce excl g) = Some g' →
      move s g (GateEnter excl held) s g' (Running excl held) false
  | MSleep excl held : try_enter excl (announce excl g) = None →
      move s g (GateEnter excl held) s (announce excl g) (GateWaiting excl (gen g) held) false
  | MWake excl seen held g' : (seen < gen g)%nat → try_enter excl g = Some g' →
      move s g (GateWaiting excl seen held) s g' (Running excl held) false
  | MSleepAgain excl seen held : (seen < gen g)%nat → try_enter excl g = None →
      move s g (GateWaiting excl seen held) s g (GateWaiting excl (gen g) held) false
  | MGateTimeout excl seen held :
      move s g (GateWaiting excl seen held) s (give_up_wait excl g) (Releasing held false) true
  | MFinish excl held : move s g (Running excl held) s (gate_release excl g) (Releasing held true) false
  | MUnlock k o held ran : k_map s !! k = Some o →
      move s g (Releasing (held ++ [k]) ran) s g (Draining k o held ran) false
  | MReceive k o held ran : full o s = Some true →
      move s g (Draining k o held ran) (set_full o false s) g (Unrefing k held ran) false
  | MUnref k held ran s' : unref k s = Some s' →
      move s g (Unrefing k held ran) s' g (Releasing held ran) false
  | MReleased ran : move s g (Releasing [] ran) s g (Done ran) false.

Inductive step (w : State) : State → bool → Prop :=
  | Step i p s' g' p' timeout : pool w !! i = Some p → move (kl w) (gate w) p s' g' p' timeout →
      step w (mkState s' g' (<[i := p']> (pool w))) timeout.

Definition any_step (w w' : State) : Prop := ∃ timeout, step w w' timeout.

(** The requests a scheduler may start with, and everything reachable. *)
Definition startable (p : Phase) : Prop := p = Bypass ∨ ∃ keys, p = Acquiring (unique_sorted keys) [].
Definition reachable (lim : Z) (w : State) : Prop :=
  ∃ ps, Forall startable ps ∧ rtc any_step (init lim ps) w.

End Scheduler.
