(* ===== verification/SchedulerProps.v ===== *)
(** * SchedulerProps: exclusion, capacity and progress of the broker's scheduler

    For every reachable state of [Scheduler], with any number of requests, any
    interleaving and any timeouts: the reference counts are exact and no lock
    object is used after its removal; requests on one resource exclude each other;
    the gate admits at most its limit, an exclusive request alone; no wake-up is
    lost; the system never deadlocks; and every execution ends with all requests
    completed. *)
From S2P Require Import Prelude Regex GoText DBLocks SafeHTTP BrokerTypes BrokerValidate BrokerFence BrokerFenceProps Scheduler.

Module SchedulerProps.
Import BrokerTypes BrokerValidate Scheduler.

(** ** Sorted keys *)

Definition slt (a b : string) : Prop := (a ≤ b)%string ∧ a ≠ b.

Lemma slt_trans a b c : slt a b → slt b c → slt a c.
Proof.
  intros [H1 N1] [H2 N2]. split; [by trans b|]. intros ->. apply N2. by apply (anti_symm String.le).
Qed.

Lemma sorted_snoc (R : string → string → Prop) l x :
  StronglySorted R l → Forall (λ y, R y x) l → StronglySorted R (l ++ [x]).
Proof.
  induction 1 as [|a l Hl IH Ha]; intros Hx; cbn; [repeat constructor|].
  inversion Hx; subst. constructor; [by apply IH|]. apply Forall_app. by repeat constructor.
Qed.

Lemma sorted_app_inv (R : string → string → Prop) l1 l2 :
  StronglySorted R (l1 ++ l2) →
  StronglySorted R l1 ∧ StronglySorted R l2 ∧ (∀ x y, x ∈ l1 → y ∈ l2 → R x y).
Proof.
  induction l1 as [|a l1 IH]; cbn; intros H; [repeat split; [constructor | done | set_solver]|].
  inversion H as [|? ? H1 H2]; subst. destruct (IH H1) as (S1 & S2 & S3). apply Forall_app in H2 as [F1 F2].
  split; [by constructor|]. split; [done|]. intros x y [->|Hx]%elem_of_cons Hy; [|eauto].
  rewrite Forall_forall in F2. auto.
Qed.

Lemma sorted_NoDup l : StronglySorted slt l → NoDup l.
Proof.
  induction 1 as [|a l Hl IH Ha]; constructor; [|done].
  intros Hin. rewrite Forall_forall in Ha. by destruct (Ha a Hin).
Qed.

Lemma take_S_insert {A} (arr : list A) j x :
  (j < length arr)%nat → take (S j) (<[j := x]> arr) = take j arr ++ [x].
Proof.
  intros Hj. rewrite (take_S_r _ _ x) by (by apply list_lookup_insert_eq).
  by rewrite take_insert_ge by lia.
Qed.

Lemma sorted_take_le l i k x :
  StronglySorted String.le l → l !! i = Some k → x ∈ take i l → (x ≤ k)%string.
Proof.
  intros Hl Hk. rewrite <- (take_drop_middle _ _ _ Hk) in Hl.
  apply sorted_app_inv in Hl as (_ & _ & H). intros Hx. apply H; [done | set_solver].
Qed.

(** A key that differs from its predecessor is new. *)
Lemma fresh_key l i k x :
  StronglySorted String.le l → l !! i = Some k → l !! (i - 1)%nat ≠ Some k → x ∈ take i l → slt x k.
Proof.
  intros Hl Hk Hne Hx. split; [by eapply sorted_take_le|]. intros ->. apply Hne.
  destruct i as [|i]; [by apply not_elem_of_nil in Hx|]. cbn. rewrite Nat.sub_0_r.
  destruct (lookup_lt_is_Some_2 l i) as [y Hy]; [apply lookup_lt_Some in Hk; lia|]. rewrite Hy. f_equal.
  rewrite (take_S_r _ _ _ Hy) in Hx. apply elem_of_app in Hx as [Hx|Hx]; [|set_solver].
  apply (anti_symm String.le).
  - eapply sorted_take_le; [done | exact Hk |]. rewrite (take_S_r _ _ _ Hy). set_solver.
  - by eapply sorted_take_le.
Qed.

(** The compacting loop keeps what it read: before reading index [i] the array
    still holds the sorted keys from [i - 1] on, and the part written holds the
    distinct keys before [i]. *)
Lemma compact_spec l0 n arr i j :
  StronglySorted String.le l0 → (n + i)%nat = length l0 → length arr = length l0 → (j ≤ i)%nat →
  (∀ m, (i - 1 ≤ m)%nat → arr !! m = l0 !! m) →
  StronglySorted slt (take j arr) → (∀ x, x ∈ take j arr ↔ x ∈ take i l0) →
  StronglySorted slt (compact n arr i j) ∧ ∀ x, x ∈ compact n arr i j ↔ x ∈ l0.
Proof.
  intros Hl0. revert arr i j. induction n as [|n IH]; intros arr i j Hn Hlen Hj Hsame Hs Hel; cbn [compact].
  { split; [done|]. intros x. rewrite Hel, take_ge by lia. done. }
  destruct (lookup_lt_is_Some_2 l0 i) as [k Hk]; [lia|].
  rewrite (Hsame i), Hk, (Hsame (i - 1)%nat) by lia. change (default "" (Some k)) with k.
  assert (take (S i) l0 = take i l0 ++ [k]) as Hti by (by apply take_S_r).
  destruct (bool_decide (i = 0%nat) || negb (bool_decide (l0 !! (i - 1)%nat = Some k))) eqn:Ec.
  - apply IH; try lia.
    + rewrite length_insert. lia.
    + intros m Hm. destruct (decide (m = j)) as [->|]; [|rewrite list_lookup_insert_ne by done; apply Hsame; lia].
      assert (j = i) as -> by lia. rewrite list_lookup_insert_eq by lia. done.
    + rewrite take_S_insert by lia. apply sorted_snoc; [done|]. apply Forall_forall. intros x Hx%Hel.
      apply orb_true_iff in Ec as [Ec%bool_decide_eq_true|Ec]; [subst; by apply not_elem_of_nil in Hx|].
      apply negb_true_iff, bool_decide_eq_false in Ec. by eapply fresh_key.
    + intros x. rewrite take_S_insert, Hti, !elem_of_app, Hel by lia. done.
  - apply orb_false_iff in Ec as [Ei Ek]. apply negb_false_iff, bool_decide_eq_true in Ek.
    apply bool_decide_eq_false in Ei. apply IH; try done; try lia.
    + intros m Hm. apply Hsame. lia.
    + intros x. rewrite Hti, Hel, elem_of_app. split; [auto|]. intros [?|Hx]; [done|].
      apply list_elem_of_singleton in Hx as ->.
      apply (list_elem_of_lookup_2 _ (i - 1)). by rewrite lookup_take_lt by lia.
Qed.

Lemma unique_sorted_spec keys :
  StronglySorted slt (unique_sorted keys) ∧ ∀ k, k ∈ unique_sorted keys ↔ k ∈ keys.
Proof.
  unfold unique_sorted. pose proof (merge_sort_Permutation String.le keys) as HP.
  destruct (compact_spec (merge_sort String.le keys) (length (merge_sort String.le keys)) (merge_sort String.le keys) 0 0)
    as [H1 H2]; try done; try lia.
  - apply StronglySorted_merge_sort; apply _.
  - rewrite take_0. constructor.
  - split; [done|]. intros k. by rewrite H2, HP.
Qed.

(** ** Counting requests *)

Definition cnt (f : Phase → bool) (l : list Phase) : Z := Z.of_nat (length (filter (λ p, f p = true) l)).

Lemma cnt_cons f p l : cnt f (p :: l) = Z.b2z (f p) + cnt f l.
Proof. unfold cnt. rewrite filter_cons. destruct (f p) eqn:E; case_decide; cbn; lia || congruence. Qed.
Lemma cnt_nonneg f l : 0 ≤ cnt f l.
Proof. unfold cnt. lia. Qed.

Lemma cnt_insert f l i p p' :
  l !! i = Some p → cnt f (<[i := p']> l) = cnt f l - Z.b2z (f p) + Z.b2z (f p').
Proof.
  revert i. induction l as [|q l IH]; intros i Hi; [done|]. destruct i as [|i]; cbn in *.
  - simplify_eq. rewrite !cnt_cons. lia.
  - rewrite !cnt_cons, IH by done. lia.
Qed.

Lemma cnt_pos f l i p : l !! i = Some p → f p = true → 1 ≤ cnt f l.
Proof.
  intros Hi Hf. pose proof (cnt_insert f l i p (Done true) Hi) as E. rewrite Hf in E.
  pose proof (cnt_nonneg f (<[i := Done true]> l)). destruct (f (Done true)); cbn in E;
    [|lia]. rewrite <- (take_drop_middle _ _ _ Hi). unfold cnt. rewrite filter_app, filter_cons.
  case_decide; [|congruence]. rewrite length_app. cbn. lia.
Qed.

Lemma cnt_zero f l : cnt f l = 0 ↔ ∀ i p, l !! i = Some p → f p = false.
Proof.
  split.
  - intros H i p Hi. destruct (f p) eqn:E; [|done]. pose proof (cnt_pos f l i p Hi E). lia.
  - induction l as [|q l IH]; intros H; [done|]. rewrite cnt_cons, IH; [|intros i p; apply (H (S i))].
    by rewrite (H 0%nat q).
Qed.

Lemma cnt_two f l i j p q : l !! i = Some p → l !! j = Some q → i ≠ j → f p = true → f q = true → 2 ≤ cnt f l.
Proof.
  intros Hi Hj Hij Hp Hq. destruct (f (Done true)) eqn:E.
  - revert i j Hi Hj Hij. induction l as [|x l IH]; intros i j Hi Hj Hij; [done|]. rewrite cnt_cons.
    destruct i as [|i], j as [|j]; cbn in *; simplify_eq.
    + rewrite Hp. pose proof (cnt_pos f l j q Hj Hq). cbn. lia.
    + rewrite Hq. pose proof (cnt_pos f l i p Hi Hp). cbn. lia.
    + specialize (IH i j Hi Hj ltac:(lia)). destruct (f x); cbn; lia.
  - pose proof (cnt_insert f l i p (Done true) Hi) as E1. rewrite Hp, E in E1. cbn in E1.
    assert (<[i := Done true]> l !! j = Some q) as Hj' by (by rewrite list_lookup_insert_ne).
    pose proof (cnt_pos f _ j q Hj' Hq). lia.
Qed.

(** ** The gate *)

Definition running_shared (p : Phase) : bool := match p with Running false _ => true | _ => false end.
Definition running_exclusive (p : Phase) : bool := match p with Running true _ => true | _ => false end.
Definition waits_exclusive (p : Phase) : bool := match p with GateWaiting true _ _ => true | _ => false end.

(** The counters are exact, the limit holds, an exclusive request is alone, and a
    sleeping request that could be admitted has been woken. *)
Record gate_ok (g : Gate) (l : list Phase) : Prop := {
  go_limit : 1 ≤ limit g;
  go_active : active g = cnt running_shared l;
  go_exclusive : Z.b2z (exclusive g) = cnt running_exclusive l;
  go_waiting : waitingExclusive g = cnt waits_exclusive l;
  go_bound : active g ≤ limit g;
  go_alone : exclusive g = true → active g = 0;
  go_seen : ∀ i excl seen held, l !! i = Some (GateWaiting excl seen held) →
    (seen ≤ gen g)%nat ∧ (seen = gen g → try_enter excl g = None)
}.

(** A change of the gate that keeps its generation admits no sleeper that was not
    admitted before. *)
Definition no_easier (g g' : Gate) : Prop :=
  (gen g < gen g')%nat ∨ (gen g = gen g' ∧ ∀ excl, try_enter excl g = None → try_enter excl g' = None).

Lemma no_easier_refl g : no_easier g g.
Proof. right. auto. Qed.

Lemma seen_step g g' (l : list Phase) i p p' :
  (∀ j excl seen held, l !! j = Some (GateWaiting excl seen held) →
     (seen ≤ gen g)%nat ∧ (seen = gen g → try_enter excl g = None)) →
  no_easier g g' → l !! i = Some p →
  (∀ excl seen held, p' = GateWaiting excl seen held → seen = gen g' ∧ try_enter excl g' = None) →
  ∀ j excl seen held, <[i := p']> l !! j = Some (GateWaiting excl seen held) →
     (seen ≤ gen g')%nat ∧ (seen = gen g' → try_enter excl g' = None).
Proof.
  intros Hold Hne Hi Hnew j excl seen held Hj. destruct (decide (j = i)) as [->|Hji].
  - rewrite list_lookup_insert_eq in Hj by (by eapply lookup_lt_Some). injection Hj as ->.
    destruct (Hnew _ _ _ eq_refl) as [-> ?]. split; [lia | done].
  - rewrite list_lookup_insert_ne in Hj by done. destruct (Hold _ _ _ _ Hj) as [H1 H2].
    destruct Hne as [Hlt|[Heq Ht]]; [split; lia|]. rewrite <- Heq. split; [done|]. auto.
Qed.

Lemma try_enter_spec excl g g' :
  try_enter excl g = Some g' ↔
  exclusive g = false ∧
  (if excl then active g = 0 else waitingExclusive g = 0 ∧ active g < limit g) ∧
  g' = mkGate (limit g) (active g + Z.b2z (negb excl)) excl (waitingExclusive g - Z.b2z excl) (gen g).
Proof.
  unfold try_enter. destruct g as [lim act ex w ge], excl; cbn [exclusive active waitingExclusive limit gen negb Z.b2z].
  - destruct ex; cbn [negb andb]; [split; [done | by intros (? & _)]|].
    destruct (act =? 0) eqn:E; [apply Z.eqb_eq in E | apply Z.eqb_neq in E]; split; try done; try (intros (_ & ? & _); lia).
    + intros [= <-]. rewrite Z.add_0_r. done.
    + intros (_ & _ & ->). by rewrite Z.add_0_r.
  - destruct ex; cbn [negb andb]; [split; [done | by intros (? & _)]|].
    destruct (w =? 0) eqn:E; [apply Z.eqb_eq in E | apply Z.eqb_neq in E]; cbn [andb];
      [|split; [done | intros (_ & [? _] & _); lia]].
    destruct (act <? lim) eqn:E2; [apply Z.ltb_lt in E2 | apply Z.ltb_ge in E2]; split; try done; try (intros (_ & ? & _); lia).
    + intros [= <-]. rewrite Z.sub_0_r. done.
    + intros (_ & _ & ->). by rewrite Z.sub_0_r.
Qed.

Lemma try_enter_None excl g :
  try_enter excl g = None ↔ ¬ (exclusive g = false ∧ (if excl then active g = 0 else waitingExclusive g = 0 ∧ active g < limit g)).
Proof.
  destruct (try_enter excl g) as [g'|] eqn:E.
  - apply try_enter_spec in E as (H1 & H2 & _). split; [done|]. by intros [].
  - split; [|done]. intros _ [H1 H2].
    assert (try_enter excl g = Some (mkGate (limit g) (active g + Z.b2z (negb excl)) excl (waitingExclusive g - Z.b2z excl) (gen g)))
      as E' by (by apply try_enter_spec). congruence.
Qed.

(** Entering, or announcing an exclusive request, makes no room for others. *)
Lemma enter_no_easier excl g g' : 0 ≤ active g → try_enter excl g = Some g' → no_easier g g'.
Proof.
  intros Ha (He & Hc & ->)%try_enter_spec. right. split; [done|]. intros x. rewrite !try_enter_None. cbn.
  destruct excl; [by intros _ []|]. cbn. destruct x; [intros _ []; lia | intros Hn; exfalso; by apply Hn].
Qed.

Lemma announce_no_easier excl g : 0 ≤ waitingExclusive g → no_easier g (announce excl g).
Proof.
  intros Hw. destruct excl; [|apply no_easier_refl]. right. split; [done|]. intros x.
  rewrite !try_enter_None. destruct x; cbn; [done|]. intros _ (_ & ? & _). lia.
Qed.

Lemma no_easier_trans g1 g2 g3 : no_easier g1 g2 → no_easier g2 g3 → no_easier g1 g3.
Proof. unfold no_easier. intros [H1|[H1 H1']] [H2|[H2 H2']]; [left; lia..|]. right. split; [congruence | auto]. Qed.

Lemma gate_update g g' (l : list Phase) i p p' :
  gate_ok g l → l !! i = Some p → no_easier g g' → limit g' = limit g →
  active g' = active g - Z.b2z (running_shared p) + Z.b2z (running_shared p') →
  Z.b2z (exclusive g') = Z.b2z (exclusive g) - Z.b2z (running_exclusive p) + Z.b2z (running_exclusive p') →
  waitingExclusive g' = waitingExclusive g - Z.b2z (waits_exclusive p) + Z.b2z (waits_exclusive p') →
  active g' ≤ limit g' → (exclusive g' = true → active g' = 0) →
  (∀ excl seen held, p' = GateWaiting excl seen held → seen = gen g' ∧ try_enter excl g' = None) →
  gate_ok g' (<[i := p']> l).
Proof.
  intros [Hlim Hact Hexc Hwait Hbound Halone Hseen] Hi Hne Hl Ha He Hw Hb Hal Hs.
  constructor; rewrite ?(cnt_insert _ _ _ _ _ Hi); try lia; try done. by eapply seen_step.
Qed.

(** Phases the gate knows nothing of. *)
Definition outside (p : Phase) : bool := match p with Running _ _ | GateWaiting _ _ _ => false | _ => true end.

Lemma gate_outside g (l : list Phase) i p p' :
  gate_ok g l → l !! i = Some p → outside p = true → outside p' = true → gate_ok g (<[i := p']> l).
Proof.
  intros Hg Hi Hp Hp'. eapply gate_update; [exact Hg | exact Hi | apply no_easier_refl | done |..].
  all: try (destruct p, p'; cbn in *; done || lia). all: apply Hg.
Qed.

Lemma release_no_easier excl g : no_easier g (gate_release excl g).
Proof. left. destruct excl; cbn; lia. Qed.

Lemma gate_facts g l : gate_ok g l → 0 ≤ active g ∧ 0 ≤ waitingExclusive g.
Proof. intros H. rewrite (go_active _ _ H), (go_waiting _ _ H). split; apply cnt_nonneg. Qed.

Lemma running_alone g (l : list Phase) i excl held :
  gate_ok g l → l !! i = Some (Running excl held) → exclusive g = excl ∧ (excl = false → 1 ≤ active g).
Proof.
  intros Hg Hi. destruct excl.
  - pose proof (cnt_pos running_exclusive l i _ Hi eq_refl) as Hp. rewrite <- (go_exclusive _ _ Hg) in Hp.
    by destruct (exclusive g).
  - pose proof (cnt_pos running_shared l i _ Hi eq_refl) as Hp. rewrite <- (go_active _ _ Hg) in Hp.
    split; [|done]. destruct (exclusive g) eqn:E; [|done]. pose proof (go_alone _ _ Hg E). lia.
Qed.

(** The steps that enter: at once, or from a wait. *)
Lemma gate_enter g g1 g' (l : list Phase) i p excl held :
  gate_ok g l → l !! i = Some p → running_shared p = false → running_exclusive p = false → no_easier g g1 →
  limit g1 = limit g → active g1 = active g → exclusive g1 = exclusive g →
  waitingExclusive g1 = waitingExclusive g - Z.b2z (waits_exclusive p) + Z.b2z excl →
  try_enter excl g1 = Some g' → gate_ok g' (<[i := Running excl held]> l).
Proof.
  intros Hg Hi Hs He Hne Hl Ha Hx Hw Ht. pose proof (gate_facts _ _ Hg) as [Ha0 Hw0].
  pose proof (enter_no_easier excl g1 g' ltac:(lia) Ht) as Hne'. apply try_enter_spec in Ht as (H1 & H2 & ->).
  eapply gate_update; [exact Hg | exact Hi | by eapply no_easier_trans |..]; cbn; rewrite ?Hs, ?He; try done.
  - destruct excl; cbn in *; lia.
  - rewrite <- Hx, H1. destruct excl; cbn in *; lia.
  - destruct excl; cbn in *; lia.
  - pose proof (go_bound _ _ Hg). destruct excl; cbn in *; lia.
  - destruct excl; [cbn in *; lia | done].
Qed.

(** One step keeps the gate's invariant. *)
Lemma gate_step s g (l : list Phase) i p s' g' p' timeout :
  gate_ok g l → l !! i = Some p → move s g p s' g' p' timeout → gate_ok g' (<[i := p']> l).
Proof.
  intros Hg Hi Hm. pose proof (gate_facts _ _ Hg) as [Ha Hw]. pose proof (go_bound _ _ Hg) as Hb.
  inversion Hm; subst; try (by eapply gate_outside).
  - eapply (gate_enter g (announce excl g)); try done; [by apply announce_no_easier|..]; destruct excl; cbn; lia || done.
  - eapply gate_update; [exact Hg | exact Hi | by apply announce_no_easier |..]; try (destruct excl; cbn; lia || done).
    + destruct excl; apply Hg.
    + intros x seen h [= <- <- <-]. split; [by destruct excl | done].
  - eapply (gate_enter g g); try done; [apply no_easier_refl | destruct excl; cbn; lia].
  - eapply gate_update; [exact Hg | exact Hi | apply no_easier_refl |..]; try (destruct excl; cbn; lia || done).
    + apply Hg.
    + intros x seen' h [= <- <- <-]. done.
  - eapply gate_update; [exact Hg | exact Hi | |..]; try (destruct excl; cbn; lia || done); [|destruct excl; apply Hg].
    destruct excl; [left; cbn; lia | apply no_easier_refl].
  - destruct (running_alone _ _ _ _ _ Hg Hi) as [He Hr].
    eapply gate_update; [exact Hg | exact Hi | apply release_no_easier |..]; destruct excl; cbn; rewrite ?He; try (cbn; lia || done).
Qed.

(** ** The keyed locks *)

(** The keys a request holds, those it has a reference to, and the lock object it
    is about to use. *)
Definition holdkeys (p : Phase) : list string :=
  match p with
  | Acquiring _ h | Waiting _ _ _ h | TimedOut _ h | GateEnter _ h | GateWaiting _ _ h | Running _ h
  | Releasing h _ | Unrefing _ h _ => h
  | Draining k _ h _ => h ++ [k]
  | Bypass | Done _ => []
  end.
Definition refkeys (p : Phase) : list string :=
  match p with
  | Waiting k _ _ h | TimedOut k h | Unrefing k h _ => h ++ [k]
  | _ => holdkeys p
  end.
Definition uses (p : Phase) : option (string * nat) :=
  match p with Waiting k o _ _ | Draining k o _ _ => Some (k, o) | _ => None end.

(** The keys of a request, held and to come, are strictly increasing. *)
Definition allkeys (p : Phase) : list string :=
  match p with
  | Acquiring todo h => h ++ todo
  | Waiting k _ todo h => h ++ k :: todo
  | _ => refkeys p
  end.

Definition refs (k : string) (p : Phase) : bool := bool_decide (k ∈ refkeys p).
Definition holds (k : string) (p : Phase) : bool := bool_decide (k ∈ holdkeys p).

(** The lock of a key exists exactly while it is referenced; its count is the
    number of references and its channel is full exactly while one request holds
    it. *)
Definition lock_of (s : KeyedLocks) (k : string) (r h : Z) : Prop :=
  match k_map s !! k with
  | None => r = 0 ∧ h = 0
  | Some o => ∃ b, k_heap s !! o = Some (b, r) ∧ 1 ≤ r ∧ Z.b2z b = h
  end.

Record locks_ok (s : KeyedLocks) (l : list Phase) : Prop := {
  lk_lock : ∀ k, lock_of s k (cnt (refs k) l) (cnt (holds k) l);
  lk_inj : ∀ k k' o, k_map s !! k = Some o → k_map s !! k' = Some o → k = k';
  lk_fresh : ∀ k o, k_map s !! k = Some o → (o < k_next s)%nat;
  lk_uses : ∀ (i : nat) p k o, l !! i = Some p → uses p = Some (k, o) → k_map s !! k = Some o;
  lk_keys : ∀ (i : nat) p, l !! i = Some p → StronglySorted slt (allkeys p)
}.

Lemma holds_refs k p : holds k p = true → refs k p = true.
Proof. unfold holds, refs. rewrite !bool_decide_eq_true. destruct p; cbn; set_solver. Qed.

Lemma cnt_mono (f f' : Phase → bool) l : (∀ p, f p = true → f' p = true) → cnt f l ≤ cnt f' l.
Proof.
  intros H. induction l as [|p l IH]; [done|]. rewrite !cnt_cons. specialize (H p).
  destruct (f p); [rewrite H by done | destruct (f' p)]; cbn; lia.
Qed.

(** The other requests hold at most what they reference. *)
Lemma cnt_others k (l : list Phase) i p : l !! i = Some p →
  0 ≤ cnt (holds k) l - Z.b2z (holds k p) ≤ cnt (refs k) l - Z.b2z (refs k p).
Proof.
  intros Hi. pose proof (cnt_insert (holds k) l i p (Done true) Hi) as H1.
  pose proof (cnt_insert (refs k) l i p (Done true) Hi) as H2.
  change (holds k (Done true)) with (bool_decide (k ∈ @nil string)) in H1.
  change (refs k (Done true)) with (bool_decide (k ∈ @nil string)) in H2.
  rewrite bool_decide_false in H1, H2 by apply not_elem_of_nil. cbn [Z.b2z] in H1, H2.
  pose proof (cnt_nonneg (holds k) (<[i := Done true]> l)).
  pose proof (cnt_mono (holds k) (refs k) (<[i := Done true]> l) (holds_refs k)). lia.
Qed.

(** What a step has to establish. *)
Lemma locks_update s s' (l : list Phase) i p p' :
  locks_ok s l → l !! i = Some p →
  (∀ k r h, lock_of s k r h → 0 ≤ h - Z.b2z (holds k p) ≤ r - Z.b2z (refs k p) →
     lock_of s' k (r - Z.b2z (refs k p) + Z.b2z (refs k p')) (h - Z.b2z (holds k p) + Z.b2z (holds k p'))) →
  (∀ k k' o, k_map s' !! k = Some o → k_map s' !! k' = Some o → k = k') →
  (∀ k o, k_map s' !! k = Some o → (o < k_next s')%nat) →
  (∀ k o, k_map s !! k = Some o → k_map s' !! k = Some o ∨ cnt (refs k) (<[i := p']> l) = 0) →
  (∀ k o, uses p' = Some (k, o) → k_map s' !! k = Some o) →
  StronglySorted slt (allkeys p') →
  locks_ok s' (<[i := p']> l).
Proof.
  intros [Hl Hinj Hf Hu Hk] Hi Hlock Hinj' Hf' Hmap Huse Hkeys. constructor; try done.
  - intros k. rewrite !(cnt_insert _ _ _ _ _ Hi). apply Hlock; [done|]. by eapply cnt_others.
  - intros j q k o Hj Hq. destruct (decide (j = i)) as [->|Hji].
    + rewrite list_lookup_insert_eq in Hj by (by eapply lookup_lt_Some). injection Hj as <-. auto.
    + assert (Hq' := Hj). rewrite list_lookup_insert_ne in Hj by done. specialize (Hu j q k o Hj Hq).
      destruct (Hmap _ _ Hu) as [?|Hz]; [done|]. rewrite cnt_zero in Hz. specialize (Hz _ _ Hq').
      unfold refs in Hz. apply bool_decide_eq_false in Hz. exfalso. apply Hz.
      destruct q; cbn in Hq; simplify_eq; cbn; set_solver.
  - intros j q Hj. destruct (decide (j = i)) as [->|Hji].
    + rewrite list_lookup_insert_eq in Hj by (by eapply lookup_lt_Some). by injection Hj as <-.
    + rewrite list_lookup_insert_ne in Hj by done. eauto.
Qed.

(** A step that leaves the locks and the request's keys alone. *)
Lemma locks_same s (l : list Phase) i p p' :
  locks_ok s l → l !! i = Some p → refkeys p' = refkeys p → holdkeys p' = holdkeys p →
  (∀ k o, uses p' = Some (k, o) → k_map s !! k = Some o) → StronglySorted slt (allkeys p') →
  locks_ok s (<[i := p']> l).
Proof.
  intros Hl Hi Hr Hh Hu Hs. eapply locks_update; try done; try apply Hl; [|by left].
  intros k r h H _. unfold refs, holds. rewrite Hr, Hh. by replace (r - _ + _) with r by lia; replace (h - _ + _) with h by lia.
Qed.

Lemma refs_snoc k k' p p' :
  refkeys p' = refkeys p ++ [k] → k ∉ refkeys p →
  Z.b2z (refs k' p') - Z.b2z (refs k' p) = Z.b2z (bool_decide (k' = k)).
Proof.
  intros Hr Hn.
  unfold refs. rewrite Hr. repeat case_bool_decide; cbn; try lia; set_solver.
Qed.

Lemma holds_same k p p' : holdkeys p' = holdkeys p → holds k p' = holds k p.
Proof. unfold holds. by intros ->. Qed.

(** Taking a reference changes the count of its key only. *)
Lemma ref_lock s s' o k k' r h d :
  ref k s = (o, s') → (∀ k k' o, k_map s !! k = Some o → k_map s !! k' = Some o → k = k') →
  (∀ k o, k_map s !! k = Some o → (o < k_next s)%nat) →
  lock_of s k' r h → d = Z.b2z (bool_decide (k' = k)) → lock_of s' k' (r + d) h.
Proof.
  intros Href Hinj Hfr Hlo ->. unfold ref in Href. unfold lock_of in *.
  destruct (k_map s !! k) as [o'|] eqn:Hk; injection Href as <- <-; cbn.
  - destruct (k_map s !! k') as [o2|] eqn:Hk'.
    + destruct Hlo as (b & Hb & Hr1 & Hb2). exists b. destruct (decide (o2 = o')) as [->|Ho].
      * rewrite bool_decide_true by (by eapply Hinj). rewrite lookup_alter_eq, Hb. cbn. split; [done | lia].
      * rewrite bool_decide_false by congruence. rewrite lookup_alter_ne, Hb, Z.add_0_r by done. done.
    + rewrite bool_decide_false by congruence. cbn. lia.
  - destruct (decide (k' = k)) as [->|Hne].
    + rewrite Hk in Hlo. destruct Hlo as [-> ->]. rewrite bool_decide_true, !lookup_insert_eq by done. by exists false.
    + rewrite bool_decide_false, lookup_insert_ne, Z.add_0_r by done. destruct (k_map s !! k') as [o2|] eqn:Hk'; [|done].
      destruct Hlo as (b & Hb & Hr1 & Hb2). specialize (Hfr _ _ Hk'). exists b. by rewrite lookup_insert_ne, Hb by lia.
Qed.

Lemma locks_ref s s' o (l : list Phase) i p p' k :
  locks_ok s l → l !! i = Some p → ref k s = (o, s') →
  refkeys p' = refkeys p ++ [k] → holdkeys p' = holdkeys p → k ∉ refkeys p →
  uses p' = Some (k, o) → StronglySorted slt (allkeys p') →
  locks_ok s' (<[i := p']> l).
Proof.
  intros Hl Hi Href Hr Hh Hn Hu Hs. pose proof (lk_inj _ _ Hl) as Hinj. pose proof (lk_fresh _ _ Hl) as Hfr.
  eapply locks_update; [exact Hl | exact Hi | | | | | |exact Hs].
  { intros k' r h Hlo _. pose proof (refs_snoc k k' p p' Hr Hn) as Hd. rewrite (holds_same _ _ _ Hh).
    replace (r - _ + _) with (r + Z.b2z (bool_decide (k' = k))) by lia. replace (h - _ + _) with h by lia.
    by eapply ref_lock. }
  all: unfold ref in Href; destruct (k_map s !! k) as [o'|] eqn:Hk; injection Href as <- <-; cbn; try done.
  - intros k1 k2 o H1%insert_cases H2%insert_cases.
    destruct H1 as [[-> E1]|[N1 H1]], H2 as [[-> E2]|[N2 H2]]; try done; subst.
    + apply Hfr in H2. lia.
    + apply Hfr in H1. lia.
    + by eapply Hinj.
  - intros k1 o H1%insert_cases. destruct H1 as [[-> ->]|[N1 H1%Hfr]]; lia.
  - by left.
  - intros k1 o Hk1. left. rewrite lookup_insert_ne; [done | congruence].
  - intros ? ? Hx. rewrite Hu in Hx. by injection Hx as <- <-.
  - intros ? ? Hx. rewrite Hu in Hx. injection Hx as <- <-. by rewrite lookup_insert_eq.
Qed.

(** Filling or draining the channel of a key. *)
Lemma locks_full s (l : list Phase) i p p' k o b :
  locks_ok s l → l !! i = Some p → k_map s !! k = Some o → full o s = Some (negb b) →
  refkeys p' = refkeys p → uses p' = None → StronglySorted slt (allkeys p') →
  (∀ k', Z.b2z (holds k' p') - Z.b2z (holds k' p) = if bool_decide (k' = k) then (if b then 1 else -1) else 0) →
  locks_ok (set_full o b s) (<[i := p']> l).
Proof.
  intros Hl Hi Hk Hf Hr Hu Hs Hh. pose proof (lk_inj _ _ Hl) as Hinj.
  eapply locks_update; [exact Hl | exact Hi | | exact Hinj | apply (lk_fresh _ _ Hl) | by left | by rewrite Hu | exact Hs].
  intros k' r h Hlo _. specialize (Hh k'). unfold refs. rewrite Hr. replace (r - _ + _) with r by lia.
  unfold lock_of, set_full in *. cbn. destruct (k_map s !! k') as [o2|] eqn:Hk'.
  - destruct Hlo as (b' & Hb & Hr1 & Hb2). destruct (decide (o2 = o)) as [->|Ho].
    + rewrite bool_decide_true in Hh by (by eapply Hinj). unfold full in Hf. rewrite Hb in Hf. injection Hf as ->.
      exists b. rewrite lookup_alter_eq, Hb. cbn. split; [done|]. destruct b; cbn in *; lia.
    + rewrite bool_decide_false in Hh by congruence. exists b'. rewrite lookup_alter_ne, Hb by done. split; [done | lia].
  - rewrite bool_decide_false in Hh by congruence. lia.
Qed.

(** Dropping a reference; the last one removes the lock. *)
Lemma unref_lock s s' k k' r h :
  unref k s = Some s' → (∀ k k' o, k_map s !! k = Some o → k_map s !! k' = Some o → k = k') →
  lock_of s k' r h → 0 ≤ h ≤ r - Z.b2z (bool_decide (k' = k)) →
  lock_of s' k' (r - Z.b2z (bool_decide (k' = k))) h.
Proof.
  intros Hun Hinj Hlo Hle. unfold unref in Hun. destruct (k_map s !! k) as [o|] eqn:Hk; [|done]. cbn in Hun.
  destruct (k_heap s !! o) as [[b n]|] eqn:Ho; [|done]. cbn in Hun. injection Hun as <-.
  unfold lock_of in *. cbn. destruct (decide (k' = k)) as [->|Hne].
  - rewrite bool_decide_true in * by done. cbn in Hle |- *.
    rewrite Hk, Ho in Hlo. destruct Hlo as (b' & [= <- <-] & Hr & Hb). destruct (n - 1 =? 0) eqn:E.
    + apply Z.eqb_eq in E. rewrite lookup_delete_eq. lia.
    + apply Z.eqb_neq in E. rewrite Hk. exists b. rewrite lookup_insert_eq. split; [done | lia].
  - rewrite bool_decide_false in * by done. rewrite Z.sub_0_r.
    assert ((if n - 1 =? 0 then delete k (k_map s) else k_map s) !! k' = k_map s !! k') as ->
      by (case_if; [by rewrite lookup_delete_ne | done]).
    destruct (k_map s !! k') as [o2|] eqn:Hk'; [|done]. destruct Hlo as (b' & Hb & ?). exists b'.
    rewrite lookup_insert_ne; [done|]. intros <-. apply Hne. by eapply Hinj.
Qed.

Lemma unref_map s s' k r h k1 o :
  unref k s = Some s' → lock_of s k r h →
  (k_map s' !! k1 = Some o → k_map s !! k1 = Some o) ∧
  (k_map s !! k1 = Some o → k_map s' !! k1 = Some o ∨ (k1 = k ∧ r = 1)) ∧ k_next s' = k_next s.
Proof.
  intros Hun Hlo. unfold unref in Hun. unfold lock_of in Hlo. destruct (k_map s !! k) as [o1|] eqn:Hk; [|done]. cbn in Hun.
  destruct (k_heap s !! o1) as [[b n]|] eqn:Ho; [|done]. cbn in Hun. injection Hun as <-. cbn.
  destruct Hlo as (b' & [= <- <-] & _). destruct (n - 1 =? 0) eqn:E; [|by auto].
  apply Z.eqb_eq in E. split; [by intros [_ ?]%lookup_delete_Some|]. split; [|done]. intros H1.
  destruct (decide (k1 = k)); [right; split; [done | lia] | left; by rewrite lookup_delete_ne].
Qed.

Lemma locks_unref s s' (l : list Phase) i p p' k :
  locks_ok s l → l !! i = Some p → unref k s = Some s' →
  refkeys p = refkeys p' ++ [k] → holdkeys p' = holdkeys p → k ∉ refkeys p' → uses p' = None →
  StronglySorted slt (allkeys p') → k ∉ holdkeys p →
  locks_ok s' (<[i := p']> l).
Proof.
  intros Hl Hi Hun Hr Hh Hn Hu Hs Hnh. pose proof (lk_inj _ _ Hl) as Hinj. pose proof (lk_fresh _ _ Hl) as Hfr.
  pose proof (λ k', refs_snoc k k' p' p Hr Hn) as Hd.
  pose proof (λ k1 o, unref_map _ _ _ _ _ k1 o Hun (lk_lock _ _ Hl k)) as Hm.
  eapply locks_update; [exact Hl | exact Hi | | | | | by rewrite Hu | exact Hs].
  - intros k' r h Hlo Hle. specialize (Hd k'). rewrite (holds_same _ _ _ Hh). replace (h - _ + _) with h by lia.
    replace (r - _ + _) with (r - Z.b2z (bool_decide (k' = k))) by lia. eapply unref_lock; [done | done | done |].
    assert (0 ≤ Z.b2z (holds k' p)) by (by destruct (holds k' p)).
    assert (0 ≤ Z.b2z (refs k' p')) by (by destruct (refs k' p')).
    destruct (decide (k' = k)) as [->|Hne].
    + unfold holds in Hle. rewrite (bool_decide_false _ Hnh) in Hle. cbn in Hle. lia.
    + rewrite bool_decide_false in * by done. cbn in *. destruct (holds k' p) eqn:E; cbn in *; [|lia].
      apply holds_refs in E. rewrite E in *. cbn in *. lia.
  - intros k1 k2 o H1%Hm H2%Hm. by eapply Hinj.
  - intros k1 o H1. destruct (Hm k1 o) as (Hm1 & _ & ->). by apply (Hfr k1), Hm1.
  - intros k1 o H1. destruct (Hm k1 o) as (_ & Hm2 & _). destruct (Hm2 H1) as [?|[-> E]]; [by left|right].
    rewrite (cnt_insert _ _ _ _ _ Hi), E. specialize (Hd k). rewrite bool_decide_true in Hd by done. cbn in Hd. lia.
Qed.

(** One step keeps the invariant of the locks. *)
Lemma sorted_last_notin l k : StronglySorted slt (l ++ [k]) → k ∉ l.
Proof. intros (_ & _ & H)%sorted_app_inv Hk. destruct (H k k Hk); [set_solver | done]. Qed.

Lemma sorted_middle_notin l k t : StronglySorted slt (l ++ k :: t) → k ∉ l ∧ StronglySorted slt (l ++ [k]) ∧ StronglySorted slt l.
Proof.
  intros (S1 & _ & H)%sorted_app_inv. split; [|split; [|done]].
  - intros Hk. destruct (H k k Hk); [set_solver | done].
  - apply sorted_snoc; [done|]. apply Forall_forall. intros x Hx. apply H; [done | set_solver].
Qed.

Lemma holds_snoc k k' p p' :
  holdkeys p' = holdkeys p ++ [k] → k ∉ holdkeys p →
  Z.b2z (holds k' p') - Z.b2z (holds k' p) = if bool_decide (k' = k) then 1 else 0.
Proof. intros Hr Hn. unfold holds. rewrite Hr. repeat case_bool_decide; cbn; try lia; set_solver. Qed.

Lemma locks_step s g (l : list Phase) i p s' g' p' timeout :
  locks_ok s l → l !! i = Some p → move s g p s' g' p' timeout → locks_ok s' (<[i := p']> l).
Proof.
  intros Hl Hi Hm. pose proof (lk_keys _ _ Hl i p Hi) as Hk. pose proof (λ k o, lk_uses _ _ Hl i p k o Hi) as Hu.
  inversion Hm; subst; cbn in Hk; try (by eapply locks_same); try (eapply locks_same; done || constructor).
  - eapply locks_ref; try done; cbn; by apply sorted_middle_notin in Hk as [? _].
  - apply sorted_middle_notin in Hk as Hk'. destruct Hk' as (Hn & _ & _).
    eapply locks_full; try done; cbn; [by apply Hu | by rewrite <- app_assoc |]. intros k'. by apply holds_snoc.
  - eapply locks_same; try done. by apply sorted_middle_notin in Hk as (_ & ? & _).
  - eapply locks_unref; try done; cbn; by apply sorted_middle_notin in Hk as (? & _ & ?).
  - eapply locks_same; try done. cbn. by rewrite app_nil_r in Hk.
  - eapply locks_same; try done. cbn. by intros ? ? [= <- <-].
  - apply sorted_middle_notin in Hk as Hk'. destruct Hk' as (Hn & _ & _).
    eapply locks_full; try done; cbn; [by apply Hu|]. intros k'.
    pose proof (holds_snoc k k' (Unrefing k held ran) (Draining k o held ran) eq_refl Hn).
    case_bool_decide; lia.
  - eapply locks_unref; try done; cbn; by apply sorted_middle_notin in Hk as (? & _ & ?).
Qed.

(** ** Reachable states *)

Record inv (w : State) : Prop := { inv_gate : gate_ok (gate w) (pool w); inv_locks : locks_ok (kl w) (pool w) }.

Lemma inv_step w w' timeout : inv w → step w w' timeout → inv w'.
Proof. intros [Hg Hl] [i p s' g' p' t Hi Hm]. split; cbn; [by eapply gate_step | by eapply locks_step]. Qed.

Lemma cnt_startable f ps : Forall startable ps → (∀ p, startable p → f p = false) → cnt f ps = 0.
Proof.
  intros Hps Hf. apply cnt_zero. intros i p Hi. apply Hf. rewrite Forall_forall in Hps. apply Hps.
  by eapply list_elem_of_lookup_2.
Qed.

Lemma inv_init lim ps : 1 ≤ lim → Forall startable ps → inv (init lim ps).
Proof.
  intros Hlim Hps.
  assert (Hz : ∀ f, (∀ todo, f (Acquiring todo []) = false) → f Bypass = false → cnt f ps = 0).
  { intros f H1 H2. apply cnt_startable; [done|]. by intros p [->|[keys ->]]. }
  split; constructor; cbn; rewrite ?Hz; try done; try lia.
  - intros i excl seen held Hi. rewrite Forall_forall in Hps.
    destruct (Hps _ (list_elem_of_lookup_2 _ _ _ Hi)) as [|[? ?]]; done.
  - intros k. unfold lock_of. cbn. rewrite lookup_empty. split; apply Hz; try done; intros; by apply bool_decide_false, not_elem_of_nil.
  - intros i p k o Hi. rewrite Forall_forall in Hps.
    destruct (Hps _ (list_elem_of_lookup_2 _ _ _ Hi)) as [->|[keys ->]]; done.
  - intros i p Hi. rewrite Forall_forall in Hps.
    destruct (Hps _ (list_elem_of_lookup_2 _ _ _ Hi)) as [->|[keys ->]]; [constructor | apply unique_sorted_spec].
Qed.

Lemma inv_reachable lim w : 1 ≤ lim → reachable lim w → inv w.
Proof.
  intros Hlim (ps & Hps & Hr). assert (inv (init lim ps)) as H0 by (by apply inv_init).
  remember (init lim ps) as w0 eqn:E. clear E. induction Hr as [|w1 w2 w3 [t Hs] _ IH]; [done|].
  apply IH. by eapply inv_step.
Qed.

Lemma cnt_witness f l : 1 ≤ cnt f l → ∃ (i : nat) p, l !! i = Some p ∧ f p = true.
Proof.
  unfold cnt. intros H. destruct (filter (λ p, f p = true) l) as [|p fl] eqn:E; [cbn in H; lia|].
  assert (p ∈ filter (λ p, f p = true) l) as [Hf [i Hi]%list_elem_of_lookup]%list_elem_of_filter by (rewrite E; by left). eauto.
Qed.

Lemma lock_at s l k : locks_ok s l → 1 ≤ cnt (refs k) l →
  ∃ o b, k_map s !! k = Some o ∧ k_heap s !! o = Some (b, cnt (refs k) l) ∧ Z.b2z b = cnt (holds k) l.
Proof.
  intros Hl Hc. pose proof (lk_lock _ _ Hl k) as Hlo. unfold lock_of in Hlo.
  destruct (k_map s !! k) as [o|]; [|lia]. destruct Hlo as (b & ? & ? & ?). eauto.
Qed.

Lemma refs_count w i p k : inv w → pool w !! i = Some p → k ∈ refkeys p → 1 ≤ cnt (refs k) (pool w).
Proof. intros _ Hi Hk. eapply cnt_pos; [exact Hi|]. by apply bool_decide_eq_true. Qed.

(** ** Exclusion and capacity *)

Definition running (p : Phase) : bool := match p with Running _ _ => true | _ => false end.

Lemma limit_step w w' timeout : step w w' timeout → limit (gate w') = limit (gate w).
Proof.
  intros [i p s' g' p' t _ Hm]. cbn. destruct Hm; try done; try (by destruct excl);
    match goal with H : try_enter _ _ = Some _ |- _ => apply try_enter_spec in H as (_ & _ & ->) end; by destruct excl.
Qed.

Lemma limit_reachable lim w : reachable lim w → limit (gate w) = lim.
Proof.
  intros (ps & _ & Hr). change lim with (limit (gate (init lim ps))). 
  induction Hr as [|w1 w2 w3 [t Hs] _ IH]; [done|]. rewrite IH. by eapply limit_step.
Qed.

Lemma cnt_running l : cnt running l = cnt running_shared l + cnt running_exclusive l.
Proof.
  induction l as [|p l IH]; [done|]. rewrite !cnt_cons, IH. destruct p; cbn; try lia. destruct excl; cbn; lia.
Qed.

(** C16: in every reachable state of the scheduler at most [limit] operations run;
    two that run at the same time are both scoped and have no resource in common;
    an exclusive one runs alone. *)
Theorem scheduler_excludes lim w :
  1 ≤ lim → reachable lim w →
  cnt running (pool w) ≤ lim ∧
  ∀ i j e1 e2 h1 h2, i ≠ j → pool w !! i = Some (Running e1 h1) → pool w !! j = Some (Running e2 h2) →
    e1 = false ∧ e2 = false ∧ ∀ k, k ∈ h1 → k ∉ h2.
Proof.
  intros Hlim Hr. pose proof (limit_reachable _ _ Hr) as Hg. apply inv_reachable in Hr as [Hgate Hlocks]; [|done]. split.
  - rewrite cnt_running, <- (go_active _ _ Hgate), <- (go_exclusive _ _ Hgate). pose proof (go_bound _ _ Hgate).
    destruct (exclusive (gate w)) eqn:E; cbn; [rewrite (go_alone _ _ Hgate E)|]; lia.
  - intros i j e1 e2 h1 h2 Hij Hi Hj.
    destruct (running_alone _ _ _ _ _ Hgate Hi) as [E1 _], (running_alone _ _ _ _ _ Hgate Hj) as [E2 _].
    assert (e1 = e2) as -> by congruence. destruct e2.
    + pose proof (cnt_two running_exclusive _ _ _ _ _ Hi Hj Hij eq_refl eq_refl) as H2.
      rewrite <- (go_exclusive _ _ Hgate), E1 in H2. by cbn in H2.
    + split; [done|]. split; [done|]. intros k H1 H2.
      assert (holds k (Running false h1) = true ∧ holds k (Running false h2) = true) as [F1 F2]
        by (split; by apply bool_decide_eq_true).
      pose proof (cnt_two (holds k) _ _ _ _ _ Hi Hj Hij F1 F2) as Hc.
      pose proof (lk_lock _ _ Hlocks k) as Hlo. unfold lock_of in Hlo.
      destruct (k_map (kl w) !! k); [destruct Hlo as ([] & _ & _ & Hb); cbn in Hb; lia | lia].
Qed.

(** ** Progress *)

(** Waiting for a lock somebody holds, or asleep at the gate. *)
Definition blocked (w : State) (p : Phase) : Prop :=
  (∃ k o todo held, p = Waiting k o todo held ∧ full o (kl w) = Some true) ∨
  (∃ excl held, p = GateWaiting excl (gen (gate w)) held).
Definition is_done (p : Phase) : Prop := match p with Done _ => True | _ => False end.

Lemma unref_total w i p k : inv w → pool w !! i = Some p → k ∈ refkeys p → is_Some (unref k (kl w)).
Proof.
  intros Hinv Hi Hk. pose proof (refs_count _ _ _ _ Hinv Hi Hk) as Hc.
  destruct (lock_at _ _ _ (inv_locks _ Hinv) Hc) as (o & b & H1 & H2 & _). unfold unref. rewrite H1. cbn. rewrite H2. by eexists.
Qed.

Lemma phase_moves w i p : inv w → pool w !! i = Some p →
  is_done p ∨ blocked w p ∨ ∃ s' g' p', move (kl w) (gate w) p s' g' p' false.
Proof.
  intros Hinv Hi. pose proof (inv_locks _ Hinv) as Hl. pose proof (inv_gate _ Hinv) as Hg.
  pose proof (λ k o, lk_uses _ _ Hl i p k o Hi) as Hu.
  pose proof (λ k, unref_total w i p k Hinv Hi) as Hun.
  destruct p as [|[|k todo] held|k o todo held|k held|excl held|excl seen held|excl held|held ran|k o held ran|k held ran|ran]; cbn in Hun.
  - right; right. eauto using move.
  - right; right. eauto using move.
  - right; right. destruct (ref k (kl w)) as [o s'] eqn:E. eauto using move.
  - right. assert (1 ≤ cnt (refs k) (pool w)) as Hc by (eapply refs_count; [done | exact Hi | cbn; set_solver]).
    destruct (lock_at _ _ _ Hl Hc) as (o' & b & Hm & Hh & _).
    assert (o = o') as -> by (specialize (Hu _ _ eq_refl); congruence).
    destruct b; [left; left; exists k, o', todo, held; split; [done|] | right; do 3 eexists; apply MSend];
      unfold full; by rewrite Hh.
  - right; right. destruct (Hun k) as [s' ?]; [set_solver|]. eauto using move.
  - right; right. destruct (try_enter excl (announce excl (gate w))) eqn:E; eauto using move.
  - right. destruct (go_seen _ _ Hg _ _ _ _ Hi) as [Hle Hs]. destruct (decide (seen = gen (gate w))) as [->|Hne].
    + left; right. eauto.
    + right. destruct (try_enter excl (gate w)) eqn:E; do 3 eexists; [eapply MWake | eapply MSleepAgain]; done || lia.
  - right; right. eauto using move.
  - right; right. destruct held as [|k held _] using rev_ind; [eauto using move|].
    assert (1 ≤ cnt (refs k) (pool w)) as Hc by (eapply refs_count; [done | exact Hi | cbn; set_solver]).
    destruct (lock_at _ _ _ Hl Hc) as (o & b & Hm & _). eauto using move.
  - right; right. assert (1 ≤ cnt (refs k) (pool w)) as Hc by (eapply refs_count; [done | exact Hi | cbn; set_solver]).
    destruct (lock_at _ _ _ Hl Hc) as (o' & b & Hm & Hh & Hb).
    assert (o = o') as -> by (specialize (Hu _ _ eq_refl); congruence).
    assert (1 ≤ cnt (holds k) (pool w)) by (eapply cnt_pos; [exact Hi|]; apply bool_decide_eq_true; cbn; set_solver).
    destruct b; [|cbn in Hb; lia]. do 3 eexists. apply MReceive. unfold full. by rewrite Hh.
  - right; right. destruct (Hun k) as [s' ?]; [set_solver|]. eauto using move.
  - by left.
Qed.

(** Nobody sleeps at the gate while nothing runs: the gate would admit it, and a
    request the gate would admit has been woken. *)
Lemma gate_never_stuck w i excl held :
  inv w → cnt running (pool w) = 0 →
  (∀ j e seen h, pool w !! j = Some (GateWaiting e seen h) → seen = gen (gate w)) →
  pool w !! i = Some (GateWaiting excl (gen (gate w)) held) → False.
Proof.
  intros Hinv Hrun Hall Hi. pose proof (inv_gate _ Hinv) as Hg. rewrite cnt_running in Hrun.
  pose proof (cnt_nonneg running_shared (pool w)). pose proof (cnt_nonneg running_exclusive (pool w)).
  assert (active (gate w) = 0) as Ha by (rewrite (go_active _ _ Hg); lia).
  assert (exclusive (gate w) = false) as He.
  { pose proof (go_exclusive _ _ Hg) as Hx. destruct (exclusive (gate w)); [cbn in Hx; lia | done]. }
  assert (∀ j h, pool w !! j = Some (GateWaiting true (gen (gate w)) h) → False) as Hno.
  { intros j h Hj. destruct (go_seen _ _ Hg _ _ _ _ Hj) as [_ Hn]. specialize (Hn eq_refl).
    apply try_enter_None in Hn. by apply Hn. }
  destruct excl; [by eapply Hno|]. destruct (go_seen _ _ Hg _ _ _ _ Hi) as [_ Hn]. specialize (Hn eq_refl).
  apply try_enter_None in Hn. apply Hn. split; [done|]. pose proof (go_limit _ _ Hg). split; [|lia].
  rewrite (go_waiting _ _ Hg). apply cnt_zero. intros j p Hj. destruct p; try done. destruct excl; [|done].
  pose proof (Hall _ _ _ _ Hj) as ->. by destruct (Hno _ _ Hj).
Qed.

(** The keys that requests wait for, and a greatest one of them. *)
Definition wait_key (p : Phase) : option string := match p with Waiting k _ _ _ => Some k | _ => None end.

Lemma greatest (ks : list string) : ks ≠ [] → ∃ m, m ∈ ks ∧ ∀ k, k ∈ ks → (k ≤ m)%string.
Proof.
  induction ks as [|a ks IH]; [done|]. intros _. destruct ks as [|b ks].
  - exists a. split; [by left|]. intros k ->%list_elem_of_singleton. done.
  - destruct IH as (m & Hm & Hle); [done|]. destruct (total String.le a m) as [H|H].
    + exists m. split; [by right|]. intros k [->|Hk]%elem_of_cons; auto.
    + exists a. split; [by left|]. intros k [->|Hk]%elem_of_cons; [done|]. trans m; auto.
Qed.

Lemma waiting_never_stuck w :
  inv w → (∀ i p, pool w !! i = Some p → is_done p ∨ ∃ k o todo held, p = Waiting k o todo held ∧ full o (kl w) = Some true) →
  ∀ i p, pool w !! i = Some p → is_done p.
Proof.
  intros Hinv Hall i p Hi. pose proof (inv_locks _ Hinv) as Hl.
  destruct (Hall i p Hi) as [?|(k0 & o0 & todo0 & held0 & -> & Hf0)]; [done|]. exfalso.
  destruct (greatest (omap wait_key (pool w))) as (m & Hm & Hmax).
  { assert (k0 ∈ omap wait_key (pool w)) as Hk0; [|intros E; rewrite E in Hk0; by apply not_elem_of_nil in Hk0].
    apply list_elem_of_omap. eexists. split; [by eapply list_elem_of_lookup_2 | done]. }
  apply list_elem_of_omap in Hm as (q & [j Hj]%list_elem_of_lookup & Hq).
  destruct (Hall j q Hj) as [?|(k & o & todo & held & -> & Hf)]; [by destruct q|]. injection Hq as ->.
  assert (1 ≤ cnt (refs m) (pool w)) as Hc by (eapply refs_count; [done | exact Hj | cbn; set_solver]).
  destruct (lock_at _ _ _ Hl Hc) as (o' & b & Hm & Hh & Hb).
  assert (o = o') as -> by (pose proof (lk_uses _ _ Hl _ _ _ _ Hj eq_refl); congruence).
  unfold full in Hf. rewrite Hh in Hf. injection Hf as ->. cbn in Hb.
  destruct (cnt_witness (holds m) (pool w)) as (x & px & Hx & Hhold); [lia|].
  apply bool_decide_eq_true in Hhold. destruct (Hall x px Hx) as [Hd|(k' & o2 & todo' & held' & -> & _)]; [by destruct px; cbn in Hhold; try apply not_elem_of_nil in Hhold|].
  cbn in Hhold. pose proof (lk_keys _ _ Hl _ _ Hx) as Hs. cbn in Hs. apply sorted_app_inv in Hs as (_ & _ & Hs).
  destruct (Hs m k') as [Hle Hne]; [done | by left|]. apply Hne, (anti_symm String.le); [done|].
  apply Hmax, list_elem_of_omap. eexists. split; [by eapply list_elem_of_lookup_2 | done].
Qed.

(** If every request is finished or blocked, all are finished. *)
Lemma blocked_done w :
  inv w → (∀ i p, pool w !! i = Some p → is_done p ∨ blocked w p) → ∀ i p, pool w !! i = Some p → is_done p.
Proof.
  intros Hinv Hall.
  assert (∀ j e seen h, pool w !! j = Some (GateWaiting e seen h) → seen = gen (gate w)) as Hseen.
  { intros j e seen h Hj. destruct (Hall _ _ Hj) as [[]|[(? & ? & ? & ? & [=] & _)|(? & ? & [= _ ? _])]]. done. }
  assert (cnt running (pool w) = 0) as Hrun.
  { apply cnt_zero. intros i p Hi. destruct (Hall _ _ Hi) as [?|[(? & ? & ? & ? & -> & _)|(? & ? & ->)]]; [by destruct p | done | done]. }
  apply waiting_never_stuck; [done|]. intros i p Hi. destruct (Hall i p Hi) as [?|[Hw|(excl & held & ->)]]; [by left | by right |].
  exfalso. by eapply gate_never_stuck.
Qed.

(** Some request is not in the phase [Done]. *)
Definition pending (w : State) : Prop := ∃ i p, pool w !! i = Some p ∧ ¬ is_done p.

#[local] Instance is_done_dec p : Decision (is_done p).
Proof. destruct p; cbn; apply _. Defined.

(** ** Termination *)

(** How many steps a request has left, re-evaluations at the gate apart. *)
Definition rank (p : Phase) : nat :=
  match p with
  | Bypass => 1
  | Acquiring todo h => 3 * length h + 6 * length todo + 5
  | Waiting _ _ todo h => 3 * length h + 6 * length todo + 9
  | TimedOut _ h => 3 * length h + 2
  | GateEnter _ h => 3 * length h + 4
  | GateWaiting _ _ h => 3 * length h + 3
  | Running _ h => 3 * length h + 2
  | Releasing h _ => 3 * length h + 1
  | Draining _ _ h _ => 3 * length h + 3
  | Unrefing _ h _ => 3 * length h + 2
  | Done _ => 0
  end.
Definition gap (g : nat) (p : Phase) : nat := match p with GateWaiting _ seen _ => g - seen | _ => 0 end.

Definition total (f : Phase → nat) (l : list Phase) : nat := sum_list_with f l.

Lemma total_update f l i p p' : l !! i = Some p → (total f (<[i := p']> l) + f p = total f l + f p')%nat.
Proof.
  unfold total. revert i. induction l as [|q l IH]; intros i Hi; [done|]. destruct i as [|i].
  - injection Hi as ->. cbn. lia.
  - change (<[S i := p']> (q :: l)) with (q :: <[i := p']> l). cbn [sum_list_with].
    specialize (IH i Hi). lia.
Qed.

Definition measure (w : State) : nat * nat := (total rank (pool w), total (gap (gen (gate w))) (pool w)).
Definition lex (a b : nat * nat) : Prop := (a.1 < b.1)%nat ∨ (a.1 = b.1 ∧ (a.2 < b.2)%nat).

Lemma lex_wf : well_founded lex.
Proof.
  intros [a b]. revert b. induction (lt_wf a) as [a _ IHa]. intros b. induction (lt_wf b) as [b _ IHb].
  constructor. intros [a' b'] [H|[H1 H2]]; cbn in *; [by apply IHa | subst; by apply IHb].
Qed.

Lemma step_measure w w' t : step w w' t → lex (measure w') (measure w).
Proof.
  intros [i p s' g' p' t' Hi Hm]. unfold measure, lex. cbn [fst snd pool gate].
  pose proof (total_update rank _ _ _ p' Hi) as Hr.
  inversion Hm; subst; cbn [rank] in Hr; rewrite ?length_app in Hr; cbn [length] in Hr; try (left; lia).
  right. split; [lia|].
  pose proof (total_update (gap (gen (gate w))) _ _ _ (GateWaiting excl (gen (gate w)) held) Hi) as Hg. cbn [gap] in Hg. lia.
Qed.

(** ** Properties of executions *)

(** Someone can move, or everyone is finished or blocked. *)
Lemma moves_or_blocked w (n : nat) : inv w →
  (∃ w', step w w' false) ∨ ∀ i p, (i < n)%nat → pool w !! i = Some p → is_done p ∨ blocked w p.
Proof.
  intros Hinv. induction n as [|n [IH|IH]]; [right; lia | by left |].
  destruct (pool w !! n) as [q|] eqn:Hq.
  - destruct (phase_moves w n q Hinv Hq) as [Hd|[Hb|(s' & g' & p' & Hm)]]; [right|right|left; eexists; by econstructor];
      intros i p Hi Hp; (destruct (decide (i = n)) as [->|]; [simplify_eq; auto | apply (IH i); [lia | done]]).
  - right. intros i p Hi Hp. destruct (decide (i = n)) as [->|]; [congruence | apply (IH i); [lia | done]].
Qed.

Lemma never_deadlocks w : inv w → pending w → ∃ w', step w w' false.
Proof.
  intros Hinv (i & p & Hi & Hd). destruct (moves_or_blocked w (length (pool w)) Hinv) as [?|Hall]; [done|].
  exfalso. apply Hd. eapply blocked_done; [done| |exact Hi]. intros j q Hj. eapply Hall; [|done]. by eapply lookup_lt_Some.
Qed.

(** C17: no deadlock and no lost wake-up: in every reachable state with an
    unfinished request some request can take a step other than a timeout. *)
Theorem scheduler_never_deadlocks lim w :
  1 ≤ lim → reachable lim w → pending w → ∃ w', step w w' false.
Proof. intros Hlim Hr. apply never_deadlocks. by eapply inv_reachable. Qed.

(** C18: every execution of the scheduler is finite, whatever the interleaving and
    the timeouts, and one that cannot continue has completed every request. *)
Theorem scheduler_completes lim w :
  1 ≤ lim → reachable lim w →
  Acc (λ w2 w1, any_step w1 w2) w ∧
  ∀ w', rtc any_step w w' → (∀ w2, ¬ any_step w' w2) → ∀ i p, pool w' !! i = Some p → is_done p.
Proof.
  intros Hlim Hr. split.
  - assert (∀ m w, measure w = m → Acc (λ w2 w1, any_step w1 w2) w) as Hacc; [|by eapply Hacc].
    intros m. induction (lex_wf m) as [m _ IH]. intros w1 Hm. constructor. intros w2 [t Hs].
    eapply IH; [|done]. rewrite <- Hm. by eapply step_measure.
  - intros w' Hw Hstuck i p Hi. destruct (decide (is_done p)) as [?|Hd]; [done|]. exfalso.
    destruct (never_deadlocks w') as [w2 Hs]; [|by exists i, p | by apply (Hstuck w2); exists false].
    apply (inv_reachable lim); [done|]. destruct Hr as (ps & Hps & Hr). exists ps. split; [done|]. by trans w.
Qed.

(** A validated request never makes the scheduler dereference a missing
    payload, and the start of every request is one the theorems above cover. *)
Theorem start_defined `{SafeHTTP.NetText} v req : ∃ p, start v req = Some p ∧ startable p.
Proof.
  unfold start. destruct req as [r|]; [|eexists; split; [done | by left]].
  case_if; [eexists; split; [done | by left]|]. destruct (ValidateRequest v (Some r)) eqn:Hv; [eexists; split; [done | by left]|].
  assert (is_Some (requestLockKeys r)) as [ks ->].
  { unfold requestLockKeys.
    repeat (case_if; [BrokerFenceProps.by_type Hv; match goal with |- context [_ <$> ?o] => by destruct o end |]). done. }
  eexists. split; [done|]. right. by eexists.
Qed.

(** ** Witnesses *)

(** Two requests on one site, and an unscoped one: the first is running, the second
    waits for the key, the third at the gate. *)
Definition demo_pool : list Phase :=
  [Acquiring (unique_sorted ["site:blog"; "database:blog"; "site:blog"]) []; Acquiring (unique_sorted ["site:blog"]) []; Acquiring (unique_sorted []) []].

Lemma demo_startable : Forall startable demo_pool.
Proof. repeat (constructor; [right; by eexists|]). constructor. Qed.

Local Ltac evaluate_state :=
  match goal with |- rtc _ ?a _ => let b := eval vm_compute in a in replace a with b by (vm_compute; reflexivity) end.
Local Ltac run_step j tac :=
  eapply rtc_l; [exists false; eapply (Step _ j); [reflexivity | tac; vm_compute; reflexivity]|]; evaluate_state.

Definition demo_state : State :=
  mkState (mkKL {["database:blog" := 0%nat; "site:blog" := 1%nat]} {[0%nat := (true, 1); 1%nat := (true, 2)]} 2)
          (mkGate 8 1 false 1 0)
          [Running false ["database:blog"; "site:blog"]; Waiting "site:blog" 1 [] []; GateWaiting true 0 []].

Lemma demo_pool_reachable : reachable 8 demo_state.
Proof.
  exists demo_pool. split; [exact demo_startable|].
  evaluate_state.
  do 6 run_step 0%nat ltac:(econstructor).
  run_step 1%nat ltac:(econstructor). run_step 2%nat ltac:(econstructor). run_step 2%nat ltac:(eapply MSleep).
  vm_compute. apply rtc_refl.
Qed.

Lemma scheduler_excludes_witness : cnt running (pool demo_state) = 1 ∧ cnt running (pool demo_state) ≤ 8.
Proof. split; [reflexivity|]. apply (scheduler_excludes 8 demo_state); [lia | exact demo_pool_reachable]. Defined.

Lemma scheduler_never_deadlocks_witness : ∃ w', step demo_state w' false.
Proof.
  apply (scheduler_never_deadlocks 8 demo_state); [lia | exact demo_pool_reachable |].
  exists 1%nat, (Waiting "site:blog" 1 [] []). split; [reflexivity | intros []].
Defined.

Lemma scheduler_completes_witness : Acc (λ w2 w1, any_step w1 w2) demo_state.
Proof. apply (scheduler_completes 8 demo_state); [lia | exact demo_pool_reachable]. Defined.

End SchedulerProps.
