(* ===== verification/AuditLog.v ===== *)
(** * AuditLog: the signed audit chain

    Models [src/internal/audit/logger.go]: appending an event to the log file, the
    signed chain state beside it, recovery of a state that lags the log, and
    [Verify]. The files are the state [FS]; a failure of a system call, a crash
    and a torn write all leave the files as they are at that point. HMAC-SHA256,
    the JSON encoding of events and the rendering of times are the class [Audit];
    what is used of them are the laws [AuditLaws]. *)
From S2P Require Import Prelude GoText GoPath.

Module AuditLog.
Import GoText.

(** ** Runes *)

(** The runes of a Go string: the bytes of a valid encoding, or one invalid byte. *)
Fixpoint take_rune (fuel : nat) (u : GoPath.Utf8) (l : list ascii) : option (list ascii) :=
  match fuel, l with
  | S n, c :: l' =>
      match GoPath.utf8_step u c with
      | None => None
      | Some GoPath.UStart => Some [c]
      | Some u' => cons c <$> take_rune n u' l'
      end
  | _, _ => None
  end.
Fixpoint runes (fuel : nat) (l : list ascii) : list (list ascii * bool) :=
  match fuel, l with
  | S n, c :: _ =>
      match take_rune 4 GoPath.UStart l with
      | Some r => (r, true) :: runes n (drop (length r) l)
      | None => ([c], false) :: runes n (tail l)
      end
  | _, _ => []
  end.
Definition runes_of (s : string) : list (list ascii * bool) := runes (String.length s) (bytes_of s).

(** U+FFFD, which stands for an invalid byte. *)
Definition replacement : list ascii := [chr 239; chr 191; chr 189].
Definition encode (rs : list (list ascii * bool)) : string :=
  of_bytes (concat ((λ r, if r.2 : bool then r.1 else replacement) <$> rs)).
Definition to_valid (s : string) : string := encode (runes_of s).

Definition truncateValue (value : string) (limit : nat) : string :=
  let rs := runes_of value in
  if Nat.leb (length rs) limit then value else encode (take limit rs).

#[global] Arguments to_valid : simpl never.
#[global] Arguments truncateValue : simpl never.

(** ** Events and states *)

Record Event := mkEvent { Time : string; Sequence : Z; Actor : string; Action : string; Target : string;
  Detail : string; PreviousHash : string; Hash : string }.
Definition set_hash (ev : Event) (h : string) : Event :=
  mkEvent (Time ev) (Sequence ev) (Actor ev) (Action ev) (Target ev) (Detail ev) (PreviousHash ev) h.

(** What decoding the JSON of an event gives: invalid bytes have become U+FFFD. *)
Definition clean_event (ev : Event) : Event :=
  mkEvent (to_valid (Time ev)) (Sequence ev) (to_valid (Actor ev)) (to_valid (Action ev)) (to_valid (Target ev))
    (to_valid (Detail ev)) (to_valid (PreviousHash ev)) (to_valid (Hash ev)).

Record state := mkState { Version : Z; s_Sequence : Z; s_Hash : string; FirstSequence : Z; FirstPreviousHash : string;
  KeyCheck : string; Signature : string; LastValidatedSize : Z; LastValidatedModTimeNS : Z; LastFullVerifyTimeNS : Z;
  CacheSignature : string }.
Definition zero_state : state := mkState 0 0 "" 0 "" "" "" 0 0 0 "".

(** HMAC-SHA256 in hexadecimal, the JSON of an event and of the signed parts of a
    state, and times. *)
Class Audit := {
  mac : string → string → string;
  ev_marshal : Event → string;
  ev_unmarshal : string → option Event;
  st_json : state → string;
  cache_json : state → string;
  fmt_time : Z → string;
  time_ok : string → bool
}.

(** A code is 64 hexadecimal digits. Encoded events decode to themselves up to
    invalid bytes, decoded events are valid UTF-8 with a [uint64] sequence, the
    encoding of a string is at most six times as long, and neither a proper prefix
    of an encoded event nor two of them on one line decode. An invalid byte is
    encoded as an escape, the character U+FFFD as its bytes, so an event and what it
    decodes to have different encodings when they differ. Nothing is assumed of
    collisions of codes. *)
Definition text_len (ev : Event) : Z :=
  len (Time ev) + len (Actor ev) + len (Action ev) + len (Target ev) + len (Detail ev) + len (PreviousHash ev) + len (Hash ev).
Definition u64b (z : Z) : bool := (0 <=? z) && (z <? 2 ^ 64).
Definition succ64 (z : Z) : Z := (z + 1) `mod` 2 ^ 64.
Class AuditLaws `{Audit} := {
  mac_len k m : len (mac k m) = 64;
  mac_valid k m : to_valid (mac k m) = mac k m;
  ev_roundtrip ev : u64b (Sequence ev) = true → ev_unmarshal (ev_marshal ev) = Some (clean_event ev);
  ev_decoded l ev : ev_unmarshal l = Some ev → clean_event ev = ev ∧ u64b (Sequence ev) = true;
  ev_prefix ev n : u64b (Sequence ev) = true → (n < String.length (ev_marshal ev))%nat → ev_unmarshal (of_bytes (take n (bytes_of (ev_marshal ev)))) = None;
  ev_joined ev ev' : u64b (Sequence ev) = true → u64b (Sequence ev') = true → ev_unmarshal (ev_marshal ev +:+ ev_marshal ev') = None;
  ev_escapes ev : u64b (Sequence ev) = true → clean_event ev ≠ ev → ev_marshal ev ≠ ev_marshal (clean_event ev);
  ev_marshal_len ev : u64b (Sequence ev) = true → 0 < len (ev_marshal ev) ≤ 6 * text_len ev + 256;
  time_fmt t : time_ok (fmt_time t) = true ∧ to_valid (fmt_time t) = fmt_time t ∧ len (fmt_time t) ≤ 64
}.

(** ** Files *)

(** The log: its complete lines, an unterminated last line if not empty, and its
    modification time; [None] does not exist. The state file: absent, unreadable as
    JSON, or a state. *)
Record LogFile := mkLog { lines : list string; torn : string; mtime : Z }.
Inductive StateFile := NoState | BadState | SavedState (s : state).
Record FS := mkFS { log : option LogFile; st : StateFile; legacy : list LogFile; key : option string }.

Definition size (f : LogFile) : Z := foldr (λ l acc, len l + 1 + acc) (len (torn f)) (lines f).
Definition scan_lines (f : LogFile) : list string := lines f ++ (if decide (torn f = "") then [] else [torn f]).

(** Appending a line and its newline; [Some n]: only [n] bytes of the line reached the file. *)
Definition write_line (f : LogFile) (line : string) (tear : option nat) (now : Z) : LogFile :=
  match tear with
  | None => mkLog (lines f ++ [torn f +:+ line]) "" now
  | Some n => mkLog (lines f) (torn f +:+ of_bytes (take n (bytes_of line))) now
  end.

Definition maxAuditLogBytes : Z := 256 * 2 ^ 20.
Definition maxLine : Z := 2 ^ 20.
Definition fullAuditVerifyInterval : Z := 15 * Minute.

Section Ops.
Context `{Audit}.

(** ** Signatures *)

Definition auditSigningKey (fs : FS) : res string :=
  match key fs with
  | Some k => if len k <? 32 then Err (EMsg "an independent audit key is required") else Ok ("stepanel-audit-v1" +:+ String (chr 0) k)
  | None => Err (EMsg "an independent audit key is required")
  end.

Definition hashEvent (k : string) (ev : Event) : string := mac k (ev_marshal (set_hash ev "")).
Definition auditKeyCheck (k : string) : string := mac k "stepanel-audit-state-key-check-v1".
Definition signState (k : string) (s : state) : string :=
  mac k ("stepanel-audit-state-v1" +:+ String (chr 0)
    (st_json (mkState (Version s) (s_Sequence s) (s_Hash s) (FirstSequence s) (FirstPreviousHash s) (KeyCheck s) "" 0 0 0 ""))).
Definition signCacheState (k : string) (s : state) : string :=
  mac k ("stepanel-audit-cache-v1" +:+ String (chr 0) (cache_json s)).

Definition validateEvent (ev : Event) : option error :=
  if (Sequence ev =? 0) || bool_decide (TrimSpace (Actor ev) = "") || bool_decide (TrimSpace (Action ev) = "")
  then Some (EMsg "audit log contains an event with invalid identity or sequence") else
  if negb (time_ok (Time ev)) then Some (EMsg "audit log contains an invalid event timestamp") else None.

(** ** Reading *)

(** The loop of [reconcileTail] and of [Verify]: every line decodes to a valid,
    correctly signed event that continues the previous one. *)
Fixpoint scan (k : string) (prev : option Event) (ls : list string) : res (list Event) :=
  match ls with
  | [] => Ok []
  | l :: rest =>
      if maxLine <=? len l then Err (EMsg "token too long") else
      match ev_unmarshal l with
      | None => Err (EMsg "audit log contains an invalid event")
      | Some ev =>
          match validateEvent ev with
          | Some err => Err err
          | None =>
              if negb (bool_decide (hashEvent k ev = Hash ev)) then Err (EMsg "audit event has an invalid signature") else
              if match prev with
                 | Some p => negb (Sequence ev =? succ64 (Sequence p)) || negb (bool_decide (PreviousHash ev = Hash p))
                 | None => false
                 end then Err (EMsg "audit chain breaks") else
              match scan k (Some ev) rest with Ok evs => Ok (ev :: evs) | Err err => Err err end
          end
      end
  end.

(** [reconcileTail]; fault 5: opening the log. *)
Definition reconcileTail (e : Env) (k : string) (s : state) (fs : FS) : res state :=
  let at_next := mkState (Version s) (s_Sequence s) (s_Hash s) (succ64 (s_Sequence s)) (s_Hash s) (KeyCheck s) (Signature s)
                   (LastValidatedSize s) (LastValidatedModTimeNS s) (LastFullVerifyTimeNS s) (CacheSignature s) in
  match log fs with
  | None => Ok at_next
  | Some f =>
      if fault e 5 then Err io_err else
      match scan k None (scan_lines f) with
      | Err err => Err err
      | Ok evs =>
          match evs, last evs with
          | first :: _, Some lst =>
              let '(fseq, fprev) := if FirstSequence s =? 0 then (Sequence first, PreviousHash first)
                                    else (FirstSequence s, FirstPreviousHash s) in
              let s := mkState (Version s) (s_Sequence s) (s_Hash s) fseq fprev (KeyCheck s) (Signature s)
                         (LastValidatedSize s) (LastValidatedModTimeNS s) (LastFullVerifyTimeNS s) (CacheSignature s) in
              if negb (Sequence first =? fseq) || negb (bool_decide (PreviousHash first = fprev))
              then Err (EMsg "audit log prefix does not match chain state") else
              if Sequence lst =? s_Sequence s then
                if (0 <? Sequence lst) && negb (bool_decide (Hash lst = s_Hash s))
                then Err (EMsg "audit log tail does not match chain state") else Ok s
              else if (Sequence lst =? succ64 (s_Sequence s)) && bool_decide (PreviousHash lst = s_Hash s)
              then Ok (mkState 1 (Sequence lst) (Hash lst) fseq fprev (KeyCheck s) "" 0 0 0 "")
              else Err (EMsg "audit log and chain state are inconsistent")
          | _, _ => Ok at_next
          end
      end
  end.

(** [loadState]; fault 3: reading the file. *)
Definition loadState (e : Env) (fs : FS) : res state :=
  match st fs with
  | NoState => Ok zero_state
  | _ =>
      if fault e 3 then Err io_err else
      match auditSigningKey fs with
      | Err err => Err err
      | Ok k =>
          match st fs with
          | SavedState s =>
              if negb (Version s =? 1) || ((s_Sequence s =? 0) && negb (bool_decide (s_Hash s = ""))) ||
                 ((0 <? s_Sequence s) && negb (len (s_Hash s) =? 64)) || (succ64 (s_Sequence s) <? FirstSequence s) ||
                 negb (bool_decide (KeyCheck s = auditKeyCheck k))
              then Err (EMsg "invalid audit chain state") else
              if negb (bool_decide (Signature s = signState k s)) then Err (EMsg "audit chain state has an invalid signature") else
              if (0 <? LastValidatedSize s) &&
                 (negb (bool_decide (CacheSignature s = signCacheState k s)) || (LastValidatedModTimeNS s <=? 0) || (LastFullVerifyTimeNS s <=? 0))
              then Ok (mkState (Version s) (s_Sequence s) (s_Hash s) (FirstSequence s) (FirstPreviousHash s) (KeyCheck s) (Signature s) 0 0 0 "")
              else Ok s
          | _ => Err (EMsg "invalid audit chain state")
          end
      end
  end.

(** ** Writing *)

(** The state as [writeState] signs it. *)
Definition sealed_state (k : string) (s : state) : state :=
  let '(size, mt, fv, cs) := if 0 <? LastValidatedSize s
    then (LastValidatedSize s, LastValidatedModTimeNS s, LastFullVerifyTimeNS s, signCacheState k s) else (0, 0, 0, "") in
  let s1 := mkState (Version s) (s_Sequence s) (s_Hash s) (FirstSequence s) (FirstPreviousHash s) (KeyCheck s) (Signature s) size mt fv cs in
  mkState (Version s) (s_Sequence s) (s_Hash s) (FirstSequence s) (FirstPreviousHash s) (KeyCheck s) (signState k s1) size mt fv cs.

(** [writeState]; fault 12: anything up to the rename, 13: syncing the directory
    after it. *)
Definition writeState (e : Env) (k : string) (s : state) (fs : FS) : option error * FS :=
  if fault e 12 then (Some io_err, fs) else
  let fs' := mkFS (log fs) (SavedState (sealed_state k s)) (legacy fs) (key fs) in
  if fault e 13 then (Some io_err, fs') else (None, fs').

(** The first event of a chain: a log without a state is set aside. *)
Definition start_chain (e : Env) (k : string) (s : state) (fs : FS) : res (state * FS) :=
  if negb (Version s =? 0) then Ok (s, fs) else
  let s1 := mkState 1 0 "" 0 "" (auditKeyCheck k) "" 0 0 0 "" in
  match log fs with
  | Some f => if 0 <? size f then
                if fault e 4 then Err (EWrap "preserve legacy audit log" io_err)
                else Ok (s1, mkFS None (st fs) (f :: legacy fs) (key fs))
              else Ok (s1, fs)
  | None => Ok (s1, fs)
  end.

(** The state to extend: trusted as cached, or checked against the whole log. *)
Definition current_state (e : Env) (k : string) (s : state) (fs : FS) : res state :=
  let matches := match log fs with
                 | Some f => (LastValidatedSize s =? size f) && (0 <? LastValidatedSize s) && (LastValidatedModTimeNS s =? mtime f)
                 | None => false end in
  let due := (LastFullVerifyTimeNS s <=? 0) || (fullAuditVerifyInterval <=? clock e 0 - LastFullVerifyTimeNS s) in
  if negb (fault e 11) && matches && negb due then Ok s else
  match reconcileTail e k s fs with
  | Err err => Err err
  | Ok s =>
      let '(sz, mt) := match log fs with Some f => (size f, mtime f) | None => (0, 0) end in
      if fault e 6 then Err io_err else
      Ok (mkState (Version s) (s_Sequence s) (s_Hash s) (FirstSequence s) (FirstPreviousHash s) (KeyCheck s) (Signature s) sz mt (clock e 1) (CacheSignature s))
  end.

Definition new_event (e : Env) (k : string) (s : state) (actor action target detail : string) : Event :=
  let ev := mkEvent (fmt_time (clock e 2)) (succ64 (s_Sequence s)) (truncateValue actor 128) (truncateValue action 128)
              (truncateValue target 512) (truncateValue detail 4096) (s_Hash s) "" in
  set_hash ev (hashEvent k ev).

(** The end of [appendEvent]: write the event, then the state that names it. *)
Definition write_event (e : Env) (tear : option nat) (k : string) (s : state) (ev : Event) (fs : FS) : option error * FS :=
  if fault e 7 then (Some io_err, fs) else
  let f' := write_line (default (mkLog [] "" 0) (log fs)) (ev_marshal ev) tear (clock e 3) in
  let fs2 := mkFS (Some f') (st fs) (legacy fs) (key fs) in
  match tear with
  | Some _ => (Some io_err, fs2)
  | None =>
      if fault e 8 || fault e 9 then (Some io_err, fs2) else
      let '(sz, mt) := if fault e 10 then (0, 0) else (size f', mtime f') in
      writeState e k (mkState 1 (Sequence ev) (Hash ev) (FirstSequence s) (FirstPreviousHash s) (KeyCheck s) "" sz mt
                        (LastFullVerifyTimeNS s) "") fs2
  end.

(** [appendEvent]. Clock 0: the test of the verification interval, 1: the time of a
    full verification, 2: the event's time, 3: the modification time of the log.
    Fault 0: the lock, 1: the directory, 2: the first stat, 3: reading the state,
    4: setting a legacy log aside, 11: the stat before reconciliation (its failure
    forces one), 5-6: reconciliation, 7: opening the log, 8:
    syncing or closing it, 9: syncing the directory, 10: the last stat (its failure
    is ignored), 12-13: writing the state. [tear] is the number of bytes of the line
    that reached the file when its write failed. *)
Definition appendEvent (e : Env) (tear : option nat) (actor action target detail : string) (fs : FS) : option error * FS :=
  if bool_decide (actor = "") || bool_decide (action = "") then (Some (EMsg "audit actor and action are required"), fs) else
  if fault e 0 then (Some (EWrap "audit lock" io_err), fs) else
  if fault e 1 || fault e 2 then (Some io_err, fs) else
  if match log fs with Some f => maxAuditLogBytes <=? size f | None => false end
  then (Some (EMsg "audit log exceeds the 256 MiB retention limit"), fs) else
  match loadState e fs with
  | Err err => (Some err, fs)
  | Ok s0 =>
      match auditSigningKey fs with
      | Err err => (Some err, fs)
      | Ok k =>
          match start_chain e k s0 fs with
          | Err err => (Some err, fs)
          | Ok (s1, fs1) =>
              match current_state e k s1 fs1 with
              | Err err => (Some err, fs1)
              | Ok s => write_event e tear k s (new_event e k s actor action target detail) fs1
              end
          end
      end
  end.

(** ** Verification *)

Definition Verify (e : Env) (fs : FS) : option error :=
  match log fs with
  | None => Some io_err
  | Some f =>
      if fault e 0 then Some io_err else
      match auditSigningKey fs with
      | Err err => Some err
      | Ok k =>
          match scan k None (scan_lines f) with
          | Err err => Some err
          | Ok evs =>
              match evs, last evs with
              | first :: _, Some lst =>
                  match loadState e fs with
                  | Err err => Some err
                  | Ok s =>
                      if negb (s_Sequence s =? Sequence lst) || negb (bool_decide (s_Hash s = Hash lst))
                      then Some (EMsg "audit chain state does not match the log tail") else
                      if negb (Sequence first =? FirstSequence s) || negb (bool_decide (PreviousHash first = FirstPreviousHash s))
                      then Some (EMsg "audit chain state does not match the log prefix") else None
                  end
              | _, _ => Some (EMsg "audit log contains no signed events")
              end
          end
      end
  end.

End Ops.

End AuditLog.
