(* ===== verification/AuditLogProps.v ===== *)
(** * AuditLogProps: the audit chain survives failures and shows tampering

    Theorems about [AuditLog]: an invariant of the log and its state under appends
    that fail at any point, what an append records, when it succeeds, and that a log
    accepted against a given state is the log that was written. The section on runes
    shows that truncation keeps valid text valid; [Toy] is a concrete instance of the
    interface [Audit], for the witnesses. *)
From S2P Require Import Prelude GoText GoPath AuditLog.

Module AuditLogProps.
Import GoText AuditLog.

(** ** Runes *)

Lemma take_rune_spec n u l r :
  take_rune n u l = Some r →
  (∃ t, l = r ++ t) ∧ (1 ≤ length r ≤ n)%nat ∧ ∀ t, take_rune n u (r ++ t) = Some r.
Proof.
  revert u l r. induction n as [|n IH]; intros u l r Hr; [done|].
  destruct l as [|c l]; [done|]. cbn in Hr.
  destruct (GoPath.utf8_step u c) as [u'|] eqn:E; [|done].
  assert (Hrec : (r = [c] ∧ u' = GoPath.UStart) ∨ (u' ≠ GoPath.UStart ∧ cons c <$> take_rune n u' l = Some r)).
  { destruct u'; simplify_eq; auto. }
  destruct Hrec as [[-> ->] | [Hu Hr']].
  - split; [by exists l|]. split; [cbn; lia|]. intros t. cbn. by rewrite E.
  - destruct (take_rune n u' l) as [r'|] eqn:E'; [|done]. injection Hr' as <-.
    destruct (IH _ _ _ E') as ([t ->] & Hl & Hall).
    split; [by exists t|]. split; [cbn; lia|]. intros t'. cbn. rewrite E.
    destruct u'; try done; by rewrite Hall.
Qed.

(** A rune that stands on its own, whatever follows it. *)
Definition whole (r : list ascii) : Prop :=
  (1 ≤ length r ≤ 4)%nat ∧ ∀ t, take_rune 4 GoPath.UStart (r ++ t) = Some r.
Definition rune_ok (r : list ascii * bool) : Prop :=
  (if r.2 then whole r.1 else length r.1 = 1%nat).

Lemma replacement_whole : whole replacement.
Proof. split; [cbn; lia|]. intros t. by vm_compute. Qed.

Lemma runes_spec n l : (length l ≤ n)%nat → Forall rune_ok (runes n l) ∧ concat (runes n l).*1 = l.
Proof.
  revert l. induction n as [|n IH]; intros l Hl; [by destruct l; cbn in *; [|lia]|].
  destruct l as [|c l]; [done|]. cbn [runes].
  destruct (take_rune 4 GoPath.UStart (c :: l)) as [r|] eqn:E.
  - destruct (take_rune_spec _ _ _ _ E) as ([t Ht] & Hr & Hall).
    assert (Hd : drop (length r) (c :: l) = t) by (rewrite Ht; apply drop_app_length). rewrite Hd.
    assert (length t ≤ n)%nat. { apply (f_equal length) in Ht. rewrite length_app in Ht. cbn in *. lia. }
    destruct (IH t) as [H1 H2]; [done|]. split; [constructor; [by split|done]|].
    cbn [fmap list_fmap concat fst]. by rewrite H2.
  - destruct (IH l) as [H1 H2]; [cbn in Hl; lia|]. cbn [tail]. split; [by constructor|].
    cbn [fmap list_fmap concat fst]. by rewrite H2.
Qed.

Lemma runes_of_spec s : Forall rune_ok (runes_of s) ∧ concat (runes_of s).*1 = bytes_of s.
Proof. apply runes_spec. by rewrite length_bytes_of. Qed.

Lemma runes_concat rs n :
  Forall whole rs → (length (concat rs) ≤ n)%nat → runes n (concat rs) = (λ r, (r, true)) <$> rs.
Proof.
  revert n. induction rs as [|r rs IH]; intros n Hrs Hn; [by destruct n|].
  apply Forall_cons in Hrs as [[Hr Hall] Hrs]. cbn [concat] in *.
  destruct n as [|n]; [rewrite length_app in Hn; lia|].
  destruct (r ++ concat rs) as [|c l] eqn:E; [apply (f_equal length) in E; rewrite length_app in E; cbn in E; lia|].
  cbn [runes]. rewrite <- E, Hall, drop_app_length. cbn. f_equal.
  apply IH; [done|]. rewrite <- E, length_app in Hn. lia.
Qed.

Lemma encoded_whole rs :
  Forall rune_ok rs → Forall whole ((λ r : list ascii * bool, if r.2 then r.1 else replacement) <$> rs).
Proof.
  intros H. apply Forall_fmap. eapply Forall_impl; [exact H|]. intros [r []] Hr; [exact Hr | apply replacement_whole].
Qed.

Lemma runes_encode rs : Forall rune_ok rs →
  runes_of (encode rs) = (λ r, (r, true)) <$> ((λ r : list ascii * bool, if r.2 then r.1 else replacement) <$> rs).
Proof.
  intros H. unfold encode, runes_of. rewrite bytes_of_of, runes_concat; [done|by apply encoded_whole|].
  by rewrite <- length_bytes_of, bytes_of_of.
Qed.

Lemma to_valid_encode rs : Forall rune_ok rs → to_valid (encode rs) = encode rs.
Proof.
  intros H. unfold to_valid. rewrite runes_encode by done. unfold encode. do 2 f_equal. generalize ((λ r : list ascii * bool, if r.2 then r.1 else replacement) <$> rs).
  intros l. induction l as [|x l IH]; [done|]. cbn. by f_equal.
Qed.

Lemma to_valid_idem s : to_valid (to_valid s) = to_valid s.
Proof. apply to_valid_encode, runes_of_spec. Qed.

Lemma truncateValue_valid s n : to_valid s = s → to_valid (truncateValue s n) = truncateValue s n.
Proof.
  intros Hs. unfold truncateValue. case_if; [done|]. apply to_valid_encode, Forall_take, runes_of_spec.
Qed.

Lemma length_concat_le {A} (ls : list (list A)) k :
  Forall (λ l, (length l ≤ k)%nat) ls → (length (concat ls) ≤ k * length ls)%nat.
Proof.
  induction 1 as [|l ls Hl _ IH]; [cbn; lia|]. cbn [concat length]. rewrite length_app. lia.
Qed.

Lemma rune_ok_le rs : Forall rune_ok rs → Forall (λ l, (length l ≤ 4)%nat) rs.*1.
Proof. intros H. apply Forall_fmap. eapply Forall_impl; [exact H|]. intros [r []]; cbn; unfold rune_ok, whole; cbn; lia. Qed.

Lemma truncateValue_len s n : len (truncateValue s n) ≤ 4 * Z.of_nat n.
Proof.
  destruct (runes_of_spec s) as [Hok Hc]. unfold truncateValue, len. case_if.
  - apply Nat.leb_le in Heqb. rewrite <- length_bytes_of, <- Hc.
    pose proof (length_concat_le _ 4 (rune_ok_le _ Hok)) as Hl. rewrite length_fmap in Hl. lia.
  - rewrite <- length_bytes_of. unfold encode. rewrite bytes_of_of.
    assert (Forall (λ l, (length l ≤ 4)%nat) ((λ r : list ascii * bool, if r.2 then r.1 else replacement) <$> take n (runes_of s))) as Hf.
    { eapply Forall_impl; [apply encoded_whole, Forall_take, Hok|]. intros r [Hr _]. lia. }
    pose proof (length_concat_le _ 4 Hf) as Hl. rewrite length_fmap, length_take in Hl. lia.
Qed.

Lemma clean_event_idem ev : clean_event (clean_event ev) = clean_event ev.
Proof. unfold clean_event. cbn. by rewrite !to_valid_idem. Qed.

(** ** Chains of events *)

Section Chain.
Context `{Au : Audit} {AL : AuditLaws}.
Implicit Types (k : string) (ev : Event) (s : state) (f : LogFile) (fs : FS).

(** An event as the log must hold it. *)
Definition signed k ev : Prop :=
  validateEvent ev = None ∧ hashEvent k ev = Hash ev ∧ clean_event ev = ev ∧ 1 ≤ Sequence ev < 2 ^ 64.
Definition follows (p : option Event) ev : Prop :=
  match p with Some q => Sequence ev = Sequence q + 1 ∧ PreviousHash ev = Hash q | None => True end.
Fixpoint chain_ok k (p : option Event) (evs : list Event) : Prop :=
  match evs with
  | [] => True
  | ev :: rest => signed k ev ∧ follows p ev ∧ chain_ok k (Some ev) rest
  end.

Lemma u64b_spec z : u64b z = true ↔ 0 ≤ z < 2 ^ 64.
Proof. unfold u64b. lia. Qed.
Lemma succ64_small z : 0 ≤ z < 2 ^ 64 - 1 → succ64 z = z + 1.
Proof. intros H. unfold succ64. apply Z.mod_small. lia. Qed.
Lemma succ64_pos z : 0 ≤ z < 2 ^ 64 → succ64 z ≠ 0 → succ64 z = z + 1.
Proof.
  intros Hz Hn. destruct (decide (z = 2 ^ 64 - 1)) as [->|]; [by vm_compute in Hn|]. apply succ64_small. lia.
Qed.

Lemma scan_chain k p ls evs :
  (∀ q, p = Some q → 0 ≤ Sequence q < 2 ^ 64) →
  scan k p ls = Ok evs → chain_ok k p evs ∧ length evs = length ls.
Proof.
  revert p evs. induction ls as [|l ls IH]; intros p evs Hp Hs; cbn [scan] in Hs; [by injection Hs as <-|].
  case_if; [done|]. destruct (ev_unmarshal l) as [ev|] eqn:El; [|done].
  destruct (ev_decoded _ _ El) as [Hc Hu]. apply u64b_spec in Hu.
  destruct (validateEvent ev) eqn:Ev; [done|]. case_if; [done|].
  apply negb_false_iff, bool_decide_eq_true in Heqb0.
  assert (Hn : Sequence ev ≠ 0). { unfold validateEvent in Ev. intros E. by rewrite E in Ev. }
  destruct (match p with Some _ => _ | None => _ end) eqn:El2; [done|].
  destruct (scan k (Some ev) ls) as [evs'|] eqn:Es; [|done]. injection Hs as <-.
  destruct (IH (Some ev) evs') as [H1 H2]; [by intros q [= <-] | done |].
  split; [|cbn; by rewrite H2]. cbn. split; [|split; [|done]].
  - unfold signed. split_and!; [done..|lia|lia].
  - destruct p as [q|]; [|done]. apply orb_false_iff in El2 as [Ea Eb].
    apply negb_false_iff in Ea, Eb. apply Z.eqb_eq in Ea. apply bool_decide_eq_true in Eb.
    cbn. split; [|done]. rewrite Ea. apply succ64_pos; [by apply Hp|lia].
Qed.

Lemma scan_chain_nil k ls evs : scan k None ls = Ok evs → chain_ok k None evs ∧ length evs = length ls.
Proof. by apply scan_chain. Qed.

Lemma scan_app k p l1 l2 :
  scan k p (l1 ++ l2) =
  match scan k p l1 with
  | Ok e1 => match scan k (match last e1 with Some x => Some x | None => p end) l2 with
             | Ok e2 => Ok (e1 ++ e2) | Err err => Err err end
  | Err err => Err err
  end.
Proof.
  revert p. induction l1 as [|l l1 IH]; intros p; cbn [scan app last].
  { by destruct (scan k p l2). }
  case_if; [done|]. destruct (ev_unmarshal l) as [ev|]; [|done].
  destruct (validateEvent ev); [done|]. case_if; [done|].
  destruct (match p with Some _ => _ | None => _ end); [done|].
  rewrite IH. destruct (scan k (Some ev) l1) as [e1|]; [|done].
  assert (Hl : match last (ev :: e1) with Some x => Some x | None => p end = match last e1 with Some x => Some x | None => Some ev end).
  { destruct e1 as [|y e1]; [done|]. rewrite !last_cons. by destruct (last e1). }
  rewrite Hl. by destruct (scan k _ l2).
Qed.

Lemma chain_ok_nth k p evs i ev :
  chain_ok k p evs → evs !! i = Some ev → signed k ev ∧ ∃ first, evs !! 0%nat = Some first ∧ Sequence ev = Sequence first + Z.of_nat i.
Proof.
  revert p i. induction evs as [|x evs IH]; intros p i Hc Hi; [done|].
  destruct Hc as (Hx & Hf & Hc). destruct i as [|i].
  - injection Hi as <-. split; [done|]. exists x. split; [done|lia].
  - cbn in Hi. destruct (IH _ _ Hc Hi) as (Hs & y & Hy & He). split; [done|]. exists x. split; [done|].
    destruct evs as [|y' evs]; [done|]. injection Hy as ->. destruct Hc as (_ & [Hq _] & _). lia.
Qed.

(** ** Sizes *)

Definition size_of (ls : list string) : Z := foldr (λ l acc, len l + 1 + acc) 0 ls.
Lemma size_split f : size f = size_of (lines f) + len (torn f).
Proof. unfold size, size_of. induction (lines f) as [|l ls IH]; cbn [foldr]; lia. Qed.
Lemma size_of_app l1 l2 : size_of (l1 ++ l2) = size_of l1 + size_of l2.
Proof. unfold size_of. induction l1 as [|l l1 IH]; cbn [foldr app]; lia. Qed.
Lemma size_of_length ls : Z.of_nat (length ls) ≤ size_of ls.
Proof. unfold size_of. induction ls as [|l ls IH]; cbn [foldr length]; [lia|]. pose proof (len_nonneg l). lia. Qed.
Lemma size_of_take i ls : size_of (take i ls) + Z.of_nat (length ls - i) ≤ size_of ls.
Proof.
  rewrite <- (take_drop i ls) at 3. rewrite size_of_app. pose proof (size_of_length (drop i ls)) as H1.
  rewrite length_drop in H1. lia.
Qed.

(** ** The invariant *)

(** The state names an event of the log, [lag] events before its end; the log is a
    chain that starts where the state says. *)
Record names k s f (evs : list Event) (lag : nat) : Prop := mkNames {
  n_scan : scan k None (lines f) = Ok evs;
  n_first : ∃ first, evs !! 0%nat = Some first ∧ Sequence first = FirstSequence s ∧ PreviousHash first = FirstPreviousHash s;
  n_bound : FirstSequence s ≤ 2 ^ 63;
  n_tail : ∃ i ev, length evs = (S i + lag)%nat ∧ evs !! i = Some ev ∧ Sequence ev = s_Sequence s ∧ Hash ev = s_Hash s ∧
    LastValidatedSize s ≤ size_of (take (S i) (lines f))
}.

(** A state [loadState] accepts. *)
Definition sealed k s : Prop :=
  Version s = 1 ∧ KeyCheck s = auditKeyCheck k ∧ Signature s = signState k s.
(** A torn last line never decodes. *)
Definition unreadable f : Prop := torn f = "" ∨ ev_unmarshal (torn f) = None.

Definition chained k fs : Prop :=
  auditSigningKey fs = Ok k ∧
  match st fs with
  | NoState => True
  | BadState => False
  | SavedState s => sealed k s ∧ ∃ f evs lag, log fs = Some f ∧ unreadable f ∧ names k s f evs lag
  end.

(** What [current_state] returns to extend: nothing yet, or the whole log. *)
Definition extendable k s f (evs : list Event) : Prop :=
  torn f = "" ∧ KeyCheck s = auditKeyCheck k ∧
  ((lines f = [] ∧ evs = [] ∧ s_Sequence s = 0 ∧ s_Hash s = "" ∧ FirstSequence s = 1 ∧ FirstPreviousHash s = "") ∨ names k s f evs 0).

Lemma scan_lines_whole f : torn f = "" → scan_lines f = lines f.
Proof. intros E. unfold scan_lines. rewrite decide_True by done. apply app_nil_r. Qed.

Lemma scan_unreadable k f evs : unreadable f → scan k None (scan_lines f) = Ok evs → torn f = "".
Proof.
  intros [?|Hu] Hs; [done|]. destruct (decide (torn f = "")) as [|Hn]; [done|].
  unfold scan_lines in Hs. rewrite decide_False, scan_app in Hs by done.
  destruct (scan k None (lines f)) as [e1|]; [|done]. cbn [scan] in Hs. rewrite Hu in Hs. by case_if.
Qed.

Lemma names_lst k s f evs lag :
  names k s f evs lag →
  ∃ first lst, evs !! 0%nat = Some first ∧ last evs = Some lst ∧ Sequence first = FirstSequence s ∧
    PreviousHash first = FirstPreviousHash s ∧ signed k lst ∧ 1 ≤ FirstSequence s ∧ 1 ≤ s_Sequence s < 2 ^ 64 ∧
    Sequence lst = s_Sequence s + Z.of_nat lag ∧ (lag = 0%nat → Hash lst = s_Hash s) ∧ len (s_Hash s) = 64 ∧
    to_valid (s_Hash s) = s_Hash s ∧ FirstSequence s ≤ s_Sequence s ∧
    Sequence lst = FirstSequence s + Z.of_nat (length evs) - 1.
Proof.
  intros [Hs (first & Hf & Hq & Hp) Hb (i & ev & Hl & Hi & Hse & Hh & _)].
  destruct (scan_chain_nil _ _ _ Hs) as [Hc _].
  destruct (chain_ok_nth _ _ _ _ _ Hc Hi) as [Hse1 (first' & Hf' & Hseq)]. simplify_eq.
  assert (is_Some (evs !! (length evs - 1)%nat)) as [lst Hlst] by (apply lookup_lt_is_Some; lia).
  destruct (chain_ok_nth _ _ _ _ _ Hc Hlst) as [Hs1 (first' & Hf' & Hseq')]. simplify_eq.
  destruct (chain_ok_nth _ _ _ _ _ Hc Hf) as [Hs2 _].
  pose proof Hse1 as (_ & Hh1 & _ & Hr1). pose proof Hs2 as (_ & _ & _ & Hr2).
  exists first, lst. rewrite last_lookup. replace (pred (length evs)) with (length evs - 1)%nat by lia.
  unfold hashEvent in Hh1. rewrite <- Hh, <- Hh1. split_and!; try done; try lia.
  - intros ->. replace (length evs - 1)%nat with i in Hlst by lia. congruence.
  - apply mac_len.
  - apply mac_valid.
Qed.

Lemma loadState_saved e fs s s1 :
  st fs = SavedState s → loadState e fs = Ok s1 →
  s1 = s ∨ s1 = mkState (Version s) (s_Sequence s) (s_Hash s) (FirstSequence s) (FirstPreviousHash s) (KeyCheck s) (Signature s) 0 0 0 "".
Proof. intros Hst Hl. unfold loadState in Hl. rewrite Hst in Hl. go_cases; auto. Qed.

(** The state read back names the same event; its cache may have been dropped. *)
Lemma loadState_names e k fs s s1 f evs lag :
  st fs = SavedState s → sealed k s → loadState e fs = Ok s1 → names k s f evs lag →
  names k s1 f evs lag ∧ KeyCheck s1 = auditKeyCheck k ∧ Version s1 = 1.
Proof.
  intros Hst (Hv & Hk & _) Hl Hn. destruct (loadState_saved _ _ _ _ Hst Hl) as [-> | ->]; [done|].
  split_and!; try done. destruct Hn as [H1 H2 H3 (i & ev & Ha & Hb & Hc & Hd & He)]. constructor; try done.
  exists i, ev. split_and!; try done. cbn. pose proof (size_of_length (take (S i) (lines f))). lia.
Qed.

(** Renewing the cache of a state that names the last event. *)
Lemma names_cache k s f evs sz mt fv cs :
  names k s f evs 0 → sz ≤ size_of (lines f) →
  names k (mkState (Version s) (s_Sequence s) (s_Hash s) (FirstSequence s) (FirstPreviousHash s) (KeyCheck s) (Signature s) sz mt fv cs) f evs 0.
Proof.
  intros [H1 H2 H3 (i & ev & Ha & Hb & Hc & Hd & He)] Hsz. constructor; try done.
  exists i, ev. split_and!; try done. cbn. destruct (scan_chain_nil _ _ _ H1) as [_ Hlen].
  rewrite take_ge by lia. done.
Qed.

(** Reconciliation accepts a log that is at most one event ahead, and advances. *)
Lemma reconcileTail_names e k s fs f evs lag s' :
  log fs = Some f → unreadable f → names k s f evs lag → KeyCheck s = auditKeyCheck k →
  reconcileTail e k s fs = Ok s' →
  torn f = "" ∧ (lag ≤ 1)%nat ∧ KeyCheck s' = auditKeyCheck k ∧
  ∀ sz mt fv cs, sz ≤ size_of (lines f) →
    names k (mkState (Version s') (s_Sequence s') (s_Hash s') (FirstSequence s') (FirstPreviousHash s') (KeyCheck s') (Signature s') sz mt fv cs) f evs 0.
Proof.
  intros Hlog Hu Hn Hk Hr. unfold reconcileTail in Hr. rewrite Hlog in Hr. case_if; [done|].
  destruct (scan k None (scan_lines f)) as [evs'|] eqn:Es; [|done].
  pose proof (scan_unreadable _ _ _ Hu Es) as Ht. rewrite scan_lines_whole in Es by done.
  destruct (names_lst _ _ _ _ _ Hn) as (first & lst & Hf & Hlst & Hq & Hp & Hsl & H1 & H2 & Hseq & Hh & _).
  pose proof Hn as [Hs _ Hb (i & ev & Hlen & Hi & Hse & Hhe & Hsz)]. rewrite Hs in Es. injection Es as <-.
  destruct (scan_chain_nil _ _ _ Hs) as [_ Hll].
  destruct evs as [|x evs]; [done|]. injection Hf as ->. rewrite Hlst in Hr.
  rewrite (proj2 (Z.eqb_neq (FirstSequence s) 0)), Hq, Hp, Z.eqb_refl, bool_decide_true in Hr by lia || done. cbn [negb orb] in Hr.
  split; [done|]. case_if.
  - apply Z.eqb_eq in Heqb0. cbn [s_Sequence] in Heqb0. assert (lag = 0%nat) as -> by lia.
    case_if; [done|]. injection Hr as <-. cbn. split_and!; [lia|done|]. intros. by apply names_cache.
  - case_if; [|done]. apply andb_true_iff in Heqb1 as [Hn1 _]. apply Z.eqb_eq in Hn1. cbn [s_Sequence] in Hn1.
    destruct Hsl as (_ & _ & _ & Hr1). rewrite succ64_pos in Hn1 by lia. assert (lag = 1%nat) as -> by lia.
    injection Hr as <-. cbn. split_and!; [lia|done|]. intros sz mt fv cs Hz. constructor; [done|by exists first|done|].
    exists (S i), lst. rewrite last_lookup in Hlst. cbn [length] in *. replace (pred (S (length evs))) with (S i) in Hlst by lia.
    split_and!; try done; [lia|]. cbn. by rewrite take_ge by lia.
Qed.

Lemma current_state_names e k s fs f evs lag s' :
  log fs = Some f → unreadable f → names k s f evs lag → KeyCheck s = auditKeyCheck k →
  current_state e k s fs = Ok s' → (lag ≤ 1)%nat ∧ extendable k s' f evs.
Proof.
  intros Hlog Hu Hn Hk Hc. unfold current_state in Hc. rewrite Hlog in Hc. case_if.
  - injection Hc as <-. apply andb_true_iff in Heqb as [Hm _].
    apply andb_true_iff in Hm as [_ Hm]. apply andb_true_iff in Hm as [Hm _]. apply andb_true_iff in Hm as [Hm _].
    apply Z.eqb_eq in Hm. pose proof Hn as [Hs _ _ (i & ev & Hlen & Hi & Hse & Hhe & Hsz)].
    destruct (scan_chain_nil _ _ _ Hs) as [_ Hll].
    pose proof (size_of_take (S i) (lines f)). rewrite size_split in Hm. pose proof (len_nonneg (torn f)).
    assert (len (torn f) = 0 ∧ lag = 0%nat) as [Ht ->] by lia. apply len_zero in Ht.
    split; [lia|]. split_and!; auto.
  - destruct (reconcileTail e k s fs) as [s1|] eqn:Er; [|done].
    destruct (reconcileTail_names _ _ _ _ _ _ _ _ Hlog Hu Hn Hk Er) as (Ht & Hl & Hk1 & Hall).
    case_if; [done|]. injection Hc as <-. split; [done|]. split_and!; [done..|]. right.
    apply Hall. rewrite size_split, Ht. change (len "") with 0. lia.
Qed.

(** Nothing to extend yet. *)
Lemma current_state_fresh e k fs fs1 s1 s' :
  start_chain e k zero_state fs = Ok (s1, fs1) → current_state e k s1 fs1 = Ok s' →
  extendable k s' (default (mkLog [] "" 0) (log fs1)) [] ∧ st fs1 = st fs ∧ key fs1 = key fs ∧ size (default (mkLog [] "" 0) (log fs1)) = 0.
Proof.
  intros Hs Hc.
  assert (Hf : s1 = mkState 1 0 "" 0 "" (auditKeyCheck k) "" 0 0 0 "" ∧ st fs1 = st fs ∧ key fs1 = key fs ∧
               (log fs1 = None ∨ ∃ f, log fs1 = Some f ∧ lines f = [] ∧ torn f = "")).
  { unfold start_chain in Hs. cbn in Hs. destruct (log fs) as [f|] eqn:El; [|by simplify_eq; auto].
    case_if; [case_if; simplify_eq; cbn; auto|]. simplify_eq. split_and!; try done. right. exists f. split; [done|].
    rewrite size_split in Heqb. pose proof (len_nonneg (torn f)). pose proof (size_of_length (lines f)).
    split; [apply nil_length_inv; lia | apply len_zero; lia]. }
  destruct Hf as (-> & Hst & Hk & Hlog). split_and!; [|done..|by destruct Hlog as [-> | (f & -> & El & Et)]; cbn; [|rewrite size_split, El, Et]].
  unfold current_state in Hc. cbn [LastValidatedSize LastFullVerifyTimeNS] in Hc.
  cbn in Hc. destruct Hlog as [El | (f & El & Ef & Et)]; rewrite El in Hc |- *; cbn [default].
  - rewrite andb_false_r in Hc. cbn in Hc. unfold reconcileTail in Hc. rewrite El in Hc. case_if; [done|]. injection Hc as <-.
    split_and!; [done..|]. left. cbn. by rewrite succ64_small.
  - rewrite !andb_false_r in Hc. cbn in Hc. unfold reconcileTail in Hc. rewrite El in Hc.
    case_if; [done|]. rewrite scan_lines_whole, Ef in Hc by done. cbn in Hc. case_if; [done|]. injection Hc as <-.
    split_and!; [done..|]. left. cbn. by rewrite succ64_small.
Qed.

(** ** The new event *)

(** Arguments the log can hold: valid UTF-8, and an actor and an action that are not
    blank after truncation. *)
Definition readable (actor action target detail : string) : Prop :=
  to_valid actor = actor ∧ to_valid action = action ∧ to_valid target = target ∧ to_valid detail = detail ∧
  TrimSpace (truncateValue actor 128) ≠ "" ∧ TrimSpace (truncateValue action 128) ≠ "".

Lemma new_event_signed e k s actor action target detail :
  readable actor action target detail → 0 ≤ s_Sequence s < 2 ^ 64 - 1 →
  to_valid (s_Hash s) = s_Hash s → len (s_Hash s) ≤ 64 →
  let ev := new_event e k s actor action target detail in
  signed k ev ∧ Sequence ev = s_Sequence s + 1 ∧ PreviousHash ev = s_Hash s ∧
  ev_unmarshal (ev_marshal ev) = Some ev ∧ 0 < len (ev_marshal ev) < maxLine.
Proof.
  intros (H1 & H2 & H3 & H4 & Hb1 & Hb2) Hs Hv Hl ev.
  destruct (time_fmt (clock e 2)) as (Ht1 & Ht2 & Ht3).
  assert (Hq : Sequence ev = s_Sequence s + 1) by (cbn; by apply succ64_small).
  assert (Hc : clean_event ev = ev).
  { unfold clean_event, ev, new_event, set_hash. cbn. rewrite !truncateValue_valid, Ht2, Hv by done.
    unfold hashEvent. by rewrite mac_valid. }
  assert (Hu : u64b (Sequence ev) = true) by (apply u64b_spec; lia).
  unfold signed. split_and!; try done.
  - unfold validateEvent. rewrite (proj2 (Z.eqb_neq _ _)) by lia. cbn. by rewrite !bool_decide_false, Ht1 by done.
  - rewrite Hq. lia.
  - rewrite Hq. lia.
  - by rewrite ev_roundtrip, Hc by done.
  - by apply ev_marshal_len.
  - pose proof (ev_marshal_len ev Hu) as [_ Hm]. unfold text_len in Hm. cbn in Hm.
    pose proof (truncateValue_len actor 128). pose proof (truncateValue_len action 128).
    pose proof (truncateValue_len target 512). pose proof (truncateValue_len detail 4096).
    unfold hashEvent in Hm. rewrite mac_len in Hm. unfold maxLine. change (2 ^ 20) with 1048576. lia.
Qed.

Lemma scan_one k p ev :
  ev_unmarshal (ev_marshal ev) = Some ev → len (ev_marshal ev) < maxLine → signed k ev → follows p ev →
  match p with Some q => signed k q | None => True end →
  scan k p [ev_marshal ev] = Ok [ev].
Proof.
  intros Hu Hl (Hv & Hh & _ & Hr) Hf Hp. cbn [scan]. rewrite (proj2 (Z.leb_gt _ _)), Hu, Hv, bool_decide_true by done. cbn [negb].
  destruct p as [q|]; [|done]. destruct Hf as [Hf1 Hf2], Hp as (_ & _ & _ & Hq).
  by rewrite bool_decide_true, succ64_small, Hf1, Z.eqb_refl by done || lia.
Qed.

(** Writing the event extends the chain by it. *)
Lemma extend_scan e k s f evs actor action target detail t :
  extendable k s f evs → size f < maxAuditLogBytes → readable actor action target detail →
  let ev := new_event e k s actor action target detail in
  let f' := write_line f (ev_marshal ev) None t in
  scan k None (lines f') = Ok (evs ++ [ev]) ∧ lines f' = lines f ++ [ev_marshal ev] ∧ torn f' = "" ∧
  size f < size f' ≤ size f + maxLine ∧
  ∀ sz mt fv cs sg, sz ≤ size f' →
    names k (mkState 1 (Sequence ev) (Hash ev) (FirstSequence s) (FirstPreviousHash s) (KeyCheck s) sg sz mt fv cs) f' (evs ++ [ev]) 0.
Proof.
  intros (Ht & _ & Hx) Hsz Hr ev f'.
  assert (Hlines : lines f' = lines f ++ [ev_marshal ev]) by (unfold f', write_line; cbn; by rewrite Ht).
  assert (Hfs : size f' = size_of (lines f')) by (rewrite size_split; change (torn f') with ""; change (len "") with 0; lia).
  assert (Heq : size f' = size f + len (ev_marshal ev) + 1).
  { rewrite Hfs, Hlines, size_of_app, (size_split f), Ht. change (len "") with 0. cbn. lia. }
  assert (Hscan : scan k None (lines f') = Ok (evs ++ [ev]) ∧
    (∃ first, (evs ++ [ev]) !! 0%nat = Some first ∧ Sequence first = FirstSequence s ∧ PreviousHash first = FirstPreviousHash s) ∧
    FirstSequence s ≤ 2 ^ 63 ∧ len (ev_marshal ev) < maxLine).
  { rewrite Hlines. destruct Hx as [(El & -> & Hq & Hh & Hf1 & Hf2) | Hn].
    - destruct (new_event_signed e k s actor action target detail) as (H1 & H2 & H3 & H4 & H5); [done|lia|by rewrite Hh|by rewrite Hh|].
      fold ev in H1, H2, H3, H4, H5.
      rewrite El. split_and!; [apply scan_one; done || lia | | lia | lia]. exists ev. split_and!; [done|lia|congruence].
    - destruct (names_lst _ _ _ _ _ Hn) as (first & lst & Hf & Hlst & Hq & Hp & Hsl & Hf1 & Hf2 & Hs & Hh & Hl & Hv & _ & Hlen).
      specialize (Hh eq_refl). pose proof Hn as [Hsc _ Hb _]. destruct (scan_chain_nil _ _ _ Hsc) as [_ Hll].
      pose proof (size_of_length (lines f)) as Hsl'. rewrite size_split, Ht in Hsz. change (len "") with 0 in Hsz.
      unfold maxAuditLogBytes in Hsz.
      destruct (new_event_signed e k s actor action target detail) as (H1 & H2 & H3 & H4 & H5); [done|lia|done|lia|].
      fold ev in H1, H2, H3, H4, H5.
      split_and!; [|exists first; split_and!; try done; by rewrite lookup_app_l by (by eapply lookup_lt_Some)|done|lia].
      rewrite scan_app, Hsc, Hlst, scan_one; try done; [lia|]. split; [lia|congruence]. }
  destruct Hscan as (Hscan & Hfirst & Hb & Hml). pose proof (len_nonneg (ev_marshal ev)). split_and!; try done; [lia..|].
  intros sz mt fv cs sg Hs. constructor; try done. exists (length evs), ev. split_and!; try done.
  - rewrite length_app. cbn. lia.
  - rewrite lookup_app_r, Nat.sub_diag by done. done.
  - cbn [LastValidatedSize]. destruct (scan_chain_nil _ _ _ Hscan) as [_ Hll]. rewrite length_app in Hll. cbn [length] in Hll.
    rewrite take_ge by lia. lia.
Qed.

(** A state that was not renewed falls behind by one. *)
Lemma names_behind k s f f' evs lag l ev :
  names k s f evs lag → lines f' = lines f ++ [l] → scan k None (lines f') = Ok (evs ++ [ev]) →
  names k s f' (evs ++ [ev]) (S lag).
Proof.
  intros [H1 (first & Hf & Hq) H3 (i & ev0 & Ha & Hb & Hc & Hd & He)] El Hs. constructor; try done.
  - exists first. split; [|done]. rewrite lookup_app_l by (by eapply lookup_lt_Some). done.
  - exists i, ev0. rewrite length_app, lookup_app_l by (by eapply lookup_lt_Some). cbn. split_and!; try done; [lia|].
    destruct (scan_chain_nil _ _ _ H1) as [_ Hll]. rewrite El, take_app_le by lia. done.
Qed.

(** A partial write leaves the complete lines. *)
Lemma names_torn k s f f' evs lag : names k s f evs lag → lines f' = lines f → names k s f' evs lag.
Proof. intros [H1 H2 H3 H4] El. constructor; rewrite ?El; done. Qed.

(** ** Appending *)

Lemma sealed_sealed k s : Version s = 1 → KeyCheck s = auditKeyCheck k → sealed k (sealed_state k s).
Proof. intros Hv Hk. unfold sealed, sealed_state. by destruct (0 <? LastValidatedSize s). Qed.

(** The state [write_event] saves, as [writeState] seals it, names the new event. *)
Lemma sealed_names k s f evs lf sz mt :
  (∀ sz mt fv cs sg, sz ≤ size f →
    names k (mkState 1 (s_Sequence s) (s_Hash s) (FirstSequence s) (FirstPreviousHash s) (KeyCheck s) sg sz mt fv cs) f evs 0) →
  sz ≤ size f →
  names k (sealed_state k (mkState 1 (s_Sequence s) (s_Hash s) (FirstSequence s) (FirstPreviousHash s) (KeyCheck s) "" sz mt lf "")) f evs 0.
Proof.
  intros Hn Hsz. unfold sealed_state. cbn [LastValidatedSize]. destruct (0 <? sz); cbn; apply Hn; [done|].
  rewrite size_split. pose proof (size_of_length (lines f)). pose proof (len_nonneg (torn f)). lia.
Qed.

(** How far an append with a saved state gets. *)
Lemma append_saved e tear actor action target detail k fs s0 f evs lag r fs' :
  auditSigningKey fs = Ok k → st fs = SavedState s0 → sealed k s0 → log fs = Some f → unreadable f → names k s0 f evs lag →
  appendEvent e tear actor action target detail fs = (r, fs') →
  (r ≠ None ∧ fs' = fs) ∨
  (lag ≤ 1)%nat ∧ size f < maxAuditLogBytes ∧ ∃ s, extendable k s f evs ∧
    write_event e tear k s (new_event e k s actor action target detail) fs = (r, fs').
Proof.
  intros Hk Hst Hse Hlog Hu Hn Ha. unfold appendEvent in Ha. rewrite Hlog, Hk in Ha.
  do 3 (case_if; [left; by simplify_eq|]). case_if; [left; by simplify_eq|]. apply Z.leb_gt in Heqb2.
  destruct (loadState e fs) as [s1|] eqn:El; [|left; by simplify_eq].
  destruct (loadState_names _ _ _ _ _ _ _ _ Hst Hse El Hn) as (Hn1 & Hk1 & Hv1).
  unfold start_chain in Ha. rewrite Hv1 in Ha. cbn in Ha.
  destruct (current_state e k s1 fs) as [s|] eqn:Ec; [|left; by simplify_eq].
  destruct (current_state_names _ _ _ _ _ _ _ _ Hlog Hu Hn1 Hk1 Ec). right. split_and!; try done. by exists s.
Qed.

Lemma append_fresh e tear actor action target detail k fs r fs' :
  auditSigningKey fs = Ok k → st fs = NoState → appendEvent e tear actor action target detail fs = (r, fs') →
  (r ≠ None ∧ st fs' = NoState ∧ key fs' = key fs) ∨
  ∃ s fs1, st fs1 = NoState ∧ key fs1 = key fs ∧ extendable k s (default (mkLog [] "" 0) (log fs1)) [] ∧
    size (default (mkLog [] "" 0) (log fs1)) = 0 ∧
    write_event e tear k s (new_event e k s actor action target detail) fs1 = (r, fs').
Proof.
  intros Hk Hst Ha. unfold appendEvent in Ha. rewrite Hk in Ha.
  do 3 (case_if; [left; by simplify_eq|]). case_if; [left; by simplify_eq|].
  unfold loadState in Ha. rewrite Hst in Ha.
  destruct (start_chain e k zero_state fs) as [[s1 fs1]|] eqn:Es; [|left; by simplify_eq].
  destruct (current_state e k s1 fs1) as [s|] eqn:Ec.
  - destruct (current_state_fresh _ _ _ _ _ _ Es Ec) as (H1 & H2 & H3 & H4).
    right. exists s, fs1. split_and!; try done. by rewrite H2.
  - left. injection Ha as <- <-. unfold start_chain in Es. cbn in Es.
    destruct (log fs); repeat case_if; by simplify_eq.
Qed.

(** What writing an event leaves: the log as it was, torn, or extended; and the state
    as it was, or naming the new event. *)
Inductive written e k s ev fs f evs : option error → FS → Prop :=
  | w_refused err : written e k s ev fs f evs (Some err) fs
  | w_torn n err : written e k s ev fs f evs (Some err)
      (mkFS (Some (write_line f (ev_marshal ev) (Some n) (clock e 3))) (st fs) (legacy fs) (key fs))
  | w_unnamed err : written e k s ev fs f evs (Some err)
      (mkFS (Some (write_line f (ev_marshal ev) None (clock e 3))) (st fs) (legacy fs) (key fs))
  | w_named r s' f' : f' = write_line f (ev_marshal ev) None (clock e 3) → sealed k s' →
      s_Sequence s' = Sequence ev → s_Hash s' = Hash ev → FirstSequence s' = FirstSequence s →
      names k s' f' (evs ++ [ev]) 0 →
      written e k s ev fs f evs r (mkFS (Some f') (SavedState s') (legacy fs) (key fs)).

Lemma write_event_written e tear k s fs f evs actor action target detail r fs' :
  f = default (mkLog [] "" 0) (log fs) → extendable k s f evs → size f < maxAuditLogBytes → readable actor action target detail →
  write_event e tear k s (new_event e k s actor action target detail) fs = (r, fs') →
  written e k s (new_event e k s actor action target detail) fs f evs r fs' ∧ (r = None → tear = None ∧ ∃ s', st fs' = SavedState s').
Proof.
  intros -> Hx Hsz Hr Hw.
  destruct (extend_scan e k s _ evs actor action target detail (clock e 3) Hx Hsz Hr) as (_ & _ & _ & _ & Hn).
  set (ev := new_event _ _ _ _ _ _ _) in *. set (f' := write_line _ _ None _) in *.
  unfold write_event in Hw. fold ev in Hw. case_if; [injection Hw as <- <-; split; [constructor|done]|].
  destruct tear as [n|]; [injection Hw as <- <-; split; [by constructor|done]|]. fold f' in Hw.
  case_if; [injection Hw as <- <-; split; [by constructor|done]|].
  assert (Hf0 : 0 ≤ size f'). { rewrite size_split. pose proof (size_of_length (lines f')). pose proof (len_nonneg (torn f')). lia. }
  destruct Hx as (_ & Hk & _).
  assert (Hall : ∀ sz mt, sz ≤ size f' →
    written e k s ev fs (default (mkLog [] "" 0) (log fs)) evs r (mkFS (Some f') (SavedState (sealed_state k (mkState 1 (Sequence ev) (Hash ev) (FirstSequence s)
      (FirstPreviousHash s) (KeyCheck s) "" sz mt (LastFullVerifyTimeNS s) ""))) (legacy fs) (key fs))).
  { intros sz mt Hz. apply w_named; [done|by apply sealed_sealed|by unfold sealed_state; destruct (0 <? _)..|].
    apply (sealed_names k (mkState 1 (Sequence ev) (Hash ev) (FirstSequence s) (FirstPreviousHash s) (KeyCheck s) "" 0 0 0 "")); done. }
  destruct (if fault e 10 then (0, 0) else (size f', mtime f')) as [sz mt] eqn:Ez.
  assert (Hz : sz ≤ size f') by (destruct (fault e 10); injection Ez as <- <-; done).
  unfold writeState in Hw. case_if; [injection Hw as <- <-; split; [by constructor|done]|].
  case_if; injection Hw as <- <-; (split; [by apply Hall|cbn; eauto]).
Qed.

Lemma written_chained e k s fs f evs actor action target detail r fs' :
  auditSigningKey fs = Ok k → (log fs = Some f ∨ st fs = NoState) → extendable k s f evs → size f < maxAuditLogBytes →
  readable actor action target detail →
  match st fs with NoState => True | BadState => False | SavedState s0 => sealed k s0 ∧ ∃ lag, names k s0 f evs lag end →
  (∀ g, log fs' = Some g → unreadable g) →
  written e k s (new_event e k s actor action target detail) fs f evs r fs' → chained k fs'.
Proof.
  intros Hk Hlog Hx Hsz Hr Hst Hu Hw.
  destruct (extend_scan e k s f evs actor action target detail (clock e 3) Hx Hsz Hr) as (Hs & Hl & Ht & _).
  destruct Hw as [err|n err|err|r s' f' -> Hse _ _ _ Hn]; (split; [done|]); cbn [st log].
  - destruct (st fs) as [| |s0]; [done..|]. destruct Hst as [Hse [lag Hn]], Hlog as [Hlog|]; [|done].
    split; [done|]. exists f, evs, lag. split_and!; auto.
  - destruct (st fs) as [| |s0]; [done..|]. destruct Hst as [Hse [lag Hn]].
    split; [done|]. eexists _, evs, lag. split_and!; [done|by apply Hu|]. by eapply names_torn.
  - destruct (st fs) as [| |s0]; [done..|]. destruct Hst as [Hse [lag Hn]].
    split; [done|]. eexists _, _, (S lag). split_and!; [done|by apply Hu|]. by eapply names_behind.
  - split; [done|]. eexists _, _, 0%nat. split_and!; [done|by apply Hu|done].
Qed.

Lemma chained_append e tear actor action target detail k fs r fs' :
  chained k fs → readable actor action target detail →
  appendEvent e tear actor action target detail fs = (r, fs') → (∀ f, log fs' = Some f → unreadable f) → chained k fs'.
Proof.
  intros Hch Hr Ha Hu. pose proof Hch as [Hk Hst]. destruct (st fs) as [| |s0] eqn:Es; [|done|].
  - destruct (append_fresh _ _ _ _ _ _ _ _ _ _ Hk Es Ha) as [(_ & H1 & H2) | (s & fs1 & H1 & H2 & Hx & Hz & Hw)].
    { split; [by unfold auditSigningKey; rewrite H2|by rewrite H1]. }
    edestruct write_event_written as [Hwr _]; [done|exact Hx|rewrite Hz; done|exact Hr|exact Hw|].
    eapply written_chained; [| |exact Hx| | exact Hr | |exact Hu|exact Hwr]; [unfold auditSigningKey; by rewrite H2|by right|by rewrite Hz|by rewrite H1].
  - destruct Hst as (Hse & f & evs & lag & Hlog & Huf & Hn).
    destruct (append_saved _ _ _ _ _ _ _ _ _ _ _ _ _ _ Hk Es Hse Hlog Huf Hn Ha) as [[_ ->] | (_ & Hsz & s & Hx & Hw)]; [done|].
    edestruct write_event_written as [Hwr _]; [|exact Hx|done|exact Hr|exact Hw|]; [by rewrite Hlog|].
    eapply written_chained; [done|by left|exact Hx|done|exact Hr| |exact Hu|exact Hwr]. rewrite Es. eauto.
Qed.

(** The files after any number of append attempts from the first start, each of which
    may fail at any system call or leave a part of its line that does not decode. *)
Inductive audit_reachable k : FS → Prop :=
  | ar_start fs : auditSigningKey fs = Ok k → st fs = NoState → audit_reachable k fs
  | ar_append e tear actor action target detail fs r fs' :
      audit_reachable k fs → readable actor action target detail →
      appendEvent e tear actor action target detail fs = (r, fs') →
      (∀ f, log fs' = Some f → unreadable f) → audit_reachable k fs'.

(** C32: Whatever sequence of appends is attempted, and wherever each of them fails (a
    failed system call, a crash, a write that stops after any number of bytes), the complete
    lines of the log stay one chain of correctly signed, consecutively numbered events that
    begins where the signed state says, and the state, whenever one was saved, is authentic
    and names one of these events; for events of readable fields (valid UTF-8, an actor and an
    action that are not blank after truncation) and as long as no interrupted write has left an
    unterminated last line that decodes, which is one that stopped just before its newline.
    Both conditions are needed: [unreadable_event_breaks_chain] and [missing_newline_corrupts]
    below break the chain without them. *)
Theorem audit_chain_invariant k fs : audit_reachable k fs → chained k fs.
Proof.
  induction 1 as [fs Hk Hs | e tear a b c d fs r fs' _ IH Hr Ha Hu]; [by split; [|rewrite Hs]|].
  by eapply chained_append.
Qed.

(** *** Reading the log back *)

Lemma loadState_ok e fs k s f evs lag :
  auditSigningKey fs = Ok k → st fs = SavedState s → sealed k s → names k s f evs lag → fault e 3 = false →
  s_Sequence s < 2 ^ 64 - 1 → ∃ s1, loadState e fs = Ok s1.
Proof.
  intros Hk Hst (Hv & Hkc & Hsg) Hn Hf Hlt.
  destruct (names_lst _ _ _ _ _ Hn) as (first & lst & _ & _ & _ & _ & _ & H1 & H2 & _ & _ & Hl & _ & H3 & _).
  unfold loadState. rewrite Hst, Hf, Hk, Hv, Hkc, Hl, succ64_small by lia.
  rewrite (proj2 (Z.eqb_neq (s_Sequence s) 0)), (proj2 (Z.ltb_ge _ (FirstSequence s))) by lia.
  cbn [Z.eqb negb andb orb]. rewrite andb_false_r. cbn [orb]. rewrite bool_decide_true by done. cbn [negb]. rewrite bool_decide_true by done. cbn [negb].
  destruct (_ && _); eauto.
Qed.

Lemma names_short k s f evs lag :
  names k s f evs lag → Z.of_nat (length (lines f)) ≤ maxAuditLogBytes → s_Sequence s < 2 ^ 64 - 2.
Proof.
  intros Hn Hsz. destruct (names_lst _ _ _ _ _ Hn) as (first & lst & _ & _ & _ & _ & _ & H1 & H2 & H3 & _ & _ & _ & _ & H4).
  pose proof Hn as [Hsc _ Hb _]. destruct (scan_chain_nil _ _ _ Hsc) as [_ Hll].
  unfold maxAuditLogBytes in Hsz. lia.
Qed.

Lemma lines_le_size f : Z.of_nat (length (lines f)) ≤ size f.
Proof. rewrite size_split. pose proof (size_of_length (lines f)). pose proof (len_nonneg (torn f)). lia. Qed.

Lemma Verify_ok e fs k s f evs :
  auditSigningKey fs = Ok k → st fs = SavedState s → sealed k s → log fs = Some f → torn f = "" → names k s f evs 0 →
  s_Sequence s < 2 ^ 64 - 1 → fault e 0 = false → fault e 3 = false → Verify e fs = None.
Proof.
  intros Hk Hst Hse Hlog Ht Hn Hlt Hf0 Hf3.
  destruct (loadState_ok e fs k s f evs 0 Hk Hst Hse Hn Hf3 Hlt) as [s1 Hl].
  unfold Verify. rewrite Hlog, Hf0, Hk, scan_lines_whole, (n_scan _ _ _ _ _ Hn), Hl by done.
  destruct (loadState_names _ _ _ _ _ _ _ _ Hst Hse Hl Hn) as (Hn1 & _).
  destruct (names_lst _ _ _ _ _ Hn1) as (first & lst & Hf & Hlst & Hq & Hp & _ & _ & _ & Hs & Hh & _).
  destruct evs as [|x evs]; [done|]. injection Hf as ->. rewrite Hlst, Hs, (Hh eq_refl), Hq, Hp, Z.add_0_r, !Z.eqb_refl.
  by rewrite !bool_decide_true by done.
Qed.

(** A successful write, seen from the files it leaves. *)
Lemma written_ok e k s fs f evs actor action target detail fs' :
  auditSigningKey fs = Ok k → extendable k s f evs → size f < maxAuditLogBytes → readable actor action target detail →
  written e k s (new_event e k s actor action target detail) fs f evs None fs' →
  ∃ f', log fs' = Some f' ∧ torn f' = "" ∧ lines f' = lines f ++ [ev_marshal (new_event e k s actor action target detail)] ∧
    scan k None (lines f') = Ok (evs ++ [new_event e k s actor action target detail]) ∧
    ∀ e', fault e' 0 = false → fault e' 3 = false → Verify e' fs' = None.
Proof.
  intros Hk Hx Hsz Hr Hw.
  destruct (extend_scan e k s f evs actor action target detail (clock e 3) Hx Hsz Hr) as (Hs & Hl & Ht & _).
  inversion Hw as [| | |r s' f' -> Hse _ _ _ Hn]; subst. eexists. split_and!; try done.
  intros e' H0 H3. eapply Verify_ok; try done.
  pose proof (names_short _ _ _ _ _ Hn) as Hq. rewrite Hl, length_app in Hq. cbn in Hq. pose proof (lines_le_size f). lia.
Qed.

(** An append that reports success has recorded its event: the log is the log as
    it was, whole, and one more line, which decodes to an event with the given actor,
    action, target and detail (cut to their limits), the next number and the hash of
    its predecessor; and verification accepts the log from then on. *)
Theorem append_recorded e e' tear actor action target detail k fs fs' s0 f :
  chained k fs → st fs = SavedState s0 → log fs = Some f → readable actor action target detail →
  appendEvent e tear actor action target detail fs = (None, fs') → fault e' 0 = false → fault e' 3 = false →
  Verify e' fs' = None ∧
  ∃ evs p ev f', scan k None (lines f) = Ok evs ∧ last evs = Some p ∧ torn f = "" ∧
    log fs' = Some f' ∧ torn f' = "" ∧ lines f' = lines f ++ [ev_marshal ev] ∧ scan k None (lines f') = Ok (evs ++ [ev]) ∧
    Sequence ev = Sequence p + 1 ∧ PreviousHash ev = Hash p ∧ Actor ev = truncateValue actor 128 ∧
    Action ev = truncateValue action 128 ∧ Target ev = truncateValue target 512 ∧ Detail ev = truncateValue detail 4096.
Proof.
  intros [Hk Hst] Es Hlog Hr Ha H0 H3. rewrite Es in Hst. destruct Hst as (Hse & f0 & evs & lag & Hlog' & Huf & Hn).
  rewrite Hlog' in Hlog. injection Hlog as ->.
  destruct (append_saved _ _ _ _ _ _ _ _ _ _ _ _ _ _ Hk Es Hse Hlog' Huf Hn Ha) as [[[] _] | (_ & Hsz & s & Hx & Hw)]; [done|].
  edestruct write_event_written as [Hwr _]; [|exact Hx|done|exact Hr|exact Hw|]; [by rewrite Hlog'|].
  destruct (written_ok _ _ _ _ _ _ _ _ _ _ _ Hk Hx Hsz Hr Hwr) as (f' & H1 & H2 & H4 & H5 & H6). split; [by apply H6|].
  pose proof Hx as (Ht & _ & Hcase). destruct Hcase as [(El & -> & _) | Hn0].
  { by destruct Hn as [_ (first & Hf & _) _ _]. }
  destruct (names_lst _ _ _ _ _ Hn0) as (first & lst & Hf & Hlst & Hq & Hp & Hsl & Hf1 & Hf2 & Hs & Hh & Hl & Hv & _).
  pose proof (names_short _ _ _ _ _ Hn0) as Hsh. pose proof (lines_le_size f).
  destruct (new_event_signed e k s actor action target detail) as (_ & Hq1 & Hq2 & _); [done|lia|done|lia|].
  exists evs, lst, (new_event e k s actor action target detail), f'. rewrite Hq1, Hq2, (Hh eq_refl).
  split_and!; try done; [apply Hn|lia].
Qed.

(** ** Recovery *)

Lemma chain_follow k p evs i a b :
  chain_ok k p evs → evs !! i = Some a → evs !! S i = Some b → PreviousHash b = Hash a.
Proof.
  revert p i. induction evs as [|x evs IH]; intros p i Hc Ha Hb; [done|]. destruct Hc as (_ & _ & Hc).
  destruct i as [|i]; [|by eapply (IH (Some x) i)]. injection Ha as ->. cbn in Hb.
  destruct evs as [|y evs]; [done|]. injection Hb as ->. by destruct Hc as (_ & [_ ?] & _).
Qed.

Lemma reconcileTail_ok e k s fs f evs lag :
  log fs = Some f → torn f = "" → names k s f evs lag → (lag ≤ 1)%nat → s_Sequence s < 2 ^ 64 - 1 → fault e 5 = false →
  ∃ s', reconcileTail e k s fs = Ok s'.
Proof.
  intros Hlog Ht Hn Hl Hlt Hf. unfold reconcileTail. rewrite Hlog, Hf, scan_lines_whole, (n_scan _ _ _ _ _ Hn) by done.
  destruct (names_lst _ _ _ _ _ Hn) as (first & lst & Hfi & Hlst & Hq & Hp & Hsl & H1 & H2 & Hseq & Hh & _).
  pose proof Hn as [Hs _ Hb (i & ev & Hlen & Hi & Hse & Hhe & Hsz)]. destruct (scan_chain_nil _ _ _ Hs) as [Hc _].
  destruct evs as [|x evs]; [done|]. injection Hfi as ->. rewrite Hlst.
  rewrite (proj2 (Z.eqb_neq (FirstSequence s) 0)), Hq, Hp, Z.eqb_refl, bool_decide_true by lia || done.
  cbn [negb orb s_Sequence s_Hash]. rewrite Hseq.
  destruct lag as [|[|]]; [| |lia].
  - rewrite Z.add_0_r, Z.eqb_refl, bool_decide_true by auto. rewrite andb_false_r. eauto.
  - rewrite (proj2 (Z.eqb_neq _ _)), succ64_small, Z.eqb_refl, bool_decide_true by lia || (rewrite last_lookup, Hlen in Hlst; rewrite <- Hhe; eapply chain_follow; [done..|]; by replace (S i) with (pred (S i + 1)) by lia).
    eauto.
Qed.

Lemma current_state_ok e k s fs f evs lag :
  log fs = Some f → torn f = "" → names k s f evs lag → (lag ≤ 1)%nat → s_Sequence s < 2 ^ 64 - 1 → fault e 5 = false → fault e 6 = false →
  ∃ s', current_state e k s fs = Ok s'.
Proof.
  intros Hlog Ht Hn Hl Hlt H5 H6. destruct (reconcileTail_ok e k s fs f evs lag) as [s' Hs']; [done..|].
  unfold current_state. rewrite Hlog, Hs', H6. case_if; eauto.
Qed.

Lemma readable_nonempty actor action target detail : readable actor action target detail → actor ≠ "" ∧ action ≠ "".
Proof. intros (_ & _ & _ & _ & H1 & H2). split; intros ->; [apply H1 | apply H2]; by vm_compute. Qed.

(** With nothing failing before the write, an append to a log at most one event ahead
    of its state writes the event. *)
Lemma append_reaches e tear actor action target detail k fs s0 f evs lag :
  auditSigningKey fs = Ok k → st fs = SavedState s0 → sealed k s0 → log fs = Some f → torn f = "" → names k s0 f evs lag →
  (lag ≤ 1)%nat → size f < maxAuditLogBytes → readable actor action target detail →
  (∀ n, (n < 8)%nat → fault e n = false) →
  ∃ s, extendable k s f evs ∧
    appendEvent e tear actor action target detail fs = write_event e tear k s (new_event e k s actor action target detail) fs.
Proof.
  intros Hk Hst Hse Hlog Ht Hn Hl Hsz Hr Hf. destruct (readable_nonempty _ _ _ _ Hr).
  pose proof (lines_le_size f). pose proof (names_short _ _ _ _ _ Hn ltac:(lia)) as Hsh.
  destruct (loadState_ok e fs k s0 f evs lag) as [s1 Hl1]; [done..|by apply Hf; lia|lia|].
  destruct (loadState_names _ _ _ _ _ _ _ _ Hst Hse Hl1 Hn) as (Hn1 & Hk1 & Hv1).
  destruct (current_state_ok e k s1 fs f evs lag) as [s Hc]; try done; [|by apply Hf; lia..|].
  { pose proof (names_short _ _ _ _ _ Hn1 ltac:(lia)). lia. }
  destruct (current_state_names _ _ _ _ _ _ _ _ Hlog (or_introl Ht) Hn1 Hk1 Hc) as [_ Hx].
  exists s. split; [done|]. unfold appendEvent.
  rewrite !bool_decide_false, !Hf, Hlog, (proj2 (Z.leb_gt _ _)), Hl1, Hk by done || lia. cbn [orb].
  unfold start_chain. rewrite Hv1. cbn [Z.eqb negb]. by rewrite Hc.
Qed.

(** An append to a log at most one event ahead of its saved state (as a crash or a
    failure between the two writes leaves them) succeeds when nothing fails, and the
    state catches up with the log. *)
Theorem append_recovers e actor action target detail k fs s0 f evs lag :
  auditSigningKey fs = Ok k → st fs = SavedState s0 → sealed k s0 → log fs = Some f → torn f = "" → names k s0 f evs lag →
  (lag ≤ 1)%nat → size f < maxAuditLogBytes → readable actor action target detail → (∀ n, fault e n = false) →
  ∃ fs' s' f' evs', appendEvent e None actor action target detail fs = (None, fs') ∧
    st fs' = SavedState s' ∧ log fs' = Some f' ∧ names k s' f' evs' 0.
Proof.
  intros Hk Hst Hse Hlog Ht Hn Hl Hsz Hr Hf.
  destruct (append_reaches e None actor action target detail k fs s0 f evs lag) as (s & Hx & ->); try done.
  destruct (write_event e None k s (new_event e k s actor action target detail) fs) as [r fs'] eqn:Hw.
  edestruct write_event_written as [Hwr _]; [|exact Hx|done|exact Hr|exact Hw|]; [by rewrite Hlog|].
  assert (r = None) as ->. { revert Hw. unfold write_event, writeState. rewrite !Hf. by intros [= <- _]. }
  inversion Hwr as [| | |r s' f' -> _ _ _ _ Hn']; subst. by eexists _, _, _, _.
Qed.

(** ** Failures the log does not recover from *)

(** A failure to save the state alone leaves it one event further behind. *)
Lemma append_unsaved e actor action target detail k fs s0 f evs lag :
  auditSigningKey fs = Ok k → st fs = SavedState s0 → sealed k s0 → log fs = Some f → torn f = "" → names k s0 f evs lag →
  (lag ≤ 1)%nat → size f < maxAuditLogBytes → readable actor action target detail →
  (∀ n, (n < 12)%nat → fault e n = false) → fault e 12 = true →
  ∃ f' evs', snd (appendEvent e None actor action target detail fs) = mkFS (Some f') (SavedState s0) (legacy fs) (key fs) ∧
    torn f' = "" ∧ names k s0 f' evs' (S lag) ∧ size f' ≤ size f + maxLine.
Proof.
  intros Hk Hst Hse Hlog Ht Hn Hl Hsz Hr Hf H12.
  destruct (append_reaches e None actor action target detail k fs s0 f evs lag) as (s & Hx & ->); try done.
  { intros n Hlt. apply Hf. lia. }
  destruct (extend_scan e k s f evs actor action target detail (clock e 3) Hx Hsz Hr) as (Hs & Hli & Ht' & Hsz' & _).
  unfold write_event, writeState. rewrite !Hf, H12, Hlog, Hst by lia. cbn [default].
  eexists _, _. split_and!; [done|done| |apply Hsz']. by eapply names_behind.
Qed.

(** The chain does not survive two failures in a row to save its state: when two
    consecutive appends write their events but not the state, every later append is
    refused, whatever it is asked to record, and changes nothing. *)
Theorem two_state_failures_wedge e1 e2 a1 b1 c1 d1 a2 b2 c2 d2 k fs s0 f evs :
  auditSigningKey fs = Ok k → st fs = SavedState s0 → sealed k s0 → log fs = Some f → torn f = "" → names k s0 f evs 0 →
  size f + maxLine < maxAuditLogBytes → readable a1 b1 c1 d1 → readable a2 b2 c2 d2 →
  (∀ n, (n < 12)%nat → fault e1 n = false ∧ fault e2 n = false) → fault e1 12 = true → fault e2 12 = true →
  let fs2 := snd (appendEvent e2 None a2 b2 c2 d2 (snd (appendEvent e1 None a1 b1 c1 d1 fs))) in
  ∀ e tear a b c d, ∃ err, appendEvent e tear a b c d fs2 = (Some err, fs2).
Proof.
  intros Hk Hst Hse Hlog Ht Hn Hsz Hr1 Hr2 Hf H1 H2 fs2 e tear a b c d. unfold maxLine in Hsz.
  destruct (append_unsaved e1 a1 b1 c1 d1 k fs s0 f evs 0) as (f1 & evs1 & E1 & Ht1 & Hn1 & Hz1); try done; [lia..|by intros n Hlt; apply Hf|].
  unfold maxLine in Hz1. unfold fs2. rewrite E1.
  destruct (append_unsaved e2 a2 b2 c2 d2 k (mkFS (Some f1) (SavedState s0) (legacy fs) (key fs)) s0 f1 evs1 1)
    as (f2 & evs2 & E2 & Ht2 & Hn2 & _); try done; [lia..|by intros n Hlt; apply Hf|]. rewrite E2.
  cbn [legacy key].
  destruct (appendEvent e tear a b c d _) as [r fs'] eqn:Ea.
  destruct (append_saved e tear a b c d k (mkFS (Some f2) (SavedState s0) (legacy fs) (key fs)) s0 f2 evs2 2 r fs')
    as [[Hr ->] | (Hle & _)]; try done; [by left| |lia].
  destruct r as [err|]; [by exists err|done].
Qed.

(** The log a successful append leaves. *)
Lemma append_log e actor action target detail k fs fs' s0 f :
  auditSigningKey fs = Ok k → st fs = SavedState s0 → log fs = Some f →
  appendEvent e None actor action target detail fs = (None, fs') →
  ∃ s, key fs' = key fs ∧
    log fs' = Some (write_line f (ev_marshal (new_event e k s actor action target detail)) None (clock e 3)).
Proof.
  intros Hk Hst Hlog Ha. unfold appendEvent in Ha. rewrite Hlog, Hk in Ha. repeat (case_if; [done|]).
  destruct (loadState e fs) as [s1|] eqn:El; [|done].
  assert (Hv : Version s1 = 1).
  { destruct (loadState_saved _ _ _ _ Hst El) as [-> | ->]; cbn; unfold loadState in El; rewrite Hst in El;
      go_cases; lia. }
  unfold start_chain in Ha. rewrite Hv in Ha. cbn [Z.eqb negb] in Ha.
  destruct (current_state e k s1 fs) as [s|] eqn:Ec; [|done]. exists s.
  unfold write_event, writeState in Ha. rewrite Hlog in Ha. cbn [default] in Ha.
  repeat (case_if; try done); by injection Ha as <-.
Qed.

Lemma Verify_scan e fs f k : log fs = Some f → auditSigningKey fs = Ok k → Verify e fs = None → ∃ evs, scan k None (scan_lines f) = Ok evs.
Proof. intros Hlog Hk Hv. unfold Verify in Hv. rewrite Hlog, Hk in Hv. case_if; [done|]. destruct (scan _ _ _); eauto; done. Qed.

(** A write that stopped exactly before the newline leaves a log that looks whole; the
    next successful append joins its line to it, and verification fails. *)
Theorem missing_newline_corrupts e e' actor action target detail k fs fs' s0 f ev :
  auditSigningKey fs = Ok k → st fs = SavedState s0 → log fs = Some f → torn f = ev_marshal ev → u64b (Sequence ev) = true →
  appendEvent e None actor action target detail fs = (None, fs') → Verify e' fs' ≠ None.
Proof.
  intros Hk Hst Hlog Ht Hu Ha Hv. destruct (append_log _ _ _ _ _ _ _ _ _ _ Hk Hst Hlog Ha) as (s & Hkey & Hlog').
  destruct (Verify_scan e' _ _ k Hlog') as [evs Hs]; [by unfold auditSigningKey in *; rewrite Hkey|done|].
  rewrite scan_lines_whole in Hs by done. cbn [write_line lines] in Hs. rewrite scan_app in Hs.
  destruct (scan k None (lines f)); [|done]. cbn [scan] in Hs. case_if; [done|]. rewrite Ht, ev_joined in Hs; [done|done|].
  apply u64b_spec. cbn. unfold succ64. apply Z.mod_pos_bound. lia.
Qed.

(** ** Tamper evidence *)

(** Two events whose signed encodings differ and have the same code. *)
Definition clash k (x y : Event) : Prop :=
  ev_marshal (set_hash x "") ≠ ev_marshal (set_hash y "") ∧ mac k (ev_marshal (set_hash x "")) = mac k (ev_marshal (set_hash y "")).
(** Such a pair at the same place of two logs. *)
Definition clash_in k (evs1 evs2 : list Event) : Prop := ∃ i x y, evs1 !! i = Some x ∧ evs2 !! i = Some y ∧ clash k x y.
Lemma clash_in_app k a b x y : clash_in k a b → clash_in k (a ++ x) (b ++ y).
Proof. intros (i & u & v & Hu & Hv & H). exists i, u, v. split_and!; [by apply lookup_app_l_Some..|done]. Qed.
Lemma clash_in_last k a b x y : length a = length b → clash k x y → clash_in k (a ++ [x]) (b ++ [y]).
Proof. intros Hl H. exists (length a), x, y. split_and!; [by rewrite lookup_app_r, Nat.sub_diag|by rewrite Hl, lookup_app_r, Nat.sub_diag|done]. Qed.

Lemma clean_set_hash ev : clean_event ev = ev → clean_event (set_hash ev "") = set_hash ev "".
Proof.
  intros E. destruct ev. unfold clean_event, set_hash in *. cbn in *. injection E as E1 E2 E3 E4 E5 E6 E7.
  rewrite E1, E2, E3, E4, E5, E6. done.
Qed.

Lemma same_hash k x y : signed k x → signed k y → Hash x = Hash y → clash k x y ∨ x = y.
Proof.
  intros (_ & Hx & Hcx & Hux) (_ & Hy & Hcy & Huy) E. unfold hashEvent in *.
  destruct (decide (ev_marshal (set_hash x "") = ev_marshal (set_hash y ""))) as [Em|Em].
  - right. apply (f_equal ev_unmarshal) in Em. rewrite !ev_roundtrip in Em by (apply u64b_spec; cbn; lia).
    rewrite !clean_set_hash in Em by done. destruct x, y. unfold set_hash in Em. cbn in *. congruence.
  - left. split; [exact Em|]. congruence.
Qed.

Lemma chain_ok_prefix k p a b : chain_ok k p (a ++ b) → chain_ok k p a.
Proof. revert p. induction a as [|x a IH]; intros p H; [done|]. destruct H as (H1 & H2 & H3). split_and!; eauto. Qed.

Lemma chains_equal k a b x y :
  chain_ok k None (a ++ [x]) → chain_ok k None (b ++ [y]) → length a = length b → Hash x = Hash y →
  clash_in k (a ++ [x]) (b ++ [y]) ∨ a ++ [x] = b ++ [y].
Proof.
  revert b x y. induction a as [|x' a IH] using rev_ind; intros b x y Ha Hb Hl E;
    (assert (Hx : (b ++ [y]) !! length b = Some y) by by rewrite lookup_app_r, Nat.sub_diag).
  - destruct b; [|done]. destruct Ha as [Ha _], Hb as [Hb _]. destruct (same_hash k x y) as [|]; [done..|by left; apply (clash_in_last k [] [])|by right; subst].
  - destruct b as [|y' b _] using rev_ind; [by rewrite length_app in Hl; cbn in Hl; lia|].
    assert (Hy : ((a ++ [x']) ++ [x]) !! length (a ++ [x']) = Some x) by by rewrite lookup_app_r, Nat.sub_diag.
    destruct (chain_ok_nth _ _ _ _ _ Ha Hy) as [Sx _], (chain_ok_nth _ _ _ _ _ Hb Hx) as [Sy _].
    destruct (same_hash k x y) as [|Exy]; [done..|by left; apply clash_in_last|]. subst y.
    rewrite !length_app in Hl. cbn in Hl.
    assert (Hp : ∀ c z w, chain_ok k None ((c ++ [z]) ++ [w]) → PreviousHash w = Hash z).
    { intros c z w Hc. eapply (chain_follow _ _ _ (length c)); [exact Hc| |].
      - rewrite <- app_assoc, lookup_app_r, Nat.sub_diag by done. done.
      - rewrite lookup_app_r by (rewrite length_app; cbn; lia). rewrite length_app. cbn.
        by replace (S (length c) - (length c + 1))%nat with 0%nat by lia. }
    destruct (IH b x' y') as [|Eab]; [by eapply chain_ok_prefix..|lia| |by left; apply clash_in_app|right; by rewrite Eab].
    rewrite <- (Hp _ _ _ Ha). by apply Hp in Hb.
Qed.

(** What an accepting verification has compared. *)
Definition saved (s : StateFile) : Z * string * Z :=
  match s with SavedState s => (s_Sequence s, s_Hash s, FirstSequence s) | _ => (0, "", 0) end.
Lemma Verify_accepts e fs :
  Verify e fs = None → ∃ k f a x, auditSigningKey fs = Ok k ∧ log fs = Some f ∧ scan k None (scan_lines f) = Ok (a ++ [x]) ∧
    chain_ok k None (a ++ [x]) ∧ saved (st fs) = (Sequence x, Hash x, Sequence x - Z.of_nat (length a)).
Proof.
  intros Hv. unfold Verify in Hv. destruct (log fs) as [f|] eqn:Hlog; [|done]. case_if; [done|].
  destruct (auditSigningKey fs) as [k|] eqn:Hk; [|done].
  destruct (scan k None (scan_lines f)) as [evs|] eqn:Hs; [|done]. destruct (scan_chain_nil _ _ _ Hs) as [Hc _].
  destruct evs as [|first evs _] using rev_ind; [done|].
  assert (Hlast : (evs ++ [first]) !! length evs = Some first) by by rewrite lookup_app_r, Nat.sub_diag.
  destruct (chain_ok_nth _ _ _ _ _ Hc Hlast) as [Hsg (z & Hz & Hseq)].
  destruct (evs ++ [first]) as [|z' l] eqn:El; [done|]. injection Hz as ->. rewrite <- El in *.
  rewrite last_snoc in Hv. destruct (loadState e fs) as [s1|] eqn:Hl; [|done]. case_if; [done|]. case_if; [done|].
  exists k, f, evs, first. split_and!; try done.
  assert (Hsv : saved (st fs) = (s_Sequence s1, s_Hash s1, FirstSequence s1)).
  { destruct (st fs) as [| |s] eqn:Hst.
    - unfold loadState in Hl. rewrite Hst in Hl. by injection Hl as <-.
    - unfold loadState in Hl. rewrite Hst, Hk in Hl. by case_if.
    - by destruct (loadState_saved _ _ _ _ Hst Hl) as [-> | ->]. }
  rewrite Hsv. apply orb_false_iff in Heqb0 as [E1 E2], Heqb1 as [E3 E4]. apply negb_false_iff in E1, E2, E3, E4.
  apply Z.eqb_eq in E1, E3. apply bool_decide_eq_true in E2. rewrite E1, E2. repeat f_equal. lia.
Qed.

(** C33: Tampering shows: if verification accepts two logs against the same saved state
    and key, then they hold equally many events, and the same ones in the same order; or two
    different events at the same place of the two logs have the same code, which is a collision
    of HMAC-SHA256 in these very logs. Without such a collision no event can be changed,
    dropped, inserted or reordered without the key. *)
Theorem tampering_shows e1 e2 fs1 fs2 :
  st fs1 = st fs2 → key fs1 = key fs2 → Verify e1 fs1 = None → Verify e2 fs2 = None →
  ∃ k f1 f2 evs1 evs2, auditSigningKey fs1 = Ok k ∧ log fs1 = Some f1 ∧ log fs2 = Some f2 ∧
    scan k None (scan_lines f1) = Ok evs1 ∧ scan k None (scan_lines f2) = Ok evs2 ∧ length evs1 = length evs2 ∧
    (evs1 = evs2 ∨ clash_in k evs1 evs2).
Proof.
  intros Hst Hkey H1 H2. destruct (Verify_accepts _ _ H1) as (k & f1 & a & x & Hk & Hl1 & Hs1 & Hc1 & He1).
  destruct (Verify_accepts _ _ H2) as (k' & f2 & b & y & Hk' & Hl2 & Hs2 & Hc2 & He2).
  assert (k' = k) as ->. { unfold auditSigningKey in Hk, Hk'. rewrite Hkey in Hk. congruence. }
  exists k, f1, f2, (a ++ [x]), (b ++ [y]). rewrite Hst, He2 in He1. injection He1 as E1 E2 E3.
  split_and!; try done; [rewrite !length_app; cbn; lia|]. destruct (chains_equal k a b x y) as [|E]; [done..|lia|done|by right|by left].
Qed.

(** An event that does not survive its own encoding, an invalid byte in its detail or
    an actor of spaces only, is appended with success, and verification fails, unless the event
    that was signed and the one that is read back have the same code. *)
Theorem unreadable_event_breaks_chain e e' actor action target detail k fs fs' s0 f :
  auditSigningKey fs = Ok k → st fs = SavedState s0 → log fs = Some f → torn f = "" →
  to_valid (truncateValue detail 4096) ≠ truncateValue detail 4096 ∨ TrimSpace (to_valid (truncateValue actor 128)) = "" →
  appendEvent e None actor action target detail fs = (None, fs') →
  Verify e' fs' ≠ None ∨ ∃ ev f', log fs' = Some f' ∧ lines f' = lines f ++ [ev_marshal ev] ∧ clash k ev (clean_event ev).
Proof.
  intros Hk Hst Hlog Ht Hbad Ha. destruct (append_log _ _ _ _ _ _ _ _ _ _ Hk Hst Hlog Ha) as (s & Hkey & Hlog').
  destruct (Verify e' fs') eqn:Hv; [by left|].
  destruct (Verify_scan e' _ _ k Hlog') as [evs Hs]; [by unfold auditSigningKey in *; rewrite Hkey|done|].
  set (ev := new_event _ _ _ _ _ _ _) in *.
  assert (Hu : u64b (Sequence ev) = true) by (apply u64b_spec; cbn; unfold succ64; apply Z.mod_pos_bound; lia).
  rewrite scan_lines_whole in Hs by done. cbn [write_line lines] in Hs. rewrite scan_app, Ht in Hs.
  destruct (scan k None (lines f)) as [e1|]; [|done].
  change ("" +:+ ev_marshal ev) with (ev_marshal ev) in Hs. cbn [scan] in Hs. case_if; [done|].
  rewrite ev_roundtrip in Hs by done. destruct (validateEvent (clean_event ev)) eqn:Hva; [done|].
  destruct Hbad as [Hbad|Hbad].
  - right. case_if; [done|]. apply negb_false_iff, bool_decide_eq_true in Heqb0.
    cbn in Heqb0. unfold hashEvent in Heqb0 at 2. rewrite mac_valid in Heqb0. unfold hashEvent in Heqb0.
    exists ev, (write_line f (ev_marshal ev) None (clock e 3)). split; [done|]. split; [cbn; by rewrite Ht|]. split; [|symmetry; exact Heqb0].
    change (set_hash (clean_event ev) "") with (clean_event (set_hash ev "")).
    apply ev_escapes; [done|]. intros E. apply (f_equal Detail) in E. done.
  - unfold validateEvent in Hva. change (Actor (clean_event ev)) with (to_valid (truncateValue actor 128)) in Hva.
    rewrite (bool_decide_true (TrimSpace (to_valid _) = "")) in Hva by done.
    rewrite orb_true_r in Hva. done.
Qed.

End Chain.

(** ** A concrete instance *)

Module Toy.

(** A text is written rune by rune: a mark and a byte for each byte of a valid rune,
    another mark for an invalid byte, and a third at the end. *)
Definition enc_rune (r : list ascii * bool) : list ascii :=
  if r.2 then concat ((λ c, [chr 1; c]) <$> r.1) else [chr 2].
Definition enc_str (s : string) : list ascii := concat (enc_rune <$> runes_of s) ++ [chr 0].
Fixpoint dec_str (l : list ascii) : option (list ascii * nat * list ascii) :=
  match l with
  | [] => None
  | m :: l =>
      if decide (m = chr 0) then Some ([], 0%nat, l) else
      if decide (m = chr 2) then match dec_str l with Some (x, n, r) => Some (replacement ++ x, S n, r) | None => None end else
      match l with
      | c :: l => match dec_str l with Some (x, n, r) => Some (c :: x, n, r) | None => None end
      | [] => None
      end
  end.
Fixpoint dec_fields (n : nat) (l : list ascii) : option (list (list ascii * nat) * list ascii) :=
  match n with
  | O => Some ([], l)
  | S n => match dec_str l with
           | Some (x, b, r) => match dec_fields n r with Some (xs, r') => Some ((x, b) :: xs, r') | None => None end
           | None => None
           end
  end.
Definition fields (ev : Event) : list string :=
  [Time ev; Itoa (Sequence ev); Actor ev; Action ev; Target ev; Detail ev; PreviousHash ev; Hash ev].
Definition toy_marshal (ev : Event) : string := of_bytes (concat (enc_str <$> fields ev)).
Definition toy_unmarshal (s : string) : option Event :=
  match dec_fields 8 (bytes_of s) with
  | Some ([(t, _); (q, _); (a, _); (b, _); (c, _); (d, _); (p, _); (h, _)], []) =>
      if u64b (parse_digits q) then
        Some (clean_event (mkEvent (of_bytes t) (parse_digits q) (of_bytes a) (of_bytes b) (of_bytes c) (of_bytes d) (of_bytes p) (of_bytes h)))
      else None
  | _ => None
  end.

(** A checksum of 64 decimal digits. *)
Definition toy_mac (k m : string) : string :=
  let d := digits 20 (foldl (λ a c, (a * 257 + code c + 1) `mod` 1000000000000000003) 7 (bytes_of (k +:+ m))) in
  of_bytes (replicate (64 - length d) "0"%char ++ d).
Definition toy_state (s : state) : string :=
  join "," [Itoa (Version s); Itoa (s_Sequence s); s_Hash s; Itoa (FirstSequence s); FirstPreviousHash s; KeyCheck s;
            Itoa (LastValidatedSize s); Itoa (LastValidatedModTimeNS s); Itoa (LastFullVerifyTimeNS s)].
#[export] Instance toy_audit : Audit := {|
  mac := toy_mac; ev_marshal := toy_marshal; ev_unmarshal := toy_unmarshal; st_json := toy_state; cache_json := toy_state;
  fmt_time t := Itoa (t `mod` 10000000000000000000); time_ok s := all_bytes is_digit s |}.

Lemma ascii_valid s : all_bytes is_digit s = true → to_valid s = s.
Proof.
  intros H. unfold to_valid, encode.
  assert (E : runes_of s = (λ r, (r, true)) <$> ((λ c, [c]) <$> bytes_of s)).
  { unfold runes_of. rewrite <- length_bytes_of. unfold all_bytes in H.
    induction (bytes_of s) as [|c l IH]; [done|]. cbn in H. apply andb_true_iff in H as [Hc Hl].
    cbn [length runes]. assert (Ht : take_rune 4 GoPath.UStart (c :: l) = Some [c]).
    { cbn. unfold is_digit, in_range in Hc. change (code "0") with 48 in Hc. change (code "9") with 57 in Hc.
      assert (GoPath.between 0 127 c = true) as -> by (unfold GoPath.between; lia). done. }
    rewrite Ht. cbn. f_equal. by apply IH. }
  rewrite E. rewrite <- (of_bytes_of s) at 2. f_equal. clear E H. induction (bytes_of s) as [|c l IH]; [done|]. cbn. by f_equal.
Qed.

Lemma toy_mac_digits k m : all_bytes is_digit (toy_mac k m) = true ∧ len (toy_mac k m) = 64.
Proof.
  unfold toy_mac. set (h := foldl _ _ _). assert (Hh : 0 ≤ h < 10 ^ Z.of_nat 20).
  { unfold h. generalize (bytes_of (k +:+ m)). intros l. change (10 ^ Z.of_nat 20) with 100000000000000000000.
    induction l as [|c l _] using rev_ind; [cbn; lia|]. rewrite foldl_app. cbn [foldl].
    pose proof (Z.mod_pos_bound (foldl (λ a c, (a * 257 + code c + 1) `mod` 1000000000000000003) 7 l * 257 + code c + 1) 1000000000000000003 ltac:(lia)). lia. }
  destruct (digits_spec 20 h Hh) as (_ & Hd & _ & Hl). unfold all_bytes, len. rewrite bytes_of_of, <- length_bytes_of, bytes_of_of.
  rewrite forallb_app, Hd, length_app, length_replicate. split; [|lia].
  rewrite andb_true_r. induction (64 - length (digits 20 h))%nat; [done|]. cbn. by rewrite IHn.
Qed.

Definition bad (s : string) : nat := length (filter (λ r : list ascii * bool, r.2 = false) (runes_of s)).

Lemma dec_enc_runes rs t x n r :
  Forall rune_ok rs → dec_str t = Some (x, n, r) →
  dec_str (concat (enc_rune <$> rs) ++ t) =
    Some (concat ((λ r : list ascii * bool, if r.2 then r.1 else replacement) <$> rs) ++ x,
          (length (filter (λ r : list ascii * bool, r.2 = false) rs) + n)%nat, r).
Proof.
  intros Hrs Ht. induction rs as [|[u b] rs IH]; [done|]. apply Forall_cons in Hrs as [_ Hrs]. specialize (IH Hrs).
  rewrite filter_cons. cbn [fmap list_fmap concat]. rewrite <- !app_assoc. destruct b.
  - rewrite decide_False by done. unfold enc_rune at 1. cbn [fst snd].
    induction u as [|c u IHu]; [done|]. cbn [fmap list_fmap concat]. cbn [app dec_str].
    rewrite (decide_False (P := chr 1 = chr 0)), (decide_False (P := chr 1 = chr 2)) by done.
    by rewrite IHu.
  - rewrite decide_True by done. unfold enc_rune at 1. cbn [fst snd app dec_str].
    rewrite (decide_False (P := chr 2 = chr 0)), (decide_True (P := chr 2 = chr 2)), IH by done. cbn. done.
Qed.

Lemma dec_enc s t : dec_str (enc_str s ++ t) = Some (bytes_of (to_valid s), bad s, t).
Proof.
  unfold enc_str. rewrite <- app_assoc. erewrite dec_enc_runes; [|apply runes_of_spec|done].
  unfold to_valid, encode, bad. by rewrite bytes_of_of, app_nil_r, Nat.add_0_r.
Qed.

Lemma dec_str_app l x n r t : dec_str l = Some (x, n, r) → dec_str (l ++ t) = Some (x, n, r ++ t).
Proof.
  assert (H : ∀ m l, (length l ≤ m)%nat → ∀ x n r, dec_str l = Some (x, n, r) → dec_str (l ++ t) = Some (x, n, r ++ t)).
  2: { by apply (H (length l)). }
  clear. induction m as [|m IH]; intros l Hl x n r Hd; [by destruct l; cbn in Hl; [|lia]|].
  destruct l as [|a l]; [done|]. cbn [dec_str app] in *. cbn in Hl. case_decide; [by simplify_eq|]. case_decide.
  - destruct (dec_str l) as [[[x' n'] r']|] eqn:E; [|done]. injection Hd as <- <- <-. by rewrite (IH l ltac:(lia) _ _ _ E).
  - destruct l as [|c l]; [done|]. cbn in Hl. cbn [app]. destruct (dec_str l) as [[[x' n'] r']|] eqn:E; [|done].
    injection Hd as <- <- <-. by rewrite (IH l ltac:(lia) _ _ _ E).
Qed.

Lemma dec_fields_app n l xs r t : dec_fields n l = Some (xs, r) → dec_fields n (l ++ t) = Some (xs, r ++ t).
Proof.
  revert l xs r. induction n as [|n IH]; intros l xs r Hd; cbn [dec_fields] in *; [by injection Hd as <- <-|].
  destruct (dec_str l) as [[[x b] r1]|] eqn:E; [|done]. rewrite (dec_str_app _ _ _ _ _ E).
  destruct (dec_fields n r1) as [[xs' r']|] eqn:E'; [|done]. injection Hd as <- <-. by rewrite (IH _ _ _ E').
Qed.

Lemma dec_fields_enc ss t :
  dec_fields (length ss) (concat (enc_str <$> ss) ++ t) = Some ((λ s, (bytes_of (to_valid s), bad s)) <$> ss, t).
Proof. induction ss as [|s ss IH]; [done|]. cbn [length fmap list_fmap concat dec_fields]. by rewrite <- app_assoc, dec_enc, IH. Qed.

Lemma bad_valid s : bad (to_valid s) = 0%nat.
Proof.
  unfold bad, to_valid. rewrite runes_encode by apply runes_of_spec.
  generalize ((λ r : list ascii * bool, if r.2 then r.1 else replacement) <$> runes_of s).
  intros l. induction l as [|x l IH]; [done|]. cbn [fmap list_fmap]. rewrite filter_cons, decide_False by done. exact IH.
Qed.

Lemma bad_zero s : bad s = 0%nat → to_valid s = s.
Proof.
  unfold bad, to_valid, encode. destruct (runes_of_spec s) as [_ Hc]. rewrite <- (of_bytes_of s) at 3. rewrite <- Hc. clear Hc.
  intros Hb. do 2 f_equal. induction (runes_of s) as [|[u b] l IH]; [done|]. rewrite filter_cons in Hb.
  destruct b; [|by rewrite decide_True in Hb]. rewrite decide_False in Hb by done. cbn. f_equal. by apply IH.
Qed.

Lemma length_concat_marks (u : list ascii) : length (concat ((λ c, [chr 1; c]) <$> u)) = (2 * length u)%nat.
Proof. induction u; cbn in *; lia. Qed.

Lemma enc_len s : Z.of_nat (length (enc_str s)) ≤ 2 * len s + 1.
Proof.
  unfold enc_str, len. rewrite length_app. destruct (runes_of_spec s) as [Hok Hc]. rewrite <- length_bytes_of, <- Hc. clear Hc. cbn [length].
  enough (length (concat (enc_rune <$> runes_of s)) ≤ 2 * length (concat (runes_of s).*1))%nat by lia.
  induction Hok as [|[u b] rs Hr _ IH]; [done|]. cbn [fmap list_fmap concat]. rewrite !length_app. cbn [fst].
  assert (length (enc_rune (u, b)) ≤ 2 * length u)%nat; [|lia].
  unfold enc_rune, rune_ok in *. cbn [fst snd] in *. destruct b; [by rewrite length_concat_marks | cbn; lia].
Qed.

Lemma Itoa_len n : 0 ≤ n < 2 ^ 64 → len (Itoa n) ≤ 20.
Proof.
  intros Hn. unfold Itoa. rewrite (proj2 (Z.ltb_ge _ _)) by lia. unfold len. rewrite <- length_bytes_of, bytes_of_of.
  destruct (digits_spec 20 n) as (_ & _ & _ & Hl); [change (10 ^ Z.of_nat 20) with 100000000000000000000; lia|]. lia.
Qed.

Lemma toy_fields ev : dec_fields 8 (bytes_of (toy_marshal ev)) = Some ((λ s, (bytes_of (to_valid s), bad s)) <$> fields ev, []).
Proof. unfold toy_marshal. rewrite bytes_of_of, <- (app_nil_r (concat _)). exact (dec_fields_enc (fields ev) []). Qed.

Lemma toy_roundtrip ev : u64b (Sequence ev) = true → toy_unmarshal (toy_marshal ev) = Some (clean_event ev).
Proof.
  intros Hu. pose proof (proj1 (u64b_spec _) Hu) as Hr. unfold toy_unmarshal. rewrite toy_fields. cbn [fields fmap list_fmap].
  destruct (Itoa_digits (Sequence ev)) as (Hd & _ & Hp); [lia|]. rewrite (ascii_valid (Itoa _)), Hp, Hu by done.
  rewrite !of_bytes_of. f_equal. exact (clean_event_idem ev).
Qed.

Lemma toy_decoded l ev : toy_unmarshal l = Some ev → clean_event ev = ev ∧ u64b (Sequence ev) = true.
Proof.
  unfold toy_unmarshal. intros E. go_cases. split; [apply clean_event_idem|done].
Qed.

Lemma toy_prefix ev n : (n < String.length (toy_marshal ev))%nat → toy_unmarshal (of_bytes (take n (bytes_of (toy_marshal ev)))) = None.
Proof.
  intros Hn. unfold toy_unmarshal. rewrite bytes_of_of.
  destruct (dec_fields 8 (take n (bytes_of (toy_marshal ev)))) as [[xs r]|] eqn:E; [|done].
  destruct r as [|c r]; [|by repeat (case_match; try done)]. exfalso.
  apply (dec_fields_app _ _ _ _ (drop n (bytes_of (toy_marshal ev)))) in E. rewrite take_drop, toy_fields in E.
  apply (f_equal (option_map snd)) in E. injection E as E. apply (f_equal length) in E. rewrite length_drop, length_bytes_of in E. cbn [length] in E. lia.
Qed.

Lemma toy_trailing ev t : t ≠ "" → toy_unmarshal (toy_marshal ev +:+ t) = None.
Proof.
  intros Ht. unfold toy_unmarshal. rewrite bytes_of_app, (dec_fields_app _ _ _ _ _ (toy_fields ev)). cbn [app].
  destruct (bytes_of t) eqn:E; [by destruct t|]. done.
Qed.

Lemma toy_escapes ev : clean_event ev ≠ ev → toy_marshal ev ≠ toy_marshal (clean_event ev).
Proof.
  intros Hc E. apply Hc. apply (f_equal (λ s, dec_fields 8 (bytes_of s))) in E. rewrite !toy_fields in E.
  unfold clean_event at 1, fields in E. cbn [Time Sequence Actor Action Target Detail PreviousHash Hash fmap list_fmap] in E.
  rewrite !bad_valid in E. injection E as _ E1 _ E2 _ E3 _ E4 _ E5 _ E6 _ E7.
  unfold clean_event. rewrite !bad_zero by done. by destruct ev.
Qed.

Lemma toy_len ev : u64b (Sequence ev) = true → 0 < len (toy_marshal ev) ≤ 6 * text_len ev + 256.
Proof.
  intros Hu%u64b_spec. unfold toy_marshal, len, text_len. rewrite <- length_bytes_of, bytes_of_of. cbn [fields fmap list_fmap concat].
  rewrite !length_app. cbn [length]. pose proof (Itoa_len _ Hu).
  pose proof (enc_len (Time ev)). pose proof (enc_len (Itoa (Sequence ev))). pose proof (enc_len (Actor ev)).
  pose proof (enc_len (Action ev)). pose proof (enc_len (Target ev)). pose proof (enc_len (Detail ev)).
  pose proof (enc_len (PreviousHash ev)). pose proof (enc_len (Hash ev)).
  assert (1 ≤ length (enc_str (Time ev)))%nat by (unfold enc_str; rewrite length_app; cbn; lia).
  unfold len in *. lia.
Qed.

Lemma toy_time t : all_bytes is_digit (Itoa (t `mod` 10000000000000000000)) = true ∧ len (Itoa (t `mod` 10000000000000000000)) ≤ 64.
Proof.
  pose proof (Z.mod_pos_bound t 10000000000000000000 ltac:(lia)). split; [apply Itoa_digits; lia|].
  pose proof (Itoa_len (t `mod` 10000000000000000000) ltac:(lia)). lia.
Qed.

#[export] Instance toy_laws : AuditLaws.
Proof.
  constructor; cbn [mac ev_marshal ev_unmarshal fmt_time time_ok toy_audit].
  - intros. apply toy_mac_digits.
  - intros. apply ascii_valid, toy_mac_digits.
  - apply toy_roundtrip.
  - apply toy_decoded.
  - intros. by apply toy_prefix.
  - intros ev ev' _ Hu. apply toy_trailing. intros E. destruct (toy_len ev' Hu) as [Hz _]. by rewrite E in Hz.
  - intros. by apply toy_escapes.
  - apply toy_len.
  - intros. split_and!; [|apply ascii_valid|]; apply toy_time.
Qed.

(** *** Witnesses *)

Definition quiet (t : Z) : Env := calm t "".
Definition unsaved (t : Z) : Env := mkEnv (λ _, t) (λ n, Nat.eqb n 12) (λ _, None).
Definition fs0 : FS := mkFS None NoState [] (Some "0123456789abcdef0123456789abcdef").
Definition k0 : string := "stepanel-audit-v1" +:+ String (chr 0) "0123456789abcdef0123456789abcdef".
Definition fs1 : FS := snd (appendEvent (quiet 5) None "root" "site.create" "a.example" "" fs0).
Definition fs2 : FS := snd (appendEvent (unsaved 6) None "root" "site.delete" "a.example" "" fs1).
Definition f1 : LogFile := default (mkLog [] "" 0) (log fs1).
Definition s1 : state := match st fs1 with SavedState s => s | _ => zero_state end.
Definition evs1 : list Event := match scan k0 None (lines f1) with Ok l => l | Err _ => [] end.
Definition f2 : LogFile := default (mkLog [] "" 0) (log fs2).
Definition evs2 : list Event := match scan k0 None (lines f2) with Ok l => l | Err _ => [] end.

Ltac crunch := vm_compute; (reflexivity || discriminate).

Lemma readable_1 : readable "root" "site.create" "a.example" "".
Proof. unfold readable. split_and!; crunch. Qed.
Lemma readable_2 : readable "root" "site.delete" "a.example" "".
Proof. unfold readable. split_and!; crunch. Qed.
Lemma fs1_sealed : sealed k0 s1.
Proof. unfold sealed. split_and!; crunch. Qed.
Lemma fs1_names : names k0 s1 f1 evs1 0.
Proof.
  constructor; [crunch | eexists; split_and!; crunch | crunch |]. eexists 0%nat, _. split_and!; try crunch.
Qed.
Lemma fs2_names : names k0 s1 f2 evs2 1.
Proof.
  constructor; [crunch | eexists; split_and!; crunch | crunch |]. eexists 0%nat, _. split_and!; try crunch.
Qed.
Lemma fs1_chained : chained k0 fs1.
Proof.
  split; [crunch|]. replace (st fs1) with (SavedState s1) by crunch. split; [exact fs1_sealed|].
  exists f1, evs1, 0%nat. split_and!; [crunch | left; crunch | exact fs1_names].
Qed.

Lemma whole_log fs : from_option torn "" (log fs) = "" → ∀ f, log fs = Some f → unreadable f.
Proof. intros H f E. left. by rewrite E in H. Qed.

Lemma audit_chain_invariant_witness : chained k0 fs2.
Proof.
  apply audit_chain_invariant.
  apply (ar_append k0 (unsaved 6) None "root" "site.delete" "a.example" "" fs1 (Some io_err)); [|exact readable_2|crunch|].
  - apply (ar_append k0 (quiet 5) None "root" "site.create" "a.example" "" fs0 None); [|exact readable_1|crunch|].
    + apply ar_start; crunch.
    + apply whole_log. crunch.
  - apply whole_log. crunch.
Defined.

Lemma append_recorded_witness :
  Verify (quiet 9) (snd (appendEvent (quiet 8) None "root" "site.delete" "a.example" "" fs1)) = None.
Proof.
  apply (append_recorded (quiet 8) (quiet 9) None "root" "site.delete" "a.example" "" k0 fs1 _ s1 f1);
    [exact fs1_chained | crunch | crunch | exact readable_2 | crunch | reflexivity | reflexivity].
Defined.

Lemma append_recovers_witness :
  ∃ fs' s' f' evs', appendEvent (quiet 9) None "root" "site.create" "a.example" "" fs2 = (None, fs') ∧
    st fs' = SavedState s' ∧ log fs' = Some f' ∧ names k0 s' f' evs' 0.
Proof.
  apply (append_recovers (quiet 9) "root" "site.create" "a.example" "" k0 fs2 s1 f2 evs2 1);
    [crunch | crunch | exact fs1_sealed | crunch | crunch | exact fs2_names | lia | crunch | exact readable_1 | reflexivity].
Defined.

Lemma two_state_failures_wedge_witness :
  ∃ err, appendEvent (quiet 9) None "root" "site.create" "a.example" ""
    (snd (appendEvent (unsaved 7) None "root" "site.create" "a.example" "" (snd (appendEvent (unsaved 6) None "root" "site.delete" "a.example" "" fs1))))
  = (Some err, snd (appendEvent (unsaved 7) None "root" "site.create" "a.example" "" (snd (appendEvent (unsaved 6) None "root" "site.delete" "a.example" "" fs1)))).
Proof.
  apply (two_state_failures_wedge (unsaved 6) (unsaved 7) _ _ _ _ _ _ _ _ k0 fs1 s1 f1 evs1);
    [crunch | crunch | exact fs1_sealed | crunch | crunch | exact fs1_names | crunch | exact readable_2 | exact readable_1 | | reflexivity | reflexivity].
  intros n Hn. cbn. rewrite (proj2 (Nat.eqb_neq n 12)) by lia. done.
Defined.

Lemma tampering_shows_witness :
  ∃ k f f' evs evs', auditSigningKey fs1 = Ok k ∧ log fs1 = Some f ∧ log (mkFS (Some f1) (st fs1) [f2] (key fs1)) = Some f' ∧
    scan k None (scan_lines f) = Ok evs ∧ scan k None (scan_lines f') = Ok evs' ∧ length evs = length evs' ∧ (evs = evs' ∨ clash_in k evs evs').
Proof.
  apply (tampering_shows (quiet 1) (quiet 2) fs1 (mkFS (Some f1) (st fs1) [f2] (key fs1))); crunch.
Defined.

End Toy.

End AuditLogProps.
