(* ===== verification/AuditOutbox.v ===== *)
(** * AuditOutbox: from a decision to the signed log

    Models [src/audit_outbox.go]: the table of events waiting for publication and
    the table of security operations, with every operation on them, and the
    publication loop [flush]. What the outbox needs of the log it publishes to is
    the class [Sink]; the signed log of [AuditLog] is an instance ([log_sink]),
    whose laws are the theorems of [AuditLogProps]. Each SQL transaction is one
    step, each publication and each mark is one step, so that several processes
    publish at the same time and are killed anywhere. A statement that fails leaves
    the tables as they were; a commit that fails may also have happened. *)
From S2P Require Import Prelude AuditLog AuditLogProps.

Module AuditOutbox.

(** ** Events and the log they go to *)

Record Ev := mkEv { actor : string; action : string; target : string; detail : string }.
#[export] Instance Ev_eq_dec : EqDecision Ev.
Proof. solve_decision. Defined.

(** [publish] appends an event to a log; [recorded] are the events the log holds, in
    order, each as [shown]; [fits]: events the log can hold; [healthy]: the state the
    log maintains, unless a write stopped at a place where it is not [intact]. *)
Class Sink (L : Type) := {
  publish : Env → option nat → Ev → L → option error * L;
  recorded : L → list Ev;
  shown : Ev → Ev;
  fits : Ev → Prop;
  intact : L → Prop;
  healthy : L → Prop
}.
Class SinkLaws (L : Type) `{Sink L} := {
  publish_ok e tear ev l l' :
    healthy l → fits ev → publish e tear ev l = (None, l') → recorded l' = recorded l ++ [shown ev];
  publish_failed e tear ev l err l' :
    healthy l → fits ev → publish e tear ev l = (Some err, l') →
    recorded l' = recorded l ∨ recorded l' = recorded l ++ [shown ev];
  publish_healthy e tear ev l r l' :
    healthy l → fits ev → publish e tear ev l = (r, l') → intact l' → healthy l';
  publish_whole e tear ev l l' : healthy l → fits ev → publish e tear ev l = (None, l') → intact l'
}.

(** ** The tables *)

Record OutRow := mkOut { o_ev : Ev; created_at : Z; delivered_at : option Z; attempts : Z; last_error : option error }.
Inductive OpState := Pending | Completed | Reconciled.
#[export] Instance OpState_eq_dec : EqDecision OpState.
Proof. solve_decision. Defined.
Record OpRow := mkOp { op_actor : string; op_action : string; op_target : string; intent_detail : string; started_at : Z;
  op_state : OpState; outcome_action : option string; outcome_detail : option string; finished_at : option Z }.

(** [next_id] is the sequence of AUTOINCREMENT: an identifier is never used twice. *)
Record DB := mkDB { outbox : gmap Z OutRow; next_id : Z; operations : gmap string OpRow }.

Definition auditOutboxRetention : Z := 90 * 24 * Hour.
Definition auditOutboxPruneBatch : nat := 500.
Definition securityAuditOperationRetention : Z := 90 * 24 * Hour.
Definition securityAuditOrphanAge : Z := 120 * Minute + Hour.
Definition maxTrackedAuditOutcomeFailures : nat := 1024.

Definition insert_event (ev : Ev) (now : Z) (d : DB) : DB :=
  mkDB (<[next_id d := mkOut ev now None 0 None]> (outbox d)) (next_id d + 1) (operations d).
Definition put_operation (id : string) (op : OpRow) (d : DB) : DB :=
  mkDB (outbox d) (next_id d) (<[id := op]> (operations d)).

(** The end of a transaction: fault [n], it is rolled back; [n + 1], it is committed
    and its caller does not learn it. *)
Definition commit (e : Env) (n : nat) (what : string) (d d' : DB) : option error * DB :=
  if fault e n then (Some (EWrap what io_err), d) else
  if fault e (n + 1) then (Some (EWrap what io_err), d') else (None, d').

(** ** Writing to the tables *)

Definition persist (e : Env) (ev : Ev) (d : DB) : option error * DB :=
  if bool_decide (actor ev = "") || bool_decide (action ev = "") then (Some (EMsg "audit actor and action are required"), d) else
  commit e 0 "persist audit outbox event" d (insert_event ev (clock e 0) d).

Definition securityAuditOperationDetail (id detail : string) : string :=
  if bool_decide (detail = "") then "operation_id=" +:+ id else "operation_id=" +:+ id +:+ "; " +:+ detail.

(** The transaction of [beginSecurityAudit]. *)
Definition begin_operation (e : Env) (id a act tgt det : string) (d : DB) : option error * DB :=
  if bool_decide (a = "") || bool_decide (act = "") || bool_decide (id = "")
  then (Some (EMsg "audit operation identity, actor, and action are required"), d) else
  if fault e 0 then (Some (EWrap "begin security audit intent" io_err), d) else
  if fault e 1 || bool_decide (is_Some (operations d !! id)) then (Some (EWrap "persist security audit operation" io_err), d) else
  if fault e 2 then (Some (EWrap "persist security audit intent event" io_err), d) else
  let now := clock e 0 in
  commit e 3 "commit security audit intent" d
    (insert_event (mkEv a (act +:+ ".initiated") tgt (securityAuditOperationDetail id det)) now
      (put_operation id (mkOp a act tgt det now Pending None None None) d)).

(** The transaction of [completeSecurityAudit]; [Ok false]: it had been completed with
    this outcome before. *)
Definition complete_operation (e : Env) (id a baseAction act tgt det : string) (d : DB) : res bool * DB :=
  if bool_decide (id = "") then (Err (EMsg "security audit operation ID is missing"), d) else
  if fault e 0 then (Err (EWrap "begin security audit outcome" io_err), d) else
  if fault e 1 then (Err (EWrap "persist security audit outcome state" io_err), d) else
  match operations d !! id with
  | None => (Err (EWrap "find pending security audit operation" io_err), d)
  | Some op =>
      if bool_decide (op_state op = Pending) && bool_decide (op_actor op = a) && bool_decide (op_action op = baseAction) &&
         bool_decide (op_target op = tgt) then
        if fault e 2 then (Err (EWrap "persist security audit outcome event" io_err), d) else
        let now := clock e 0 in
        match commit e 3 "commit security audit outcome" d
          (insert_event (mkEv a act tgt (securityAuditOperationDetail id det)) now
            (put_operation id (mkOp (op_actor op) (op_action op) (op_target op) (intent_detail op) (started_at op) Completed
                                 (Some act) (Some det) (Some now)) d)) with
        | (None, d') => (Ok true, d')
        | (Some err, d') => (Err err, d')
        end
      else if fault e 2 || negb (bool_decide (op_actor op = a)) || negb (bool_decide (op_target op = tgt))
      then (Err (EWrap "find pending security audit operation" io_err), d) else
      if bool_decide (op_state op = Completed) && bool_decide (default "" (outcome_action op) = act) &&
         bool_decide (default "" (outcome_detail op) = det)
      then (Ok false, d) else (Err (EMsg "security audit operation is not pending or outcome conflicts"), d)
  end.

(** The transaction of [reconcileSecurityAuditOperation]; [failed] are the operations
    whose outcome this process knows to be unrecorded. *)
Definition reconcile_operation (e : Env) (failed : gset string) (id a det : string) (d : DB) : option error * DB * gset string :=
  if bool_decide (id = "") || bool_decide (a = "") || bool_decide (TrimSpace det = "")
  then (Some (EMsg "operation ID, operator, and reconciliation evidence are required"), d, failed) else
  let now := clock e 0 in
  let cutoff := if bool_decide (id ∈ failed) then now + 1 else now - securityAuditOrphanAge in
  if fault e 0 || fault e 1 then (Some (EWrap "record security audit reconciliation" io_err), d, failed) else
  match operations d !! id with
  | Some op =>
      if bool_decide (op_state op = Pending) && (started_at op <? cutoff) then
        if fault e 2 then (Some (EWrap "persist security audit reconciliation event" io_err), d, failed) else
        let '(r, d') := commit e 3 "commit security audit reconciliation" d
          (insert_event (mkEv a "security.audit.operation.reconciled" id (securityAuditOperationDetail id det)) now
            (put_operation id (mkOp (op_actor op) (op_action op) (op_target op) (intent_detail op) (started_at op) Reconciled
                                 (Some "security.audit.operation.reconciled") (Some det) (Some now)) d)) in
        (r, d', match r with None => failed ∖ {[id]} | Some _ => failed end)
      else (Some (EMsg "security audit operation is not pending, was already reconciled, or may still be running"), d, failed)
  | None => (Some (EMsg "security audit operation is not pending, was already reconciled, or may still be running"), d, failed)
  end.

(** [recordOutcomeFailure]. *)
Definition recordOutcomeFailure (id : string) (failed : gset string) : gset string :=
  if bool_decide (id = "") then failed else
  if Nat.ltb (size failed) maxTrackedAuditOutcomeFailures then {[id]} ∪ failed else failed.

(** ** Reading *)

Definition is_pending (op : OpRow) : bool := bool_decide (op_state op = Pending).

(** The loop of [unresolvedSecurityAuditOperations] over the operations known to have
    failed, in some order; fault [i]: the lookup of the [i]-th. *)
Fixpoint resolve (e : Env) (cutoff : Z) (d : DB) (i : nat) (ids : list string) (recent : Z) (failed : gset string) : res Z * gset string :=
  match ids with
  | [] => (Ok recent, failed)
  | id :: rest =>
      if fault e i then (Err io_err, failed) else
      match operations d !! id with
      | Some op =>
          if is_pending op then resolve e cutoff d (S i) rest (if cutoff <=? started_at op then recent + 1 else recent) failed
          else resolve e cutoff d (S i) rest recent (failed ∖ {[id]})
      | None => resolve e cutoff d (S i) rest recent (failed ∖ {[id]})
      end
  end.
Definition unresolvedSecurityAuditOperations (e : Env) (now : Z) (failed : gset string) (d : DB) : res Z * gset string :=
  let cutoff := now - securityAuditOrphanAge in
  if fault e 0 then (Err io_err, failed) else
  let stale := size (filter (λ kv : string * OpRow, is_pending kv.2 = true ∧ started_at kv.2 < cutoff) (operations d)) in
  match resolve e cutoff d 1 (elements failed) 0 failed with
  | (Err err, failed') => (Err err, failed')
  | (Ok recent, failed') => (Ok (Z.of_nat stale + recent), failed')
  end.

Definition pendingCount (d : DB) : Z :=
  Z.of_nat (size (filter (λ kv : Z * OutRow, delivered_at kv.2 = None) (outbox d))).

(** The rows waiting for publication, oldest first, as many as one flush takes. *)
Definition pending_ids (d : DB) : list Z :=
  merge_sort Z.le (elements (dom (filter (λ kv : Z * OutRow, delivered_at kv.2 = None) (outbox d)) : gset Z)).
Definition read_pending (d : DB) : list (Z * Ev) :=
  take 32 (omap (λ id, (λ r, (id, o_ev r)) <$> outbox d !! id) (pending_ids d)).

(** ** Publication *)

Definition publication_failed (id : Z) (err : error) (d : DB) : DB :=
  mkDB (alter (λ r, match delivered_at r with
                    | None => mkOut (o_ev r) (created_at r) None (attempts r + 1) (Some err)
                    | Some _ => r end) id (outbox d)) (next_id d) (operations d).
Definition mark_delivered (id : Z) (now : Z) (d : DB) : DB :=
  mkDB (alter (λ r, match delivered_at r with
                    | None => mkOut (o_ev r) (created_at r) (Some now) (attempts r) None
                    | Some _ => r end) id (outbox d)) (next_id d) (operations d).

(** [pruneDelivered]: the rows delivered before the cutoff and the operations finished
    before it, oldest first. *)
Definition out_before (a b : Z * Z) : Prop := a.1 < b.1 ∨ (a.1 = b.1 ∧ a.2 ≤ b.2).
#[export] Instance out_before_dec : RelDecision out_before.
Proof. intros a b. unfold out_before. apply _. Defined.
Definition op_before (a b : Z * string) : Prop := a.1 < b.1 ∨ (a.1 = b.1 ∧ String.le a.2 b.2).
#[export] Instance op_before_dec : RelDecision op_before.
Proof. intros a b. unfold op_before. apply _. Defined.
Definition expired_rows (cutoff : Z) (d : DB) : list Z :=
  snd <$> take auditOutboxPruneBatch (merge_sort out_before
    (omap (λ kv : Z * OutRow, match delivered_at kv.2 with Some t => if t <? cutoff then Some (t, kv.1) else None | None => None end)
          (map_to_list (outbox d)))).
Definition expired_operations (cutoff : Z) (d : DB) : list string :=
  snd <$> take auditOutboxPruneBatch (merge_sort op_before
    (omap (λ kv : string * OpRow,
             if is_pending kv.2 then None else
             match finished_at kv.2 with Some t => if t <? cutoff then Some (t, kv.1) else None | None => None end)
          (map_to_list (operations d)))).
Definition pruneDelivered (e : Env) (d : DB) : option error * DB :=
  if fault e 0 then (Some (EWrap "prune delivered audit outbox" io_err), d) else
  let d1 := mkDB (foldr delete (outbox d) (expired_rows (clock e 0 - auditOutboxRetention) d)) (next_id d) (operations d) in
  if fault e 1 then (Some (EWrap "prune completed security audit operations" io_err), d1) else
  (None, mkDB (outbox d1) (next_id d1)
           (foldr delete (operations d1) (expired_operations (clock e 1 - securityAuditOperationRetention) d1))).

(** [listPendingSecurityAuditOperations]. *)
Definition listPendingSecurityAuditOperations (limit : Z) (d : DB) : list (Z * string) :=
  let limit := if (limit <? 1) || (500 <? limit) then 100 else limit in
  take (Z.to_nat limit) (merge_sort op_before
    (omap (λ kv : string * OpRow, if is_pending kv.2 then Some (started_at kv.2, kv.1) else None) (map_to_list (operations d)))).

Section Publication.
Context {L : Type} `{SL : Sink L}.

(** The loop of [flush]: event [i] is published under [pe i]; fault [4 * i], recording
    its failure, [4 * i + 1], marking it delivered. *)
Fixpoint flush_events (e : Env) (pe : nat → Env * option nat) (i : nat) (events : list (Z * Ev)) (d : DB) (l : L)
    : option error * DB * L :=
  match events with
  | [] => (None, d, l)
  | (id, ev) :: rest =>
      match publish (pe i).1 (pe i).2 ev l with
      | (Some err, l') => (Some err, if fault e (4 * i) then d else publication_failed id err d, l')
      | (None, l') =>
          if fault e (4 * i + 1) then (Some (EWrap "mark audit outbox event delivered" io_err), d, l')
          else flush_events e pe (S i) rest (mark_delivered id (clock e i) d) l'
      end
  end.

(** [flush]; [ep] is the environment of the cleanup, whose failure is only logged;
    fault 0: reading the rows. *)
Definition flush (ep e : Env) (pe : nat → Env * option nat) (d : DB) (l : L) : option error * DB * L :=
  let d := (pruneDelivered ep d).2 in
  if fault e 0 then (Some (EWrap "read audit outbox" io_err), d, l) else
  flush_events e pe 1 (read_pending d) d l.

(** The operations: a transaction, then a flush whose failure does not matter, or, in
    [enqueue], does. [f] is the flush. *)
Definition deferred (f : DB → L → option error * DB * L) (r : option error * DB) (l : L) : option error * DB * L :=
  match r with
  | (Some err, d) => (Some err, d, l)
  | (None, d) => let '(_, d', l') := f d l in (None, d', l')
  end.
Definition recordDurably (e : Env) (f : DB → L → option error * DB * L) (ev : Ev) (d : DB) (l : L) : option error * DB * L :=
  deferred f (persist e ev d) l.
Definition enqueue (e : Env) (f : DB → L → option error * DB * L) (ev : Ev) (d : DB) (l : L) : option error * DB * L :=
  match persist e ev d with (Some err, d) => (Some err, d, l) | (None, d) => f d l end.
Definition beginSecurityAudit (e : Env) (f : DB → L → option error * DB * L) (id a act tgt det : string) (d : DB) (l : L) : option error * DB * L :=
  deferred f (begin_operation e id a act tgt det d) l.
Definition completeSecurityAudit (e : Env) (f : DB → L → option error * DB * L) (id a baseAction act tgt det : string) (d : DB) (l : L)
    : option error * DB * L :=
  match complete_operation e id a baseAction act tgt det d with
  | (Ok true, d') => deferred f (None, d') l
  | (Ok false, d') => (None, d', l)
  | (Err err, d') => (Some err, d', l)
  end.
Definition reconcileSecurityAuditOperation (e : Env) (f : DB → L → option error * DB * L) (failed : gset string) (id a det : string)
    (d : DB) (l : L) : option error * DB * L * gset string :=
  let '(r, d', failed') := reconcile_operation e failed id a det d in (deferred f (r, d') l, failed').

(** ** Several processes *)

(** Where a process stands in [flush]: it has rows to publish, or has published one that
    it must mark. *)
Inductive PC := Publishing (events : list (Z * Ev)) | Marking (id : Z) (ev : Ev) (rest : list (Z * Ev)).
Record World := mkWorld { db : DB; sink : L; procs : gmap nat PC }.

(** A transaction of one of the operations. *)
Inductive transaction (d : DB) : DB → Prop :=
  | TPersist e ev r d' : persist e ev d = (r, d') → transaction d d'
  | TBegin e id a act tgt det r d' : begin_operation e id a act tgt det d = (r, d') → transaction d d'
  | TComplete e id a base act tgt det r d' : complete_operation e id a base act tgt det d = (r, d') → transaction d d'
  | TReconcile e failed id a det r d' failed' : reconcile_operation e failed id a det d = (r, d', failed') → transaction d d'
  | TPrune e r d' : pruneDelivered e d = (r, d') → transaction d d'.

Definition all_fit (d : DB) : Prop := ∀ id r, outbox d !! id = Some r → fits (o_ev r).

(** Two assumptions of the steps, which the code does not check: the log is [intact] after
    every publication, and only events that fit are handed to the outbox. For the signed log
    they exclude a write that stops just before its newline, and events whose fields are not
    readable. *)
Inductive step : World → World → Prop :=
  | STransaction w d' : transaction (db w) d' → all_fit d' → step w (mkWorld d' (sink w) (procs w))
  | SRead w i : step w (mkWorld (db w) (sink w) (<[i := Publishing (read_pending (db w))]> (procs w)))
  | SPublished w i e tear id ev rest l' :
      procs w !! i = Some (Publishing ((id, ev) :: rest)) → publish e tear ev (sink w) = (None, l') → intact l' →
      step w (mkWorld (db w) l' (<[i := Marking id ev rest]> (procs w)))
  | SFailed w i e tear id ev rest err l' d' :
      procs w !! i = Some (Publishing ((id, ev) :: rest)) → publish e tear ev (sink w) = (Some err, l') → intact l' →
      d' = db w ∨ d' = publication_failed id err (db w) →
      step w (mkWorld d' l' (delete i (procs w)))
  | SMarked w i id ev rest now :
      procs w !! i = Some (Marking id ev rest) →
      step w (mkWorld (mark_delivered id now (db w)) (sink w) (<[i := Publishing rest]> (procs w)))
  | SStop w i : step w (mkWorld (db w) (sink w) (delete i (procs w))).

Definition empty_db : DB := mkDB ∅ 1 ∅.
Definition reachable (l0 : L) (w : World) : Prop := rtc step (mkWorld empty_db l0 ∅) w.

(** ** What the tables keep *)

(** The rows of [d'] that [d] has are the same, or delivered ones are gone; new rows get
    new identifiers. *)
Definition kept (d d' : DB) : Prop :=
  next_id d ≤ next_id d' ∧
  (∀ id r', outbox d' !! id = Some r' → outbox d !! id = Some r' ∨ outbox d !! id = None ∧ next_id d ≤ id < next_id d' ∧ delivered_at r' = None) ∧
  (∀ id r, outbox d !! id = Some r → delivered_at r = None → outbox d' !! id = Some r).

Lemma kept_same d ops : kept d (mkDB (outbox d) (next_id d) ops).
Proof. split_and!; [done|by left|done]. Qed.

Definition ids_below (d : DB) : Prop := ∀ id r, outbox d !! id = Some r → id < next_id d.

Lemma kept_insert d ev now ops : ids_below d → kept d (insert_event ev now (mkDB (outbox d) (next_id d) ops)).
Proof.
  intros Hb. unfold insert_event. cbn. split_and!; cbn; [lia| |].
  - intros id r [[<- <-]|[Hne Hr]]%lookup_insert_Some; [|by left]. right. split_and!; try done; try lia.
    destruct (outbox d !! next_id d) eqn:E; [|done]. apply Hb in E. lia.
  - intros id r Hr _. rewrite lookup_insert_ne; [done|]. apply Hb in Hr. lia.
Qed.

Lemma kept_refl d : kept d d.
Proof. destruct d. apply (kept_same (mkDB _ _ _)). Qed.

Lemma commit_kept e n what d d' r d1 : kept d d' → commit e n what d d' = (r, d1) → kept d d1.
Proof. unfold commit. intros Hk. repeat case_if; intros [= _ <-]; auto using kept_refl. Qed.

Lemma foldr_delete_kept {A} (m : gmap Z A) ids id : foldr delete m ids !! id = if decide (id ∈ ids) then None else m !! id.
Proof.
  induction ids as [|i ids IH]; cbn; [by rewrite decide_False by apply not_elem_of_nil|].
  destruct (decide (id = i)) as [->|Hne]; [rewrite lookup_delete_eq, decide_True; [done|by left]|].
  rewrite lookup_delete_ne, IH by done. destruct (decide (id ∈ ids)); [rewrite decide_True; [done|by right]|].
  rewrite decide_False; [done|]. by intros [?|?]%elem_of_cons.
Qed.

Lemma expired_delivered cutoff d id r : id ∈ expired_rows cutoff d → outbox d !! id = Some r → delivered_at r ≠ None.
Proof.
  unfold expired_rows. intros ([t id'] & -> & Hin)%list_elem_of_fmap Hr. apply elem_of_take in Hin as (n & Hn & _).
  apply list_elem_of_lookup_2 in Hn. rewrite merge_sort_Permutation in Hn. apply list_elem_of_omap in Hn as ([i r'] & Hm & Hs).
  apply elem_of_map_to_list in Hm. cbn in *. destruct (delivered_at r') as [t'|] eqn:E; [|done].
  case_if; [|done]. injection Hs as -> ->. rewrite Hr in Hm. injection Hm as ->. by rewrite E.
Qed.

Lemma prune_kept e d r d' : pruneDelivered e d = (r, d') → kept d d'.
Proof.
  assert (Hp : ∀ cutoff ops, kept d (mkDB (foldr delete (outbox d) (expired_rows cutoff d)) (next_id d) ops)).
  { intros cutoff ops. split_and!; cbn; [done| |].
    - intros id r'. rewrite foldr_delete_kept. case_decide; [done|]. by left.
    - intros id r0 Hr Hd. rewrite foldr_delete_kept, decide_False; [done|]. intros Hin. by eapply expired_delivered. }
  unfold pruneDelivered. repeat case_if; intros [= _ <-]; [apply kept_refl|apply Hp..].
Qed.

Lemma transaction_kept d d' : ids_below d → transaction d d' → kept d d'.
Proof.
  intros Hb [e ev r d1 Hp|e id a act tgt det r d1 Hp|e id a base act tgt det r d1 Hp|e failed id a det r d1 failed1 Hp|e r d1 Hp].
  - unfold persist in Hp. case_if; [injection Hp as _ <-; apply kept_refl|]. eapply commit_kept; [|exact Hp].
    destruct d. by apply (kept_insert (mkDB _ _ _)).
  - unfold begin_operation in Hp. repeat (case_if; [injection Hp as _ <-; apply kept_refl|]). eapply commit_kept; [|exact Hp]. by apply kept_insert.
  - unfold complete_operation in Hp. repeat (case_if; [injection Hp as _ <-; apply kept_refl|]).
    destruct (operations d !! id) as [op|]; [|injection Hp as _ <-; apply kept_refl]. case_if.
    + case_if; [injection Hp as _ <-; apply kept_refl|]. destruct (commit _ _ _ _ _) as [[err|] d2] eqn:Ec; injection Hp as _ <-;
        (eapply commit_kept; [|exact Ec]; by apply kept_insert).
    + repeat case_if; injection Hp as _ <-; apply kept_refl.
  - unfold reconcile_operation in Hp. case_if; [injection Hp as _ <- _; apply kept_refl|]. cbn zeta in Hp.
    repeat (case_if; [injection Hp as _ <- _; apply kept_refl|]).
    destruct (operations d !! id) as [op|]; [|injection Hp as _ <- _; apply kept_refl].
    case_if; [|injection Hp as _ <- _; apply kept_refl]. case_if; [injection Hp as _ <- _; apply kept_refl|].
    destruct (commit _ _ _ _ _) as [r2 d2] eqn:Ec. injection Hp as _ <- _. eapply commit_kept; [|exact Ec]. by apply kept_insert.
  - by eapply prune_kept.
Qed.

(** ** The invariant *)

Context `{!SinkLaws L}.

Definition queued (pc : PC) : list (Z * Ev) :=
  match pc with Publishing events => events | Marking id ev rest => (id, ev) :: rest end.

(** A delivered row, and one that is about to be marked, is in the log; what a process
    is about to publish is the event of its row. *)
Record inv (w : World) : Prop := mkInv {
  i_ids : ids_below (db w);
  i_fit : all_fit (db w);
  i_healthy : healthy (sink w);
  i_delivered : ∀ id r, outbox (db w) !! id = Some r → delivered_at r ≠ None → shown (o_ev r) ∈ recorded (sink w);
  i_queued : ∀ i pc id ev, procs w !! i = Some pc → (id, ev) ∈ queued pc →
    fits ev ∧ id < next_id (db w) ∧ ∀ r, outbox (db w) !! id = Some r → o_ev r = ev;
  i_marking : ∀ i id ev rest, procs w !! i = Some (Marking id ev rest) → shown ev ∈ recorded (sink w)
}.

Lemma publish_grows e tear ev l r l' : healthy l → fits ev → publish e tear ev l = (r, l') → recorded l `prefix_of` recorded l'.
Proof.
  intros Hl Hf Hp. destruct r as [err|].
  - destruct (publish_failed _ _ _ _ _ _ Hl Hf Hp) as [->| ->]; [done|by eexists].
  - rewrite (publish_ok _ _ _ _ _ Hl Hf Hp). by eexists.
Qed.
Lemma prefix_elem {A} (x : A) l l' : l `prefix_of` l' → x ∈ l → x ∈ l'.
Proof. intros [k ->] Hx. apply elem_of_app. by left. Qed.

Lemma read_pending_row d id ev : (id, ev) ∈ read_pending d → ∃ r, outbox d !! id = Some r ∧ o_ev r = ev ∧ delivered_at r = None.
Proof.
  unfold read_pending, pending_ids. intros (n & Hn & _)%elem_of_take. apply list_elem_of_lookup_2 in Hn.
  apply list_elem_of_omap in Hn as (i & Hi & Hs). rewrite merge_sort_Permutation, elem_of_elements, elem_of_dom in Hi.
  destruct Hi as [r [Hr Hd]%map_lookup_filter_Some]. rewrite Hr in Hs. injection Hs as <- <-. by exists r.
Qed.

(** A change of the delivery columns of one row. *)
Definition touches (d d' : DB) : Prop :=
  next_id d' = next_id d ∧ ∀ id, o_ev <$> outbox d' !! id = o_ev <$> outbox d !! id.
Lemma touches_fails id err d : touches d (publication_failed id err d).
Proof.
  split; [done|]. intros j. cbn. destruct (decide (j = id)) as [->|]; [rewrite lookup_alter_eq|by rewrite lookup_alter_ne].
  destruct (outbox d !! id) as [r|]; [|done]. cbn. f_equal. by destruct (delivered_at r).
Qed.
Lemma touches_mark id now d : touches d (mark_delivered id now d).
Proof.
  split; [done|]. intros j. cbn. destruct (decide (j = id)) as [->|]; [rewrite lookup_alter_eq|by rewrite lookup_alter_ne].
  destruct (outbox d !! id) as [r|]; [|done]. cbn. f_equal. by destruct (delivered_at r).
Qed.
Lemma touches_row d d' id r' : touches d d' → outbox d' !! id = Some r' → ∃ r, outbox d !! id = Some r ∧ o_ev r' = o_ev r.
Proof.
  intros [_ Ht] Hr. specialize (Ht id). rewrite Hr in Ht. destruct (outbox d !! id) as [r|] eqn:E; [|done]. cbn in Ht.
  exists r. split; [done|]. congruence.
Qed.

(** The parts of the invariant that only speak of the tables and the processes. *)
Lemma inv_touches d d' : touches d d' → ids_below d → all_fit d → ids_below d' ∧ all_fit d'.
Proof.
  intros Ht Hi Hf. pose proof Ht as [Hn _]. split; intros id r (r0 & Hr & E)%(touches_row _ _ _ _ Ht); [rewrite Hn; eauto|rewrite E; eauto].
Qed.
Lemma queued_touches d d' id ev :
  touches d d' → id < next_id d ∧ (∀ r, outbox d !! id = Some r → o_ev r = ev) →
  id < next_id d' ∧ (∀ r, outbox d' !! id = Some r → o_ev r = ev).
Proof.
  intros Ht [H1 H2]. pose proof Ht as [-> _]. split; [done|]. intros r (r0 & Hr & ->)%(touches_row _ _ _ _ Ht). by apply H2.
Qed.
Lemma queued_kept d d' id ev :
  kept d d' → id < next_id d ∧ (∀ r, outbox d !! id = Some r → o_ev r = ev) →
  id < next_id d' ∧ (∀ r, outbox d' !! id = Some r → o_ev r = ev).
Proof.
  intros (Hn & Hr & _) [H1 H2]. split; [lia|]. intros r Hd. destruct (Hr _ _ Hd) as [?|(_ & ? & _)]; [by apply H2|lia].
Qed.

Lemma delivered_fails id err d j r' :
  outbox (publication_failed id err d) !! j = Some r' → delivered_at r' ≠ None →
  ∃ r, outbox d !! j = Some r ∧ o_ev r' = o_ev r ∧ delivered_at r ≠ None.
Proof.
  cbn. destruct (decide (j = id)) as [->|]; [rewrite lookup_alter_eq|rewrite lookup_alter_ne by done; eauto].
  destruct (outbox d !! id) as [r|]; [|done]. cbn. intros [= <-] Hd. exists r. destruct (delivered_at r) eqn:E; [|done]. split_and!; congruence.
Qed.
Lemma delivered_mark id now d j r' :
  outbox (mark_delivered id now d) !! j = Some r' → delivered_at r' ≠ None →
  ∃ r, outbox d !! j = Some r ∧ o_ev r' = o_ev r ∧ (delivered_at r ≠ None ∨ j = id).
Proof.
  cbn. destruct (decide (j = id)) as [->|]; [rewrite lookup_alter_eq|rewrite lookup_alter_ne by done; eauto].
  destruct (outbox d !! id) as [r|]; [|done]. cbn. intros [= <-] Hd. exists r. split_and!; [done| |by right]. by destruct (delivered_at r).
Qed.

Lemma outbox_inv_step w w' : inv w → step w w' → inv w'.
Proof.
  intros [Hi Hf Hh Hd Hq Hm] S. destruct S as [w d' Ht Hfit|w i|w i e tear id ev rest l' Hp Hpub Hl|w i e tear id ev rest err l' d' Hp Hpub Hl Hd'|w i id ev rest now Hp|w i]; cbn in *.
  - pose proof (transaction_kept _ _ Hi Ht) as Hk. pose proof Hk as (Hn & Hr & Hr2). split; cbn; auto.
    + intros id r [H|(_ & H & _)]%Hr; [apply Hi in H; lia|lia].
    + intros id r [H|(_ & _ & H)]%Hr Hdel; [by eapply Hd|done].
    + intros i pc id ev H1 H2. destruct (Hq _ _ _ _ H1 H2) as (H3 & H4). split; [done|]. by eapply queued_kept.
  - split; cbn; auto.
    + intros j pc id ev [[<- <-]|[_ H1]]%lookup_insert_Some H2; [|by eapply Hq]. cbn in H2.
      destruct (read_pending_row _ _ _ H2) as (r & Hr & <- & _). split_and!; eauto. intros r' Hr'. congruence.
    + intros j id ev rest [[_ H]|[_ H]]%lookup_insert_Some; [done|by eapply Hm].
  - destruct (Hq _ _ id ev Hp ltac:(by left)) as (Hfit & Hid & Hev).
    pose proof (publish_grows _ _ _ _ _ _ Hh Hfit Hpub) as Hg. split; cbn; auto.
    + by eapply publish_healthy.
    + intros j r Hr Hdel. eapply prefix_elem; [done|by eapply Hd].
    + intros j pc id' ev' [[<- <-]|[_ H1]]%lookup_insert_Some H2; [by eapply Hq; [exact Hp|]|by eapply Hq].
    + intros j id' ev' rest' [[<- [= <- <- <-]]|[_ H1]]%lookup_insert_Some; [|eapply prefix_elem; [done|by eapply Hm]].
      rewrite (publish_ok _ _ _ _ _ Hh Hfit Hpub). apply elem_of_app. right. by left.
  - destruct (Hq _ _ id ev Hp ltac:(by left)) as (Hfit & Hid & Hev).
    pose proof (publish_grows _ _ _ _ _ _ Hh Hfit Hpub) as Hg.
    assert (Ht : touches (db w) d') by (destruct Hd' as [->| ->]; [done|apply touches_fails]).
    destruct (inv_touches _ _ Ht Hi Hf) as [Hi' Hf']. split; cbn; auto.
    + by eapply publish_healthy.
    + intros j r' Hr Hdel. eapply prefix_elem; [done|]. destruct Hd' as [->| ->]; [by eapply Hd|].
      destruct (delivered_fails _ _ _ _ _ Hr Hdel) as (r & H1 & -> & H2). by eapply Hd.
    + intros j pc id' ev' [_ H1]%lookup_delete_Some H2. destruct (Hq _ _ _ _ H1 H2) as [H3 H4]. split; [done|]. by eapply queued_touches.
    + intros j id' ev' rest' [_ H1]%lookup_delete_Some. eapply prefix_elem; [done|by eapply Hm].
  - pose proof (touches_mark id now (db w)) as Ht. destruct (inv_touches _ _ Ht Hi Hf) as [Hi' Hf']. split; cbn; auto.
    + intros j r' Hr Hdel. destruct (delivered_mark _ _ _ _ _ Hr Hdel) as (r & H1 & -> & [H2| ->]); [by eapply Hd|].
      destruct (Hq _ _ id ev Hp ltac:(by left)) as (_ & _ & Hev). rewrite (Hev _ H1). by eapply Hm.
    + intros j pc id' ev' [[<- <-]|[_ H1]]%lookup_insert_Some H2.
      * destruct (Hq _ _ id' ev' Hp ltac:(by right)) as [H3 H4]. split; [done|]. by apply (queued_touches _ _ _ _ Ht).
      * destruct (Hq _ _ _ _ H1 H2) as [H3 H4]. split; [done|]. by apply (queued_touches _ _ _ _ Ht).
    + intros j id' ev' rest' [[_ ?]|[_ H1]]%lookup_insert_Some; [done|by eapply Hm].
  - split; cbn; auto.
    + intros j pc id ev [_ H1]%lookup_delete_Some. by eapply Hq.
    + intros j id ev rest [_ H1]%lookup_delete_Some. by eapply Hm.
Qed.

Lemma outbox_inv_start l0 : healthy l0 → inv (mkWorld empty_db l0 ∅).
Proof. intros Hh. split; cbn; try done. Qed.

Lemma outbox_inv_reachable l0 w : healthy l0 → reachable l0 w → inv w.
Proof.
  intros Hh Hr. unfold reachable in Hr. pose proof (outbox_inv_start l0 Hh) as Hi. revert Hi. clear Hh.
  induction Hr as [|w1 w2 w3 Hs _ IH]; [done|]. intros Hi. apply IH. by eapply outbox_inv_step.
Qed.

(** ** Nothing is lost *)

(** The event of a row is in the log, or still waits in its row. *)
Definition safe (w : World) (id : Z) (ev : Ev) : Prop :=
  shown ev ∈ recorded (sink w) ∨ ∃ r, outbox (db w) !! id = Some r ∧ o_ev r = ev ∧ delivered_at r = None.

Lemma waits_fails d id err j r :
  outbox d !! j = Some r → delivered_at r = None →
  ∃ r', outbox (publication_failed id err d) !! j = Some r' ∧ o_ev r' = o_ev r ∧ delivered_at r' = None.
Proof.
  intros Hr Hd. cbn. destruct (decide (j = id)) as [->|]; [rewrite lookup_alter_eq, Hr|rewrite lookup_alter_ne by done; eauto].
  cbn. rewrite Hd. eauto.
Qed.

Lemma safe_step w w' id ev : inv w → step w w' → safe w id ev → safe w' id ev.
Proof.
  intros I S. pose proof I as [Hi _ Hh _ Hq Hm].
  destruct S as [w d' Ht Hfit|w i|w i e tear id' ev' rest l' Hp Hpub Hl|w i e tear id' ev' rest err l' d' Hp Hpub Hl Hd'|w i id' ev' rest now Hp|w i];
    intros [Hs|(r & Hr & <- & Hw)]; unfold safe; cbn [db sink] in *; eauto 6.
  - right. pose proof (transaction_kept _ _ Hi Ht) as (_ & _ & Hk). exists r. split_and!; auto.
  - left. destruct (Hq _ _ id' ev' Hp ltac:(by left)) as (Hfit & _). eapply prefix_elem; [by eapply publish_grows|done].
  - left. destruct (Hq _ _ id' ev' Hp ltac:(by left)) as (Hfit & _). eapply prefix_elem; [by eapply publish_grows|done].
  - right. destruct Hd' as [->| ->]; [eauto|]. destruct (waits_fails _ id' err _ _ Hr Hw) as (r' & H1 & H2 & H3). eauto.
  - destruct (decide (id = id')) as [->|Hne].
    + left. destruct (Hq _ _ id' ev' Hp ltac:(by left)) as (_ & _ & Hev). rewrite (Hev _ Hr). by eapply Hm.
    + right. exists r. cbn. rewrite lookup_alter_ne by done. eauto.
Qed.

Lemma never_lost l0 w w' id r :
  healthy l0 → reachable l0 w → rtc step w w' → outbox (db w) !! id = Some r → safe w' id (o_ev r).
Proof.
  intros Hh Hr Hs Hrow. pose proof (outbox_inv_reachable _ _ Hh Hr) as I.
  assert (S0 : safe w id (o_ev r)).
  { destruct (delivered_at r) eqn:E; [left; eapply i_delivered; [done..|]; by rewrite E | right; eauto]. }
  clear Hr Hrow. revert I S0. induction Hs as [|w1 w2 w3 Hs _ IH]; [done|]. intros I S0.
  apply IH; [by eapply outbox_inv_step|by eapply safe_step].
Qed.

Lemma touches_trans d1 d2 d3 : touches d1 d2 → touches d2 d3 → touches d1 d3.
Proof. intros [H1 H2] [H3 H4]. split; [congruence|]. intros id. by rewrite H4. Qed.
Lemma flush_events_touches e pe i events d l r d' l' : flush_events e pe i events d l = (r, d', l') → touches d d'.
Proof.
  revert i d l. induction events as [|[id ev] events IH]; intros i d l; cbn; [by intros [= _ <- _]|].
  destruct (publish _ _ ev l) as [[err|] l1].
  - case_if; intros [= _ <- _]; [done|apply touches_fails].
  - case_if; [by intros [= _ <- _]|]. intros Hf. eapply touches_trans; [apply touches_mark|by eapply IH].
Qed.

(** A flush that succeeds has published the rows it read, in the order of their
    identifiers, and marked each of them. *)
Lemma flush_events_delivers e pe i events d l d' l' :
  healthy l → Forall (λ x : Z * Ev, fits x.2) events → flush_events e pe i events d l = (None, d', l') →
  recorded l' = recorded l ++ ((λ x, shown x.2) <$> events) ∧
  (∀ id r, outbox d' !! id = Some r → (id ∈ events.*1 ∨ ∃ r0, outbox d !! id = Some r0 ∧ delivered_at r0 ≠ None) → delivered_at r ≠ None).
Proof.
  revert i d l. induction events as [|[id ev] events IH]; intros i d l Hh Hf Hfl; cbn [flush_events] in Hfl.
  { injection Hfl as <- <-. split; [by rewrite app_nil_r|]. intros id r Hr [[]%not_elem_of_nil|(r0 & Hr0 & Hd)]. congruence. }
  apply Forall_cons in Hf as [Hfe Hf]. destruct (publish _ _ ev l) as [[err|] l1] eqn:Ep; [done|]. case_if; [done|].
  destruct (IH _ _ _ (publish_healthy _ _ _ _ _ _ Hh Hfe Ep (publish_whole _ _ _ _ _ Hh Hfe Ep)) Hf Hfl) as [H1 H2].
  split; [by rewrite H1, (publish_ok _ _ _ _ _ Hh Hfe Ep), <- app_assoc|].
  intros j r Hr Hj. apply (H2 j r Hr). cbn in Hj. destruct (decide (j ∈ events.*1)) as [|Hn]; [by left|]. right.
  assert (Hj' : j = id ∨ ∃ r0, outbox d !! j = Some r0 ∧ delivered_at r0 ≠ None) by (destruct Hj as [[?|?]%elem_of_cons|?]; auto; done).
  clear Hj. assert (is_Some (outbox d !! j)) as [r0 Hr0].
  { destruct (flush_events_touches _ _ _ _ _ _ _ _ _ Hfl) as [_ Ht], (touches_mark id (clock e i) d) as [_ Hm].
    specialize (Ht j). rewrite Hr, Hm in Ht. destruct (outbox d !! j); [eauto|done]. }
  destruct (decide (j = id)) as [->|Hne].
  - eexists. split; [cbn; by rewrite lookup_alter_eq, Hr0|]. by destruct (delivered_at r0) eqn:E; cbn; rewrite ?E.
  - exists r0. cbn. rewrite lookup_alter_ne by done. split; [done|]. destruct Hj' as [?|(r1 & Hr1 & Hd1)]; [done|]. congruence.
Qed.

Theorem flush_in_order ep e pe d l d' l' :
  healthy l → all_fit d → ids_below d → flush ep e pe d l = (None, d', l') →
  let rows := read_pending (pruneDelivered ep d).2 in
  recorded l' = recorded l ++ ((λ x, shown x.2) <$> rows) ∧
  ∀ id r, id ∈ rows.*1 → outbox d' !! id = Some r → delivered_at r ≠ None.
Proof.
  intros Hh Hf Hi Hfl rows. unfold flush in Hfl. fold rows in Hfl. case_if; [done|].
  assert (Forall (λ x : Z * Ev, fits x.2) rows) as Hfit; [|destruct (flush_events_delivers _ _ _ _ _ _ _ _ Hh Hfit Hfl) as [H1 H2]; split; eauto].
  apply Forall_forall. intros [id ev] Hin. destruct (read_pending_row _ _ _ Hin) as (r & Hr & <- & _). cbn.
  destruct (pruneDelivered ep d) as [x d1] eqn:Ep. destruct (prune_kept _ _ _ _ Ep) as (_ & Hk & _).
  destruct (Hk _ _ Hr) as [H|(_ & H & _)]; [by eapply Hf|]. exfalso. unfold pruneDelivered in Ep.
  repeat case_if; simplify_eq; cbn in H; lia.
Qed.

End Publication.

(** ** Security operations *)

(** An operation is closed once: a completed or reconciled operation keeps its outcome
    through every later transaction until retention removes it. *)
Theorem operation_closed_once d d' id op :
  transaction d d' → operations d !! id = Some op → op_state op ≠ Pending →
  operations d' !! id = Some op ∨ operations d' !! id = None ∧ ∃ e r, pruneDelivered e d = (r, d').
Proof.
  intros T Hop Hst.
  assert (Hput : ∀ (e : Env) n what id' op' ev now r d1, (id' = id → False) →
    commit e n what d (insert_event ev now (put_operation id' op' d)) = (r, d1) → operations d1 !! id = Some op).
  { intros e n what id' op' ev now r d1 Hne Hc. unfold commit in Hc. repeat case_if; injection Hc as _ <-; cbn; try done; by rewrite lookup_insert_ne. }
  destruct T as [e ev r d1 Hp|e id' a act tgt det r d1 Hp|e id' a base act tgt det r d1 Hp|e failed id' a det r d1 failed1 Hp|e r d1 Hp].
  - left. unfold persist, commit in Hp. repeat case_if; by injection Hp as _ <-.
  - left. unfold begin_operation in Hp. repeat (case_if; [by injection Hp as _ <-|]). eapply Hput; [|exact Hp].
    intros ->. rewrite Hop in *. rewrite bool_decide_true, orb_true_r in Heqb1 by eauto. done.
  - left. unfold complete_operation in Hp. repeat (case_if; [by injection Hp as _ <-|]).
    destruct (operations d !! id') as [op'|] eqn:E; [|by injection Hp as _ <-]. case_if.
    + case_if; [by injection Hp as _ <-|]. destruct (commit _ _ _ _ _) as [[err|] d2] eqn:Ec; injection Hp as _ <-;
        (eapply Hput; [|exact Ec]; intros ->; rewrite Hop in E; injection E as <-;
         rewrite bool_decide_false in Heqb2 by done; done).
    + repeat case_if; by injection Hp as _ <-.
  - left. unfold reconcile_operation in Hp. case_if; [by injection Hp as _ <- _|]. cbn zeta in Hp.
    case_if; [by injection Hp as _ <- _|]. destruct (operations d !! id') as [op'|] eqn:E; [|by injection Hp as _ <- _].
    case_if; [|by injection Hp as _ <- _]. case_if; [by injection Hp as _ <- _|].
    destruct (commit _ _ _ _ _) as [r2 d2] eqn:Ec. injection Hp as _ <- _. eapply Hput; [|exact Ec].
    intros ->. rewrite Hop in E. injection E as <-. rewrite bool_decide_false in Heqb1 by done. done.
  - assert (Hsub : ∀ ids op1, foldr delete (operations d) ids !! id = Some op1 → op1 = op).
    { intros ids op1. induction ids as [|i ids IH]; cbn [foldr]; [congruence|]. intros [_ E]%lookup_delete_Some. by apply IH. }
    destruct (operations d1 !! id) as [op1|] eqn:E; [left|right; eauto]. f_equal.
    unfold pruneDelivered in Hp. repeat case_if; injection Hp as _ <-; cbn [operations] in E; [congruence|congruence|by eapply Hsub].
Qed.

(** Completing an operation closes its row and hands its outcome to the outbox in one
    transaction; when the call reports success, both have happened, now or before. *)
Theorem completed_operation_recorded e id a base act tgt det d r d' :
  complete_operation e id a base act tgt det d = (Ok r, d') →
  ∃ op, operations d' !! id = Some op ∧ op_state op = Completed ∧ default "" (outcome_action op) = act ∧ default "" (outcome_detail op) = det ∧
    (r = true → ∃ row, outbox d' !! next_id d = Some row ∧ o_ev row = mkEv a act tgt (securityAuditOperationDetail id det) ∧ delivered_at row = None).
Proof.
  unfold complete_operation. repeat (case_if; [done|]). destruct (operations d !! id) as [op|] eqn:E; [|done]. case_if.
  - case_if; [done|]. unfold commit. repeat (case_if; [done|]). intros [= <- <-]. eexists. cbn. rewrite lookup_insert_eq. split_and!; try done.
    intros _. eexists. by rewrite lookup_insert_eq.
  - case_if; [done|]. case_if; [|done]. intros [= <- <-]. exists op.
    apply andb_true_iff in Heqb4 as [[H1 H2]%andb_true_iff H3]. apply bool_decide_eq_true in H1, H2, H3. split_and!; done.
Qed.

(** ** The signed log as the sink *)

Section SignedLog.
Import AuditLog AuditLogProps.
Context `{AuditLaws} (k : string).

Definition shown_event (ev : Ev) : Ev :=
  mkEv (truncateValue (actor ev) 128) (truncateValue (action ev) 128) (truncateValue (target ev) 512) (truncateValue (detail ev) 4096).
(** The events of the complete lines of the log that the state authenticates. *)
Definition logged (fs : FS) : list Ev :=
  match st fs, log fs with
  | SavedState _, Some f =>
      match scan k None (lines f) with
      | Ok evs => (λ ev, mkEv (Actor ev) (Action ev) (Target ev) (Detail ev)) <$> evs
      | Err _ => []
      end
  | _, _ => []
  end.

(** [publishAuditEvent], with a log configured. *)
Definition publishAuditEvent (e : Env) (tear : option nat) (ev : Ev) (fs : FS) : option error * FS :=
  appendEvent e tear (actor ev) (action ev) (target ev) (detail ev) fs.

#[export] Instance log_sink : Sink FS := {|
  publish := publishAuditEvent; recorded := logged; shown := shown_event;
  fits ev := readable (actor ev) (action ev) (target ev) (detail ev);
  intact fs := ∀ f, log fs = Some f → unreadable f;
  healthy := chained k |}.

Lemma logged_scan fs s f evs : st fs = SavedState s → log fs = Some f → scan k None (lines f) = Ok evs →
  logged fs = (λ ev, mkEv (Actor ev) (Action ev) (Target ev) (Detail ev)) <$> evs.
Proof. intros Hs Hl Hc. unfold logged. by rewrite Hs, Hl, Hc. Qed.
Lemma logged_fresh fs : st fs = NoState → logged fs = [].
Proof. intros Hs. unfold logged. by rewrite Hs. Qed.

(** What an append leaves in the log, read back. *)
Lemma written_logged e s fs f evs ev r fs' :
  extendable k s f evs → AuditLog.size f < maxAuditLogBytes → readable (actor ev) (action ev) (target ev) (detail ev) →
  (st fs = NoState ∧ evs = [] ∨ ∃ s0, st fs = SavedState s0 ∧ log fs = Some f) → scan k None (lines f) = Ok evs →
  written e k s (new_event e k s (actor ev) (action ev) (target ev) (detail ev)) fs f evs r fs' →
  (logged fs' = logged fs ++ [shown_event ev] ∧ (r = None → ∀ g, log fs' = Some g → unreadable g)) ∨ (r ≠ None ∧ logged fs' = logged fs).
Proof.
  intros Hx Hsz Hr Hst Hsc Hw.
  destruct (extend_scan e k s f evs _ _ _ _ (clock e 3) Hx Hsz Hr) as (Hs & Hl & Ht & _).
  assert (Hold : logged fs = (λ x, mkEv (Actor x) (Action x) (Target x) (Detail x)) <$> evs).
  { destruct Hst as [[Hn ->]|(s0 & H1 & H2)]; [by apply logged_fresh|by eapply logged_scan]. }
  assert (Hnew : ∀ l, (λ x, mkEv (Actor x) (Action x) (Target x) (Detail x)) <$> (l ++ [new_event e k s (actor ev) (action ev) (target ev) (detail ev)]) =
    ((λ x, mkEv (Actor x) (Action x) (Target x) (Detail x)) <$> l) ++ [shown_event ev]) by (intros l; by rewrite fmap_app).
  destruct Hw as [err|n err|err|r s' f' -> Hse _ _ _ Hn].
  - right. done.
  - right. split; [done|]. destruct Hst as [[Hn ->]|(s0 & H1 & H2)]; [by rewrite !logged_fresh|].
    rewrite Hold. by eapply logged_scan.
  - destruct Hst as [[Hn ->]|(s0 & H1 & H2)]; [right; by rewrite !logged_fresh|]. left. split; [|done].
    rewrite Hold, <- Hnew. by eapply logged_scan.
  - left. split.
    + rewrite Hold, <- Hnew. by eapply logged_scan.
    + intros _ g [= <-]. by left.
Qed.

Lemma append_logged e tear ev fs r fs' :
  chained k fs → readable (actor ev) (action ev) (target ev) (detail ev) → publishAuditEvent e tear ev fs = (r, fs') →
  (logged fs' = logged fs ++ [shown_event ev] ∧ (r = None → ∀ g, log fs' = Some g → unreadable g)) ∨ (r ≠ None ∧ logged fs' = logged fs).
Proof.
  intros [Hk Hst] Hr Ha. unfold publishAuditEvent in Ha. destruct (st fs) as [| |s0] eqn:Es; [|done|].
  - destruct (append_fresh _ _ _ _ _ _ _ _ _ _ Hk Es Ha) as [(Hn & H1 & _) | (s & fs1 & H1 & H2 & Hx & Hz & Hw)].
    { right. split; [done|]. by rewrite !logged_fresh. }
    edestruct write_event_written as [Hwr _]; [done|exact Hx|rewrite Hz; done|exact Hr|exact Hw|].
    replace (logged fs) with (logged fs1) by (by rewrite !logged_fresh).
    eapply written_logged; [exact Hx|by rewrite Hz|done|by left| |exact Hwr]. destruct Hx as (_ & _ & [(-> & _)|Hn]); [done|by apply Hn].
  - destruct Hst as (Hse & f & evs & lag & Hlog & Huf & Hn).
    destruct (append_saved _ _ _ _ _ _ _ _ _ _ _ _ _ _ Hk Es Hse Hlog Huf Hn Ha) as [[Hne ->] | (_ & Hsz & s & Hx & Hw)]; [by right|].
    edestruct write_event_written as [Hwr _]; [|exact Hx|done|exact Hr|exact Hw|]; [by rewrite Hlog|].
    eapply written_logged; [exact Hx|done|done|right; eauto|by apply Hn|exact Hwr].
Qed.

#[export] Instance log_sink_laws : SinkLaws FS.
Proof.
  split; cbn; intros.
  - edestruct append_logged as [[? _]|[[] _]]; eauto.
  - edestruct append_logged as [[? _]|[_ ?]]; eauto.
  - by eapply chained_append.
  - edestruct append_logged as [[_ Hu]|[[] _]]; eauto.
Qed.

(** C37: no accepted event is lost: whatever the processes do that hand events to the outbox,
    publish them, clean up or are killed, and wherever the database and the log fail, an
    event that was once committed to the outbox is in the signed log, authenticated and
    cut to its limits, or still waits in its row; if all events have readable fields (valid
    UTF-8, an actor and an action that are not blank after truncation), no interrupted write of
    the log leaves an unterminated last line that decodes (one that stopped just before its
    newline), and nothing else writes the log. [Audit] and the outbox check neither of the first
    two: by [unreadable_event_breaks_chain] and [missing_newline_corrupts] of [AuditLogProps], an
    event outside them is published with success, and then marked delivered, though the log no
    longer authenticates it. *)
Theorem accepted_event_never_lost fs0 (w w' : World (L := FS)) id r :
  chained k fs0 → reachable fs0 w → rtc step w w' → outbox (db w) !! id = Some r →
  shown_event (o_ev r) ∈ logged (sink w') ∨
  ∃ r', outbox (db w') !! id = Some r' ∧ o_ev r' = o_ev r ∧ delivered_at r' = None.
Proof. apply (never_lost (SL := log_sink)). Qed.

End SignedLog.

(** ** Witness *)

Module Delivery.
Import AuditLogProps.Toy.
Local Existing Instance log_sink.

Definition ev0 : Ev := mkEv "root" "site.create" "a.example" "".
Definition d1 : DB := insert_event ev0 5 empty_db.
Definition w1 : World (L := AuditLog.FS) := mkWorld d1 fs0 ∅.
Definition w2 : World (L := AuditLog.FS) := mkWorld d1 fs0 {[0%nat := Publishing [(1, ev0)]]}.
Definition w3 : World (L := AuditLog.FS) := mkWorld d1 fs1 {[0%nat := Marking 1 ev0 []]}.
Definition w4 : World (L := AuditLog.FS) := mkWorld (mark_delivered 1 9 d1) fs1 {[0%nat := Publishing []]}.

Lemma start_chained : AuditLogProps.chained k0 fs0.
Proof. split; [vm_compute; reflexivity|done]. Qed.

Lemma w1_reachable : reachable (SL := log_sink k0) fs0 w1.
Proof.
  apply rtc_once. apply (STransaction (SL := log_sink k0) (mkWorld empty_db fs0 ∅) d1).
  - apply (TPersist _ (calm 5 "") ev0 None). vm_compute. reflexivity.
  - intros id r Hr. unfold d1, insert_event in Hr. cbn in Hr. apply lookup_insert_Some in Hr as [[_ <-]|[_ Hr]]; [exact readable_1|by rewrite lookup_empty in Hr].
Qed.

Lemma w1_w4 : rtc (step (SL := log_sink k0)) w1 w4.
Proof.
  eapply rtc_l; [exact (SRead (SL := log_sink k0) w1 0%nat)|]. change (read_pending (db w1)) with (read_pending d1).
  replace (read_pending d1) with [(1, ev0)] by (vm_compute; reflexivity).
  eapply rtc_l; [apply (SPublished (SL := log_sink k0) w2 0%nat (quiet 5) None 1 ev0 [] fs1); [reflexivity|vm_compute; reflexivity|]|].
  { intros f [= <-]. left. vm_compute. reflexivity. }
  apply rtc_once. apply (SMarked (SL := log_sink k0) w3 0%nat 1 ev0 [] 9). reflexivity.
Qed.

Lemma accepted_event_never_lost_witness :
  shown_event ev0 ∈ logged k0 (sink w4) ∨ ∃ r', outbox (db w4) !! 1 = Some r' ∧ o_ev r' = ev0 ∧ delivered_at r' = None.
Proof.
  apply (accepted_event_never_lost k0 fs0 w1 w4 1 (mkOut ev0 5 None 0 None)); [exact start_chained|exact w1_reachable|exact w1_w4|reflexivity].
Defined.

End Delivery.

End AuditOutbox.
