(* ===== verification/Termination.v ===== *)
(** * Termination: deleting a site with a journal

    Models [src/internal/sitelifecycle/termination.go] ([Termination.Run]), the
    journal of [src/site_lifecycle_journal.go] and, from
    [src/site_lifecycle.go], the part of [handleSiteTermination] that loads the
    journal and runs the sequence. The host operations and the audit sink are
    calls that fail or leave an effect; the effects of all attempts form one
    trace. An attempt may fail at every call and the process may be killed
    between any two effects. The second half states the protocol that a trace
    must follow, as an automaton, and shows that every history of attempts
    follows it. *)
From S2P Require Import Prelude GoText.

Module Termination.
Import GoText.

(** ** Steps *)

Definition StepBackupVerified : string := "BACKUP_VERIFIED".
Definition StepDatabasesRemoved : string := "DATABASES_REMOVED".
Definition StepRoutesRemoved : string := "ROUTES_REMOVED".
Definition StepProxiesRemoved : string := "PROXIES_REMOVED".
Definition StepTasksRemoved : string := "TASKS_REMOVED".
Definition StepServicesRemoved : string := "SERVICES_REMOVED".
Definition StepSiteStateRemoved : string := "SITE_STATE_REMOVED".
Definition StepOwnershipRemoved : string := "OWNERSHIP_REMOVED".

Definition TerminationStepOrder : list string :=
  [StepBackupVerified; StepDatabasesRemoved; StepRoutesRemoved; StepProxiesRemoved; StepTasksRemoved; StepServicesRemoved;
   StepSiteStateRemoved; StepOwnershipRemoved].

Definition AuditTerminationInitiated : string := "site.termination.initiated".
Definition AuditSiteTerminated : string := "site.terminated".

(** ** The journal *)

Record terminationJournal := mkJournal { Version : Z; JobID : string; Site : string; Actor : string; StartedAt : Z;
  UpdatedAt : Z; Completed : gmap string bool; BackupPath : string }.
Definition terminationJournalVersion : Z := 1.

Definition validJobIDForJournal (jobID : string) : bool :=
  if bool_decide (jobID = "") || (128 <? len jobID) then false else
  if negb (all_bytes (λ c, one_of "-_:." c || is_lower c || is_upper c || is_digit c) jobID) then false else
  negb (Contains jobID ".." || has_prefix jobID ".").

Definition terminationJournalPath (recoveryRoot jobID : string) : res string :=
  if bool_decide (TrimSpace recoveryRoot = "") then Err (EMsg "recovery root is empty") else
  if negb (validJobIDForJournal jobID) then Err (EMsg "invalid job id for termination journal") else
  Ok ("site-termination-" +:+ jobID +:+ ".json").

Definition isComplete (j : terminationJournal) (step : string) : bool := default false (Completed j !! step).

(** ** Effects *)

(** What an attempt leaves on the host: an audit event, a verified backup, the start
    and the end of a removal, a step written to the journal file, its removal. *)
Inductive Effect :=
  | Audited (action detail : string)
  | BackedUp (path : string)
  | Removing (step : string)
  | Removed (step : string)
  | Journaled (step : string)
  | JournalRemoved.

(** The journal file and the trace; the journal in memory; how many effects happen
    before the process is killed. *)
Record W := mkW { file : option terminationJournal; trace : list Effect }.
Record Proc := mkProc { world : W; mem : terminationJournal; left : nat }.

Inductive Outcome (A : Type) := Done (a : A) | Failed (err : error) | Killed.
Arguments Done {A} a.
Arguments Failed {A} err.
Arguments Killed {A}.

Definition M (A : Type) : Type := Proc → Outcome A * Proc.
Definition ret {A} (a : A) : M A := λ s, (Done a, s).
Definition fails {A} (err : error) : M A := λ s, (Failed err, s).
Definition bind {A B} (m : M A) (k : A → M B) : M B := λ s,
  match m s with (Done a, s') => k a s' | (Failed err, s') => (Failed err, s') | (Killed, s') => (Killed, s') end.
Notation "'let*' x ':=' m 'in' k" := (bind m (λ x, k)) (at level 200, x name, right associativity).
Notation "m ';;;' k" := (bind m (λ _, k)) (at level 199, right associativity).

Definition get_mem : M terminationJournal := λ s, (Done (mem s), s).
Definition set_mem (j : terminationJournal) : M unit := λ s, (Done tt, mkProc (world s) j (left s)).
Definition emit (f : W → W) : M unit := λ s,
  match left s with O => (Killed, s) | S n => (Done tt, mkProc (f (world s)) (mem s) n) end.
Definition log_effect (ef : Effect) (w : W) : W := mkW (file w) (trace w ++ [ef]).
Definition save (j : terminationJournal) (step : string) (w : W) : W := mkW (Some j) (trace w ++ [Journaled step]).
Definition drop_file (w : W) : W := mkW None (trace w ++ [JournalRemoved]).
Definition when_ok (bad : bool) (err : error) : M unit := if bad then fails err else ret tt.

(** ** The operations of the interfaces *)

(** [Auditor.Audit]: an error means the event was not persisted. *)
Definition Audit (e : Env) (n : nat) (action detail : string) : M unit :=
  if fault e n then fails io_err else emit (log_effect (Audited action detail)).

(** [markComplete]: [n], anything up to the replacement of the file fails; [n + 1],
    syncing the directory after it. *)
Definition markComplete (e : Env) (n : nat) (step : string) : M unit :=
  let* j := get_mem in
  let j' := mkJournal (Version j) (JobID j) (Site j) (Actor j) (StartedAt j) (clock e n) (<[step := true]> (Completed j)) (BackupPath j) in
  set_mem j' ;;;
  when_ok (fault e n) io_err ;;;
  emit (save j' step) ;;;
  when_ok (fault e (n + 1)) io_err.

Definition setBackupPath (path : string) : M unit :=
  let* j := get_mem in
  set_mem (mkJournal (Version j) (JobID j) (Site j) (Actor j) (StartedAt j) (UpdatedAt j) (Completed j) path).

(** [cleanup]: [n], removing the file fails; [n + 1], syncing the directory. *)
Definition cleanup (e : Env) (n : nat) : M unit :=
  when_ok (fault e n) io_err ;;;
  emit drop_file ;;;
  when_ok (fault e (n + 1)) io_err.

(** [TerminationHost.VerifiedBackup]. *)
Definition VerifiedBackup (e : Env) : M string :=
  match rand e 0 with
  | None => fails io_err
  | Some path => emit (log_effect (BackedUp path)) ;;; ret path
  end.

(** One removal of [TerminationHost]: it may have removed something when it fails. *)
Definition Remove (e : Env) (n : nat) (step : string) : M unit :=
  emit (log_effect (Removing step)) ;;;
  when_ok (fault e n) io_err ;;;
  emit (log_effect (Removed step)).

(** ** The sequence *)

Definition journal_err (step : string) {A} (m : M A) : M A := λ s,
  match m s with (Failed err, s') => (Failed (EWrap ("journal " +:+ step) err), s') | r => r end.
Definition wrap_err (what : string) {A} (m : M A) : M A := λ s,
  match m s with (Failed err, s') => (Failed (EWrap what err), s') | r => r end.

(** The loop over the teardown steps; step [i] reads the faults [10 * i ...]:
    [+0] the failure drill, [+1] the removal, [+2], [+3] the journal. *)
Fixpoint teardown (e : Env) (i : nat) (steps : list string) : M unit :=
  match steps with
  | [] => ret tt
  | step :: rest =>
      (let* j := get_mem in
       if isComplete j step then ret tt else
       when_ok (fault e (10 * i)) io_err ;;;
       Remove e (10 * i + 1) step ;;;
       journal_err step (markComplete e (10 * i + 2) step)) ;;;
      teardown e (S i) rest
  end.

(** Faults 0 and 1: the initiation event and the drill of stage init; 2: the drill of
    stage backup; 3 and 4: the journal; 5: the prerequisites; 100: the completion
    event; 101 and 102: the removal of the journal. *)
Definition Run (e : Env) (jobID : string) : M string :=
  let* j := get_mem in
  (if isComplete j StepBackupVerified then ret tt
   else wrap_err "record termination initiation" (Audit e 0 AuditTerminationInitiated ("job=" +:+ jobID))) ;;;
  when_ok (fault e 1) io_err ;;;
  let* path :=
    (if isComplete j StepBackupVerified then ret (BackupPath j) else
     when_ok (fault e 2) io_err ;;;
     let* path := VerifiedBackup e in
     setBackupPath path ;;;
     journal_err StepBackupVerified (markComplete e 3 StepBackupVerified) ;;;
     ret path) in
  when_ok (fault e 5) io_err ;;;
  teardown e 1 (tail TerminationStepOrder) ;;;
  wrap_err "record termination completion" (Audit e 100 AuditSiteTerminated ("verified backup=" +:+ path)) ;;;
  wrap_err "cleanup termination journal" (cleanup e 101) ;;;
  ret path.

(** [loadOrCreateTerminationJournal]; fault 200: the directory, 201: reading. *)
Definition loadOrCreateTerminationJournal (e : Env) (recoveryRoot jobID site actor : string) (w : W) : res terminationJournal :=
  match terminationJournalPath recoveryRoot jobID with
  | Err err => Err err
  | Ok _ =>
      if fault e 200 then Err (EWrap "prepare recovery root" io_err) else
      match file w with
      | Some j =>
          if fault e 201 then Err (EWrap "read termination journal" io_err) else
          if negb (Version j =? terminationJournalVersion) || negb (bool_decide (JobID j = jobID)) || negb (bool_decide (Site j = site))
          then Err (EMsg "termination journal for job does not match request") else Ok j
      | None => Ok (mkJournal terminationJournalVersion jobID site actor (clock e 200) (clock e 200) ∅ "")
      end
  end.

(** The end of [handleSiteTermination], the site being locked; the process is killed
    after [kill] effects. *)
Definition handleSiteTermination (e : Env) (kill : nat) (recoveryRoot jobID site actor : string) (w : W) : Outcome string * W :=
  match loadOrCreateTerminationJournal e recoveryRoot jobID site actor w with
  | Err err => (Failed (EWrap "prepare termination journal" err), w)
  | Ok j => let '(r, s) := Run e jobID (mkProc w j kill) in (r, world s)
  end.

(** All attempts of one job: each has its failures and its end. *)
Definition attempts (recoveryRoot jobID site actor : string) (l : list (Env * nat)) (w : W) : W :=
  foldl (λ w a, snd (handleSiteTermination a.1 a.2 recoveryRoot jobID site actor w)) w l.
Definition fresh : W := mkW None [].

(** ** The protocol *)

(** Where a termination stands: recorded as started, its backup (taken, then
    committed), the steps committed, a removal that has ended, recorded as done. *)
Record Proto := mkProto { initiated : bool; backup : option string; committed : list string; removed : option string; finished : bool }.
Definition proto0 : Proto := mkProto false None [] None false.

(** The step that must be done next. *)
Definition next_step (p : Proto) : option string := TerminationStepOrder !! length (committed p).

Definition proto_step (p : Proto) (ef : Effect) : option Proto :=
  match ef with
  | Audited action detail =>
      if bool_decide (action = AuditTerminationInitiated) then
        if bool_decide (committed p = []) then Some (mkProto true (backup p) [] (removed p) false) else None
      else if bool_decide (action = AuditSiteTerminated) then
        if bool_decide (committed p = TerminationStepOrder) && bool_decide (Some detail = (λ b, "verified backup=" +:+ b) <$> backup p)
        then Some (mkProto (initiated p) (backup p) (committed p) None true) else None
      else None
  | BackedUp path => if initiated p && bool_decide (committed p = []) then Some (mkProto true (Some path) [] (Some StepBackupVerified) false) else None
  | Removing step =>
      if bool_decide (committed p ≠ []) && bool_decide (next_step p = Some step)
      then Some (mkProto (initiated p) (backup p) (committed p) None false) else None
  | Removed step =>
      if bool_decide (committed p ≠ []) && bool_decide (next_step p = Some step)
      then Some (mkProto (initiated p) (backup p) (committed p) (Some step) false) else None
  | Journaled step =>
      if bool_decide (removed p = Some step) && bool_decide (next_step p = Some step)
      then Some (mkProto (initiated p) (backup p) (committed p ++ [step]) None false) else None
  | JournalRemoved => None
  end.
Fixpoint proto_run (p : Proto) (tr : list Effect) : option Proto :=
  match tr with
  | [] => Some p
  | ef :: tr => match proto_step p ef with Some p' => proto_run p' tr | None => None end
  end.

(** The lives of the journal that are over: each begins with the first attempt that finds no
    journal, and ends with the removal of the journal after the completion was recorded. *)
Inductive lives : list Effect → Prop :=
  | no_life : lives []
  | one_life before cur p : lives before → proto_run proto0 cur = Some p → finished p = true → lives (before ++ cur ++ [JournalRemoved]).
(** What happened on the host follows the protocol in every life of the journal, and the last
    life is at [p]. *)
Definition live_trace (tr before cur : list Effect) (p : Proto) : Prop :=
  tr = before ++ cur ∧ lives before ∧ proto_run proto0 cur = Some p.

(** In a life: a removal starts only when a backup is committed, and never after its own step
    is. *)
Definition orderly (tr : list Effect) : Prop :=
  ∀ i step, tr !! i = Some (Removing step) → Journaled StepBackupVerified ∈ take i tr ∧ Journaled step ∉ take i tr.
(** A backup is taken before the first removal. *)
Definition backed_up_first (path : string) (tr : list Effect) : Prop :=
  ∃ i, tr !! i = Some (BackedUp path) ∧ ∀ k step, tr !! k = Some (Removing step) → (i < k)%nat.

(** ** The relation between the journal and the protocol *)

Section Job.
Context (root jobID site actor : string).

(** A journal of this job that records the committed steps and the backup. *)
Definition reflects (j : terminationJournal) (p : Proto) : Prop :=
  Version j = terminationJournalVersion ∧ JobID j = jobID ∧ Site j = site ∧
  (∀ step, step ∈ TerminationStepOrder → isComplete j step = bool_decide (step ∈ committed p)) ∧
  (committed p ≠ [] → backup p = Some (BackupPath j)).

(** [past]: the lives that are over. *)
Definition follows_protocol (past : list Effect) (w : W) (p : Proto) : Prop :=
  (∃ cur, live_trace (trace w) past cur p) ∧
  (∃ n, (n ≤ 8)%nat ∧ committed p = take n TerminationStepOrder) ∧
  match file w with
  | None => committed p = []
  | Some j => committed p ≠ [] ∧ reflects j p
  end.
Definition good (w : W) : Prop := ∃ past p, follows_protocol past w p.
Section Life.
Context (past : list Effect).
Definition at_point (p : Proto) (s : Proc) : Prop := follows_protocol past (world s) p ∧ reflects (mem s) p.
Lemma good_at p w : follows_protocol past w p → good w.
Proof. by exists past, p. Qed.

(** [m] started in [P] ends in [Q], or fails or is killed in a good world. *)
Definition triple {A} (P : Proc → Prop) (m : M A) (Q : A → Proc → Prop) : Prop :=
  ∀ s, P s → match m s with (Done a, s') => Q a s' | (_, s') => good (world s') end.

Lemma triple_ret {A} P (a : A) (Q : A → Proc → Prop) : (∀ s, P s → Q a s) → triple P (ret a) Q.
Proof. intros H s Hs. by apply H. Qed.
Lemma triple_bind {A B} P Q R (m : M A) (k : A → M B) :
  triple P m Q → (∀ a, triple (Q a) (k a) R) → triple P (bind m k) R.
Proof.
  intros Hm Hk s Hs. unfold bind. specialize (Hm s Hs). destruct (m s) as [[a|err|] s']; [by apply Hk|done..].
Qed.
Lemma triple_get P (R : Proc → terminationJournal → Prop) :
  triple P get_mem (λ j s, P s ∧ mem s = j).
Proof. by intros s Hs. Qed.
Lemma triple_when p P bad err : (∀ s, P s → at_point p s) → triple P (when_ok bad err) (λ _, P).
Proof. intros H s Hs. unfold when_ok. destruct bad; cbn; [|done]. eapply good_at, H, Hs. Qed.
Lemma triple_wrap {A} P (m : M A) Q what : triple P m Q → triple P (wrap_err what m) Q.
Proof. intros H s Hs. specialize (H s Hs). unfold wrap_err. by destruct (m s) as [[a|err|] s']. Qed.
Lemma triple_journal_err {A} P (m : M A) Q step : triple P m Q → triple P (journal_err step m) Q.
Proof. apply triple_wrap. Qed.
Lemma triple_pre {A} (P P' : Proc → Prop) (m : M A) Q : (∀ s, P' s → P s) → triple P m Q → triple P' m Q.
Proof. intros H Hm s Hs. by apply Hm, H. Qed.

Lemma triple_post {A} P (m : M A) (Q Q' : A → Proc → Prop) : triple P m Q → (∀ a s, Q a s → Q' a s) → triple P m Q'.
Proof. intros Hm H s Hs. specialize (Hm s Hs). destruct (m s) as [[a|err|] s']; auto. Qed.

Lemma proto_run_snoc p tr ef : proto_run p (tr ++ [ef]) = match proto_run p tr with Some p' => proto_step p' ef | None => None end.
Proof.
  revert p. induction tr as [|e tr IH]; intros p; cbn; [by destruct (proto_step p ef)|]. by destruct (proto_step p e).
Qed.

Lemma live_snoc tr p p' ef : (∃ cur, live_trace tr past cur p) → proto_step p ef = Some p' → ∃ cur, live_trace (tr ++ [ef]) past cur p'.
Proof.
  intros (cur & -> & Hb & Hr) Hs. exists (cur ++ [ef]). split; [by rewrite <- app_assoc|]. split; [done|]. by rewrite proto_run_snoc, Hr.
Qed.
Lemma live_removed tr p : (∃ cur, live_trace tr past cur p) → finished p = true → ∃ past' cur, live_trace (tr ++ [JournalRemoved]) past' cur proto0.
Proof.
  intros (cur & -> & Hb & Hr) Hf. exists (past ++ cur ++ [JournalRemoved]), []. split; [by rewrite app_nil_r, <- app_assoc|].
  split; [by eapply one_life|done].
Qed.
Lemma live_once tr before cur p : live_trace tr before cur p → JournalRemoved ∉ tr → before = [].
Proof. intros (-> & Hb & _) Hn. destruct Hb; [done|]. destruct Hn. set_solver. Qed.

Lemma order_NoDup : NoDup TerminationStepOrder.
Proof. refine (bool_decide_eq_true_1 _ _). vm_compute. reflexivity. Qed.
Lemma take_next n step : TerminationStepOrder !! n = Some step → take n TerminationStepOrder ++ [step] = take (S n) TerminationStepOrder.
Proof. intros H. by rewrite (take_S_r _ _ step). Qed.
Lemma orderly_snoc tr ef : orderly tr → (∀ step, ef = Removing step → Journaled StepBackupVerified ∈ tr ∧ Journaled step ∉ tr) → orderly (tr ++ [ef]).
Proof.
  intros Ho He i step [H|[Hi H]]%lookup_app_Some.
  - rewrite take_app_le by (apply lookup_lt_Some in H; lia). by apply Ho.
  - assert (i = length tr) as -> by (apply list_lookup_singleton_Some in H as [? _]; lia). rewrite Nat.sub_diag in H. injection H as ->.
    rewrite take_app_length. by apply He.
Qed.
Lemma backed_snoc b tr ef : backed_up_first b tr → backed_up_first b (tr ++ [ef]).
Proof.
  intros (i & Hi & Hb). pose proof (lookup_lt_Some _ _ _ Hi) as Hlt. exists i. split; [by rewrite lookup_app_l|].
  intros k step [H|[Hk _]]%lookup_app_Some; [by eapply Hb|lia].
Qed.
(** What a state of the protocol says about the trace of its life. *)
Record recounts (tr : list Effect) (p : Proto) : Prop := {
  rc_committed : ∀ step, Journaled step ∈ tr ↔ step ∈ committed p;
  rc_prefix : ∃ n, committed p = take n TerminationStepOrder;
  rc_orderly : orderly tr;
  rc_unremoved : committed p = [] → ∀ step, Removing step ∉ tr;
  rc_backup : ∀ b, backup p = Some b → backed_up_first b tr }.
Lemma next_uncommitted p step : (∃ n, committed p = take n TerminationStepOrder) → next_step p = Some step → step ∉ committed p.
Proof.
  intros [n Hc] Hs Hin. unfold next_step in Hs. rewrite Hc in Hs, Hin. apply list_elem_of_lookup in Hin as [k Hk]. pose proof (lookup_lt_Some _ _ _ Hk) as Hlt.
  apply lookup_take_Some in Hk as [Hk _]. rewrite (NoDup_lookup _ _ _ _ order_NoDup Hk Hs) in Hlt. lia.
Qed.
Lemma backup_committed p : (∃ n, committed p = take n TerminationStepOrder) → committed p ≠ [] → StepBackupVerified ∈ committed p.
Proof. intros [[|n] Hc] H; rewrite Hc in *; [done|]. unfold TerminationStepOrder. cbn [take]. set_solver. Qed.
Lemma recounts_step tr p ef p' : recounts tr p → proto_step p ef = Some p' → recounts (tr ++ [ef]) p'.
Proof.
  intros [H1 H2 H3 H4 H5] Hs.
  assert (∀ step, ef = Removing step → committed p ≠ [] ∧ next_step p = Some step) as Hrem.
  { intros step ->. cbn in Hs. destruct (_ && _) eqn:E; [|done]. by apply andb_true_iff in E as [?%bool_decide_eq_true ?%bool_decide_eq_true]. }
  assert (orderly (tr ++ [ef])) as Ho.
  { apply orderly_snoc; [done|]. intros step E. destruct (Hrem step E) as [Hne Hn]. rewrite !H1. split; [by apply backup_committed|by apply next_uncommitted]. }
  destruct ef as [a d|b|step|step|step|]; cbn [proto_step] in Hs; [| | | | |done].
  - assert (committed p' = committed p ∧ backup p' = backup p) as [Ec Eb].
    { destruct (bool_decide (a = _)); [case_bool_decide as E; [|done]; injection Hs as <-; by rewrite E|].
      destruct (bool_decide (a = _)); [|done]. destruct (_ && _); [|done]. by injection Hs as <-. }
    split; rewrite ?Ec, ?Eb; [intros x; specialize (H1 x); set_solver|done|done|intros E x; specialize (H4 E x); set_solver|auto using backed_snoc].
  - destruct (_ && _) eqn:E; [|done]. injection Hs as <-. apply andb_true_iff in E as [_ E%bool_decide_eq_true]. rewrite E in *.
    split; cbn [committed backup]; [intros x; specialize (H1 x); set_solver|done|done|intros _ x; specialize (H4 eq_refl x); set_solver|].
    intros ? [= <-]. exists (length tr). split; [by rewrite lookup_app_r, Nat.sub_diag by done|]. intros k x [Hk|[Hk Hx]]%lookup_app_Some.
    + destruct (H4 eq_refl x). by eapply list_elem_of_lookup_2.
    + by apply list_lookup_singleton_Some in Hx as [_ ?].
  - destruct (_ && _) eqn:E; [|done]. injection Hs as <-. apply andb_true_iff in E as [E%bool_decide_eq_true _].
    split; cbn [committed backup]; [intros x; specialize (H1 x); set_solver|done|done|done|auto using backed_snoc].
  - destruct (_ && _) eqn:E; [|done]. injection Hs as <-. apply andb_true_iff in E as [E%bool_decide_eq_true _].
    split; cbn [committed backup]; [intros x; specialize (H1 x); set_solver|done|done|done|auto using backed_snoc].
  - destruct (_ && _) eqn:E; [|done]. injection Hs as <-. apply andb_true_iff in E as [_ E%bool_decide_eq_true].
    split; cbn [committed backup]; [intros x; specialize (H1 x); set_solver| |done|by destruct (committed p)|auto using backed_snoc].
    destruct H2 as [n Hc]. unfold next_step in E. pose proof (lookup_lt_Some _ _ _ E) as Hlt. exists (S (length (committed p))). rewrite <- take_next with (1 := E).
    f_equal. rewrite Hc, length_take. destruct (Nat.min_spec n (length TerminationStepOrder)) as [[_ ->]|[? ->]]; [done|by rewrite !take_ge].
Qed.
Lemma recounts_run tr p : proto_run proto0 tr = Some p → recounts tr p.
Proof.
  revert p. induction tr as [|ef tr IH] using rev_ind; intros p.
  - intros [= <-]. split; cbn; [set_solver|by exists 0%nat|by intros ? ?|set_solver|done].
  - rewrite proto_run_snoc. destruct (proto_run proto0 tr) as [p0|]; [|done]. by apply recounts_step, IH.
Qed.

Lemma reflects_eq j p p' : committed p' = committed p → (committed p ≠ [] → backup p' = backup p) → reflects j p → reflects j p'.
Proof. intros E Eb (H1 & H2 & H3 & H4 & H5). unfold reflects. rewrite E. split_and!; auto. intros Hn. rewrite Eb; auto. Qed.

(** An effect that commits nothing. *)
Lemma triple_log p p' ef :
  proto_step p ef = Some p' → committed p' = committed p → (committed p ≠ [] → backup p' = backup p) →
  triple (at_point p) (emit (log_effect ef)) (λ _, at_point p').
Proof.
  intros Hs E Eb s [(Hr & Hn & Hf) Hm]. unfold emit. destruct (left s) as [|n]; [by apply (good_at p)|].
  split; [|by eapply reflects_eq]. cbn. split; [|split; [by rewrite E|]].
  - by eapply live_snoc.
  - cbn. destruct (file (world s)) as [j|]; rewrite E; [|done]. destruct Hf. split; [done|]. by eapply reflects_eq.
Qed.

Lemma isComplete_insert j step x v ua bp :
  isComplete (mkJournal (Version j) (JobID j) (Site j) (Actor j) (StartedAt j) ua (<[step := v]> (Completed j)) bp) x =
  if bool_decide (x = step) then v else isComplete j x.
Proof.
  unfold isComplete. cbn. case_bool_decide as E; [by subst; rewrite lookup_insert_eq|]. by rewrite lookup_insert_ne.
Qed.

(** Committing the step whose work has just ended. *)
Lemma triple_commit e n p step :
  removed p = Some step → next_step p = Some step → is_Some (backup p) →
  triple (λ s, follows_protocol past (world s) p ∧ reflects (mem s) p ∧ backup p = Some (BackupPath (mem s)))
    (markComplete e n step)
    (λ _, at_point (mkProto (initiated p) (backup p) (committed p ++ [step]) None false)).
Proof.
  intros Hrem Hnext [b Hb] s (Hw & Hj & Hbp). pose proof Hw as (Hr & (m & Hm & Hc) & Hf).
  set (p' := mkProto _ _ _ _ _).
  unfold markComplete, bind, get_mem, set_mem, when_ok, emit.
  set (j' := mkJournal _ _ _ _ _ _ _ _).
  assert (Hlen : length (committed p) = m).
  { rewrite Hc, length_take. change (length TerminationStepOrder) with 8%nat. lia. }
  assert (Hm8 : (m < 8)%nat). { unfold next_step in Hnext. apply lookup_lt_Some in Hnext. rewrite Hlen in Hnext. exact Hnext. }
  assert (Hj' : reflects j' p').
  { destruct Hj as (H1 & H2 & H3 & H4 & H5). unfold reflects. cbn [j' p' Version JobID Site committed backup BackupPath].
    split_and!; auto. intros x Hx. unfold j'. rewrite isComplete_insert, H4 by done.
    case_bool_decide as E; [subst x; by rewrite bool_decide_true by set_solver|].
    apply bool_decide_ext. set_solver. }
  assert (Hstep : proto_step p (Journaled step) = Some p').
  { cbn. by rewrite !bool_decide_true by done. }
  destruct (fault e n); [cbn; by apply (good_at p)|]. cbn [world mem left].
  destruct (left s) as [|l]; cbn [world]; [by apply (good_at p)|].
  assert (Hfp : follows_protocol past (save j' step (world s)) p').
  { split; [by eapply live_snoc|]. split.
    - exists (S m). split; [lia|]. cbn. rewrite Hc. apply take_next. unfold next_step in Hnext. by rewrite Hlen in Hnext.
    - cbn [save file]. split; [|done]. cbn. by destruct (committed p). }
  destruct (fault e (n + 1)); cbn; [by apply (good_at p')|by split].
Qed.

Lemma triple_remove e n p step :
  committed p ≠ [] → next_step p = Some step →
  triple (at_point p) (Remove e n step) (λ _, at_point (mkProto (initiated p) (backup p) (committed p) (Some step) false)).
Proof.
  intros Hne Hn. unfold Remove. set (p1 := mkProto (initiated p) (backup p) (committed p) None false).
  eapply triple_bind; [apply (triple_log p p1); [|done..]|].
  { cbn. by rewrite !bool_decide_true by done. }
  intros ?. eapply triple_bind; [by apply (triple_when p1)|]. intros ?.
  apply triple_log; [|done..]. cbn. by rewrite !bool_decide_true by done.
Qed.

(** One removal with its journal entry. *)
Lemma triple_step e n p step :
  committed p ≠ [] → next_step p = Some step →
  triple (at_point p)
    (when_ok (fault e (10 * n)) io_err ;;; Remove e (10 * n + 1) step ;;; journal_err step (markComplete e (10 * n + 2) step))
    (λ _, at_point (mkProto (initiated p) (backup p) (committed p ++ [step]) None false)).
Proof.
  intros Hne Hn. eapply triple_bind; [by apply (triple_when p)|]. intros ?.
  eapply triple_bind; [by apply triple_remove|]. intros ?. apply triple_journal_err.
  set (p1 := mkProto (initiated p) (backup p) (committed p) (Some step) false).
  intros s [Hw Hm]. assert (Hb : backup p1 = Some (BackupPath (mem s))) by (destruct Hm as (_ & _ & _ & _ & H5); auto).
  apply (triple_commit e (10 * n + 2) p1 step); [done|done|by rewrite Hb|done].
Qed.

(** From step [i] on, with everything before it committed. *)
Lemma triple_teardown e b i steps :
  steps = drop i TerminationStepOrder → (1 ≤ i)%nat →
  triple (λ s, ∃ p m, (i ≤ m ≤ 8)%nat ∧ committed p = take m TerminationStepOrder ∧ backup p = b ∧ at_point p s)
    (teardown e i steps)
    (λ _ s, ∃ p, committed p = TerminationStepOrder ∧ backup p = b ∧ at_point p s).
Proof.
  revert i. induction steps as [|step rest IH]; intros i Hs Hi; cbn [teardown].
  - apply triple_ret. intros s (p & m & Hm & Hc & Hb & Hp). exists p. split; [|done]. rewrite Hc, take_ge; [done|].
    apply (f_equal length) in Hs. rewrite length_drop in Hs. cbn [length] in Hs. lia.
  - assert (Hst : TerminationStepOrder !! i = Some step).
    { rewrite <- (Nat.add_0_r i), <- lookup_drop, <- Hs. done. }
    assert (Hrest : rest = drop (S i) TerminationStepOrder).
    { by rewrite <- Nat.add_1_r, <- drop_drop, <- Hs. }
    assert (Hi8 : (i < 8)%nat) by exact (lookup_lt_Some _ _ _ Hst).
    apply triple_bind with (λ _ s, ∃ p m, (S i ≤ m ≤ 8)%nat ∧ committed p = take m TerminationStepOrder ∧ backup p = b ∧ at_point p s);
      [|intros ?; apply IH; [done|lia]].
    intros s (p & m & Hm & Hc & Hb & Hp). unfold bind at 1, get_mem.
    assert (Hin : isComplete (mem s) step = bool_decide (step ∈ committed p)).
    { destruct Hp as [_ (_ & _ & _ & H4 & _)]. apply H4. by eapply list_elem_of_lookup_2. }
    rewrite Hin. case_bool_decide as Hcase.
    + cbn. exists p, m. assert (m ≠ i); [|split_and!; done || lia]. intros ->.
      rewrite Hc in Hcase. apply list_elem_of_lookup in Hcase as [k Hk]. apply lookup_take_Some in Hk as [Hk Hlt].
      assert (k = i) by (eapply NoDup_lookup; [apply order_NoDup|done..]). lia.
    + assert (m = i) as ->.
      { destruct (decide (m = i)); [done|]. exfalso. apply Hcase. rewrite Hc. apply (list_elem_of_lookup_2 _ i).
        rewrite lookup_take_lt by lia. exact Hst. }
      assert (Hlen : length (committed p) = i) by (rewrite Hc, length_take; change (length TerminationStepOrder) with 8%nat; lia).
      assert (Hnext : next_step p = Some step) by (unfold next_step; by rewrite Hlen).
      assert (Hne : committed p ≠ []) by (intros E; rewrite E in Hlen; cbn in Hlen; lia).
      refine (triple_post _ _ _ _ (triple_step e i p step Hne Hnext) _ s Hp). intros _ s' Hs'.
      exists (mkProto (initiated p) (backup p) (committed p ++ [step]) None false), (S i).
      split_and!; [lia|lia| |exact Hb|exact Hs']. cbn. rewrite Hc. by apply take_next.
Qed.

(** What a successful run leaves: the completion recorded, the journal gone. *)
Definition completed (path : string) (w : W) : Prop :=
  good w ∧ file w = None ∧
  ∃ tr cur p, trace w = tr ++ [Audited AuditSiteTerminated ("verified backup=" +:+ path); JournalRemoved] ∧ live_trace tr past cur p ∧
    committed p = TerminationStepOrder ∧ backup p = Some path.

(** The end of [Run], after the backup has been committed. *)
Lemma triple_tail e path :
  triple (λ s, ∃ p m, (1 ≤ m ≤ 8)%nat ∧ committed p = take m TerminationStepOrder ∧ backup p = Some path ∧ at_point p s)
    (when_ok (fault e 5) io_err ;;; teardown e 1 (tail TerminationStepOrder) ;;;
     wrap_err "record termination completion" (Audit e 100 AuditSiteTerminated ("verified backup=" +:+ path)) ;;;
     wrap_err "cleanup termination journal" (cleanup e 101) ;;; ret path)
    (λ r s, completed r (world s)).
Proof.
  eapply triple_bind with (λ _ s, ∃ p m, (1 ≤ m ≤ 8)%nat ∧ committed p = take m TerminationStepOrder ∧ backup p = Some path ∧ at_point p s).
  { intros s (p & m & Hm & Hc & Hb & Hp). unfold when_ok. destruct (fault e 5); cbn; [apply (good_at p), Hp | by exists p, m]. }
  intros ?. eapply triple_bind; [by apply (triple_teardown e (Some path) 1)|].
  intros ? s (p & Hc & Hb & (Hr & Hn & Hf) & Hm). unfold bind, wrap_err, Audit, when_ok, cleanup, emit.
  assert (Hg : follows_protocol past (world s) p) by done.
  destruct (fault e 100); cbn [fails]; [by apply (good_at p)|]. destruct (left s) as [|l]; [by apply (good_at p)|]. cbn [world].
  set (p1 := mkProto (initiated p) (backup p) (committed p) None true).
  assert (Hs : proto_step p (Audited AuditSiteTerminated ("verified backup=" +:+ path)) = Some p1).
  { cbn [proto_step]. rewrite bool_decide_false, Hb, !bool_decide_true by done. by unfold p1; rewrite Hb. }
  assert (Hg1 : follows_protocol past (log_effect (Audited AuditSiteTerminated ("verified backup=" +:+ path)) (world s)) p1).
  { split; [by eapply live_snoc|]. split; [done|]. cbn. destruct (file (world s)); [|done].
    destruct Hf. split; [done|]. by apply (reflects_eq _ p). }
  destruct (fault e 101); cbn [fails ret]; [by apply (good_at p1)|]. cbn [left mem world]. destruct l as [|l]; cbn [world]; [by apply (good_at p1)|].
  assert (Hg0 : good (drop_file (log_effect (Audited AuditSiteTerminated ("verified backup=" +:+ path)) (world s)))).
  { destruct Hg1 as [Hr1 _]. destruct (live_removed _ p1 Hr1 eq_refl) as (past' & Hl). exists past', proto0. split; [done|]. split; [|done]. by exists 0%nat; split; [lia|]. }
  destruct (fault e (101 + 1)); cbn [fails ret]; [done|]. split; [done|]. split; [done|].
  destruct Hr as [cur Hr]. exists (trace (world s)), cur, p. split; [|done]. cbn. by rewrite <- app_assoc.
Qed.

Lemma at_point_backup p s :
  at_point p s → isComplete (mem s) StepBackupVerified = true → ∃ m, (1 ≤ m ≤ 8)%nat ∧ committed p = take m TerminationStepOrder ∧ backup p = Some (BackupPath (mem s)).
Proof.
  intros [(Hr & (m & Hm & Hc) & _) (_ & _ & _ & H4 & H5)] Hi. rewrite H4 in Hi by (unfold TerminationStepOrder; set_solver).
  apply bool_decide_eq_true in Hi. exists m. destruct m as [|m]; [by rewrite Hc in Hi; apply not_elem_of_nil in Hi|].
  split_and!; [lia|lia|done|]. apply H5. intros E. rewrite E in Hi. by apply not_elem_of_nil in Hi.
Qed.

Lemma at_point_no_backup p s : at_point p s → isComplete (mem s) StepBackupVerified = false → committed p = [].
Proof.
  intros [(Hr & (m & Hm & Hc) & _) (_ & _ & _ & H4 & _)] Hi. rewrite H4 in Hi by (unfold TerminationStepOrder; set_solver).
  apply bool_decide_eq_false in Hi. destruct m as [|m]; [done|]. exfalso. apply Hi. rewrite Hc. unfold TerminationStepOrder. cbn [take]. set_solver.
Qed.

(** The backup gate. *)
Lemma triple_backup e p :
  committed p = [] → initiated p = true →
  triple (at_point p)
    (when_ok (fault e 2) io_err ;;;
     let* path := VerifiedBackup e in
     setBackupPath path ;;; journal_err StepBackupVerified (markComplete e 3 StepBackupVerified) ;;; ret path)
    (λ path s, ∃ p' m, (1 ≤ m ≤ 8)%nat ∧ committed p' = take m TerminationStepOrder ∧ backup p' = Some path ∧ at_point p' s).
Proof.
  intros Hc Hi. eapply triple_bind; [by apply (triple_when p)|]. intros ?.
  set (p2 := λ path, mkProto true (Some path) [] (Some StepBackupVerified) false).
  apply triple_bind with (λ path, at_point (p2 path)).
  { unfold VerifiedBackup. destruct (rand e 0) as [path|]; [|by intros s Hs; apply (good_at p), Hs].
    eapply triple_bind; [apply (triple_log p (p2 path)); [cbn; by rewrite Hi, bool_decide_true|by rewrite Hc|by rewrite Hc]|].
    intros ?. by apply triple_ret. }
  intros path. apply triple_bind with (λ _ s, follows_protocol past (world s) (p2 path) ∧ reflects (mem s) (p2 path) ∧ backup (p2 path) = Some (BackupPath (mem s))).
  { intros s [Hw (H1 & H2 & H3 & H4 & H5)]. cbn. split_and!; [done| |done]. by split_and!. }
  intros ?. eapply triple_bind; [apply triple_journal_err, (triple_commit e 3 (p2 path)); done|].
  intros ?. apply triple_ret. intros s Hs. eexists _, 1%nat. split_and!; [lia|lia| | |exact Hs]; done.
Qed.

Lemma triple_Run e : triple (λ s, ∃ p, at_point p s) (Run e jobID) (λ path s, completed path (world s)).
Proof.
  intros s (p & Hp). unfold Run, bind at 1, get_mem.
  destruct (isComplete (mem s) StepBackupVerified) eqn:Ec.
  - destruct (at_point_backup p s Hp Ec) as (m & Hm & Hc & Hb).
    refine (triple_bind (λ s', s' = s) (λ _ s', s' = s) _ _ _ _ _ s eq_refl); [by apply triple_ret|]. intros ?.
    eapply triple_bind; [apply (triple_when p); by intros s' ->|]. intros ?.
    eapply triple_bind; [|apply triple_tail]. apply triple_ret. intros s' ->. by exists p, m.
  - pose proof (at_point_no_backup p s Hp Ec) as Hc.
    set (p1 := mkProto true (backup p) [] (removed p) false).
    refine (triple_bind (at_point p) (λ _, at_point p1) _ _ _ _ _ s Hp).
    { apply triple_wrap. unfold Audit. destruct (fault e 0); [intros s' Hs'; apply (good_at p), Hs'|].
      apply triple_log; [cbn [proto_step]; by rewrite !bool_decide_true|by rewrite Hc|done]. }
    intros ?. eapply triple_bind; [by apply (triple_when p1)|]. intros ?.
    eapply triple_bind; [by apply (triple_backup e p1)|apply triple_tail].
Qed.
End Life.

(** Every attempt keeps the world good. *)
Lemma attempt_good e kill past p w :
  follows_protocol past w p → good (snd (handleSiteTermination e kill root jobID site actor w)) ∧
  ∀ path, fst (handleSiteTermination e kill root jobID site actor w) = Done path →
    completed past path (snd (handleSiteTermination e kill root jobID site actor w)).
Proof.
  intros Hw. unfold handleSiteTermination.
  destruct (loadOrCreateTerminationJournal e root jobID site actor w) as [j|] eqn:El; [|by split; [exists past, p|]].
  assert (Hp : at_point past p (mkProc w j kill)).
  { split; [done|]. cbn. destruct Hw as (_ & _ & Hf). unfold loadOrCreateTerminationJournal in El.
    destruct (terminationJournalPath root jobID); [|done]. case_if; [done|]. destruct (file w) as [j'|].
    - do 2 (case_if; [done|]). injection El as <-. apply Hf.
    - injection El as <-. split_and!; try done.
      intros step _. rewrite Hf. cbn. rewrite bool_decide_false; [done|]. apply not_elem_of_nil. }
  pose proof (triple_Run past e (mkProc w j kill) (ex_intro _ p Hp)) as Hrun.
  destruct (Run e jobID (mkProc w j kill)) as [[path|err|] s]; cbn; [|by split..].
  split; [apply Hrun|]. by intros ? [= <-].
Qed.

Lemma attempts_good l w : good w → good (attempts root jobID site actor l w).
Proof. revert w. induction l as [|[e kill] l IH]; intros w (past & p & Hw); [by exists past, p|]. cbn. apply IH. by apply (attempt_good e kill past p w Hw). Qed.

Lemma good_fresh : good fresh.
Proof.
  exists [], proto0. split; [exists []; split; [done|]; split; [constructor|done]|]. split; [|done]. exists 0%nat. split; [lia|done].
Qed.

(** C30: Whatever attempts are made to terminate a site, with any call failing and the
    process killed between any two effects, what they leave on the host follows the
    termination protocol in every life of the journal, from the first attempt that finds no
    journal to the removal of the journal: the initiation is recorded first; nothing is removed
    before a backup was verified and journaled; the removals happen in the fixed order; each of
    them is journaled only when it has ended and is not started again in that life; the
    completion is recorded with the path of that backup when all steps are committed, and only
    then is the journal removed. The journal on disk always records exactly the steps committed
    in its life. There is one life only as long as no attempt has removed the journal; an
    attempt made after that starts over, as [cleanup_fault_restarts] below shows. *)
Theorem attempts_follow_protocol l :
  let w := attempts root jobID site actor l fresh in
  ∃ before cur p, live_trace (trace w) before cur p ∧ orderly cur ∧ (JournalRemoved ∉ trace w → before = []) ∧
    match file w with
    | None => committed p = []
    | Some j => backup p = Some (BackupPath j) ∧
        ∀ step, step ∈ TerminationStepOrder → isComplete j step = bool_decide (step ∈ committed p)
    end.
Proof.
  cbv zeta. destruct (attempts_good l fresh good_fresh) as (before & p & (cur & Hr) & _ & Hf). exists before, cur, p.
  split; [done|]. split; [by eapply rc_orderly, recounts_run, Hr|]. split; [by eapply live_once|].
  destruct (file _) as [j|]; [|done]. destruct Hf as (Hne & _ & _ & _ & H4 & H5). auto.
Qed.

(** ** Completion *)

(** [m] succeeds when at least [n] more effects happen, and uses no more of them. *)
Definition progress {A} (n : nat) (m : M A) : Prop :=
  ∀ s, (n ≤ left s)%nat → ∃ a s', m s = (Done a, s') ∧ (left s ≤ left s' + n)%nat.
Lemma progress_ret {A} (a : A) : progress 0 (ret a).
Proof. intros s _. exists a, s. split; [done|lia]. Qed.
Lemma progress_bind {A B} n k (m : M A) (f : A → M B) : progress n m → (∀ a, progress k (f a)) → progress (n + k) (bind m f).
Proof.
  intros Hm Hf s Hs. destruct (Hm s) as (a & s1 & E & H1); [lia|]. destruct (Hf a s1) as (b & s2 & E2 & H2); [lia|].
  exists b, s2. unfold bind. rewrite E. split; [done|lia].
Qed.
Lemma progress_emit f : progress 1 (emit f).
Proof. intros s Hs. unfold emit. destruct (left s) as [|n] eqn:E; [lia|]. eexists _, _. split; [done|]. cbn. lia. Qed.
Lemma progress_get : progress 0 get_mem.
Proof. intros s _. eexists _, _. split; [done|lia]. Qed.
Lemma progress_set j : progress 0 (set_mem j).
Proof. intros s _. eexists _, _. split; [done|cbn; lia]. Qed.
Lemma progress_wrap {A} n (m : M A) what : progress n m → progress n (wrap_err what m).
Proof. intros H s Hs. destruct (H s Hs) as (a & s' & E & ?). exists a, s'. unfold wrap_err. by rewrite E. Qed.
Lemma progress_weaken {A} n k (m : M A) : progress n m → (n ≤ k)%nat → progress k m.
Proof. intros H Hk s Hs. destruct (H s) as (a & s' & E & ?); [lia|]. exists a, s'. split; [done|lia]. Qed.

Section Calm.
Context (e : Env) (Hcalm : ∀ n, fault e n = false).

Lemma progress_when n err : progress 0 (when_ok (fault e n) err).
Proof. rewrite Hcalm. apply progress_ret. Qed.
Lemma progress_mark n step : progress 1 (markComplete e n step).
Proof.
  unfold markComplete. apply (progress_bind 0 1); [apply progress_get|]. intros j.
  apply (progress_bind 0 1); [apply progress_set|]. intros _. apply (progress_bind 0 1); [apply progress_when|]. intros _.
  apply (progress_bind 1 0); [apply progress_emit|]. intros _. apply progress_when.
Qed.
Lemma progress_remove n step : progress 2 (Remove e n step).
Proof.
  unfold Remove. apply (progress_bind 1 1); [apply progress_emit|]. intros _.
  apply (progress_bind 0 1); [apply progress_when|]. intros _. apply progress_emit.
Qed.
Lemma progress_teardown i steps : progress (3 * length steps) (teardown e i steps).
Proof.
  revert i. induction steps as [|step rest IH]; intros i; cbn [teardown length]; [apply progress_ret|].
  eapply progress_weaken; [apply (progress_bind 3 (3 * length rest)); [|intros _; apply IH]|lia].
  apply (progress_bind 0 3); [apply progress_get|]. intros j. destruct (isComplete j step).
  { eapply progress_weaken; [apply progress_ret|lia]. }
  apply (progress_bind 0 3); [apply progress_when|]. intros _. apply (progress_bind 2 1); [apply progress_remove|].
  intros _. apply progress_wrap, progress_mark.
Qed.
Lemma progress_audit n action detail : progress 1 (Audit e n action detail).
Proof. unfold Audit. rewrite Hcalm. apply progress_emit. Qed.

Lemma progress_Run path : rand e 0 = Some path → progress 26 (Run e jobID).
Proof.
  intros Hr. unfold Run. apply (progress_bind 0 26); [apply progress_get|]. intros j.
  apply (progress_bind 1 25).
  { destruct (isComplete j StepBackupVerified); [eapply progress_weaken; [apply progress_ret|lia]|].
    apply progress_wrap, progress_audit. }
  intros _. apply (progress_bind 0 25); [apply progress_when|]. intros _. apply (progress_bind 2 23).
  { destruct (isComplete j StepBackupVerified); [eapply progress_weaken; [apply progress_ret|lia]|].
    apply (progress_bind 0 2); [apply progress_when|]. intros _. apply (progress_bind 1 1).
    - unfold VerifiedBackup. rewrite Hr. apply (progress_bind 1 0); [apply progress_emit|]. intros _. apply progress_ret.
    - intros p. apply (progress_bind 0 1); [apply (progress_bind 0 0); [apply progress_get|]; intros; apply progress_set|].
      intros _. apply (progress_bind 1 0); [apply progress_wrap, progress_mark|]. intros _. apply progress_ret. }
  intros p. apply (progress_bind 0 23); [apply progress_when|]. intros _.
  apply (progress_bind 21 2); [exact (progress_teardown 1 (tail TerminationStepOrder))|]. intros _.
  apply (progress_bind 1 1); [apply progress_wrap, progress_audit|]. intros _.
  apply (progress_bind 1 0); [|intros _; apply progress_ret]. apply progress_wrap.
  apply (progress_bind 0 1); [apply progress_when|]. intros _. apply (progress_bind 1 0); [apply progress_emit|]. intros _. apply progress_when.
Qed.

End Calm.

(** C31: Termination rolls forward: after any history of failed and killed attempts, one
    attempt in which nothing fails completes the termination. Its last effects are the record
    of the completion with the path it returns and the removal of the journal. In the last life
    of the journal, which is the whole history as long as no attempt before has removed the
    journal, every step was committed before them and the backup at that path was taken and
    committed before anything was removed. When an attempt had removed the journal and failed
    all the same, so that the termination starts over, the backup that is returned is of what
    was left by then. *)
Theorem termination_completes l e kill path0 :
  is_ok (terminationJournalPath root jobID) = true → (∀ n, fault e n = false) → rand e 0 = Some path0 → (26 ≤ kill)%nat →
  let w := attempts root jobID site actor l fresh in
  ∃ path w' before cur p, handleSiteTermination e kill root jobID site actor w = (Done path, w') ∧ file w' = None ∧
    trace w' = (before ++ cur) ++ [Audited AuditSiteTerminated ("verified backup=" +:+ path); JournalRemoved] ∧
    live_trace (before ++ cur) before cur p ∧ (JournalRemoved ∉ trace w → before = []) ∧
    committed p = TerminationStepOrder ∧ (∀ step, step ∈ TerminationStepOrder → Journaled step ∈ cur) ∧
    orderly cur ∧ backed_up_first path cur.
Proof.
  intros Hpath Hcalm Hr Hkill w. destruct (attempts_good l fresh good_fresh) as (before & p & Hp). fold w in Hp.
  destruct (attempt_good e kill before p w Hp) as [_ Hd]. unfold handleSiteTermination in *.
  assert (∃ j, loadOrCreateTerminationJournal e root jobID site actor w = Ok j) as [j Hj].
  { unfold loadOrCreateTerminationJournal. destruct (terminationJournalPath root jobID); [|done]. rewrite !Hcalm.
    destruct Hp as (_ & _ & Hf). destruct (file w) as [j|]; [|eauto]. destruct Hf as (_ & H1 & H2 & H3 & _).
    rewrite H1, H2, H3, !bool_decide_true by done. cbn. eauto. }
  rewrite Hj in *. destruct (progress_Run e Hcalm path0 Hr (mkProc w j kill)) as (path & s & E & _); [cbn; lia|].
  rewrite E in *. destruct (Hd path eq_refl) as (_ & Hf & tr & cur & p' & Htr & (-> & Hb & Hrun) & Hc & Hbk).
  pose proof (recounts_run cur p' Hrun) as Hrc. exists path, (world s), before, cur, p'. split_and!; try done.
  - destruct Hp as [[cur0 Hl] _]. by eapply live_once.
  - intros step Hs. apply (rc_committed _ _ Hrc). by rewrite Hc.
  - apply Hrc.
  - by apply (rc_backup _ _ Hrc).
Qed.

End Job.

(** ** Witnesses *)

Definition crash_env : Env := mkEnv (λ _, 5) (λ n, Nat.eqb n 31) (λ _, Some "b1").

(** Three attempts: killed after four effects, a failed removal, killed again. *)
Definition history : list (Env * nat) := [(calm 1 "b0", 4%nat); (crash_env, 100%nat); (calm 3 "b2", 2%nat)].

Example history_trace :
  trace (attempts "/recovery" "job-1" "blog" "admin" history fresh) =
  [Audited AuditTerminationInitiated "job=job-1"; BackedUp "b0"; Journaled StepBackupVerified; Removing StepDatabasesRemoved;
   Removing StepDatabasesRemoved; Removed StepDatabasesRemoved; Journaled StepDatabasesRemoved;
   Removing StepRoutesRemoved; Removed StepRoutesRemoved; Journaled StepRoutesRemoved; Removing StepProxiesRemoved;
   Removing StepProxiesRemoved; Removed StepProxiesRemoved].
Proof. vm_compute. reflexivity. Qed.

Lemma termination_completes_witness :
  let w := attempts "/recovery" "job-1" "blog" "admin" history fresh in
  ∃ path w' before cur p, handleSiteTermination (calm 9 "b9") 26 "/recovery" "job-1" "blog" "admin" w = (Done path, w') ∧ file w' = None ∧
    trace w' = (before ++ cur) ++ [Audited AuditSiteTerminated ("verified backup=" +:+ path); JournalRemoved] ∧
    live_trace (before ++ cur) before cur p ∧ (JournalRemoved ∉ trace w → before = []) ∧
    committed p = TerminationStepOrder ∧ (∀ step, step ∈ TerminationStepOrder → Journaled step ∈ cur) ∧
    orderly cur ∧ backed_up_first path cur.
Proof.
  apply (termination_completes "/recovery" "job-1" "blog" "admin" history (calm 9 "b9") 26 "b9");
    [vm_compute; reflexivity | done | done | lia].
Defined.

(** When the journal file was removed but syncing its directory failed, the attempt is
    reported as failed, and the next one starts over: it records a new initiation and
    removes everything again, although the termination was complete and recorded. *)
Example cleanup_fault_restarts :
  let e := mkEnv (λ _, 5) (λ n, Nat.eqb n 102) (λ _, Some "b0") in
  let '(r1, w1) := handleSiteTermination e 100 "/recovery" "job-1" "blog" "admin" fresh in
  let '(r2, w2) := handleSiteTermination (calm 9 "b9") 100 "/recovery" "job-1" "blog" "admin" w1 in
  match r1 with Failed _ => True | _ => False end ∧
  trace w1 !! 25%nat = Some JournalRemoved ∧ drop 26 (trace w2) !! 0%nat = Some (Audited AuditTerminationInitiated "job=job-1") ∧
  Removing StepDatabasesRemoved ∈ drop 26 (trace w2).
Proof.
  vm_compute. split_and!; [done | reflexivity | reflexivity |]. apply (list_elem_of_lookup_2 _ 3%nat). reflexivity.
Qed.

End Termination.
