(* ===== verification/Retention.v ===== *)
(** * Retention: pruning the backups of a site

    Models [src/backup_retention.go]: [pruneSiteBackups] with its tombstones
    ([discardBackup], [removePruneTombstones]) and [CleanupBackupStages], and
    [validBackupName] of [src/offsite.go]. The
    backup directory is a map from names to entries. Every change of it is one
    effect; a call may fail, and the process may be killed between any two
    effects, also in the middle of deleting a directory. *)
From S2P Require Import Prelude GoText Names.

Module Retention.
Import GoText Names.

(** ** Names *)

Definition validBackupName (name : string) : bool :=
  if (len name <? 1) || (160 <? len name) || bool_decide (name = ".") || bool_decide (name = "..") then false else
  all_bytes (λ c, is_lower c || is_upper c || is_digit c || one_of "._-" c) name.

(** ** The directory *)

(** What reading [manifest.json] of an entry gives: nothing usable, or the site and
    the creation time ([None]: absent). *)
Inductive Manifest := NoManifest | Owned (site : string) (created : option Z).
(** The lock file of a staging directory. *)
Inductive StageLock := NoLock | Unlocked | Locked | BadLock.
Record Entry := mkEntry { IsDir : bool; manifest : Manifest; ModTime : Z; stage_lock : StageLock }.
Abbreviation Root := (gmap string Entry).

(** [os.ReadDir] lists the names in order. *)
Definition ReadDir (fs : Root) : list string := merge_sort String.le (elements (dom fs : gset string)).

(** The directory and the effects left before the process is killed. *)
Record St := mkSt { dir : Root; left : nat }.
Inductive Outcome := Returned (err : option error) | Killed.

(** One change of the directory, then the rest. *)
Definition effect (s : St) (f : Root → Root) (k : St → Outcome * St) : Outcome * St :=
  match left s with O => (Killed, s) | S n => k (mkSt (f (dir s)) n) end.

(** [os.RemoveAll]: files of the entry go first, so a failure or a kill leaves an entry
    without a manifest. *)
Definition gut (name : string) (fs : Root) : Root := alter (λ x, mkEntry (IsDir x) NoManifest (ModTime x) (stage_lock x)) name fs.
Definition RemoveAll (e : Env) (n : nat) (name : string) (s : St) (k : St → Outcome * St) : Outcome * St :=
  effect s (gut name) (λ s,
  if fault e n then (Returned (Some io_err), s) else effect s (delete name) k).

(** ** Retention *)

Definition backupPruneTombstonePrefix : string := ".pruning-".

(** The loop of [removePruneTombstones]; the removal of entry [i] reads fault [8 * i]. *)
Fixpoint remove_tombstones (e : Env) (i : nat) (names : list string) (removed : bool) (s : St) (k : bool → St → Outcome * St) : Outcome * St :=
  match names with
  | [] => k removed s
  | name :: rest =>
      if negb (has_prefix name backupPruneTombstonePrefix) then remove_tombstones e (S i) rest removed s k else
      RemoveAll e (8 * i) name s (λ s, remove_tombstones e (S i) rest true s k)
  end.
Definition removePruneTombstones (e : Env) (s : St) (k : St → Outcome * St) : Outcome * St :=
  if fault e 1 then (Returned (Some io_err), s) else
  remove_tombstones e 1 (ReadDir (dir s)) false s (λ removed s,
    if removed && fault e 2 then (Returned (Some io_err), s) else k s).

Record candidate := mkCandidate { name : string; createdAt : Z }.

Definition hidden (n : string) : bool := has_prefix n ".".

(** The loop that reads the manifests. *)
Fixpoint inventory (siteName protected : string) (fs : Root) (names : list string) (items : list candidate) (found : bool)
    : res (list candidate * bool) :=
  match names with
  | [] => Ok (items, found)
  | n :: rest =>
      match fs !! n with
      | None => inventory siteName protected fs rest items found
      | Some x =>
          if negb (IsDir x) || hidden n then inventory siteName protected fs rest items found else
          match manifest x with
          | NoManifest => Err (EMsg "backup retention cannot establish ownership")
          | Owned site created =>
              if bool_decide (safeUser site = "") then Err (EMsg "backup retention found incomplete ownership metadata") else
              if bool_decide (site = siteName) then
                match created with
                | None => Err (EMsg "backup retention cannot establish creation order")
                | Some t => inventory siteName protected fs rest (items ++ [mkCandidate n t]) (found || bool_decide (n = protected))
                end
              else inventory siteName protected fs rest items found
          end
      end
  end.

(** The order of [sort.Slice]: the protected backup first, then the newest, then by name. *)
Definition less (protected : string) (a b : candidate) : bool :=
  if bool_decide (name a = protected) then negb (bool_decide (name b = protected)) else
  if bool_decide (name b = protected) then false else
  if negb (createdAt a =? createdAt b) then createdAt b <? createdAt a else
  if negb (bool_decide (name a = name b)) then bool_decide (String.le (name b) (name a)) else false.
Definition not_after (protected : string) (a b : candidate) : Prop := less protected b a = false.
#[export] Instance not_after_dec protected : RelDecision (not_after protected).
Proof. intros a b. unfold not_after. apply _. Defined.
Definition sorted_items (protected : string) (items : list candidate) : list candidate := merge_sort (not_after protected) items.

(** [discardBackup]: item [i] reads the faults [8 * i + 3], renaming, [+ 4], syncing,
    and [+ 5], deleting. Renaming onto an existing directory fails. *)
Definition tombstone (n : string) : string := backupPruneTombstonePrefix +:+ n.
Definition rename (a b : string) (fs : Root) : Root :=
  match fs !! a with Some x => <[b := x]> (delete a fs) | None => fs end.
Definition discardBackup (e : Env) (i : nat) (n : string) (s : St) (k : St → Outcome * St) : Outcome * St :=
  if negb (validBackupName n) then (Returned (Some (EMsg "refusing to discard invalid backup name")), s) else
  if fault e (8 * i + 3) || negb (bool_decide (is_Some (dir s !! n))) || bool_decide (is_Some (dir s !! tombstone n))
  then (Returned (Some (EWrap "retire backup" io_err)), s) else
  effect s (rename n (tombstone n)) (λ s,
  if fault e (8 * i + 4) then (Returned (Some (EWrap "record retirement of backup" io_err)), s) else
  RemoveAll e (8 * i + 5) (tombstone n) s k).

Fixpoint discard_all (e : Env) (i : nat) (items : list candidate) (s : St) (k : St → Outcome * St) : Outcome * St :=
  match items with
  | [] => k s
  | c :: rest => discardBackup e i (name c) s (λ s, discard_all e (S i) rest s k)
  end.

(** Fault 6: listing the directory, 7: the last sync. *)
Definition pruneSiteBackups (e : Env) (siteName : string) (keep : Z) (protected : string) (s : St) : Outcome * St :=
  if bool_decide (safeUser siteName = "") || (keep <? 1) || (negb (bool_decide (protected = "")) && negb (validBackupName protected))
  then (Returned (Some (EMsg "invalid backup retention policy")), s) else
  removePruneTombstones e s (λ s,
  if fault e 6 then (Returned (Some io_err), s) else
  match inventory siteName protected (dir s) (ReadDir (dir s)) [] (bool_decide (protected = "")) with
  | Err err => (Returned (Some err), s)
  | Ok (items, found) =>
      if negb found then (Returned (Some (EMsg "verified backup is missing from retention inventory")), s) else
      let finish s := (Returned (if fault e 7 then Some io_err else None), s) in
      if Z.of_nat (length items) <=? keep then finish s else
      discard_all e 1 (drop (Z.to_nat keep) (sorted_items protected items)) s finish
  end).

(** ** Abandoned stages *)

(** The loop of [CleanupBackupStages]; entry [i] reads fault [8 * i]: its information,
    [+ 1]: deleting it. *)
Fixpoint cleanup_stages (e : Env) (cutoff : Z) (i : nat) (names : list string) (removed : bool) (s : St) (k : bool → St → Outcome * St)
    : Outcome * St :=
  match names with
  | [] => k removed s
  | n :: rest =>
      match dir s !! n with
      | None => cleanup_stages e cutoff (S i) rest removed s k
      | Some x =>
          if negb (IsDir x) || negb (has_prefix n ".backup-") then cleanup_stages e cutoff (S i) rest removed s k else
          match stage_lock x with
          | Locked => cleanup_stages e cutoff (S i) rest removed s k
          | BadLock => (Returned (Some (EWrap "inspect backup staging ownership" io_err)), s)
          | _ =>
              if fault e (8 * i) then (Returned (Some (EWrap "inspect backup staging directory" io_err)), s) else
              if cutoff <? ModTime x then cleanup_stages e cutoff (S i) rest removed s k else
              RemoveAll e (8 * i + 1) n s (λ s, cleanup_stages e cutoff (S i) rest true s k)
          end
      end
  end.

(** The directory exists and is named by a path other than [.]. Fault 1: listing it,
    2: the last sync. *)
Definition CleanupBackupStages (e : Env) (maxAge : Z) (s : St) : Outcome * St :=
  if maxAge <=? 0 then (Returned (Some (EMsg "invalid backup stage cleanup policy")), s) else
  if fault e 1 then (Returned (Some io_err), s) else
  cleanup_stages e (clock e 0 - maxAge) 1 (ReadDir (dir s)) false s (λ removed s,
    (Returned (if removed && fault e 2 then Some io_err else None), s)).

(** ** Lemmas *)

Lemma elem_of_ReadDir fs n : n ∈ ReadDir fs ↔ is_Some (fs !! n).
Proof. unfold ReadDir. by rewrite merge_sort_Permutation, elem_of_elements, elem_of_dom. Qed.
Lemma NoDup_ReadDir fs : NoDup (ReadDir fs).
Proof. unfold ReadDir. rewrite merge_sort_Permutation. apply NoDup_elements. Qed.

Lemma effect_post (Q : Outcome * St → Prop) s f k :
  Q (Killed, s) → (∀ l, Q (k (mkSt (f (dir s)) l))) → Q (effect s f k).
Proof. intros H1 H2. unfold effect. by destruct (left s). Qed.

(** Entries that are not hidden are as they were. *)
Definition visible_same (fs fs' : Root) : Prop := ∀ n, hidden n = false → fs' !! n = fs !! n.

Lemma visible_refl fs : visible_same fs fs.
Proof. by intros n _. Qed.
Lemma gut_visible fs n : hidden n = true → visible_same fs (gut n fs).
Proof. intros Hn m Hm. unfold gut. rewrite lookup_alter_ne; [done|]. congruence. Qed.
Lemma delete_visible fs n : hidden n = true → visible_same fs (delete n fs).
Proof. intros Hn m Hm. rewrite lookup_delete_ne; [done|]. congruence. Qed.
Lemma visible_trans fs1 fs2 fs3 : visible_same fs1 fs2 → visible_same fs2 fs3 → visible_same fs1 fs3.
Proof. intros H1 H2 n Hn. rewrite H2, H1; done. Qed.

Lemma RemoveAll_post (Q : Outcome * St → Prop) e i n s k :
  hidden n = true →
  (∀ o s', o ≠ Returned None → visible_same (dir s) (dir s') → Q (o, s')) →
  (∀ s', visible_same (dir s) (dir s') → dir s' = delete n (dir s) → Q (k s')) →
  Q (RemoveAll e i n s k).
Proof.
  intros Hn Hbad Hok. unfold RemoveAll. apply effect_post; [by apply Hbad; [|apply visible_refl]|]. intros l.
  pose proof (gut_visible (dir s) n Hn) as Hg. destruct (fault e i); [by apply Hbad|].
  apply effect_post; [by apply Hbad|]. intros l'. apply Hok; cbn.
  - eapply visible_trans; [exact Hg|by apply delete_visible].
  - unfold gut. apply map_eq. intros m. destruct (decide (m = n)) as [->|]; [by rewrite !lookup_delete_eq|].
    by rewrite !lookup_delete_ne, lookup_alter_ne by done.
Qed.

Lemma tombstone_hidden n : has_prefix n backupPruneTombstonePrefix = true → hidden n = true.
Proof.
  unfold hidden, has_prefix, backupPruneTombstonePrefix. destruct (bytes_of n) as [|c l] eqn:E; cbn; [done|].
  by repeat case_decide.
Qed.

Lemma remove_tombstones_post (Q : Outcome * St → Prop) e i names removed s k :
  (∀ o s', o ≠ Returned None → visible_same (dir s) (dir s') → Q (o, s')) →
  (∀ b s', visible_same (dir s) (dir s') →
    (∀ n, n ∈ names → has_prefix n backupPruneTombstonePrefix = true → dir s' !! n = None) →
    (∀ n, dir s !! n = None → dir s' !! n = None) → Q (k b s')) →
  Q (remove_tombstones e i names removed s k).
Proof.
  revert i removed s. induction names as [|n names IH]; intros i removed s Hbad Hok; cbn [remove_tombstones].
  { apply Hok; [apply visible_refl|set_solver|done]. }
  destruct (has_prefix n backupPruneTombstonePrefix) eqn:Hp; cbn [negb].
  - apply RemoveAll_post; [by apply tombstone_hidden|done|]. intros s1 Hv Hs1. apply IH.
    + intros o s' Ho Hv'. apply Hbad; [done|]. by eapply visible_trans.
    + intros b s' Hv' Hgone Hnone. apply Hok; [by eapply visible_trans| |].
      * intros m [->|Hm]%elem_of_cons Hpm; [|by apply Hgone]. apply Hnone. rewrite Hs1. apply lookup_delete_eq.
      * intros m Hm. apply Hnone. rewrite Hs1. apply lookup_delete_None. auto.
  - apply IH; [done|]. intros b s' Hv Hgone Hnone. apply Hok; [done| |done].
    intros m [->|Hm]%elem_of_cons Hpm; [congruence|by apply Hgone].
Qed.

(** A backup of [site]: a visible directory whose manifest names the site. *)
Definition backup_of (fs : Root) (site n : string) (t : Z) : Prop :=
  hidden n = false ∧ ∃ x, fs !! n = Some x ∧ IsDir x = true ∧ manifest x = Owned site (Some t).

Lemma backup_of_same fs fs' site n t : fs' !! n = fs !! n → backup_of fs site n t → backup_of fs' site n t.
Proof. intros E (Hn & x & Hx & H). split; [done|]. exists x. by rewrite E. Qed.
Lemma backup_of_visible fs fs' site n t : visible_same fs fs' → backup_of fs' site n t ↔ backup_of fs site n t.
Proof. intros Hv. split; intros Hb; (eapply backup_of_same; [|exact Hb]); destruct Hb as [Hn _]; by rewrite Hv. Qed.

Lemma inventory_spec site protected fs names items0 found0 items found :
  inventory site protected fs names items0 found0 = Ok (items, found) → NoDup names →
  ∃ new, items = items0 ++ new ∧ NoDup (name <$> new) ∧ (∀ c, c ∈ new ↔ name c ∈ names ∧ backup_of fs site (name c) (createdAt c)) ∧
    (found = true → found0 = true ∨ protected ∈ name <$> new).
Proof.
  revert items0 found0. induction names as [|n names IH]; intros items0 found0 Hi Hnd; cbn [inventory] in Hi.
  { injection Hi as <- <-. exists []. rewrite app_nil_r. split_and!; [done|constructor|set_solver|auto]. }
  apply NoDup_cons in Hnd as [Hn Hnd].
  assert (Hskip : (∀ t, ¬ backup_of fs site n t) → inventory site protected fs names items0 found0 = Ok (items, found) →
    ∃ new, items = items0 ++ new ∧ NoDup (name <$> new) ∧ (∀ c, c ∈ new ↔ name c ∈ n :: names ∧ backup_of fs site (name c) (createdAt c)) ∧
      (found = true → found0 = true ∨ protected ∈ name <$> new)).
  { intros Hno Hi'. destruct (IH _ _ Hi' Hnd) as (new & H1 & H2 & H3 & H4). exists new. split_and!; try done.
    intros c. rewrite H3, elem_of_cons. split; [tauto|]. intros [[Hc|Hc] Hb]; [|done]. rewrite Hc in Hb. by apply Hno in Hb. }
  destruct (fs !! n) as [x|] eqn:Ex; [|apply Hskip; [|done]; intros t (_ & y & Hy & _); congruence].
  destruct (negb (IsDir x) || hidden n) eqn:Ed.
  { apply Hskip; [|done]. intros t (Hh & y & Hy & Hd & _). rewrite Ex in Hy. injection Hy as ->. by rewrite Hd, Hh in Ed. }
  apply orb_false_iff in Ed as [Hd%negb_false_iff Hh].
  destruct (manifest x) as [|si cr] eqn:Em; [done|]. case_if; [done|]. case_bool_decide as Hsi.
  - subst si. destruct cr as [t|]; [|done]. destruct (IH _ _ Hi Hnd) as (new & H1 & H2 & H3 & H4).
    exists (mkCandidate n t :: new). rewrite H1, <- app_assoc. cbn. split_and!; [done| | |].
    + apply NoDup_cons. split; [|done]. rewrite list_elem_of_fmap. intros (c & Hc & Hin). apply H3 in Hin as [Hin _]. congruence.
    + intros c. rewrite !elem_of_cons, H3. split.
      * intros [->|[Hc Hb]]; [|tauto]. split; [by left|]. split; [done|]. by exists x.
      * intros [[Hc|Hc] Hb]; [left|tauto]. destruct c as [cn ct]. cbn in *. subst cn.
        destruct Hb as (_ & y & Hy & _ & Hm). rewrite Ex in Hy. injection Hy as ->. rewrite Em in Hm. by injection Hm as ->.
    + intros Hf. rewrite elem_of_cons. destruct (H4 Hf) as [Hor|Hin]; [|by right; right].
      apply orb_true_iff in Hor as [?|Heq]; [by left|]. right. left. by apply bool_decide_eq_true in Heq.
  - apply Hskip; [|done]. intros t (_ & y & Hy & _ & Hm). rewrite Ex in Hy. injection Hy as ->. congruence.
Qed.

(** *** The order *)

Definition precedes (protected : string) (a b : candidate) : Prop :=
  name a = protected ∨
  name b ≠ protected ∧ (createdAt b < createdAt a ∨ createdAt a = createdAt b ∧ String.le (name b) (name a)).

Lemma not_after_spec protected a b : not_after protected a b ↔ precedes protected a b.
Proof.
  unfold not_after, less, precedes.
  destruct (decide (name b = protected)) as [Hb|Hb]; [rewrite (bool_decide_true (name b = protected)) by done|rewrite (bool_decide_false (name b = protected)) by done];
  (destruct (decide (name a = protected)) as [Ha|Ha]; [rewrite (bool_decide_true (name a = protected)) by done|rewrite (bool_decide_false (name a = protected)) by done]); cbn [negb].
  - split; auto.
  - split; [done|]. intros [|[]]; done.
  - split; auto.
  - destruct (Z.eqb_spec (createdAt b) (createdAt a)) as [E|E]; cbn [negb].
    2: { rewrite Z.ltb_ge. split; [intros; right; split; [done|]; left; lia|]. intros [|[_ [|[]]]]; [done|lia|lia]. }
    case_bool_decide as En; cbn [negb].
    { split; [intros _; right; split; [done|]; right; split; [done|by rewrite En]|done]. }
    case_bool_decide as El; (split; [try done|]).
    + intros [|[_ [|[_ L]]]]; [done|lia|]. exfalso. apply En. by apply (anti_symm String.le).
    + intros _. right. split; [done|]. right. split; [done|]. by destruct (total String.le (name a) (name b)).
    + done.
Qed.

#[export] Instance not_after_total protected : Total (not_after protected).
Proof.
  intros a b. rewrite !not_after_spec. unfold precedes.
  destruct (decide (name a = protected)), (decide (name b = protected)); auto.
  destruct (Z.lt_total (createdAt a) (createdAt b)) as [|[|]]; [by right; right; auto| |by left; right; auto].
  destruct (total String.le (name a) (name b)); [right|left]; right; auto.
Qed.
#[export] Instance not_after_trans protected : Transitive (not_after protected).
Proof.
  intros a b c. rewrite !not_after_spec. unfold precedes. intros [Ha|[Hb H1]] [Hb'|[Hc H2]]; auto; try done.
  right. split; [done|]. destruct H1 as [|[E1 L1]], H2 as [|[E2 L2]]; [left; lia..|]. right. split; [lia|]. by etrans.
Qed.

Lemma sorted_split protected items k a c :
  a ∈ take k (sorted_items protected items) → c ∈ drop k (sorted_items protected items) → precedes protected a c.
Proof.
  intros Ha Hc. apply not_after_spec. pose proof (StronglySorted_merge_sort (not_after protected) items) as Hs.
  fold (sorted_items protected items) in Hs. rewrite <- (take_drop k (sorted_items protected items)) in Hs.
  by eapply StronglySorted_app_1_elem_of.
Qed.

(** *** Discarding *)

Lemma tombstone_prefix n : has_prefix (tombstone n) backupPruneTombstonePrefix = true.
Proof. unfold has_prefix, tombstone. rewrite bytes_of_app. by vm_compute (bytes_of backupPruneTombstonePrefix). Qed.

(** Of the visible entries, those in [gone] are whole or gone, the others are whole. *)
Definition spared (fs fs' : Root) (gone : list string) : Prop :=
  ∀ n, hidden n = false → fs' !! n = fs !! n ∨ (n ∈ gone ∧ fs' !! n = None).

Lemma rename_visible fs a b n : hidden n = false → hidden b = true → n ≠ a → rename a b fs !! n = fs !! n.
Proof.
  intros Hn Hb Ha. unfold rename. destruct (fs !! a); [|done]. rewrite lookup_insert_ne by congruence. by rewrite lookup_delete_ne by done.
Qed.
Lemma rename_gone fs a b : a ≠ b → rename a b fs !! a = None.
Proof. intros Hab. unfold rename. destruct (fs !! a) eqn:E; [|done]. by rewrite lookup_insert_ne, lookup_delete_eq. Qed.

Lemma discardBackup_post (Q : Outcome * St → Prop) e i n s k :
  hidden n = false →
  (∀ o s', o ≠ Returned None → spared (dir s) (dir s') [n] → Q (o, s')) →
  (∀ s', spared (dir s) (dir s') [n] → dir s' !! n = None →
    (∀ m, has_prefix m backupPruneTombstonePrefix = true → dir s !! m = None → dir s' !! m = None) → Q (k s')) →
  Q (discardBackup e i n s k).
Proof.
  intros Hh Hbad Hok. unfold discardBackup.
  assert (Hsame : ∀ fs', visible_same (dir s) fs' → spared (dir s) fs' [n]) by (intros fs' Hv m Hm; left; by apply Hv).
  case_if; [apply Hbad; [done|apply Hsame, visible_refl]|]. case_if; [apply Hbad; [done|apply Hsame, visible_refl]|].
  apply effect_post; [apply Hbad; [done|apply Hsame, visible_refl]|]. intros l.
  set (fs1 := rename n (tombstone n) (dir s)).
  assert (Ht : hidden (tombstone n) = true) by apply tombstone_hidden, tombstone_prefix.
  assert (Hgone : fs1 !! n = None) by (apply rename_gone; congruence).
  assert (Hsp : ∀ fs', visible_same fs1 fs' → spared (dir s) fs' [n]).
  { intros fs' Hv m Hm. destruct (decide (m = n)) as [->|Hne]; [right; split; [set_solver|by rewrite Hv]|].
    left. rewrite Hv by done. by apply rename_visible. }
  case_if; [apply Hbad; [done|apply Hsp, visible_refl]|].
  apply RemoveAll_post; [done| |].
  - intros o s' Ho Hv. by apply Hbad, Hsp.
  - intros s' Hv Hs'. apply Hok; [by apply Hsp| by rewrite Hv |]. intros m Hm Hn. rewrite Hs'. cbn [dir].
    destruct (decide (m = tombstone n)) as [->|]; [apply lookup_delete_eq|]. rewrite lookup_delete_ne by done.
    unfold fs1, rename. destruct (dir s !! n); [|done]. rewrite lookup_insert_ne by done. apply lookup_delete_None. auto.
Qed.

Lemma spared_trans fs1 fs2 fs3 g1 g2 : spared fs1 fs2 g1 → spared fs2 fs3 g2 → spared fs1 fs3 (g1 ++ g2).
Proof.
  intros H1 H2 n Hn. destruct (H2 n Hn) as [E2|[G2 E2]].
  - destruct (H1 n Hn) as [E1|[G1 E1]]; [left; congruence|right]. split; [set_solver|congruence].
  - right. split; [set_solver|done].
Qed.
Lemma spared_mono fs fs' g1 g2 : spared fs fs' g1 → g1 ⊆ g2 → spared fs fs' g2.
Proof. intros H Hs n Hn. destruct (H n Hn) as [|[]]; [by left|right]. split; [by apply Hs|done]. Qed.

Lemma discard_all_post (Q : Outcome * St → Prop) e i items s k :
  (∀ c, c ∈ items → hidden (name c) = false) →
  (∀ o s', o ≠ Returned None → spared (dir s) (dir s') (name <$> items) → Q (o, s')) →
  (∀ s', spared (dir s) (dir s') (name <$> items) → (∀ c, c ∈ items → dir s' !! name c = None) →
    (∀ m, has_prefix m backupPruneTombstonePrefix = true → dir s !! m = None → dir s' !! m = None) → Q (k s')) →
  Q (discard_all e i items s k).
Proof.
  revert i s. induction items as [|c items IH]; intros i s Hh Hbad Hok; cbn [discard_all].
  { apply Hok; [by left|set_solver|done]. }
  apply discardBackup_post; [apply Hh; set_solver| |].
  - intros o s' Ho Hsp. apply Hbad; [done|]. eapply spared_mono; [exact Hsp|]. cbn. set_solver.
  - intros s1 Hsp Hgone Htomb. apply IH.
    + intros c' Hc'. apply Hh. set_solver.
    + intros o s' Ho Hsp'. apply Hbad; [done|]. exact (spared_trans _ _ _ [name c] _ Hsp Hsp').
    + intros s' Hsp' Hgone' Htomb'. apply Hok; [exact (spared_trans _ _ _ [name c] _ Hsp Hsp')| |eauto].
      intros c' [->|Hc']%elem_of_cons; [|by apply Hgone'].
      destruct (Hsp' (name c)) as [->|[_ ?]]; [apply Hh; set_solver|done..].
Qed.

(** *** Pruning *)

(** The backups of the site, and what follows the first [keep] of them. *)
Definition lists (fs : Root) (site protected : string) (items : list candidate) : Prop :=
  NoDup (name <$> items) ∧ (∀ c, c ∈ items ↔ backup_of fs site (name c) (createdAt c)) ∧
  (protected = "" ∨ protected ∈ name <$> items).
Definition surplus (protected : string) (keep : Z) (items : list candidate) : list candidate :=
  drop (Z.to_nat keep) (sorted_items protected items).

Definition pruned (fs : Root) (site protected : string) (keep : Z) (r : Outcome * St) : Prop :=
  (r.1 ≠ Returned None ∧ visible_same fs (dir r.2)) ∨
  ∃ items, 1 ≤ keep ∧ lists fs site protected items ∧ spared fs (dir r.2) (name <$> surplus protected keep items) ∧
    (r.1 = Returned None → (∀ c, c ∈ surplus protected keep items → dir r.2 !! name c = None) ∧
      ∀ m, has_prefix m backupPruneTombstonePrefix = true → dir r.2 !! m = None).

Lemma pruneSiteBackups_pruned e site keep protected s :
  pruned (dir s) site protected keep (pruneSiteBackups e site keep protected s).
Proof.
  unfold pruneSiteBackups. case_if; [left; split; [done|apply visible_refl]|].
  apply orb_false_iff in Heqb as [[_ Hkeep%Z.ltb_ge]%orb_false_iff _].
  unfold removePruneTombstones. case_if; [left; split; [done|apply visible_refl]|].
  apply (remove_tombstones_post (pruned (dir s) site protected keep)); [by left|].
  intros b s1 Hv Hgone Hnone. case_if; [left; split; done|]. case_if; [left; split; done|].
  assert (Htomb : ∀ m, has_prefix m backupPruneTombstonePrefix = true → dir s1 !! m = None).
  { intros m Hm. destruct (dir s !! m) as [x|] eqn:E; [|by apply Hnone]. apply Hgone; [|done]. apply elem_of_ReadDir. by eexists. }
  destruct (inventory _ _ _ _ _ _) as [[items found]|] eqn:Ei; [|by left].
  destruct (inventory_spec _ _ _ _ _ _ _ _ Ei (NoDup_ReadDir _)) as (new & -> & Hnd & Hel & Hfound). cbn [app] in *.
  destruct found; [|by left]. cbn [negb].
  assert (Hl : lists (dir s) site protected new).
  { split; [done|]. split.
    - intros c. rewrite Hel, <- (backup_of_visible (dir s) (dir s1)) by done. split; [tauto|]. intros Hb. split; [|done].
      apply elem_of_ReadDir. destruct Hb as (_ & x & Hx & _). by eexists.
    - destruct (Hfound eq_refl) as [He%bool_decide_eq_true|]; auto. }
  case_if.
  - right. exists new. split_and!; [done|done| |].
    + intros n Hn. left. by apply Hv.
    + intros _. cbn [fst snd]. split; [|done]. intros c Hc. exfalso. unfold surplus, sorted_items in Hc.
      rewrite drop_ge in Hc; [by apply not_elem_of_nil in Hc|]. rewrite (merge_sort_Permutation _ new). lia.
  - fold (surplus protected keep new).
    assert (Hsub : ∀ c, c ∈ surplus protected keep new → c ∈ new).
    { intros c Hc. rewrite <- (merge_sort_Permutation (not_after protected) new). unfold surplus in Hc. by eapply subseteq_drop. }
    apply (discard_all_post (pruned (dir s) site protected keep)).
    + intros c Hc%Hsub. by apply Hl in Hc as [Hc _].
    + intros o s' Ho Hsp. right. exists new. split_and!; [done|done| |done].
      intros n Hn. rewrite <- (Hv n Hn). by apply Hsp.
    + intros s' Hsp Hall Ht. right. exists new. split_and!; [done|done| |].
      * intros n Hn. rewrite <- (Hv n Hn). by apply Hsp.
      * intros _. split; [done|]. intros m Hm. cbn. apply Ht; [done|]. by apply Htomb.
Qed.

Lemma sorted_items_NoDup protected items : NoDup (name <$> items) → NoDup (name <$> sorted_items protected items).
Proof. intros H. unfold sorted_items. by rewrite merge_sort_Permutation. Qed.

Lemma surplus_elem protected keep items c : c ∈ surplus protected keep items → c ∈ items.
Proof. intros Hc. rewrite <- (merge_sort_Permutation (not_after protected) items). by eapply subseteq_drop. Qed.

Lemma kept_elem protected keep items c : c ∈ take (Z.to_nat keep) (sorted_items protected items) → c ∈ items.
Proof. intros Hc. rewrite <- (merge_sort_Permutation (not_after protected) items). by eapply subseteq_take. Qed.

Lemma kept_not_surplus protected keep items a c :
  NoDup (name <$> items) → a ∈ take (Z.to_nat keep) (sorted_items protected items) → c ∈ surplus protected keep items → name a ≠ name c.
Proof.
  intros Hnd Ha Hc E. apply (sorted_items_NoDup protected) in Hnd.
  rewrite <- (take_drop (Z.to_nat keep) (sorted_items protected items)), fmap_app in Hnd. apply NoDup_app in Hnd as (_ & Hd & _).
  apply (Hd (name a)); [by apply list_elem_of_fmap_2|]. rewrite E. by apply list_elem_of_fmap_2.
Qed.

(** The protected backup is never in the surplus. *)
Lemma protected_kept protected keep items c :
  1 ≤ keep → NoDup (name <$> items) → c ∈ surplus protected keep items → name c ≠ protected.
Proof.
  intros Hkeep Hnd Hc Ep. set (kept := take (Z.to_nat keep) (sorted_items protected items)).
  assert (∃ a, a ∈ kept) as [a Ha].
  { unfold kept. destruct (sorted_items protected items) as [|a l] eqn:E.
    - unfold surplus in Hc. rewrite E, drop_nil in Hc. by apply not_elem_of_nil in Hc.
    - exists a. destruct (Z.to_nat keep) eqn:Ez; [lia|]. cbn. set_solver. }
  apply (kept_not_surplus protected keep items a c Hnd Ha Hc).
  destruct (sorted_split protected items _ a c Ha Hc) as [Hp|[Hp _]]; congruence.
Qed.

(** C35: Pruning the backups of a site, failing at any call or killed at any moment,
    leaves every visible entry of the backup directory whole or takes it away whole;
    what it takes away is a backup of this site, never the protected one, and at that
    moment [keep] other backups of the site, each of them the protected one or not
    older, are all still there unchanged. *)
Theorem prune_whole_or_gone e site keep protected s n :
  hidden n = false →
  let fs' := dir (pruneSiteBackups e site keep protected s).2 in
  fs' !! n = dir s !! n ∨
  fs' !! n = None ∧ n ≠ protected ∧ ∃ t, backup_of (dir s) site n t ∧
    ∃ kept, NoDup (name <$> kept) ∧ Z.of_nat (length kept) = keep ∧
      ∀ c, c ∈ kept → backup_of (dir s) site (name c) (createdAt c) ∧ fs' !! name c = dir s !! name c ∧ name c ≠ n ∧
        (name c = protected ∨ t < createdAt c ∨ createdAt c = t ∧ String.le n (name c)).
Proof.
  intros Hn fs'. destruct (pruneSiteBackups_pruned e site keep protected s) as [[_ Hv]|(items & Hkeep & (Hnd & Hel & _) & Hsp & _)].
  { left. by apply Hv. }
  destruct (Hsp n Hn) as [|[Hin Hgone]]; [by left|]. right. split; [done|].
  apply list_elem_of_fmap in Hin as (c & -> & Hc).
  set (kept := take (Z.to_nat keep) (sorted_items protected items)).
  assert (Hlen : Z.of_nat (length kept) = keep).
  { unfold kept. rewrite length_take. unfold surplus in Hc. apply list_elem_of_lookup in Hc as [i Hi].
    apply lookup_lt_Some in Hi. rewrite length_drop in Hi. lia. }
  assert (Hbefore : ∀ a, a ∈ kept → precedes protected a c) by (intros a Ha; by eapply sorted_split).
  split; [by eapply protected_kept|].
  { exists (createdAt c). split; [by apply Hel, (surplus_elem protected keep)|]. exists kept. split_and!; [|done|].
    + apply (sorted_items_NoDup protected) in Hnd. rewrite <- (take_drop (Z.to_nat keep) (sorted_items protected items)), fmap_app in Hnd.
      by apply NoDup_app in Hnd as (Hnd & _).
    + intros a Ha. pose proof (kept_elem _ _ _ _ Ha) as Hai. apply Hel in Hai.
      pose proof (kept_not_surplus protected keep items a c Hnd Ha Hc) as Hne. split_and!; [done| |done|].
      * destruct Hai as [Hh _]. destruct (Hsp (name a) Hh) as [|[Hin _]]; [done|]. exfalso.
        apply list_elem_of_fmap in Hin as (c' & E & Hc'). by apply (kept_not_surplus protected keep items a c' Hnd Ha Hc').
      * destruct (Hbefore a Ha) as [|[_ Hp]]; [by left|by right]. }
Qed.

(** A successful pruning leaves at most [keep] backups of the site, the protected
    one among them, and no tombstone. *)
Theorem prune_success_bounded e site keep protected s s' :
  pruneSiteBackups e site keep protected s = (Returned None, s') →
  (∃ kept, Z.of_nat (length kept) ≤ keep ∧ ∀ n t, backup_of (dir s') site n t → n ∈ kept) ∧
  (protected = "" ∨ ∃ t, backup_of (dir s') site protected t) ∧
  ∀ m, has_prefix m backupPruneTombstonePrefix = true → dir s' !! m = None.
Proof.
  intros Hp. pose proof (pruneSiteBackups_pruned e site keep protected s) as Hpr. rewrite Hp in Hpr.
  destruct Hpr as [[[] _]|(items & Hkeep & (Hnd & Hel & Hprot) & Hsp & Hok)]; [done|]. destruct (Hok eq_refl) as [Hgone Htomb]. cbn [snd] in *.
  set (kept := take (Z.to_nat keep) (sorted_items protected items)).
  split_and!; [| |done].
  - exists (name <$> kept). split; [rewrite length_fmap; unfold kept; rewrite length_take; lia|]. intros n t Hb.
    pose proof Hb as (Hh & x & Hx & _). destruct (Hsp n Hh) as [E|[_ E]]; [|congruence].
    assert (Hc : mkCandidate n t ∈ items) by (apply Hel; by eapply backup_of_same; [|exact Hb]).
    rewrite <- (merge_sort_Permutation (not_after protected) items), <- (take_drop (Z.to_nat keep) (merge_sort _ _)), elem_of_app in Hc.
    destruct Hc as [Hc|Hc]; [exact (list_elem_of_fmap_2 name _ _ Hc)|]. apply Hgone in Hc. cbn in Hc. congruence.
  - destruct Hprot as [|Hin]; [by left|]. right. apply list_elem_of_fmap in Hin as (c & Ec & Hc). exists (createdAt c).
    pose proof (proj1 (Hel c) Hc) as Hb. rewrite <- Ec in Hb. eapply backup_of_same; [|exact Hb].
    destruct Hb as [Hh _]. destruct (Hsp protected Hh) as [|[Hin _]]; [done|]. exfalso.
    apply list_elem_of_fmap in Hin as (c' & Ec' & Hc'). by apply (protected_kept protected keep items c').
Qed.

(** *** Abandoned stages *)

(** What [CleanupBackupStages] must leave alone. *)
Definition in_use (cutoff : Z) (n : string) (x : Entry) : Prop :=
  stage_lock x = Locked ∨ cutoff < ModTime x ∨ has_prefix n ".backup-" = false ∨ IsDir x = false.

Lemma RemoveAll_other e i m n x s k :
  m ≠ n → dir s !! n = Some x → (∀ s', dir s' !! n = Some x → dir (k s').2 !! n = Some x) → dir (RemoveAll e i m s k).2 !! n = Some x.
Proof.
  intros Hne Hx Hk. unfold RemoveAll, effect. destruct (left s) as [|l]; [done|].
  assert (Hg : gut m (dir s) !! n = Some x) by (unfold gut; by rewrite lookup_alter_ne).
  destruct (fault e i); [done|]. cbn [left]. destruct l as [|l]; [done|]. apply Hk. cbn. by rewrite lookup_delete_ne.
Qed.

(** Cleaning up abandoned stages, failing or killed anywhere, leaves alone every stage
    that a running backup has locked, every recent one, and everything else. *)
Theorem cleanup_spares_active e maxAge s n x :
  dir s !! n = Some x → in_use (clock e 0 - maxAge) n x → dir (CleanupBackupStages e maxAge s).2 !! n = Some x.
Proof.
  intros Hx Hu. unfold CleanupBackupStages. case_if; [done|]. case_if; [done|].
  enough (Hall : ∀ names k i removed s, (∀ b s', dir s' !! n = Some x → dir (k b s').2 !! n = Some x) → dir s !! n = Some x →
    dir (cleanup_stages e (clock e 0 - maxAge) i names removed s k).2 !! n = Some x) by by apply Hall.
  clear s Hx Heqb0. intros names k.
  induction names as [|m names IH]; intros i removed s Hk Hx; cbn [cleanup_stages]; [by apply Hk|].
  destruct (dir s !! m) as [y|] eqn:Ey; [|by apply IH]. case_if; [by apply IH|].
  apply orb_false_iff in Heqb0 as [Hd%negb_false_iff Hp%negb_false_iff].
  assert (Hother : m = n → stage_lock y ≠ Locked → (clock e 0 - maxAge <? ModTime y) = true).
  { intros -> Hl. rewrite Hx in Ey. injection Ey as <-. destruct Hu as [|[|[|]]]; try congruence. lia. }
  destruct (stage_lock y) eqn:El; try done; try (by apply IH);
    (case_if; [done|]; case_if; [by apply IH|]; apply RemoveAll_other; [|done|intros s' Hs'; by apply IH]);
    intros ->; by discriminate Hother.
Qed.

(** ** Witnesses *)

Definition backup (site : string) (t : Z) : Entry := mkEntry true (Owned site (Some t)) t NoLock.
Definition demo : Root :=
  <["blog-1" := backup "blog" 10]> (<["blog-2" := backup "blog" 30]> (<["blog-3" := backup "blog" 20]>
  (<["shop-1" := backup "shop" 5]> {[".pruning-blog-0" := backup "blog" 1]}))).

(** Killed in the middle of deleting the retired backup. *)
Lemma prune_whole_or_gone_witness :
  let fs' := dir (pruneSiteBackups (calm 50 "") "blog" 2 "blog-3" (mkSt demo 4)).2 in
  fs' !! "blog-1" = dir (mkSt demo 4) !! "blog-1" ∨
  fs' !! "blog-1" = None ∧ "blog-1" ≠ "blog-3" ∧ ∃ t, backup_of demo "blog" "blog-1" t ∧
    ∃ kept, NoDup (name <$> kept) ∧ Z.of_nat (length kept) = 2 ∧
      ∀ c, c ∈ kept → backup_of demo "blog" (name c) (createdAt c) ∧ fs' !! name c = demo !! name c ∧ name c ≠ "blog-1" ∧
        (name c = "blog-3" ∨ t < createdAt c ∨ createdAt c = t ∧ String.le "blog-1" (name c)).
Proof. apply (prune_whole_or_gone (calm 50 "") "blog" 2 "blog-3" (mkSt demo 4) "blog-1"). vm_compute. reflexivity. Defined.

Example prune_demo :
  ReadDir (dir (pruneSiteBackups (calm 50 "") "blog" 2 "blog-3" (mkSt demo 4)).2) = [".pruning-blog-1"; "blog-2"; "blog-3"; "shop-1"].
Proof. vm_compute. reflexivity. Qed.

Lemma prune_success_bounded_witness :
  ∃ s', pruneSiteBackups (calm 50 "") "blog" 2 "blog-3" (mkSt demo 9) = (Returned None, s') ∧
    ∃ t, backup_of (dir s') "blog" "blog-3" t.
Proof.
  eexists. split; [vm_compute; reflexivity|].
  destruct (prune_success_bounded (calm 50 "") "blog" 2 "blog-3" (mkSt demo 9) _ ltac:(vm_compute; reflexivity)) as (_ & [Hp|Hp] & _); [done|exact Hp].
Defined.

End Retention.
