(* ===== verification/ControlState.v ===== *)
(** * ControlState: maps shared by the panel and the worker

    Models the bound stores of [src/controlplane.go] (one row of [state_blobs] per
    store, with a revision): [compareAndSwapControlPlaneState],
    [persistBoundControlPlaneState] with its conflict merge
    ([mergeControlPlaneState]) and [bindControlPlaneState], and the single-key
    change of [src/state_persistence.go] ([persistMapKeyChange]). Each database
    statement is one step, so that the statements of several processes interleave
    freely; [pc] is where a process stands inside [persistBoundControlPlaneState].

    The payload of a row is a JSON object: a map from keys to the raw text of their
    values. The text of a value is a parameter ([JSONVal]): a store prints with
    indentation, and the merge prints compactly. *)
From S2P Require Import Prelude.

Module ControlState.

Abbreviation Raw := (gmap string string).

(** Printing a value, the compact form of a text ([json.Marshal] of a
    [json.RawMessage]), and decoding. *)
Class JSONVal (V : Type) := {
  print : V → string;
  compact : string → string;
  parse : string → option V
}.
Class JSONValLaws (V : Type) `{JSONVal V} := {
  parse_print v : parse (print v) = Some v;
  parse_compact s : parse (compact s) = parse s
}.

Section Store.
Context {V : Type} `{J : JSONVal V}.

(** ** The row and the processes *)

Definition Row : Type := option (Raw * Z).

(** Where a process stands: idle, or in the loop of [persistBoundControlPlaneState]
    before its [n]-th compare-and-swap, or before the read that follows a failed one;
    with the payload to write, the intended payload and the base, and the key being
    changed with its previous value. *)
Inductive PC :=
  | Idle
  | Writing (n : nat) (payload intended base : Raw) (key : string) (previous : option V)
  | Loading (n : nat) (intended base : Raw) (key : string) (previous : option V).

(** [values] is the live map; [snapshot] and [revision] describe the last durable
    image the process has seen. *)
Record Proc := mkProc { values : gmap string V; snapshot : Raw; revision : Z; pc : PC }.

Definition controlPlaneStateRetryLimit : nat := 3.

(** [json.MarshalIndent] of the map. *)
Definition encode (m : gmap string V) : Raw := print <$> m.

(** [json.Unmarshal] into a map that exists: decoded keys replace or extend it, other
    keys stay. An empty payload is skipped. *)
Definition restore (payload : Raw) (m : gmap string V) : gmap string V := omap parse payload ∪ m.

(** [readControlPlaneBlobWithRevision]. *)
Definition blob (row : Row) : Raw := match row with Some (payload, _) => payload | None => ∅ end.
Definition blob_revision (row : Row) : Z := match row with Some (_, r) => r | None => -1 end.

(** [compareAndSwapControlPlaneState]: the row it leaves and the revision it records,
    or nothing when another process was first. *)
Definition compareAndSwap (rev : Z) (payload : Raw) (row : Row) : option (Row * Z) :=
  if rev <? 0 then
    match row with None => Some (Some (payload, 1), 1) | Some _ => None end
  else
    match row with
    | Some (_, r) => if r =? rev then Some (Some (payload, r + 1), rev + 1) else None
    | None => None
    end.

(** ** The merge *)

Definition localChanged (base intended : Raw) (k : string) : bool := negb (bool_decide (base !! k = intended !! k)).
Definition conflicts (base intended remote : Raw) (k : string) : bool :=
  localChanged base intended k && negb (bool_decide (base !! k = remote !! k)) && negb (bool_decide (intended !! k = remote !! k)).
Definition put (m : Raw) (k : string) (v : option string) : Raw := match v with Some x => <[k := x]> m | None => delete k m end.
Definition apply_key (base intended : Raw) (m : Raw) (k : string) : Raw := if localChanged base intended k then put m k (intended !! k) else m.

Definition mergeControlPlaneState (base intended remote : Raw) : option Raw :=
  let keys := elements (dom base ∪ dom intended) in
  if existsb (conflicts base intended remote) keys then None
  else Some (compact <$> foldl (apply_key base intended) remote keys).

(** ** The operations, statement by statement *)

(** [bindControlPlaneState] over the values read from a legacy file. *)
Definition bindControlPlaneState (legacy : gmap string V) (row : Row) : Proc :=
  match row with
  | None => mkProc legacy ∅ (-1) Idle
  | Some (payload, r) => mkProc (restore payload legacy) payload r Idle
  end.

(** [persistMapKeyChange]: change one key in memory, then persist the whole map. *)
Definition start_change (k : string) (next : option V) (p : Proc) : Proc :=
  let m := match next with Some v => <[k := v]> (values p) | None => delete k (values p) end in
  mkProc m (snapshot p) (revision p) (Writing 0 (encode m) (encode m) (snapshot p) k (values p !! k)).

(** The first [persist] after binding a store that had no row: nothing is changed, so
    the key and its previous value undo nothing. *)
Definition start_import (p : Proc) : Proc :=
  mkProc (values p) (snapshot p) (revision p) (Writing 0 (encode (values p)) (encode (values p)) (snapshot p) "" (values p !! "")).

(** The outcome of a statement for the caller: not yet, or an answer. *)
Inductive Answer := Pending | Saved | Refreshed | Failed.

(** The compare-and-swap; [bad]: the statement itself fails. *)
Definition write_step (bad : bool) (p : Proc) (row : Row) : Answer * Proc * Row :=
  match pc p with
  | Writing n payload intended base k prev =>
      match (if bad then None else compareAndSwap (revision p) payload row) with
      | Some (row', r) => (Saved, mkProc (restore payload (values p)) payload r Idle, row')
      | None => (Pending, mkProc (values p) (snapshot p) (revision p) (Loading n intended base k prev), row)
      end
  | _ => (Pending, p, row)
  end.

(** [persistMapKeyChange] puts the previous value back, unless the state was refreshed. *)
Definition undo (k : string) (prev : option V) (m : gmap string V) : gmap string V :=
  match prev with Some v => <[k := v]> m | None => delete k m end.

(** The read after a failed compare-and-swap. *)
Definition load_step (bad : bool) (p : Proc) (row : Row) : Answer * Proc :=
  match pc p with
  | Loading n intended base k prev =>
      if bad then (Failed, mkProc (undo k prev (restore base (values p))) (snapshot p) (revision p) Idle) else
      let remote := blob row in
      match mergeControlPlaneState base intended remote with
      | None => (Refreshed, mkProc (restore remote (values p)) remote (blob_revision row) Idle)
      | Some merged =>
          if Nat.eqb n (controlPlaneStateRetryLimit - 1)
          then (Refreshed, mkProc (restore remote (values p)) remote (blob_revision row) Idle)
          else (Pending, mkProc (values p) (snapshot p) (blob_revision row) (Writing (S n) merged intended base k prev))
      end
  | _ => (Pending, p)
  end.

(** ** The world *)

(** The row, the processes, and every image a revision has had. *)
Record World := mkWorld { row : Row; procs : gmap nat Proc; history : gmap Z Raw }.

(** [read_faults]: whether the read after a failed compare-and-swap may fail. *)
Inductive step (read_faults : bool) : World → World → Prop :=
  | SBind w i legacy :
      step read_faults w (mkWorld (row w) (<[i := bindControlPlaneState legacy (row w)]> (procs w)) (history w))
  | SImport w i p :
      procs w !! i = Some p → pc p = Idle →
      step read_faults w (mkWorld (row w) (<[i := start_import p]> (procs w)) (history w))
  | SChange w i p k next :
      procs w !! i = Some p → pc p = Idle →
      step read_faults w (mkWorld (row w) (<[i := start_change k next p]> (procs w)) (history w))
  | SWrite w i p bad ans p' row' :
      procs w !! i = Some p → write_step bad p (row w) = (ans, p', row') →
      step read_faults w (mkWorld row' (<[i := p']> (procs w)) (<[blob_revision row' := blob row']> (history w)))
  | SLoad w i p bad ans p' :
      procs w !! i = Some p → (bad = true → read_faults = true) → load_step bad p (row w) = (ans, p') →
      step read_faults w (mkWorld (row w) (<[i := p']> (procs w)) (history w)).

Definition start : World := mkWorld None ∅ {[-1 := ∅]}.
Definition reachable (read_faults : bool) (w : World) : Prop := rtc (step read_faults) start w.

(** ** Lemmas on the merge *)

Lemma lookup_put m k v key : put m k v !! key = if decide (key = k) then v else m !! key.
Proof.
  unfold put. destruct v as [x|]; destruct (decide (key = k)) as [->|]; by rewrite ?lookup_insert_eq, ?lookup_insert_ne, ?lookup_delete_eq, ?lookup_delete_ne.
Qed.

Lemma lookup_apply_keys base intended m keys key :
  foldl (apply_key base intended) m keys !! key =
  if decide (key ∈ keys ∧ localChanged base intended key = true) then intended !! key else m !! key.
Proof.
  revert m. induction keys as [|k keys IH]; intros m; cbn [foldl].
  { rewrite decide_False; [done|]. intros [H _]. by apply not_elem_of_nil in H. }
  rewrite IH. unfold apply_key. destruct (decide (key ∈ keys ∧ localChanged base intended key = true)) as [H|H].
  { rewrite decide_True; [done|]. split; [|apply H]. apply elem_of_cons. right. apply H. }
  destruct (localChanged base intended k) eqn:El; [rewrite lookup_put|].
  - destruct (decide (key = k)) as [->|Hne].
    + rewrite decide_True; [done|]. split; [apply elem_of_cons; by left|done].
    + rewrite decide_False; [done|]. rewrite elem_of_cons. intros [[|] Hc]; [done|]. by apply H.
  - rewrite decide_False; [done|]. rewrite elem_of_cons. intros [[->|] Hc]; [congruence|]. by apply H.
Qed.

Lemma changed_in_keys base intended key :
  localChanged base intended key = true → key ∈ elements (dom base ∪ dom intended : gset string).
Proof.
  unfold localChanged. intros Hc. apply elem_of_elements, elem_of_union. rewrite !elem_of_dom.
  destruct (base !! key), (intended !! key); eauto. by rewrite bool_decide_true in Hc.
Qed.

(** The merge takes the local value where the local process changed the key, where the
    peers had left it alone or made the same change, and the peers' value elsewhere. *)
Lemma merge_spec base intended remote merged key :
  mergeControlPlaneState base intended remote = Some merged →
  (localChanged base intended key = false ∧ merged !! key = compact <$> remote !! key) ∨
  (localChanged base intended key = true ∧ merged !! key = compact <$> intended !! key ∧
   (remote !! key = base !! key ∨ remote !! key = intended !! key)).
Proof.
  unfold mergeControlPlaneState. case_if; [done|]. intros [= <-]. rewrite lookup_fmap, lookup_apply_keys.
  destruct (localChanged base intended key) eqn:El.
  - right. rewrite decide_True by (split; [by apply changed_in_keys|done]). split_and!; try done.
    apply existsb_false_elem with (x := key) in Heqb; [|by apply changed_in_keys]. unfold conflicts in Heqb. rewrite El in Heqb.
    cbn [andb] in Heqb. apply andb_false_iff in Heqb as [H|H]; apply negb_false_iff, bool_decide_eq_true in H; auto.
  - left. split; [done|]. rewrite decide_False; [done|]. by intros [_ ?].
Qed.

(** ** The invariant *)

Definition pinv (h : gmap Z Raw) (p : Proc) : Prop :=
  match pc p with
  | Idle => h !! revision p = Some (snapshot p)
  | Writing n payload intended base _ _ =>
      ∃ img, h !! revision p = Some img ∧
        (img = base ∧ payload = intended ∨ mergeControlPlaneState base intended img = Some payload)
  | Loading _ _ _ _ _ => True
  end.
Record winv (w : World) : Prop := mkWinv {
  wi_row : history w !! blob_revision (row w) = Some (blob (row w));
  wi_top : ∀ r img, history w !! r = Some img → r ≤ blob_revision (row w);
  wi_none : history w !! (-1) = Some ∅;
  wi_pos : ∀ r img, history w !! r = Some img → r = -1 ∨ 1 ≤ r;
  wi_procs : ∀ i p, procs w !! i = Some p → pinv (history w) p
}.

Lemma pinv_mono h h' p : (∀ r img, h !! r = Some img → h' !! r = Some img) → pinv h p → pinv h' p.
Proof. unfold pinv. intros Hh. destruct (pc p); [auto| |done]. intros (img & H1 & H2). eauto. Qed.

(** A successful compare-and-swap found the row at the revision the process had read. *)
Lemma compareAndSwap_spec rev payload r row' rev' :
  blob_revision r = -1 ∨ 1 ≤ blob_revision r → compareAndSwap rev payload r = Some (row', rev') →
  row' = Some (payload, rev') ∧ blob_revision r = (if rev <? 0 then -1 else rev) ∧ blob_revision r < rev' ∧ 1 ≤ rev'.
Proof.
  intros Hpos. unfold compareAndSwap. destruct (rev <? 0) eqn:E.
  - destruct r; [done|]. intros [= <- <-]. cbn. split_and!; try done; lia.
  - destruct r as [[pl x]|]; [|done]. destruct (x =? rev) eqn:Ex; [|done]. apply Z.eqb_eq in Ex. subst x.
    intros [= <- <-]. cbn in *. split_and!; [done|done|lia|lia].
Qed.

(** The row a successful write found is the image the process had merged into. *)
Lemma saved_image w i p n payload intended base k prev row' rv :
  winv w → procs w !! i = Some p → pc p = Writing n payload intended base k prev →
  compareAndSwap (revision p) payload (row w) = Some (row', rv) →
  row' = Some (payload, rv) ∧ blob_revision (row w) < rv ∧ 1 ≤ rv ∧
  (blob (row w) = base ∧ payload = intended ∨ mergeControlPlaneState base intended (blob (row w)) = Some payload).
Proof.
  intros [H1 H2 H3 H4 H5] Hp Epc Hc. pose proof (H5 _ _ Hp) as Hi. unfold pinv in Hi. rewrite Epc in Hi.
  destruct Hi as (img & Himg & Hcase). destruct (compareAndSwap_spec _ _ _ _ _ (H4 _ _ H1) Hc) as (-> & Hrev & Hlt & Hpos).
  split_and!; try done. enough (blob (row w) = img) as -> by done.
  pose proof (H4 _ _ Himg) as Hr. destruct (Z.ltb_spec (revision p) 0); [assert (revision p = -1) as E by lia|]; congruence.
Qed.

Lemma store_inv_step w w' : step false w w' → winv w → winv w'.
Proof.
  intros S I. destruct S as [w i legacy|w i p Hp Hpc|w i p k next Hp Hpc|w i p bad ans p' row' Hp Hw|w i p bad ans p' Hp Hbad Hl].
  - destruct I as [H1 H2 H3 H4 H5]. constructor; cbn; auto. intros j q [[<- <-]|[_ Hq]]%lookup_insert_Some; [|by eapply H5].
    unfold pinv, bindControlPlaneState. destruct (row w) as [[pl r]|]; cbn in *; done.
  - destruct I as [H1 H2 H3 H4 H5]. constructor; cbn; auto. intros j q [[<- <-]|[_ Hq]]%lookup_insert_Some; [|by eapply H5].
    pose proof (H5 _ _ Hp) as Hi. unfold pinv in *. rewrite Hpc in Hi. cbn. eauto.
  - destruct I as [H1 H2 H3 H4 H5]. constructor; cbn; auto. intros j q [[<- <-]|[_ Hq]]%lookup_insert_Some; [|by eapply H5].
    pose proof (H5 _ _ Hp) as Hi. unfold pinv in *. rewrite Hpc in Hi. cbn. eauto.
  - pose proof I as [H1 H2 H3 H4 H5]. pose proof (H5 _ _ Hp) as Hi.
    assert (Hid : row' = row w → pinv (history w) p' → winv (mkWorld row' (<[i := p']> (procs w)) (<[blob_revision row' := blob row']> (history w)))).
    { intros -> Hp'. rewrite (insert_id (history w)) by done. constructor; cbn; auto. intros j q [[<- <-]|[_ Hq]]%lookup_insert_Some; [done|by eapply H5]. }
    unfold write_step in Hw. destruct (pc p) as [|n payload intended base k prev|] eqn:Epc; [injection Hw as _ <- <-; by apply Hid| |injection Hw as _ <- <-; by apply Hid].
    destruct (if bad then None else compareAndSwap (revision p) payload (row w)) as [[r' rv]|] eqn:Ec;
      [|injection Hw as _ <- <-; by apply Hid].
    destruct bad; [done|]. injection Hw as _ <- <-.
    destruct (saved_image w i p n payload intended base k prev r' rv I Hp Epc Ec) as (-> & Hlt & Hpos & _).
    assert (Hold : ∀ r img, history w !! r = Some img → <[rv := payload]> (history w) !! r = Some img).
    { intros r img Hr. rewrite lookup_insert_ne; [done|]. pose proof (H2 _ _ Hr). lia. }
    constructor; cbn.
    + apply lookup_insert_eq.
    + intros r img [[-> _]|[_ Hr]]%lookup_insert_Some; [lia|]. pose proof (H2 _ _ Hr). lia.
    + by apply Hold.
    + intros r img [[<- _]|[_ Hr]]%lookup_insert_Some; [lia|by eapply H4].
    + intros j q [[<- <-]|[_ Hq]]%lookup_insert_Some; [|eapply pinv_mono; [exact Hold|by eapply H5]].
      unfold pinv. cbn. apply lookup_insert_eq.
  - pose proof I as [H1 H2 H3 H4 H5]. constructor; cbn; auto. intros j q [[<- <-]|[_ Hq]]%lookup_insert_Some; [|by eapply H5].
    unfold load_step in Hl. pose proof (H5 _ _ Hp) as Hi. destruct (pc p) as [| |n intended base k prev] eqn:Epc; [by injection Hl as _ <-..|].
    destruct bad; [by discriminate Hbad|].
    destruct (mergeControlPlaneState base intended (blob (row w))) as [merged|] eqn:Em; [case_if|]; injection Hl as _ <-; unfold pinv; cbn; eauto.
Qed.

Lemma store_inv_reachable w : reachable false w → winv w.
Proof.
  intros Hr. assert (winv start) as Hs.
  { constructor; cbn; [by rewrite lookup_singleton_eq| |by rewrite lookup_singleton_eq| |by intros i p].
    - intros r img [<- _]%lookup_singleton_Some. done.
    - intros r img [<- _]%lookup_singleton_Some. auto. }
  revert Hs. induction Hr; eauto using store_inv_step.
Qed.

(** ** What a write changes *)

(** The value a payload gives a key. *)
Definition sem (m : Raw) (k : string) : option V := m !! k ≫= parse.

Context {JL : JSONValLaws V}.

Lemma sem_compact (m : Raw) k s : m !! k = compact <$> s → m !! k ≫= parse = s ≫= parse.
Proof. intros ->. destruct s; cbn; [apply parse_compact|done]. Qed.

(** A saved write, key by key. *)
Lemma saved_keys w i p n payload intended base k prev p' row' key :
  reachable false w → procs w !! i = Some p → pc p = Writing n payload intended base k prev →
  write_step false p (row w) = (Saved, p', row') →
  sem (blob row') key = sem (blob (row w)) key ∧ base !! key = intended !! key ∨
  sem (blob row') key = sem intended key ∧ base !! key ≠ intended !! key ∧
    (blob (row w) !! key = base !! key ∨ blob (row w) !! key = intended !! key).
Proof.
  intros Hr Hp Epc Hw. unfold write_step in Hw. rewrite Epc in Hw.
  destruct (compareAndSwap (revision p) payload (row w)) as [[r' rv]|] eqn:Ec; [|done]. injection Hw as _ <-.
  destruct (saved_image w i p n payload intended base k prev r' rv (store_inv_reachable w Hr) Hp Epc Ec) as (-> & _ & _ & [[Hb ->]|Hm]); cbn [blob].
  - rewrite Hb. destruct (decide (base !! key = intended !! key)) as [E|E]; [left|right].
    + unfold sem. by rewrite E.
    + auto.
  - destruct (merge_spec _ _ _ _ key Hm) as [[El Hk]|(El & Hk & Hor)]; unfold localChanged in El; apply sem_compact in Hk.
    + apply negb_false_iff, bool_decide_eq_true in El. left. by split.
    + apply negb_true_iff, bool_decide_eq_false in El. right. by split.
Qed.

(** C34: A change saved by one process touches only its key, as long as no reading of the row
    after a failed compare-and-swap has failed, in any process. If the payload a process
    writes agrees with the image it had read on all keys but the one being changed,
    then saving it, whatever other processes wrote in between, gives every other key
    the value it had in the table at that moment, and gives the key the intended value
    only if the table still had the value the process had read, or already the
    intended one. The condition is needed: [failed_read_loses_peer_change] below shows a failed
    reload after which a process writes an old value over the change of a peer to another key. *)
Theorem saved_change_touches_its_key w i p n payload intended base k prev p' row' :
  reachable false w → procs w !! i = Some p → pc p = Writing n payload intended base k prev →
  (∀ key, key ≠ k → sem intended key = sem base key) →
  write_step false p (row w) = (Saved, p', row') →
  (∀ key, key ≠ k → sem (blob row') key = sem (blob (row w)) key) ∧
  (base !! k = intended !! k ∨
   sem (blob row') k = sem intended k ∧ (sem (blob (row w)) k = sem base k ∨ sem (blob (row w)) k = sem intended k)).
Proof.
  intros Hr Hp Epc Hal Hw. pose proof (saved_keys w i p n payload intended base k prev p' row') as Hk. split.
  - intros key Hne. destruct (Hk key Hr Hp Epc Hw) as [[H _]|(H & _ & Hor)]; [done|]. rewrite H, (Hal _ Hne).
    unfold sem. destruct Hor as [->| ->]; [done|]. symmetry. by apply Hal.
  - destruct (Hk k Hr Hp Epc Hw) as [[_ E]|(H & _ & Hor)]; [by left|]. right. split; [done|].
    unfold sem. destruct Hor as [->| ->]; auto.
Qed.

(** The hypothesis holds when the live map is what the process has last read. *)
Lemma change_aligned p k next payload intended base n k' prev :
  (∀ key, values p !! key = sem (snapshot p) key) →
  pc (start_change k next p) = Writing n payload intended base k' prev →
  k' = k ∧ ∀ key, key ≠ k → sem intended key = sem base key.
Proof.
  intros Hv E. cbn in E. injection E as _ _ <- <- <- _. split; [done|]. intros key Hne. rewrite <- Hv. unfold sem, encode.
  rewrite lookup_fmap. destruct next; rewrite ?lookup_insert_ne, ?lookup_delete_ne by done;
    (destruct (values p !! key); cbn; [apply parse_print|done]).
Qed.

End Store.

(** ** Witnesses and failures *)

(** Values whose text is themselves. *)
#[export] Instance text_val : JSONVal string := {| print s := s; compact s := s; parse s := Some s |}.
#[export] Instance text_laws : JSONValLaws string.
Proof. by constructor. Qed.

Module Demo.

(** Both processes have read [x] and [y]; the first then changes a key of its own. *)
Definition both : Raw := <["x" := "1"]> {["y" := "1"]}.
Definition idle : Proc := bindControlPlaneState (V := string) ∅ (Some (both, 1)).
Definition saved (p : Proc) (row : Row) : Proc * Row := let '(_, p', row') := write_step false p row in (p', row').

Definition p0 : Proc := bindControlPlaneState (V := string) ∅ None.
Definition p1 : Proc := start_change "x" (Some "1") p0.
Definition w1 : World := mkWorld (V := string) None {[0%nat := p1]} {[-1 := ∅]}.

Lemma demo_reach : reachable false w1.
Proof.
  eapply rtc_l; [apply (SBind false start 0%nat ∅)|]. eapply rtc_l; [apply (SChange false _ 0%nat p0 "x" (Some "1")); vm_compute; reflexivity|].
  assert (E : mkWorld (V := string) None {[0%nat := p1]} {[-1 := ∅]} = w1) by done. rewrite <- E. vm_compute. apply rtc_refl.
Qed.

Lemma saved_change_touches_its_key_witness :
  let '(_, _, row') := write_step false p1 (row w1) in
  (∀ key, key ≠ "x" → sem (V := string) (blob row') key = sem (blob (row w1)) key) ∧
  ((∅ : Raw) !! "x" = ({["x" := "1"]} : Raw) !! "x" ∨
   sem (V := string) (blob row') "x" = sem ({["x" := "1"]} : Raw) "x" ∧
     (sem (V := string) (blob (row w1)) "x" = sem (∅ : Raw) "x" ∨ sem (V := string) (blob (row w1)) "x" = sem ({["x" := "1"]} : Raw) "x")).
Proof.
  destruct (write_step false p1 (row w1)) as [[ans p'] row'] eqn:E.
  apply (saved_change_touches_its_key w1 0%nat p1 0 {["x" := "1"]} {["x" := "1"]} ∅ "x" None p' row').
  - exact demo_reach.
  - vm_compute. reflexivity.
  - vm_compute. reflexivity.
  - intros key Hne. unfold sem. rewrite lookup_singleton_ne, lookup_empty by congruence. reflexivity.
  - rewrite E. vm_compute in E. injection E as <- _ _. reflexivity.
Defined.

(** A peer's deletion is undone. The peer has deleted [y] while this process changes
    [x]; the merge is right, but decoding it into the live map keeps [y] there, and the
    next change, of [z], writes [y] back. *)
Example peer_deletion_undone :
  let '(peer, row) := saved (start_change "y" None idle) (Some (both, 1)) in
  let '(_, a, _) := write_step false (start_change "x" (Some "2") idle) row in
  let '(_, a) := load_step false a row in
  let '(a, row) := saved a row in
  let '(a, row') := saved (start_change "z" (Some "1") a) row in
  blob row !! "y" = None ∧ blob row' !! "y" = Some "1".
Proof. vm_compute. split; reflexivity. Qed.

(** A refused change takes effect later. The peer deletes [y] while this process
    changes it; the change is reported as refused, but stays in the live map and is
    written with the next change of another key. *)
Example refused_change_saved_later :
  let '(peer, row) := saved (start_change "y" None idle) (Some (both, 1)) in
  let '(_, a, _) := write_step false (start_change "y" (Some "2") idle) row in
  let '(ans, a) := load_step false a row in
  let '(a, row') := saved (start_change "z" (Some "1") a) row in
  ans = Refreshed ∧ blob row !! "y" = None ∧ blob row' !! "y" = Some "2".
Proof. vm_compute. split_and!; reflexivity. Qed.

(** A peer's change is lost. After a conflict the process records the revision it has
    read; if the next compare-and-swap and the read after it fail, the older base is
    restored but the revision stays, and the next change overwrites the peer's. *)
Example failed_read_loses_peer_change :
  let '(peer, row) := saved (start_change "y" (Some "2") idle) (Some (both, 1)) in
  let '(_, a, _) := write_step false (start_change "x" (Some "2") idle) row in
  let '(_, a) := load_step false a row in
  let '(_, a, _) := write_step true a row in
  let '(ans, a) := load_step true a row in
  let '(a, row') := saved (start_change "z" (Some "1") a) row in
  ans = Failed ∧ blob row !! "y" = Some "2" ∧ blob row' !! "y" = Some "1".
Proof. vm_compute. split_and!; reflexivity. Qed.

(** Binding revives deleted keys: [y] was deleted from the table, but is still in the
    legacy file the store was opened from. *)
Example binding_revives_deleted :
  let a := bindControlPlaneState (V := string) {["y" := "1"]} (Some ({["x" := "1"]}, 2)) in
  let '(a, row) := saved (start_change "z" (Some "1") a) (Some ({["x" := "1"]}, 2)) in
  blob row !! "y" = Some "1".
Proof. vm_compute. reflexivity. Qed.

End Demo.

End ControlState.
