(* ===== verification/DomainClaims.v ===== *)
(** * DomainClaims: which site may serve a domain

    Models the store of [src/domain_claims.go]: claiming a domain for a site,
    reserving a site name, DNS verification (the lookup runs without the lock, so
    other operations come between its two halves), confirmation and removal.
    Persistence is [persistMapKeyChange] and [persistMapFilter] of
    [src/state_persistence.go] over [persistBoundControlPlaneState] of
    [src/controlplane.go], at the level of decoded claims: [ControlState] models the
    latter statement by statement, with the texts of the values. Here a write is one
    step, because the process changes the row once, when its last compare-and-swap
    succeeds, and reads it in the same state before. The last part interleaves any number
    of processes on one row and shows that none of them takes a claim for verified
    without its token having been seen in the DNS of its domain. *)
From S2P Require Import Prelude GoText DomainName Names.

Module DomainClaims.
Import GoText.

Record DomainClaim := mkClaim { Domain : string; Site : string; Token : string; State : string; VerifiedAt : option Z;
  LastError : string; Tenant : string; ExpiresAt : option Z }.
#[export] Instance DomainClaim_eq : EqDecision DomainClaim.
Proof. solve_decision. Defined.
Abbreviation Values := (gmap string DomainClaim).

Definition domainReservationTTL : Z := 72 * Hour.
Definition errSiteNameReserved : error := ESentinel "site name is reserved by another account".
Definition errDomainClaimChanged : error := ESentinel "domain claim changed during verification; verify again".

(** [DomainClaim.expired]. *)
Definition expired (c : DomainClaim) (now : Z) : bool :=
  match ExpiresAt c with Some t => t <=? now | None => false end.

(** ** Persistence *)

(** What a process sees: its live map, the last durable image it has seen, and the row. *)
Record Store := mkStore { values : Values; snapshot : Values; row : Values }.
Definition with_values (m : Values) (s : Store) : Store := mkStore m (snapshot s) (row s).
Definition errControlPlaneStateRefreshed : error := ESentinel "control-plane state refreshed from durable peer state".

(** [mergeControlPlaneState] of decoded maps: the peers' map with the changes from [base] to
    [intended], unless a peer has changed the same key otherwise. *)
Definition localChanged (base intended : Values) (k : string) : bool := negb (bool_decide (base !! k = intended !! k)).
Definition conflicts (base intended remote : Values) (k : string) : bool :=
  localChanged base intended k && negb (bool_decide (base !! k = remote !! k)) && negb (bool_decide (intended !! k = remote !! k)).
Definition merge (base intended remote : Values) : option Values :=
  if existsb (conflicts base intended remote) (elements (dom base ∪ dom intended)) then None
  else Some (filter (λ kv : string * DomainClaim, localChanged base intended kv.1 = true) intended ∪
             filter (λ kv : string * DomainClaim, localChanged base intended kv.1 = false) remote).

(** [persistLocked] of the live map [changed]. Fault 10: the first compare-and-swap fails
    although no peer was first; 11: reading the row after a failed one; 12: the row stays busy
    until the retries are used up, or the texts of two equal values differ. The row that is
    written, or read after a refusal, is decoded over the live map: keys of [changed] that it
    does not have stay. *)
Definition persistLocked (e : Env) (changed : Values) (s : Store) : option error * Store :=
  if negb (fault e 10) && bool_decide (row s = snapshot s) then (None, mkStore changed changed changed) else
  if fault e 11 then (Some io_err, mkStore (snapshot s ∪ changed) (snapshot s) (row s)) else
  match (if fault e 12 then None else merge (snapshot s) changed (row s)) with
  | Some m => (None, mkStore (m ∪ changed) m m)
  | None => (Some errControlPlaneStateRefreshed, mkStore (row s ∪ changed) (row s) (row s))
  end.

Definition persistMapKeyChange (e : Env) (key : string) (next : DomainClaim) (s : Store) : option error * Store :=
  match persistLocked e (<[key := next]> (values s)) s with
  | (None, s') => (None, s')
  | (Some err, s') =>
      if bool_decide (err = errControlPlaneStateRefreshed) then (Some err, s') else
      (Some err, with_values (match values s !! key with Some previous => <[key := previous]> (values s') | None => delete key (values s') end) s')
  end.

Definition persistMapFilter (e : Env) (remove : string → DomainClaim → bool) (s : Store) : option error * Store :=
  let removed := filter (λ kv : string * DomainClaim, remove kv.1 kv.2 = true) (values s) in
  let kept := filter (λ kv : string * DomainClaim, remove kv.1 kv.2 = false) (values s) in
  if bool_decide (removed = ∅) then (None, s) else
  match persistLocked e kept s with
  | (None, s') => (None, s')
  | (Some err, s') =>
      if bool_decide (err = errControlPlaneStateRefreshed) then (Some err, s') else (Some err, with_values (removed ∪ values s') s')
  end.

(** ** The store *)

(** The check of [OpenDomainClaimStore]. *)
Definition valid_entry (key : string) (c : DomainClaim) : bool :=
  bool_decide (key = Domain c) && DomainName.Valid (Domain c) && negb (bool_decide (Names.safeUser (Site c) = "")) &&
  (bool_decide (State c = "pending") || bool_decide (State c = "verified")).
Definition OpenDomainClaimStore (file : option Values) : res Values :=
  match file with
  | None => Ok ∅
  | Some m => if forallb (λ kv : string * DomainClaim, valid_entry kv.1 kv.2) (map_to_list m) then Ok m
              else Err (EMsg "invalid durable domain claim state")
  end.

Definition saveIfCurrent (e : Env) (read updated : DomainClaim) (s : Store) : option error * Store :=
  match values s !! Domain read with
  | Some current =>
      if bool_decide (Token read = "") || negb (bool_decide (Site current = Site read)) || negb (bool_decide (Token current = Token read))
      then (Some errDomainClaimChanged, s)
      else persistMapKeyChange e (Domain updated) updated s
  | None => (Some errDomainClaimChanged, s)
  end.

Definition removeSite (e : Env) (site : string) (s : Store) : option error * Store :=
  persistMapFilter e (λ _ c, bool_decide (Site c = site)) s.

Definition verifiedFor (e : Env) (site domain : string) (values : Values) : bool :=
  match values !! domain with
  | Some c => bool_decide (Site c = site) && bool_decide (State c = "verified") && bool_decide (is_Some (VerifiedAt c)) && negb (expired c (clock e 0))
  | None => false
  end.

Definition tenantOf (e : Env) (site domain : string) (values : Values) : option string :=
  match values !! domain with
  | Some c => if negb (bool_decide (Site c = site)) || expired c (clock e 0) then None else Some (Tenant c)
  | None => None
  end.

(** [reservedBy]: the loop returns the first claim found, in no particular order. *)
Definition live_reservation (site : string) (now : Z) (c : DomainClaim) : bool :=
  bool_decide (Site c = site) && bool_decide (is_Some (ExpiresAt c)) && negb (expired c now).
Definition reservedBy (e : Env) (site : string) (values : Values) : option string :=
  Tenant <$> head (filter (λ c, live_reservation site (clock e 0) c = true) (snd <$> map_to_list values)).

(** [setReservation]: the loop changes the map in place; on every error, a refresh
    included, the map as it was before is put back. *)
Definition rearm (site : string) (expires : option Z) (c : DomainClaim) : DomainClaim :=
  if negb (bool_decide (Site c = site)) || bool_decide (Tenant c = "") || bool_decide (ExpiresAt c = expires) then c
  else mkClaim (Domain c) (Site c) (Token c) (State c) (VerifiedAt c) (LastError c) (Tenant c) expires.
Definition setReservation (e : Env) (site : string) (active : bool) (s : Store) : option error * Store :=
  let expires := if active then Some (clock e 0 + domainReservationTTL) else None in
  let changed := rearm site expires <$> values s in
  if bool_decide (changed = values s) then (None, s) else
  match persistLocked e changed s with
  | (None, s') => (None, s')
  | (Some err, s') => (Some err, with_values (values s) s')
  end.

(** [claimFor]; the secret is [rand e 0]. *)
Definition reserved_by_other (site tenant : string) (now : Z) (c : DomainClaim) : bool :=
  bool_decide (Site c = site) && negb (bool_decide (Tenant c = tenant)) && negb (expired c now).
Definition new_claim (e : Env) (site domain tenant : string) (reserve : bool) (s : Store) : res DomainClaim * Store :=
  match rand e 0 with
  | None => (Err io_err, s)
  | Some token =>
      let c := mkClaim domain site token "pending" None "" tenant (if reserve then Some (clock e 0 + domainReservationTTL) else None) in
      match persistMapKeyChange e domain c s with
      | (Some err, s') => (Err err, s')
      | (None, s') => (Ok c, s')
      end
  end.
Definition claimFor (e : Env) (site domain tenant : string) (reserve : bool) (s : Store) : res DomainClaim * Store :=
  let now := clock e 0 in
  if reserve && existsb (reserved_by_other site tenant now) (snd <$> map_to_list (values s)) then (Err errSiteNameReserved, s) else
  match values s !! domain with
  | Some existing =>
      if expired existing now then new_claim e site domain tenant reserve s else
      if negb (bool_decide (Site existing = site)) then (Err (EMsg "domain is already claimed by another site"), s) else
      if negb (bool_decide (Tenant existing = "")) && negb (bool_decide (tenant = "")) && negb (bool_decide (Tenant existing = tenant))
      then (Err errSiteNameReserved, s) else
      if bool_decide (State existing = "verified") || bool_decide (State existing = "pending") then (Ok existing, s)
      else new_claim e site domain tenant reserve s
  | None => new_claim e site domain tenant reserve s
  end.

(** [verify] up to the lookup: the claim it has read. *)
Definition verify_read (e : Env) (site domain : string) (values : Values) : res DomainClaim :=
  match values !! domain with
  | Some read =>
      if negb (bool_decide (Site read = site)) || bool_decide (Token read = "") || expired read (clock e 0)
      then Err (EMsg "domain claim was not found") else Ok read
  | None => Err (EMsg "domain claim was not found")
  end.

(** [verify] after the lookup of the TXT records of [_stepanel.<domain>]. *)
Definition pending_claim (read : DomainClaim) (why : string) : DomainClaim :=
  mkClaim (Domain read) (Site read) (Token read) "pending" None why (Tenant read) (ExpiresAt read).
Definition verified_claim (read : DomainClaim) (now : Z) : DomainClaim :=
  mkClaim (Domain read) (Site read) (Token read) "verified" (Some now) "" (Tenant read) (ExpiresAt read).
Definition verify_answer (e : Env) (read : DomainClaim) (answer : option (list string)) (s : Store) : res DomainClaim * Store :=
  match answer with
  | None =>
      match saveIfCurrent e read (pending_claim read "DNS TXT lookup failed") s with
      | (Some err, s') => (Err (EWrap "persist DNS verification failure" err), s')
      | (None, s') => (Err (EMsg "DNS TXT verification failed"), s')
      end
  | Some texts =>
      if negb (existsb (λ t, bool_decide (TrimSpace t = Token read)) texts) then
        match saveIfCurrent e read (pending_claim read "verification token was not found in DNS TXT") s with
        | (Some err, s') => (Err (EWrap "persist DNS verification failure" err), s')
        | (None, s') => (Err (EMsg "DNS TXT verification token was not found"), s')
        end
      else
        match saveIfCurrent e read (verified_claim read (clock e 0)) s with
        | (Some err, s') => (Err err, s')
        | (None, s') => (Ok (verified_claim read (clock e 0)), s')
        end
  end.

(** ** Interleavings *)

(** The row, which all processes share; each process with its live map and the image it has
    seen; the lookups under way, each with its process; and every token seen in the DNS of a
    domain. *)
Record World := mkWorld { durable : Values; procs : gmap nat (Values * Values); lookups : list (nat * DomainClaim); seen : gset (string * string) }.
Definition store_of (w : World) (p : Values * Values) : Store := mkStore p.1 p.2 (durable w).
Definition put_store (i : nat) (s : Store) (w : World) : World :=
  mkWorld (row s) (<[i := (values s, snapshot s)]> (procs w)) (lookups w) (seen w).

(** What a lookup shows. *)
Definition shows (domain : string) (answer : option (list string)) : gset (string * string) :=
  match answer with Some texts => list_to_set ((λ t, (domain, TrimSpace t)) <$> texts) | None => ∅ end.

(** A process starts from the row, without the lookups of the one it replaces; any of its
    operations is a step, the two halves of a verification are two. *)
Inductive step : World → World → Prop :=
  | SBind w i : step w (mkWorld (durable w) (<[i := (durable w, durable w)]> (procs w)) (filter (λ l, l.1 ≠ i) (lookups w)) (seen w))
  | SClaim w i p e site domain tenant reserve r s :
      procs w !! i = Some p → claimFor e site domain tenant reserve (store_of w p) = (r, s) → step w (put_store i s w)
  | SRemove w i p e site r s :
      procs w !! i = Some p → removeSite e site (store_of w p) = (r, s) → step w (put_store i s w)
  | SReserve w i p e site active r s :
      procs w !! i = Some p → setReservation e site active (store_of w p) = (r, s) → step w (put_store i s w)
  | SRead w i p e site domain read :
      procs w !! i = Some p → verify_read e site domain p.1 = Ok read →
      step w (mkWorld (durable w) (procs w) ((i, read) :: lookups w) (seen w))
  | SAnswer w i p e read l1 l2 answer r s :
      procs w !! i = Some p → lookups w = l1 ++ (i, read) :: l2 → verify_answer e read answer (store_of w p) = (r, s) →
      step w (mkWorld (row s) (<[i := (values s, snapshot s)]> (procs w)) (l1 ++ l2) (seen w ∪ shows (Domain read) answer)).
Definition start : World := mkWorld ∅ ∅ [] ∅.
Definition reachable (w : World) : Prop := rtc step start w.

(** Every verified claim is one whose token was seen. *)
Definition proven (m : Values) (s : gset (string * string)) : Prop :=
  ∀ d c, m !! d = Some c → Domain c = d ∧ (State c = "verified" → (d, Token c) ∈ s).
Definition proven_store (s : Store) (t : gset (string * string)) : Prop := proven (values s) t ∧ proven (snapshot s) t ∧ proven (row s) t.
Definition proven_world (w : World) : Prop :=
  proven (durable w) (seen w) ∧ ∀ i p, procs w !! i = Some p → proven p.1 (seen w) ∧ proven p.2 (seen w).

Lemma proven_mono m s s' : s ⊆ s' → proven m s → proven m s'.
Proof. intros Hs H d c Hc. destruct (H d c Hc) as [Hd Hv]. split; [done|]. intros E. by apply Hs, Hv. Qed.
Lemma proven_insert m s d c : proven m s → Domain c = d → (State c = "verified" → (d, Token c) ∈ s) → proven (<[d := c]> m) s.
Proof. intros H Hd Hv d' c' [[<- <-]|[_ Hc]]%lookup_insert_Some; [done|by apply H]. Qed.
Lemma proven_union m1 m2 s : proven m1 s → proven m2 s → proven (m1 ∪ m2) s.
Proof. intros H1 H2 d c [Hc|[_ Hc]]%lookup_union_Some_raw; [by apply H1|by apply H2]. Qed.
Lemma proven_filter m s (P : string * DomainClaim → Prop) `{∀ x, Decision (P x)} : proven m s → proven (filter P m) s.
Proof. intros H1 d c [Hc _]%map_lookup_filter_Some. by apply H1. Qed.

Section Proven.
Context (t : gset (string * string)).
Lemma persistLocked_proven e changed s r s' :
  proven_store s t → proven changed t → persistLocked e changed s = (r, s') → proven_store s' t.
Proof.
  intros (H1 & H2 & H3) Hm. unfold persistLocked, proven_store. case_if; [by intros [= _ <-]|]. case_if; [intros [= _ <-]; split_and!; [by apply proven_union|done..]|].
  destruct (if fault e 12 then None else merge _ _ _) as [m|] eqn:Em; intros [= _ <-]; cbn; [|split_and!; [by apply proven_union|done..]].
  assert (proven m t); [|split_and!; [by apply proven_union|done..]]. case_if; [done|]. unfold merge in Em. case_if; [done|]. injection Em as <-.
  apply proven_union; by apply proven_filter.
Qed.
Lemma with_values_proven m s : proven_store s t → proven m t → proven_store (with_values m s) t.
Proof. intros (H1 & H2 & H3) Hm. done. Qed.
Lemma persist_proven e k c s r s' :
  proven_store s t → Domain c = k → (State c = "verified" → (k, Token c) ∈ t) → persistMapKeyChange e k c s = (r, s') → proven_store s' t.
Proof.
  intros Hs Hd Hv. pose proof Hs as (Hm & _). unfold persistMapKeyChange.
  destruct (persistLocked _ _ _) as [[err|] s1] eqn:Ep; (eapply persistLocked_proven in Ep; [|exact Hs|by apply proven_insert]); [|by intros [= _ <-]].
  case_if; [by intros [= _ <-]|]. intros [= _ <-]. apply with_values_proven; [done|]. destruct Ep as (Hv1 & _).
  destruct (values s !! k) as [c1|] eqn:E; [by apply proven_insert; [|apply Hm..]|]. intros d c1 [_ Hc]%lookup_delete_Some. by apply Hv1.
Qed.
Lemma new_claim_proven e site domain tenant reserve s r s' :
  proven_store s t → new_claim e site domain tenant reserve s = (r, s') → proven_store s' t.
Proof.
  intros Hs. unfold new_claim. destruct (rand e 0) as [token|]; [|by intros [= _ <-]].
  destruct (persistMapKeyChange e domain _ s) as [r1 s1] eqn:Ep. intros Hr.
  assert (s' = s1) as -> by (destruct r1; by injection Hr). by eapply persist_proven; [..|exact Ep].
Qed.
Lemma saveIfCurrent_proven e read updated s r s' :
  proven_store s t → Domain updated = Domain read → (State updated = "verified" → (Domain read, Token updated) ∈ t) →
  saveIfCurrent e read updated s = (r, s') → proven_store s' t.
Proof.
  intros Hs Hd Hv. unfold saveIfCurrent. destruct (values s !! Domain read) as [cur|]; [|by intros [= _ <-]].
  case_if; [by intros [= _ <-]|]. rewrite Hd. by apply persist_proven.
Qed.
Lemma claimFor_proven e site domain tenant reserve s r s' :
  proven_store s t → claimFor e site domain tenant reserve s = (r, s') → proven_store s' t.
Proof.
  intros Hs Hc. unfold claimFor in Hc. repeat (case_match || case_if); first [by injection Hc as _ <- | by eapply new_claim_proven; [exact Hs|exact Hc]].
Qed.
Lemma removeSite_proven e site s r s' : proven_store s t → removeSite e site s = (r, s') → proven_store s' t.
Proof.
  intros Hs. pose proof Hs as (Hm & _). unfold removeSite, persistMapFilter. case_if; [by intros [= _ <-]|].
  destruct (persistLocked _ _ _) as [[err|] s1] eqn:Ep; (eapply persistLocked_proven in Ep; [|exact Hs|by apply proven_filter]); [case_if|]; intros [= _ <-]; try done.
  apply with_values_proven; [done|]. apply proven_union; [by apply proven_filter|apply Ep].
Qed.
Lemma setReservation_proven e site active s r s' : proven_store s t → setReservation e site active s = (r, s') → proven_store s' t.
Proof.
  intros Hs. pose proof Hs as (Hm & _). unfold setReservation. case_if; [by intros [= _ <-]|].
  destruct (persistLocked _ _ _) as [[err|] s1] eqn:Ep; (eapply persistLocked_proven in Ep; [|exact Hs|]); [|shelve|by intros [= _ <-]|shelve].
  { intros [= _ <-]. by apply with_values_proven. }
  Unshelve. all: intros d c Hc; rewrite lookup_fmap in Hc; destruct (values s !! d) as [c0|] eqn:E; [|done]; injection Hc as <-;
    unfold rearm; case_if; exact (Hm d c0 E).
Qed.
End Proven.

Lemma existsb_shows domain texts token :
  existsb (λ t, bool_decide (TrimSpace t = token)) texts = true → (domain, token) ∈ shows domain (Some texts).
Proof.
  rewrite existsb_exists_elem. intros (t & Ht & <-%bool_decide_eq_true). unfold shows. apply elem_of_list_to_set.
  by apply (list_elem_of_fmap_2 (λ t, (domain, TrimSpace t))).
Qed.
Lemma verify_answer_proven e read answer s r s' t :
  proven_store s (t ∪ shows (Domain read) answer) → verify_answer e read answer s = (r, s') → proven_store s' (t ∪ shows (Domain read) answer).
Proof.
  intros Hs Hc. unfold verify_answer in Hc. destruct answer as [texts|].
  - destruct (existsb _ texts) eqn:Ee; cbn [negb] in Hc; destruct (saveIfCurrent _ _ _ _) as [[err|] s1] eqn:Es; injection Hc as _ <-;
      (eapply saveIfCurrent_proven; [exact Hs| | |exact Es]; [done|]); intros; try done; apply elem_of_union; right; by apply existsb_shows.
  - destruct (saveIfCurrent _ _ _ _) as [[err|] s1] eqn:Es; injection Hc as _ <-; by eapply saveIfCurrent_proven; [exact Hs| | |exact Es].
Qed.

Lemma put_proven i s w l t : proven_world w → seen w ⊆ t → proven_store s t →
  proven_world (mkWorld (row s) (<[i := (values s, snapshot s)]> (procs w)) l t).
Proof.
  intros [_ H2] Ht (H3 & H4 & H5). split; [done|]. cbn. intros j p [[_ <-]|[_ Hp]]%lookup_insert_Some; [done|].
  destruct (H2 j p Hp). split; by eapply proven_mono.
Qed.
Lemma proven_step w w' : step w w' → proven_world w → proven_world w'.
Proof.
  intros S I. pose proof I as [Hd Hp]. assert (∀ i p, procs w !! i = Some p → proven_store (store_of w p) (seen w)) as Hs.
  { intros i p E. by destruct (Hp i p E). }
  destruct S as [w i|w i p e site domain tenant reserve r s Hi Hc|w i p e site r s Hi Hc|w i p e site active r s Hi Hc|w i p e site domain read Hi Hc|w i p e read l1 l2 answer r s Hi Hl Hc].
  - split; [done|]. cbn. intros j p [[_ <-]|[_ E]]%lookup_insert_Some; [done|by eapply Hp].
  - apply put_proven; [done..|]. by eapply claimFor_proven, Hc; eapply Hs.
  - apply put_proven; [done..|]. by eapply removeSite_proven, Hc; eapply Hs.
  - apply put_proven; [done..|]. by eapply setReservation_proven, Hc; eapply Hs.
  - done.
  - apply put_proven; [done|set_solver|]. eapply verify_answer_proven, Hc. destruct (Hs i p Hi) as (H1 & H2 & H3).
    split_and!; (eapply proven_mono; [|done]; set_solver).
Qed.
Lemma proven_reachable w : reachable w → proven_world w.
Proof.
  intros Hr. assert (proven_world start) as H0 by (split; [intros d c; cbn; by rewrite lookup_empty|intros i p; cbn; by rewrite lookup_empty]).
  revert H0. unfold reachable in Hr. induction Hr; eauto using proven_step.
Qed.

(** The claim that is recorded for the domain is the one that was looked up. *)
Definition current (read : DomainClaim) (m : Values) : Prop :=
  ∃ c, m !! Domain read = Some c ∧ Site c = Site read ∧ Token c = Token read.
Lemma saveIfCurrent_cases e read updated s r s' : saveIfCurrent e read updated s = (r, s') →
  current read (values s) ∧ Token read ≠ "" ∨ r = Some errDomainClaimChanged ∧ s' = s.
Proof.
  unfold saveIfCurrent. destruct (values s !! Domain read) as [c|] eqn:E; [|by intros [= <- <-]; right]. case_if; [by intros [= <- <-]; right|]. intros _. left.
  apply orb_false_iff in Heqb as [[H1 H2]%orb_false_iff H3]. apply bool_decide_eq_false in H1. apply negb_false_iff, bool_decide_eq_true in H2, H3.
  split; [by exists c|done].
Qed.
Lemma verify_answer_saves e read answer s r s' : verify_answer e read answer s = (r, s') →
  ∃ updated r1, saveIfCurrent e read updated s = (r1, s') ∧
    ∀ c, r = Ok c → r1 = None ∧ c = verified_claim read (clock e 0) ∧ ∃ texts, answer = Some texts ∧ existsb (λ t, bool_decide (TrimSpace t = Token read)) texts = true.
Proof.
  unfold verify_answer. intros H. destruct answer as [texts|]; [destruct (existsb _ texts) eqn:Ee; cbn [negb] in H|].
  all: destruct (saveIfCurrent _ _ _ _) as [[err|] s1] eqn:Es; injection H as <- <-; do 2 eexists; (split; [exact Es|]); intros c [= <-]; eauto.
Qed.


(** A reservation excludes the other tenants: a successful claim that reserves a site
    name finds no live claim of another tenant for it. *)
Theorem reservation_exclusive e site domain tenant s c s' d c' :
  claimFor e site domain tenant true s = (Ok c, s') → values s !! d = Some c' → Site c' = site → expired c' (clock e 0) = false →
  Tenant c' = tenant.
Proof.
  unfold claimFor. cbn [andb]. case_if; [done|]. intros _ Hd Hs He.
  rewrite existsb_false_elem in Heqb. specialize (Heqb c'). unfold reserved_by_other in Heqb.
  rewrite He, bool_decide_true in Heqb by done. cbn in Heqb. rewrite andb_true_r in Heqb.
  apply negb_false_iff, bool_decide_eq_true in Heqb; [done|]. apply (list_elem_of_fmap_2' snd _ (d, c')); [|done]. by apply elem_of_map_to_list.
Qed.

(** [setReservation] puts its own copy of the map back on every error, also when the
    error says that the map was refreshed from a peer: the peer's claims are gone from
    memory although the process now counts the row as seen. *)
Theorem setReservation_discards_refresh e site active s s' :
  setReservation e site active s = (Some errControlPlaneStateRefreshed, s') → values s' = values s ∧ snapshot s' = row s.
Proof.
  unfold setReservation. case_if; [done|]. destruct (persistLocked _ _ _) as [[err|] s1] eqn:Ep; [|done]. intros [= -> <-]. split; [done|].
  unfold persistLocked in Ep. case_if; [done|]. case_if; [done|]. destruct (if fault e 12 then None else _); [done|]. by injection Ep as <-.
Qed.

(** ** Witness *)

(** Two processes; each claims a domain, the first verifies its own after the second has
    written, so that its write is merged. *)
Definition e0 : Env := calm 1000 "secret-1".
Definition e1 : Env := calm 1001 "secret-2".
Definition c0 : DomainClaim := mkClaim "blog.example.com" "blog" "secret-1" "pending" None "" "t1" (Some (1000 + domainReservationTTL)).
Definition after {A} (x : A * Store) (w : World) (i : nat) : World := put_store i x.2 w.
Definition p_of (w : World) (i : nat) : Values * Values := default (∅, ∅) (procs w !! i).
Definition w1 : World := mkWorld ∅ {[0%nat := (∅, ∅)]} [] ∅.
Definition w2 : World := mkWorld ∅ {[0%nat := (∅, ∅); 1%nat := (∅, ∅)]} [] ∅.
Definition w3 : World := after (claimFor e0 "blog" "blog.example.com" "t1" true (store_of w2 (p_of w2 0))) w2 0.
Definition w4 : World := mkWorld (durable w3) (procs w3) [(0%nat, c0)] ∅.
Definition w5 : World := after (claimFor e1 "shop" "shop.example.com" "t2" true (store_of w4 (p_of w4 1))) w4 1.
Definition answer0 : option (list string) := Some ["other"; " secret-1"].
Definition s6 : Store := (verify_answer e1 c0 answer0 (store_of w5 (p_of w5 0))).2.
Definition w6 : World := mkWorld (row s6) (<[0%nat := (values s6, snapshot s6)]> (procs w5)) [] (∅ ∪ shows "blog.example.com" answer0).

Lemma claims_reach : reachable w6.
Proof.
  eapply rtc_l; [exact (SBind start 0)|]. change (rtc step w1 w6). eapply rtc_l; [exact (SBind w1 1)|].
  replace (mkWorld _ _ _ _) with w2 by (vm_compute; reflexivity).
  eapply rtc_l; [eapply (SClaim w2 0 (p_of w2 0) e0 "blog" "blog.example.com" "t1" true); [vm_compute; reflexivity|apply surjective_pairing]|].
  change (rtc step w3 w6). eapply rtc_l; [apply (SRead w3 0 (p_of w3 0) e0 "blog" "blog.example.com" c0); vm_compute; reflexivity|].
  change (rtc step w4 w6). eapply rtc_l; [eapply (SClaim w4 1 (p_of w4 1) e1 "shop" "shop.example.com" "t2" true); [vm_compute; reflexivity|apply surjective_pairing]|].
  change (rtc step w5 w6). apply rtc_once. apply (SAnswer w5 0 (p_of w5 0) e1 c0 [] [] answer0 (verify_answer e1 c0 answer0 (store_of w5 (p_of w5 0))).1 s6); [vm_compute; reflexivity|reflexivity|apply surjective_pairing].
Qed.

(** Both claims are in the row, and in the map of the first process. *)
Example witness_merged : dom (durable w6) = {["blog.example.com"; "shop.example.com"]} ∧ dom (p_of w6 0).1 = {["blog.example.com"; "shop.example.com"]}.
Proof. vm_compute. split; reflexivity. Qed.

End DomainClaims.
