(* ===== verification/HTAccess.v ===== *)
(** * HTAccess: translation of Apache directives

    Models [translateHTAccess] of [src/htaccess.go] and its helpers: the lines of an
    untrusted [.htaccess] file become directives of a Caddy configuration, and the
    lines that are not understood are reported. The theorem says that nothing of the
    file reaches the configuration but the two arguments of a redirection, which
    cannot end their line, open a block or start a quotation. *)
From S2P Require Import Prelude GoText Regex SafeHTTP BrokerValidate SiteTx.

Module HTAccess.
Import GoText Regex SafeHTTP BrokerValidate.

(** ** Redirections *)

Definition maxHTAccessBytes : Z := 262144.
Definition maxLineBytes : Z := 65536.
Definition path_byte : re :=
  Cls ([("A", "Z"); ("a", "z"); ("0", "9"); (".", "."); ("_", "_"); ("~", "~"); ("!", "!"); ("$", "$"); ("&", "&"); ("'", "'"); ("(", "("); (")", ")");
    ("*", "*"); ("+", "+"); (",", ","); (";", ";"); ("=", "="); (":", ":"); ("@", "@"); ("%", "%"); ("/", "/"); ("-", "-")]%char).
Definition redirectSourcePattern : re := Cat (byte "/"%char) (Star path_byte).
(** Space, tab, carriage return, line feed, braces and the quotation mark. *)
Definition active : list Z := [32; 9; 13; 10; 123; 125; 34].
Definition before_query (target : string) : string := (Cut "?"%char target).1.1.

Definition isFrontControllerTarget (target : string) : bool :=
  let target := before_query target in bool_decide (target = "/index.php") || bool_decide (target = "index.php").

Section translate.
Context `{!NetText}.

Definition safeRedirectTarget (target : string) : bool :=
  if bool_decide (target = "") || ContainsAny target active then false else
  if has_prefix target "/" then
    if has_prefix target "//" || GoText.Contains target "#" then false else MatchString redirectSourcePattern (before_query target)
  else
    match url_Parse target with
    | None => false
    | Some u => (bool_decide (u_Scheme u = "http") || bool_decide (u_Scheme u = "https")) && negb (bool_decide (u_Host u = "")) && negb (u_User u)
        && bool_decide (u_Fragment u = "")
    end.
Definition redirect_code (word : string) : option Z :=
  let lower := ToLower word in
  if bool_decide (lower = "permanent") then Some 301 else
  if bool_decide (lower = "temp") then Some 302 else
  match Atoi word with
  | Ok n => if (n <? 300) || (399 <? n) then None else Some n
  | Err _ => None
  end.
Definition redirect (source destination : string) (code : Z) : option string :=
  if negb (MatchString redirectSourcePattern source) || negb (safeRedirectTarget destination) then None
  else Some ("redir " +:+ source +:+ " " +:+ destination +:+ " " +:+ Itoa code).
Definition translateRedirect (fields : list string) : option string :=
  match fields with
  | [f0; source; destination] => if negb (EqualFold f0 "Redirect") then None else redirect source destination 302
  | [f0; word; source; destination] =>
      if negb (EqualFold f0 "Redirect") then None else
      match redirect_code word with None => None | Some code => redirect source destination code end
  | _ => None
  end.

(** ** Lines *)

Record Conv := mkConv {
  directives : list string; Warnings : list (Z * string); Supported : Z;
  conditionFile : bool; conditionDirectory : bool; frontControllerAdded : bool }.
Definition supported (c : Conv) : Conv := c <| Supported := Supported c + 1 |>.
Definition no_condition (c : Conv) : Conv := c <| conditionFile := false |> <| conditionDirectory := false |>.
Definition truncateHTAccessLine (line : string) : string :=
  if len line <=? 160 then line else of_bytes (take 157 (bytes_of line)) +:+ "...".
Definition front : string := "try_files {path} {path}/ /index.php?{query}".
Definition authorization : string := "RewriteRule .* - [E=HTTP_AUTHORIZATION:%{HTTP:Authorization}]".

Definition is_cond (fields : list string) (test : string) : bool :=
  match fields with
  | f0 :: f1 :: f2 :: _ => EqualFold f0 "RewriteCond" && EqualFold f1 "%{REQUEST_FILENAME}" && bool_decide (f2 = test)
  | _ => false
  end.
Definition is_pair (fields : list string) (name : string) (p : string → bool) : bool :=
  match fields with [f0; f1] => EqualFold f0 name && p f1 | _ => false end.
Definition is_index_rule (fields : list string) : bool :=
  match fields with
  | f0 :: f1 :: f2 :: rest =>
      EqualFold f0 "RewriteRule" && (bool_decide (f1 = "^index\.php$") || bool_decide (f1 = "^index.php$")) && bool_decide (f2 = "-")
      && GoText.Contains (ToUpper (join " " rest)) "[L"
  | _ => false
  end.
Definition is_front_rule (fields : list string) : bool :=
  match fields with f0 :: _ :: f2 :: _ => EqualFold f0 "RewriteRule" && isFrontControllerTarget f2 | _ => false end.

(** One line; [n] is its number. *)
Definition translate_line (n : Z) (line : string) (c : Conv) : Conv :=
  let raw := TrimSpace line in
  if bool_decide (raw = "") || has_prefix raw "#" then c else
  let fields := SiteTx.Fields raw in
  let lower := ToLower raw in
  if (has_prefix lower "<ifmodule " && has_suffix lower ">") || bool_decide (lower = "</ifmodule>") then supported c else
  if is_pair fields "RewriteEngine" (λ f, EqualFold f "On") then supported c else
  if is_pair fields "RewriteBase" (λ f, bool_decide (f = "/")) then supported c else
  if is_pair fields "Options" (λ f, bool_decide (f = "-Indexes")) then supported c else
  if EqualFold raw authorization then supported c else
  if is_cond fields "!-f" then supported (c <| conditionFile := true |>) else
  if is_cond fields "!-d" then supported (c <| conditionDirectory := true |>) else
  if is_index_rule fields then no_condition (supported c) else
  if is_front_rule fields && conditionFile c && conditionDirectory c then
    no_condition (supported (if frontControllerAdded c then c else c <| directives := directives c ++ [front] |> <| frontControllerAdded := true |>)) else
  match (if bool_decide (length fields = 3%nat) || bool_decide (length fields = 4%nat) then translateRedirect fields else None) with
  | Some directive => no_condition (supported (c <| directives := directives c ++ [directive] |>))
  | None => no_condition (c <| Warnings := Warnings c ++ [(n, truncateHTAccessLine raw)] |>)
  end.
Fixpoint translate_lines (n : Z) (lines : list string) (c : Conv) : Conv :=
  match lines with
  | [] => c
  | line :: rest => translate_lines (n + 1) rest (translate_line (n + 1) line c)
  end.

Record htaccessConversion := mkConversion { CaddyDirectives : string; c_Warnings : list (Z * string); c_Supported : Z }.
Definition line_feed : string := of_bytes [SiteTx.newline].
Definition translateHTAccess (content : string) : res htaccessConversion :=
  if maxHTAccessBytes <? len content then Err (EMsg ".htaccess content exceeds the limit") else
  if existsb (λ l, maxLineBytes <=? Z.of_nat (length l)) (split_bytes SiteTx.newline (bytes_of content)) then Err (EWrap "scan .htaccess" io_err) else
  let c := translate_lines 0 (SiteTx.scan_lines (bytes_of content)) (mkConv [] [] 0 false false false) in
  let text := join line_feed (directives c) in
  Ok (mkConversion (if bool_decide (text = "") then text else text +:+ line_feed) (Warnings c) (Supported c)).

(** ** Safety *)

(** No byte that ends an argument or opens a block. *)
Definition inert (s : string) : Prop := s ≠ "" ∧ ContainsAny s active = false.
(** The destination is a path on the same host or a web address. *)
Definition local_or_web (dst : string) : Prop :=
  (has_prefix dst "/" = true ∧ has_prefix dst "//" = false) ∨ ∃ u, url_Parse dst = Some u ∧ (u_Scheme u = "http" ∨ u_Scheme u = "https") ∧ u_Host u ≠ "" ∧ u_User u = false.
Definition safe_directive (d : string) : Prop :=
  d = front ∨ ∃ src dst code, d = "redir " +:+ src +:+ " " +:+ dst +:+ " " +:+ Itoa code ∧ 300 ≤ code ≤ 399 ∧
    has_prefix src "/" = true ∧ inert src ∧ inert dst ∧ local_or_web dst.

Fixpoint lines_of (ds : list string) : string := match ds with [] => "" | d :: rest => d +:+ line_feed +:+ lines_of rest end.

Lemma source_inert s : MatchString redirectSourcePattern s = true → has_prefix s "/" = true ∧ inert s.
Proof.
  intros Hm. pose proof Hm as Hs. apply MatchString_spec, Matches_cat in Hs as (a & b & E & Ha & _). inversion Ha as [|? c Hc| | | | |]; subst.
  assert (c = "/"%char) as ->.
  { clear -Hc. destruct c as [[] [] [] [] [] [] [] []]; done. }
  split; [apply has_prefix_iff; exists (of_bytes b); apply (inj bytes_of); by rewrite E, bytes_of_app, bytes_of_of|]. split; [by intros ->|].
  assert (all_bytes (λ c, negb (bool_decide (code c ∈ active))) s = true) as Hall by (eapply MatchString_bytes; [|exact Hm]; by vm_compute).
  unfold ContainsAny, any_byte, all_bytes in *. rewrite forallb_forall in Hall. apply existsb_false_elem. intros x Hx%list_elem_of_In. apply Hall in Hx. by apply negb_true_iff in Hx.
Qed.
Lemma target_inert t : safeRedirectTarget t = true → inert t ∧ local_or_web t.
Proof.
  unfold safeRedirectTarget. destruct (bool_decide_reflect (t = "")) as [|Hne]; [done|]. cbn [orb]. destruct (ContainsAny t active) eqn:Ea; [done|]. intros Ht. split; [done|].
  destruct (has_prefix t "/") eqn:Ep.
  - left. split; [done|]. by destruct (has_prefix t "//").
  - right. destruct (url_Parse t) as [u|]; [|done]. exists u. rewrite !andb_true_iff, orb_true_iff, !negb_true_iff, !bool_decide_eq_true, bool_decide_eq_false in Ht. naive_solver.
Qed.
Lemma redirect_safe src dst code d : 300 ≤ code ≤ 399 → redirect src dst code = Some d → safe_directive d.
Proof.
  unfold redirect. intros Hc. destruct (MatchString redirectSourcePattern src) eqn:E1; [|done]. destruct (safeRedirectTarget dst) eqn:E2; [|done]. intros [= <-].
  apply source_inert in E1 as [? ?]. apply target_inert in E2 as [? ?]. right. by exists src, dst, code.
Qed.
Lemma translateRedirect_safe fields d : translateRedirect fields = Some d → safe_directive d.
Proof.
  unfold translateRedirect. destruct fields as [|f0 [|f1 [|f2 [|f3 [|]]]]]; try done; destruct (EqualFold f0 "Redirect"); try done; cbn [negb].
  - apply redirect_safe. lia.
  - destruct (redirect_code f1) as [n|] eqn:E; [|done]. apply redirect_safe. unfold redirect_code in E. repeat case_bool_decide; simplify_eq; try lia.
    destruct (Atoi f1) as [m|]; [|done]. destruct ((m <? 300) || (399 <? m)) eqn:Em; [done|]. injection E as <-. apply orb_false_iff in Em as [?%Z.ltb_ge ?%Z.ltb_ge]. lia.
Qed.
Lemma translate_line_safe n line c : Forall safe_directive (directives c) → Forall safe_directive (directives (translate_line n line c)).
Proof.
  intros Hc. unfold translate_line. cbn zeta. repeat (match goal with |- context [if ?b then _ else _] => destruct b end; try done).
  - cbn. apply Forall_app. split; [done|]. by repeat constructor.
  - destruct (translateRedirect _) as [d|] eqn:E; [|done]. cbn. apply Forall_app. split; [done|]. constructor; [by eapply translateRedirect_safe|done].
Qed.
Lemma translate_lines_safe n lines c : Forall safe_directive (directives c) → Forall safe_directive (directives (translate_lines n lines c)).
Proof. revert n c. induction lines as [|line lines IH]; intros n c Hc; cbn; [done|]. by apply IH, translate_line_safe. Qed.
Lemma joined_lines ds : Forall (λ d, d ≠ "") ds →
  (if bool_decide (join line_feed ds = "") then join line_feed ds else join line_feed ds +:+ line_feed) = lines_of ds.
Proof.
  destruct ds as [|d ds]; [done|]. intros [Hd Hds]%Forall_cons. rewrite bool_decide_false.
  - clear Hd Hds. revert d. induction ds as [|d' ds IH]; intros d.
    + apply (inj bytes_of). cbn [join lines_of]. rewrite !bytes_of_app. by rewrite app_nil_r.
    + change (join line_feed (d :: d' :: ds)) with (d +:+ line_feed +:+ join line_feed (d' :: ds)).
      change (lines_of (d :: d' :: ds)) with (d +:+ line_feed +:+ lines_of (d' :: ds)). rewrite <- IH.
      apply (inj bytes_of). rewrite !bytes_of_app. by rewrite <- !app_assoc.
  - destruct ds as [|d' ds]; [done|]. change (join line_feed (d :: d' :: ds)) with (d +:+ line_feed +:+ join line_feed (d' :: ds)).
    intros E%(f_equal len). rewrite len_app in E. pose proof (len_nonneg d). pose proof (len_nonneg (line_feed +:+ join line_feed (d' :: ds))).
    change (len "") with 0 in E. apply Hd, len_zero. lia.
Qed.
(** Whatever the file holds, the configuration gets one line per directive, each of which is
    the fixed front controller or a redirection with inert arguments. *)
Theorem htaccess_cannot_inject content r : translateHTAccess content = Ok r →
  ∃ ds, Forall safe_directive ds ∧ CaddyDirectives r = lines_of ds.
Proof.
  unfold translateHTAccess. destruct (_ <? _); [done|]. destruct (existsb _ _); [done|]. intros [= <-]. cbn [CaddyDirectives].
  set (c := translate_lines _ _ _). assert (Forall safe_directive (directives c)) as Hc by (by apply translate_lines_safe).
  exists (directives c). split; [done|]. apply joined_lines. apply (Forall_impl _ _ _ Hc). by intros d [->|(? & ? & ? & -> & _)].
Qed.
End translate.

(** ** Example *)

Module Demo.
(** A parser that knows one address. *)
#[local] Instance toy_net : NetText := {|
  url_Parse t := if bool_decide (t = "https://new.example/") then Some (mkURL "https" "new.example" "new.example" "" false "/" "" "" "") else None;
  url_ParseRequestURI _ := None; mail_ParseAddress _ := None; json_strings _ := None; ParseAddr _ := None; ParseAddrPort _ := None; net_ParseIP _ := None |}.
Definition file (lines : list string) : string := join line_feed lines.
(** The file of a blog with a redirection; a redirection that tries to open a block is only
    reported. *)
Example blog_file :
  translateHTAccess (file ["<IfModule mod_rewrite.c>"; "RewriteEngine On"; "RewriteCond %{REQUEST_FILENAME} !-f"; "RewriteCond %{REQUEST_FILENAME} !-d";
    "RewriteRule . /index.php [L]"; "</IfModule>"; "Redirect permanent /old https://new.example/"; "Redirect /x /y{"]) =
  Ok (mkConversion (front +:+ line_feed +:+ "redir /old https://new.example/ 301" +:+ line_feed) [(8, "Redirect /x /y{")] 7).
Proof. by vm_compute. Qed.
End Demo.
End HTAccess.
